(* ===== verification/_CoqProject ===== *)
-Q . S2P
Prelude.v
LinkedList.v
ListOps.v
ListSort.v
ListSpec.v
FixedPoint.v
Bitmap.v
Vaddr.v
Palloc.v
PageAlloc.v
Hash.v
Fdt.v
KState.v
Thread.v
Synch.v
Machine.v
KernelInv.v
KernelPass.v
KernelOps.v
KernelStacks.v
KernelReach.v
KernelRuns.v
KernelSpec.v
LockInv.v
SchedSpec.v
Liveness.v
Mlfqs.v
Arith64.v
Qsort.v
Cstring.v
ArgStack.v
Stdio.v
Malloc.v
MallocInv.v
MallocSpec.v
MallocRefine.v
Pagedir.v
PagedirSpec.v
PagedirRefine.v
Ustar.v
Process.v
Load.v
LoadSpec.v
InodeStore.v
Directory.v
DirectorySpec.v
FreeMap.v
Filesys.v
FilesysSpec.v
FilesysInit.v
UserMem.v
FileOps.v
Syscall.v
SyscallSpec.v
InodeIndex.v
Block.v
Input.v
Paging.v
Random.v
Startup.v
Vm.v
VmSpec.v
VmFaults.v
