(* ===== verification/Prelude.v ===== *)
(** * A verification development for the CS 140 Pintos kernel

    The program is a small operating system kernel for the 80x86, written in C,
    with threads, user processes, a file system and virtual memory.  Paths below
    are relative to [src/pintos/src/].

    ** How code is modelled

    A pure function of the source is a function here.  Code that reads or writes
    state is a function in a state monad over the [outcome] of this file: it
    returns ([Ret]), stops the kernel ([Panic]: a failed [ASSERT], a [PANIC], a
    null or dangling pointer, a page fault in the kernel) or does not return
    ([Diverge]).  An access that the code does not check and the machine does not
    stop is made: past the end of the array of arguments in [Startup], past the
    end of a format in [Stdio], below the stack in [ArgStack] as far as the page
    is mapped, and into the list that a stale pointer of a thread names in
    [Thread].  Machine integers are elements of [Z], with the wrap-around of
    their width written out ([u8], [u32], [s32], [s64], ...).  Pointers are addresses or
    indices; where aliasing matters the model has one shared memory (the members
    of list elements in [LinkedList], bytes in [Cstring], [Malloc] and
    [Pagedir], entries on the heap in [Vm]).  Whether an allocation succeeds and
    what uninitialised memory holds are arguments.

    ** The parts of the kernel and the files that model them

    - Library.  [LinkedList] (operations), [ListOps], [ListSort], [ListSpec]:
      [lib/kernel/list.c].  [Bitmap]: [lib/kernel/bitmap.c].  [Hash]:
      [lib/kernel/hash.c].  [FixedPoint]: [threads/fixed-point.h].  [Arith64]:
      [lib/arithmetic.c].  [Qsort]: [lib/stdlib.c].  [Cstring]: [lib/string.c].
      [Stdio]: [lib/stdio.c] and [atoi].  [Ustar]: [lib/ustar.c].  [Random]:
      [lib/random.c] and [devices/rtc.c].
    - Memory.  [Vaddr]: [threads/vaddr.h], [threads/pte.h].  [Palloc]:
      [threads/palloc.c], and [PageAlloc] the interface [PageAllocator] that its
      clients are proved against.  [Malloc] (operations), [MallocInv],
      [MallocSpec], [MallocRefine]: [threads/malloc.c].  [Pagedir] (operations),
      [PagedirSpec], [PagedirRefine]: [userprog/pagedir.c].  [Paging]:
      [paging_init] of [threads/init.c].
    - Threads.  [KState] (the state), [Thread], [Synch] (the operations of
      [threads/thread.c], [threads/synch.c] and of the parts of
      [threads/interrupt.c] and [devices/timer.c] they use) and [Machine] (their
      interleaving); [KernelInv], [KernelOps], [KernelStacks], [KernelReach],
      [KernelRuns], [KernelPass] carry the invariants and runs; [KernelSpec],
      [LockInv], [SchedSpec], [Liveness], [Mlfqs] have the theorems.
    - Processes.  [Process]: parents and children in [userprog/process.c].
      [ArgStack]: the arguments on the first stack.  [Load], [LoadSpec]: the
      loader.  [Fdt]: descriptor tables in [threads/thread.c].  [UserMem]: page
      faults without virtual memory and the tests of user pointers.
      [Syscall], [SyscallSpec]: [userprog/syscall.c].
    - File system.  [InodeStore]: the interface of [filesys/inode.h].
      [Directory], [DirectorySpec]: [filesys/directory.c].  [FreeMap]:
      [filesys/free-map.c].  [Filesys], [FilesysSpec], [FilesysInit]:
      [filesys/filesys.c].  [FileOps]: [filesys/file.c].  [InodeIndex]: the index
      of [filesys/inode.c].
    - Virtual memory.  [Vm] (operations), [VmSpec], [VmFaults]: [vm/page.c],
      [vm/frame.c], [vm/swap.c], and the branches for virtual memory of
      [userprog/exception.c] and [userprog/process.c].
    - Devices and startup.  [Block]: [devices/block.c], [devices/partition.c].
      [Input]: [devices/intq.c], [devices/input.c], [devices/kbd.c].  [Startup]:
      the command line in [threads/init.c].

    ** How they fit together

    The interfaces are type classes.  [PageAllocator] is fulfilled by [Palloc];
    [Malloc], [Pagedir], [Paging], [Load], [UserMem] and [Vm] are proved against
    it.  [HashKey] states what a table needs of its hash and comparison
    functions; [Fdt] and [Vm] give instances.  [InodeStore] is what [Directory],
    [FreeMap], [Filesys], [FileOps] and [Syscall] rely on, and [simple_store]
    shows that it can be fulfilled.  [Syscall] composes [UserMem], [Fdt],
    [FileOps] and [Filesys]; [Vm] composes [Hash], [Bitmap], [Pagedir], [Block] and
    [Random]; [Ustar] and [Startup] compose [Cstring] and [Stdio].

    ** What the theorems show

    - Scheduling: the invariant of the lists of threads, their order and the
      choice of the thread to run, mutual exclusion of locks, donation of
      priorities, sleeping and waking, the end of a time slice and the ranges of
      the 4.4BSD scheduler, in every state that is [reachable] from [boot].
      [list_update_elem] re-inserts a thread without looking whether it is on
      the list its [thread_pl] names; between the two halves of [sema_up] it may
      not be, and then it ends up on two lists.  The operations do this as the
      source does and set the flag [stale] of the state, which nothing reads: [runs_to]
      are all runs, [reachable] those in which it has not happened, and
      [KernelSpec.stale_update_two_lists] is a run in which it does.
    - Allocation: pages, blocks of [malloc] and frames in page directories never
      overlap; each allocator refines a set of held blocks.
    - Containers: lists, hash tables, descriptor tables, directories, the file
      system, page directories, the supplemental page table and the keyboard
      buffer refine lists, sets, maps and queues.  The command line is shown to
      be obeyed as a table of options says it.
    - Processes: the loader is safe for any executable and builds the image its
      headers describe; the stack of arguments is that of a C program if it fits
      in the one page that is mapped, and faults otherwise; [wait] returns the
      status of [exit]; the system calls refine a specification.
    - Failures: an operation that may fail for want of memory, disk space or
      a free entry is specified with the reason for which it did (null only
      when no page is left, no such file only when there is none or the store
      below failed), so that one that always fails does not fulfil its
      specification.
    - Virtual memory: with a free frame and no swap, a page fault brings in the
      page that the entry describes, and lazy loading describes the pages that
      eager loading maps.  Eviction and swapping are modelled, and can stop the
      kernel.
    - Arithmetic, strings and formatted output: functional correctness, round
      trips, bounds and termination.
    - Where the code fails: runs and inputs for which it stops, loses data or
      uses freed memory are stated as theorems next to those on what works
      ([KernelSpec], [Process], [UserMem], [SyscallSpec], [Block], [Startup],
      [Input], [Stdio], [Random], [VmFaults]).

    ** Granularity, bounds and fuel

    In [Machine] a step runs the code of one thread up to the next call that can
    switch threads; the timer interrupt can come between any two steps in which
    interrupts are on.  In [Process] a step is a section under the status lock or
    an access outside of it.  In [Input] a step of a thread ends where it may
    lose the processor.  Elsewhere an operation runs under the lock that the
    source takes for it and is one step.

    A loop whose bound is not structural has fuel.  Theorems give a bound of the
    fuel that is always enough (for a list its length, for a bitmap its bits, for
    partitions the number of devices, for formatted output the memory behind
    the format, for options the number of arguments) and state that the code
    returns.  [Diverge] is never taken for a
    result; a loop without end is shown to diverge with every amount of fuel.

    Code outside of the sources is an argument: the instruction [divl], the
    registers of the clock, the bytes that a file delivers (with the contract
    [file_contract]), what the actions of the command line do.

    ** Not modelled

    - [filesys/cache.c] and most of [filesys/inode.c], which do not compile at
      this commit; [vm/mmap.c] and [threads/ready-list.c], which are not built.
    - Port I/O: [devices/ide.c], [devices/serial.c], [devices/vga.c],
      [devices/pit.c], [devices/speaker.c], [devices/shutdown.c], the interrupt
      controllers and descriptor tables ([threads/interrupt.c],
      [userprog/gdt.c], [userprog/tss.c] but for [tss_update]), and busy waiting.
    - Assembly: the boot loader, start code, interrupt stubs and
      [switch_threads], whose effect is a step of [Machine].
    - Console output and statistics, the messages of failed assertions,
      [hex_dump], and the utilities of [filesys/fsutil.c] other than [fsutil_ls].
    - Programs that run on the kernel: [lib/user], [examples], [tests], and the
      scripts in [utils]. *)

From stdpp Require Import base tactics list numbers option sorting gmap.
From Stdlib Require Import ZArith Lia.

(** ** Scope, notation and tactics of the development *)

Declare Scope pintos_scope.
Delimit Scope pintos_scope with pintos.

Create HintDb pintos.

(** ** Outcomes of kernel code

    Kernel code either returns, stops the machine (a failed [ASSERT], a
    [PANIC], a dereference of memory it does not own), or does not return.
    Loops whose bound is not structural carry fuel; [Diverge] is the value of
    a loop that used all of it. *)
Inductive outcome (A : Type) : Type :=
| Ret (a : A)
| Panic
| Diverge.
Arguments Ret {A} a.
Arguments Panic {A}.
Arguments Diverge {A}.

#[global] Instance outcome_ret : MRet outcome := @Ret.

#[global] Instance outcome_bind : MBind outcome := λ A B f m,
  match m with
  | Ret a => f a
  | Panic => Panic
  | Diverge => Diverge
  end.

#[global] Instance outcome_fmap : FMap outcome := λ A B f m,
  match m with
  | Ret a => Ret (f a)
  | Panic => Panic
  | Diverge => Diverge
  end.

Lemma ret_bind {A B} (a : A) (f : A → outcome B) : (Ret a ≫= f) = f a.
Proof. done. Qed.

(** The [ASSERT] macro of [lib/debug.h]. *)
Definition ASSERT (b : bool) : outcome unit := if b then Ret tt else Panic.

(** ** Stateful kernel code: explicit state passing with an outcome *)
Definition st (S A : Type) : Type := S → outcome (A * S).

#[global] Instance st_ret {S} : MRet (st S) := λ A a s, Ret (a, s).

#[global] Instance st_bind {S} : MBind (st S) := λ A B f m s,
  match m s with
  | Ret (a, s') => f a s'
  | Panic => Panic
  | Diverge => Diverge
  end.

Definition getS {S} : st S S := λ s, Ret (s, s).
Definition putS {S} (s : S) : st S unit := λ _, Ret (tt, s).
Definition gets {S A} (f : S → A) : st S A := λ s, Ret (f s, s).
Definition modifyS {S} (f : S → S) : st S unit := λ s, Ret (tt, f s).
Definition assertS {S} (b : bool) : st S unit := λ s, if b then Ret (tt, s) else Panic.
Definition panicS {S A} : st S A := λ _, Panic.
Definition divergeS {S A} : st S A := λ _, Diverge.

(** A pointer read that must find an object. *)
Definition deref {S A} (o : option A) : st S A :=
  match o with Some a => mret a | None => panicS end.

(** A computation that does not use the state. *)
Definition liftS {S A} (o : outcome A) : st S A :=
  λ s, match o with Ret a => Ret (a, s) | Panic => Panic | Diverge => Diverge end.

Lemma st_bind_ret {S A B} (m : st S A) (f : A → st S B) s a s' :
  m s = Ret (a, s') → (m ≫= f) s = f a s'.
Proof. intros H. unfold mbind, st_bind. by rewrite H. Qed.

Lemma liftS_bind_ret {S A B} (o : outcome A) (f : A → st S B) s a : o = Ret a → (liftS o ≫= f) s = f a s.
Proof. by intros ->. Qed.

Lemma st_bind_panic {S A B} (m : st S A) (f : A → st S B) s :
  m s = Panic → (m ≫= f) s = Panic.
Proof. intros H. unfold mbind, st_bind. by rewrite H. Qed.

Lemma st_bind_diverge {S A B} (m : st S A) (f : A → st S B) s :
  m s = Diverge → (m ≫= f) s = Diverge.
Proof. intros H. unfold mbind, st_bind. by rewrite H. Qed.

(** The same when the known part of the run is two binds long. *)
Lemma st_bind_ret2 {S A B C} (m : st S A) (f : A → st S B) (g : B → st S C) s b s' :
  (m ≫= f) s = Ret (b, s') → (m ≫= λ a, f a ≫= g) s = g b s'.
Proof.
  unfold mbind, st_bind. destruct (m s) as [[a s1]| |]; [|done..]. by intros ->.
Qed.

Lemma st_bind_ext {S A B} (m : st S A) (f g : A → st S B) s :
  (∀ a s', f a s' = g a s') → (m ≫= f) s = (m ≫= g) s.
Proof. intros H. unfold mbind, st_bind. by destruct (m s) as [[a s']| |]. Qed.

Lemma st_bind_inv {S A B} (m : st S A) (f : A → st S B) s b s'' :
  (m ≫= f) s = Ret (b, s'') →
  ∃ a s', m s = Ret (a, s') ∧ f a s' = Ret (b, s'').
Proof.
  unfold mbind, st_bind. destruct (m s) as [[a s']| |]; naive_solver.
Qed.

Lemma assertS_true {S} (b : bool) (s : S) : b = true → assertS b s = Ret (tt, s).
Proof. by intros ->. Qed.

Lemma assertS_inv {S} (b : bool) (s s' : S) u :
  assertS b s = Ret (u, s') → b = true ∧ s' = s.
Proof. destruct b; cbn; naive_solver. Qed.

(** A run that returns with [Q], or stops the kernel, but does not diverge. *)
Definition or_panic {S A} (m : st S A) (s : S) (Q : A → S → Prop) : Prop :=
  match m s with
  | Ret (a, s') => Q a s'
  | Panic => True
  | Diverge => False
  end.

Lemma or_panic_ret {S A} (m : st S A) s a s' (Q : A → S → Prop) : m s = Ret (a, s') → Q a s' → or_panic m s Q.
Proof. intros H HQ. unfold or_panic. by rewrite H. Qed.

Lemma or_panic_bind {S A B} (m : st S A) (f : A → st S B) s (Q : A → S → Prop) (R : B → S → Prop) :
  or_panic m s Q → (∀ a s', Q a s' → or_panic (f a) s' R) → or_panic (m ≫= f) s R.
Proof. intros Hm Hf. unfold or_panic, mbind, st_bind in *. destruct (m s) as [[a s']| |]; [by apply Hf|done..]. Qed.

Lemma or_panic_step {S A B} (m : st S A) (f : A → st S B) s a s' (R : B → S → Prop) :
  m s = Ret (a, s') → or_panic (f a) s' R → or_panic (m ≫= f) s R.
Proof. intros H HR. unfold or_panic in *. by rewrite (st_bind_ret _ _ _ _ _ H). Qed.

Lemma or_panic_weaken {S A} (m : st S A) s (Q R : A → S → Prop) :
  or_panic m s Q → (∀ a s', Q a s' → R a s') → or_panic m s R.
Proof. intros Hm HQ. unfold or_panic in *. destruct (m s) as [[a s']| |]; [by apply HQ|done..]. Qed.

(** Symbolic execution of a bind chain: [st_step] reduces the head of a goal
    [(m ≫= f) s = _] once [m s] is known. *)
Ltac st_step H := rewrite (st_bind_ret _ _ _ _ _ H).

(** Passes an assertion that holds. *)
Ltac st_assert := erewrite st_bind_ret; [|apply assertS_true; done].

(** Inversion of a successful run, hypothesis by hypothesis. *)
Ltac st_inv :=
  repeat match goal with
  | H : (_ ≫= _) _ = Ret _ |- _ =>
      let E := fresh "Hrun" in
      apply st_bind_inv in H as (? & ? & E & H)
  | H : assertS _ _ = Ret _ |- _ => apply assertS_inv in H as [? ->]
  | H : gets _ _ = Ret _ |- _ => cbv [gets] in H
  | H : modifyS _ _ = Ret _ |- _ => cbv [modifyS] in H
  | H : getS _ = Ret _ |- _ => cbv [getS] in H
  | H : putS _ _ = Ret _ |- _ => cbv [putS] in H
  | H : mret _ _ = Ret _ |- _ => cbv [mret st_ret] in H
  | H : panicS _ = Ret _ |- _ => discriminate H
  | H : divergeS _ = Ret _ |- _ => discriminate H
  | H : Ret _ = Ret _ |- _ => injection H as ?; subst
  | H : (_, _) = (_, _) |- _ => injection H as ?; subst
  end.

Lemma gets_inv {S A} (f : S → A) s a s' : gets f s = Ret (a, s') → a = f s ∧ s' = s.
Proof. by intros [= <- <-]. Qed.
Lemma getS_inv {S} (s a s' : S) : getS s = Ret (a, s') → a = s ∧ s' = s.
Proof. by intros [= <- <-]. Qed.
Lemma modifyS_inv {S} (f : S → S) s u s' : modifyS f s = Ret (u, s') → s' = f s.
Proof. by intros [= _ <-]. Qed.
Lemma mret_inv {S A} (v : A) (s : S) a s' : mret (M := st S) v s = Ret (a, s') → a = v ∧ s' = s.
Proof. by intros [= <- <-]. Qed.

(** The same, replacing later states by their value in terms of the first. *)
Ltac st_run H :=
  repeat match type of H with
  | (_ ≫= _) _ = Ret _ =>
      let H' := fresh "Hstep" in
      apply st_bind_inv in H as (? & ? & H' & H); st_run H'
  | assertS _ _ = Ret _ =>
      let H' := fresh "Hassert" in
      apply assertS_inv in H as [H' ->]
  | gets _ _ = Ret _ => first [apply gets_inv in H as [-> ->] | apply gets_inv in H as [? ->]]
  | getS _ = Ret _ => apply getS_inv in H as [-> ->]
  | modifyS _ _ = Ret _ => apply modifyS_inv in H as ->
  | mret _ _ = Ret _ => first [apply mret_inv in H as [-> ->] | apply mret_inv in H as [? ->]]
  | panicS _ = Ret _ => discriminate H
  end.

(** ** Machine integers

    The kernel is compiled for i386: [int], [unsigned], [long], [size_t] and
    pointers are 32 bits wide, [long long] and [int64_t] are 64.  A [w]-bit
    integer is a [Z] kept in range by the conversions below. *)
Definition u8 (x : Z) : Z := x mod 2 ^ 8.
Definition u16 (x : Z) : Z := x mod 2 ^ 16.
Definition u32 (x : Z) : Z := x mod 2 ^ 32.
Definition u64 (x : Z) : Z := x mod 2 ^ 64.
Definition s32 (x : Z) : Z := (x + 2 ^ 31) mod 2 ^ 32 - 2 ^ 31.
Definition s64 (x : Z) : Z := (x + 2 ^ 63) mod 2 ^ 64 - 2 ^ 63.

Open Scope Z_scope.

(** [lia] with quotients and remainders. *)
Ltac zlia := Z.to_euclidean_division_equations; lia.

(** Closed decidable goals, by evaluation. *)
Ltac by_decide := refine (bool_decide_unpack _ _); vm_compute; exact I.

Definition SIZE_MAX : Z := 2 ^ 32 - 1.
Definition INT_MAX : Z := 2 ^ 31 - 1.
Definition INT_MIN : Z := - 2 ^ 31.

Lemma u32_id x : 0 ≤ x < 2 ^ 32 → u32 x = x.
Proof. intros. unfold u32. by apply Z.mod_small. Qed.

Lemma u64_id x : 0 ≤ x < 2 ^ 64 → u64 x = x.
Proof. intros. unfold u64. by apply Z.mod_small. Qed.

Lemma u8_range x : 0 ≤ u8 x < 2 ^ 8.
Proof. apply Z.mod_pos_bound. lia. Qed.

Lemma u32_range x : 0 ≤ u32 x < 2 ^ 32.
Proof. apply Z.mod_pos_bound. lia. Qed.

Lemma u64_range x : 0 ≤ u64 x < 2 ^ 64.
Proof. apply Z.mod_pos_bound. lia. Qed.

Lemma s32_range x : - 2 ^ 31 ≤ s32 x < 2 ^ 31.
Proof.
  unfold s32. pose proof (Z.mod_pos_bound (x + 2 ^ 31) (2 ^ 32)). lia.
Qed.

Lemma s64_range x : - 2 ^ 63 ≤ s64 x < 2 ^ 63.
Proof.
  unfold s64. pose proof (Z.mod_pos_bound (x + 2 ^ 63) (2 ^ 64)). lia.
Qed.

Lemma s32_id x : - 2 ^ 31 ≤ x < 2 ^ 31 → s32 x = x.
Proof. intros. unfold s32. rewrite Z.mod_small; lia. Qed.

Lemma s64_id x : - 2 ^ 63 ≤ x < 2 ^ 63 → s64 x = x.
Proof. intros. unfold s64. rewrite Z.mod_small; lia. Qed.

(** Bitwise operations stay within 32 bits. *)
Lemma u32_bits x : 0 ≤ x → (0 ≤ x < 2 ^ 32 ↔ ∀ j, 32 ≤ j → Z.testbit x j = false).
Proof. intros. pose proof (Z.bounded_iff_bits_nonneg 32 x). naive_solver lia. Qed.

Lemma lor_range x y : 0 ≤ x < 2 ^ 32 → 0 ≤ y < 2 ^ 32 → 0 ≤ Z.lor x y < 2 ^ 32.
Proof.
  intros Hx Hy. assert (0 ≤ Z.lor x y) by (apply Z.lor_nonneg; lia).
  apply u32_bits; [lia|]. intros j Hj. rewrite Z.lor_spec.
  rewrite (proj1 (u32_bits x ltac:(lia)) Hx j), (proj1 (u32_bits y ltac:(lia)) Hy j); done.
Qed.

Lemma lxor_range x y : 0 ≤ x < 2 ^ 32 → 0 ≤ y < 2 ^ 32 → 0 ≤ Z.lxor x y < 2 ^ 32.
Proof.
  intros Hx Hy. assert (0 ≤ Z.lxor x y) by (apply Z.lxor_nonneg; lia).
  apply u32_bits; [lia|]. intros j Hj. rewrite Z.lxor_spec.
  rewrite (proj1 (u32_bits x ltac:(lia)) Hx j), (proj1 (u32_bits y ltac:(lia)) Hy j); done.
Qed.

Lemma land_range x y : 0 ≤ x < 2 ^ 32 → 0 ≤ Z.land x y < 2 ^ 32.
Proof.
  intros Hx. assert (0 ≤ Z.land x y) by (apply Z.land_nonneg; lia).
  apply u32_bits; [lia|]. intros j Hj. rewrite Z.land_spec.
  by rewrite (proj1 (u32_bits x ltac:(lia)) Hx j).
Qed.

(** Truncating division of C; [Z.quot] and [Z.rem] of the standard library. *)
Notation "x '/c' y" := (Z.quot x y) (at level 40, left associativity) : pintos_scope.
Notation "x '%c' y" := (Z.rem x y) (at level 40, left associativity) : pintos_scope.

(** [DIV_ROUND_UP] and [ROUND_UP] of [lib/round.h], on values that do not
    overflow. *)
Definition DIV_ROUND_UP (x step : Z) : Z := (x + step - 1) / step.
Definition ROUND_UP (x step : Z) : Z := DIV_ROUND_UP x step * step.

Lemma DIV_ROUND_UP_spec x step :
  0 < step → x ≤ DIV_ROUND_UP x step * step < x + step.
Proof.
  intros Hs. unfold DIV_ROUND_UP.
  pose proof (Z.div_mod (x + step - 1) step).
  pose proof (Z.mod_pos_bound (x + step - 1) step). nia.
Qed.

(** ** Lists *)

Lemma filter_none {A} (P : A → Prop) `{!∀ x, Decision (P x)} (l : list A) :
  (∀ x, x ∈ l → ¬ P x) → filter P l = [].
Proof.
  induction l as [|x l IH]; intros Hn; [done|]. rewrite filter_cons_False, IH; [done|set_solver..].
Qed.

Lemma filter_all {A} (P : A → Prop) `{!∀ x, Decision (P x)} (l : list A) :
  (∀ x, x ∈ l → P x) → filter P l = l.
Proof.
  induction l as [|x l IH]; intros Hp; [done|].
  rewrite filter_cons_True, IH by (intros; apply Hp; set_solver). done.
Qed.

Lemma filter_ext_in {A} (P Q : A → Prop) `{!∀ x, Decision (P x), !∀ x, Decision (Q x)} (l : list A) :
  (∀ x, x ∈ l → P x ↔ Q x) → filter P l = filter Q l.
Proof.
  induction l as [|x l IH]; intros Hp; [done|]. specialize (IH ltac:(set_solver)).
  specialize (Hp x ltac:(set_solver)). rewrite !filter_cons, IH. by repeat case_decide; try tauto.
Qed.

Lemma filter_ne {A} `{!EqDecision A} (e : A) (l : list A) :
  e ∉ l → filter (λ x, x ≠ e) l = l.
Proof.
  induction l as [|x l IH]; [done|]. intros [? ?]%not_elem_of_cons.
  rewrite filter_cons_True by done. by rewrite IH.
Qed.

(** Taking out one of several different elements. *)
Lemma filter_remove {A} `{!EqDecision A} (e : A) (l : list A) :
  NoDup l → e ∈ l → l ≡ₚ e :: filter (λ x, x ≠ e) l.
Proof.
  intros Hnd (xs & ys & ->)%list_elem_of_split.
  apply NoDup_app in Hnd as (_ & Hd & [He _]%NoDup_cons).
  rewrite filter_app, filter_cons_False by auto. rewrite !filter_ne; [|done|set_solver].
  symmetry. apply Permutation_middle.
Qed.

Lemma list_snoc_inv {A} (l : list A) : l = [] ∨ ∃ l' x, l = l' ++ [x].
Proof. induction l using rev_ind; eauto. Qed.

(** ** Reflexive transitive closure of a step relation *)
Section star.
Context {A : Type} (R : A → A → Prop).

Inductive star : A → A → Prop :=
| star_refl a : star a a
| star_step a b c : R a b → star b c → star a c.

(** An invariant of the initial state kept by every step holds of every
    reachable state. *)
Lemma star_invariant (P : A → Prop) a b :
  (∀ x y, P x → R x y → P y) → P a → star a b → P b.
Proof. intros Hstep Ha Hs. induction Hs; eauto. Qed.
End star.
