(* ===== verification/LinkedList.v ===== *)
(** * Intrusive doubly linked lists: [lib/kernel/list.c]

    Every list of the kernel (the run queue, the waiters of a semaphore, the
    buckets of a hash table, ...) is an intrusive doubly linked list with a
    head and a tail sentinel.  This file models [list.c] at the level of the
    pointers it updates: the [prev] and [next] members of all the
    [struct list_elem]s of memory are two finite maps, and every function is
    the sequence of member reads and writes of its C body, assertions
    included.  [is_list h l xs] says that list [l] holds the elements [xs] in
    memory [h]; the lemmas show what each function does to [xs]. *)

From stdpp Require Import base tactics list numbers option sorting gmap.
From Stdlib Require Import ZArith Lia.
From S2P Require Import Prelude.

(** ** Memory *)

(** Addresses of [struct list_elem]s; [None] is the null pointer. *)
Abbreviation loc := positive (only parsing).
Abbreviation ptr := (option positive) (only parsing).

(** The members of every [struct list_elem] in memory. *)
Record heap : Type := Heap {
  prev : gmap loc ptr;
  next : gmap loc ptr
}.

(** A [struct list] is its two sentinel elements. *)
Record list_hdr : Type := ListHdr {
  head : loc;
  tail : loc
}.

Definition lget (f : heap → gmap loc ptr) (e : ptr) : st heap ptr :=
  a ← deref e; h ← getS; deref (f h !! a).

Definition get_prev : ptr → st heap ptr := lget prev.
Definition get_next : ptr → st heap ptr := lget next.

(** Stores fault on memory that holds no [struct list_elem]. *)
Definition set_prev (e v : ptr) : st heap unit :=
  a ← deref e; h ← getS; deref (prev h !! a) ≫= λ _,
  putS (Heap (<[a := v]> (prev h)) (next h)).

Definition set_next (e v : ptr) : st heap unit :=
  a ← deref e; h ← getS; deref (next h !! a) ≫= λ _,
  putS (Heap (prev h) (<[a := v]> (next h))).

Definition nonnull (p : ptr) : bool := match p with Some _ => true | None => false end.

(** Pointer comparison. *)
Definition peq (p q : ptr) : bool := bool_decide (p = q).

(** ** Sentinels and interior elements *)

Definition is_head (elem : ptr) : st heap bool :=
  if nonnull elem then
    p ← get_prev elem; n ← get_next elem; mret (negb (nonnull p) && nonnull n)
  else mret false.

Definition is_interior (elem : ptr) : st heap bool :=
  if nonnull elem then
    p ← get_prev elem; n ← get_next elem; mret (nonnull p && nonnull n)
  else mret false.

Definition is_tail (elem : ptr) : st heap bool :=
  if nonnull elem then
    p ← get_prev elem; n ← get_next elem; mret (nonnull p && negb (nonnull n))
  else mret false.

(** ** Traversal *)

Definition list_init (l : list_hdr) : st heap unit :=
  set_prev (Some (head l)) None;;
  set_next (Some (head l)) (Some (tail l));;
  set_prev (Some (tail l)) (Some (head l));;
  set_next (Some (tail l)) None.

Definition list_begin (l : list_hdr) : st heap ptr := get_next (Some (head l)).

Definition list_next (elem : ptr) : st heap ptr :=
  a ← is_head elem; b ← is_interior elem;
  assertS (a || b);;
  get_next elem.

Definition list_end (l : list_hdr) : ptr := Some (tail l).

Definition list_rbegin (l : list_hdr) : st heap ptr := get_prev (Some (tail l)).

Definition list_prev (elem : ptr) : st heap ptr :=
  a ← is_interior elem; b ← is_tail elem;
  assertS (a || b);;
  get_prev elem.

Definition list_rend (l : list_hdr) : ptr := Some (head l).
Definition list_head (l : list_hdr) : ptr := Some (head l).
Definition list_tail (l : list_hdr) : ptr := Some (tail l).

(** ** Insertion and removal *)

Definition list_insert (before elem : ptr) : st heap unit :=
  a ← is_interior before; b ← is_tail before;
  assertS (a || b);;
  assertS (nonnull elem);;
  (p ← get_prev before; set_prev elem p);;
  set_next elem before;;
  (p ← get_prev before; set_next p elem);;
  set_prev before elem.

Definition list_splice (before first last : ptr) : st heap unit :=
  a ← is_interior before; b ← is_tail before;
  assertS (a || b);;
  if peq first last then mret tt
  else
    last ← list_prev last;
    a ← is_interior first; assertS a;;
    b ← is_interior last; assertS b;;
    (* Cleanly remove FIRST...LAST from its current list. *)
    (p ← get_prev first; n ← get_next last; set_next p n);;
    (n ← get_next last; p ← get_prev first; set_prev n p);;
    (* Splice FIRST...LAST into new list. *)
    (p ← get_prev before; set_prev first p);;
    set_next last before;;
    (p ← get_prev before; set_next p first);;
    set_prev before last.

Definition list_push_front (l : list_hdr) (elem : ptr) : st heap unit :=
  b ← list_begin l; list_insert b elem.

Definition list_push_back (l : list_hdr) (elem : ptr) : st heap unit :=
  list_insert (list_end l) elem.

Definition list_remove (elem : ptr) : st heap ptr :=
  a ← is_interior elem;
  assertS a;;
  (p ← get_prev elem; n ← get_next elem; set_next p n);;
  (n ← get_next elem; p ← get_prev elem; set_prev n p);;
  get_next elem.

Definition list_empty (l : list_hdr) : st heap bool :=
  b ← list_begin l; mret (peq b (list_end l)).

Definition list_front (l : list_hdr) : st heap ptr :=
  e ← list_empty l;
  assertS (negb e);;
  get_next (Some (head l)).

Definition list_back (l : list_hdr) : st heap ptr :=
  e ← list_empty l;
  assertS (negb e);;
  get_prev (Some (tail l)).

Definition list_pop_front (l : list_hdr) : st heap ptr :=
  front ← list_front l;
  list_remove front;;
  mret front.

Definition list_pop_back (l : list_hdr) : st heap ptr :=
  back ← list_back l;
  list_remove back;;
  mret back.

(** The loop [for (e = list_begin (list); e != list_end (list);
    e = list_next (e)) cnt++]. *)
Fixpoint list_size_loop (fuel : nat) (l : list_hdr) (e : ptr) (cnt : Z) : st heap Z :=
  match fuel with
  | O => divergeS
  | S fuel =>
      if peq e (list_end l) then mret cnt
      else e ← list_next e; list_size_loop fuel l e (u32 (cnt + 1))
  end.

Definition list_size (fuel : nat) (l : list_hdr) : st heap Z :=
  e ← list_begin l; list_size_loop fuel l e 0.

(** [swap (&e->prev, &e->next)]. *)
Definition swap_links (e : ptr) : st heap unit :=
  p ← get_prev e; n ← get_next e;
  set_prev e n;; set_next e p.

Fixpoint list_reverse_loop (fuel : nat) (l : list_hdr) (e : ptr) : st heap unit :=
  match fuel with
  | O => divergeS
  | S fuel =>
      if peq e (list_end l) then mret tt
      else swap_links e;; e ← get_prev e; list_reverse_loop fuel l e
  end.

Definition list_reverse (fuel : nat) (l : list_hdr) : st heap unit :=
  em ← list_empty l;
  if negb em then
    (e ← list_begin l; list_reverse_loop fuel l e);;
    (* swap (&list->head.next, &list->tail.prev); *)
    (n ← get_next (Some (head l)); p ← get_prev (Some (tail l));
     set_next (Some (head l)) p;; set_prev (Some (tail l)) n);;
    (* swap (&list->head.next->prev, &list->tail.prev->next); *)
    (hn ← get_next (Some (head l)); tp ← get_prev (Some (tail l));
     a ← get_prev hn; b ← get_next tp;
     set_prev hn b;; set_next tp a)
  else mret tt.

(** ** Operations ordered by a comparison *)

(** A [list_less_func] with its [AUX] argument applied.  It reads the
    structures the elements are embedded in, which list operations leave
    alone, so it is a function of the two addresses. *)
Definition list_less_func : Type := loc → loc → bool.

Definition call_less (less : list_less_func) (a b : ptr) : st heap bool :=
  a ← deref a; b ← deref b; mret (less a b).

Fixpoint is_sorted_loop (fuel : nat) (a b : ptr) (less : list_less_func) : st heap bool :=
  match fuel with
  | O => divergeS
  | S fuel =>
      a ← list_next a;
      if peq a b then mret true
      else
        p ← list_prev a;
        c ← call_less less a p;
        if (c : bool) then mret false else is_sorted_loop fuel a b less
  end.

Definition is_sorted (fuel : nat) (a b : ptr) (less : list_less_func) : st heap bool :=
  if peq a b then mret true else is_sorted_loop fuel a b less.

Fixpoint find_end_of_run_loop (fuel : nat) (a b : ptr) (less : list_less_func) : st heap ptr :=
  match fuel with
  | O => divergeS
  | S fuel =>
      a ← list_next a;
      if peq a b then mret a
      else
        p ← list_prev a;
        c ← call_less less a p;
        if (c : bool) then mret a else find_end_of_run_loop fuel a b less
  end.

Definition find_end_of_run (fuel : nat) (a b : ptr) (less : list_less_func) : st heap ptr :=
  assertS (nonnull a);;
  assertS (nonnull b);;
  assertS (negb (peq a b));;
  find_end_of_run_loop fuel a b less.

Fixpoint inplace_merge_loop (fuel : nat) (a0 a1b0 b1 : ptr) (less : list_less_func) : st heap unit :=
  match fuel with
  | O => divergeS
  | S fuel =>
      if negb (peq a0 a1b0) && negb (peq a1b0 b1) then
        c ← call_less less a1b0 a0;
        if negb c then
          a0 ← list_next a0; inplace_merge_loop fuel a0 a1b0 b1 less
        else
          a1b0 ← list_next a1b0;
          (p ← list_prev a1b0; list_splice a0 p a1b0);;
          inplace_merge_loop fuel a0 a1b0 b1 less
      else mret tt
  end.

Definition inplace_merge (fuel : nat) (a0 a1b0 b1 : ptr) (less : list_less_func) : st heap unit :=
  assertS (nonnull a0);;
  assertS (nonnull a1b0);;
  assertS (nonnull b1);;
  (s ← is_sorted fuel a0 a1b0 less; assertS s);;
  (s ← is_sorted fuel a1b0 b1 less; assertS s);;
  inplace_merge_loop fuel a0 a1b0 b1 less.

(** One pass over the list: the body of the [do] loop of [list_sort]; the
    result is [output_run_cnt]. *)
Fixpoint list_sort_pass (fuel : nat) (l : list_hdr) (a0 : ptr) (output_run_cnt : Z)
    (less : list_less_func) : st heap Z :=
  match fuel with
  | O => divergeS
  | S fuel' =>
      if peq a0 (list_end l) then mret output_run_cnt
      else
        let output_run_cnt := u32 (output_run_cnt + 1) in
        a1b0 ← find_end_of_run fuel a0 (list_end l) less;
        if peq a1b0 (list_end l) then mret output_run_cnt
        else
          b1 ← find_end_of_run fuel a1b0 (list_end l) less;
          inplace_merge fuel a0 a1b0 b1 less;;
          list_sort_pass fuel' l b1 output_run_cnt less
  end.

Fixpoint list_sort_loop (passes fuel : nat) (l : list_hdr) (less : list_less_func) : st heap unit :=
  match passes with
  | O => divergeS
  | S passes =>
      a0 ← list_begin l;
      output_run_cnt ← list_sort_pass fuel l a0 0 less;
      if 1 <? output_run_cnt then list_sort_loop passes fuel l less else mret tt
  end.

Definition list_sort (fuel : nat) (l : list_hdr) (less : list_less_func) : st heap unit :=
  list_sort_loop fuel fuel l less;;
  (b ← list_begin l; s ← is_sorted fuel b (list_end l) less; assertS s).

Fixpoint list_insert_ordered_loop (fuel : nat) (l : list_hdr) (e elem : ptr)
    (less : list_less_func) : st heap ptr :=
  match fuel with
  | O => divergeS
  | S fuel =>
      if peq e (list_end l) then mret e
      else
        c ← call_less less elem e;
        if (c : bool) then mret e
        else e ← list_next e; list_insert_ordered_loop fuel l e elem less
  end.

Definition list_insert_ordered (fuel : nat) (l : list_hdr) (elem : ptr)
    (less : list_less_func) : st heap unit :=
  assertS (nonnull elem);;
  e ← list_begin l;
  e ← list_insert_ordered_loop fuel l e elem less;
  list_insert e elem.

Fixpoint list_unique_loop (fuel : nat) (l : list_hdr) (duplicates : option list_hdr)
    (elem : ptr) (less : list_less_func) : st heap unit :=
  match fuel with
  | O => divergeS
  | S fuel =>
      nxt ← list_next elem;
      if peq nxt (list_end l) then mret tt
      else
        c1 ← call_less less elem nxt;
        c2 ← call_less less nxt elem;
        if negb c1 && negb c2 then
          list_remove nxt;;
          match duplicates with
          | Some d => list_push_back d nxt
          | None => mret tt
          end;;
          list_unique_loop fuel l duplicates elem less
        else list_unique_loop fuel l duplicates nxt less
  end.

Definition list_unique (fuel : nat) (l : list_hdr) (duplicates : option list_hdr)
    (less : list_less_func) : st heap unit :=
  em ← list_empty l;
  if (em : bool) then mret tt
  else e ← list_begin l; list_unique_loop fuel l duplicates e less.

(** The list argument may be null here: callers pass a thread's [thread_pl]. *)
Definition list_update_elem (fuel : nat) (l : option list_hdr) (e : ptr)
    (cmp : list_less_func) : st heap unit :=
  match l with
  | None => panicS
  | Some l => list_remove e;; list_insert_ordered fuel l e cmp
  end.

Fixpoint list_max_loop (fuel : nat) (l : list_hdr) (max e : ptr) (less : list_less_func) : st heap ptr :=
  match fuel with
  | O => divergeS
  | S fuel =>
      if peq e (list_end l) then mret max
      else
        c ← call_less less max e;
        e' ← list_next e;
        list_max_loop fuel l (if (c : bool) then e else max) e' less
  end.

Definition list_max (fuel : nat) (l : list_hdr) (less : list_less_func) : st heap ptr :=
  max ← list_begin l;
  if peq max (list_end l) then mret max
  else e ← list_next max; list_max_loop fuel l max e less.

Fixpoint list_min_loop (fuel : nat) (l : list_hdr) (min e : ptr) (less : list_less_func) : st heap ptr :=
  match fuel with
  | O => divergeS
  | S fuel =>
      if peq e (list_end l) then mret min
      else
        c ← call_less less e min;
        e' ← list_next e;
        list_min_loop fuel l (if (c : bool) then e else min) e' less
  end.

Definition list_min (fuel : nat) (l : list_hdr) (less : list_less_func) : st heap ptr :=
  min ← list_begin l;
  if peq min (list_end l) then mret min
  else e ← list_next min; list_min_loop fuel l min e less.

(** ** Representation of a list in memory *)

(** [x] and [y] are neighbours: [x->next == y] and [y->prev == x]. *)
Definition linked (h : heap) (x y : loc) : Prop :=
  next h !! x = Some (Some y) ∧ prev h !! y = Some (Some x).

Fixpoint chain (h : heap) (l : list loc) : Prop :=
  match l with
  | x :: (y :: _) as l' => linked h x y ∧ chain h l'
  | _ => True
  end.

(** All the elements of a list, sentinels included. *)
Definition nodes (l : list_hdr) (xs : list loc) : list loc :=
  head l :: xs ++ [tail l].

Record is_list (h : heap) (l : list_hdr) (xs : list loc) : Prop := IsList {
  il_nodup : NoDup (nodes l xs);
  il_chain : chain h (nodes l xs);
  il_head : prev h !! head l = Some None;
  il_tail : next h !! tail l = Some None
}.

(** Memory that holds a [struct list_elem] at [x], whatever its members. *)
Definition allocated (h : heap) (x : loc) : Prop :=
  is_Some (prev h !! x) ∧ is_Some (next h !! x).

(** Stores to the elements of [D] only. *)
Definition same_except (D : list loc) (h h' : heap) : Prop :=
  ∀ x, x ∉ D → prev h' !! x = prev h !! x ∧ next h' !! x = next h !! x.

(** *** Chains *)

Lemma chain_cons h x l :
  chain h (x :: l) ↔ (∀ y, list.head l = Some y → linked h x y) ∧ chain h l.
Proof. destruct l; cbn; naive_solver. Qed.

Lemma chain_seam h l1 l2 :
  chain h (l1 ++ l2) ↔
  chain h l1 ∧ chain h l2 ∧
  (∀ x y, last l1 = Some x → list.head l2 = Some y → linked h x y).
Proof.
  induction l1 as [|x l1 IH]; [cbn; naive_solver|].
  rewrite <-app_comm_cons, !chain_cons, IH, last_cons, head_app.
  destruct l1 as [|z l1]; cbn; [naive_solver|].
  assert (is_Some (last (z :: l1))) as [w Hw] by (apply last_is_Some; done).
  rewrite Hw. naive_solver.
Qed.

(** A chain depends on the [next] of all its elements but the last and on the
    [prev] of all but the first. *)
Lemma chain_frame h h' l :
  NoDup l →
  (∀ x, x ∈ l → last l ≠ Some x → next h' !! x = next h !! x) →
  (∀ x, x ∈ l → list.head l ≠ Some x → prev h' !! x = prev h !! x) →
  chain h l → chain h' l.
Proof.
  induction l as [|x l IH]; [done|].
  intros [Hx Hnd]%NoDup_cons Hn Hp [Hl Hc]%chain_cons. apply chain_cons. split.
  - intros y Hy. assert (y ∈ l) by (by apply head_Some_elem_of).
    destruct (Hl y Hy) as [Hxy Hyx]. split.
    + rewrite Hn; [done|set_solver|]. rewrite last_cons.
      destruct (last l) eqn:E; [|apply last_None in E; subst; set_solver].
      apply last_Some_elem_of in E. intros [= ->]. done.
    + rewrite Hp; [done|set_solver|]. cbn. intros [= ->]. done.
  - apply IH; [done| | |done].
    + intros y Hy Hne. apply Hn; [set_solver|]. rewrite last_cons.
      destruct (last l) eqn:E; [done|]. apply last_None in E; subst; set_solver.
    + intros y Hy Hne. apply Hp; [set_solver|]. cbn. intros [= ->]. done.
Qed.

(** *** Executing member reads and writes *)

(** Unfolds the monad and the member accesses of a run; what remains are
    lookups of the two maps. *)
Ltac lunfold :=
  cbv beta iota zeta delta [list_insert list_splice list_remove list_next list_prev
    list_begin list_rbegin list_init swap_links
    is_head is_interior is_tail get_prev get_next set_prev set_next lget nonnull
    mbind mret st_bind st_ret getS putS deref panicS assertS prev next
    negb andb orb].

(** Evaluates lookups from the hypotheses. *)
Ltac leval :=
  repeat first
    [ progress (cbv beta iota delta [negb andb orb])
    | match goal with
      | H : ?m !! ?i = Some _ |- context [?m !! ?i] => rewrite H
      | |- context [<[?i := _]> _ !! ?i] => rewrite lookup_insert_eq
      | |- context [<[?i := _]> _ !! ?j] => rewrite (lookup_insert_ne _ i j) by congruence
      end ].

Ltac lrun := lunfold; leval.

Lemma list_insert_run hp hn before elem p b e1 e2 v :
  before ≠ elem →
  hp !! before = Some (Some p) → hn !! before = Some b →
  hp !! elem = Some e1 → hn !! elem = Some e2 → hn !! p = Some v →
  p ≠ elem →
  list_insert (Some before) (Some elem) (Heap hp hn) =
    Ret (tt, Heap (<[before := Some elem]> (<[elem := Some p]> hp))
                  (<[p := Some elem]> (<[elem := Some before]> hn))).
Proof.
  intros. destruct b; lrun; done.
Qed.

Lemma list_remove_run hp hn elem p n v w :
  hp !! elem = Some (Some p) → hn !! elem = Some (Some n) →
  hn !! p = Some v → hp !! n = Some w → p ≠ elem → n ≠ elem →
  list_remove (Some elem) (Heap hp hn) =
    Ret (Some n, Heap (<[n := Some p]> hp) (<[p := Some n]> hn)).
Proof. intros. lrun. done. Qed.

Lemma list_next_run h x y :
  next h !! x = Some (Some y) → is_Some (prev h !! x) →
  list_next (Some x) h = Ret (Some y, h).
Proof. destruct h as [hp hn]. cbn. intros ? [[] ?]; lrun; done. Qed.

Lemma list_prev_run h x y :
  prev h !! y = Some (Some x) → is_Some (next h !! y) →
  list_prev (Some y) h = Ret (Some x, h).
Proof. destruct h as [hp hn]. cbn. intros ? [[] ?]; lrun; done. Qed.

Lemma list_splice_run hp hn before first lst l pb bn pf lv v1 v2 v3 v4 :
  hp !! before = Some (Some pb) → hn !! before = Some bn →
  hp !! lst = Some (Some l) → hn !! lst = Some lv →
  hp !! first = Some (Some pf) → hn !! first = Some (Some v1) →
  hp !! l = Some (Some v2) → hn !! l = Some (Some lst) →
  hn !! pf = Some v3 → hn !! pb = Some v4 →
  first ≠ lst → before ≠ lst → pf ≠ l → first ≠ before → pb ≠ l → pb ≠ pf →
  list_splice (Some before) (Some first) (Some lst) (Heap hp hn) =
    Ret (tt, Heap (<[before := Some l]> (<[first := Some pb]> (<[lst := Some pf]> hp)))
                  (<[pb := Some first]> (<[l := Some before]> (<[pf := Some lst]> hn)))).
Proof.
  intros. unfold list_splice, peq. rewrite bool_decide_eq_false_2 by congruence.
  destruct bn, lv; lrun; done.
Qed.

(** *** Updates of a chain *)

Lemma chain_linked h l1 l2 x y :
  last l1 = Some x → list.head l2 = Some y → chain h (l1 ++ l2) → linked h x y.
Proof. intros ? ? (_ & _ & Hs)%chain_seam. eauto. Qed.

(** Lookups in updated maps under disjointness facts: [lsimpl] rewrites reads
    of untouched elements away. *)
Ltac lne := first [ congruence | set_solver ].
Ltac lsimpl :=
  cbn [prev next];
  repeat first
    [ rewrite lookup_insert_eq
    | match goal with
      | |- context [<[?i := _]> _ !! ?j] => rewrite (lookup_insert_ne _ i j) by lne
      end ].

Lemma last_elem {A} (l : list A) x : last l = Some x → x ∈ l.
Proof. apply last_Some_elem_of. Qed.

Lemma head_elem {A} (l : list A) x : list.head l = Some x → x ∈ l.
Proof. apply head_Some_elem_of. Qed.

(** Derives the membership facts behind the disequalities of an update. *)
Ltac lmem :=
  repeat match goal with
  | H : last ?l = Some ?x |- _ =>
      lazymatch goal with
      | _ : x ∈ l |- _ => fail
      | _ => pose proof (last_elem _ _ H)
      end
  | H : list.head ?l = Some ?x |- _ =>
      lazymatch goal with
      | _ : x ∈ l |- _ => fail
      | _ => pose proof (head_elem _ _ H)
      end
  end.

Lemma chain_insert hp hn A B p b e :
  NoDup (A ++ B) → e ∉ A ++ B → last A = Some p → list.head B = Some b →
  chain (Heap hp hn) (A ++ B) →
  chain (Heap (<[b := Some e]> (<[e := Some p]> hp))
              (<[p := Some e]> (<[e := Some b]> hn))) (A ++ e :: B).
Proof.
  intros Hnd He Hp Hb Hc. lmem.
  apply NoDup_app in Hnd as (HA & Hd & HB).
  apply chain_seam in Hc as (HcA & HcB & _).
  apply chain_seam. split_and!.
  - eapply chain_frame; [done| | |exact HcA]; intros x Hx ?; lsimpl; try done.
  - apply chain_cons. split.
    + intros y ?. simplify_eq. split; lsimpl; done.
    + eapply chain_frame; [done| | |exact HcB]; intros x Hx ?; lsimpl; done.
  - intros x y ? ?. simplify_eq/=. split; lsimpl; done.
Qed.

Lemma chain_remove hp hn A B p n e :
  NoDup (A ++ e :: B) → last A = Some p → list.head B = Some n →
  chain (Heap hp hn) (A ++ e :: B) →
  chain (Heap (<[n := Some p]> hp) (<[p := Some n]> hn)) (A ++ B).
Proof.
  intros Hnd Hp Hn Hc. lmem.
  apply NoDup_app in Hnd as (HA & Hd & [He HB]%NoDup_cons).
  apply chain_seam in Hc as (HcA & [_ HcB]%chain_cons & _).
  apply chain_seam. split_and!.
  - eapply chain_frame; [done| | |exact HcA]; intros x Hx ?; lsimpl; done.
  - eapply chain_frame; [done| | |exact HcB]; intros x Hx ?; lsimpl; done.
  - intros x y ? ?. simplify_eq/=. split; lsimpl; done.
Qed.

(** [C] moves from behind [B] to before it. *)
Lemma chain_splice hp hn A B C D pb b pf f l d :
  NoDup (A ++ B ++ C ++ D) →
  last A = Some pb → list.head B = Some b → last B = Some pf →
  list.head C = Some f → last C = Some l → list.head D = Some d →
  chain (Heap hp hn) (A ++ B ++ C ++ D) →
  chain (Heap (<[b := Some l]> (<[f := Some pb]> (<[d := Some pf]> hp)))
              (<[pb := Some f]> (<[l := Some b]> (<[pf := Some d]> hn))))
        (A ++ C ++ B ++ D).
Proof.
  intros Hnd ? ? ? ? ? ? Hc. lmem.
  apply NoDup_app in Hnd as (HA & HdA & Hnd).
  apply NoDup_app in Hnd as (HB & HdB & Hnd).
  apply NoDup_app in Hnd as (HC & HdC & HD).
  apply chain_seam in Hc as (HcA & Hc & _).
  apply chain_seam in Hc as (HcB & Hc & _).
  apply chain_seam in Hc as (HcC & HcD & _).
  assert (∀ x y, x ∈ A → y ∈ B ++ C ++ D → x ≠ y) by set_solver.
  assert (∀ x y, x ∈ B → y ∈ C ++ D → x ≠ y) by set_solver.
  assert (∀ x y, x ∈ C → y ∈ D → x ≠ y) by set_solver.
  clear HdA HdB HdC.
  apply chain_seam; split_and!; [|apply chain_seam; split_and!; [|apply chain_seam; split_and!|]|].
  - eapply chain_frame; [done| | |exact HcA]; intros x Hx ?; lsimpl; done.
  - eapply chain_frame; [done| | |exact HcC]; intros x Hx ?; lsimpl; done.
  - eapply chain_frame; [done| | |exact HcB]; intros x Hx ?; lsimpl; done.
  - eapply chain_frame; [done| | |exact HcD]; intros x Hx ?; lsimpl; done.
  - intros x y ? ?. simplify_eq/=. split; lsimpl; done.
  - intros x y ? Hy. rewrite head_app in Hy. destruct B; simplify_eq/=. split; lsimpl; done.
  - intros x y ? Hy. rewrite head_app in Hy. destruct C; simplify_eq/=. split; lsimpl; done.
Qed.

(** ** The operations on represented lists *)

(** The element at position [length xs] of a list holding [xs ++ ys]: an
    iterator, which is the tail sentinel past the last element. *)
Definition at_pos (l : list_hdr) (ys : list loc) : loc := default (tail l) (list.head ys).

(** The element before it, which is the head sentinel before the first. *)
Definition before_pos (l : list_hdr) (xs : list loc) : loc := default (head l) (last xs).

Lemma head_at_pos l ys : list.head (ys ++ [tail l]) = Some (at_pos l ys).
Proof. by destruct ys. Qed.

Lemma last_before_pos l xs : last (head l :: xs) = Some (before_pos l xs).
Proof. rewrite last_cons. unfold before_pos. by destruct (last xs). Qed.

Lemma nodes_app l xs ys : nodes l (xs ++ ys) = (head l :: xs) ++ ys ++ [tail l].
Proof. unfold nodes. by rewrite <-app_assoc. Qed.

Lemma elem_of_nodes x l xs : x ∈ nodes l xs ↔ x = head l ∨ x ∈ xs ∨ x = tail l.
Proof. unfold nodes. by rewrite elem_of_cons, elem_of_app, list_elem_of_singleton. Qed.

Lemma nodes_cons l xs e ys :
  nodes l (xs ++ e :: ys) = (head l :: xs) ++ e :: (ys ++ [tail l]).
Proof. by rewrite nodes_app. Qed.

Lemma nodes_cons_perm l xs e ys : nodes l (xs ++ e :: ys) ≡ₚ e :: nodes l (xs ++ ys).
Proof. rewrite nodes_cons, nodes_app. symmetry. apply Permutation_middle. Qed.

Lemma at_pos_nodes l xs ys : at_pos l ys ∈ nodes l (xs ++ ys).
Proof. rewrite nodes_app. pose proof (head_elem _ _ (head_at_pos l ys)). set_solver. Qed.

Lemma before_pos_nodes l xs ys : before_pos l xs ∈ nodes l (xs ++ ys).
Proof. rewrite nodes_app. pose proof (last_elem _ _ (last_before_pos l xs)). set_solver. Qed.

Lemma is_list_linked h l xs ys :
  is_list h l (xs ++ ys) → linked h (before_pos l xs) (at_pos l ys).
Proof.
  intros []. rewrite nodes_app in *.
  eapply chain_linked; [apply last_before_pos|apply head_at_pos|done].
Qed.

(** Every element but the head sentinel has a predecessor, every one but the
    tail sentinel a successor. *)
Lemma is_list_prev h l xs ys :
  is_list h l (xs ++ ys) → prev h !! at_pos l ys = Some (Some (before_pos l xs)).
Proof. intros [_ ?]%is_list_linked. done. Qed.

Lemma is_list_next h l xs ys :
  is_list h l (xs ++ ys) → next h !! before_pos l xs = Some (Some (at_pos l ys)).
Proof. intros [? _]%is_list_linked. done. Qed.

Lemma is_list_allocated h l xs x : is_list h l xs → x ∈ nodes l xs → allocated h x.
Proof.
  intros Hl Hx. unfold nodes in Hx.
  assert (x = head l ∨ x = tail l ∨ ∃ ys zs, xs = ys ++ x :: zs) as [->|[->|(ys & zs & ->)]].
  { rewrite elem_of_cons, elem_of_app, list_elem_of_singleton in Hx.
    destruct Hx as [|[Hx|]]; [by left| |by right; left].
    right. right. by apply list_elem_of_split. }
  - split; eexists; [apply (il_head _ _ _ Hl)|exact (is_list_next h l [] xs Hl)].
  - split; eexists; [|apply (il_tail _ _ _ Hl)].
    rewrite <-(app_nil_r xs) in Hl. exact (is_list_prev h l xs [] Hl).
  - split; [eexists; exact (is_list_prev h l ys (x :: zs) Hl)|].
    rewrite cons_middle, app_assoc in Hl. pose proof (is_list_next _ _ _ _ Hl) as E.
    unfold before_pos in E. rewrite last_snoc in E. cbn in E. rewrite E. eauto.
Qed.

(** The links of an interior element. *)
Lemma is_list_elem h l xs e ys :
  is_list h l (xs ++ e :: ys) →
  prev h !! e = Some (Some (before_pos l xs)) ∧ next h !! e = Some (Some (at_pos l ys)).
Proof.
  intros Hl. split; [exact (is_list_prev h l xs (e :: ys) Hl)|].
  rewrite cons_middle, app_assoc in Hl. pose proof (is_list_next _ _ _ _ Hl) as E.
  unfold before_pos in E. by rewrite last_snoc in E.
Qed.

Lemma is_list_frame h h' l xs D :
  same_except D h h' → (∀ x, x ∈ nodes l xs → x ∉ D) → is_list h l xs → is_list h' l xs.
Proof.
  intros Hs Hd [Hnd Hc Hh Ht].
  assert (head l ∈ nodes l xs ∧ tail l ∈ nodes l xs) as [] by (unfold nodes; set_solver).
  split; [done| | |].
  - eapply chain_frame; [done| | |exact Hc]; intros x Hx _; apply (Hs x); auto.
  - destruct (Hs (head l)) as [-> _]; auto.
  - destruct (Hs (tail l)) as [_ ->]; auto.
Qed.

Lemma same_except_mono D D' h h' :
  (∀ x, x ∈ D → x ∈ D') → same_except D h h' → same_except D' h h'.
Proof. intros Hd Hs x Hx. apply Hs. auto. Qed.

Lemma same_except_refl D h : same_except D h h.
Proof. by intros x. Qed.

Lemma same_except_trans D h1 h2 h3 :
  same_except D h1 h2 → same_except D h2 h3 → same_except D h1 h3.
Proof. intros H1 H2 x Hx. destruct (H1 x Hx), (H2 x Hx). split; congruence. Qed.

Lemma nodes_NoDup_split l xs ys :
  NoDup (nodes l (xs ++ ys)) →
  before_pos l xs ≠ at_pos l ys ∧
  (before_pos l xs ∉ ys ++ [tail l]) ∧ at_pos l ys ∉ (head l :: xs).
Proof.
  rewrite nodes_app. intros (_ & Hd & _)%NoDup_app.
  pose proof (head_elem _ _ (head_at_pos l ys)).
  pose proof (last_elem _ _ (last_before_pos l xs)).
  split_and!; [intros E; rewrite E in *|..]; set_solver.
Qed.

Lemma list_init_ok h l :
  head l ≠ tail l → allocated h (head l) → allocated h (tail l) →
  ∃ h', list_init l h = Ret (tt, h') ∧ is_list h' l [] ∧
        same_except [head l; tail l] h h'.
Proof.
  destruct h as [hp hn]. intros Hne [[v1 Ep1] [v2 En1]] [[v3 Ep2] [v4 En2]]. cbn in *.
  eexists. split; [lrun; reflexivity|]. split; [split|].
  - unfold nodes. cbn. repeat constructor; set_solver.
  - cbn. repeat split; lsimpl; done.
  - cbn. lsimpl. done.
  - cbn. lsimpl. done.
  - intros x Hx. split; lsimpl; done.
Qed.

(** [list_insert]: before the iterator at any position. *)
Lemma list_insert_ok h l xs ys e :
  is_list h l (xs ++ ys) → allocated h e → e ∉ nodes l (xs ++ ys) →
  ∃ h', list_insert (Some (at_pos l ys)) (Some e) h = Ret (tt, h') ∧
        is_list h' l (xs ++ e :: ys) ∧
        same_except [before_pos l xs; e; at_pos l ys] h h'.
Proof.
  intros Hl [[e1 He1] [e2 He2]] He.
  pose proof (at_pos_nodes l xs ys) as Hb. pose proof (before_pos_nodes l xs ys) as Hp.
  destruct (is_list_allocated _ _ _ _ Hl Hb) as [_ [b Eb]].
  pose proof (is_list_prev _ _ _ _ Hl) as Epb. pose proof (is_list_next _ _ _ _ Hl) as Enp.
  destruct Hl as [Hnd Hc Hh Ht]. destruct h as [hp hn]. cbn [prev next] in *.
  eexists. split.
  { eapply list_insert_run; try done; intros E; by rewrite E in *. }
  destruct (nodes_NoDup_split _ _ _ Hnd) as (? & Hpn & Hbn). rewrite nodes_app in *.
  split; [split|].
  - rewrite nodes_cons_perm, nodes_app. by constructor.
  - rewrite nodes_cons.
    apply chain_insert; auto using last_before_pos, head_at_pos.
  - lsimpl. done.
  - lsimpl. done.
  - intros x Hx. split; lsimpl; done.
Qed.

Lemma list_remove_ok h l xs e ys :
  is_list h l (xs ++ e :: ys) →
  ∃ h', list_remove (Some e) h = Ret (Some (at_pos l ys), h') ∧
        is_list h' l (xs ++ ys) ∧
        same_except [before_pos l xs; at_pos l ys] h h'.
Proof.
  intros Hl. destruct (is_list_elem _ _ _ _ _ Hl) as [Ep En].
  pose proof (before_pos_nodes l xs (e :: ys)) as Hp.
  assert (at_pos l ys ∈ nodes l (xs ++ e :: ys)) as Hn.
  { pose proof (at_pos_nodes l (xs ++ [e]) ys) as E. by rewrite <-app_assoc in E. }
  destruct (is_list_allocated _ _ _ _ Hl Hp) as [_ [v Hv]].
  destruct (is_list_allocated _ _ _ _ Hl Hn) as [[w Hw] _].
  destruct Hl as [Hnd Hc Hh Ht]. destruct h as [hp hn]. cbn [prev next] in *.
  destruct (nodes_NoDup_split _ _ _ Hnd) as (Hpe & _ & He).
  unfold at_pos in He, Hpe. cbn in He, Hpe. pose proof Hnd as Hnd'.
  rewrite nodes_cons_perm in Hnd'. apply NoDup_cons in Hnd' as [He' Hnd'].
  rewrite nodes_app in He'. rewrite nodes_cons in Hnd, Hc.
  pose proof (head_elem _ _ (head_at_pos l ys)) as Hn'.
  eexists. split.
  { eapply list_remove_run; try done. intros E. rewrite E in *. set_solver. }
  destruct (nodes_NoDup_split _ _ _ Hnd') as (? & ? & ?).
  split; [split|].
  - done.
  - rewrite nodes_app. eapply chain_remove; eauto using last_before_pos, head_at_pos.
  - lsimpl. done.
  - lsimpl. done.
  - intros x Hx. split; lsimpl; done.
Qed.

Definition disj (A B : list loc) : Prop := ∀ x, x ∈ A → x ∈ B → False.

Lemma NoDup_app4 (A B C D : list loc) :
  NoDup (A ++ B ++ C ++ D) →
  disj A B ∧ disj A C ∧ disj A D ∧ disj B C ∧ disj B D ∧ disj C D.
Proof.
  intros (_ & H1 & (_ & H2 & (_ & H3 & _)%NoDup_app)%NoDup_app)%NoDup_app.
  setoid_rewrite not_elem_of_app in H1. setoid_rewrite not_elem_of_app in H1.
  setoid_rewrite not_elem_of_app in H2. unfold disj. naive_solver.
Qed.

(** Elements of disjoint segments differ. *)
Ltac ldisj :=
  let E := fresh in intros E;
  match goal with
  | Hd : disj ?A ?B, Ha : ?x ∈ ?A, Hb : ?x ∈ ?B |- _ => exact (Hd x Ha Hb)
  | Hd : disj ?A ?B, Ha : ?x ∈ ?A, Hb : ?y ∈ ?B |- _ =>
      first [ exact (Hd x Ha (eq_ind_r (λ z, z ∈ B) Hb E))
            | exact (Hd x Ha (eq_ind (y) (λ z, z ∈ B) Hb x E)) ]
  end.

Lemma is_list_interior h l xs e :
  is_list h l xs → e ∈ xs →
  ∃ p n, prev h !! e = Some (Some p) ∧ next h !! e = Some (Some n).
Proof.
  intros Hl (ys & zs & ->)%list_elem_of_split. apply is_list_elem in Hl as []. eauto.
Qed.

(** [list_splice] within one list: [z :: zs] moves before [y]. *)
Lemma list_splice_ok h l xs y ys z zs ws :
  is_list h l (xs ++ (y :: ys) ++ (z :: zs) ++ ws) →
  ∃ h', list_splice (Some y) (Some z) (Some (at_pos l ws)) h = Ret (tt, h') ∧
        is_list h' l (xs ++ (z :: zs) ++ (y :: ys) ++ ws) ∧
        same_except (nodes l (xs ++ (y :: ys) ++ (z :: zs) ++ ws)) h h'.
Proof.
  assert (list.head (y :: ys) = Some y) as HyC by done.
  assert (list.head (z :: zs) = Some z) as HzD by done.
  destruct (last (y :: ys)) as [pf|] eqn:HpfC; [|by apply last_None in HpfC].
  destruct (last (z :: zs)) as [m|] eqn:HmD; [|by apply last_None in HmD].
  revert HyC HzD HpfC HmD. generalize (y :: ys) as C, (z :: zs) as D.
  clear ys zs. intros C D HyC HzD HpfC HmD Hl.
  pose proof (last_before_pos l xs) as Hpb. pose proof (head_at_pos l ws) as Hn.
  destruct (is_list_interior _ _ _ z Hl) as (? & v1 & _ & ?); [lmem; rewrite !elem_of_app; tauto|].
  destruct (is_list_interior _ _ _ m Hl) as (v2 & ? & ? & _); [lmem; rewrite !elem_of_app; tauto|].
  assert (∀ x, x ∈ nodes l (xs ++ C ++ D ++ ws) → allocated h x) as Hal
    by (intros; by eapply is_list_allocated).
  destruct Hl as [Hnd Hc Hh Ht].
  assert (∀ E F, nodes l (xs ++ E ++ F ++ ws) = (head l :: xs) ++ E ++ F ++ (ws ++ [tail l])) as HN
    by (intros; by rewrite nodes_app, <-!app_assoc).
  rewrite HN in *. destruct h as [hp hn]. cbn [prev next] in *.
  pose proof (chain_splice _ _ _ _ _ _ _ _ _ _ _ _ Hnd Hpb HyC HpfC HzD HmD Hn Hc) as Hsp.
  apply chain_seam in Hc as (_ & Hc & Ls1). destruct (Ls1 (before_pos l xs) y) as [Ep1 Ep2];
    [done|rewrite head_app; by destruct C|].
  apply chain_seam in Hc as (_ & Hc & Ls2). destruct (Ls2 pf z) as [Ef1 Ef2];
    [done|rewrite head_app; by destruct D|].
  apply chain_seam in Hc as (_ & _ & Ls3). destruct (Ls3 m (at_pos l ws)) as [Em1 Em2]; [done..|].
  clear Ls1 Ls2 Ls3. cbn [prev next] in *. lmem.
  destruct (NoDup_app4 _ _ _ _ Hnd) as (? & ? & ? & ? & ? & ?).
  destruct (Hal y) as [_ [bn ?]]; [rewrite !elem_of_app in *; tauto|].
  destruct (Hal (at_pos l ws)) as [_ [lv ?]]; [rewrite !elem_of_app in *; tauto|].
  assert (tail l ∈ ws ++ [tail l]) by (apply elem_of_app; right; by left).
  assert (head l ∈ head l :: xs) by (by left).
  eexists. split; [|split; [split|]].
  - eapply list_splice_run; try eassumption; ldisj.
  - rewrite HN. by rewrite (Permutation_app_swap_app D C).
  - by rewrite HN.
  - cbn [prev]. rewrite !lookup_insert_ne by ldisj. done.
  - cbn [next]. rewrite !lookup_insert_ne by ldisj. done.
  - intros w Hw. cbn [prev next]. rewrite !elem_of_app in *.
    rewrite !lookup_insert_ne by (intros <-; tauto). done.
Qed.

(** *** Traversal *)

Lemma list_begin_ok h l xs : is_list h l xs → list_begin l h = Ret (Some (at_pos l xs), h).
Proof.
  destruct h as [hp hn]. intros Hl.
  assert (hn !! head l = _) as E by exact (is_list_next _ l [] xs Hl). lrun. done.
Qed.

Lemma list_rbegin_ok h l xs : is_list h l xs → list_rbegin l h = Ret (Some (before_pos l xs), h).
Proof.
  destruct h as [hp hn]. rewrite <-(app_nil_r xs) at 1. intros Hl.
  assert (hp !! tail l = _) as E by exact (is_list_prev _ l xs [] Hl). lrun. done.
Qed.

Lemma list_next_ok h l xs e ys :
  is_list h l (xs ++ e :: ys) → list_next (Some e) h = Ret (Some (at_pos l ys), h).
Proof. intros []%is_list_elem. apply list_next_run; eauto. Qed.

Lemma list_prev_ok h l xs ys :
  is_list h l (xs ++ ys) →
  list_prev (Some (at_pos l ys)) h = Ret (Some (before_pos l xs), h).
Proof.
  intros Hl. apply list_prev_run; [by apply is_list_prev|].
  eapply is_list_allocated; [exact Hl|apply at_pos_nodes].
Qed.

(** An iterator equals [list_end] exactly when no element is left. *)
Lemma peq_end h l xs ys :
  is_list h l (xs ++ ys) → peq (Some (at_pos l ys)) (list_end l) = bool_decide (ys = []).
Proof.
  intros [Hnd _ _ _]. unfold peq, list_end. apply bool_decide_ext.
  destruct ys as [|y ys]; [done|]. split; [|done]. unfold at_pos. cbn. intros [= ->].
  rewrite nodes_cons_perm in Hnd. apply NoDup_cons in Hnd as [Hn _].
  exfalso. apply Hn. unfold nodes. set_solver.
Qed.

Lemma list_empty_ok h l xs : is_list h l xs → list_empty l h = Ret (bool_decide (xs = []), h).
Proof.
  intros Hl. unfold list_empty. st_step (list_begin_ok _ _ _ Hl).
  unfold mret, st_ret. by rewrite (peq_end h l [] xs).
Qed.

Lemma list_front_ok h l x xs : is_list h l (x :: xs) → list_front l h = Ret (Some x, h).
Proof.
  intros Hl. unfold list_front. st_step (list_empty_ok _ _ _ Hl).
  exact (list_begin_ok _ _ _ Hl).
Qed.

Lemma list_front_empty h l : is_list h l [] → list_front l h = Panic.
Proof. intros Hl. unfold list_front. by st_step (list_empty_ok _ _ _ Hl). Qed.

Lemma list_back_ok h l xs x : is_list h l (xs ++ [x]) → list_back l h = Ret (Some x, h).
Proof.
  intros Hl. unfold list_back. st_step (list_empty_ok _ _ _ Hl).
  rewrite bool_decide_eq_false_2 by (by destruct xs).
  pose proof (list_rbegin_ok _ _ _ Hl) as E. unfold before_pos in E. by rewrite last_snoc in E.
Qed.

Lemma list_back_empty h l : is_list h l [] → list_back l h = Panic.
Proof. intros Hl. unfold list_back. by st_step (list_empty_ok _ _ _ Hl). Qed.

(** *** Queue and stack operations *)

Lemma list_push_front_ok h l xs e :
  is_list h l xs → allocated h e → e ∉ nodes l xs →
  ∃ h', list_push_front l (Some e) h = Ret (tt, h') ∧ is_list h' l (e :: xs) ∧
        same_except (e :: nodes l xs) h h'.
Proof.
  intros Hl Ha He. destruct (list_insert_ok h l [] xs e) as (h' & Hr & Hl' & Hs); [done..|].
  exists h'. unfold list_push_front. st_step (list_begin_ok _ _ _ Hl).
  split_and!; [done..|]. eapply same_except_mono; [|exact Hs].
  pose proof (at_pos_nodes l [] xs). pose proof (before_pos_nodes l [] xs). set_solver.
Qed.

Lemma list_push_back_ok h l xs e :
  is_list h l xs → allocated h e → e ∉ nodes l xs →
  ∃ h', list_push_back l (Some e) h = Ret (tt, h') ∧ is_list h' l (xs ++ [e]) ∧
        same_except (e :: nodes l xs) h h'.
Proof.
  intros Hl Ha He. rewrite <-(app_nil_r xs) in Hl, He |- *.
  destruct (list_insert_ok h l xs [] e) as (h' & Hr & Hl' & Hs); [done..|].
  exists h'. rewrite <-app_assoc. split_and!; [done..|]. eapply same_except_mono; [|exact Hs].
  pose proof (at_pos_nodes l xs []). pose proof (before_pos_nodes l xs []). set_solver.
Qed.

Lemma list_pop_front_ok h l x xs :
  is_list h l (x :: xs) →
  ∃ h', list_pop_front l h = Ret (Some x, h') ∧ is_list h' l xs ∧
        same_except (nodes l xs) h h'.
Proof.
  intros Hl. destruct (list_remove_ok h l [] x xs Hl) as (h' & Hr & Hl' & Hs).
  exists h'. unfold list_pop_front. st_step (list_front_ok _ _ _ _ Hl). st_step Hr.
  split_and!; [done..|]. eapply same_except_mono; [|exact Hs].
  pose proof (at_pos_nodes l [] xs). pose proof (before_pos_nodes l [] xs). set_solver.
Qed.

Lemma list_pop_back_ok h l xs x :
  is_list h l (xs ++ [x]) →
  ∃ h', list_pop_back l h = Ret (Some x, h') ∧ is_list h' l xs ∧
        same_except (nodes l xs) h h'.
Proof.
  intros Hl. destruct (list_remove_ok h l xs x [] Hl) as (h' & Hr & Hl' & Hs).
  exists h'. unfold list_pop_back. st_step (list_back_ok _ _ _ _ Hl). st_step Hr.
  rewrite app_nil_r in Hl'. split_and!; [done..|]. eapply same_except_mono; [|exact Hs].
  pose proof (at_pos_nodes l xs []) as H1. pose proof (before_pos_nodes l xs []) as H2.
  rewrite app_nil_r in H1, H2. set_solver.
Qed.
