(* ===== verification/ListOps.v ===== *)
(** * Loops over intrusive lists

    What the traversing functions of [lib/kernel/list.c] compute:
    [list_size], [list_reverse], [list_insert_ordered], [list_update_elem],
    [list_unique], [list_max] and [list_min].  Each lemma gives the fuel that
    is enough for the loop to return. *)

From stdpp Require Import base tactics list numbers option sorting gmap.
From Stdlib Require Import ZArith Lia.
From S2P Require Import Prelude LinkedList.

(** ** Size *)

Lemma list_size_loop_ok h l fuel xs ys cnt :
  is_list h l (xs ++ ys) → (length ys < fuel)%nat → 0 ≤ cnt < 2 ^ 32 →
  list_size_loop fuel l (Some (at_pos l ys)) cnt h = Ret (u32 (cnt + Z.of_nat (length ys)), h).
Proof.
  revert xs ys cnt. induction fuel as [|fuel IH]; intros xs ys cnt Hl Hf Hc; [lia|].
  cbn [list_size_loop]. rewrite (peq_end _ _ _ _ Hl). case_bool_decide as E.
  - subst ys. cbn. by rewrite Z.add_0_r, u32_id.
  - destruct ys as [|y ys]; [done|]. unfold at_pos. cbn [list.head default].
    st_step (list_next_ok _ _ _ _ _ Hl). cbn [length] in Hf.
    rewrite (IH (xs ++ [y]) ys); [|by rewrite <-app_assoc|lia|apply u32_range].
    unfold u32. rewrite Zplus_mod_idemp_l. cbn [length].
    by replace (cnt + 1 + Z.of_nat (length ys)) with (cnt + Z.of_nat (S (length ys))) by lia.
Qed.

(** [list_size] counts the elements, modulo the width of [size_t]. *)
Lemma list_size_ok h l fuel xs :
  is_list h l xs → (length xs < fuel)%nat →
  list_size fuel l h = Ret (u32 (Z.of_nat (length xs)), h).
Proof.
  intros Hl Hf. unfold list_size. st_step (list_begin_ok _ _ _ Hl).
  by rewrite (list_size_loop_ok h l fuel [] xs).
Qed.

(** ** Reversal *)

(** The memory in which the links of the elements of [xs] are exchanged. *)
Definition swapped (h h' : heap) (xs : list loc) : Prop :=
  ∀ x, prev h' !! x = (if bool_decide (x ∈ xs) then next h !! x else prev h !! x) ∧
       next h' !! x = (if bool_decide (x ∈ xs) then prev h !! x else next h !! x).

Lemma swap_links_run h x p n :
  prev h !! x = Some p → next h !! x = Some n →
  swap_links (Some x) h =
    Ret (tt, Heap (<[x := n]> (prev h)) (<[x := p]> (next h))).
Proof. destruct h as [hp hn]. cbn. intros. lrun. done. Qed.

Lemma list_reverse_loop_ok h0 l fuel xs ys h :
  is_list h0 l (xs ++ ys) → swapped h0 h xs → (length ys < fuel)%nat →
  ∃ h', list_reverse_loop fuel l (Some (at_pos l ys)) h = Ret (tt, h') ∧
        swapped h0 h' (xs ++ ys).
Proof.
  revert xs ys h. induction fuel as [|fuel IH]; intros xs ys h Hl Hsw Hf; [lia|].
  cbn [list_reverse_loop]. rewrite (peq_end _ _ _ _ Hl). case_bool_decide as E.
  - subst ys. exists h. by rewrite app_nil_r.
  - destruct ys as [|y ys]; [done|]. unfold at_pos. cbn [list.head default].
    destruct (is_list_elem _ _ _ _ _ Hl) as [Ep En].
    assert (y ∉ xs) as Hy.
    { destruct Hl as [Hnd _ _ _]. rewrite nodes_cons_perm in Hnd.
      apply NoDup_cons in Hnd as [Hnd _]. unfold nodes in Hnd. set_solver. }
    pose proof (Hsw y) as [Hp Hn]. rewrite bool_decide_eq_false_2 in Hp, Hn by done.
    rewrite Ep in Hp. rewrite En in Hn.
    st_step (swap_links_run _ _ _ _ Hp Hn).
    destruct (IH (xs ++ [y]) ys (Heap (<[y := Some (at_pos l ys)]> (prev h))
                      (<[y := Some (before_pos l xs)]> (next h))))
      as (h' & Hr & Hs').
    + by rewrite <-app_assoc.
    + intros x. destruct (Hsw x) as [Hx1 Hx2]. destruct (decide (x = y)) as [->|].
      * cbn. rewrite bool_decide_eq_true_2 by set_solver. by rewrite !lookup_insert_eq, Ep, En.
      * cbn. rewrite !lookup_insert_ne, Hx1, Hx2 by done.
        by rewrite (bool_decide_ext (x ∈ xs ++ [y]) (x ∈ xs)) by set_solver.
    + cbn in Hf. lia.
    + exists h'. rewrite <-app_assoc in Hs'. split; [|done].
      unfold get_prev, lget, mbind, st_bind, deref, getS, mret, st_ret. cbn.
      rewrite lookup_insert_eq. exact Hr.
Qed.

Lemma chain_swap h h' xs :
  NoDup xs →
  (∀ x, x ∈ xs → last xs ≠ Some x → prev h' !! x = next h !! x) →
  (∀ x, x ∈ xs → list.head xs ≠ Some x → next h' !! x = prev h !! x) →
  chain h xs → chain h' (reverse xs).
Proof.
  induction xs as [|x xs IH]; [done|].
  intros [Hx Hnd]%NoDup_cons Hp Hn [Hl Hc]%chain_cons.
  assert (∀ y, last xs = Some y → last (x :: xs) = Some y) as Hlast
    by (intros y Hy; by rewrite last_cons, Hy).
  rewrite reverse_cons. apply chain_seam. split_and!; [|done|].
  - apply IH; [done| | |done].
    + intros y Hy Hne. apply Hp; [set_solver|]. rewrite last_cons.
      destruct (last xs) eqn:E; [done|]. apply last_None in E; subst. set_solver.
    + intros y Hy Hne. apply Hn; [set_solver|]. cbn. intros [= ->]. done.
  - intros y z Hy [= <-]. rewrite last_reverse in Hy.
    destruct (Hl y Hy) as [Hxy Hyx]. apply head_elem in Hy as Hy'. split.
    + rewrite Hn; [done|set_solver|]. cbn. intros [= ->]. done.
    + rewrite Hp; [done|set_solver|]. destruct xs; [set_solver|].
      rewrite last_cons_cons. intros E%last_elem. done.
Qed.

Lemma nodes_ends l xs :
  NoDup (nodes l xs) → (head l ∉ xs) ∧ (tail l ∉ xs) ∧ head l ≠ tail l ∧ NoDup xs.
Proof.
  unfold nodes. intros [Hh (Hnd & Hd & _)%NoDup_app]%NoDup_cons. set_solver.
Qed.

(** The two exchanges after the loop. *)
Lemma list_reverse_ends h0 l xs f g h :
  is_list h0 l xs → swapped h0 h xs → list.head xs = Some f → last xs = Some g →
  ((n ← get_next (Some (head l)); p ← get_prev (Some (tail l));
    set_next (Some (head l)) p;; set_prev (Some (tail l)) n);;
   (hn ← get_next (Some (head l)); tp ← get_prev (Some (tail l));
    a ← get_prev hn; b ← get_next tp;
    set_prev hn b;; set_next tp a)) h =
  Ret (tt, Heap (<[g := Some (head l)]> (<[tail l := Some f]> (prev h)))
                (<[f := Some (tail l)]> (<[head l := Some g]> (next h)))).
Proof.
  intros Hl Hsw Hf Hg. destruct (nodes_ends _ _ (il_nodup _ _ _ Hl)) as (Hh & Ht & Hht & Hnd).
  apply head_elem in Hf as Hf'. apply last_elem in Hg as Hg'.
  assert (next h0 !! head l = Some (Some f)) as E1.
  { pose proof (is_list_next h0 l [] xs Hl) as E. unfold at_pos in E. by rewrite Hf in E. }
  assert (prev h0 !! f = Some (Some (head l))) as E2.
  { pose proof (is_list_prev h0 l [] xs Hl) as E. unfold at_pos in E. by rewrite Hf in E. }
  rewrite <-(app_nil_r xs) in Hl. pose proof (is_list_prev h0 l xs [] Hl) as E3.
  pose proof (is_list_next h0 l xs [] Hl) as E4.
  unfold before_pos, at_pos in E3, E4. rewrite Hg in E3, E4. cbn in E3, E4.
  destruct (Hsw (head l)) as [_ S1], (Hsw (tail l)) as [S2 _], (Hsw f) as [_ S3], (Hsw g) as [S4 _].
  destruct (Hsw g) as [_ S5], (Hsw f) as [S6 _].
  rewrite bool_decide_eq_false_2 in S1, S2 by done.
  rewrite bool_decide_eq_true_2 in S3, S4 by done.
  rewrite E1 in S1. rewrite E3 in S2. rewrite E2 in S3. rewrite E4 in S4.
  assert (f ≠ head l ∧ g ≠ tail l) as [] by (split; intros ->; done).
  destruct h as [hp hn]. cbn [prev next] in *. lrun. done.
Qed.

Lemma list_reverse_ok h l fuel xs :
  is_list h l xs → (length xs < fuel)%nat →
  ∃ h', list_reverse fuel l h = Ret (tt, h') ∧ is_list h' l (reverse xs) ∧
        same_except (nodes l xs) h h'.
Proof.
  intros Hl Hfuel. unfold list_reverse. st_step (list_empty_ok _ _ _ Hl).
  destruct xs as [|x xs0] eqn:Exs.
  { exists h. cbn. split_and!; [done..|apply same_except_refl]. }
  rewrite <-Exs in *. assert (list.head xs = Some x) as Hf by (by subst).
  destruct (last xs) as [g|] eqn:Hg; [|apply last_None in Hg; congruence].
  rewrite bool_decide_eq_false_2 by congruence. clear Exs xs0. cbn [negb].
  destruct (list_reverse_loop_ok h l fuel [] xs h) as (h1 & Hr & Hsw);
    [done|intros y; by rewrite bool_decide_eq_false_2 by set_solver|done|].
  cbn [app] in Hsw. erewrite st_bind_ret; [|by st_step (list_begin_ok _ _ _ Hl)].
  eexists. split; [by eapply list_reverse_ends|].
  destruct (nodes_ends _ _ (il_nodup _ _ _ Hl)) as (Hh & Ht & Hht & Hnd).
  apply head_elem in Hf as Hf'. apply last_elem in Hg as Hg'.
  destruct Hl as [Hnd0 Hc Hph Hnt].
  assert (f_ne : x ≠ head l ∧ x ≠ tail l ∧ g ≠ tail l ∧ g ≠ head l)
    by (split_and!; intros ->; done). destruct f_ne as (? & ? & ? & ?).
  split; [split|].
  - unfold nodes. by rewrite reverse_Permutation.
  - change (chain h ([head l] ++ xs ++ [tail l])) in Hc.
    apply chain_seam in Hc as (_ & (Hc & _)%chain_seam & _).
    change (nodes l (reverse xs)) with ([head l] ++ reverse xs ++ [tail l]).
    apply chain_seam; split_and!; [done|apply chain_seam; split_and!; [|done|]|].
    + eapply chain_swap; [done| | |exact Hc]; intros y Hy Hne; destruct (Hsw y) as [E1 E2];
        rewrite bool_decide_eq_true_2 in E1, E2 by done; lsimpl; done.
    + intros y z. rewrite last_reverse, Hf. intros [= <-] [= <-]. split; lsimpl; done.
    + intros y z [= <-]. rewrite head_app, head_reverse, Hg. intros [= <-]. split; lsimpl; done.
  - lsimpl. destruct (Hsw (head l)) as [-> _]. by rewrite bool_decide_eq_false_2.
  - lsimpl. destruct (Hsw (tail l)) as [_ ->]. by rewrite bool_decide_eq_false_2.
  - unfold nodes. intros y Hy. destruct (Hsw y) as [E1 E2].
    rewrite bool_decide_eq_false_2 in E1, E2 by set_solver. split; lsimpl; done.
Qed.

(** ** Comparison functions *)

(** What a caller of the ordered operations promises of its comparison: a
    strict weak order.  [list.h] asks for "true if A is less than B, or false
    if A is greater than or equal to B". *)
Class StrictWeak (less : list_less_func) : Prop := {
  less_asym a b : less a b = true → less b a = false;
  less_negtrans a b c : less a b = false → less b c = false → less a c = false
}.

#[export] Instance StrictWeak_flip less : StrictWeak less → StrictWeak (flip less).
Proof.
  intros [Ha Hn]. split; unfold flip; [eauto|]. intros a b c H1 H2. by apply (Hn c b a).
Qed.

Lemma less_irrefl less `{!StrictWeak less} a : less a a = false.
Proof. destruct (less a a) eqn:E; [|done]. by rewrite (less_asym _ _ E) in E. Qed.

Lemma less_trans less `{!StrictWeak less} a b c :
  less a b = true → less b c = true → less a c = true.
Proof.
  intros Hab Hbc. destruct (less a c) eqn:E; [done|].
  rewrite <-Hab. symmetry. eapply less_negtrans; [exact E|by apply less_asym].
Qed.

(** In order: no element is less than one before it. *)
Definition in_order (less : list_less_func) : list loc → Prop :=
  StronglySorted (λ x y, less y x = false).

Lemma call_less_run less a b h : call_less less (Some a) (Some b) h = Ret (less a b, h).
Proof. done. Qed.

(** ** Ordered insertion *)

Fixpoint insert_sorted (less : list_less_func) (e : loc) (xs : list loc) : list loc :=
  match xs with
  | [] => [e]
  | x :: xs' => if less e x then e :: xs else x :: insert_sorted less e xs'
  end.

Lemma insert_sorted_split less e xs :
  ∃ ys zs, xs = ys ++ zs ∧ insert_sorted less e xs = ys ++ e :: zs ∧
           Forall (λ y, less e y = false) ys ∧
           (∀ z, list.head zs = Some z → less e z = true).
Proof.
  induction xs as [|x xs (ys & zs & -> & E & Hys & Hzs)]; [by exists [], []|].
  cbn. destruct (less e x) eqn:Ex.
  - exists [], (x :: ys ++ zs). split_and!; [done..|]. intros z [= <-]. done.
  - exists (x :: ys), zs. rewrite E. split_and!; [done..| |done]. by constructor.
Qed.

Lemma list_insert_ordered_loop_ok h l fuel less xs ys zs e :
  is_list h l (xs ++ ys ++ zs) → (length ys < fuel)%nat →
  Forall (λ y, less e y = false) ys → (∀ z, list.head zs = Some z → less e z = true) →
  list_insert_ordered_loop fuel l (Some (at_pos l (ys ++ zs))) (Some e) less h =
    Ret (Some (at_pos l zs), h).
Proof.
  revert xs ys. induction fuel as [|fuel IH]; intros xs ys Hl Hf Hys Hzs; [lia|].
  cbn [list_insert_ordered_loop]. rewrite (peq_end _ _ _ _ Hl). case_bool_decide as E.
  { apply app_eq_nil in E as [-> ->]. done. }
  destruct ys as [|y ys].
  - destruct zs as [|z zs]; [done|]. unfold at_pos. cbn [list.head default app].
    st_step (call_less_run less e z h). by rewrite (Hzs z).
  - unfold at_pos. cbn [list.head default app]. apply Forall_cons in Hys as [Hy Hys].
    st_step (call_less_run less e y h). rewrite Hy. st_step (list_next_ok _ _ _ _ _ Hl).
    apply (IH (xs ++ [y])); [by rewrite <-app_assoc|cbn in Hf; lia|done..].
Qed.

Lemma list_insert_ordered_ok h l fuel less xs e :
  is_list h l xs → allocated h e → e ∉ nodes l xs → (length xs < fuel)%nat →
  ∃ h', list_insert_ordered fuel l (Some e) less h = Ret (tt, h') ∧
        is_list h' l (insert_sorted less e xs) ∧ same_except (e :: nodes l xs) h h'.
Proof.
  destruct (insert_sorted_split less e xs) as (ys & zs & -> & -> & Hys & Hzs).
  intros Hl Ha He Hf. rewrite length_app in Hf.
  destruct (list_insert_ok h l ys zs e) as (h' & Hr & Hl' & Hs); [done..|].
  exists h'. unfold list_insert_ordered. st_assert. st_step (list_begin_ok _ _ _ Hl).
  rewrite (st_bind_ret _ _ _ _ _ (list_insert_ordered_loop_ok h l fuel less [] ys zs e Hl
    ltac:(lia) Hys Hzs)).
  split_and!; [done..|]. eapply same_except_mono; [|exact Hs].
  pose proof (at_pos_nodes l ys zs). pose proof (before_pos_nodes l ys zs). set_solver.
Qed.

(** In an ordered list the new element comes after everything it is not less
    than (equal elements included) and before everything it is less than. *)
Lemma insert_sorted_order less `{!StrictWeak less} e xs :
  in_order less xs →
  ∃ ys zs, xs = ys ++ zs ∧ insert_sorted less e xs = ys ++ e :: zs ∧
           Forall (λ y, less e y = false) ys ∧ Forall (λ z, less e z = true) zs ∧
           in_order less (insert_sorted less e xs).
Proof.
  intros Ho. destruct (insert_sorted_split less e xs) as (ys & zs & -> & -> & Hys & Hzs).
  apply StronglySorted_app in Ho as (Hyz & Hoy & Hoz).
  assert (Forall (λ z, less e z = true) zs) as Hzs'.
  { destruct zs as [|z zs]; [done|]. specialize (Hzs z eq_refl). constructor; [done|].
    apply StronglySorted_inv in Hoz as [_ Hz]. eapply Forall_impl; [exact Hz|].
    intros w Hw. cbn in Hw. destruct (less e w) eqn:E; [done|].
    rewrite <-Hzs. symmetry. eapply less_negtrans; eauto. }
  exists ys, zs. split_and!; [done..|]. apply StronglySorted_app. split_and!.
  - intros x y Hx [->|Hy]%elem_of_cons; [|by apply Hyz]. rewrite Forall_forall in Hys. auto.
  - done.
  - constructor; [done|]. eapply Forall_impl; [exact Hzs'|]. intros z Hz. by apply less_asym.
Qed.

Lemma insert_sorted_perm less e xs : insert_sorted less e xs ≡ₚ e :: xs.
Proof.
  destruct (insert_sorted_split less e xs) as (ys & zs & -> & -> & _ & _).
  symmetry. apply Permutation_middle.
Qed.

(** Removing an element and inserting it in order again. *)
Lemma list_update_elem_ok h l fuel less xs e ys :
  is_list h l (xs ++ e :: ys) → (length (xs ++ ys) < fuel)%nat →
  ∃ h', list_update_elem fuel (Some l) (Some e) less h = Ret (tt, h') ∧
        is_list h' l (insert_sorted less e (xs ++ ys)) ∧
        same_except (nodes l (xs ++ e :: ys)) h h'.
Proof.
  intros Hl Hf. destruct (list_remove_ok _ _ _ _ _ Hl) as (h1 & Hr & Hl1 & Hs1).
  pose proof (il_nodup _ _ _ Hl) as Hnd. rewrite nodes_cons_perm in Hnd.
  apply NoDup_cons in Hnd as [He Hnd].
  assert (e ∈ nodes l (xs ++ e :: ys)) as Hin by (rewrite nodes_cons_perm; by left).
  pose proof (before_pos_nodes l xs ys). pose proof (at_pos_nodes l xs ys).
  destruct (is_list_allocated _ _ _ _ Hl Hin) as [Ha1 Ha2].
  destruct (Hs1 e) as [E1 E2]; [set_solver|].
  destruct (list_insert_ordered_ok h1 l fuel less (xs ++ ys) e) as (h2 & Hr2 & Hl2 & Hs2);
    [done|split; congruence|done..|].
  exists h2. unfold list_update_elem. st_step Hr. split_and!; [done..|].
  eapply same_except_trans; (eapply same_except_mono; [|done]); intros x Hx;
    rewrite nodes_cons_perm; set_solver.
Qed.

(** ** Maximum and minimum *)

Definition max_of (less : list_less_func) (m : loc) (xs : list loc) : loc :=
  foldl (λ m x, if less m x then x else m) m xs.

Lemma list_max_loop_ok h l fuel less xs ys m :
  is_list h l (xs ++ ys) → (length ys < fuel)%nat →
  list_max_loop fuel l (Some m) (Some (at_pos l ys)) less h =
    Ret (Some (max_of less m ys), h).
Proof.
  revert xs ys m. induction fuel as [|fuel IH]; intros xs ys m Hl Hf; [lia|].
  cbn [list_max_loop]. rewrite (peq_end _ _ _ _ Hl). case_bool_decide as E; [by subst|].
  destruct ys as [|y ys]; [done|]. unfold at_pos. cbn [list.head default].
  st_step (call_less_run less m y h). st_step (list_next_ok _ _ _ _ _ Hl).
  assert (∀ m', list_max_loop fuel l (Some m') (Some (at_pos l ys)) less h = _) as IH'
    by (intros m'; apply (IH (xs ++ [y])); [by rewrite <-app_assoc|cbn in Hf; lia]).
  unfold max_of in *. cbn [foldl]. by destruct (less m y); rewrite IH'.
Qed.

Lemma list_max_ok h l fuel less x xs :
  is_list h l (x :: xs) → (length xs < fuel)%nat →
  list_max fuel l less h = Ret (Some (max_of less x xs), h).
Proof.
  intros Hl Hf. unfold list_max. st_step (list_begin_ok _ _ _ Hl).
  rewrite (peq_end h l [] (x :: xs)) by done.
  rewrite bool_decide_eq_false_2 by done. unfold at_pos. cbn [list.head default].
  st_step (list_next_ok h l [] x xs Hl). by apply (list_max_loop_ok h l fuel less [x] xs x).
Qed.

Lemma list_max_empty h l fuel less :
  is_list h l [] → list_max fuel l less h = Ret (Some (tail l), h).
Proof.
  intros Hl. unfold list_max. st_step (list_begin_ok _ _ _ Hl).
  by rewrite (peq_end h l [] []) by done.
Qed.

(** The earliest element that no other exceeds. *)
Lemma max_of_spec less `{!StrictWeak less} x xs :
  ∃ ys zs, x :: xs = ys ++ max_of less x xs :: zs ∧
    Forall (λ y, less y (max_of less x xs) = true) ys ∧
    Forall (λ y, less (max_of less x xs) y = false) (x :: xs).
Proof.
  induction xs as [|w xs (ys & zs & E & Hy & Hall)] using rev_ind.
  { exists [], []. split_and!; [done..|]. constructor; [|done].
    by apply less_irrefl. }
  unfold max_of in *. rewrite foldl_snoc. set (m := foldl _ x xs) in *.
  rewrite app_comm_cons. destruct (less m w) eqn:Em.
  - exists (x :: xs), []. split_and!; [done| |].
    + eapply Forall_impl; [exact Hall|]. intros y Hmy. destruct (less y w) eqn:Ey; [done|].
      rewrite <-Em. symmetry. by apply (less_negtrans m y w).
    + apply Forall_app. split; [|constructor; [by apply less_irrefl|done]].
      eapply Forall_impl; [exact Hall|]. intros y Hmy. eapply less_negtrans; [|exact Hmy].
      by apply less_asym.
  - exists ys, (zs ++ [w]). split_and!; [by rewrite E, <-app_assoc|done|].
    apply Forall_app. by split; [|constructor].
Qed.

Lemma list_min_loop_flip fuel l m e less h :
  list_min_loop fuel l m e less h = list_max_loop fuel l m e (flip less) h.
Proof.
  revert m e h. induction fuel as [|fuel IH]; intros m e h; [done|].
  cbn [list_min_loop list_max_loop]. destruct (peq e (list_end l)); [done|].
  destruct e as [e|], m as [m|]; try done.
  st_step (call_less_run less e m h). st_step (call_less_run (flip less) m e h).
  unfold mbind, st_bind. destruct (list_next (Some e) h) as [[e' h']| |]; [|done..].
  exact (IH _ _ _).
Qed.

Lemma list_min_flip fuel l less h : list_min fuel l less h = list_max fuel l (flip less) h.
Proof.
  unfold list_min, list_max, mbind, st_bind.
  destruct (list_begin l h) as [[m h1]| |]; try done.
  destruct (peq m (list_end l)); [done|].
  destruct (list_next m h1) as [[e h2]| |]; try done. apply list_min_loop_flip.
Qed.

(** ** Duplicates *)

(** Neither is less than the other. *)
Definition same_key (less : list_less_func) (a b : loc) : bool :=
  negb (less a b) && negb (less b a).

(** What stays behind [x], and what is moved out. *)
Fixpoint unique_from (less : list_less_func) (x : loc) (ys : list loc) : list loc * list loc :=
  match ys with
  | [] => ([], [])
  | y :: ys =>
      if same_key less x y
      then let '(k, d) := unique_from less x ys in (k, y :: d)
      else let '(k, d) := unique_from less y ys in (y :: k, d)
  end.

Definition dup_list (h : heap) (duplicates : option list_hdr) (ds : list loc) : Prop :=
  match duplicates with Some d => is_list h d ds | None => True end.

Definition dup_nodes (duplicates : option list_hdr) (ds : list loc) : list loc :=
  match duplicates with Some d => nodes d ds | None => [] end.

(** Moving one element to the list of duplicates. *)
Lemma unique_move_ok h l duplicates xs y ys ds :
  is_list h l (xs ++ y :: ys) → dup_list h duplicates ds →
  disj (nodes l (xs ++ y :: ys)) (dup_nodes duplicates ds) →
  ∃ h', (list_remove (Some y);;
         match duplicates with Some d => list_push_back d (Some y) | None => mret tt end) h
          = Ret (tt, h') ∧
    is_list h' l (xs ++ ys) ∧ dup_list h' duplicates (ds ++ [y]) ∧
    disj (nodes l (xs ++ ys)) (dup_nodes duplicates (ds ++ [y])) ∧
    same_except (nodes l (xs ++ y :: ys) ++ dup_nodes duplicates ds) h h'.
Proof.
  intros Hl Hd Hdj. destruct (list_remove_ok _ _ _ _ _ Hl) as (h1 & Hr & Hl1 & Hs1).
  pose proof (il_nodup _ _ _ Hl) as Hnd. pose proof (nodes_cons_perm l xs y ys) as HN.
  rewrite HN in Hnd. apply NoDup_cons in Hnd as [Hy _].
  assert (∀ x, x ∈ nodes l (xs ++ y :: ys) ↔ x = y ∨ x ∈ nodes l (xs ++ ys)) as HN'
    by (intros x; by rewrite HN, elem_of_cons).
  assert (∀ x, x ∈ [before_pos l xs; at_pos l ys] → x ∈ nodes l (xs ++ ys)) as Hnb.
  { pose proof (before_pos_nodes l xs ys). pose proof (at_pos_nodes l xs ys). set_solver. }
  st_step Hr. destruct duplicates as [d|]; cbn [dup_list dup_nodes] in *.
  - assert (allocated h1 y) as Ha.
    { destruct (is_list_allocated _ _ _ y Hl) as [? ?]; [by apply HN'; left|].
      destruct (Hs1 y) as [E1 E2]; [naive_solver|]. split; congruence. }
    assert (is_list h1 d ds) as Hd1.
    { eapply is_list_frame; [exact Hs1| |exact Hd]. intros x Hx Hx'.
      apply (Hdj x); [|done]. apply HN'. auto. }
    destruct (list_push_back_ok h1 d ds y Hd1 Ha) as (h2 & Hr2 & Hd2 & Hs2).
    { intros Hy'. apply (Hdj y); [by apply HN'; left|done]. }
    exists h2. split_and!; [done| |done| |].
    + eapply is_list_frame; [exact Hs2| |exact Hl1]. intros x Hx [->|Hx']%elem_of_cons; [done|].
      apply (Hdj x); [|done]. apply HN'. auto.
    + intros x Hx Hx'. rewrite <-(app_nil_r ds), <-app_assoc in Hx'. cbn in Hx'.
      rewrite nodes_cons_perm, app_nil_r, elem_of_cons in Hx'. destruct Hx' as [->|Hx']; [done|].
      apply (Hdj x); [|done]. apply HN'. auto.
    + eapply same_except_trans; (eapply same_except_mono; [|done]); intros x Hx;
        rewrite elem_of_app, HN'; [auto|set_solver].
  - exists h1. split_and!; [done..|intros x _ Hx; by apply not_elem_of_nil in Hx|].
    eapply same_except_mono; [|exact Hs1]. intros x Hx. rewrite elem_of_app, HN'. auto.
Qed.

Lemma list_unique_loop_ok fuel l duplicates less xs x ys ds h :
  is_list h l (xs ++ x :: ys) → dup_list h duplicates ds →
  disj (nodes l (xs ++ x :: ys)) (dup_nodes duplicates ds) →
  (length ys < fuel)%nat →
  ∃ h', list_unique_loop fuel l duplicates (Some x) less h = Ret (tt, h') ∧
    is_list h' l (xs ++ x :: (unique_from less x ys).1) ∧
    dup_list h' duplicates (ds ++ (unique_from less x ys).2) ∧
    same_except (nodes l (xs ++ x :: ys) ++ dup_nodes duplicates ds) h h'.
Proof.
  revert xs x ys ds h. induction fuel as [|fuel IH]; intros xs x ys ds h Hl Hd Hdj Hf; [lia|].
  cbn [list_unique_loop]. st_step (list_next_ok _ _ _ _ _ Hl).
  pose proof Hl as Hl'. rewrite cons_middle, app_assoc in Hl'. rewrite (peq_end _ _ _ _ Hl').
  destruct ys as [|y ys].
  { rewrite bool_decide_eq_true_2 by done. exists h. cbn. rewrite app_nil_r.
    split_and!; [done..|apply same_except_refl]. }
  rewrite bool_decide_eq_false_2 by done. unfold at_pos. cbn [list.head default].
  st_step (call_less_run less x y h). st_step (call_less_run less y x h).
  cbn [unique_from]. fold (same_key less x y). cbn [length] in Hf.
  destruct (same_key less x y) eqn:Ek.
  - destruct (unique_move_ok h l duplicates (xs ++ [x]) y ys ds) as (h1 & Hr & Hl1 & Hd1 & Hdj1 & Hs1);
      [done..|by rewrite <-app_assoc|].
    destruct (IH xs x ys (ds ++ [y]) h1) as (h2 & Hr2 & Hl2 & Hd2 & Hs2);
      [by rewrite <-app_assoc in Hl1|done|by rewrite <-app_assoc in Hdj1|lia|].
    exists h2. destruct (unique_from less x ys) as [k d]. cbn [fst snd] in *.
    rewrite <-app_assoc in Hd2.
    split_and!; [|done|done|].
    + by rewrite (st_bind_ret2 _ _ _ _ _ _ Hr).
    + eapply same_except_trans; [|eapply same_except_mono; [|exact Hs2]].
      * by rewrite <-app_assoc in Hs1.
      * intros z. destruct duplicates as [dd|]; cbn [dup_nodes];
          rewrite ?elem_of_app, ?elem_of_nodes, ?elem_of_app, ?elem_of_cons, ?elem_of_nil; tauto.
  - destruct (IH (xs ++ [x]) y ys ds h) as (h2 & Hr2 & Hl2 & Hd2 & Hs2);
      [by rewrite <-app_assoc|done|by rewrite <-app_assoc|lia|].
    exists h2. destruct (unique_from less y ys) as [k d]. cbn [fst snd] in *.
    rewrite <-app_assoc in Hl2, Hs2. done.
Qed.

Lemma list_unique_ok fuel l duplicates less xs ds h :
  is_list h l xs → dup_list h duplicates ds →
  disj (nodes l xs) (dup_nodes duplicates ds) → (length xs < fuel)%nat →
  ∃ h', list_unique fuel l duplicates less h = Ret (tt, h') ∧
    match xs with
    | [] => is_list h' l [] ∧ dup_list h' duplicates ds
    | x :: ys => is_list h' l (x :: (unique_from less x ys).1) ∧
                 dup_list h' duplicates (ds ++ (unique_from less x ys).2)
    end.
Proof.
  intros Hl Hd Hdj Hf. unfold list_unique. st_step (list_empty_ok _ _ _ Hl).
  destruct xs as [|x ys]; [by exists h|]. rewrite bool_decide_eq_false_2 by done.
  st_step (list_begin_ok _ _ _ Hl). cbn in Hf.
  destruct (list_unique_loop_ok fuel l duplicates less [] x ys ds h) as (h' & Hr & ? & ? & _);
    [done..|lia|]. by exists h'.
Qed.

(** Nothing is lost, and neighbours that remain differ. *)
Lemma unique_from_perm less x ys :
  (unique_from less x ys).1 ++ (unique_from less x ys).2 ≡ₚ ys.
Proof.
  revert x. induction ys as [|y ys IH]; intros x; [done|]. cbn.
  destruct (same_key less x y).
  - specialize (IH x). destruct (unique_from less x ys). cbn in *.
    by rewrite <-Permutation_middle, IH.
  - specialize (IH y). destruct (unique_from less y ys). cbn in *. by rewrite IH.
Qed.

Lemma unique_from_distinct less `{!StrictWeak less} x ys :
  in_order less (x :: ys) →
  StronglySorted (λ a b, less a b = true) (x :: (unique_from less x ys).1).
Proof.
  revert x. induction ys as [|y ys IH]; intros x Ho; [by repeat constructor|].
  apply StronglySorted_inv in Ho as [Ho Hx]. inversion Hx as [|? ? Hxy Hxs]; subst. cbn in Hxy.
  cbn. unfold same_key. rewrite Hxy, andb_true_r. destruct (less x y) eqn:E; cbn.
  - specialize (IH y Ho). destruct (unique_from less y ys) as [k d]. cbn in *.
    constructor; [done|]. constructor; [done|]. apply StronglySorted_inv in IH as [_ IH].
    eapply Forall_impl; [exact IH|]. intros z Hz. cbn in Hz. by eapply less_trans.
  - specialize (IH x). destruct (unique_from less x ys) as [k d]. cbn in *. apply IH.
    apply StronglySorted_inv in Ho as [Ho _]. by constructor.
Qed.
