(* ===== verification/ListSort.v ===== *)
(** * The natural merge sort of [lib/kernel/list.c]

    [list_sort] merges neighbouring runs in place until one run is left.  The
    reference definitions are the number of runs of a list and the stable
    merge of two lists; the pointer code is shown to compute that merge, every
    pass to halve the number of runs, and the result to be the ordered, stable
    permutation of the list. *)

From stdpp Require Import base tactics list numbers option sorting gmap.
From Stdlib Require Import ZArith Lia.
From S2P Require Import Prelude LinkedList ListOps.

(** ** Runs and merging, as functions on lists *)

Section runs.
Context (less : list_less_func).

(** The number of elements that are less than the one before them. *)
Fixpoint descents (xs : list loc) : nat :=
  match xs with
  | x :: (y :: _) as t => (if less y x then 1 else 0) + descents t
  | _ => 0
  end.

Definition runs (xs : list loc) : nat :=
  match xs with [] => 0 | _ => S (descents xs) end.

(** The run that starts at [x], without [x], and what follows it. *)
Fixpoint take_run (x : loc) (ys : list loc) : list loc * list loc :=
  match ys with
  | [] => ([], [])
  | y :: ys' =>
      if less y x then ([], ys)
      else let '(r, rest) := take_run y ys' in (y :: r, rest)
  end.

Fixpoint merge (xs : list loc) : list loc → list loc :=
  fix go ys :=
    match xs, ys with
    | [], _ => ys
    | _, [] => xs
    | x :: xs', y :: ys' =>
        if less y x then y :: go ys' else x :: merge xs' ys
    end.

Lemma merge_nil_l ys : merge [] ys = ys.
Proof. by destruct ys. Qed.

Lemma merge_nil_r xs : merge xs [] = xs.
Proof. by destruct xs. Qed.

Lemma merge_cons x xs y ys :
  merge (x :: xs) (y :: ys) =
    if less y x then y :: merge (x :: xs) ys else x :: merge xs (y :: ys).
Proof. done. Qed.

(** Induction along the comparisons of a merge. *)
Lemma merge_ind (P : list loc → list loc → Prop) :
  (∀ ys, P [] ys) → (∀ xs, P xs []) →
  (∀ x xs y ys, less y x = true → P (x :: xs) ys → P (x :: xs) (y :: ys)) →
  (∀ x xs y ys, less y x = false → P xs (y :: ys) → P (x :: xs) (y :: ys)) →
  ∀ xs ys, P xs ys.
Proof.
  intros H1 H2 H3 H4 xs. induction xs as [|x xs IHx]; [done|].
  intros ys. induction ys as [|y ys IHy]; [done|].
  destruct (less y x) eqn:E; auto.
Qed.

Lemma merge_perm xs ys : merge xs ys ≡ₚ xs ++ ys.
Proof.
  pattern xs, ys. apply merge_ind; clear xs ys;
    [intros ys|intros xs|intros x xs y ys E IH..].
  - by rewrite merge_nil_l.
  - by rewrite merge_nil_r, app_nil_r.
  - by rewrite merge_cons, E, IH, <-Permutation_middle.
  - by rewrite merge_cons, E, IH.
Qed.

Lemma take_run_app x ys : ys = (take_run x ys).1 ++ (take_run x ys).2.
Proof.
  revert x. induction ys as [|y ys IH]; intros x; [done|]. cbn.
  destruct (less y x); [done|]. specialize (IH y).
  destruct (take_run y ys). cbn in *. by rewrite <-IH.
Qed.

Lemma descents_cons x y ys :
  descents (x :: y :: ys) = ((if less y x then 1 else 0) + descents (y :: ys))%nat.
Proof. done. Qed.

(** A run has no descent, and ends where one is. *)
Lemma take_run_descents x ys :
  descents (x :: (take_run x ys).1) = 0%nat ∧
  runs (x :: ys) = S (runs (take_run x ys).2).
Proof.
  revert x. induction ys as [|y ys IH]; intros x; [done|].
  cbn [take_run]. destruct (less y x) eqn:E; cbn [fst snd].
  - split; [done|]. cbn. by rewrite E.
  - destruct (IH y) as [IH1 IH2]. destruct (take_run y ys) as [r rest]. cbn [fst snd] in *.
    split.
    + by rewrite descents_cons, E, IH1.
    + cbn [runs] in *. rewrite descents_cons, E. lia.
Qed.

Lemma runs_app xs ys : (runs (xs ++ ys) ≤ runs xs + runs ys)%nat.
Proof.
  induction xs as [|x xs IH]; [done|]. destruct xs as [|x' xs].
  - destruct ys as [|y ys]; [done|]. cbn. destruct (less y x); lia.
  - cbn [app runs] in *. rewrite !descents_cons. destruct (less x' x); lia.
Qed.

Lemma runs_length xs : (runs xs ≤ length xs)%nat.
Proof.
  induction xs as [|x xs IH]; [done|]. destruct xs as [|y xs]; [done|].
  cbn [runs length] in *. rewrite descents_cons. destruct (less y x); lia.
Qed.

Context `{!StrictWeak less}.

(** No descent: the list is in order. *)
Lemma descents_order xs : descents xs = 0%nat ↔ in_order less xs.
Proof.
  unfold in_order. split.
  - induction xs as [|x xs IH]; [constructor|]. intros H.
    assert (in_order less xs) as Ho.
    { apply IH. destruct xs; [done|]. rewrite descents_cons in H. lia. }
    constructor; [done|]. destruct xs as [|y xs]; [done|]. rewrite descents_cons in H.
    destruct (less y x) eqn:E; [lia|]. constructor; [done|].
    apply StronglySorted_inv in Ho as [_ Ho]. eapply Forall_impl; [exact Ho|].
    intros z Hz. by apply (less_negtrans z y x).
  - induction xs as [|x xs IH]; [done|]. intros [Ho Hx]%StronglySorted_inv.
    destruct xs as [|y xs]; [done|]. rewrite descents_cons, (IH Ho).
    inversion Hx as [|? ? E]; subst. by rewrite E.
Qed.

Lemma merge_order xs ys :
  in_order less xs → in_order less ys → in_order less (merge xs ys).
Proof.
  pattern xs, ys. apply merge_ind; clear xs ys;
    [intros ys|intros xs|intros x xs y ys E IH..]; intros Hx Hy.
  - by rewrite merge_nil_l.
  - by rewrite merge_nil_r.
  - rewrite merge_cons, E. apply StronglySorted_inv in Hy as [Hy Hy'].
    constructor; [by apply IH|]. rewrite merge_perm. apply Forall_app. split; [|done].
    apply less_asym in E. constructor; [done|]. apply StronglySorted_inv in Hx as [_ Hx].
    eapply Forall_impl; [exact Hx|]. intros z Hz. by apply (less_negtrans z x y).
  - rewrite merge_cons, E. apply StronglySorted_inv in Hx as [Hx Hx'].
    constructor; [by apply IH|]. rewrite merge_perm. apply Forall_app. split; [done|].
    constructor; [done|]. apply StronglySorted_inv in Hy as [_ Hy].
    eapply Forall_impl; [exact Hy|]. intros z Hz. by apply (less_negtrans z y x).
Qed.

(** Elements of equal keys keep their order. *)
Definition stable (xs ys : list loc) : Prop :=
  ∀ k, filter (same_key less k) xs = filter (same_key less k) ys.

Lemma merge_stable xs ys :
  in_order less xs → stable (merge xs ys) (xs ++ ys).
Proof.
  intros Hx k. revert Hx.
  pattern xs, ys. apply merge_ind; clear xs ys;
    [intros ys|intros xs|intros x xs y ys E IH..]; intros Hx.
  - by rewrite merge_nil_l.
  - by rewrite merge_nil_r, app_nil_r.
  - rewrite merge_cons, E, filter_cons, (IH Hx), !filter_app, (filter_cons _ y ys).
    case_decide as Hk; [|done]. cut (filter (same_key less k) (x :: xs) = []); [by intros ->|].
    apply Is_true_true, andb_true_iff in Hk as [Hk1%negb_true_iff Hk2%negb_true_iff].
    assert (∀ z, less y z = true → same_key less k z = false) as Hlt.
    { intros z Hz. unfold same_key. destruct (less k z) eqn:Ekz; [done|]. exfalso.
      rewrite (less_negtrans y k z Hk2 Ekz) in Hz. done. }
    apply filter_none. intros z Hz Hs. apply Is_true_true in Hs.
    rewrite Hlt in Hs; [done|]. apply elem_of_cons in Hz as [->|Hz]; [done|].
    apply StronglySorted_inv in Hx as [_ Hx]. rewrite Forall_forall in Hx.
    destruct (less y z) eqn:Eyz; [done|]. rewrite <-E. symmetry.
    apply (less_negtrans y z x); auto.
  - apply StronglySorted_inv in Hx as [Hx _].
    rewrite merge_cons, E, <-app_comm_cons, !filter_cons, (IH Hx). done.
Qed.
End runs.

(** ** The pointer code *)

(** Iterators at different positions of a list differ. *)
Lemma peq_pos h l xs ys zs :
  is_list h l (xs ++ ys ++ zs) →
  peq (Some (at_pos l (ys ++ zs))) (Some (at_pos l zs)) = bool_decide (ys = []).
Proof.
  intros [Hnd _ _ _]. unfold peq. apply bool_decide_ext.
  destruct ys as [|y ys]; [done|]. split; [|done]. unfold at_pos at 1. cbn. intros [= ->].
  cbn [app] in Hnd. rewrite nodes_cons_perm, app_assoc in Hnd. apply NoDup_cons in Hnd as [Hn _].
  destruct Hn. apply at_pos_nodes.
Qed.

#[export] Instance nodes_proper l : Proper ((≡ₚ) ==> (≡ₚ)) (nodes l).
Proof. intros xs ys E. unfold nodes. by rewrite E. Qed.

Lemma same_except_perm D D' h h' : D ≡ₚ D' → same_except D h h' → same_except D' h h'.
Proof. intros E. apply same_except_mono. intros x. by rewrite E. Qed.

Section sort.
Context (less : list_less_func) (l : list_hdr).

(** The test both scanning loops make: is [y], whose predecessor is [x], less
    than it? *)
Lemma scan_step h xs x y ys :
  is_list h l (xs ++ x :: y :: ys) →
  ∀ {B} (k : bool → st heap B),
  (p ← list_prev (Some y); c ← call_less less (Some y) p; k c) h = k (less y x) h.
Proof.
  intros Hl B k. rewrite cons_middle, app_assoc in Hl.
  pose proof (list_prev_ok h l _ _ Hl) as Hp. unfold at_pos, before_pos in Hp.
  rewrite last_snoc in Hp. cbn in Hp. st_step Hp. by st_step (call_less_run less y x h).
Qed.

Lemma is_sorted_loop_ok h fuel ps x ys zs :
  is_list h l (ps ++ x :: ys ++ zs) → (length ys < fuel)%nat →
  is_sorted_loop fuel (Some x) (Some (at_pos l zs)) less h =
    Ret (bool_decide (descents less (x :: ys) = 0%nat), h).
Proof.
  revert ps x ys. induction fuel as [|fuel IH]; intros ps x ys Hl Hf; [lia|].
  cbn [is_sorted_loop]. st_step (list_next_ok _ _ _ _ _ Hl).
  pose proof Hl as Hl'. rewrite cons_middle, app_assoc in Hl'.
  rewrite (peq_pos _ _ _ _ _ Hl'). destruct ys as [|y ys]; [done|].
  rewrite bool_decide_eq_false_2 by done. change (at_pos l ((y :: ys) ++ zs)) with y.
  rewrite (scan_step _ _ _ _ _ Hl), descents_cons. destruct (less y x) eqn:E; [done|].
  cbn in Hf. by rewrite (IH (ps ++ [x]) y ys Hl') by lia.
Qed.

Lemma is_sorted_ok h fuel ps ys zs :
  is_list h l (ps ++ ys ++ zs) → (length ys < fuel)%nat →
  is_sorted fuel (Some (at_pos l (ys ++ zs))) (Some (at_pos l zs)) less h =
    Ret (bool_decide (descents less ys = 0%nat), h).
Proof.
  intros Hl Hf. unfold is_sorted. rewrite (peq_pos _ _ _ _ _ Hl).
  destruct ys as [|y ys]; [done|]. rewrite bool_decide_eq_false_2 by done.
  unfold at_pos at 1. cbn in Hf. cbn [list.head default app]. eapply is_sorted_loop_ok; [done|lia].
Qed.

Lemma find_end_of_run_loop_ok h fuel ps x ys :
  is_list h l (ps ++ x :: ys) → (length ys < fuel)%nat →
  find_end_of_run_loop fuel (Some x) (list_end l) less h =
    Ret (Some (at_pos l (take_run less x ys).2), h).
Proof.
  revert ps x ys. induction fuel as [|fuel IH]; intros ps x ys Hl Hf; [lia|].
  cbn [find_end_of_run_loop]. st_step (list_next_ok _ _ _ _ _ Hl).
  pose proof Hl as Hl'. rewrite cons_middle, app_assoc in Hl'.
  rewrite (peq_end _ _ _ _ Hl'). destruct ys as [|y ys]; [done|].
  rewrite bool_decide_eq_false_2 by done. change (at_pos l (y :: ys)) with y.
  rewrite (scan_step _ _ _ _ _ Hl). cbn [take_run]. destruct (less y x) eqn:E; [done|].
  cbn in Hf. rewrite (IH (ps ++ [x]) y ys Hl') by lia. by destruct (take_run less y ys).
Qed.

Lemma find_end_of_run_ok h fuel ps x ys :
  is_list h l (ps ++ x :: ys) → (length ys < fuel)%nat →
  find_end_of_run fuel (Some x) (list_end l) less h =
    Ret (Some (at_pos l (take_run less x ys).2), h).
Proof.
  intros Hl Hf. unfold find_end_of_run. st_assert. st_assert.
  pose proof (peq_end _ _ _ _ Hl) as E. change (at_pos l (x :: ys)) with x in E.
  rewrite E. st_assert. by eapply find_end_of_run_loop_ok.
Qed.

Lemma inplace_merge_loop_ok fuel ps xs ys rest h :
  is_list h l (ps ++ xs ++ ys ++ rest) → (length xs + length ys < fuel)%nat →
  ∃ h', inplace_merge_loop fuel (Some (at_pos l (xs ++ ys ++ rest)))
          (Some (at_pos l (ys ++ rest))) (Some (at_pos l rest)) less h = Ret (tt, h') ∧
        is_list h' l (ps ++ merge less xs ys ++ rest) ∧
        same_except (nodes l (ps ++ xs ++ ys ++ rest)) h h'.
Proof.
  revert ps xs ys h. induction fuel as [|fuel IH]; intros ps xs ys h Hl Hf; [lia|].
  cbn [inplace_merge_loop]. rewrite (peq_pos _ _ _ _ _ Hl).
  pose proof Hl as Hl'. rewrite app_assoc in Hl'. rewrite (peq_pos _ _ _ _ _ Hl').
  destruct xs as [|x xs].
  { exists h. rewrite merge_nil_l. split_and!; [done..|apply same_except_refl]. }
  destruct ys as [|y ys].
  { exists h. rewrite merge_nil_r. split_and!; [done..|apply same_except_refl]. }
  rewrite !bool_decide_eq_false_2 by done. cbn [negb andb].
  change (at_pos l ((x :: xs) ++ _)) with x. change (at_pos l ((y :: ys) ++ _)) with y. st_step (call_less_run less y x h). rewrite merge_cons. cbn in Hf.
  destruct (less y x) eqn:E; cbn [negb].
  - st_step (list_next_ok _ _ _ _ _ Hl').
    assert (is_list h l (((ps ++ x :: xs) ++ [y]) ++ ys ++ rest)) as Hl'' by (by rewrite <-app_assoc).
    pose proof (list_prev_ok _ _ _ _ Hl'') as Hp. unfold before_pos in Hp. rewrite last_snoc in Hp.
    destruct (list_splice_ok h l ps x xs y [] (ys ++ rest)) as (h1 & Hr1 & Hl1 & Hs1); [done|].
    erewrite st_bind_ret; [|st_step Hp; exact Hr1].
    destruct (IH (ps ++ [y]) (x :: xs) ys h1) as (h2 & Hr2 & Hl2 & Hs2);
      [by rewrite <-app_assoc|cbn; lia|].
    exists h2. rewrite <-app_assoc in Hl2. split_and!; [done..|].
    eapply same_except_trans; [exact Hs1|]. eapply same_except_perm; [|exact Hs2].
    apply nodes_proper. rewrite <-!app_assoc. apply Permutation_app_head.
    cbn. by rewrite <-(Permutation_middle xs (ys ++ rest) y), Permutation_swap.
  - st_step (list_next_ok _ _ _ _ _ Hl).
    destruct (IH (ps ++ [x]) xs (y :: ys) h) as (h2 & Hr2 & Hl2 & Hs2);
      [by rewrite <-app_assoc|cbn; lia|].
    exists h2. rewrite <-app_assoc in Hl2, Hs2. done.
Qed.

Lemma inplace_merge_ok fuel ps xs ys rest h :
  is_list h l (ps ++ xs ++ ys ++ rest) → (length xs + length ys < fuel)%nat →
  descents less xs = 0%nat → descents less ys = 0%nat →
  ∃ h', inplace_merge fuel (Some (at_pos l (xs ++ ys ++ rest)))
          (Some (at_pos l (ys ++ rest))) (Some (at_pos l rest)) less h = Ret (tt, h') ∧
        is_list h' l (ps ++ merge less xs ys ++ rest) ∧
        same_except (nodes l (ps ++ xs ++ ys ++ rest)) h h'.
Proof.
  intros Hl Hf Hx Hy. unfold inplace_merge. do 3 st_assert.
  rewrite (st_bind_ret _ _ _ tt h); [rewrite (st_bind_ret _ _ _ tt h)|].
  - by apply inplace_merge_loop_ok.
  - rewrite app_assoc in Hl. erewrite st_bind_ret; [|eapply is_sorted_ok; [done|lia]].
    by rewrite Hy.
  - erewrite st_bind_ret; [|eapply is_sorted_ok; [done|lia]]. by rewrite Hx.
Qed.

Context `{!StrictWeak less}.

(** One pass merges the runs two by two. *)
Lemma list_sort_pass_ok fuel ps xs cnt h :
  is_list h l (ps ++ xs) → (length xs < fuel)%nat →
  0 ≤ cnt → cnt + Z.of_nat (length xs) < 2 ^ 32 →
  ∃ h' xs',
    list_sort_pass fuel l (Some (at_pos l xs)) cnt less h =
      Ret (cnt + Z.of_nat (Nat.div2 (S (runs less xs))), h') ∧
    is_list h' l (ps ++ xs') ∧ xs' ≡ₚ xs ∧ stable less xs' xs ∧
    (runs less xs' ≤ Nat.div2 (S (runs less xs)))%nat ∧
    same_except (nodes l (ps ++ xs)) h h'.
Proof.
  revert ps xs cnt h. induction fuel as [|fuel IH]; intros ps xs cnt h Hl Hf Hc0 Hc; [lia|].
  cbn [list_sort_pass]. rewrite (peq_end _ _ _ _ Hl). destruct xs as [|x xs].
  { exists h, []. cbn. rewrite Z.add_0_r. split_and!; [done..|apply same_except_refl]. }
  rewrite bool_decide_eq_false_2 by done. change (at_pos l (x :: xs)) with x.
  cbn [length] in Hf, Hc. rewrite u32_id by lia.
  st_step (find_end_of_run_ok h (S fuel) ps x xs Hl ltac:(lia)).
  pose proof (take_run_app less x xs) as Exs. destruct (take_run_descents less x xs) as [Hd Hr].
  destruct (take_run less x xs) as [r1 rest]. cbn [fst snd] in *. rewrite Hr.
  assert (is_list h l ((ps ++ x :: r1) ++ rest)) as Hl1 by (by rewrite <-app_assoc; subst).
  rewrite (peq_end _ _ _ _ Hl1). destruct rest as [|y zs].
  { rewrite app_nil_r in Exs. subst r1. exists h, (x :: xs). cbn in Hr |- *.
    split_and!; [done..|lia|apply same_except_refl]. }
  rewrite bool_decide_eq_false_2 by done. change (at_pos l (y :: zs)) with y.
  assert (length xs = length r1 + S (length zs))%nat as Elen by (subst; by rewrite length_app).
  st_step (find_end_of_run_ok h (S fuel) _ y zs Hl1 ltac:(lia)).
  pose proof (take_run_app less y zs) as Ezs. destruct (take_run_descents less y zs) as [Hd' Hr'].
  destruct (take_run less y zs) as [r2 rest]. cbn [fst snd] in *. rewrite Hr'.
  assert (length zs = length r2 + length rest)%nat as Elen' by (subst; by rewrite length_app).
  assert (x :: xs = (x :: r1) ++ (y :: r2) ++ rest) as Eall by (by subst xs zs).
  rewrite Eall in Hl |- *.
  destruct (inplace_merge_ok (S fuel) ps (x :: r1) (y :: r2) rest h) as (h1 & Hm & Hl2 & Hs1);
    [done|cbn; lia|done..|].
  change (at_pos l ((x :: r1) ++ _)) with x in Hm. change (at_pos l ((y :: r2) ++ _)) with y in Hm.
  st_step Hm. set (m := merge less (x :: r1) (y :: r2)) in *.
  assert (m ≡ₚ (x :: r1) ++ (y :: r2)) as Hmp by apply merge_perm.
  destruct (IH (ps ++ m) rest (cnt + 1) h1) as (h2 & xs' & Hrun & Hl3 & Hp & Hst & Hruns & Hs2);
    [by rewrite <-app_assoc|lia..|].
  exists h2, (m ++ xs'). rewrite Hrun, <-app_assoc in *. split_and!.
  - change (Nat.div2 (S (S (S (runs less rest))))) with (S (Nat.div2 (S (runs less rest)))).
    do 2 f_equal. lia.
  - done.
  - by rewrite Hmp, Hp, <-app_assoc.
  - intros k. rewrite (app_assoc (x :: r1)), !(filter_app _ (_ ++ _) rest), filter_app, (Hst k).
    rewrite (merge_stable less (x :: r1) (y :: r2)); [done|by apply descents_order].
  - change (Nat.div2 (S (S (S (runs less rest))))) with (1 + Nat.div2 (S (runs less rest)))%nat.
    etransitivity; [apply runs_app|]. apply Nat.add_le_mono; [|done].
    assert (descents less m = 0%nat) as Hm0
      by (apply descents_order; [done|]; apply merge_order; [done|by apply descents_order..]).
    destruct m; cbn in *; lia.
  - eapply same_except_trans; [exact Hs1|]. eapply same_except_perm; [|exact Hs2].
    apply nodes_proper. by rewrite Hmp, <-app_assoc.
Qed.

Lemma list_sort_loop_ok passes fuel xs h :
  is_list h l xs → (length xs < fuel)%nat → (runs less xs < passes)%nat →
  (0 < passes)%nat → Z.of_nat (length xs) < 2 ^ 32 →
  ∃ h' xs', list_sort_loop passes fuel l less h = Ret (tt, h') ∧
    is_list h' l xs' ∧ xs' ≡ₚ xs ∧ stable less xs' xs ∧ in_order less xs' ∧
    same_except (nodes l xs) h h'.
Proof.
  revert xs h. induction passes as [|passes IH]; intros xs h Hl Hf Hp Hp0 Hlen; [lia|].
  cbn [list_sort_loop]. st_step (list_begin_ok _ _ _ Hl).
  destruct (list_sort_pass_ok fuel [] xs 0 h) as (h1 & xs1 & Hr & Hl1 & Hpm & Hst & Hruns & Hs1);
    [done|lia..|].
  st_step Hr. cbn [app] in *. pose proof (Nat.div2_decr (S (runs less xs)) (runs less xs)).
  destruct (1 <? 0 + _) eqn:E.
  - apply Z.ltb_lt in E.
    assert (runs less xs1 < runs less xs)%nat.
    { eapply Nat.le_lt_trans; [exact Hruns|]. destruct (runs less xs) as [|[|n]]; [cbn in E; lia..|].
      change (Nat.div2 (S (S (S n)))) with (S (Nat.div2 (S n))).
      pose proof (Nat.div2_decr (S n) n). lia. }
    destruct (IH xs1 h1) as (h2 & xs2 & Hr2 & Hl2 & Hpm2 & Hst2 & Ho2 & Hs2);
      [done|by rewrite Hpm|lia|lia|by rewrite Hpm|].
    exists h2, xs2. split_and!; [done|done|by rewrite Hpm2| |done|].
    + intros k. by rewrite (Hst2 k).
    + eapply same_except_trans; [exact Hs1|]. eapply same_except_perm; [|exact Hs2].
      by apply nodes_proper.
  - apply Z.ltb_ge in E. exists h1, xs1. split_and!; [done..| |done].
    apply descents_order; [done|]. destruct xs1; [done|]. cbn [runs] in Hruns. lia.
Qed.

(** [list_sort] returns, and leaves the ordered stable permutation of the
    list. *)
Lemma list_sort_ok fuel xs h :
  is_list h l xs → (length xs + 1 < fuel)%nat → Z.of_nat (length xs) < 2 ^ 32 →
  ∃ h' xs', list_sort fuel l less h = Ret (tt, h') ∧
    is_list h' l xs' ∧ xs' ≡ₚ xs ∧ stable less xs' xs ∧ in_order less xs' ∧
    same_except (nodes l xs) h h'.
Proof.
  intros Hl Hf Hlen. pose proof (runs_length less xs).
  destruct (list_sort_loop_ok fuel fuel xs h) as (h' & xs' & Hr & Hl' & Hpm & Hst & Ho & Hs);
    [done|lia..|]. exists h', xs'. unfold list_sort. st_step Hr.
  st_step (list_begin_ok _ _ _ Hl'). split_and!; [|done..].
  pose proof (is_sorted_ok h' fuel [] xs' []) as Hso. rewrite app_nil_r in Hso.
  erewrite st_bind_ret; [|apply Hso; [done|rewrite Hpm; lia]].
  by rewrite bool_decide_eq_true_2 by (by apply descents_order).
Qed.
End sort.
