(* ===== verification/ListSpec.v ===== *)
(** * The contract of [lib/kernel/list.h]

    The promises list clients rely on: a command interpreter over
    [list.c] refines the same commands on Rocq lists, and the functional
    specifications of sorting, ordered insertion, reversal, duplicate removal
    and maximum. *)

From stdpp Require Import base tactics list numbers option sorting gmap.
From Stdlib Require Import ZArith Lia.
From S2P Require Import Prelude LinkedList ListOps ListSort.

(** ** Commands and their meaning on Rocq lists *)

Inductive list_cmd : Type :=
| PushFront (e : loc)
| PushBack (e : loc)
| PopFront
| PopBack
| Front
| Back
| Remove (e : loc)
| Empty
| Size
| Reverse
| Sort
| InsertOrdered (e : loc).

Inductive list_val : Type :=
| VUnit
| VElem (e : ptr)
| VBool (b : bool)
| VSize (n : Z).

(** What follows the first occurrence of [e]. *)
Fixpoint tail_after (e : loc) (xs : list loc) : list loc :=
  match xs with
  | [] => []
  | x :: xs => if bool_decide (x = e) then xs else tail_after e xs
  end.

Section commands.
Context (less : list_less_func) (l : list_hdr).

(** The code, on memory. *)
Definition run_cmd (fuel : nat) (c : list_cmd) : st heap list_val :=
  match c with
  | PushFront e => list_push_front l (Some e);; mret VUnit
  | PushBack e => list_push_back l (Some e);; mret VUnit
  | PopFront => r ← list_pop_front l; mret (VElem r)
  | PopBack => r ← list_pop_back l; mret (VElem r)
  | Front => r ← list_front l; mret (VElem r)
  | Back => r ← list_back l; mret (VElem r)
  | Remove e => r ← list_remove (Some e); mret (VElem r)
  | Empty => b ← list_empty l; mret (VBool b)
  | Size => n ← list_size fuel l; mret (VSize n)
  | Reverse => list_reverse fuel l;; mret VUnit
  | Sort => list_sort fuel l less;; mret VUnit
  | InsertOrdered e => list_insert_ordered fuel l (Some e) less;; mret VUnit
  end.

Fixpoint run_cmds (fuel : nat) (cs : list list_cmd) : st heap (list list_val) :=
  match cs with
  | [] => mret []
  | c :: cs => v ← run_cmd fuel c; vs ← run_cmds fuel cs; mret (v :: vs)
  end.

(** The result of a stable sort is unique; insertion of the elements in turn
    computes it. *)
Definition sorted_list (xs : list loc) : list loc :=
  foldl (λ acc x, insert_sorted less x acc) [] xs.

(** The contract: the value and the new contents, or [None] where the code
    stops the kernel. *)
Definition spec_cmd (c : list_cmd) (xs : list loc) : option (list_val * list loc) :=
  match c with
  | PushFront e => Some (VUnit, e :: xs)
  | PushBack e => Some (VUnit, xs ++ [e])
  | PopFront => match xs with [] => None | x :: xs => Some (VElem (Some x), xs) end
  | PopBack => match last xs with
               | None => None
               | Some x => Some (VElem (Some x), removelast xs)
               end
  | Front => match xs with [] => None | x :: _ => Some (VElem (Some x), xs) end
  | Back => match last xs with None => None | Some x => Some (VElem (Some x), xs) end
  | Remove e =>
      Some (VElem (Some (at_pos l (tail_after e xs))), filter (λ x, x ≠ e) xs)
  | Empty => Some (VBool (bool_decide (xs = [])), xs)
  | Size => Some (VSize (Z.of_nat (length xs)), xs)
  | Reverse => Some (VUnit, reverse xs)
  | Sort => Some (VUnit, sorted_list xs)
  | InsertOrdered e => Some (VUnit, insert_sorted less e xs)
  end.

Fixpoint spec_cmds (cs : list list_cmd) (xs : list loc) : option (list list_val * list loc) :=
  match cs with
  | [] => Some ([], xs)
  | c :: cs =>
      '(v, xs1) ← spec_cmd c xs; '(vs, xs2) ← spec_cmds cs xs1; Some (v :: vs, xs2)
  end.

(** What callers owe: an inserted element is a [struct list_elem] of [U] that
    is not already in the list, a removed one is in it. *)
Definition legal (U : list loc) (c : list_cmd) (xs : list loc) : Prop :=
  match c with
  | PushFront e | PushBack e | InsertOrdered e => e ∈ U ∧ e ∉ nodes l xs
  | Remove e => e ∈ xs
  | _ => True
  end.

Fixpoint legal_cmds (U : list loc) (cs : list list_cmd) (xs : list loc) : Prop :=
  match cs with
  | [] => True
  | c :: cs =>
      legal U c xs ∧
      match spec_cmd c xs with Some (_, xs') => legal_cmds U cs xs' | None => True end
  end.

(** ** The unique stable sort *)

Context `{!StrictWeak less}.

Lemma insert_sorted_stable x xs k :
  in_order less xs →
  filter (same_key less k) (insert_sorted less x xs) =
    filter (same_key less k) xs ++ filter (same_key less k) [x].
Proof.
  intros Ho. destruct (insert_sorted_order less x xs Ho) as (ys & zs & -> & -> & _ & Hz & _).
  rewrite cons_middle, !filter_app, <-app_assoc. f_equal.
  destruct (decide (same_key less k x)) as [Hk|Hk].
  - rewrite (filter_none _ zs), app_nil_r; [done|]. intros z Hz' Hkz.
    apply Is_true_true, andb_true_iff in Hk as [Hk1%negb_true_iff Hk2%negb_true_iff].
    apply Is_true_true, andb_true_iff in Hkz as [Hz1%negb_true_iff Hz2%negb_true_iff].
    rewrite Forall_forall in Hz. specialize (Hz z Hz').
    by rewrite (less_negtrans x k z Hk2 Hz1) in Hz.
  - by rewrite (filter_cons_False _ x), filter_nil, app_nil_r by done.
Qed.

Lemma sorted_list_spec xs :
  in_order less (sorted_list xs) ∧ sorted_list xs ≡ₚ xs ∧ stable less (sorted_list xs) xs.
Proof.
  unfold sorted_list. induction xs as [|x xs (Ho & Hp & Hs)] using rev_ind.
  { split_and!; [constructor|done|done]. }
  rewrite foldl_snoc. split_and!.
  - by destruct (insert_sorted_order less x _ Ho) as (? & ? & ? & ? & ? & ? & ?).
  - rewrite insert_sorted_perm, Hp. apply Permutation_cons_append.
  - intros k. rewrite insert_sorted_stable, filter_app, (Hs k); done.
Qed.

(** Two ordered lists in which every key class reads the same are equal. *)
Lemma stable_order_unique xs ys :
  in_order less xs → in_order less ys → stable less xs ys → xs = ys.
Proof.
  assert (∀ z, same_key less z z) as Hself.
  { intros z. unfold same_key. by rewrite !less_irrefl. }
  revert ys. induction xs as [|x xs IH]; intros [|y ys] Hx Hy Hs.
  - done.
  - specialize (Hs y). rewrite filter_nil, filter_cons_True in Hs; done.
  - specialize (Hs x). rewrite filter_nil, filter_cons_True in Hs; done.
  - apply StronglySorted_inv in Hx as [Hox Hx]. apply StronglySorted_inv in Hy as [Hoy Hy].
    assert (x ∈ y :: ys) as Hxin.
    { specialize (Hs x). rewrite filter_cons_True in Hs by done.
      assert (x ∈ filter (same_key less x) (y :: ys)) as E by (rewrite <-Hs; by left).
      by apply list_elem_of_filter in E as [_ ?]. }
    assert (y ∈ x :: xs) as Hyin.
    { specialize (Hs y). rewrite (filter_cons_True _ y) in Hs by done.
      assert (y ∈ filter (same_key less y) (x :: xs)) as E by (rewrite Hs; by left).
      by apply list_elem_of_filter in E as [_ ?]. }
    assert (same_key less x y) as Hk.
    { rewrite Forall_forall in Hx, Hy. apply Is_true_true, andb_true_iff.
      apply elem_of_cons in Hxin as [->|Hxin%Hy]; [by rewrite less_irrefl|].
      apply elem_of_cons in Hyin as [->|Hyin%Hx]; [by rewrite less_irrefl|].
      by rewrite Hxin, Hyin. }
    pose proof (Hs x) as E. rewrite !filter_cons_True in E by done. injection E as -> _.
    f_equal. apply IH; [done..|]. intros k. specialize (Hs k). rewrite !filter_cons in Hs.
    case_decide; [by injection Hs|done].
Qed.

Lemma list_sort_sorted fuel xs h :
  is_list h l xs → (length xs + 1 < fuel)%nat → Z.of_nat (length xs) < 2 ^ 32 →
  ∃ h', list_sort fuel l less h = Ret (tt, h') ∧
    is_list h' l (sorted_list xs) ∧ same_except (nodes l xs) h h'.
Proof.
  intros Hl Hf Hlen. destruct (list_sort_ok less l fuel xs h) as (h' & xs' & Hr & Hl' & Hp & Hst & Ho & Hs);
    [done..|]. exists h'. destruct (sorted_list_spec xs) as (Ho' & _ & Hst').
  rewrite (stable_order_unique (sorted_list xs) xs'); [done..|]. intros k. by rewrite (Hst k), (Hst' k).
Qed.

(** ** Refinement *)

(** What one command must do for its specification. *)
Definition refines (U : list loc) (m : st heap list_val) (o : option (list_val * list loc))
    (h : heap) : Prop :=
  match o with
  | Some (v, xs') =>
      ∃ h', m h = Ret (v, h') ∧ is_list h' l xs' ∧ ∀ e, e ∈ U → allocated h' e
  | None => m h = Panic
  end.

Lemma allocated_frame (U D : list loc) h h' xs' :
  (∀ e, e ∈ U → allocated h e) → same_except D h h' → is_list h' l xs' →
  (∀ x, x ∈ D → x ∈ nodes l xs') → ∀ e, e ∈ U → allocated h' e.
Proof.
  intros Ha Hs Hl Hd e He. destruct (decide (e ∈ D)) as [Hin|Hin].
  - by eapply is_list_allocated, Hd.
  - unfold allocated. destruct (Hs e Hin) as [-> ->]. by apply Ha.
Qed.

(** Commands that only read. *)
Lemma refines_read {A} U (m : st heap A) (f : A → list_val) a h xs :
  is_list h l xs → (∀ e, e ∈ U → allocated h e) → m h = Ret (a, h) →
  refines U (r ← m; mret (f r)) (Some (f a, xs)) h.
Proof. intros Hl Ha Hm. exists h. by st_step Hm. Qed.

(** Commands that store to a set of elements of the new list. *)
Lemma refines_write {A} (U : list loc) (m : st heap A) (f : A → list_val) a (D : list loc) h h' xs' :
  (∀ e, e ∈ U → allocated h e) → m h = Ret (a, h') → is_list h' l xs' →
  same_except D h h' → (∀ x, x ∈ D → x ∈ nodes l xs') →
  refines U (r ← m; mret (f r)) (Some (f a, xs')) h.
Proof.
  intros Ha Hm Hl Hs Hd. exists h'. st_step Hm. split_and!; [done..|].
  by eapply allocated_frame.
Qed.

Lemma tail_after_split e xs ys : e ∉ xs → tail_after e (xs ++ e :: ys) = ys.
Proof.
  induction xs as [|x xs IH]; cbn; intros He; [by rewrite bool_decide_eq_true_2|].
  apply not_elem_of_cons in He as [? ?]. rewrite bool_decide_eq_false_2 by done. by apply IH.
Qed.

Lemma filter_split (e : loc) xs ys :
  e ∉ xs → e ∉ ys → filter (λ x, x ≠ e) (xs ++ e :: ys) = xs ++ ys.
Proof.
  intros Hx Hy. rewrite filter_app, filter_cons_False by auto.
  by rewrite !filter_ne.
Qed.

Lemma run_cmd_refines U fuel c xs h :
  is_list h l xs → (∀ e, e ∈ U → allocated h e) → legal U c xs →
  (length xs + 1 < fuel)%nat → Z.of_nat (length xs) < 2 ^ 32 →
  refines U (run_cmd fuel c) (spec_cmd c xs) h.
Proof.
  intros Hl Ha Hlg Hf Hlen. destruct c as [e|e| | | | |e| | | | |e]; cbn [run_cmd spec_cmd legal] in *.
  - destruct Hlg as [HU He]. destruct (list_push_front_ok h l xs e) as (h' & Hr & Hl' & Hs); [auto..|].
    eapply (refines_write U _ (λ _, VUnit)); [done..|]. intros x. by rewrite (nodes_cons_perm l [] e xs).
  - destruct Hlg as [HU He]. destruct (list_push_back_ok h l xs e) as (h' & Hr & Hl' & Hs); [auto..|].
    eapply (refines_write U _ (λ _, VUnit)); [done..|]. intros x.
    by rewrite (nodes_cons_perm l xs e []), app_nil_r.
  - destruct xs as [|x xs].
    { by apply st_bind_panic, st_bind_panic, list_front_empty. }
    destruct (list_pop_front_ok h l x xs Hl) as (h' & Hr & Hl' & Hs).
    by eapply (refines_write U _ VElem).
  - destruct (list_snoc_inv xs) as [->|(ys & x & ->)].
    { by apply st_bind_panic, st_bind_panic, list_back_empty. }
    rewrite last_snoc, removelast_last.
    destruct (list_pop_back_ok h l ys x Hl) as (h' & Hr & Hl' & Hs).
    by eapply (refines_write U _ VElem).
  - destruct xs as [|x xs].
    { by apply st_bind_panic, list_front_empty. }
    eapply (refines_read U _ VElem); eauto using list_front_ok.
  - destruct (list_snoc_inv xs) as [->|(ys & x & ->)].
    { by apply st_bind_panic, list_back_empty. }
    rewrite last_snoc. eapply (refines_read U _ VElem); eauto using list_back_ok.
  - apply list_elem_of_split in Hlg as (ys & zs & ->).
    destruct (list_remove_ok _ _ _ _ _ Hl) as (h' & Hr & Hl' & Hs).
    pose proof (il_nodup _ _ _ Hl) as Hnd. rewrite nodes_cons_perm in Hnd.
    apply NoDup_cons in Hnd as [Hnd _]. rewrite elem_of_nodes, elem_of_app in Hnd.
    rewrite tail_after_split, filter_split by tauto.
    eapply (refines_write U _ VElem); [done..|]. intros x.
    rewrite !elem_of_cons, elem_of_nil. intros [->|[->|[]]]; [apply before_pos_nodes|apply at_pos_nodes].
  - eapply (refines_read U _ VBool); eauto using list_empty_ok.
  - eapply (refines_read U _ VSize); [done..|]. rewrite (list_size_ok h l fuel xs) by (done || lia).
    by rewrite u32_id by lia.
  - destruct (list_reverse_ok h l fuel xs) as (h' & Hr & Hl' & Hs); [done|lia|].
    eapply (refines_write U _ (λ _, VUnit)); [done..|]. intros x. by rewrite reverse_Permutation.
  - destruct (list_sort_sorted fuel xs h) as (h' & Hr & Hl' & Hs); [done..|].
    eapply (refines_write U _ (λ _, VUnit)); [done..|]. intros x.
    destruct (sorted_list_spec xs) as (_ & E & _). by rewrite E.
  - destruct Hlg as [HU He].
    destruct (list_insert_ordered_ok h l fuel less xs e) as (h' & Hr & Hl' & Hs); [auto..|lia|].
    eapply (refines_write U _ (λ _, VUnit)); [done..|]. intros x.
    by rewrite insert_sorted_perm, (nodes_cons_perm l [] e xs).
Qed.

Lemma spec_cmd_length c xs v xs' :
  spec_cmd c xs = Some (v, xs') → (length xs' ≤ S (length xs))%nat.
Proof.
  destruct c; cbn; intros; simplify_option_eq; rewrite ?length_app, ?length_reverse; cbn; try lia.
  - destruct xs; simplify_eq/=; lia.
  - destruct (list_snoc_inv xs) as [->|(ys & x & ->)]; [done|]. rewrite last_snoc, removelast_last in *.
    simplify_eq. rewrite length_app. cbn. lia.
  - destruct xs; simplify_eq/=; lia.
  - destruct (last xs); simplify_eq; lia.
  - pose proof (length_filter (λ x, x ≠ e) xs). lia.
  - destruct (sorted_list_spec xs) as (_ & E & _). rewrite E. lia.
  - rewrite insert_sorted_perm. done.
Qed.
End commands.

(** ** Concrete memories

    The representation predicate is decidable, so that it can be evaluated on
    memory built by the code itself. *)

#[export] Instance linked_dec h x y : Decision (linked h x y).
Proof. unfold linked. apply _. Defined.

#[export] Instance chain_dec h xs : Decision (chain h xs).
Proof.
  induction xs as [|x xs IH]; [left; exact I|].
  destruct xs as [|y xs]; [left; exact I|]. cbn. apply _.
Defined.

#[export] Instance is_list_dec h l xs : Decision (is_list h l xs).
Proof.
  refine (cast_if (decide (NoDup (nodes l xs) ∧ chain h (nodes l xs) ∧
            prev h !! head l = Some None ∧ next h !! tail l = Some None))).
  - abstract (destruct a as (? & ? & ? & ?); by split).
  - abstract (intros []; tauto).
Defined.

#[export] Instance allocated_dec h x : Decision (allocated h x).
Proof. unfold allocated. apply _. Defined.

(** A comparison of keys is a strict weak order. *)
Definition less_by (key : loc → Z) : list_less_func := λ a b, key a <? key b.

#[export] Instance less_by_weak key : StrictWeak (less_by key).
Proof. split; unfold less_by; lia. Qed.

(** Uninitialised list elements, and a list built in them. *)
Definition blank (U : list loc) : heap :=
  Heap (list_to_map ((λ x, (x, None)) <$> U)) (list_to_map ((λ x, (x, None)) <$> U)).

Definition memory_of (U : list loc) (l : list_hdr) (xs : list loc) : heap :=
  match (list_init l;; run_cmds (less_by Zpos) l 0 (PushBack <$> xs)) (blank U) with
  | Ret (_, h) => h
  | _ => blank U
  end.

Definition ex_hdr : list_hdr := ListHdr 1 2.
Definition ex_elems : list loc := [1; 2; 3; 4; 5; 6; 7; 8; 9; 10]%positive.
Definition ex_heap : heap := memory_of ex_elems ex_hdr [7; 4; 9; 5; 3; 8]%positive.
Definition ex_less : list_less_func := less_by (λ x, Zpos x / 2).

(** ** The properties *)

(** C18: any legal sequence of list operations, run on the pointers of
    [list.c], returns the values and leaves the contents that the same
    operations have on Rocq lists, and stops the kernel exactly where the
    contract has no value: [list_pop_front], [list_pop_back], [list_front] and
    [list_back] of an empty list. *)
Theorem list_refines_contract less l U cs xs h fuel :
  StrictWeak less → is_list h l xs → (∀ e, e ∈ U → allocated h e) →
  legal_cmds less l U cs xs →
  (length xs + length cs + 1 < fuel)%nat → Z.of_nat (length xs + length cs) < 2 ^ 32 →
  match spec_cmds less l cs xs with
  | Some (vs, xs') => ∃ h', run_cmds less l fuel cs h = Ret (vs, h') ∧ is_list h' l xs'
  | None => run_cmds less l fuel cs h = Panic
  end.
Proof.
  intros Hw. revert xs h. induction cs as [|c cs IH]; intros xs h Hl Ha Hlg Hf Hlen; [by exists h|].
  cbn [spec_cmds run_cmds legal_cmds length] in *. destruct Hlg as [Hc Hlg].
  pose proof (run_cmd_refines less l U fuel c xs h Hl Ha Hc) as Hr. unfold refines in Hr.
  pose proof (spec_cmd_length less l c xs) as Hlen'.
  destruct (spec_cmd less l c xs) as [[v xs1]|]; cbn [mbind option_bind].
  - destruct Hr as (h1 & Hr & Hl1 & Ha1); [lia..|]. specialize (Hlen' _ _ eq_refl). st_step Hr.
    specialize (IH xs1 h1 Hl1 Ha1 Hlg). destruct (spec_cmds less l cs xs1) as [[vs xs2]|]; cbn.
    + destruct IH as (h2 & Hr2 & Hl2); [lia..|]. exists h2. by st_step Hr2.
    + apply st_bind_panic. apply IH; lia.
  - apply st_bind_panic. apply Hr; lia.
Qed.

Lemma list_refines_contract_witness :
  ∃ h', run_cmds ex_less ex_hdr 20
    [PopFront; Sort; InsertOrdered 6; Reverse; Remove 8; PushFront 10; Size; PopBack] ex_heap
    = Ret ([VElem (Some 7%positive); VUnit; VUnit; VUnit; VElem (Some 9%positive); VUnit;
            VSize 6; VElem (Some 3%positive)], h') ∧
    is_list h' ex_hdr [10; 9; 6; 5; 4]%positive.
Proof.
  apply (list_refines_contract ex_less ex_hdr ex_elems
    [PopFront; Sort; InsertOrdered 6; Reverse; Remove 8; PushFront 10; Size; PopBack]
    [7; 4; 9; 5; 3; 8]%positive ex_heap 20).
  - apply _.
  - apply (bool_decide_unpack _). vm_compute. exact I.
  - apply Forall_forall. apply (bool_decide_unpack _). vm_compute. exact I.
  - cbn. repeat split; apply (bool_decide_unpack _); vm_compute; exact I.
  - cbn. lia.
  - cbn. lia.
Defined.

(** C19: [list_sort] terminates, keeps every element, orders the list by LESS,
    keeps the order of elements that LESS does not separate, passes its final
    assertion, and writes to no other list. *)
Theorem list_sort_correct less l xs h fuel :
  StrictWeak less → is_list h l xs →
  (length xs + 1 < fuel)%nat → Z.of_nat (length xs) < 2 ^ 32 →
  ∃ h' xs', list_sort fuel l less h = Ret (tt, h') ∧ is_list h' l xs' ∧
    xs' ≡ₚ xs ∧ StronglySorted (λ a b, less b a = false) xs' ∧
    (∀ k, filter (same_key less k) xs' = filter (same_key less k) xs) ∧
    same_except (nodes l xs) h h'.
Proof.
  intros Hw Hl Hf Hlen.
  destruct (list_sort_ok less l fuel xs h Hl Hf Hlen) as (h' & xs' & ? & ? & ? & ? & ? & ?).
  by exists h', xs'.
Qed.

Lemma list_sort_correct_witness :
  ∃ h' xs', list_sort 8 ex_hdr ex_less ex_heap = Ret (tt, h') ∧ is_list h' ex_hdr xs' ∧
    xs' ≡ₚ [7; 4; 9; 5; 3; 8]%positive ∧ StronglySorted (λ a b, ex_less b a = false) xs' ∧
    (∀ k, filter (same_key ex_less k) xs' = filter (same_key ex_less k) [7; 4; 9; 5; 3; 8]%positive) ∧
    same_except (nodes ex_hdr [7; 4; 9; 5; 3; 8]%positive) ex_heap h'.
Proof.
  apply (list_sort_correct ex_less ex_hdr [7; 4; 9; 5; 3; 8]%positive ex_heap 8).
  - apply _.
  - apply (bool_decide_unpack _). vm_compute. exact I.
  - cbn. lia.
  - cbn. lia.
Defined.

(** [list_insert_ordered] into an ordered list keeps it ordered: the new
    element comes after every element it is not less than, so that elements
    of equal keys stay in arrival order, and before every element it is less
    than. *)
Theorem list_insert_ordered_correct less l xs h fuel e :
  StrictWeak less → is_list h l xs → allocated h e → e ∉ nodes l xs →
  StronglySorted (λ a b, less b a = false) xs → (length xs < fuel)%nat →
  ∃ h' ys zs, list_insert_ordered fuel l (Some e) less h = Ret (tt, h') ∧
    xs = ys ++ zs ∧ is_list h' l (ys ++ e :: zs) ∧
    Forall (λ y, less e y = false) ys ∧ Forall (λ z, less e z = true) zs ∧
    StronglySorted (λ a b, less b a = false) (ys ++ e :: zs) ∧
    same_except (e :: nodes l xs) h h'.
Proof.
  intros Hw Hl Ha He Ho Hf.
  destruct (list_insert_ordered_ok h l fuel less xs e) as (h' & Hr & Hl' & Hs); [done..|].
  destruct (insert_sorted_order less e xs Ho) as (ys & zs & Exs & E & Hy & Hz & Ho').
  rewrite E in *. by exists h', ys, zs.
Qed.

Lemma list_insert_ordered_correct_witness :
  ∃ h' ys zs, list_insert_ordered 4 ex_hdr (Some 6%positive) ex_less
      (memory_of ex_elems ex_hdr [4; 7; 9]%positive) = Ret (tt, h') ∧
    [4; 7; 9]%positive = ys ++ zs ∧ is_list h' ex_hdr (ys ++ 6%positive :: zs) ∧
    Forall (λ y, ex_less 6%positive y = false) ys ∧ Forall (λ z, ex_less 6%positive z = true) zs ∧
    StronglySorted (λ a b, ex_less b a = false) (ys ++ 6%positive :: zs) ∧
    same_except (6%positive :: nodes ex_hdr [4; 7; 9]%positive)
      (memory_of ex_elems ex_hdr [4; 7; 9]%positive) h'.
Proof.
  apply (list_insert_ordered_correct ex_less ex_hdr [4; 7; 9]%positive).
  - apply _.
  - apply (bool_decide_unpack _). vm_compute. exact I.
  - apply (bool_decide_unpack _). vm_compute. exact I.
  - apply (bool_decide_unpack _). vm_compute. exact I.
  - repeat constructor.
  - cbn. lia.
Defined.

(** [list_unique] on an ordered list leaves strictly increasing keys,
    moves every other element to the end of DUPLICATES, and loses none. *)
Theorem list_unique_correct less l d xs ds h fuel :
  StrictWeak less → is_list h l xs → is_list h d ds →
  (∀ x, x ∈ nodes l xs → x ∈ nodes d ds → False) →
  StronglySorted (λ a b, less b a = false) xs → (length xs < fuel)%nat →
  ∃ h' ks rs, list_unique fuel l (Some d) less h = Ret (tt, h') ∧
    is_list h' l ks ∧ is_list h' d (ds ++ rs) ∧ ks ++ rs ≡ₚ xs ∧
    StronglySorted (λ a b, less a b = true) ks.
Proof.
  intros Hw Hl Hd Hdj Ho Hf.
  destruct (list_unique_ok fuel l (Some d) less xs ds h) as (h' & Hr & Hres); [done..|].
  destruct xs as [|x ys].
  - exists h', [], []. rewrite app_nil_r. destruct Hres. split_and!; [done..|constructor].
  - destruct Hres as [Hl' Hd']. eexists h', _, _. split_and!; [done..| |].
    + cbn. by rewrite unique_from_perm.
    + by apply unique_from_distinct.
Qed.

Lemma list_unique_correct_witness :
  let h := match (list_init (ListHdr 9 10)) (memory_of ex_elems ex_hdr [3; 4; 5; 6; 7]%positive) with
           | Ret (_, h) => h | _ => ex_heap end in
  ∃ h' ks rs, list_unique 6 ex_hdr (Some (ListHdr 9 10)) ex_less h = Ret (tt, h') ∧
    is_list h' ex_hdr ks ∧ is_list h' (ListHdr 9 10) ([] ++ rs) ∧
    ks ++ rs ≡ₚ [3; 4; 5; 6; 7]%positive ∧ StronglySorted (λ a b, ex_less a b = true) ks.
Proof.
  apply (list_unique_correct ex_less ex_hdr (ListHdr 9 10) [3; 4; 5; 6; 7]%positive []).
  - apply _.
  - apply (bool_decide_unpack _). vm_compute. exact I.
  - apply (bool_decide_unpack _). vm_compute. exact I.
  - intros x Hx Hx'. revert Hx. apply (Forall_forall (λ x, x ∉ _) (nodes (ListHdr 9 10) [])); [|done].
    apply (bool_decide_unpack _). vm_compute. exact I.
  - repeat constructor.
  - cbn. lia.
Defined.

(** [list_max] and [list_min] return the earliest element that is not less
    (greater) than any other, and the tail of an empty list. *)
Theorem list_max_min_correct less l xs h fuel :
  StrictWeak less → is_list h l xs → (length xs < fuel)%nat →
  match xs with
  | [] => list_max fuel l less h = Ret (Some (tail l), h) ∧
          list_min fuel l less h = Ret (Some (tail l), h)
  | _ => ∃ ys m zs ys' n zs',
      list_max fuel l less h = Ret (Some m, h) ∧ xs = ys ++ m :: zs ∧
      Forall (λ y, less y m = true) ys ∧ Forall (λ x, less m x = false) xs ∧
      list_min fuel l less h = Ret (Some n, h) ∧ xs = ys' ++ n :: zs' ∧
      Forall (λ y, less n y = true) ys' ∧ Forall (λ x, less x n = false) xs
  end.
Proof.
  intros Hw Hl Hf. rewrite list_min_flip. destruct xs as [|x xs].
  - by rewrite !list_max_empty by done.
  - cbn in Hf. destruct (max_of_spec less x xs) as (ys & zs & E & Hy & Hall).
    destruct (max_of_spec (flip less) x xs) as (ys' & zs' & E' & Hy' & Hall').
    exists ys, (max_of less x xs), zs, ys', (max_of (flip less) x xs), zs'.
    rewrite !(list_max_ok h l fuel _ x xs) by (done || lia). done.
Qed.

Lemma list_max_min_correct_witness :
  ∃ ys m zs ys' n zs',
    list_max 9 ex_hdr ex_less ex_heap = Ret (Some m, ex_heap) ∧
    [7; 4; 9; 5; 3; 8]%positive = ys ++ m :: zs ∧
    Forall (λ y, ex_less y m = true) ys ∧
    Forall (λ x, ex_less m x = false) [7; 4; 9; 5; 3; 8]%positive ∧
    list_min 9 ex_hdr ex_less ex_heap = Ret (Some n, ex_heap) ∧
    [7; 4; 9; 5; 3; 8]%positive = ys' ++ n :: zs' ∧
    Forall (λ y, ex_less n y = true) ys' ∧
    Forall (λ x, ex_less x n = false) [7; 4; 9; 5; 3; 8]%positive.
Proof.
  apply (list_max_min_correct ex_less ex_hdr [7; 4; 9; 5; 3; 8]%positive ex_heap 9).
  - apply _.
  - apply (bool_decide_unpack _). vm_compute. exact I.
  - cbn. lia.
Defined.
