(* ===== verification/FixedPoint.v ===== *)
(** * Fixed-point arithmetic: [threads/fixed-point.h]

    A value of type [fp] is a 32-bit integer that counts units of [1 / F_CONV].
    The operations are the inline functions of the header, with the wrap-around
    of [int32_t] and the 64-bit intermediate products written out.  The lemmas
    bound the rounding error of each one where no result overflows. *)

From stdpp Require Import base tactics numbers.
From Stdlib Require Import ZArith Lia.
From S2P Require Import Prelude.

Local Open Scope pintos_scope.
Local Open Scope Z_scope.

Definition F_CONV : Z := 2 ^ 14.

Definition conv_itofp (n : Z) : Z := s32 (n * F_CONV).

Definition rnconv_fptoi (x : Z) : Z :=
  if 0 <=? x then s32 (x + F_CONV /c 2) /c F_CONV else s32 (x - F_CONV /c 2) /c F_CONV.

Definition rzconv_fptoi (x : Z) : Z := x /c F_CONV.

Definition add_fpfp (x y : Z) : Z := s32 (x + y).
Definition add_fpn (x n : Z) : Z := add_fpfp x (conv_itofp n).
Definition sub_fpfp (x y : Z) : Z := s32 (x - y).
Definition sub_fpn (x n : Z) : Z := sub_fpfp x (conv_itofp n).
Definition mult_fpfp (x y : Z) : Z := s32 (s64 (x * y) /c F_CONV).
Definition mult_fpn (x n : Z) : Z := mult_fpfp x (conv_itofp n).
Definition div_fpfp (x y : Z) : Z := s32 (s64 (x * F_CONV) /c y).
Definition div_fpn (x n : Z) : Z := div_fpfp x (conv_itofp n).

(** The range of [int32_t]. *)
Definition int32 (x : Z) : Prop := - 2 ^ 31 ≤ x < 2 ^ 31.

Lemma conv_itofp_exact n : - 2 ^ 17 ≤ n < 2 ^ 17 → conv_itofp n = n * F_CONV.
Proof. intros. unfold conv_itofp, F_CONV. rewrite s32_id; lia. Qed.

Lemma quot_bounds a b :
  0 < b → Z.abs (a - b * (a /c b)) < b ∧ Z.abs (b * (a /c b)) ≤ Z.abs a ∧
          (0 ≤ a → 0 ≤ a /c b) ∧ (a ≤ 0 → a /c b ≤ 0).
Proof.
  intros Hb. pose proof (Z.quot_rem' a b). pose proof (Z.rem_bound_abs a b).
  split_and!; [lia| | |]; intros.
  - destruct (Z.le_gt_cases 0 a).
    + pose proof (Z.rem_nonneg a b). pose proof (Z.quot_pos a b). lia.
    + pose proof (Z.rem_nonpos a b). pose proof (Z.quot_opp_l a b).
      pose proof (Z.quot_pos (- a) b). lia.
  - apply Z.quot_pos; lia.
  - pose proof (Z.quot_opp_l a b). pose proof (Z.quot_pos (- a) b). lia.
Qed.

Lemma mult_fpfp_exact x y :
  int32 x → int32 y → Z.abs (x * y) < 2 ^ 45 → mult_fpfp x y = x * y /c F_CONV.
Proof.
  unfold int32. intros Hx Hy Hxy. unfold mult_fpfp.
  rewrite (s64_id (x * y)) by lia. apply s32_id.
  pose proof (quot_bounds (x * y) F_CONV). unfold F_CONV in *. lia.
Qed.

Lemma div_fpfp_exact x y :
  int32 x → 0 < y → Z.abs x < 2 ^ 17 * y → div_fpfp x y = x * F_CONV /c y.
Proof.
  unfold int32. intros Hx Hy Hxy. unfold div_fpfp.
  rewrite (s64_id (x * F_CONV)) by (unfold F_CONV; lia). apply s32_id.
  pose proof (quot_bounds (x * F_CONV) y). unfold F_CONV in *. nia.
Qed.

Lemma rnconv_nearest x :
  - 2 ^ 31 + 2 ^ 13 ≤ x < 2 ^ 31 - 2 ^ 13 →
  Z.abs (rnconv_fptoi x * F_CONV - x) ≤ F_CONV / 2.
Proof.
  intros Hx. unfold rnconv_fptoi. change (F_CONV /c 2) with 8192.
  change (F_CONV / 2) with 8192. change F_CONV with 16384.
  destruct (Z.leb_spec 0 x); rewrite s32_id by lia.
  - pose proof (Z.quot_rem' (x + 8192) 16384).
    pose proof (Z.rem_bound_pos (x + 8192) 16384). lia.
  - pose proof (Z.quot_rem' (x - 8192) 16384).
    pose proof (Z.rem_bound_pos_neg (x - 8192) 16384). lia.
Qed.

(** Conversion to fixed point and back, by either rounding, gives the
    integer again wherever it is representable; rounding to nearest is never
    off by more than half a unit, and rounding toward zero by less than one. *)
Theorem fp_conversions n x :
  - 2 ^ 17 < n < 2 ^ 17 → - 2 ^ 31 + 2 ^ 13 ≤ x < 2 ^ 31 - 2 ^ 13 →
  rzconv_fptoi (conv_itofp n) = n ∧ rnconv_fptoi (conv_itofp n) = n ∧
  Z.abs (rnconv_fptoi x * F_CONV - x) ≤ F_CONV / 2 ∧
  Z.abs (rzconv_fptoi x * F_CONV - x) < F_CONV ∧ Z.abs (rzconv_fptoi x * F_CONV) ≤ Z.abs x.
Proof.
  intros Hn Hx. rewrite conv_itofp_exact by lia. split_and!.
  - by apply Z.quot_mul.
  - assert (Z.abs (rnconv_fptoi (n * F_CONV) * F_CONV - n * F_CONV) ≤ F_CONV / 2) as H
      by (apply rnconv_nearest; unfold F_CONV; lia).
    set (r := rnconv_fptoi _) in *. change (F_CONV / 2) with 8192 in H.
    change F_CONV with 16384 in H. lia.
  - by apply rnconv_nearest.
  - pose proof (quot_bounds x F_CONV). unfold rzconv_fptoi. change F_CONV with 16384 in *. lia.
  - pose proof (quot_bounds x F_CONV). unfold rzconv_fptoi. change F_CONV with 16384 in *. lia.
Qed.

Lemma fp_conversions_witness :
  rzconv_fptoi (conv_itofp (-42)) = -42 ∧ rnconv_fptoi (conv_itofp (-42)) = -42 ∧
  Z.abs (rnconv_fptoi 24577 * F_CONV - 24577) ≤ F_CONV / 2 ∧
  Z.abs (rzconv_fptoi 24577 * F_CONV - 24577) < F_CONV ∧
  Z.abs (rzconv_fptoi 24577 * F_CONV) ≤ Z.abs 24577.
Proof. apply (fp_conversions (-42) 24577); lia. Defined.

(** Products and quotients differ from the exact ones by less than one
    unit in the last place, as long as the exact result is in range. *)
Theorem fp_mult_div_accurate x y :
  int32 x → int32 y → 0 < y → Z.abs (x * y) < 2 ^ 45 → Z.abs x < 2 ^ 17 * y →
  Z.abs (mult_fpfp x y * F_CONV - x * y) < F_CONV ∧
  Z.abs (div_fpfp x y * y - x * F_CONV) < y.
Proof.
  intros Hx Hy H0 Hm Hd. rewrite mult_fpfp_exact, div_fpfp_exact by done.
  pose proof (quot_bounds (x * y) F_CONV). pose proof (quot_bounds (x * F_CONV) y).
  change F_CONV with 16384 in *. lia.
Qed.

Lemma fp_mult_div_accurate_witness :
  Z.abs (mult_fpfp (-30000) 50000 * F_CONV - -30000 * 50000) < F_CONV ∧
  Z.abs (div_fpfp (-30000) 50000 * 50000 - -30000 * F_CONV) < 50000.
Proof. apply (fp_mult_div_accurate (-30000) 50000); unfold int32; lia. Defined.
