(* ===== verification/Bitmap.v ===== *)
(** * Bitmaps: [lib/kernel/bitmap.c]

    A bitmap is an array of 32-bit elements; bit [i] is bit [i mod 32] of
    element [i / 32].  The operations are translated with the masks and shifts
    of the source and the wrap-around of [size_t]; reading or writing past the
    array stops the kernel.  [bit b i] is the abstract bit, and the lemmas say
    what every operation does to all bits. *)

From stdpp Require Import base tactics list numbers option.
From Stdlib Require Import ZArith Lia.
From S2P Require Import Prelude.

(** ** The data structure *)

Record bitmap : Type := Bitmap {
  bit_cnt : Z;
  bits : list Z
}.

Definition ELEM_BITS : Z := 32.
Definition BITMAP_ERROR : Z := SIZE_MAX.

Definition elem_idx (bit_idx : Z) : Z := bit_idx / ELEM_BITS.
Definition bit_mask (bit_idx : Z) : Z := u32 (Z.shiftl 1 (bit_idx mod ELEM_BITS)).
Definition elem_cnt (bit_cnt : Z) : Z := u32 (bit_cnt + ELEM_BITS - 1) / ELEM_BITS.
Definition byte_cnt (bit_cnt : Z) : Z := u32 (4 * elem_cnt bit_cnt).

Definition last_mask (b : bitmap) : Z :=
  let last_bits := bit_cnt b mod ELEM_BITS in
  if last_bits =? 0 then u32 (-1) else u32 (u32 (Z.shiftl 1 last_bits) - 1).

(** ** Single bits *)

(** [b->bits[idx]] and its update by an instruction with a memory operand. *)
Definition read_elem (b : bitmap) (idx : Z) : outcome Z :=
  match bits b !! Z.to_nat idx with Some e => Ret e | None => Panic end.

Definition update_elem (b : bitmap) (idx : Z) (f : Z → Z) : outcome bitmap :=
  e ← read_elem b idx;
  mret (Bitmap (bit_cnt b) (<[Z.to_nat idx := f e]> (bits b))).

Definition bitmap_mark (b : bitmap) (bit_idx : Z) : outcome bitmap :=
  update_elem b (elem_idx bit_idx) (λ e, Z.lor e (bit_mask bit_idx)).

Definition bitmap_reset (b : bitmap) (bit_idx : Z) : outcome bitmap :=
  update_elem b (elem_idx bit_idx) (λ e, Z.land e (u32 (Z.lnot (bit_mask bit_idx)))).

Definition bitmap_flip (b : bitmap) (bit_idx : Z) : outcome bitmap :=
  update_elem b (elem_idx bit_idx) (λ e, Z.lxor e (bit_mask bit_idx)).

Definition bitmap_set (b : bitmap) (idx : Z) (value : bool) : outcome bitmap :=
  ASSERT (idx <? bit_cnt b);;
  if value then bitmap_mark b idx else bitmap_reset b idx.

Definition bitmap_test (b : bitmap) (idx : Z) : outcome bool :=
  ASSERT (idx <? bit_cnt b);;
  e ← read_elem b (elem_idx idx);
  mret (negb (Z.land e (bit_mask idx) =? 0)).

Definition bitmap_size (b : bitmap) : Z := bit_cnt b.

(** ** Groups of bits *)

(** [for (i = 0; i < cnt; i++) bitmap_set (b, start + i, value)], from
    iteration [i] on, with [n] iterations left. *)
Fixpoint set_multiple_loop (n : nat) (b : bitmap) (start i : Z) (value : bool) : outcome bitmap :=
  match n with
  | O => mret b
  | S n => b ← bitmap_set b (u32 (start + i)) value; set_multiple_loop n b start (i + 1) value
  end.

Definition bitmap_set_multiple (b : bitmap) (start cnt : Z) (value : bool) : outcome bitmap :=
  ASSERT (start <=? bit_cnt b);;
  ASSERT (u32 (start + cnt) <=? bit_cnt b);;
  set_multiple_loop (Z.to_nat cnt) b start 0 value.

Definition bitmap_set_all (b : bitmap) (value : bool) : outcome bitmap :=
  bitmap_set_multiple b 0 (bitmap_size b) value.

Fixpoint count_loop (n : nat) (b : bitmap) (start i : Z) (value : bool) (value_cnt : Z) : outcome Z :=
  match n with
  | O => mret value_cnt
  | S n =>
      t ← bitmap_test b (u32 (start + i));
      count_loop n b start (i + 1) value (if Bool.eqb t value then value_cnt + 1 else value_cnt)
  end.

Definition bitmap_count (b : bitmap) (start cnt : Z) (value : bool) : outcome Z :=
  ASSERT (start <=? bit_cnt b);;
  ASSERT (u32 (start + cnt) <=? bit_cnt b);;
  count_loop (Z.to_nat cnt) b start 0 value 0.

Fixpoint contains_loop (n : nat) (b : bitmap) (start i : Z) (value : bool) : outcome bool :=
  match n with
  | O => mret false
  | S n =>
      t ← bitmap_test b (u32 (start + i));
      if Bool.eqb t value then mret true else contains_loop n b start (i + 1) value
  end.

Definition bitmap_contains (b : bitmap) (start cnt : Z) (value : bool) : outcome bool :=
  ASSERT (start <=? bit_cnt b);;
  ASSERT (u32 (start + cnt) <=? bit_cnt b);;
  contains_loop (Z.to_nat cnt) b start 0 value.

Definition bitmap_any (b : bitmap) (start cnt : Z) : outcome bool :=
  bitmap_contains b start cnt true.

Definition bitmap_none (b : bitmap) (start cnt : Z) : outcome bool :=
  r ← bitmap_contains b start cnt true; mret (negb r).

Definition bitmap_all (b : bitmap) (start cnt : Z) : outcome bool :=
  r ← bitmap_contains b start cnt false; mret (negb r).

(** ** Searching *)

(** [for (i = start; i <= last; i++)] of [bitmap_scan], with [n] indices left
    up to [last]. *)
Fixpoint scan_loop (n : nat) (b : bitmap) (i cnt : Z) (value : bool) : outcome Z :=
  match n with
  | O => mret BITMAP_ERROR
  | S n =>
      c ← bitmap_contains b i cnt (negb value);
      if negb c then mret i else scan_loop n b (i + 1) cnt value
  end.

Definition bitmap_scan (b : bitmap) (start cnt : Z) (value : bool) : outcome Z :=
  ASSERT (start <=? bit_cnt b);;
  if cnt <=? bit_cnt b then
    let last := bit_cnt b - cnt in
    scan_loop (Z.to_nat (last - start + 1)) b start cnt value
  else mret BITMAP_ERROR.

Definition bitmap_scan_and_flip (b : bitmap) (start cnt : Z) (value : bool) : outcome (Z * bitmap) :=
  idx ← bitmap_scan b start cnt value;
  if negb (idx =? BITMAP_ERROR) then
    b ← bitmap_set_multiple b idx cnt (negb value); mret (idx, b)
  else mret (idx, b).

(** ** Creation *)

(** [b_block] says whether [malloc] returned memory for the structure,
    [bits_block] what the memory it returned for the elements holds. *)
Definition bitmap_create (b_block : bool) (bits_block : option (list Z)) (bit_cnt : Z)
    : outcome (option bitmap) :=
  if b_block then
    match bits_block with
    | Some block => b ← bitmap_set_all (Bitmap bit_cnt block) false; mret (Some b)
    | None =>
        if bit_cnt =? 0 then b ← bitmap_set_all (Bitmap bit_cnt []) false; mret (Some b)
        else mret None
    end
  else mret None.

Definition bitmap_buf_size (bit_cnt : Z) : Z := u32 (8 + byte_cnt bit_cnt).

(** [block] is the memory behind the structure. *)
Definition bitmap_create_in_buf (bit_cnt : Z) (block : list Z) (block_size : Z) : outcome bitmap :=
  ASSERT (bitmap_buf_size bit_cnt <=? block_size);;
  bitmap_set_all (Bitmap bit_cnt block) false.

(** [new_block] is what [realloc] returns for [byte_cnt (bit_cnt)] bytes. *)
Definition bitmap_extend (new_block : option (list Z)) (b : option bitmap) (cnt : Z)
    : outcome (option bitmap) :=
  match b with
  | None => mret None
  | Some b =>
      if bit_cnt b <=? cnt then mret (Some b)
      else
        let old_count := bit_cnt b in
        match new_block with
        | Some block =>
            b ← bitmap_set_multiple (Bitmap cnt block) (u32 (old_count + 1)) cnt false;
            mret (Some b)
        | None => mret None
        end
  end.

(** ** File input and output *)

(** The elements as the bytes of memory. *)
Definition elem_bytes (e : Z) : list Z :=
  [u8 e; u8 (e / 2 ^ 8); u8 (e / 2 ^ 16); u8 (e / 2 ^ 24)].

Definition bits_bytes (es : list Z) : list Z := es ≫= elem_bytes.

Fixpoint bytes_elems (bs : list Z) : list Z :=
  match bs with
  | b0 :: b1 :: b2 :: b3 :: bs =>
      (b0 + 2 ^ 8 * b1 + 2 ^ 16 * b2 + 2 ^ 24 * b3) :: bytes_elems bs
  | _ => []
  end.

Definition bitmap_file_size (b : bitmap) : Z := byte_cnt (bit_cnt b).

(** [data] is what [file_read_at] delivers from the start of the file: at
    most the size asked for. *)
Definition bitmap_read (b : bitmap) (data : list Z) : outcome (bool * bitmap) :=
  if 0 <? bit_cnt b then
    let size := byte_cnt (bit_cnt b) in
    let success := Z.of_nat (length data) =? size in
    let b := Bitmap (bit_cnt b) (bytes_elems (data ++ drop (length data) (bits_bytes (bits b)))) in
    b ← update_elem b (elem_cnt (bit_cnt b) - 1) (λ e, Z.land e (last_mask b));
    mret (success, b)
  else mret (true, b).

(** [written] is what [file_write_at] returns for the bytes it is given, the
    first component of the result. *)
Definition bitmap_write (b : bitmap) (written : Z) : list Z * bool :=
  let size := byte_cnt (bit_cnt b) in
  (take (Z.to_nat size) (bits_bytes (bits b)), written =? size).

(** ** Abstract bits *)

Definition bit (b : bitmap) (i : Z) : bool :=
  Z.testbit (default 0 (bits b !! Z.to_nat (i / 32))) (i mod 32).

(** The elements are 32 bits wide and hold all the bits; the bound on
    [bit_cnt] is where [elem_cnt] would wrap around. *)
Record wf (b : bitmap) : Prop := Wf {
  wf_cnt : 0 ≤ bit_cnt b ≤ 2 ^ 32 - 32;
  wf_len : Z.of_nat (length (bits b)) = elem_cnt (bit_cnt b);
  wf_elems : Forall (λ e, 0 ≤ e < 2 ^ 32) (bits b)
}.

(** ** What the operations do to the bits *)

Lemma bit_mask_eq i : bit_mask i = 2 ^ (i mod 32).
Proof.
  unfold bit_mask, ELEM_BITS. rewrite Z.shiftl_1_l. apply u32_id.
  pose proof (Z.mod_pos_bound i 32). split; [lia|]. apply Z.pow_lt_mono_r; lia.
Qed.

Lemma bit_mask_testbit i j : Z.testbit (bit_mask i) j = (j =? i mod 32).
Proof.
  rewrite bit_mask_eq. pose proof (Z.mod_pos_bound i 32). destruct (Z.ltb_spec j 0).
  - rewrite Z.testbit_neg_r by lia. symmetry. apply Z.eqb_neq. lia.
  - rewrite Z.pow2_bits_eqb by lia. apply Z.eqb_sym.
Qed.

Lemma bit_mask_range i : 0 ≤ bit_mask i < 2 ^ 32.
Proof. apply u32_range. Qed.

Lemma elem_cnt_eq n : 0 ≤ n ≤ 2 ^ 32 - 32 → elem_cnt n = (n + 31) / 32.
Proof. intros. unfold elem_cnt, ELEM_BITS. rewrite u32_id by lia. f_equal. lia. Qed.

(** The element of every bit exists. *)
Lemma elem_lookup b i :
  wf b → 0 ≤ i < bit_cnt b →
  ∃ e, bits b !! Z.to_nat (i / 32) = Some e ∧ 0 ≤ e < 2 ^ 32.
Proof.
  intros [Hc Hl He] Hi. rewrite elem_cnt_eq in Hl by lia.
  destruct (lookup_lt_is_Some_2 (bits b) (Z.to_nat (i / 32))) as [e Ee].
  { apply Nat2Z.inj_lt. rewrite Hl, Z2Nat.id by (apply Z.div_pos; lia).
    apply Z.div_lt_upper_bound; [lia|]. pose proof (Z.div_mod (bit_cnt b + 31) 32).
    pose proof (Z.mod_pos_bound (bit_cnt b + 31) 32). lia. }
  exists e. split; [done|]. exact (Forall_lookup_1 _ _ _ _ He Ee).
Qed.

(** An instruction that acts on one bit of an element acts on one bit of the
    bitmap. *)
Lemma update_elem_bit b idx (f : Z → Z) (g : bool → bool) :
  wf b → 0 ≤ idx < bit_cnt b →
  (∀ e, 0 ≤ e < 2 ^ 32 → 0 ≤ f e < 2 ^ 32) →
  (∀ e j, 0 ≤ j < 32 →
     Z.testbit (f e) j = if j =? idx mod 32 then g (Z.testbit e j) else Z.testbit e j) →
  ∃ b', update_elem b (elem_idx idx) f = Ret b' ∧ wf b' ∧ bit_cnt b' = bit_cnt b ∧
    ∀ i, 0 ≤ i → bit b' i = if i =? idx then g (bit b i) else bit b i.
Proof.
  intros Hwf Hi Hr Hf. destruct (elem_lookup b idx Hwf Hi) as (e & Ee & Re).
  unfold update_elem, read_elem, elem_idx, ELEM_BITS. rewrite Ee. eexists. split; [done|].
  destruct Hwf as [Hc Hl He]. split; [|split].
  - split; [done|cbn [bits bit_cnt]; by rewrite length_insert|]. cbn. apply Forall_insert; auto.
  - done.
  - intros i Hi0. unfold bit. cbn [bits].
    pose proof (Z.div_mod i 32). pose proof (Z.div_mod idx 32).
    destruct (decide (Z.to_nat (i / 32) = Z.to_nat (idx / 32))) as [E|E].
    + assert (i / 32 = idx / 32) by (apply Z2Nat.inj in E; [done|apply Z.div_pos; lia..]).
      rewrite E, list_lookup_insert_eq by (by eapply lookup_lt_Some). rewrite Ee. cbn.
      rewrite Hf by (apply Z.mod_pos_bound; lia).
      destruct (Z.eqb_spec (i mod 32) (idx mod 32)), (Z.eqb_spec i idx); (done || lia || congruence).
    + rewrite list_lookup_insert_ne by congruence. destruct (Z.eqb_spec i idx); [congruence|done].
Qed.

Lemma bitmap_mark_ok b idx :
  wf b → 0 ≤ idx < bit_cnt b →
  ∃ b', bitmap_mark b idx = Ret b' ∧ wf b' ∧ bit_cnt b' = bit_cnt b ∧
    ∀ i, 0 ≤ i → bit b' i = if i =? idx then true else bit b i.
Proof.
  intros. apply (update_elem_bit b idx _ (λ _, true)); [done..| |].
  - intros. apply lor_range; [done|apply bit_mask_range].
  - intros e j Hj. rewrite Z.lor_spec, bit_mask_testbit.
    destruct (j =? idx mod 32); [apply orb_true_r|apply orb_false_r].
Qed.

Lemma bitmap_reset_ok b idx :
  wf b → 0 ≤ idx < bit_cnt b →
  ∃ b', bitmap_reset b idx = Ret b' ∧ wf b' ∧ bit_cnt b' = bit_cnt b ∧
    ∀ i, 0 ≤ i → bit b' i = if i =? idx then false else bit b i.
Proof.
  intros. apply (update_elem_bit b idx _ (λ _, false)); [done..| |].
  - intros. by apply land_range.
  - intros e j Hj. unfold u32. rewrite Z.land_spec, Z.mod_pow2_bits_low, Z.lnot_spec, bit_mask_testbit by lia.
    destruct (j =? idx mod 32); [apply andb_false_r|apply andb_true_r].
Qed.

Lemma bitmap_flip_ok b idx :
  wf b → 0 ≤ idx < bit_cnt b →
  ∃ b', bitmap_flip b idx = Ret b' ∧ wf b' ∧ bit_cnt b' = bit_cnt b ∧
    ∀ i, 0 ≤ i → bit b' i = if i =? idx then negb (bit b i) else bit b i.
Proof.
  intros. apply (update_elem_bit b idx _ negb); [done..| |].
  - intros. apply lxor_range; [done|apply bit_mask_range].
  - intros e j Hj. rewrite Z.lxor_spec, bit_mask_testbit.
    destruct (j =? idx mod 32); [apply xorb_true_r|apply xorb_false_r].
Qed.

Lemma bitmap_set_ok b idx v :
  wf b → 0 ≤ idx < bit_cnt b →
  ∃ b', bitmap_set b idx v = Ret b' ∧ wf b' ∧ bit_cnt b' = bit_cnt b ∧
    ∀ i, 0 ≤ i → bit b' i = if i =? idx then v else bit b i.
Proof.
  intros Hw Hi. unfold bitmap_set. rewrite (proj2 (Z.ltb_lt _ _)) by lia.
  destruct v; [by apply bitmap_mark_ok|by apply bitmap_reset_ok].
Qed.

Lemma bitmap_test_ok b idx :
  wf b → 0 ≤ idx < bit_cnt b → bitmap_test b idx = Ret (bit b idx).
Proof.
  intros Hw Hi. unfold bitmap_test, read_elem, elem_idx, ELEM_BITS, bit.
  rewrite (proj2 (Z.ltb_lt _ _)) by lia. cbn.
  destruct (elem_lookup b idx Hw Hi) as (e & -> & He). cbn. f_equal.
  destruct (Z.testbit e (idx mod 32)) eqn:Et.
  - apply negb_true_iff, Z.eqb_neq. intros E.
    assert (Z.testbit (Z.land e (bit_mask idx)) (idx mod 32) = true) as Hb
      by (by rewrite Z.land_spec, bit_mask_testbit, Z.eqb_refl, Et).
    by rewrite E, Z.bits_0 in Hb.
  - apply negb_false_iff, Z.eqb_eq, Z.bits_inj_0. intros j. rewrite Z.land_spec, bit_mask_testbit.
    destruct (Z.eqb_spec j (idx mod 32)) as [->|]; [by rewrite Et|apply andb_false_r].
Qed.

(** ** Groups *)

Definition in_range (start cnt i : Z) : bool := (start <=? i) && (i <? start + cnt).

Lemma set_multiple_loop_ok n b start i v :
  wf b → 0 ≤ start → 0 ≤ i → start + i + Z.of_nat n ≤ bit_cnt b →
  ∃ b', set_multiple_loop n b start i v = Ret b' ∧ wf b' ∧ bit_cnt b' = bit_cnt b ∧
    ∀ j, 0 ≤ j → bit b' j = if in_range (start + i) (Z.of_nat n) j then v else bit b j.
Proof.
  revert b i. induction n as [|n IH]; intros b i Hw Hs Hi Hn.
  - exists b. split_and!; [done..|]. intros j Hj. unfold in_range.
    destruct (Z.leb_spec (start + i) j), (Z.ltb_spec j (start + i + Z.of_nat 0)); cbn; done || lia.
  - cbn [set_multiple_loop]. pose proof (wf_cnt _ Hw). rewrite u32_id by lia.
    destruct (bitmap_set_ok b (start + i) v) as (b1 & -> & Hw1 & Hc1 & Hb1); [done|lia|]. cbn.
    destruct (IH b1 (i + 1)) as (b2 & -> & Hw2 & Hc2 & Hb2); [done|lia..|].
    exists b2. split_and!; [done|done|lia|]. intros j Hj. rewrite Hb2, Hb1 by lia. unfold in_range.
    destruct (Z.leb_spec (start + i) j), (Z.ltb_spec j (start + i + Z.of_nat (S n))),
      (Z.leb_spec (start + (i + 1)) j), (Z.ltb_spec j (start + (i + 1) + Z.of_nat n)),
      (Z.eqb_spec j (start + i)); cbn; done || lia.
Qed.

Lemma bitmap_set_multiple_ok b start cnt v :
  wf b → 0 ≤ start → 0 ≤ cnt → start + cnt ≤ bit_cnt b →
  ∃ b', bitmap_set_multiple b start cnt v = Ret b' ∧ wf b' ∧ bit_cnt b' = bit_cnt b ∧
    ∀ j, 0 ≤ j → bit b' j = if in_range start cnt j then v else bit b j.
Proof.
  intros Hw Hs Hc Hn. unfold bitmap_set_multiple. pose proof (wf_cnt _ Hw).
  rewrite u32_id by lia. rewrite !(proj2 (Z.leb_le _ _)) by lia. cbn.
  destruct (set_multiple_loop_ok (Z.to_nat cnt) b start 0 v) as (b' & -> & ? & ? & Hb); [done|lia..|].
  exists b'. split_and!; [done..|]. intros j Hj. rewrite Hb by done. by rewrite Z.add_0_r, Z2Nat.id.
Qed.

(** The indices of a group, and the bits there that have a value. *)
Definition group (start cnt : Z) : list Z := seqZ start cnt.

Lemma count_loop_ok n b start i v acc :
  wf b → 0 ≤ start → 0 ≤ i → start + i + Z.of_nat n ≤ bit_cnt b →
  count_loop n b start i v acc =
    Ret (acc + Z.of_nat (length (filter (λ j, bit b j = v) (group (start + i) (Z.of_nat n))))).
Proof.
  intros Hw Hs. revert i acc. induction n as [|n IH]; intros i acc Hi Hn.
  - cbn. by rewrite Z.add_0_r.
  - cbn [count_loop]. pose proof (wf_cnt _ Hw). rewrite u32_id by lia.
    rewrite bitmap_test_ok by (done || lia). cbn. rewrite IH by lia. f_equal.
    unfold group. rewrite (seqZ_cons _ (Z.of_nat (S n))), filter_cons by lia.
    replace (Z.succ (start + i)) with (start + (i + 1)) by lia.
    replace (Z.pred (Z.of_nat (S n))) with (Z.of_nat n) by lia.
    destruct (Bool.eqb (bit b (start + i)) v) eqn:E.
    + rewrite decide_True by (by apply eqb_prop). cbn [length]. lia.
    + rewrite decide_False by (by intros ?%eqb_true_iff; congruence). done.
Qed.

Lemma bitmap_count_ok b start cnt v :
  wf b → 0 ≤ start → 0 ≤ cnt → start + cnt ≤ bit_cnt b →
  bitmap_count b start cnt v =
    Ret (Z.of_nat (length (filter (λ j, bit b j = v) (group start cnt)))).
Proof.
  intros Hw Hs Hc Hn. unfold bitmap_count. pose proof (wf_cnt _ Hw).
  rewrite u32_id by lia. rewrite !(proj2 (Z.leb_le _ _)) by lia. cbn.
  rewrite count_loop_ok by (done || lia). by rewrite Z.add_0_r, Z2Nat.id.
Qed.

Lemma contains_loop_ok n b start i v :
  wf b → 0 ≤ start → 0 ≤ i → start + i + Z.of_nat n ≤ bit_cnt b →
  ∃ r, contains_loop n b start i v = Ret r ∧
    (r = true ↔ ∃ j, start + i ≤ j < start + i + Z.of_nat n ∧ bit b j = v).
Proof.
  intros Hw Hs. revert i. induction n as [|n IH]; intros i Hi Hn.
  - exists false. split; [done|]. split; [done|]. intros (j & ? & _). lia.
  - cbn [contains_loop]. pose proof (wf_cnt _ Hw). rewrite u32_id by lia.
    rewrite bitmap_test_ok by (done || lia). cbn.
    destruct (Bool.eqb (bit b (start + i)) v) eqn:E.
    + apply eqb_prop in E. exists true. split; [done|]. split; [|done]. intros _.
      exists (start + i). split; [lia|done].
    + apply eqb_false_iff in E. destruct (IH (i + 1)) as (r & -> & Hr); [lia..|].
      exists r. split; [done|]. rewrite Hr. split; intros (j & Hj & Ej).
      * exists j. split; [lia|done].
      * exists j. split; [|done]. destruct (decide (j = start + i)); [congruence|lia].
Qed.

Lemma bitmap_contains_ok b start cnt v :
  wf b → 0 ≤ start → 0 ≤ cnt → start + cnt ≤ bit_cnt b →
  ∃ r, bitmap_contains b start cnt v = Ret r ∧
    (r = true ↔ ∃ j, start ≤ j < start + cnt ∧ bit b j = v).
Proof.
  intros Hw Hs Hc Hn. unfold bitmap_contains. pose proof (wf_cnt _ Hw).
  rewrite u32_id by lia. rewrite !(proj2 (Z.leb_le _ _)) by lia. cbn.
  destruct (contains_loop_ok (Z.to_nat cnt) b start 0 v) as (r & -> & Hr); [done|lia..|].
  exists r. split; [done|]. by rewrite Hr, Z.add_0_r, Z2Nat.id.
Qed.

(** ** Searching *)

(** All the bits of the group have the value. *)
Definition group_is (b : bitmap) (start cnt : Z) (v : bool) : Prop :=
  ∀ j, start ≤ j < start + cnt → bit b j = v.

(** What a search reports: the first group, or none. *)
Definition scan_result (b : bitmap) (start cnt : Z) (v : bool) (idx : Z) : Prop :=
  (start ≤ idx ∧ idx + cnt ≤ bit_cnt b ∧ group_is b idx cnt v ∧
   ∀ i, start ≤ i < idx → ¬ group_is b i cnt v)
  ∨ (idx = BITMAP_ERROR ∧ ∀ i, start ≤ i → i + cnt ≤ bit_cnt b → ¬ group_is b i cnt v).

Lemma scan_loop_ok n b i cnt v :
  wf b → 0 ≤ i → 0 ≤ cnt → (n = 0%nat ∨ i + Z.of_nat n - 1 + cnt ≤ bit_cnt b) →
  ∃ idx, scan_loop n b i cnt v = Ret idx ∧
    ((i ≤ idx < i + Z.of_nat n ∧ group_is b idx cnt v ∧ ∀ j, i ≤ j < idx → ¬ group_is b j cnt v)
     ∨ (idx = BITMAP_ERROR ∧ ∀ j, i ≤ j < i + Z.of_nat n → ¬ group_is b j cnt v)).
Proof.
  intros Hw. revert i. induction n as [|n IH]; intros i Hi Hc Hn.
  - exists BITMAP_ERROR. split; [done|]. right. split; [done|]. lia.
  - cbn [scan_loop].
    destruct (bitmap_contains_ok b i cnt (negb v)) as (r & -> & Hr); [done|lia..|]. cbn.
    destruct r; cbn [negb].
    + destruct (proj1 Hr eq_refl) as (j & Hj & Ej).
      assert (¬ group_is b i cnt v) as Hng.
      { intros Hg. rewrite (Hg j Hj) in Ej. by destruct v. }
      destruct (IH (i + 1)) as (idx & -> & Hidx); [lia..|]. exists idx. split; [done|].
      destruct Hidx as [(? & ? & Hf)|[-> Hf]]; [left|right]; split_and!; try done; try lia;
        intros k Hk; (destruct (decide (k = i)) as [->|]; [done|apply Hf; lia]).
    + exists i. split; [done|]. left. split_and!; [lia..| |lia].
      intros j Hj. destruct (bit b j) eqn:Ej, v; try done; exfalso;
        (cut (false = true); [done|]; apply Hr; by exists j).
Qed.

Lemma bitmap_scan_ok b start cnt v :
  wf b → 0 ≤ start ≤ bit_cnt b → 0 ≤ cnt →
  ∃ idx, bitmap_scan b start cnt v = Ret idx ∧ scan_result b start cnt v idx.
Proof.
  intros Hw Hs Hc. unfold bitmap_scan, scan_result. rewrite (proj2 (Z.leb_le start _)) by lia. cbn.
  destruct (Z.leb_spec cnt (bit_cnt b)) as [Hle|Hgt].
  - destruct (scan_loop_ok (Z.to_nat (bit_cnt b - cnt - start + 1)) b start cnt v)
      as (idx & -> & Hidx); [done|lia..|]. exists idx. split; [done|].
    destruct Hidx as [(? & ? & ?)|[-> Hf]]; [left; split_and!; done || lia|].
    right. split; [done|]. intros i Hi1 Hi2. apply Hf. lia.
  - exists BITMAP_ERROR. split; [done|]. right. split; [done|]. lia.
Qed.

(** The group found is flipped, and nothing else. *)
Lemma bitmap_scan_and_flip_ok b start cnt v :
  wf b → 0 ≤ start ≤ bit_cnt b → 0 ≤ cnt →
  ∃ idx b', bitmap_scan_and_flip b start cnt v = Ret (idx, b') ∧
    scan_result b start cnt v idx ∧ wf b' ∧ bit_cnt b' = bit_cnt b ∧
    ∀ j, 0 ≤ j → bit b' j =
      if negb (idx =? BITMAP_ERROR) && in_range idx cnt j then negb v else bit b j.
Proof.
  intros Hw Hs Hc. unfold bitmap_scan_and_flip.
  destruct (bitmap_scan_ok b start cnt v) as (idx & -> & Hidx); [done..|]. cbn.
  destruct (Z.eqb_spec idx BITMAP_ERROR) as [->|Hne]; cbn [negb andb].
  - by exists BITMAP_ERROR, b.
  - destruct Hidx as [Hok|[? _]]; [|done]. destruct Hok as (H1 & H2 & H3 & H4).
    destruct (bitmap_set_multiple_ok b idx cnt (negb v)) as (b' & -> & Hw' & Hc' & Hb'); [done|lia..|].
    exists idx, b'. split_and!; [done|by left|done..|]. intros j Hj.
    rewrite (proj2 (Z.eqb_neq _ _) Hne). by apply Hb'.
Qed.

(** ** Encoding *)

Lemma elem_bytes_roundtrip e bs :
  0 ≤ e < 2 ^ 32 → bytes_elems (elem_bytes e ++ bs) = e :: bytes_elems bs.
Proof.
  intros He. cbn [elem_bytes app bytes_elems]. f_equal. unfold u8.
  replace (e / 2 ^ 24) with (e / 2 ^ 8 / 2 ^ 8 / 2 ^ 8) by (by rewrite !Z.div_div).
  replace (e / 2 ^ 16) with (e / 2 ^ 8 / 2 ^ 8) by (by rewrite !Z.div_div).
  change (2 ^ 24) with 16777216. change (2 ^ 16) with 65536. change (2 ^ 8) with 256. zlia.
Qed.

Lemma bits_bytes_roundtrip es :
  Forall (λ e, 0 ≤ e < 2 ^ 32) es → bytes_elems (bits_bytes es) = es.
Proof.
  induction 1 as [|e es He Hes IH]; [done|].
  cbn [bits_bytes mbind list_bind]. rewrite elem_bytes_roundtrip by done. by f_equal.
Qed.

Lemma bits_bytes_length es : length (bits_bytes es) = (4 * length es)%nat.
Proof. induction es as [|e es IH]; [done|]. cbn in *. unfold bits_bytes in IH. lia. Qed.

Lemma byte_cnt_eq b : wf b → byte_cnt (bit_cnt b) = 4 * Z.of_nat (length (bits b)).
Proof.
  intros [Hc Hl _]. unfold byte_cnt. rewrite <-Hl. apply u32_id.
  rewrite elem_cnt_eq in Hl by done. zlia.
Qed.

(** The bits in use are the bits of [last_mask]. *)
Lemma last_mask_testbit b i :
  wf b → 0 ≤ i < bit_cnt b → i / 32 = elem_cnt (bit_cnt b) - 1 →
  Z.testbit (last_mask b) (i mod 32) = true.
Proof.
  intros [Hc _ _] Hi Hlast. rewrite elem_cnt_eq in Hlast by done.
  unfold last_mask, ELEM_BITS. pose proof (Z.mod_pos_bound i 32).
  destruct (Z.eqb_spec (bit_cnt b mod 32) 0).
  - unfold u32. rewrite Z.mod_pow2_bits_low by lia. apply Z.bits_m1. lia.
  - pose proof (Z.mod_pos_bound (bit_cnt b) 32). rewrite Z.shiftl_1_l.
    assert (2 ^ (bit_cnt b mod 32) < 2 ^ 32) by (apply Z.pow_lt_mono_r; lia).
    pose proof (Z.pow_pos_nonneg 2 (bit_cnt b mod 32)).
    rewrite (u32_id (2 ^ _)), u32_id by lia.
    rewrite Z.sub_1_r, <-Z.ones_equiv.
    apply Z.ones_spec_low. zlia.
Qed.

(** Masking the last element keeps the bits. *)
Lemma mask_last_ok b :
  wf b → 0 < bit_cnt b →
  ∃ b', update_elem b (elem_cnt (bit_cnt b) - 1) (λ e, Z.land e (last_mask b)) = Ret b' ∧
    wf b' ∧ bit_cnt b' = bit_cnt b ∧ ∀ i, 0 ≤ i < bit_cnt b → bit b' i = bit b i.
Proof.
  intros Hw Hpos. pose proof (wf_cnt _ Hw) as Hc. set (last := bit_cnt b - 1).
  assert (elem_cnt (bit_cnt b) - 1 = last / 32) as E.
  { rewrite elem_cnt_eq by done. unfold last. zlia. }
  destruct (elem_lookup b last Hw) as (e & Ee & Re); [lia|].
  unfold update_elem, read_elem. rewrite E, Ee. eexists. split; [done|]. split; [|split; [done|]].
  - destruct Hw as [? ? ?]. split; [done|cbn [bits bit_cnt]; by rewrite length_insert|].
    cbn. apply Forall_insert; [done|]. by apply land_range.
  - intros i Hi. unfold bit. cbn [bits].
    destruct (decide (Z.to_nat (i / 32) = Z.to_nat (last / 32))) as [E'|E'].
    + assert (i / 32 = last / 32) as Ei by (apply Z2Nat.inj in E'; [done|apply Z.div_pos; lia..]).
      rewrite E', list_lookup_insert_eq by (by eapply lookup_lt_Some). rewrite Ee. cbn.
      rewrite Z.land_spec, last_mask_testbit by (done || congruence). apply andb_true_r.
    + by rewrite list_lookup_insert_ne by congruence.
Qed.

(** ** The properties *)

(** Reading back into a bitmap of the same size the bytes that
    [bitmap_write] stores restores every bit, whatever the bitmap held. *)
Theorem bitmap_file_round_trip b b0 :
  wf b → wf b0 → bit_cnt b0 = bit_cnt b →
  let '(data, ok) := bitmap_write b (bitmap_file_size b) in
  ok = true ∧
  ∃ b', bitmap_read b0 data = Ret (true, b') ∧ wf b' ∧ bit_cnt b' = bit_cnt b ∧
        ∀ i, 0 ≤ i < bit_cnt b → bit b' i = bit b i.
Proof.
  intros Hw Hw0 Hcnt. cbn. split; [apply Z.eqb_refl|].
  assert (take (Z.to_nat (byte_cnt (bit_cnt b))) (bits_bytes (bits b)) = bits_bytes (bits b)) as ->.
  { rewrite byte_cnt_eq by done. apply take_ge. rewrite bits_bytes_length. lia. }
  unfold bitmap_read. rewrite Hcnt. destruct (Z.ltb_spec 0 (bit_cnt b)).
  - assert (length (bits b0) = length (bits b)) as Hlen.
    { destruct Hw as [_ Hl _], Hw0 as [_ Hl0 _]. rewrite Hcnt in Hl0. lia. }
    rewrite drop_ge by (rewrite !bits_bytes_length; lia).
    rewrite app_nil_r, bits_bytes_roundtrip by apply Hw. cbn [bit_cnt].
    rewrite bits_bytes_length, byte_cnt_eq by done.
    rewrite (proj2 (Z.eqb_eq _ _)) by lia. destruct b as [cnt es]. cbn [bit_cnt bits] in *.
    destruct (mask_last_ok (Bitmap cnt es)) as (b' & Hu & Hb'); [done..|]. cbn [bit_cnt] in Hu.
    rewrite Hu. by exists b'.
  - exists b0. pose proof (wf_cnt _ Hw). split_and!; [done..|]. lia.
Qed.

(** A bitmap of [cnt] zero bits; the elements are garbage before. *)
Definition zeros (cnt : Z) : bitmap := Bitmap cnt (replicate (Z.to_nat (elem_cnt cnt)) 0).

Lemma bitmap_file_round_trip_witness :
  let b := Bitmap 40 [2864434397; 51] in
  let '(data, ok) := bitmap_write b (bitmap_file_size b) in
  ok = true ∧
  ∃ b', bitmap_read (zeros 40) data = Ret (true, b') ∧ wf b' ∧ bit_cnt b' = bit_cnt b ∧
        ∀ i, 0 ≤ i < bit_cnt b → bit b' i = bit b i.
Proof.
  apply (bitmap_file_round_trip (Bitmap 40 [2864434397; 51]) (zeros 40)).
  - split; [done|reflexivity|]. repeat constructor; done.
  - split; [done|reflexivity|]. repeat constructor; done.
  - reflexivity.
Defined.

(** [bitmap_scan_and_flip] finds the first group of CNT bits of the wanted
    value at or after START, inverts exactly the bits of that group, and
    returns its index; it returns [BITMAP_ERROR], changing no bit, exactly
    when there is no such group. *)
Theorem bitmap_scan_and_flip_correct b start cnt v :
  wf b → 0 ≤ start ≤ bit_cnt b → 0 ≤ cnt →
  ∃ idx b', bitmap_scan_and_flip b start cnt v = Ret (idx, b') ∧ wf b' ∧
    bit_cnt b' = bit_cnt b ∧
    ((start ≤ idx ∧ idx + cnt ≤ bit_cnt b ∧
      (∀ j, idx ≤ j < idx + cnt → bit b j = v ∧ bit b' j = negb v) ∧
      (∀ i, start ≤ i < idx → ∃ j, i ≤ j < i + cnt ∧ bit b j = negb v) ∧
      (∀ j, 0 ≤ j → ¬ idx ≤ j < idx + cnt → bit b' j = bit b j)) ∨
     (idx = BITMAP_ERROR ∧ (∀ j, 0 ≤ j → bit b' j = bit b j) ∧
      ∀ i, start ≤ i → i + cnt ≤ bit_cnt b → ¬ (∀ j, i ≤ j < i + cnt → bit b j = v))).
Proof.
  intros Hw Hs Hc. pose proof (wf_cnt _ Hw).
  destruct (bitmap_scan_and_flip_ok b start cnt v) as (idx & b' & Hr & Hres & Hw' & Hcnt & Hb);
    [done..|]. exists idx, b'. split_and!; [done..|].
  destruct Hres as [(H1 & H2 & H3 & H4)|[-> Hnone]].
  - left. assert (idx ≠ BITMAP_ERROR) as Hne by (unfold BITMAP_ERROR, SIZE_MAX; lia).
    rewrite (proj2 (Z.eqb_neq _ _) Hne) in Hb. cbn [negb andb] in Hb. unfold in_range in Hb.
    split_and!; [done..| | |].
    + intros j Hj. rewrite Hb by lia. split; [by apply H3|].
      by rewrite (proj2 (Z.leb_le _ _)), (proj2 (Z.ltb_lt _ _)) by lia.
    + intros i Hi. specialize (H4 i Hi).
      destruct (bitmap_contains_ok b i cnt (negb v)) as (r & _ & Hr'); [done|lia..|].
      destruct r; [by apply Hr'|]. exfalso. apply H4. intros j Hj.
      destruct (bit b j) eqn:Ej, v; try done; exfalso;
        (cut (false = true); [done|]; apply Hr'; by exists j).
    + intros j Hj Hout. rewrite Hb by lia.
      destruct (Z.leb_spec idx j), (Z.ltb_spec j (idx + cnt)); done || lia.
  - right. split_and!; [done| |done]. intros j Hj. by rewrite Hb.
Qed.

Lemma bitmap_scan_and_flip_correct_witness :
  let b := Bitmap 40 [4294967295; 20] in
  ∃ idx b', bitmap_scan_and_flip b 5 3 false = Ret (idx, b') ∧ wf b' ∧ bit_cnt b' = bit_cnt b ∧
    ((5 ≤ idx ∧ idx + 3 ≤ bit_cnt b ∧
      (∀ j, idx ≤ j < idx + 3 → bit b j = false ∧ bit b' j = negb false) ∧
      (∀ i, 5 ≤ i < idx → ∃ j, i ≤ j < i + 3 ∧ bit b j = negb false) ∧
      (∀ j, 0 ≤ j → ¬ idx ≤ j < idx + 3 → bit b' j = bit b j)) ∨
     (idx = BITMAP_ERROR ∧ (∀ j, 0 ≤ j → bit b' j = bit b j) ∧
      ∀ i, 5 ≤ i → i + 3 ≤ bit_cnt b → ¬ (∀ j, i ≤ j < i + 3 → bit b j = false))).
Proof.
  apply (bitmap_scan_and_flip_correct (Bitmap 40 [4294967295; 20]) 5 3 false).
  - split; [done|reflexivity|]. repeat constructor; done.
  - done.
  - done.
Defined.

(** Single-bit operations change the bit they name and no other, testing
    reads it, and an index past the end stops the kernel. *)
Theorem bitmap_single_bits_correct b idx v :
  wf b → 0 ≤ idx →
  if idx <? bit_cnt b then
    bitmap_test b idx = Ret (bit b idx) ∧
    (∃ b', bitmap_set b idx v = Ret b' ∧ wf b' ∧ bitmap_size b' = bitmap_size b ∧
       ∀ i, 0 ≤ i → bit b' i = if i =? idx then v else bit b i) ∧
    (∃ b', bitmap_flip b idx = Ret b' ∧ wf b' ∧ bitmap_size b' = bitmap_size b ∧
       ∀ i, 0 ≤ i → bit b' i = if i =? idx then negb (bit b i) else bit b i)
  else bitmap_test b idx = Panic ∧ bitmap_set b idx v = Panic.
Proof.
  intros Hw Hi. destruct (Z.ltb_spec idx (bit_cnt b)).
  - split_and!; [by apply bitmap_test_ok|by apply bitmap_set_ok|by apply bitmap_flip_ok].
  - unfold bitmap_test, bitmap_set. by rewrite (proj2 (Z.ltb_ge _ _)) by lia.
Qed.

Lemma bitmap_single_bits_correct_witness :
  bitmap_test (Bitmap 40 [4294967295; 20]) 34 = Ret true ∧
  (∃ b', bitmap_set (Bitmap 40 [4294967295; 20]) 34 false = Ret b' ∧ wf b' ∧
     bitmap_size b' = 40 ∧
     ∀ i, 0 ≤ i → bit b' i = if i =? 34 then false else bit (Bitmap 40 [4294967295; 20]) i) ∧
  (∃ b', bitmap_flip (Bitmap 40 [4294967295; 20]) 34 = Ret b' ∧ wf b' ∧
     bitmap_size b' = 40 ∧
     ∀ i, 0 ≤ i → bit b' i = if i =? 34 then negb (bit (Bitmap 40 [4294967295; 20]) i)
                             else bit (Bitmap 40 [4294967295; 20]) i).
Proof.
  apply (bitmap_single_bits_correct (Bitmap 40 [4294967295; 20]) 34 false).
  - split; [done|reflexivity|]. repeat constructor; done.
  - done.
Defined.

(** [bitmap_count], [bitmap_any], [bitmap_none] and [bitmap_all] agree
    with the bits of the group. *)
Theorem bitmap_groups_correct b start cnt v :
  wf b → 0 ≤ start → 0 ≤ cnt → start + cnt ≤ bit_cnt b →
  bitmap_count b start cnt v =
    Ret (Z.of_nat (length (filter (λ j, bit b j = v) (seqZ start cnt)))) ∧
  (∃ r, bitmap_any b start cnt = Ret r ∧
     (r = true ↔ ∃ j, start ≤ j < start + cnt ∧ bit b j = true)) ∧
  (∃ r, bitmap_none b start cnt = Ret r ∧
     (r = true ↔ ∀ j, start ≤ j < start + cnt → bit b j = false)) ∧
  (∃ r, bitmap_all b start cnt = Ret r ∧
     (r = true ↔ ∀ j, start ≤ j < start + cnt → bit b j = true)).
Proof.
  intros Hw Hs Hc Hn. split; [by apply bitmap_count_ok|].
  destruct (bitmap_contains_ok b start cnt true) as (r & Hr & Hr'); [done..|].
  destruct (bitmap_contains_ok b start cnt false) as (q & Hq & Hq'); [done..|].
  unfold bitmap_any, bitmap_none, bitmap_all. rewrite Hr, Hq. cbn. split_and!.
  - by exists r.
  - exists (negb r). split; [done|]. destruct r; cbn.
    + split; [done|]. destruct (proj1 Hr' eq_refl) as (j & Hj & Ej). intros Hall.
      by rewrite (Hall j Hj) in Ej.
    + split; [|done]. intros _ j Hj. destruct (bit b j) eqn:Ej; [|done]. symmetry. apply Hr'. by exists j.
  - exists (negb q). split; [done|]. destruct q; cbn.
    + split; [done|]. destruct (proj1 Hq' eq_refl) as (j & Hj & Ej). intros Hall.
      by rewrite (Hall j Hj) in Ej.
    + split; [|done]. intros _ j Hj. destruct (bit b j) eqn:Ej; [done|]. apply Hq'. by exists j.
Qed.

Lemma bitmap_groups_correct_witness :
  let b := Bitmap 40 [4294967295; 20] in
  bitmap_count b 30 8 true =
    Ret (Z.of_nat (length (filter (λ j, bit b j = true) (seqZ 30 8)))) ∧
  (∃ r, bitmap_any b 30 8 = Ret r ∧ (r = true ↔ ∃ j, 30 ≤ j < 30 + 8 ∧ bit b j = true)) ∧
  (∃ r, bitmap_none b 30 8 = Ret r ∧ (r = true ↔ ∀ j, 30 ≤ j < 30 + 8 → bit b j = false)) ∧
  (∃ r, bitmap_all b 30 8 = Ret r ∧ (r = true ↔ ∀ j, 30 ≤ j < 30 + 8 → bit b j = true)).
Proof.
  apply (bitmap_groups_correct (Bitmap 40 [4294967295; 20]) 30 8 true).
  - split; [done|reflexivity|]. repeat constructor; done.
  - done.
  - done.
  - done.
Defined.

Lemma bitmap_set_all_ok cnt block v :
  wf (Bitmap cnt block) →
  ∃ b, bitmap_set_all (Bitmap cnt block) v = Ret b ∧ wf b ∧ bit_cnt b = cnt ∧
    ∀ i, 0 ≤ i < cnt → bit b i = v.
Proof.
  intros Hw. pose proof (wf_cnt _ Hw). cbn in *.
  destruct (bitmap_set_multiple_ok (Bitmap cnt block) 0 cnt v) as (b & Hr & Hw' & Hc & Hb);
    [done|cbn; lia..|].
  exists b. split_and!; [done..|]. intros i Hi. rewrite Hb by lia. unfold in_range.
  by rewrite (proj2 (Z.leb_le _ _)), (proj2 (Z.ltb_lt _ _)) by lia.
Qed.

(** A new bitmap is all zeros whatever the memory it gets held; a failed
    allocation of a non-empty one returns null. *)
Theorem bitmap_create_correct cnt block :
  wf (Bitmap cnt block) →
  (∃ b, bitmap_create true (Some block) cnt = Ret (Some b) ∧ wf b ∧ bit_cnt b = cnt ∧
     ∀ i, 0 ≤ i < cnt → bit b i = false) ∧
  (∃ b, bitmap_create_in_buf cnt block (bitmap_buf_size cnt) = Ret b ∧ wf b ∧ bit_cnt b = cnt ∧
     ∀ i, 0 ≤ i < cnt → bit b i = false) ∧
  bitmap_create false (Some block) cnt = Ret None ∧
  (0 < cnt → bitmap_create true None cnt = Ret None).
Proof.
  intros Hw. destruct (bitmap_set_all_ok cnt block false Hw) as (b & Hr & Hb).
  split_and!.
  - exists b. cbn. by rewrite Hr.
  - exists b. unfold bitmap_create_in_buf. by rewrite Z.leb_refl.
  - done.
  - intros Hpos. cbn. by rewrite (proj2 (Z.eqb_neq _ _)) by lia.
Qed.

Lemma bitmap_create_correct_witness :
  (∃ b, bitmap_create true (Some [7; 9]) 33 = Ret (Some b) ∧ wf b ∧ bit_cnt b = 33 ∧
     ∀ i, 0 ≤ i < 33 → bit b i = false) ∧
  (∃ b, bitmap_create_in_buf 33 [7; 9] (bitmap_buf_size 33) = Ret b ∧ wf b ∧ bit_cnt b = 33 ∧
     ∀ i, 0 ≤ i < 33 → bit b i = false) ∧
  bitmap_create false (Some [7; 9]) 33 = Ret None ∧
  (0 < 33 → bitmap_create true None 33 = Ret None).
Proof.
  apply (bitmap_create_correct 33 [7; 9]).
  split; [done|reflexivity|]. repeat constructor; done.
Defined.

(** [bitmap_extend] never enlarges a bitmap: asked for at least as many
    bits as there are it returns the bitmap unchanged, and asked for fewer it
    stops the kernel. *)
Theorem bitmap_extend_never_grows new_block b cnt :
  wf b → 0 ≤ cnt →
  if bit_cnt b <=? cnt then bitmap_extend new_block (Some b) cnt = Ret (Some b)
  else bitmap_extend new_block (Some b) cnt = match new_block with
                                              | Some _ => Panic
                                              | None => Ret None
                                              end.
Proof.
  intros Hw Hc. pose proof (wf_cnt _ Hw). unfold bitmap_extend.
  destruct (Z.leb_spec (bit_cnt b) cnt); [done|]. destruct new_block; [|done].
  unfold bitmap_set_multiple. cbn [bit_cnt]. rewrite (u32_id (bit_cnt b + 1)) by lia.
  by rewrite (proj2 (Z.leb_gt (bit_cnt b + 1) cnt)) by lia.
Qed.

Lemma bitmap_extend_never_grows_witness :
  bitmap_extend (Some [0; 0; 0; 0]) (Some (zeros 40)) 100 = Ret (Some (zeros 40)).
Proof.
  apply (bitmap_extend_never_grows (Some [0; 0; 0; 0]) (zeros 40) 100).
  - split; [done|reflexivity|]. repeat constructor; done.
  - done.
Defined.
