(* ===== verification/Vaddr.v ===== *)
(** * Virtual addresses and page table entries: [threads/vaddr.h],
    [threads/pte.h]

    Addresses are 32-bit integers.  The functions are the bit manipulations of
    the headers; the lemmas give their arithmetic meaning, the decomposition
    of an address into its three page table indices, and the round trips
    between physical and virtual addresses and between pages and entries. *)

From stdpp Require Import base tactics numbers.
From Stdlib Require Import ZArith Lia.
From S2P Require Import Prelude.

Definition BITMASK (shift cnt : Z) : Z := u32 (Z.shiftl (Z.shiftl 1 cnt - 1) shift).

Definition PGBITS : Z := 12.
Definition PGSIZE : Z := Z.shiftl 1 PGBITS.
Definition PGMASK : Z := BITMASK 0 PGBITS.
Definition PHYS_BASE : Z := 0xc0000000.

Definition pg_ofs (va : Z) : Z := Z.land va PGMASK.
Definition pg_no (va : Z) : Z := Z.shiftr va PGBITS.
Definition pg_round_up (va : Z) : Z := Z.land (u32 (va + PGSIZE - 1)) (u32 (Z.lnot PGMASK)).
Definition pg_round_down (va : Z) : Z := Z.land va (u32 (Z.lnot PGMASK)).

Definition is_user_vaddr (vaddr : Z) : bool := vaddr <? PHYS_BASE.
Definition is_kernel_vaddr (vaddr : Z) : bool := PHYS_BASE <=? vaddr.

Definition ptov (paddr : Z) : outcome Z :=
  ASSERT (paddr <? PHYS_BASE);; mret (u32 (paddr + PHYS_BASE)).

Definition vtop (vaddr : Z) : outcome Z :=
  ASSERT (is_kernel_vaddr vaddr);; mret (vaddr - PHYS_BASE).

(** ** Page table entries *)

Definition PTSHIFT : Z := PGBITS.
Definition PTBITS : Z := 10.
Definition PTMASK : Z := BITMASK PTSHIFT PTBITS.
Definition PDSHIFT : Z := PTSHIFT + PTBITS.

Definition pt_no (va : Z) : Z := Z.shiftr (Z.land va PTMASK) PTSHIFT.
Definition pd_no (va : Z) : Z := Z.shiftr va PDSHIFT.

Definition PTE_FLAGS : Z := 0x00000fff.
Definition PTE_ADDR : Z := 0xfffff000.
Definition PTE_P : Z := 0x1.
Definition PTE_W : Z := 0x2.
Definition PTE_U : Z := 0x4.
Definition PTE_A : Z := 0x20.
Definition PTE_D : Z := 0x40.

Definition pde_create (pt : Z) : outcome Z :=
  ASSERT (pg_ofs pt =? 0);;
  p ← vtop pt; mret (Z.lor p (Z.lor PTE_U (Z.lor PTE_P PTE_W))).

Definition pde_get_pt (pde : Z) : outcome Z :=
  ASSERT (negb (Z.land pde PTE_P =? 0));;
  ptov (Z.land pde PTE_ADDR).

Definition pte_create_kernel (page : Z) (writable : bool) : outcome Z :=
  ASSERT (pg_ofs page =? 0);;
  p ← vtop page; mret (Z.lor p (Z.lor PTE_P (if writable then PTE_W else 0))).

Definition pte_create_user (page : Z) (writable : bool) : outcome Z :=
  e ← pte_create_kernel page writable; mret (Z.lor e PTE_U).

Definition pte_get_page (pte : Z) : outcome Z := ptov (Z.land pte PTE_ADDR).

(** ** Arithmetic meaning *)

(** A pointer value. *)
Definition addr (va : Z) : Prop := 0 ≤ va < 2 ^ 32.

Lemma pg_ofs_mod va : pg_ofs va = va mod 4096.
Proof. unfold pg_ofs. change PGMASK with (Z.ones 12). apply Z.land_ones. lia. Qed.

Lemma pg_no_div va : pg_no va = va / 4096.
Proof. unfold pg_no, PGBITS. by rewrite Z.shiftr_div_pow2. Qed.

(** Clearing the low 12 bits of a 32-bit value. *)
Lemma land_high va : addr va → Z.land va (u32 (Z.lnot PGMASK)) = va / 4096 * 4096.
Proof.
  intros Hva. change (u32 (Z.lnot PGMASK)) with 0xfffff000. apply Z.bits_inj'. intros j Hj.
  rewrite Z.land_spec. change 4096 with (2 ^ 12).
  rewrite <-Z.shiftl_mul_pow2, <-Z.shiftr_div_pow2, Z.shiftl_spec by lia.
  change 0xfffff000 with (Z.shiftl (Z.ones 20) 12). rewrite Z.shiftl_spec by lia.
  destruct (Z.ltb_spec j 12).
  - rewrite !(Z.testbit_neg_r _ (j - 12)) by lia. apply andb_false_r.
  - rewrite Z.shiftr_spec by lia. replace (j - 12 + 12) with j by lia.
    destruct (Z.ltb_spec j 32).
    + rewrite Z.ones_spec_low by lia. apply andb_true_r.
    + assert (Z.testbit va j = false) as ->; [|done].
      destruct (Z.eq_dec va 0) as [->|]; [apply Z.bits_0|]. unfold addr in Hva.
      apply Z.bits_above_log2; [lia|]. apply Z.log2_lt_pow2; [lia|].
      eapply Z.lt_le_trans; [apply Hva|]. apply Z.pow_le_mono_r; lia.
Qed.

Lemma pg_round_down_div va : addr va → pg_round_down va = va / 4096 * 4096.
Proof. apply land_high. Qed.

Lemma pg_round_up_div va : 0 ≤ va ≤ 2 ^ 32 - 4096 → pg_round_up va = (va + 4095) / 4096 * 4096.
Proof.
  intros Hva. unfold pg_round_up. change PGSIZE with 4096.
  rewrite u32_id, land_high by (unfold addr; lia). do 2 f_equal. lia.
Qed.

Lemma pt_no_div va : pt_no va = (va / 2 ^ 12) mod 2 ^ 10.
Proof.
  unfold pt_no, PTSHIFT, PGBITS. rewrite Z.shiftr_land.
  change (Z.shiftr PTMASK 12) with (Z.ones 10). rewrite Z.land_ones, Z.shiftr_div_pow2; done.
Qed.

Lemma pd_no_div va : pd_no va = va / 2 ^ 22.
Proof. unfold pd_no. change PDSHIFT with 22. by rewrite Z.shiftr_div_pow2. Qed.

Lemma ptov_vtop pa : 0 ≤ pa < 2 ^ 30 → ∃ va, ptov pa = Ret va ∧ vtop va = Ret pa ∧ va = pa + PHYS_BASE.
Proof.
  intros Hpa. unfold ptov, vtop, is_kernel_vaddr, PHYS_BASE.
  rewrite (proj2 (Z.ltb_lt _ _)) by lia. eexists. split; [done|]. rewrite u32_id by lia.
  rewrite (proj2 (Z.leb_le _ _)) by lia. split; [|done]. cbn. unfold mret, outcome_ret. f_equal. lia.
Qed.

Lemma vtop_ptov va : PHYS_BASE ≤ va < 2 ^ 32 → ∃ pa, vtop va = Ret pa ∧ ptov pa = Ret va ∧ pa = va - PHYS_BASE.
Proof.
  unfold PHYS_BASE. intros Hva. destruct (ptov_vtop (va - 0xc0000000)) as (va' & H1 & H2 & ->); [lia|].
  unfold PHYS_BASE in *. replace (va - 0xc0000000 + 0xc0000000) with va in * by lia. eauto.
Qed.

(** Flag bits below the page number do not disturb the address. *)
Lemma lor_low_high a f : a mod 4096 = 0 → 0 ≤ a < 2 ^ 32 → 0 ≤ f < 4096 →
  Z.land (Z.lor a f) PTE_ADDR = a ∧ Z.land (Z.lor a f) PTE_FLAGS = f.
Proof.
  intros Ha Hr Hf. change PTE_ADDR with (u32 (Z.lnot PGMASK)). change PTE_FLAGS with (Z.ones 12).
  assert (Z.land a f = 0) as Hd.
  { apply Z.bits_inj_0. intros j. rewrite Z.land_spec. destruct (Z.ltb_spec j 12).
    - destruct (Z.ltb_spec j 0); [by rewrite Z.testbit_neg_r|].
      replace a with (a / 4096 * 2 ^ 12) by zlia. by rewrite Z.mul_pow2_bits_low.
    - rewrite (Z.bits_above_log2 f j), andb_false_r; [done|lia|].
      destruct (Z.eq_dec f 0) as [->|]; [cbn; lia|]. apply Z.log2_lt_pow2; [lia|].
      eapply Z.lt_le_trans; [apply Hf|]. change 4096 with (2 ^ 12). apply Z.pow_le_mono_r; lia. }
  assert (Z.lor a f = a + f) as -> by (pose proof (Z.add_lor_land a f); lia).
  split; [rewrite land_high by (unfold addr; zlia); zlia|]. rewrite Z.land_ones by lia.
  change (2 ^ 12) with 4096. zlia.
Qed.

(** ** The properties *)

(** An address is its page directory index, page table index and offset,
    each in range, and rounding gives the page boundary below or above. *)
Theorem address_decomposition va :
  0 ≤ va ≤ 2 ^ 32 - 4096 →
  va = pd_no va * 2 ^ 22 + pt_no va * 2 ^ 12 + pg_ofs va ∧
  0 ≤ pd_no va < 1024 ∧ 0 ≤ pt_no va < 1024 ∧ 0 ≤ pg_ofs va < PGSIZE ∧
  pg_round_down va = pg_no va * PGSIZE ∧
  pg_round_down va ≤ va < pg_round_down va + PGSIZE ∧
  va ≤ pg_round_up va < va + PGSIZE ∧ pg_ofs (pg_round_up va) = 0.
Proof.
  intros Hva. rewrite pg_round_down_div, pg_round_up_div, pd_no_div, pt_no_div by (unfold addr; lia).
  rewrite !pg_ofs_mod, pg_no_div. change PGSIZE with 4096.
  change (2 ^ 22) with 4194304. change (2 ^ 12) with 4096. change (2 ^ 10) with 1024.
  change (2 ^ 32) with 4294967296 in Hva.
  assert (va / 4194304 = va / 4096 / 1024) as -> by (by rewrite Z.div_div).
  split_and!; zlia.
Qed.

Lemma address_decomposition_witness :
  let va := 0xc0001234 in
  va = pd_no va * 2 ^ 22 + pt_no va * 2 ^ 12 + pg_ofs va ∧
  0 ≤ pd_no va < 1024 ∧ 0 ≤ pt_no va < 1024 ∧ 0 ≤ pg_ofs va < PGSIZE ∧
  pg_round_down va = pg_no va * PGSIZE ∧
  pg_round_down va ≤ va < pg_round_down va + PGSIZE ∧
  va ≤ pg_round_up va < va + PGSIZE ∧ pg_ofs (pg_round_up va) = 0.
Proof. apply (address_decomposition 0xc0001234). lia. Defined.

(** A page table or directory entry gives back the page it was made from,
    is present, and carries exactly the write and user permissions asked
    for. *)
Theorem page_entry_round_trip page w :
  PHYS_BASE ≤ page < 2 ^ 32 → page mod 4096 = 0 →
  (∃ pde, pde_create page = Ret pde ∧ pde_get_pt pde = Ret page) ∧
  (∃ e, pte_create_user page w = Ret e ∧ pte_get_page e = Ret page ∧
     Z.land e PTE_FLAGS = PTE_P + PTE_U + (if w then PTE_W else 0)) ∧
  (∃ e, pte_create_kernel page w = Ret e ∧ pte_get_page e = Ret page ∧
     Z.land e PTE_FLAGS = PTE_P + (if w then PTE_W else 0)).
Proof.
  intros Hp Ha. destruct (vtop_ptov page Hp) as (pa & Hv & Hpv & Epa). unfold PHYS_BASE in *.
  assert (pa mod 4096 = 0 ∧ 0 ≤ pa < 2 ^ 32) as [Hm Hr] by (subst pa; split; zlia).
  unfold pte_create_user, pde_create, pte_create_kernel, pde_get_pt, pte_get_page.
  rewrite pg_ofs_mod, Ha. change (0 =? 0) with true. cbn [ASSERT mbind outcome_bind].
  rewrite Hv. cbn [mbind outcome_bind mret outcome_ret].
  split; [|split]; eexists; (split; [reflexivity|]).
  - change (Z.lor PTE_U (Z.lor PTE_P PTE_W)) with 7.
    destruct (lor_low_high pa 7 Hm Hr) as [-> Hf]; [lia|].
    assert (Z.land (Z.lor pa 7) PTE_P = 1) as ->.
    { rewrite Z.land_lor_distr_l. change (Z.land 7 PTE_P) with 1. change PTE_P with (Z.ones 1).
      rewrite Z.land_ones by lia. replace (pa mod 2 ^ 1) with 0 by zlia. done. }
    done.
  - rewrite <-Z.lor_assoc. destruct w.
    + change (Z.lor (Z.lor PTE_P PTE_W) PTE_U) with 7.
      destruct (lor_low_high pa 7 Hm Hr) as [-> ->]; [lia|done].
    + change (Z.lor (Z.lor PTE_P 0) PTE_U) with 5.
      destruct (lor_low_high pa 5 Hm Hr) as [-> ->]; [lia|done].
  - destruct w.
    + change (Z.lor PTE_P PTE_W) with 3.
      destruct (lor_low_high pa 3 Hm Hr) as [-> ->]; [lia|done].
    + change (Z.lor PTE_P 0) with 1.
      destruct (lor_low_high pa 1 Hm Hr) as [-> ->]; [lia|done].
Qed.

Lemma page_entry_round_trip_witness :
  (∃ pde, pde_create 0xc0105000 = Ret pde ∧ pde_get_pt pde = Ret 0xc0105000) ∧
  (∃ e, pte_create_user 0xc0105000 true = Ret e ∧ pte_get_page e = Ret 0xc0105000 ∧
     Z.land e PTE_FLAGS = PTE_P + PTE_U + PTE_W) ∧
  (∃ e, pte_create_kernel 0xc0105000 true = Ret e ∧ pte_get_page e = Ret 0xc0105000 ∧
     Z.land e PTE_FLAGS = PTE_P + PTE_W).
Proof. apply (page_entry_round_trip 0xc0105000 true); [unfold PHYS_BASE; lia|reflexivity]. Defined.
