(* ===== verification/Palloc.v ===== *)
(** * The page allocator: [threads/palloc.c]

    Two pools, one for the kernel and one for user pages, each a base address
    and a bitmap of the pages in use.  The operations are total functions of
    the two pools and of memory, whose bytes they fill; a failed assertion, a
    [PANIC] or [NOT_REACHED] stops the kernel.  The bitmap updates are atomic
    under the pool's lock and are one step here.  The allocator is proved
    against a specification by the set of outstanding blocks. *)

From stdpp Require Import base tactics list numbers option sets.
From Stdlib Require Import ZArith Lia.
From S2P Require Import Prelude Bitmap Vaddr.

(** ** State *)

Record pool : Type := Pool {
  used_map : bitmap;
  base : Z
}.

Record pstate : Type := PState {
  kernel_pool : pool;
  user_pool : pool;
  mem : Z → Z
}.

Definition PAL_ASSERT : Z := 1.
Definition PAL_ZERO : Z := 2.
Definition PAL_USER : Z := 4.

Definition flag (flags f : Z) : bool := negb (Z.land flags f =? 0).

Definition get_pool (user : bool) (s : pstate) : pool :=
  if user then user_pool s else kernel_pool s.

Definition set_pool (user : bool) (p : pool) (s : pstate) : pstate :=
  if user then PState (kernel_pool s) p (mem s) else PState p (user_pool s) (mem s).

(** [memset] on the bytes of memory. *)
Definition memset (dst value size : Z) (s : pstate) : pstate :=
  PState (kernel_pool s) (user_pool s)
    (λ a, if (dst <=? a) && (a <? dst + size) then value else mem s a).

Definition lift {S A} (o : outcome A) : st S A :=
  λ s, match o with Ret a => Ret (a, s) | Panic => Panic | Diverge => Diverge end.

(** ** Operations *)

Definition page_from_pool (p : pool) (page : Z) : bool :=
  let page_no := pg_no page in
  let start_page := pg_no (base p) in
  let end_page := u32 (start_page + bitmap_size (used_map p)) in
  (start_page <=? page_no) && (page_no <? end_page).

(** The null pointer is 0. *)
Definition palloc_get_multiple (flags page_cnt : Z) : st pstate Z :=
  let user := flag flags PAL_USER in
  if page_cnt =? 0 then mret 0
  else
    p ← gets (get_pool user);
    '(page_idx, m) ← lift (bitmap_scan_and_flip (used_map p) 0 page_cnt false);
    modifyS (set_pool user (Pool m (base p)));;
    let pages := if negb (page_idx =? BITMAP_ERROR) then u32 (base p + PGSIZE * page_idx) else 0 in
    if negb (pages =? 0) then
      (if flag flags PAL_ZERO then modifyS (memset pages 0 (u32 (PGSIZE * page_cnt))) else mret tt);;
      mret pages
    else
      (if flag flags PAL_ASSERT then panicS else mret tt);;
      mret pages.

Definition palloc_get_page (flags : Z) : st pstate Z := palloc_get_multiple flags 1.

Definition palloc_free_multiple (pages page_cnt : Z) : st pstate unit :=
  assertS (pg_ofs pages =? 0);;
  if (pages =? 0) || (page_cnt =? 0) then mret tt
  else
    k ← gets kernel_pool; u ← gets user_pool;
    user ← (if page_from_pool k pages then mret false
            else if page_from_pool u pages then mret true
            else panicS);
    p ← gets (get_pool user);
    let page_idx := pg_no pages - pg_no (base p) in
    modifyS (memset pages 0xcc (u32 (PGSIZE * page_cnt)));;
    all ← lift (bitmap_all (used_map p) page_idx page_cnt);
    assertS all;;
    m ← lift (bitmap_set_multiple (used_map p) page_idx page_cnt false);
    modifyS (set_pool user (Pool m (base p))).

Definition palloc_free_page (page : Z) : st pstate unit := palloc_free_multiple page 1.

(** [junk] is what the memory of the bitmap holds. *)
Definition init_pool (base page_cnt : Z) (junk : list Z) : outcome pool :=
  let bm_pages := u32 (bitmap_buf_size page_cnt + PGSIZE - 1) / PGSIZE in
  if page_cnt <? bm_pages then Panic
  else
    let page_cnt := page_cnt - bm_pages in
    m ← bitmap_create_in_buf page_cnt (take (Z.to_nat (elem_cnt page_cnt)) junk)
          (u32 (bm_pages * PGSIZE));
    mret (Pool m (u32 (base + bm_pages * PGSIZE))).

Definition palloc_init (init_ram_pages user_page_limit : Z) (junk : list Z) (mem : Z → Z)
    : outcome pstate :=
  free_start ← ptov (1024 * 1024);
  free_end ← ptov (u32 (init_ram_pages * PGSIZE));
  let free_pages := u32 (free_end - free_start) / PGSIZE in
  let user_pages := free_pages / 2 in
  let user_pages := if user_page_limit <? user_pages then user_page_limit else user_pages in
  let kernel_pages := free_pages - user_pages in
  k ← init_pool free_start kernel_pages junk;
  u ← init_pool (u32 (free_start + kernel_pages * PGSIZE)) user_pages junk;
  mret (PState k u mem).

(** ** Specification *)

(** The number of the first page of a pool. *)
Definition first (p : pool) : Z := base p / 4096.
Definition pages (p : pool) : Z := bit_cnt (used_map p).

Record wf_pool (p : pool) : Prop := WfPool {
  wp_map : wf (used_map p);
  wp_align : base p mod 4096 = 0;
  wp_pos : 0 < base p;
  wp_end : base p + 4096 * pages p ≤ 2 ^ 32
}.

Record wf_state (s : pstate) : Prop := WfState {
  ws_kernel : wf_pool (kernel_pool s);
  ws_user : wf_pool (user_pool s);
  ws_disjoint : first (kernel_pool s) + pages (kernel_pool s) ≤ first (user_pool s)
}.

(** Page number [n] is in the pool and in use. *)
Definition pool_used (p : pool) (n : Z) : bool :=
  (first p <=? n) && (n <? first p + pages p) && bit (used_map p) (n - first p).

Definition used (s : pstate) (n : Z) : bool :=
  pool_used (kernel_pool s) n || pool_used (user_pool s) n.

(** A block of pages as page numbers. *)
Definition in_block (b : Z * Z) (n : Z) : bool := (b.1 / 4096 <=? n) && (n <? b.1 / 4096 + b.2).

Lemma pool_used_bit p i : 0 ≤ i < pages p → pool_used p (first p + i) = bit (used_map p) i.
Proof.
  intros Hi. unfold pool_used.
  rewrite (proj2 (Z.leb_le _ _)), (proj2 (Z.ltb_lt _ _)) by lia. cbn. f_equal. lia.
Qed.

(** ** One pool at a time *)

Lemma wf_get_pool user s : wf_state s → wf_pool (get_pool user s).
Proof. intros []. by destruct user. Qed.

(** Replacing the bitmap of a pool by one of the same size. *)
Lemma wf_set_pool user s m :
  wf_state s → wf m → bit_cnt m = pages (get_pool user s) →
  wf_state (set_pool user (Pool m (base (get_pool user s))) s).
Proof.
  intros [Hk Hu Hd] Hm Hc. destruct user; cbn in *.
  - split; [done| |done]. destruct Hu. split; [done..|]. unfold pages in *. cbn. by rewrite Hc.
  - split; [|done|].
    + destruct Hk. split; [done..|]. unfold pages in *. cbn. by rewrite Hc.
    + unfold first, pages in *. cbn in *. by rewrite Hc.
Qed.

Lemma used_pools user s n :
  used s n = pool_used (get_pool user s) n || pool_used (get_pool (negb user) s) n.
Proof. unfold used. destruct user; cbn; [apply orb_comm|done]. Qed.

(** A page belongs to at most one pool. *)
Lemma other_pool_unused user s n :
  wf_state s → first (get_pool user s) ≤ n < first (get_pool user s) + pages (get_pool user s) →
  pool_used (get_pool (negb user) s) n = false.
Proof.
  intros [Hk Hu Hd] Hn. destruct (wp_map _ Hk) as [? _ _], (wp_map _ Hu) as [? _ _].
  unfold pool_used, pages in *.
  destruct user; cbn in *; [rewrite (proj2 (Z.ltb_ge n _)) by lia|rewrite (proj2 (Z.leb_gt _ n)) by lia];
    by rewrite ?andb_false_r.
Qed.

(** Pages of a block, and their positions in the pool. *)
Lemma block_index p idx cnt n :
  wf_pool p → in_block (base p + 4096 * idx, cnt) n = in_range idx cnt (n - first p).
Proof.
  intros [_ Ha _ _]. unfold in_block, in_range, first. cbn [fst snd].
  replace ((base p + 4096 * idx) / 4096) with (base p / 4096 + idx) by zlia.
  destruct (Z.leb_spec (base p / 4096 + idx) n), (Z.leb_spec idx (n - base p / 4096)),
    (Z.ltb_spec n (base p / 4096 + idx + cnt)), (Z.ltb_spec (n - base p / 4096) (idx + cnt));
    cbn; done || lia.
Qed.

(** Setting a group of bits of one pool sets the pages of a block. *)
Lemma used_set_group user s m idx cnt v :
  let p := get_pool user s in
  wf_state s → bit_cnt m = pages p → 0 ≤ idx → idx + cnt ≤ pages p →
  (∀ j, 0 ≤ j → bit m j = if in_range idx cnt j then v else bit (used_map p) j) →
  ∀ n, used (set_pool user (Pool m (base p)) s) n =
         if in_block (base p + 4096 * idx, cnt) n then v else used s n.
Proof.
  intros p Hs Hc Hi Hn Hb n. pose proof (wf_get_pool user s Hs) as Hp. fold p in Hp.
  rewrite (used_pools user (set_pool _ _ _)), (used_pools user s), block_index by done. fold p.
  assert (get_pool user (set_pool user (Pool m (base p)) s) = Pool m (base p)) as -> by (by destruct user).
  assert (get_pool (negb user) (set_pool user (Pool m (base p)) s) = get_pool (negb user) s) as ->
    by (by destruct user).
  unfold pool_used at 1 3. unfold pages at 1. cbn [used_map]. rewrite Hc.
  change (first (Pool m (base p))) with (first p).
  destruct (Z.leb_spec (first p) n); cbn [andb].
  - rewrite Hb by lia. destruct (Z.ltb_spec n (first p + pages p)); cbn [andb].
    + destruct (in_range idx cnt (n - first p)); [|done].
      rewrite (other_pool_unused user s n Hs) by (fold p; lia). apply orb_false_r.
    + unfold in_range. rewrite (proj2 (Z.ltb_ge _ (idx + cnt))) by lia. by rewrite andb_false_r.
  - unfold in_range. by rewrite (proj2 (Z.leb_gt idx _)) by lia.
Qed.

(** ** Allocation *)

(** The block fits in the pool. *)
Definition block_in (p : pool) (b : Z * Z) : Prop :=
  b.1 mod 4096 = 0 ∧ 0 < b.2 ∧ first p ≤ b.1 / 4096 ∧ b.1 / 4096 + b.2 ≤ first p + pages p.

Definition zeroed (flags a cnt : Z) (m m' : Z → Z) : Prop :=
  ∀ x, m' x = if flag flags PAL_ZERO && (a <=? x) && (x <? a + 4096 * cnt) then 0 else m x.

Lemma flip_block user s idx cnt m :
  let p := get_pool user s in
  wf_state s → 0 < cnt → 0 ≤ idx → idx + cnt ≤ pages p →
  block_in p (base p + 4096 * idx, cnt) ∧ base p + 4096 * idx + 4096 * cnt ≤ 2 ^ 32 ∧
  0 < base p + 4096 * idx ∧
  (group_is (used_map p) idx cnt m ↔
     ∀ n, in_block (base p + 4096 * idx, cnt) n = true → used s n = m).
Proof.
  intros p Hs Hcnt Hi Hn. pose proof (wf_get_pool user s Hs) as Hp. fold p in Hp.
  pose proof Hp as [Hm Ha Hpos Hend]. split_and!; [|lia..|].
  - unfold block_in, first. cbn [fst snd]. split_and!; zlia.
  - split.
    + intros Hg n Hin. rewrite block_index in Hin by done.
      unfold in_range in Hin. apply andb_true_iff in Hin as [H1%Z.leb_le H2%Z.ltb_lt].
      rewrite (used_pools user). fold p. rewrite (other_pool_unused user s n Hs) by (fold p; lia).
      rewrite orb_false_r. replace n with (first p + (n - first p)) by lia.
      rewrite pool_used_bit by lia. apply Hg. lia.
    + intros Hall j Hj. specialize (Hall (first p + j)).
      rewrite block_index in Hall by done. replace (first p + j - first p) with j in Hall by lia.
      unfold in_range in Hall. rewrite (proj2 (Z.leb_le _ _)), (proj2 (Z.ltb_lt _ _)) in Hall by lia.
      rewrite (used_pools user) in Hall. fold p in Hall.
      rewrite (other_pool_unused user s) in Hall by (fold p; done || lia).
      rewrite orb_false_r, pool_used_bit in Hall by lia. by apply Hall.
Qed.

(** What [palloc_get_multiple] may do from a well-formed state. *)
Definition get_result (flags cnt : Z) (s : pstate) (r : outcome (Z * pstate)) : Prop :=
  let p := get_pool (flag flags PAL_USER) s in
  (∃ a s', r = Ret (a, s') ∧ 0 < a ∧ wf_state s' ∧ block_in p (a, cnt) ∧
     pages (kernel_pool s') = pages (kernel_pool s) ∧ first (kernel_pool s') = first (kernel_pool s) ∧
     pages (user_pool s') = pages (user_pool s) ∧ first (user_pool s') = first (user_pool s) ∧
     (∀ n, in_block (a, cnt) n = true → used s n = false) ∧
     (∀ n, used s' n = in_block (a, cnt) n || used s n) ∧
     zeroed flags a cnt (mem s) (mem s')) ∨
  ((∀ a, block_in p (a, cnt) → ∃ n, in_block (a, cnt) n = true ∧ used s n = true) ∧
   if flag flags PAL_ASSERT then r = Panic
   else ∃ s', r = Ret (0, s') ∧ wf_state s' ∧
     pages (kernel_pool s') = pages (kernel_pool s) ∧ first (kernel_pool s') = first (kernel_pool s) ∧
     pages (user_pool s') = pages (user_pool s) ∧ first (user_pool s') = first (user_pool s) ∧
     (∀ n, used s' n = used s n) ∧ mem s' = mem s).

Lemma set_pool_shape user s m :
  bit_cnt m = pages (get_pool user s) →
  let s' := set_pool user (Pool m (base (get_pool user s))) s in
  pages (kernel_pool s') = pages (kernel_pool s) ∧ first (kernel_pool s') = first (kernel_pool s) ∧
  pages (user_pool s') = pages (user_pool s) ∧ first (user_pool s') = first (user_pool s) ∧
  mem s' = mem s.
Proof. by destruct user. Qed.

(** A block with a page in use is not a group of clear bits. *)
Lemma no_group_no_block user s cnt :
  let p := get_pool user s in
  wf_state s → 0 < cnt →
  (∀ i, 0 ≤ i → i + cnt ≤ pages p → ¬ group_is (used_map p) i cnt false) →
  ∀ a, block_in p (a, cnt) → ∃ n, in_block (a, cnt) n = true ∧ used s n = true.
Proof.
  intros p Hs Hcnt Hno a (Ha & _ & H1 & H2). cbn [fst snd] in *.
  pose proof (wf_get_pool user s Hs) as Hp. fold p in Hp. pose proof Hp as [Hm Hal Hpos Hend].
  set (i := a / 4096 - first p). assert (a = base p + 4096 * i) as Ea by (unfold i, first; zlia).
  destruct (bitmap_contains_ok (used_map p) i cnt true) as (r & _ & Hr); [done|unfold i, pages in *; lia..|].
  destruct r.
  - destruct (proj1 Hr eq_refl) as (j & Hj & Ej). exists (first p + j). split.
    + rewrite Ea, block_index by done. unfold in_range.
      by rewrite (proj2 (Z.leb_le _ _)), (proj2 (Z.ltb_lt _ _)) by lia.
    + rewrite (used_pools user). fold p.
      by rewrite pool_used_bit, Ej by (unfold i in Hj; lia).
  - exfalso. apply (Hno i); [unfold i; lia..|]. intros j Hj.
    destruct (bit (used_map p) j) eqn:Ej; [|done]. symmetry. apply Hr. by exists j.
Qed.

Lemma palloc_get_ok flags cnt s :
  wf_state s → 0 < cnt < 2 ^ 32 → get_result flags cnt s (palloc_get_multiple flags cnt s).
Proof.
  intros Hs Hcnt.
  set (user := flag flags PAL_USER). set (p := get_pool user s).
  pose proof (wf_get_pool user s Hs) as Hp. fold p in Hp. pose proof (wp_map _ Hp) as Hm.
  destruct (bitmap_scan_and_flip_ok (used_map p) 0 cnt false) as (idx & m & Hr & Hres & Hwm & Hcm & Hbm);
    [done|pose proof (wf_cnt _ Hm); lia|lia|].
  change (bit_cnt (used_map p)) with (pages p) in *.
  pose proof (set_pool_shape user s m Hcm) as Hshape. fold p in Hshape. cbn zeta in Hshape.
  pose proof (wf_set_pool user s m Hs Hwm Hcm) as Hs1. fold p in Hs1.
  set (s1 := set_pool _ _ _) in *. unfold palloc_get_multiple.
  rewrite (proj2 (Z.eqb_neq cnt 0)) by lia. fold user.
  rewrite (st_bind_ret _ _ s p s) by done.
  rewrite (st_bind_ret _ _ s (idx, m) s) by (unfold lift; by rewrite Hr).
  rewrite (st_bind_ret _ _ s tt s1) by done. unfold get_result. fold user. fold p.
  destruct Hshape as (E1 & E2 & E3 & E4 & E5).
  destruct Hres as [(H0 & Hin & Hg & _)|[-> Hno]].
  - left. change (bit_cnt (used_map p)) with (pages p) in Hin.
    assert (idx ≠ BITMAP_ERROR) as Hne.
    { pose proof (wf_cnt _ Hm). unfold BITMAP_ERROR, SIZE_MAX, pages in *. lia. }
    rewrite (proj2 (Z.eqb_neq _ _) Hne) in *. cbn [negb andb] in *.
    destruct (flip_block user s idx cnt false Hs) as (Hblk & Hend & Hpos & Hfree); [lia|done..|].
    fold p in Hblk, Hend, Hpos, Hfree.
    change PGSIZE with 4096. rewrite u32_id by lia. rewrite (proj2 (Z.eqb_neq _ 0)) by lia. cbn [negb].
    exists (base p + 4096 * idx).
    assert (∀ n, used s1 n = in_block (base p + 4096 * idx, cnt) n || used s n) as Hused.
    { intros n. rewrite (used_set_group user s m idx cnt true) by done. fold p.
      by destruct (in_block _ n). }
    unfold zeroed. destruct (flag flags PAL_ZERO).
    + eexists. split; [reflexivity|]. cbn [kernel_pool user_pool mem memset].
      rewrite u32_id by lia. split_and!; [lia|by destruct Hs1|done..|by apply Hfree|done|].
      intros x. by rewrite E5.
    + exists s1. split_and!; [done|lia|done..|by apply Hfree|done|]. intros x. by rewrite E5.
  - right. split.
    { apply (no_group_no_block user s cnt Hs); [lia|]. fold p. intros i Hi Hi'. by apply Hno. }
    rewrite Z.eqb_refl. cbn [negb]. rewrite Z.eqb_refl. cbn [negb].
    destruct (flag flags PAL_ASSERT); [done|]. exists s1. split_and!; [done..| |done].
    intros n. rewrite Z.eqb_refl in Hbm. cbn [negb andb] in Hbm. pose proof (wf_cnt _ Hm).
    rewrite (used_set_group user s m 0 0 false); [|done|done|done|fold p; unfold pages; lia|].
    + fold p. rewrite block_index by done. unfold in_range.
      by destruct (Z.leb_spec 0 (n - first p)), (Z.ltb_spec (n - first p) (0 + 0)); try lia.
    + fold p. intros j Hj. rewrite Hbm by done. unfold in_range.
      by destruct (Z.leb_spec 0 j), (Z.ltb_spec j (0 + 0)); try lia.
Qed.

(** ** Freeing *)

Lemma page_from_pool_in p a :
  wf_pool p → addr a → page_from_pool p a = (first p <=? a / 4096) && (a / 4096 <? first p + pages p).
Proof.
  intros [Hm Ha Hpos Hend] Haddr. unfold page_from_pool, bitmap_size. rewrite !pg_no_div.
  pose proof (wf_cnt _ Hm). unfold first, pages, addr in *. rewrite u32_id by zlia. done.
Qed.

Lemma palloc_free_ok user s a cnt :
  wf_state s → block_in (get_pool user s) (a, cnt) →
  (∀ n, in_block (a, cnt) n = true → used s n = true) →
  ∃ s', palloc_free_multiple a cnt s = Ret (tt, s') ∧ wf_state s' ∧
    pages (kernel_pool s') = pages (kernel_pool s) ∧ first (kernel_pool s') = first (kernel_pool s) ∧
    pages (user_pool s') = pages (user_pool s) ∧ first (user_pool s') = first (user_pool s) ∧
    (∀ n, used s' n = negb (in_block (a, cnt) n) && used s n) ∧
    (∀ x, mem s' x = if (a <=? x) && (x <? a + 4096 * cnt) then 0xcc else mem s x).
Proof.
  intros Hs Hblk Hused. set (p := get_pool user s) in *.
  pose proof (wf_get_pool user s Hs) as Hp. fold p in Hp. pose proof Hp as [Hm Hal Hpos Hend].
  destruct Hblk as (Ha & Hcnt & H1 & H2). cbn [fst snd] in *. pose proof (wf_cnt _ Hm) as Hc.
  set (idx := a / 4096 - first p). assert (a = base p + 4096 * idx) as Ea by (unfold idx, first; zlia).
  assert (0 ≤ idx ∧ idx + cnt ≤ pages p) as [Hi Hn] by (unfold idx; lia).
  destruct (flip_block user s idx cnt true Hs) as (_ & Hend' & Hpos' & Hall); [done..|].
  fold p in Hend', Hpos', Hall. rewrite <-Ea in *. destruct Hall as [_ Hall]. specialize (Hall Hused).
  unfold palloc_free_multiple. rewrite pg_ofs_mod, Ha. st_assert.
  rewrite (proj2 (Z.eqb_neq a 0)), (proj2 (Z.eqb_neq cnt 0)) by lia. cbn [orb].
  rewrite (st_bind_ret _ _ s (kernel_pool s) s), (st_bind_ret _ _ s (user_pool s) s) by done.
  rewrite (st_bind_ret _ _ s user s); [|].
  2: { rewrite !page_from_pool_in by (try apply Hs; unfold addr; lia).
    destruct Hs as [Hk Hu Hd]. unfold p in *. destruct user; cbn [get_pool] in *.
    - rewrite (proj2 (Z.ltb_ge (a / 4096) (first (kernel_pool s) + _))), andb_false_r by lia.
      by rewrite (proj2 (Z.leb_le _ _)), (proj2 (Z.ltb_lt _ _)) by lia.
    - by rewrite (proj2 (Z.leb_le _ _)), (proj2 (Z.ltb_lt _ _)) by lia. }
  rewrite (st_bind_ret _ _ s p s) by done. rewrite !pg_no_div. fold (first p). fold idx.
  change PGSIZE with 4096. rewrite u32_id by lia.
  rewrite (st_bind_ret _ _ s tt (memset a 0xcc (4096 * cnt) s)) by done.
  destruct (bitmap_contains_ok (used_map p) idx cnt false) as (r & Hr & Hr'); [done|lia|lia|done|].
  assert (r = false) as ->.
  { destruct r; [|done]. destruct (proj1 Hr' eq_refl) as (j & Hj & Ej). by rewrite (Hall j Hj) in Ej. }
  erewrite st_bind_ret; [|unfold lift, bitmap_all; by rewrite Hr]. st_assert.
  destruct (bitmap_set_multiple_ok (used_map p) idx cnt false) as (m & Hset & Hwm & Hcm & Hbm); [done|lia|lia|done|].
  erewrite st_bind_ret; [|unfold lift; by rewrite Hset].
  pose proof (wf_set_pool user s m Hs Hwm Hcm) as Hs1. fold p in Hs1.
  destruct (set_pool_shape user s m Hcm) as (E1 & E2 & E3 & E4 & _).
  pose proof (used_set_group user s m idx cnt false Hs Hcm Hi Hn Hbm) as Hu. fold p in Hu.
  exists (set_pool user (Pool m (base p)) (memset a 0xcc (4096 * cnt) s)).
  split; [done|]. destruct user; cbn [set_pool kernel_pool user_pool memset mem] in *;
    (split_and!; [by destruct Hs1|done..| |done]); intros n; rewrite <-Ea in Hu;
    etransitivity; [apply (Hu n)|by destruct (in_block (a, cnt) n)|
                    apply (Hu n)|by destruct (in_block (a, cnt) n)].
Qed.

(** ** Traces *)

(** The allocator together with the blocks callers hold. *)
Definition cfg : Type := pstate * list (Z * Z).

Inductive palloc_step : cfg → cfg → Prop :=
| step_get flags cnt a s s' A :
    0 < cnt < 2 ^ 32 → palloc_get_multiple flags cnt s = Ret (a, s') → a ≠ 0 →
    palloc_step (s, A) (s', (a, cnt) :: A)
| step_get_fails flags cnt s s' A :
    0 < cnt < 2 ^ 32 → palloc_get_multiple flags cnt s = Ret (0, s') →
    palloc_step (s, A) (s', A)
| step_free a cnt s s' A1 A2 :
    palloc_free_multiple a cnt s = Ret (tt, s') →
    palloc_step (s, A1 ++ (a, cnt) :: A2) (s', A1 ++ A2).

(** How many of the blocks contain page [n]. *)
Definition blocks_at (n : Z) (A : list (Z * Z)) : nat := length (filter (λ b, in_block b n) A).

(** The pages in use are those of the blocks held, which do not overlap and
    lie in a pool. *)
Record palloc_inv (c : cfg) : Prop := PallocInv {
  pi_wf : wf_state c.1;
  pi_in : ∀ b, b ∈ c.2 → ∃ user, block_in (get_pool user c.1) b;
  pi_count : ∀ n, blocks_at n c.2 = if used c.1 n then 1%nat else 0%nat
}.

Lemma blocks_at_cons n b A : blocks_at n (b :: A) = ((if in_block b n then 1 else 0) + blocks_at n A)%nat.
Proof. unfold blocks_at. rewrite filter_cons. by destruct (in_block b n). Qed.

Lemma blocks_at_middle n b A1 A2 : blocks_at n (A1 ++ b :: A2) = blocks_at n (b :: A1 ++ A2).
Proof. unfold blocks_at. by rewrite <-Permutation_middle. Qed.

(** Operations move no pool. *)
Lemma block_in_shape user s s' b :
  pages (kernel_pool s') = pages (kernel_pool s) → first (kernel_pool s') = first (kernel_pool s) →
  pages (user_pool s') = pages (user_pool s) → first (user_pool s') = first (user_pool s) →
  block_in (get_pool user s) b → block_in (get_pool user s') b.
Proof. intros E1 E2 E3 E4. unfold block_in. destruct user; cbn; by rewrite ?E1, ?E2, ?E3, ?E4. Qed.

Lemma held_block_used s A1 a cnt A2 :
  palloc_inv (s, A1 ++ (a, cnt) :: A2) →
  ∀ n, in_block (a, cnt) n = true → used s n = true ∧ blocks_at n (A1 ++ A2) = 0%nat.
Proof.
  intros [_ _ Hc] n Hn. specialize (Hc n). cbn [fst snd] in Hc.
  rewrite blocks_at_middle, blocks_at_cons, Hn in Hc. destruct (used s n); split; done || lia.
Qed.

Lemma palloc_step_inv c c' : palloc_inv c → palloc_step c c' → palloc_inv c'.
Proof.
  intros Hinv Hst. destruct Hst as [flags cnt a s s' A Hcnt Hr Ha|flags cnt s s' A Hcnt Hr|a cnt s s' A1 A2 Hr].
  - destruct Hinv as [Hs Hin Hc]. cbn [fst snd] in *. pose proof (palloc_get_ok flags cnt s Hs Hcnt) as Hg.
    rewrite Hr in Hg. destruct Hg as [(a' & s1 & [= <- <-] & _ & Hs' & Hb & E1 & E2 & E3 & E4 & Hfree & Hu & _)|[_ Hg]].
    + split; [done| |].
      * intros b [->|Hb']%elem_of_cons; [eexists; by eapply block_in_shape|].
        destruct (Hin b Hb') as [u ?]. exists u. by eapply block_in_shape.
      * intros n. cbn [fst snd]. rewrite blocks_at_cons, Hc, Hu. specialize (Hfree n).
        destruct (in_block (a, cnt) n); [by rewrite Hfree|done].
    + destruct (flag flags PAL_ASSERT); [done|]. by destruct Hg as (s1 & [= -> <-] & _).
  - destruct Hinv as [Hs Hin Hc]. cbn [fst snd] in *. pose proof (palloc_get_ok flags cnt s Hs Hcnt) as Hg.
    rewrite Hr in Hg. destruct Hg as [(a' & s1 & [= <- <-] & ? & _)|[_ Hg]]; [lia|].
    destruct (flag flags PAL_ASSERT); [done|].
    destruct Hg as (s1 & [= <-] & Hs' & E1 & E2 & E3 & E4 & Hu & _). split; [done| |].
    + intros b Hb'. destruct (Hin b Hb') as [u ?]. exists u. by eapply block_in_shape.
    + intros n. cbn [fst snd]. by rewrite Hc, Hu.
  - pose proof (held_block_used _ _ _ _ _ Hinv) as Hheld. destruct Hinv as [Hs Hin Hc]. cbn [fst snd] in *.
    destruct (Hin (a, cnt)) as [user Hb]; [set_solver|].
    destruct (palloc_free_ok user s a cnt Hs Hb) as (s1 & Hr' & Hs' & E1 & E2 & E3 & E4 & Hu & _);
      [intros; by apply Hheld|]. rewrite Hr in Hr'. injection Hr' as <-. split; [done| |].
    + intros b Hb'. destruct (Hin b) as [u ?]; [set_solver|]. exists u. by eapply block_in_shape.
    + intros n. cbn [fst snd]. rewrite Hu. specialize (Hc n). rewrite blocks_at_middle, blocks_at_cons in Hc.
      destruct (in_block (a, cnt) n) eqn:E; cbn; [by apply Hheld|done].
Qed.

(** ** Initialisation *)

Lemma init_pool_ok b cnt junk :
  0 < b → b mod 4096 = 0 → 0 < cnt ≤ 2 ^ 20 → b + 4096 * cnt < 2 ^ 32 →
  cnt ≤ 32 * Z.of_nat (length junk) → Forall (λ e, 0 ≤ e < 2 ^ 32) junk →
  ∃ p, init_pool b cnt junk = Ret p ∧ wf_pool p ∧ b / 4096 ≤ first p ∧
       first p + pages p = b / 4096 + cnt ∧ (∀ n, pool_used p n = false).
Proof.
  intros Hb Hal Hc Hend Hj Hjf. unfold init_pool. change PGSIZE with 4096.
  set (bm := u32 (bitmap_buf_size cnt + 4096 - 1) / 4096).
  assert (∀ n, 0 ≤ n ≤ 2 ^ 20 →
    ∃ w, bitmap_buf_size n = 8 + 4 * w ∧ elem_cnt n = w ∧ n ≤ 32 * w < n + 32) as Hbuf.
  { intros n Hn. exists ((n + 31) / 32). unfold bitmap_buf_size, byte_cnt.
    rewrite elem_cnt_eq by lia. rewrite (u32_id (4 * _)), u32_id by zlia. split_and!; zlia. }
  destruct (Hbuf cnt) as (w & Ebuf & _ & Hw); [lia|].
  assert (0 ≤ bm ≤ cnt ∧ bitmap_buf_size cnt ≤ bm * 4096) as [Hbm Hroom].
  { unfold bm. rewrite Ebuf, u32_id by lia. zlia. }
  destruct (Hbuf (cnt - bm)) as (w' & Ebuf' & Ew' & Hw'); [lia|].
  rewrite (proj2 (Z.ltb_ge cnt bm)) by lia.
  assert (wf (Bitmap (cnt - bm) (take (Z.to_nat (elem_cnt (cnt - bm))) junk))) as Hwf.
  { split; cbn [bit_cnt bits]; [lia| |by apply Forall_take].
    rewrite Ew', length_take, Nat.min_l by lia. lia. }
  destruct (bitmap_set_all_ok _ _ false Hwf) as (m & Hm & Hwm & Hcm & Hbits).
  assert (bitmap_buf_size (cnt - bm) ≤ bm * 4096) as Hsz by lia.
  unfold bitmap_create_in_buf. rewrite (u32_id (bm * 4096)) by lia.
  rewrite (proj2 (Z.leb_le _ _)) by done. cbn [ASSERT mbind outcome_bind]. rewrite Hm.
  eexists. split; [reflexivity|]. rewrite u32_id by lia. split; [|split; [|split]].
  - split; cbn; [done|zlia|lia|unfold pages; cbn; lia].
  - unfold first. cbn. zlia.
  - unfold first, pages. cbn. zlia.
  - intros n. unfold pool_used. destruct (Z.leb_spec (first (Pool m (b + bm * 4096))) n); [|done].
    destruct (Z.ltb_spec n (first (Pool m (b + bm * 4096)) + pages (Pool m (b + bm * 4096)))); [|done].
    cbn [andb]. apply Hbits. unfold pages in *. cbn in *. lia.
Qed.

(** ** The properties *)

(** C20: no page is ever handed out twice.  In every state reachable from a
    fresh allocator by allocations, failed allocations and releases of blocks
    that are held, the blocks held are page-aligned, lie inside a pool and do
    not overlap; releasing any of them succeeds, and allocating without
    [PAL_ASSERT] never stops the kernel. *)
Theorem palloc_never_overlaps s0 s A :
  wf_state s0 → (∀ n, used s0 n = false) → star palloc_step (s0, []) (s, A) →
  (∀ n, (blocks_at n A ≤ 1)%nat) ∧
  (∀ b, b ∈ A → ∃ user, block_in (get_pool user s) b) ∧
  (∀ b, b ∈ A → ∃ s', palloc_free_multiple b.1 b.2 s = Ret (tt, s')) ∧
  (∀ flags cnt, 0 < cnt < 2 ^ 32 → flag flags PAL_ASSERT = false →
     ∃ a s', palloc_get_multiple flags cnt s = Ret (a, s')).
Proof.
  intros Hs0 Hfree Hstar.
  assert (palloc_inv (s, A)) as Hinv.
  { eapply star_invariant; [exact palloc_step_inv| |exact Hstar].
    split; [done|set_solver|]. intros n. cbn [fst snd]. by rewrite Hfree. }
  pose proof Hinv as [Hs Hin Hc]. cbn [fst snd] in *. split_and!.
  - intros n. rewrite Hc. destruct (used s n); lia.
  - done.
  - intros [a cnt] Hb. destruct (Hin _ Hb) as [user Hblk].
    apply list_elem_of_split in Hb as (A1 & A2 & ->).
    destruct (palloc_free_ok user s a cnt Hs Hblk) as (s' & Hr & _); [|by exists s'].
    intros n Hn. by apply (held_block_used _ _ _ _ _ Hinv n Hn).
  - intros flags cnt Hcnt Hf. destruct (palloc_get_ok flags cnt s Hs Hcnt)
      as [(a & s' & Hr & _)|[_ Hr]]; [by eauto|]. rewrite Hf in Hr.
    destruct Hr as (s' & Hr & _). eauto.
Qed.

(** A small machine: 10 kernel pages from 1 MB and 6 user pages behind them. *)
Definition ex_pools : pstate :=
  PState (Pool (zeros 10) 0xc0100000) (Pool (zeros 6) 0xc010a000) (λ _, 0).

Lemma ex_pools_wf : wf_state ex_pools.
Proof.
  split; [split|split|done]; try done; split; try done; repeat constructor; done.
Qed.

Lemma ex_pools_free n : used ex_pools n = false.
Proof.
  assert (∀ i, bit (zeros 10) i = false) as H10.
  { intros i. unfold bit. cbn. destruct (Z.to_nat (i / 32)) as [|[|]]; apply Z.bits_0. }
  assert (∀ i, bit (zeros 6) i = false) as H6.
  { intros i. unfold bit. cbn. destruct (Z.to_nat (i / 32)) as [|[|]]; apply Z.bits_0. }
  unfold used, pool_used. cbn [kernel_pool user_pool ex_pools used_map].
  by rewrite H10, H6, !andb_false_r.
Qed.

Lemma palloc_never_overlaps_witness :
  ∃ s, let A := [(0xc0100000, 3)] in
  (∀ n, (blocks_at n A ≤ 1)%nat) ∧
  (∀ b, b ∈ A → ∃ user, block_in (get_pool user s) b) ∧
  (∀ b, b ∈ A → ∃ s', palloc_free_multiple b.1 b.2 s = Ret (tt, s')) ∧
  (∀ flags cnt, 0 < cnt < 2 ^ 32 → flag flags PAL_ASSERT = false →
     ∃ a s', palloc_get_multiple flags cnt s = Ret (a, s')).
Proof.
  eexists. apply (palloc_never_overlaps ex_pools _ [(0xc0100000, 3)]).
  - exact ex_pools_wf.
  - exact ex_pools_free.
  - eapply star_step; [|apply star_refl].
    apply (step_get 0 3); [lia|vm_compute; reflexivity|lia].
Defined.

(** An allocation succeeds exactly when its pool has that many contiguous
    free pages.  The block then is in the pool the flags select, was free, is
    marked used while every other page keeps its state, and is filled with
    zeros exactly when asked for; otherwise null is returned, nothing
    changes, and with [PAL_ASSERT] the kernel stops. *)
Theorem palloc_get_multiple_correct flags cnt s :
  wf_state s → 0 < cnt < 2 ^ 32 →
  let p := get_pool (flag flags PAL_USER) s in
  (∃ a s', palloc_get_multiple flags cnt s = Ret (a, s') ∧ 0 < a ∧ wf_state s' ∧
     block_in p (a, cnt) ∧ (∀ n, in_block (a, cnt) n = true → used s n = false) ∧
     (∀ n, used s' n = in_block (a, cnt) n || used s n) ∧
     zeroed flags a cnt (mem s) (mem s')) ∨
  ((∀ a, block_in p (a, cnt) → ∃ n, in_block (a, cnt) n = true ∧ used s n = true) ∧
   if flag flags PAL_ASSERT then palloc_get_multiple flags cnt s = Panic
   else ∃ s', palloc_get_multiple flags cnt s = Ret (0, s') ∧ wf_state s' ∧
          (∀ n, used s' n = used s n) ∧ mem s' = mem s).
Proof.
  intros Hs Hcnt p. destruct (palloc_get_ok flags cnt s Hs Hcnt)
    as [(a & s' & ? & ? & ? & ? & ? & ? & ? & ? & ? & ? & ?)|[Hno Hr]].
  - left. exists a, s'. split_and!; done.
  - right. split; [done|]. destruct (flag flags PAL_ASSERT); [done|].
    destruct Hr as (s' & ? & ? & ? & ? & ? & ? & ? & ?). by exists s'.
Qed.

Lemma palloc_get_multiple_correct_witness :
  (∃ a s', palloc_get_multiple 6 4 ex_pools = Ret (a, s') ∧ 0 < a ∧ wf_state s' ∧
     block_in (user_pool ex_pools) (a, 4) ∧
     (∀ n, in_block (a, 4) n = true → used ex_pools n = false) ∧
     (∀ n, used s' n = in_block (a, 4) n || used ex_pools n) ∧
     zeroed 6 a 4 (mem ex_pools) (mem s')) ∨
  ((∀ a, block_in (user_pool ex_pools) (a, 4) →
      ∃ n, in_block (a, 4) n = true ∧ used ex_pools n = true) ∧
   ∃ s', palloc_get_multiple 6 4 ex_pools = Ret (0, s') ∧ wf_state s' ∧
     (∀ n, used s' n = used ex_pools n) ∧ mem s' = mem ex_pools).
Proof. apply (palloc_get_multiple_correct 6 4 ex_pools); [exact ex_pools_wf|lia]. Defined.

(** [palloc_init] splits the memory above 1 MB into two disjoint,
    well-formed pools, all free, that together with their bitmaps cover it:
    at most the limit, and at most half, goes to the user pool. *)
Theorem palloc_init_correct ram limit junk m :
  257 < ram < 2 ^ 18 → 0 < limit → Forall (λ e, 0 ≤ e < 2 ^ 32) junk →
  ram ≤ 32 * Z.of_nat (length junk) →
  ∃ s, palloc_init ram limit junk m = Ret s ∧ wf_state s ∧ (∀ n, used s n = false) ∧
    mem s = m ∧
    first (user_pool s) + pages (user_pool s) = PHYS_BASE / 4096 + ram ∧
    pages (user_pool s) ≤ limit ∧ 2 * pages (user_pool s) ≤ ram - 256.
Proof.
  intros Hram Hlim Hj Hlen. unfold palloc_init, ptov, PHYS_BASE. change PGSIZE with 4096.
  change (1024 * 1024) with 1048576. cbn [ASSERT mbind outcome_bind].
  change (1048576 <? 0xc0000000) with true. cbn [ASSERT mbind outcome_bind mret outcome_ret].
  rewrite (u32_id (ram * 4096)) by lia. rewrite (proj2 (Z.ltb_lt (ram * 4096) _)) by lia.
  cbn [ASSERT mbind outcome_bind mret outcome_ret].
  rewrite (u32_id (1048576 + _)), (u32_id (ram * 4096 + _)) by lia.
  rewrite (u32_id (ram * 4096 + 0xc0000000 - _)) by lia.
  replace ((ram * 4096 + 0xc0000000 - (1048576 + 0xc0000000)) / 4096) with (ram - 256) by zlia.
  set (up := if limit <? (ram - 256) / 2 then limit else (ram - 256) / 2).
  assert (0 < up ≤ (ram - 256) / 2 ∧ up ≤ limit) as [Hup Hul].
  { unfold up. destruct (Z.ltb_spec limit ((ram - 256) / 2)); zlia. }
  assert (2 * up ≤ ram - 256) as Hup2 by zlia.
  set (kp := ram - 256 - up).
  destruct (init_pool_ok (1048576 + 0xc0000000) kp junk) as (k & -> & Hk & Hk1 & Hk2 & Hku);
    [unfold kp in *; done || lia..|]. cbn [mbind outcome_bind].
  rewrite u32_id by (unfold kp; lia).
  destruct (init_pool_ok (1048576 + 0xc0000000 + kp * 4096) up junk) as (u & -> & Hu & Hu1 & Hu2 & Huu);
    [unfold kp in *; done || lia || zlia..|].
  eexists. split; [reflexivity|]. cbn [mem].
  assert ((1048576 + 0xc0000000 + kp * 4096) / 4096 = 786688 + kp) as E1 by zlia.
  change ((1048576 + 0xc0000000) / 4096) with 786688 in *. rewrite E1 in *.
  split_and!; [split; cbn; done || lia| |done|cbn [user_pool]..].
  - intros n. unfold used. cbn. by rewrite Hku, Huu.
  - change (0xc0000000 / 4096) with 786432. unfold kp in *. lia.
  - lia.
  - lia.
Qed.

Lemma palloc_init_correct_witness :
  ∃ s, palloc_init 1024 200 (replicate 100 5) (λ _, 0) = Ret s ∧ wf_state s ∧
    (∀ n, used s n = false) ∧ mem s = (λ _, 0) ∧
    first (user_pool s) + pages (user_pool s) = PHYS_BASE / 4096 + 1024 ∧
    pages (user_pool s) ≤ 200 ∧ 2 * pages (user_pool s) ≤ 1024 - 256.
Proof.
  apply (palloc_init_correct 1024 200 (replicate 100 5)); [lia..| |rewrite length_replicate; lia].
  apply Forall_replicate. lia.
Defined.
