(* ===== verification/PageAlloc.v ===== *)
(** * What the page allocator promises to its clients

    [malloc] and the page directories take pages from [threads/palloc.c].  The
    class [PageAllocator] is the contract they rely on, over the blocks of
    pages that are held: a block that is handed out overlaps no other one, it
    may be given back, and neither operation touches the memory of the blocks
    that stay.  The allocator of [Palloc] fulfils it. *)

From stdpp Require Import base tactics list numbers option sets.
From Stdlib Require Import ZArith Lia.
From S2P Require Import Prelude Bitmap Vaddr Palloc.

(** ** Blocks of pages and of bytes *)

(** A block of pages in kernel memory: its address and its number of pages. *)
Definition page_block (b : Z * Z) : Prop :=
  b.1 mod 4096 = 0 ∧ 0 < b.2 ∧ PHYS_BASE ≤ b.1 ∧ b.1 + 4096 * b.2 ≤ 2 ^ 32.

Definition pages_apart (b c : Z * Z) : Prop :=
  b.1 + 4096 * b.2 ≤ c.1 ∨ c.1 + 4096 * c.2 ≤ b.1.

Definition within (a n x : Z) : bool := (a <=? x) && (x <? a + n).

Lemma within_spec a n x : within a n x = true ↔ a ≤ x < a + n.
Proof. unfold within. rewrite andb_true_iff, Z.leb_le, Z.ltb_lt. lia. Qed.

Lemma within_false a n x : within a n x = false ↔ ¬ a ≤ x < a + n.
Proof. rewrite <-not_true_iff_false, within_spec. done. Qed.

(** ** Words in memory

    A word of 32 bits is stored with its low byte first. *)

Definition read32 (m : Z → Z) (a : Z) : Z :=
  m a + 2 ^ 8 * m (a + 1) + 2 ^ 16 * m (a + 2) + 2 ^ 24 * m (a + 3).

Definition byte_of (v k : Z) : Z := (v / 2 ^ (8 * k)) mod 2 ^ 8.

Definition write32 (m : Z → Z) (a v : Z) : Z → Z :=
  λ x, if within a 4 x then byte_of v (x - a) else m x.

Lemma write32_out m a v x : within a 4 x = false → write32 m a v x = m x.
Proof. unfold write32. by intros ->. Qed.

Lemma read32_ext m m' a : (∀ x, a ≤ x < a + 4 → m x = m' x) → read32 m a = read32 m' a.
Proof. intros H. unfold read32. rewrite !H by lia. done. Qed.

Lemma read_write m a v : 0 ≤ v < 2 ^ 32 → read32 (write32 m a v) a = v.
Proof.
  intros Hv. unfold read32, write32. rewrite !(proj2 (within_spec _ _ _)) by lia.
  replace (a - a) with 0 by lia. replace (a + 1 - a) with 1 by lia.
  replace (a + 2 - a) with 2 by lia. replace (a + 3 - a) with 3 by lia.
  unfold byte_of. change (2 ^ (8 * 0)) with 1. change (2 ^ (8 * 1)) with 256.
  change (2 ^ (8 * 2)) with 65536. change (2 ^ (8 * 3)) with 16777216. zlia.
Qed.

Lemma read_write_apart m a b v : a + 4 ≤ b ∨ b + 4 ≤ a → read32 (write32 m a v) b = read32 m b.
Proof.
  intros Hab. apply read32_ext. intros x Hx. apply write32_out, within_false. lia.
Qed.

(** ** The contract *)

Class PageAllocator (P : Type) : Type := {
  get_multiple : Z → Z → st P Z;
  free_multiple : Z → Z → st P unit;
  memory : P → Z → Z;
  set_memory : (Z → Z) → P → P;
  holds : P → list (Z * Z) → Prop;
  memory_set m p : memory (set_memory m p) = m;
  holds_set m p A : holds p A → holds (set_memory m p) A;
  holds_perm p A B : A ≡ₚ B → holds p A → holds p B;
  holds_block p A b : holds p A → b ∈ A → page_block b;
  holds_apart p b c A : holds p (b :: c :: A) → pages_apart b c;
  get_none flags p : get_multiple flags 0 p = Ret (0, p);
  get_ok flags cnt p A :
    holds p A → 0 < cnt < 2 ^ 32 → flag flags PAL_ASSERT = false →
    ∃ a p', get_multiple flags cnt p = Ret (a, p') ∧
      ((a = 0 ∧ holds p' A ∧ memory p' = memory p) ∨
       (a ≠ 0 ∧ holds p' ((a, cnt) :: A) ∧
        ∀ x, memory p' x =
          if flag flags PAL_ZERO && within a (4096 * cnt) x then 0 else memory p x));
  get_assert flags cnt p A :
    holds p A → 0 < cnt < 2 ^ 32 → flag flags PAL_ASSERT = true →
    get_multiple flags cnt p = Panic ∨
    ∃ a p', get_multiple flags cnt p = Ret (a, p') ∧ holds p' ((a, cnt) :: A) ∧
      ∀ x, memory p' x = if flag flags PAL_ZERO && within a (4096 * cnt) x then 0 else memory p x;
  free_ok a cnt p A :
    holds p ((a, cnt) :: A) →
    ∃ p', free_multiple a cnt p = Ret (tt, p') ∧ holds p' A ∧
      ∀ x, within a (4096 * cnt) x = false → memory p' x = memory p x
}.

(** Different blocks that are held do not overlap. *)
Lemma holds_pairwise `{PageAllocator P} p A1 b A2 c :
  holds p (A1 ++ b :: A2) → c ∈ A1 ++ A2 → pages_apart b c.
Proof.
  intros Hh (B1 & B2 & E)%list_elem_of_split. eapply (holds_apart p b c (B1 ++ B2)).
  eapply holds_perm; [|exact Hh]. rewrite <-Permutation_middle, E. constructor.
  by rewrite Permutation_middle.
Qed.

(** What holding these pages gives. *)
Record separate (A : list (Z * Z)) : Prop := Separate {
  sep_block : ∀ b, b ∈ A → page_block b;
  sep_apart : ∀ b c, b ∈ A → c ∈ A → b ≠ c → pages_apart b c;
  sep_nodup : NoDup A
}.

Lemma holds_separate `{PageAllocator P} p A : holds p A → separate A.
Proof.
  intros Hh. split.
  - intros b Hb. by eapply holds_block.
  - intros b c (A1 & A2 & ->)%list_elem_of_split Hc Hne.
    apply (holds_pairwise p A1 b A2 c Hh). set_solver.
  - apply NoDup_alt. intros i j b Hi Hj. destruct (decide (i = j)) as [|Hne]; [done|exfalso].
    assert (page_block b) as (_ & Hn & _) by (eapply holds_block, list_elem_of_lookup_2; done).
    apply list_elem_of_split_length in Hi as (A1 & A2 & -> & ->).
    assert (b ∈ A1 ++ A2) as Hb.
    { apply list_elem_of_lookup. destruct (decide (j < length A1)%nat).
      - exists j. rewrite lookup_app_l in * by lia. done.
      - exists (j - 1)%nat. rewrite lookup_app_r in Hj by lia. rewrite lookup_app_r by lia.
        rewrite lookup_cons_ne_0 in Hj by lia. rewrite <-Hj. f_equal. lia. }
    pose proof (holds_pairwise p A1 b A2 b Hh Hb) as Hp. unfold pages_apart in Hp. lia.
Qed.

Lemma separate_perm A B : A ≡ₚ B → separate A → separate B.
Proof.
  intros E [S1 S2 S3]. split.
  - intros b. rewrite <-E. apply S1.
  - intros b c. rewrite <-E. apply S2.
  - by rewrite <-E.
Qed.

#[global] Instance separate_proper : Proper ((≡ₚ) ==> iff) separate.
Proof. intros A B E. split; by apply separate_perm. Qed.

#[global] Instance holds_proper `{PageAllocator P} (p : P) : Proper ((≡ₚ) ==> iff) (holds p).
Proof. intros A B E. split; by apply holds_perm. Qed.

(** One block of pages and the others. *)
Lemma separate_cons p A :
  separate (p :: A) → page_block p ∧ separate A ∧ ∀ q, q ∈ A → pages_apart p q ∧ page_block q.
Proof.
  intros [S1 S2 S3]. apply NoDup_cons in S3 as [Hp S3]. split_and!; [set_solver|split; set_solver|].
  intros q Hq. split; [|set_solver]. apply S2; [set_solver..|]. by intros ->.
Qed.

(** ** The pools of [palloc.c] fulfil it *)

Definition palloc_holds (s : pstate) (A : list (Z * Z)) : Prop :=
  palloc_inv (s, A) ∧ PHYS_BASE / 4096 ≤ first (kernel_pool s).

Lemma palloc_holds_block s A b : palloc_holds s A → b ∈ A → page_block b.
Proof.
  intros [[Hs Hin _] Hp] Hb. destruct (Hin b Hb) as [u (Ha & Hc & Hlo & Hhi)]. cbn [fst] in *.
  pose proof (wf_get_pool u s Hs) as [_ Hal Hpos Hend].
  assert (PHYS_BASE / 4096 ≤ first (get_pool u s)) as Hf.
  { destruct u; cbn; [|done]. pose proof (ws_disjoint _ Hs). pose proof (ws_kernel _ Hs) as [Hm _ _ _].
    pose proof (wf_cnt _ Hm). unfold pages in *. lia. }
  unfold page_block, first, PHYS_BASE in *. split_and!; [done|done|zlia|zlia].
Qed.

Lemma blocks_apart n1 n2 b c A :
  0 < b.2 → 0 < c.2 → b.1 = 4096 * n1 → c.1 = 4096 * n2 →
  (∀ n, (blocks_at n (b :: c :: A) ≤ 1)%nat) → pages_apart b c.
Proof.
  intros Hb Hc E1 E2 Hn. unfold pages_apart.
  destruct (decide (n1 + b.2 ≤ n2)); [lia|]. destruct (decide (n2 + c.2 ≤ n1)); [lia|].
  specialize (Hn (Z.max n1 n2)). rewrite !blocks_at_cons in Hn. unfold in_block in Hn.
  rewrite E1, E2, !(Z.mul_comm 4096), !Z.div_mul in Hn by lia.
  rewrite !(proj2 (Z.leb_le _ _)), !(proj2 (Z.ltb_lt _ _)) in Hn by lia. cbn in Hn. lia.
Qed.

#[global] Program Instance palloc_allocator : PageAllocator pstate := {
  get_multiple := palloc_get_multiple;
  free_multiple := palloc_free_multiple;
  memory := mem;
  set_memory m s := PState (kernel_pool s) (user_pool s) m;
  holds := palloc_holds
}.
Next Obligation. done. Qed.
Next Obligation. intros m s A [[[Hk Hu Hd] Hin Hc] Hp]. by split; [split; [split|..]|]. Qed.
Next Obligation.
  intros s A B E [[Hs Hin Hc] Hp]. split; [split|done]; [done| |].
  - intros b Hb. apply Hin. cbn. by rewrite E.
  - intros n. rewrite <-Hc. cbn. unfold blocks_at. by rewrite E.
Qed.
Next Obligation. exact palloc_holds_block. Qed.
Next Obligation.
  intros s b c A Hh. pose proof (palloc_holds_block _ _ b Hh ltac:(set_solver)) as (Hb & Hb2 & _).
  pose proof (palloc_holds_block _ _ c Hh ltac:(set_solver)) as (Hc & Hc2 & _).
  destruct Hh as [[_ _ Hn] _]. apply (blocks_apart (b.1 / 4096) (c.1 / 4096) b c A); [done|done|zlia|zlia|].
  intros n. specialize (Hn n). cbn [fst snd] in Hn. rewrite Hn. destruct (used s n); lia.
Qed.
Next Obligation. done. Qed.
Next Obligation.
  intros flags cnt s A [Hinv Hp] Hcnt Hf. pose proof Hinv as [Hs _ _]. cbn in Hs.
  destruct (palloc_get_ok flags cnt s Hs Hcnt)
    as [(a & s' & Hr & Ha & _ & _ & _ & E & _ & _ & _ & _ & Hz)|[_ Hr]].
  - exists a, s'. split; [done|]. right. split_and!; [lia| |].
    + split; [|by rewrite E]. eapply palloc_step_inv; [exact Hinv|]. by eapply step_get; [..|lia].
    + intros x. rewrite Hz. unfold within. by rewrite andb_assoc.
  - rewrite Hf in Hr. destruct Hr as (s' & Hr & _ & _ & E & _ & _ & _ & Hm). exists 0, s'.
    split; [done|]. left. split_and!; [done| |done].
    split; [|by rewrite E]. eapply palloc_step_inv; [exact Hinv|]. by eapply step_get_fails.
Qed.
Next Obligation.
  intros flags cnt s A [Hinv Hp] Hcnt Hf. pose proof Hinv as [Hs _ _]. cbn in Hs.
  destruct (palloc_get_ok flags cnt s Hs Hcnt)
    as [(a & s' & Hr & Ha & _ & _ & _ & E & _ & _ & _ & _ & Hz)|[_ Hr]]; [right|left; by rewrite Hf in Hr].
  exists a, s'. split_and!; [done| |].
  - split; [|by rewrite E]. eapply palloc_step_inv; [exact Hinv|]. by eapply step_get; [..|lia].
  - intros x. rewrite Hz. unfold within. by rewrite andb_assoc.
Qed.
Next Obligation.
  intros a cnt s A [Hinv Hp]. pose proof Hinv as [Hs Hin _]. cbn in Hs.
  destruct (Hin (a, cnt)) as [u Hb]; [set_solver|].
  destruct (palloc_free_ok u s a cnt Hs Hb) as (s' & Hr & Hs' & E1 & E2 & E3 & E4 & Hu & Hm).
  { intros n Hn. by apply (held_block_used s [] a cnt A Hinv n Hn). }
  exists s'. split_and!; [done| |].
  - split; [|cbn in *; by rewrite E2]. eapply palloc_step_inv; [exact Hinv|]. by apply (step_free a cnt s s' [] A).
  - intros x Hx. cbn. rewrite Hm. unfold within in Hx. by rewrite Hx.
Qed.

(** A fresh allocator, and one from which a page has been taken. *)
Lemma ex_pools_hold : holds ex_pools [].
Proof.
  split; [|done]. split; [exact ex_pools_wf|by intros b []%elem_of_nil|].
  intros n. cbn [fst]. by rewrite ex_pools_free.
Qed.

Lemma ex_page_hold :
  ∃ p, get_multiple 0 1 ex_pools = Ret (0xc0100000, p) ∧ holds p [(0xc0100000, 1)] ∧ ∀ x, memory p x = 0.
Proof.
  destruct (get_ok 0 1 ex_pools [] ex_pools_hold) as (a & p & Hr & Hcase); [done|done|].
  assert (a = 0xc0100000) as ->.
  { assert ((match get_multiple 0 1 ex_pools with Ret (a', _) => a' | _ => 0 end) = 0xc0100000) as E by done.
    by rewrite Hr in E. }
  destruct Hcase as [[? _]|(_ & Hh & Hm)]; [done|]. exists p. split_and!; [done|done|]. intros x. by rewrite Hm.
Qed.
