(* ===== verification/Hash.v ===== *)
(** * Hash tables: [lib/kernel/hash.c]

    A table is an array of buckets, each an intrusive list, whose number is a
    power of two that follows the number of elements.  Buckets are lists here:
    what the list functions do to them is the subject of [LinkedList].  The
    hash and comparison functions of a table are parameters, and so is the
    success of each allocation, so that everything holds on a machine that
    runs out of memory.  The table is proved to implement a set of elements
    with distinct keys, whatever the number of buckets. *)

From stdpp Require Import base tactics list numbers option sets.
From Stdlib Require Import ZArith Lia.
From S2P Require Import Prelude.

(** ** Powers of two *)

Definition turn_off_least_1bit (x : Z) : Z := Z.land x (u32 (x - 1)).

Definition is_power_of_2 (x : Z) : bool := negb (x =? 0) && (turn_off_least_1bit x =? 0).

Definition MIN_ELEMS_PER_BUCKET : Z := 1.
Definition BEST_ELEMS_PER_BUCKET : Z := 2.
Definition MAX_ELEMS_PER_BUCKET : Z := 4.

(** [while (!is_power_of_2 (n)) n = turn_off_least_1bit (n)]. *)
Fixpoint round_to_power (fuel : nat) (n : Z) : outcome Z :=
  match fuel with
  | O => Diverge
  | S fuel => if is_power_of_2 n then mret n else round_to_power fuel (turn_off_least_1bit n)
  end.

(** The number of buckets [rehash] computes; a 32-bit number loses at most 32
    bits. *)
Definition new_bucket_count (elem_cnt : Z) : outcome Z :=
  let n := elem_cnt / BEST_ELEMS_PER_BUCKET in
  let n := if n <? 4 then 4 else n in
  round_to_power 33 n.

(** ** Tables *)

Record hash (A : Type) : Type := Hash {
  elem_cnt : Z;
  bucket_cnt : Z;
  buckets : list (list A)
}.
Arguments Hash {A}.
Arguments elem_cnt {A}.
Arguments bucket_cnt {A}.
Arguments buckets {A}.

Section hash.
Context {A : Type} `{!EqDecision A}.

(** [h->hash] and [h->less], with [h->aux] applied. *)
Context (hash_fn : A → Z) (less : A → A → bool).

Definition bucket_idx (h : hash A) (e : A) : Z :=
  Z.land (hash_fn e) (u32 (bucket_cnt h - 1)).

(** The bucket; an index past the array reads memory the table does not
    own. *)
Definition find_bucket (h : hash A) (e : A) : outcome (nat * list A) :=
  let i := Z.to_nat (bucket_idx h e) in
  match buckets h !! i with Some b => Ret (i, b) | None => Panic end.

Definition same (a b : A) : bool := negb (less a b) && negb (less b a).

Fixpoint find_elem (bucket : list A) (e : A) : option A :=
  match bucket with
  | [] => None
  | hi :: bucket => if same hi e then Some hi else find_elem bucket e
  end.

(** [list_push_front] into bucket [i]. *)
Definition push_bucket (i : nat) (e : A) (bs : list (list A)) : list (list A) :=
  alter (cons e) i bs.

Definition insert_elem (h : hash A) (i : nat) (e : A) : hash A :=
  Hash (u32 (elem_cnt h + 1)) (bucket_cnt h) (push_bucket i e (buckets h)).

(** [list_remove] takes the element out of whichever bucket it is in. *)
Definition remove_elem (h : hash A) (e : A) : hash A :=
  Hash (u32 (elem_cnt h - 1)) (bucket_cnt h) (filter (λ x, x ≠ e) <$> buckets h).

(** Moving the elements of the old buckets, one by one, to the front of their
    new buckets. *)
Fixpoint move_elems (h : hash A) (es : list A) : outcome (hash A) :=
  match es with
  | [] => mret h
  | e :: es =>
      '(i, _) ← find_bucket h e;
      move_elems (Hash (elem_cnt h) (bucket_cnt h) (push_bucket i e (buckets h))) es
  end.

Definition rehash (alloc : bool) (h : hash A) : outcome (hash A) :=
  new_bucket_cnt ← new_bucket_count (elem_cnt h);
  if new_bucket_cnt =? bucket_cnt h then mret h
  else if negb alloc then mret h
  else
    move_elems (Hash (elem_cnt h) new_bucket_cnt (replicate (Z.to_nat new_bucket_cnt) []))
      (concat (buckets h)).

(** ** Operations *)

(** Clears the table; the second component are the elements the destructor is
    called with, in order. *)
Definition hash_clear (destructor : bool) (h : hash A) : hash A * list A :=
  (Hash 0 (bucket_cnt h) (replicate (length (buckets h)) []),
   if destructor then concat (buckets h) else []).

Definition hash_init (alloc : bool) : option (hash A) :=
  if alloc then Some (hash_clear false (Hash 0 4 (replicate 4 []))).1 else None.

(** The elements given to the destructor before the buckets are freed. *)
Definition hash_destroy (destructor : bool) (h : hash A) : list A :=
  if destructor then (hash_clear true h).2 else [].

Definition hash_insert (alloc : bool) (h : hash A) (new : A) : outcome (option A * hash A) :=
  '(i, bucket) ← find_bucket h new;
  let old := find_elem bucket new in
  let h := match old with None => insert_elem h i new | Some _ => h end in
  h ← rehash alloc h;
  mret (old, h).

Definition hash_replace (alloc : bool) (h : hash A) (new : A) : outcome (option A * hash A) :=
  '(i, bucket) ← find_bucket h new;
  let old := find_elem bucket new in
  let h := match old with Some o => remove_elem h o | None => h end in
  let h := insert_elem h i new in
  h ← rehash alloc h;
  mret (old, h).

Definition hash_find (h : hash A) (e : A) : outcome (option A) :=
  '(_, bucket) ← find_bucket h e;
  mret (find_elem bucket e).

Definition hash_delete (alloc : bool) (h : hash A) (e : A) : outcome (option A * hash A) :=
  '(_, bucket) ← find_bucket h e;
  match find_elem bucket e with
  | Some found => h ← rehash alloc (remove_elem h found); mret (Some found, h)
  | None => mret (None, h)
  end.

(** The elements ACTION is called with, in order. *)
Definition hash_apply (h : hash A) : list A := concat (buckets h).

Definition hash_size (h : hash A) : Z := elem_cnt h.
Definition hash_empty (h : hash A) : bool := elem_cnt h =? 0.

(** ** Iteration *)

(** An iterator is at a position of a bucket: position 0 is the head
    sentinel, position [k] the element number [k - 1]. *)
Record hash_iterator : Type := Iter {
  it_bucket : nat;
  it_pos : nat;
  it_elem : option A
}.

Definition hash_first : hash_iterator := Iter 0 0 None.

(** The [while] loop of [hash_next]: skips the buckets without an element
    left, starting with bucket [b] at position [pos]. *)
Fixpoint next_loop (fuel : nat) (h : hash A) (b pos : nat) : hash_iterator :=
  match buckets h !! b ≫= λ l, l !! pos with
  | Some e => Iter b (S pos) (Some e)
  | None =>
      match fuel with
      | O => Iter (S b) 0 None
      | S fuel =>
          if bool_decide (Z.of_nat (S b) >= bucket_cnt h) then Iter (S b) 0 None
          else next_loop fuel h (S b) 0
      end
  end.

Definition hash_next (h : hash A) (i : hash_iterator) : hash_iterator :=
  next_loop (length (buckets h)) h (it_bucket i) (it_pos i).

Definition hash_cur (i : hash_iterator) : option A := it_elem i.

(** [hash_first] and then [hash_next] until it returns null. *)
Fixpoint iterate (fuel : nat) (h : hash A) (i : hash_iterator) : list A :=
  match fuel with
  | O => []
  | S fuel =>
      let i := hash_next h i in
      match hash_cur i with Some e => e :: iterate fuel h i | None => [] end
  end.
End hash.

(** ** Hash functions *)

Definition FNV_32_PRIME : Z := 16777619.
Definition FNV_32_BASIS : Z := 2166136261.

Definition fnv (bytes : list Z) : Z :=
  foldl (λ h b, Z.lxor (u32 (h * FNV_32_PRIME)) b) FNV_32_BASIS bytes.

Definition hash_bytes (buf : list Z) (size : nat) : Z := fnv (take size buf).

(** The bytes before the terminator. *)
Fixpoint c_string (s : list Z) : list Z :=
  match s with [] => [] | c :: s => if c =? 0 then [] else c :: c_string s end.

Definition hash_string (s : list Z) : Z := fnv (c_string s).

Definition hash_int (i : Z) : Z :=
  let u := u32 i in
  hash_bytes [u8 u; u8 (u / 2 ^ 8); u8 (u / 2 ^ 16); u8 (u / 2 ^ 24)] 4.

(** ** Rounding to a power of two *)

Lemma land_double_odd a b : Z.land (2 * a) (2 * b + 1) = 2 * Z.land a b.
Proof.
  apply Z.bits_inj'. intros n Hn. rewrite Z.land_spec.
  destruct (Z.eq_dec n 0) as [->|].
  - by rewrite !Z.testbit_even_0.
  - replace n with (Z.succ (n - 1)) by lia.
    by rewrite !Z.testbit_even_succ, Z.testbit_odd_succ, Z.land_spec by lia.
Qed.

(** Every positive number is an odd multiple of a power of two; clearing its
    lowest bit leaves the even multiple below. *)
Lemma lowest_bit p :
  ∃ k m, 0 ≤ k ∧ 0 ≤ m ∧ Z.pos p = 2 ^ k * (2 * m + 1) ∧
         Z.land (Z.pos p) (Z.pos p - 1) = 2 ^ k * (2 * m).
Proof.
  induction p as [p IH|p IH|].
  - exists 0, (Z.pos p). split_and!; [lia..|]. rewrite Pos2Z.inj_xI.
    replace (2 * Z.pos p + 1 - 1) with (2 * Z.pos p) by lia.
    rewrite Z.land_comm, land_double_odd, Z.land_diag. lia.
  - destruct IH as (k & m & Hk & Hm & E1 & E2). exists (k + 1), m. rewrite Z.pow_add_r by lia.
    split_and!; [lia..|]. rewrite Pos2Z.inj_xO.
    replace (2 * Z.pos p - 1) with (2 * (Z.pos p - 1) + 1) by lia.
    rewrite land_double_odd, E2. lia.
  - by exists 0, 0.
Qed.

Lemma turn_off_spec x :
  0 < x < 2 ^ 32 →
  ∃ k m, 0 ≤ k ∧ 0 ≤ m ∧ x = 2 ^ k * (2 * m + 1) ∧ turn_off_least_1bit x = 2 ^ (k + 1) * m.
Proof.
  intros Hx. destruct x as [|p|p]; [lia| |lia].
  destruct (lowest_bit p) as (k & m & Hk & Hm & E1 & E2). exists k, m.
  split_and!; [done..|]. unfold turn_off_least_1bit. rewrite u32_id by lia.
  rewrite E2, Z.pow_add_r by lia. lia.
Qed.

(** The loop finds the largest power of two that is not greater, within one
    iteration per bit. *)
Lemma round_to_power_ok fuel n j :
  0 < n < 2 ^ 32 → 0 ≤ j ≤ 32 → (2 ^ j | n) → 32 - j < Z.of_nat fuel →
  round_to_power fuel n = Ret (2 ^ Z.log2 n).
Proof.
  revert n j. induction fuel as [|fuel IH]; intros n j Hn Hj Hd Hf; [lia|].
  cbn [round_to_power]. unfold is_power_of_2. rewrite (proj2 (Z.eqb_neq n 0)) by lia. cbn [negb andb].
  destruct (turn_off_spec n Hn) as (k & m & Hk & Hm & En & ->).
  assert (j ≤ k) as Hjk.
  { destruct (Z.le_gt_cases j k); [done|]. exfalso. destruct Hd as [q Hq].
    replace j with (k + 1 + (j - k - 1)) in Hq by lia.
    rewrite !Z.pow_add_r in Hq by lia. pose proof (Z.pow_pos_nonneg 2 k).
    pose proof (Z.pow_pos_nonneg 2 (j - k - 1)). set (t := 2 ^ (j - k - 1)) in *.
    assert (2 * m + 1 = 2 * (q * t)) by nia. lia. }
  pose proof (Z.pow_pos_nonneg 2 k). rewrite Z.pow_add_r by lia.
  destruct (Z.eqb_spec (2 ^ k * 2 ^ 1 * m) 0) as [E|E].
  - assert (m = 0) as -> by nia. rewrite En. replace (2 * 0 + 1) with 1 by lia.
    rewrite Z.mul_1_r, Z.log2_pow2 by lia. done.
  - assert (0 < m) by nia.
    assert (k < 31).
    { apply (Z.pow_lt_mono_r_iff 2); [lia..|]. nia. }
    rewrite (IH _ (k + 1)); [|nia|lia|exists m; rewrite Z.pow_add_r by lia; lia|lia].
    do 2 f_equal. apply Z.log2_unique; [apply Z.log2_nonneg|].
    destruct (Z.log2_spec n) as [HL1 HL2]; [lia|]. split; [|nia].
    assert (k + 1 ≤ Z.log2 n) as HL.
    { apply Z.log2_le_pow2; [lia|]. rewrite Z.pow_add_r by lia. nia. }
    replace (Z.log2 n) with (k + 1 + (Z.log2 n - k - 1)) in * by lia.
    rewrite !Z.pow_add_r in * by lia. set (t := 2 ^ (Z.log2 n - k - 1)) in *.
    assert (t ≤ m); nia.
Qed.

Lemma new_bucket_count_ok n :
  0 ≤ n < 2 ^ 32 →
  ∃ k, 2 ≤ k < 32 ∧ new_bucket_count n = Ret (2 ^ k) ∧
       2 ^ k ≤ Z.max 4 (n / 2) < 2 ^ (k + 1).
Proof.
  intros Hn. unfold new_bucket_count, BEST_ELEMS_PER_BUCKET.
  set (c := if n / 2 <? 4 then 4 else n / 2).
  assert (c = Z.max 4 (n / 2)) as Ec by (unfold c; destruct (Z.ltb_spec (n / 2) 4); lia).
  assert (4 ≤ c < 2 ^ 32) as Hc by (rewrite Ec; zlia).
  rewrite (round_to_power_ok 33 c 0); [|lia|lia|apply Z.divide_1_l|lia].
  exists (Z.log2 c). pose proof (Z.log2_spec c). rewrite <-Ec. split_and!; [| |done|lia|].
  - apply Z.log2_le_pow2; lia.
  - apply Z.log2_lt_pow2; lia.
  - rewrite Z.add_1_r. lia.
Qed.

(** ** What a table promises *)

(** What a client owes the table: a comparison under which being equal, that
    is, neither less nor greater, is an equivalence that the hash function
    respects.  A strict weak order is more than the table uses. *)
Class HashKey {A : Type} (hash_fn : A → Z) (less : A → A → bool) : Prop := {
  hk_range e : 0 ≤ hash_fn e < 2 ^ 32;
  hk_irrefl a : less a a = false;
  hk_trans a b c : same less a b = true → same less b c = true → same less a c = true;
  hk_hash a b : same less a b = true → hash_fn a = hash_fn b
}.

Section spec.
Context {A : Type} `{!EqDecision A} (hash_fn : A → Z) (less : A → A → bool).
Context `{!HashKey hash_fn less}.

Definition elements (h : hash A) : list A := concat (buckets h).

Lemma same_refl a : same less a a = true.
Proof. unfold same. by rewrite (hk_irrefl (less := less) a). Qed.

Lemma same_sym a b : same less a b = same less b a.
Proof. apply andb_comm. Qed.

(** The number of buckets is a power of two. *)
Definition sized (h : hash A) : Prop :=
  ∃ k, 2 ≤ k < 32 ∧ bucket_cnt h = 2 ^ k ∧ Z.of_nat (length (buckets h)) = 2 ^ k.

(** Every element is in the bucket its hash selects. *)
Definition placed (h : hash A) : Prop :=
  ∀ i b e, buckets h !! i = Some b → e ∈ b → Z.to_nat (bucket_idx hash_fn h e) = i.

(** No two elements with the same key. *)
Definition distinct (es : list A) : Prop :=
  NoDup es ∧ ∀ a b, a ∈ es → b ∈ es → same less a b = true → a = b.

Record wf (h : hash A) : Prop := Wf {
  wf_sized : sized h;
  wf_placed : placed h;
  wf_size : elem_cnt h = Z.of_nat (length (elements h));
  wf_bound : Z.of_nat (length (elements h)) < 2 ^ 32;
  wf_distinct : distinct (elements h)
}.

Lemma bucket_idx_lt h e : sized h → (Z.to_nat (bucket_idx hash_fn h e) < length (buckets h))%nat.
Proof.
  intros (k & Hk & Ec & El). unfold bucket_idx. rewrite Ec.
  assert (2 ^ k < 2 ^ 32) by (apply Z.pow_lt_mono_r; lia). pose proof (Z.pow_pos_nonneg 2 k).
  rewrite u32_id by lia. rewrite Z.sub_1_r, <-Z.ones_equiv, Z.land_ones by lia.
  pose proof (Z.mod_pos_bound (hash_fn e) (2 ^ k)). lia.
Qed.

Lemma find_bucket_ok h e :
  sized h →
  ∃ b, find_bucket hash_fn h e = Ret (Z.to_nat (bucket_idx hash_fn h e), b) ∧
       buckets h !! Z.to_nat (bucket_idx hash_fn h e) = Some b.
Proof.
  intros Hs. destruct (lookup_lt_is_Some_2 _ _ (bucket_idx_lt h e Hs)) as [b Hb].
  exists b. unfold find_bucket. by rewrite Hb.
Qed.

Lemma find_elem_spec b e :
  match find_elem less b e with
  | Some x => x ∈ b ∧ same less x e = true
  | None => ∀ x, x ∈ b → same less x e = false
  end.
Proof.
  induction b as [|y b IH]; cbn; [set_solver|].
  destruct (same less y e) eqn:E; [split; [by left|done]|].
  destruct (find_elem less b e) as [x|]; [destruct IH; split; [by right|done]|].
  intros x [->|Hx]%elem_of_cons; auto.
Qed.

Lemma elem_of_elements h e :
  e ∈ elements h ↔ ∃ i b, buckets h !! i = Some b ∧ e ∈ b.
Proof.
  unfold elements. rewrite list_elem_of_In, in_concat. split.
  - intros (b & Hb%list_elem_of_In & He%list_elem_of_In).
    apply list_elem_of_lookup in Hb as [i Hi]. eauto.
  - intros (i & b & Hi & He). exists b. rewrite <-!list_elem_of_In.
    split; [by eapply list_elem_of_lookup_2|done].
Qed.

(** The search in one bucket is a search in the table. *)
Lemma find_elem_table h e b :
  placed h → buckets h !! Z.to_nat (bucket_idx hash_fn h e) = Some b →
  match find_elem less b e with
  | Some x => x ∈ elements h ∧ same less x e = true
  | None => ∀ x, x ∈ elements h → same less x e = false
  end.
Proof.
  intros Hp Hb. pose proof (find_elem_spec b e) as Hf. destruct (find_elem less b e) as [x|].
  - destruct Hf as [Hx Hs]. split; [|done]. apply elem_of_elements. eauto.
  - intros x (i & b' & Hi & Hx)%elem_of_elements. destruct (same less x e) eqn:E; [|done].
    rewrite <-E. apply Hf. pose proof (Hp i b' x Hi Hx) as Ei. unfold bucket_idx in Ei, Hb.
    rewrite (hk_hash x e E) in Ei. congruence.
Qed.

Lemma concat_push i e (bs : list (list A)) :
  (i < length bs)%nat → concat (push_bucket i e bs) ≡ₚ e :: concat bs.
Proof.
  revert i. induction bs as [|b bs IH]; intros i Hi; cbn in Hi; [lia|].
  destruct i as [|i]; [done|]. cbn. unfold push_bucket in IH.
  by rewrite IH, <-Permutation_middle by lia.
Qed.

Lemma sized_push h n i e : sized h → sized (Hash n (bucket_cnt h) (push_bucket i e (buckets h))).
Proof.
  intros (k & Hk & Ec & El). exists k. unfold push_bucket. cbn. by rewrite length_alter.
Qed.

Lemma placed_push h n e :
  placed h → placed (Hash n (bucket_cnt h)
                       (push_bucket (Z.to_nat (bucket_idx hash_fn h e)) e (buckets h))).
Proof.
  intros Hp i b x. cbn [buckets]. unfold push_bucket. intros Hi Hx.
  change (bucket_idx hash_fn (Hash n (bucket_cnt h) _) x) with (bucket_idx hash_fn h x).
  destruct (decide (Z.to_nat (bucket_idx hash_fn h e) = i)) as [<-|Hne].
  - rewrite list_lookup_alter_eq in Hi. destruct (buckets h !! _) as [b0|] eqn:E; [|done].
    cbn in Hi. injection Hi as <-. apply elem_of_cons in Hx as [->|Hx]; [done|eauto].
  - rewrite list_lookup_alter_ne in Hi by done. eauto.
Qed.

(** ** Rehashing *)

Lemma move_elems_ok es h :
  sized h → placed h →
  ∃ h', move_elems hash_fn h es = Ret h' ∧ sized h' ∧ placed h' ∧
        elem_cnt h' = elem_cnt h ∧ elements h' ≡ₚ es ++ elements h.
Proof.
  revert h. induction es as [|e es IH]; intros h Hs Hp; [by exists h|].
  cbn [move_elems]. destruct (find_bucket_ok h e Hs) as (b & -> & Hb). cbn.
  set (h1 := Hash _ _ _). destruct (IH h1) as (h' & -> & Hs' & Hp' & Ec' & He');
    [by apply sized_push|by apply placed_push|].
  exists h'. split_and!; [done..|]. rewrite He'. unfold elements, h1. cbn [buckets].
  rewrite concat_push by (by apply bucket_idx_lt). by rewrite <-Permutation_middle.
Qed.

Lemma rehash_ok alloc h :
  wf h → ∃ h', rehash hash_fn alloc h = Ret h' ∧ wf h' ∧ elements h' ≡ₚ elements h.
Proof.
  intros Hw. pose proof Hw as [Hs Hp Hc Hb Hd]. unfold rehash.
  destruct (new_bucket_count_ok (elem_cnt h)) as (k & Hk & -> & _); [lia|]. cbn [mbind outcome_bind].
  destruct (2 ^ k =? bucket_cnt h); [by exists h|]. destruct alloc; [|by exists h]. cbn [negb].
  set (h0 := Hash _ _ _). pose proof (Z.pow_pos_nonneg 2 k).
  destruct (move_elems_ok (concat (buckets h)) h0) as (h' & -> & Hs' & Hp' & Ec' & He').
  - exists k. split; [lia|]. split; [done|]. cbn [h0 buckets]. rewrite length_replicate. lia.
  - intros i b e Hi He. cbn in Hi. apply lookup_replicate in Hi as [-> _]. set_solver.
  - assert (elements h' ≡ₚ elements h) as Hpm.
    { rewrite He'. unfold elements, h0. cbn [buckets].
      assert (∀ n, concat (replicate n ([] : list A)) = []) as -> by (by intros n; induction n).
      by rewrite app_nil_r. }
    exists h'. split_and!; [done| |done]. split; [done..| | |].
    + by rewrite Ec', Hpm.
    + by rewrite Hpm.
    + destruct Hd as [Hnd Hd]. split; [by rewrite Hpm|]. intros a b. rewrite Hpm. apply Hd.
Qed.

(** ** The operations *)

Lemma insert_elem_ok h e :
  wf h → Z.of_nat (length (elements h)) + 1 < 2 ^ 32 →
  (∀ x, x ∈ elements h → same less x e = false) →
  let h' := insert_elem h (Z.to_nat (bucket_idx hash_fn h e)) e in
  wf h' ∧ elements h' ≡ₚ e :: elements h.
Proof.
  intros [Hs Hp Hc Hb [Hnd Hd]] Hlt Hno h'.
  assert (elements h' ≡ₚ e :: elements h) as Hpm.
  { unfold elements, h'. cbn [insert_elem buckets]. apply concat_push. by apply bucket_idx_lt. }
  split; [|done]. split.
  - by apply sized_push.
  - by apply placed_push.
  - rewrite Hpm. cbn [length h' insert_elem elem_cnt]. rewrite Hc, u32_id by lia. lia.
  - rewrite Hpm. cbn. lia.
  - split.
    + rewrite Hpm. constructor; [|done]. intros He. specialize (Hno e He). by rewrite same_refl in Hno.
    + intros a b. rewrite Hpm, !elem_of_cons. intros [->|Ha] [->|Hb'] E; [done| | |by apply Hd].
      * rewrite same_sym, (Hno b Hb') in E. done.
      * by rewrite (Hno a Ha) in E.
Qed.

Lemma elements_remove h e : elements (remove_elem h e) = filter (λ x, x ≠ e) (elements h).
Proof.
  unfold elements. cbn [remove_elem buckets]. induction (buckets h) as [|b bs IH]; [done|].
  cbn. by rewrite filter_app, IH.
Qed.

Lemma remove_elem_ok h e :
  wf h → e ∈ elements h →
  wf (remove_elem h e) ∧ elements h ≡ₚ e :: elements (remove_elem h e).
Proof.
  intros [Hs Hp Hc Hb [Hnd Hd]] He.
  assert (elements h ≡ₚ e :: elements (remove_elem h e)) as Hpm.
  { rewrite elements_remove. by apply filter_remove. }
  split; [|done]. rewrite Hpm in Hc, Hb. cbn [length] in Hc, Hb. split.
  - destruct Hs as (k & Hk & Ec & El). exists k. cbn. by rewrite length_fmap.
  - intros i b x Hi Hx. cbn in Hi. rewrite list_lookup_fmap in Hi.
    destruct (buckets h !! i) as [b0|] eqn:E; [|done]. cbn in Hi. injection Hi as <-.
    apply list_elem_of_filter in Hx as [_ Hx]. by apply (Hp i b0 x).
  - cbn [remove_elem elem_cnt]. rewrite Hc, u32_id by lia. lia.
  - lia.
  - rewrite elements_remove. split; [by apply NoDup_filter|].
    intros a b [_ Ha]%list_elem_of_filter [_ Hb']%list_elem_of_filter. by apply Hd.
Qed.

(** ** Refinement of a set with keys *)

Inductive hash_cmd : Type :=
| Insert (e : A)
| Replace (e : A)
| Find (e : A)
| Delete (e : A)
| Size.

Inductive hash_val : Type :=
| VElem (r : option A)
| VSize (n : Z).

(** The code; [alloc] says whether the allocation of the command succeeds. *)
Definition run_hash_cmd (alloc : bool) (c : hash_cmd) (h : hash A) : outcome (hash_val * hash A) :=
  match c with
  | Insert e => '(r, h) ← hash_insert hash_fn less alloc h e; mret (VElem r, h)
  | Replace e => '(r, h) ← hash_replace hash_fn less alloc h e; mret (VElem r, h)
  | Find e => r ← hash_find hash_fn less h e; mret (VElem r, h)
  | Delete e => '(r, h) ← hash_delete hash_fn less alloc h e; mret (VElem r, h)
  | Size => mret (VSize (hash_size h), h)
  end.

Fixpoint run_hash_cmds (cs : list (bool * hash_cmd)) (h : hash A) : outcome (list hash_val * hash A) :=
  match cs with
  | [] => mret ([], h)
  | (alloc, c) :: cs =>
      '(v, h) ← run_hash_cmd alloc c h; '(vs, h) ← run_hash_cmds cs h; mret (v :: vs, h)
  end.

(** The specification on a set, held in any order. *)
Definition spec_hash_cmd (c : hash_cmd) (es : list A) : hash_val * list A :=
  match c with
  | Insert e => match find_elem less es e with
                | None => (VElem None, e :: es)
                | Some x => (VElem (Some x), es)
                end
  | Replace e => match find_elem less es e with
                 | None => (VElem None, e :: es)
                 | Some x => (VElem (Some x), e :: filter (λ y, y ≠ x) es)
                 end
  | Find e => (VElem (find_elem less es e), es)
  | Delete e => match find_elem less es e with
                | None => (VElem None, es)
                | Some x => (VElem (Some x), filter (λ y, y ≠ x) es)
                end
  | Size => (VSize (Z.of_nat (length es)), es)
  end.

Fixpoint spec_hash_cmds (cs : list (bool * hash_cmd)) (es : list A) : list hash_val * list A :=
  match cs with
  | [] => ([], es)
  | (_, c) :: cs =>
      let '(v, es) := spec_hash_cmd c es in
      let '(vs, es) := spec_hash_cmds cs es in (v :: vs, es)
  end.

(** Keys are distinct, so the order of the set does not matter. *)
Lemma find_elem_unique es e r :
  distinct es →
  match r with
  | Some x => x ∈ es ∧ same less x e = true
  | None => ∀ x, x ∈ es → same less x e = false
  end → find_elem less es e = r.
Proof.
  intros [_ Hd] Hr. pose proof (find_elem_spec es e) as Hf.
  destruct (find_elem less es e) as [y|], r as [x|].
  - destruct Hf as [Hy Ey], Hr as [Hx Ex]. f_equal. apply Hd; [done..|].
    rewrite same_sym in Ex. eapply hk_trans; [exact Ey|]. by rewrite same_sym, same_sym in Ex.
  - destruct Hf as [Hy Ey]. by rewrite Hr in Ey.
  - destruct Hr as [Hx Ex]. by rewrite Hf in Ex.
  - done.
Qed.

Lemma distinct_perm es es' : es ≡ₚ es' → distinct es → distinct es'.
Proof. intros E [Hnd Hd]. split; [by rewrite <-E|]. intros a b. rewrite <-E. apply Hd. Qed.

Lemma run_hash_cmd_ok alloc c h es :
  wf h → elements h ≡ₚ es → Z.of_nat (length es) + 1 < 2 ^ 32 →
  ∃ h', run_hash_cmd alloc c h = Ret ((spec_hash_cmd c es).1, h') ∧ wf h' ∧
        elements h' ≡ₚ (spec_hash_cmd c es).2 ∧
        (length (spec_hash_cmd c es).2 ≤ S (length es))%nat.
Proof.
  intros Hw He Hlt. pose proof Hw as [Hs Hp Hc _ Hd]. pose proof (distinct_perm _ _ He Hd) as Hd'.
  assert (∀ e b, buckets h !! Z.to_nat (bucket_idx hash_fn h e) = Some b →
            find_elem less es e = find_elem less b e) as Hfind.
  { intros e b Hb. apply find_elem_unique; [done|].
    pose proof (find_elem_table h e b Hp Hb) as Hf. destruct (find_elem less b e); [by rewrite He in Hf|].
    intros x. rewrite <-He. apply Hf. }
  rewrite <-He in Hlt. destruct c as [e|e|e|e|]; cbn [run_hash_cmd spec_hash_cmd].
  - unfold hash_insert. destruct (find_bucket_ok h e Hs) as (b & -> & Hb). rewrite (Hfind e b Hb).
    pose proof (find_elem_table h e b Hp Hb) as Hf. cbn [mbind outcome_bind].
    destruct (find_elem less b e) as [x|]; cbn [fst snd].
    + destruct (rehash_ok alloc h Hw) as (h' & -> & Hw' & He'). exists h'.
      split_and!; [done..|by rewrite He'|lia].
    + destruct (insert_elem_ok h e Hw Hlt Hf) as [Hw1 He1].
      destruct (rehash_ok alloc _ Hw1) as (h' & -> & Hw' & He'). exists h'.
      split_and!; [done..|by rewrite He', He1, He|done].
  - unfold hash_replace. destruct (find_bucket_ok h e Hs) as (b & -> & Hb). rewrite (Hfind e b Hb).
    pose proof (find_elem_table h e b Hp Hb) as Hf. cbn [mbind outcome_bind].
    destruct (find_elem less b e) as [x|]; cbn [fst snd].
    + destruct Hf as [Hx Ex]. destruct (remove_elem_ok h x Hw Hx) as [Hw1 He1].
      change (bucket_idx hash_fn h e) with (bucket_idx hash_fn (remove_elem h x) e).
      destruct (insert_elem_ok (remove_elem h x) e Hw1) as [Hw2 He2].
      { rewrite He1 in Hlt. cbn [length] in Hlt. lia. }
      { intros y Hy. rewrite elements_remove in Hy. apply list_elem_of_filter in Hy as [Hne Hy].
        destruct (same less y e) eqn:E; [|done]. destruct Hne. apply Hd; [done..|].
        rewrite same_sym in Ex. by apply (hk_trans y e x). }
      destruct (rehash_ok alloc _ Hw2) as (h' & -> & Hw' & He'). exists h'.
      split_and!; [done..| |]; cbn [snd].
      * rewrite He', He2, elements_remove. apply Permutation_cons; [done|]. by apply filter_Permutation.
      * cbn. pose proof (length_filter (λ y, y ≠ x) es). lia.
    + destruct (insert_elem_ok h e Hw Hlt Hf) as [Hw1 He1].
      destruct (rehash_ok alloc _ Hw1) as (h' & -> & Hw' & He'). exists h'.
      split_and!; [done..|by rewrite He', He1, He|done].
  - unfold hash_find. destruct (find_bucket_ok h e Hs) as (b & -> & Hb). rewrite (Hfind e b Hb).
    exists h. split_and!; [done..|cbn; lia].
  - unfold hash_delete. destruct (find_bucket_ok h e Hs) as (b & -> & Hb). rewrite (Hfind e b Hb).
    pose proof (find_elem_table h e b Hp Hb) as Hf. cbn [mbind outcome_bind].
    destruct (find_elem less b e) as [x|]; cbn [fst snd].
    + destruct Hf as [Hx Ex]. destruct (remove_elem_ok h x Hw Hx) as [Hw1 He1].
      destruct (rehash_ok alloc _ Hw1) as (h' & -> & Hw' & He'). exists h'. split_and!; [done..| |].
      * rewrite He', elements_remove. by apply filter_Permutation.
      * pose proof (length_filter (λ y, y ≠ x) es). lia.
    + exists h. split_and!; [done..|lia].
  - exists h. unfold hash_size. rewrite Hc, He. split_and!; [done..|cbn; lia].
Qed.

(** The same for single calls, as clients use them. *)
Lemma hash_insert_ok alloc h e :
  wf h → Z.of_nat (length (elements h)) + 1 < 2 ^ 32 →
  ∃ h', hash_insert hash_fn less alloc h e = Ret (find_elem less (elements h) e, h') ∧ wf h' ∧
    elements h' ≡ₚ match find_elem less (elements h) e with
                   | None => e :: elements h
                   | Some _ => elements h
                   end.
Proof.
  intros Hw Hlt. destruct (run_hash_cmd_ok alloc (Insert e) h (elements h) Hw) as (h' & Hr & Hw' & He & _);
    [done..|]. exists h'. cbn [run_hash_cmd spec_hash_cmd] in *.
  destruct (hash_insert hash_fn less alloc h e) as [[r h1]| |]; [|done..].
  destruct (find_elem less (elements h) e); cbn in Hr; injection Hr as -> ->; done.
Qed.

Lemma hash_delete_ok alloc h e :
  wf h → Z.of_nat (length (elements h)) + 1 < 2 ^ 32 →
  ∃ h', hash_delete hash_fn less alloc h e = Ret (find_elem less (elements h) e, h') ∧ wf h' ∧
    elements h' ≡ₚ match find_elem less (elements h) e with
                   | None => elements h
                   | Some x => filter (λ y, y ≠ x) (elements h)
                   end.
Proof.
  intros Hw Hlt. destruct (run_hash_cmd_ok alloc (Delete e) h (elements h) Hw) as (h' & Hr & Hw' & He & _);
    [done..|]. exists h'. cbn [run_hash_cmd spec_hash_cmd] in *.
  destruct (hash_delete hash_fn less alloc h e) as [[r h1]| |]; [|done..].
  destruct (find_elem less (elements h) e); cbn in Hr; injection Hr as -> ->; done.
Qed.

Lemma hash_find_ok h e :
  wf h → Z.of_nat (length (elements h)) + 1 < 2 ^ 32 → hash_find hash_fn less h e = Ret (find_elem less (elements h) e).
Proof.
  intros Hw Hlt. destruct (run_hash_cmd_ok true (Find e) h (elements h) Hw) as (h' & Hr & _); [done..|].
  cbn [run_hash_cmd spec_hash_cmd] in *. destruct (hash_find hash_fn less h e) as [r| |]; [|done..].
  cbn in Hr. by injection Hr as ->.
Qed.

(** ** Iteration *)

(** What is left to visit from a position. *)
Definition rest (h : hash A) (b pos : nat) : list A :=
  drop pos (default [] (buckets h !! b)) ++ concat (drop (S b) (buckets h)).

Lemma rest_next_bucket h b :
  (S b < length (buckets h))%nat → rest h (S b) 0 = concat (drop (S b) (buckets h)).
Proof.
  intros Hb. unfold rest. destruct (lookup_lt_is_Some_2 _ _ Hb) as [l Hl].
  rewrite (drop_S _ _ _ Hl), Hl, drop_0. done.
Qed.

Lemma next_loop_ok fuel h b pos :
  sized h → (length (buckets h) ≤ b + fuel + 1)%nat → (b < length (buckets h))%nat →
  let i := next_loop fuel h b pos in
  match rest h b pos with
  | [] => it_elem i = None
  | e :: r => it_elem i = Some e ∧ rest h (it_bucket i) (it_pos i) = r ∧
              (it_bucket i < length (buckets h))%nat
  end.
Proof.
  intros Hs. revert b pos. induction fuel as [|fuel IH]; intros b pos Hf Hb;
    destruct (lookup_lt_is_Some_2 _ _ Hb) as [l Hl]; cbn [next_loop]; unfold rest at 1;
    rewrite Hl; cbn [mbind option_bind default id];
    (destruct (l !! pos) as [e|] eqn:El;
      [rewrite (drop_S _ _ _ El); cbn [app]; split_and!; [done| |done]; unfold rest; cbn; by rewrite Hl|]);
    apply lookup_ge_None in El; rewrite drop_ge by done; cbn [app].
  - rewrite drop_ge by lia. done.
  - destruct Hs as (k & _ & Ec & Elen). case_bool_decide as E.
    + rewrite drop_ge by lia. done.
    + rewrite <-rest_next_bucket by lia. apply IH; lia.
Qed.

Lemma iterate_rest fuel h i :
  sized h → (it_bucket i < length (buckets h))%nat →
  (length (rest h (it_bucket i) (it_pos i)) < fuel)%nat →
  iterate fuel h i = rest h (it_bucket i) (it_pos i).
Proof.
  intros Hs. revert i. induction fuel as [|fuel IH]; intros i Hb Hf; [lia|].
  cbn [iterate]. unfold hash_cur, hash_next.
  pose proof (next_loop_ok (length (buckets h)) h (it_bucket i) (it_pos i) Hs ltac:(lia) Hb) as Hn.
  destruct (rest h (it_bucket i) (it_pos i)) as [|e r]; cbn zeta in Hn.
  - by rewrite Hn.
  - destruct Hn as (-> & Hr & Hb'). f_equal. rewrite IH; [done|done|]. rewrite Hr. cbn in Hf. lia.
Qed.

Lemma rest_first h : sized h → rest h 0 0 = elements h.
Proof.
  intros (k & Hk & _ & El). pose proof (Z.pow_pos_nonneg 2 k). unfold rest, elements.
  destruct (buckets h) as [|l bs]; [cbn in El; lia|]. done.
Qed.

Lemma hash_init_wf h : hash_init true = Some h → wf h ∧ elements h = [].
Proof.
  intros [= <-]. split; [|done]. split.
  - by exists 2.
  - intros i b e Hi He. cbn in Hi. change (replicate 4 [] !! i = Some b) in Hi.
    apply lookup_replicate in Hi as [-> _]. set_solver.
  - done.
  - done.
  - split; [constructor|]. intros a b Ha. by apply not_elem_of_nil in Ha.
Qed.
End spec.

Arguments hash_cmd : clear implicits.
Arguments hash_val : clear implicits.

(** ** The properties *)

(** C21: a hash table is a set with distinct keys.  Any sequence of insertions,
    replacements, searches, deletions and size queries returns the results of
    the same sequence on a set, in any order of the set and whatever the
    outcome of the memory allocations that [rehash] makes on the way. *)
Theorem hash_refines_set {A} `{!EqDecision A} (hash_fn : A → Z) (less : A → A → bool) cs h es :
  HashKey hash_fn less → wf hash_fn less h → elements h ≡ₚ es →
  Z.of_nat (length es + length cs) < 2 ^ 32 →
  ∃ h', run_hash_cmds hash_fn less cs h = Ret ((spec_hash_cmds less cs es).1, h') ∧
        wf hash_fn less h' ∧ elements h' ≡ₚ (spec_hash_cmds less cs es).2.
Proof.
  intros Hk. revert h es. induction cs as [|[alloc c] cs IH]; intros h es Hw He Hlen; [by exists h|].
  cbn [run_hash_cmds spec_hash_cmds length] in *.
  destruct (run_hash_cmd_ok hash_fn less alloc c h es Hw He) as (h1 & -> & Hw1 & He1 & Hl1); [lia|].
  destruct (spec_hash_cmd less c es) as [v es1]. cbn [fst snd mbind outcome_bind] in *.
  destruct (IH h1 es1 Hw1 He1) as (h2 & Hr & Hw2 & He2); [lia|]. rewrite Hr.
  destruct (spec_hash_cmds less cs es1) as [vs es2]. by exists h2.
Qed.

(** Integers hashed by [hash_int], as for file descriptors. *)
Definition int_less (a b : Z * Z) : bool := a.1 <? b.1.
Definition int_hash (a : Z * Z) : Z := hash_int a.1.

Lemma fnv_range bytes : Forall (λ b, 0 ≤ b < 2 ^ 32) bytes → 0 ≤ fnv bytes < 2 ^ 32.
Proof.
  unfold fnv. assert (0 ≤ FNV_32_BASIS < 2 ^ 32) as Hb by (unfold FNV_32_BASIS; lia).
  revert Hb. generalize FNV_32_BASIS as x. induction bytes as [|b bytes IH]; intros x Hx Hf; [done|].
  apply Forall_cons in Hf as [Hb Hf]. cbn [foldl]. apply IH; [|done].
  apply lxor_range; [apply u32_range|done].
Qed.

#[export] Instance int_hash_key : HashKey int_hash int_less.
Proof.
  split.
  - intros e. apply fnv_range. assert (∀ x, 0 ≤ u8 x < 2 ^ 32) as Hu
      by (intros x; pose proof (u8_range x); lia).
    by repeat constructor; apply Hu.
  - intros a. apply Z.ltb_irrefl.
  - intros a b c. unfold same, int_less. rewrite !andb_true_iff, !negb_true_iff, !Z.ltb_ge. lia.
  - intros a b. unfold same, int_less, int_hash.
    rewrite andb_true_iff, !negb_true_iff, !Z.ltb_ge. intros [? ?]. f_equal. lia.
Qed.

Lemma hash_refines_set_witness :
  ∃ h', run_hash_cmds int_hash int_less
      [(true, Insert (7, 1)); (true, Insert (9, 2)); (false, Insert (7, 3)); (true, Find (9, 0));
       (true, Replace (7, 4)); (true, Delete (9, 0)); (true, Size)]
      (Hash 0 4 [[]; []; []; []])
    = Ret ([VElem None; VElem None; VElem (Some (7, 1)); VElem (Some (9, 2));
            VElem (Some (7, 1)); VElem (Some (9, 2)); VSize 1], h') ∧
    wf int_hash int_less h' ∧ elements h' ≡ₚ [(7, 4)].
Proof.
  destruct (hash_refines_set int_hash int_less
      [(true, Insert (7, 1)); (true, Insert (9, 2)); (false, Insert (7, 3)); (true, Find (9, 0));
       (true, Replace (7, 4)); (true, Delete (9, 0)); (true, Size)] (Hash 0 4 [[]; []; []; []]) [])
    as (h' & Hr & Hw & He).
  - apply _.
  - exact (proj1 (hash_init_wf int_hash int_less _ eq_refl)).
  - done.
  - cbn. lia.
  - exists h'. split; [rewrite Hr; vm_compute; reflexivity|]. split; [done|].
    rewrite He. vm_compute. reflexivity.
Defined.

(** [rehash] ends and uses the largest power of two that is at most half
    the number of elements, and at least four buckets; every element is kept,
    in the bucket its hash selects, and a failed allocation leaves the table
    as it was. *)
Theorem rehash_correct {A} `{!EqDecision A} (hash_fn : A → Z) (less : A → A → bool) alloc h :
  HashKey hash_fn less → wf hash_fn less h →
  (∃ k, 2 ≤ k < 32 ∧ new_bucket_count (elem_cnt h) = Ret (2 ^ k) ∧
        2 ^ k ≤ Z.max 4 (elem_cnt h / 2) < 2 ^ (k + 1)) ∧
  (∃ h', rehash hash_fn alloc h = Ret h' ∧ wf hash_fn less h' ∧ elements h' ≡ₚ elements h ∧
         (alloc = true → new_bucket_count (elem_cnt h) = Ret (bucket_cnt h'))) ∧
  rehash hash_fn false h = Ret h.
Proof.
  intros Hk Hw. pose proof (wf_size _ _ _ Hw). pose proof (wf_bound _ _ _ Hw).
  destruct (new_bucket_count_ok (elem_cnt h)) as (k & Hk' & E & Hb); [lia|]. split_and!.
  - by exists k.
  - destruct (rehash_ok hash_fn less alloc h Hw) as (h' & Hr & Hw' & He). exists h'.
    split_and!; [done..|]. intros ->. revert Hr. unfold rehash. rewrite E. cbn [mbind outcome_bind negb].
    destruct (Z.eqb_spec (2 ^ k) (bucket_cnt h)) as [->|_]; [by intros [= <-]|]. cbn [negb].
    set (h0 := Hash _ _ _). assert (∀ es h1, move_elems hash_fn h1 es = Ret h' → bucket_cnt h' = bucket_cnt h1) as Hmv.
    { induction es as [|e es IH]; intros h1; [by intros [= ->]|]. cbn [move_elems].
      destruct (find_bucket hash_fn h1 e) as [[i b]| |]; [|done..]. cbn. by intros ->%IH. }
    by intros ->%Hmv.
  - unfold rehash. rewrite E. cbn [mbind outcome_bind negb].
    by destruct (2 ^ k =? bucket_cnt h).
Qed.

Lemma rehash_correct_witness :
  (∃ k, 2 ≤ k < 32 ∧ new_bucket_count 0 = Ret (2 ^ k) ∧
        2 ^ k ≤ Z.max 4 (0 / 2) < 2 ^ (k + 1)) ∧
  (∃ h', rehash int_hash true (Hash 0 4 [[]; []; []; []]) = Ret h' ∧ wf int_hash int_less h' ∧
         elements h' ≡ₚ [] ∧ (true = true → new_bucket_count 0 = Ret (bucket_cnt h'))) ∧
  rehash int_hash false (Hash 0 4 [[]; []; []; []]) = Ret (Hash 0 4 [[]; []; []; []]).
Proof.
  apply (rehash_correct int_hash int_less true (Hash 0 4 [[]; []; []; []])); [apply _|].
  exact (proj1 (hash_init_wf int_hash int_less _ eq_refl)).
Defined.

(** The iterator of a table visits every element exactly once, in the
    order of [hash_apply], and then returns null. *)
Theorem hash_iteration_complete {A} `{!EqDecision A} (hash_fn : A → Z) (less : A → A → bool) h fuel :
  wf hash_fn less h → (length (elements h) < fuel)%nat →
  iterate fuel h hash_first = hash_apply h ∧ NoDup (iterate fuel h hash_first) ∧
  ∀ e, e ∈ iterate fuel h hash_first ↔ e ∈ elements h.
Proof.
  intros Hw Hf. pose proof (wf_sized _ _ _ Hw) as Hs.
  assert (iterate fuel h hash_first = elements h) as ->.
  { rewrite <-(rest_first h Hs). apply iterate_rest; [done| |].
    2: { change (length (rest h 0 0) < fuel)%nat. by rewrite rest_first. }
    destruct Hs as (k & Hk & _ & El). pose proof (Z.pow_pos_nonneg 2 k). cbn. lia. }
  split_and!; [done|apply (wf_distinct _ _ _ Hw)|done].
Qed.

Lemma hash_iteration_complete_witness :
  let h := Hash 2 4 [[(10, 0)]; []; []; [(3, 5)]] in
  iterate 3 h hash_first = hash_apply h ∧ NoDup (iterate 3 h hash_first) ∧
  ∀ e, e ∈ iterate 3 h hash_first ↔ e ∈ elements h.
Proof.
  apply (hash_iteration_complete (λ e : Z * Z, if e.1 =? 10 then 0 else 3) int_less
           (Hash 2 4 [[(10, 0)]; []; []; [(3, 5)]]) 3).
  - split.
    + by exists 2.
    + intros i b e Hi He. destruct i as [|[|[|[|i]]]]; cbn in Hi; simplify_eq; try set_solver;
        apply list_elem_of_singleton in He as ->; reflexivity.
    + reflexivity.
    + cbn. lia.
    + split; [apply (bool_decide_unpack _); vm_compute; exact I|].
      intros a b Ha Hb. unfold elements in *. cbn in Ha, Hb.
      repeat (apply elem_of_cons in Ha as [->|Ha]); try (by apply not_elem_of_nil in Ha);
      repeat (apply elem_of_cons in Hb as [->|Hb]); try (by apply not_elem_of_nil in Hb); done.
  - cbn. lia.
Defined.
