(* ===== verification/Fdt.v ===== *)
(** * File descriptor tables: the [fdt_*] functions of [threads/thread.c]

    Every process maps descriptors to open files with a hash table keyed by
    descriptor.  A search inserts a descriptor of its own and takes it out
    again; an insertion searches for the first descriptor that is free.  Both
    are clients of [Hash], and the lemmas are about the set it holds; the
    theorem about the calls that use the table is in [SyscallSpec]. *)

From stdpp Require Import base tactics list numbers option sets.
From Stdlib Require Import ZArith Lia.
From S2P Require Import Prelude Hash.

(** A descriptor structure is known by its address; [file_] is the open file
    it refers to. *)
Record file_descriptor : Type := FD {
  fd_addr : Z;
  fd : Z;
  file_ : Z
}.

#[global] Instance file_descriptor_eq : EqDecision file_descriptor.
Proof. solve_decision. Defined.

Definition fdt_cmp (a b : file_descriptor) : bool := fd a <? fd b.
Definition fdt_hash (e : file_descriptor) : Z := hash_int (fd e).

(** The address of the structure on the stack of a search; no descriptor in
    the table is at that address. *)
Definition on_stack : Z := 0.

(** [alloc] gives the outcome of each allocation of the search. *)
Definition fdt_search (alloc : bool * bool) (t : hash file_descriptor) (n : Z)
    : outcome (option file_descriptor * hash file_descriptor) :=
  let singleton := FD on_stack n 0 in
  '(found_elem, t) ← hash_insert fdt_hash fdt_cmp alloc.1 t singleton;
  match found_elem with
  | Some e => mret (Some e, t)
  | None => '(_, t) ← hash_delete fdt_hash fdt_cmp alloc.2 t singleton; mret (None, t)
  end.

Definition INT32_MAX : Z := 2 ^ 31 - 1.

(** [for (curr_fd = 2; curr_fd < INT32_MAX; curr_fd++)]; the result is the
    structure with its descriptor set, or null when none is free.  [alloc i]
    are the outcomes of the allocations of iteration [i]. *)
Fixpoint fdt_insert_loop (fuel : nat) (alloc : Z → bool * bool) (t : hash file_descriptor)
    (fdt_entry : file_descriptor) (curr_fd : Z)
    : outcome (option file_descriptor * hash file_descriptor) :=
  match fuel with
  | O => Diverge
  | S fuel =>
      if curr_fd <? INT32_MAX then
        '(r, t) ← fdt_search (alloc curr_fd) t curr_fd;
        match r with
        | None =>
            let e := FD (fd_addr fdt_entry) curr_fd (file_ fdt_entry) in
            '(_, t) ← hash_insert fdt_hash fdt_cmp (alloc curr_fd).1 t e; mret (Some e, t)
        | Some _ => fdt_insert_loop fuel alloc t fdt_entry (curr_fd + 1)
        end
      else mret (None, t)
  end.

Definition fdt_insert (fuel : nat) (alloc : Z → bool * bool) (t : hash file_descriptor)
    (fdt_entry : file_descriptor) : outcome (option file_descriptor * hash file_descriptor) :=
  fdt_insert_loop fuel alloc t fdt_entry 2.

(** Removes the descriptor; the second component is the file that is closed. *)
Definition fdt_close (alloc : bool) (t : hash file_descriptor) (fd_entry : file_descriptor)
    : outcome (hash file_descriptor * Z) :=
  '(_, t) ← hash_delete fdt_hash fdt_cmp alloc t fd_entry;
  mret (t, file_ fd_entry).

(** ** The table as a set *)

#[export] Instance fdt_key : HashKey fdt_hash fdt_cmp.
Proof.
  split.
  - intros e. apply fnv_range. assert (∀ x, 0 ≤ u8 x < 2 ^ 32) as Hu
      by (intros x; pose proof (u8_range x); lia).
    by repeat constructor; apply Hu.
  - intros a. apply Z.ltb_irrefl.
  - intros a b c. unfold same, fdt_cmp. rewrite !andb_true_iff, !negb_true_iff, !Z.ltb_ge. lia.
  - intros a b. unfold same, fdt_cmp, fdt_hash.
    rewrite andb_true_iff, !negb_true_iff, !Z.ltb_ge. intros [? ?]. f_equal. lia.
Qed.

Lemma same_fd a b : same fdt_cmp a b = true ↔ fd a = fd b.
Proof. unfold same, fdt_cmp. rewrite andb_true_iff, !negb_true_iff, !Z.ltb_ge. lia. Qed.

(** A well-formed table of descriptors, none of them on a stack. *)
Definition fdt_ok (t : hash file_descriptor) : Prop :=
  wf fdt_hash fdt_cmp t ∧ ∀ e, e ∈ elements t → fd_addr e ≠ on_stack.

Lemma fd_unique t a b : fdt_ok t → a ∈ elements t → b ∈ elements t → fd a = fd b → a = b.
Proof. intros [Hw _] Ha Hb E. apply (wf_distinct _ _ _ Hw); [done..|]. by apply same_fd. Qed.

Lemma fdt_ok_perm t t' :
  fdt_ok t → wf fdt_hash fdt_cmp t' → elements t' ≡ₚ elements t → fdt_ok t'.
Proof. intros [_ Ha] Hw He. split; [done|]. intros e. rewrite He. apply Ha. Qed.

(** Looking a descriptor up in the set. *)
Lemma find_fd t n sg :
  fd sg = n →
  match find_elem fdt_cmp (elements t) sg with
  | Some e => e ∈ elements t ∧ fd e = n
  | None => ∀ e, e ∈ elements t → fd e ≠ n
  end.
Proof.
  intros <-. pose proof (find_elem_spec fdt_hash fdt_cmp (elements t) sg) as Hf.
  destruct (find_elem fdt_cmp (elements t) sg) as [x|]; [by rewrite same_fd in Hf|].
  intros e He E. apply same_fd in E. by rewrite (Hf e He) in E.
Qed.

(** A search answers by the descriptor and leaves the table with the elements
    it had. *)
Lemma fdt_search_ok alloc t n :
  fdt_ok t → Z.of_nat (length (elements t)) + 2 < 2 ^ 32 →
  ∃ r t', fdt_search alloc t n = Ret (r, t') ∧ fdt_ok t' ∧ elements t' ≡ₚ elements t ∧
    match r with
    | Some e => e ∈ elements t ∧ fd e = n
    | None => ∀ e, e ∈ elements t → fd e ≠ n
    end.
Proof.
  intros Ht Hlt. pose proof Ht as [Hw Ha]. unfold fdt_search. set (sg := FD on_stack n 0).
  destruct (hash_insert_ok fdt_hash fdt_cmp alloc.1 t sg Hw) as (t1 & -> & Hw1 & He1); [lia|].
  pose proof (find_fd t n sg eq_refl) as Hf. cbn [mbind outcome_bind].
  destruct (find_elem fdt_cmp (elements t) sg) as [x|].
  - destruct Hf. exists (Some x), t1. split_and!; [done| |done..]. by eapply fdt_ok_perm.
  - assert (sg ∉ elements t) as Hsg by (intros He; by apply (Ha sg)).
    destruct (hash_delete_ok fdt_hash fdt_cmp alloc.2 t1 sg Hw1) as (t2 & -> & Hw2 & He2).
    { rewrite He1. cbn [length]. lia. }
    pose proof (find_fd t1 n sg eq_refl) as Hf1. destruct (find_elem fdt_cmp (elements t1) sg) as [y|].
    + destruct Hf1 as [Hy Ey]. rewrite He1, elem_of_cons in Hy.
      destruct Hy as [->|Hy]; [|by destruct (Hf y Hy)].
      assert (elements t2 ≡ₚ elements t) as He.
      { rewrite He2, He1, filter_cons_False by auto. by rewrite filter_ne. }
      exists None, t2. split_and!; [done|by eapply fdt_ok_perm|done..].
    + destruct (Hf1 sg); [|done]. rewrite He1. by left.
Qed.

(** ** Insertion *)

(** The descriptors in use from [n] on. *)
Definition used_from (t : hash file_descriptor) (n : Z) : nat :=
  length (filter (λ e, n ≤ fd e) (elements t)).

Lemma used_from_step t n e :
  fdt_ok t → e ∈ elements t → fd e = n → used_from t n = S (used_from t (n + 1)).
Proof.
  intros [Hw _] He <-. destruct (wf_distinct _ _ _ Hw) as [Hnd Hd]. unfold used_from.
  rewrite (filter_remove e (elements t) Hnd He), !filter_cons.
  rewrite decide_True, decide_False by lia. cbn [length]. f_equal. apply Permutation_length.
  assert (∀ x, x ∈ filter (λ x, x ≠ e) (elements t) → fd x ≠ fd e) as Hne.
  { intros x [Hx Hin]%list_elem_of_filter E. apply Hx, Hd; [done..|]. by apply same_fd. }
  induction (filter (λ x, x ≠ e) (elements t)) as [|x l IH]; [done|].
  rewrite !filter_cons. pose proof (Hne x ltac:(by left)).
  assert (∀ y, y ∈ l → fd y ≠ fd e) as Hne' by (intros y Hy; apply Hne; by right).
  destruct (decide (fd e ≤ fd x)), (decide (fd e + 1 ≤ fd x)); try lia; [constructor|]; by apply IH.
Qed.

Lemma fdt_insert_loop_ok fuel alloc t e n :
  fdt_ok t → fd_addr e ≠ on_stack → Z.of_nat (length (elements t)) + 2 < 2 ^ 32 →
  2 ≤ n → n + Z.of_nat (used_from t n) < INT32_MAX → (used_from t n < fuel)%nat →
  ∃ m t', fdt_insert_loop fuel alloc t e n = Ret (Some (FD (fd_addr e) m (file_ e)), t') ∧
    fdt_ok t' ∧ elements t' ≡ₚ FD (fd_addr e) m (file_ e) :: elements t ∧
    n ≤ m < INT32_MAX ∧ (∀ x, x ∈ elements t → fd x ≠ m) ∧
    (∀ k, n ≤ k < m → ∃ x, x ∈ elements t ∧ fd x = k).
Proof.
  revert t n. induction fuel as [|fuel IH]; intros t n Ht Ha Hlt Hn Hmax Hf; [lia|].
  cbn [fdt_insert_loop]. rewrite (proj2 (Z.ltb_lt n INT32_MAX)) by lia.
  destruct (fdt_search_ok (alloc n) t n Ht Hlt) as (r & t1 & -> & Ht1 & He1 & Hr). cbn [mbind outcome_bind].
  destruct r as [x|].
  - destruct Hr as [Hx Ex]. pose proof (used_from_step t n x Ht Hx Ex) as Hu.
    assert (∀ k, used_from t1 k = used_from t k) as Hu1
      by (intros k; unfold used_from; by rewrite He1).
    destruct (IH t1 (n + 1)) as (m & t' & Hrun & Ht' & He' & Hm & Hno & Hall);
      [done|done|by rewrite He1|lia|rewrite Hu1; lia|rewrite Hu1; lia|].
    exists m, t'. split_and!; [done|done|by rewrite He', He1|lia|lia| |].
    + intros y. rewrite <-He1. apply Hno.
    + intros k Hk. destruct (decide (k = n)) as [->|]; [by exists x|].
      setoid_rewrite He1 in Hall. apply Hall. lia.
  - set (e' := FD (fd_addr e) n (file_ e)).
    destruct (hash_insert_ok fdt_hash fdt_cmp (alloc n).1 t1 e') as (t2 & -> & Hw2 & He2);
      [apply Ht1|rewrite He1; lia|]. cbn [mbind outcome_bind].
    pose proof (find_fd t1 n e' eq_refl) as Hf1. destruct (find_elem fdt_cmp (elements t1) e') as [y|].
    { destruct Hf1 as [Hy Ey]. rewrite He1 in Hy. by destruct (Hr y Hy). }
    exists n, t2. split_and!; [done| |by rewrite He2, He1|lia|lia|done|lia].
    split; [done|]. intros y. rewrite He2, elem_of_cons. intros [->|Hy]; [done|].
    by apply Ht1.
Qed.

(** Opening a file always succeeds while fewer than 2^31 - 4 are open, and
    gives it the smallest descriptor from 2 on that is not in use, keeping
    every other descriptor; the loop ends after at most one iteration per
    open file and one more. *)
Lemma fdt_insert_ok alloc t e fuel :
  fdt_ok t → fd_addr e ≠ on_stack → Z.of_nat (length (elements t)) < 2 ^ 31 - 4 →
  (length (elements t) < fuel)%nat →
  ∃ m t', fdt_insert fuel alloc t e = Ret (Some (FD (fd_addr e) m (file_ e)), t') ∧
    fdt_ok t' ∧ elements t' ≡ₚ FD (fd_addr e) m (file_ e) :: elements t ∧
    2 ≤ m < INT32_MAX ∧ (∀ x, x ∈ elements t → fd x ≠ m) ∧
    (∀ k, 2 ≤ k < m → ∃ x, x ∈ elements t ∧ fd x = k).
Proof.
  intros Ht Ha Hlt Hf. assert (used_from t 2 ≤ length (elements t))%nat by apply length_filter.
  apply fdt_insert_loop_ok; [done|done|lia|lia|unfold INT32_MAX; lia|lia].
Qed.

(** ** Closing *)

(** Closing removes exactly the descriptor closed. *)
Lemma fdt_close_ok alloc t e :
  fdt_ok t → Z.of_nat (length (elements t)) + 2 < 2 ^ 32 → e ∈ elements t →
  ∃ t', fdt_close alloc t e = Ret (t', file_ e) ∧ fdt_ok t' ∧ elements t ≡ₚ e :: elements t' ∧
    ∀ x, x ∈ elements t' → fd x ≠ fd e.
Proof.
  intros Ht Hlt Hin. unfold fdt_close.
  destruct (hash_delete_ok fdt_hash fdt_cmp alloc t e) as (t2 & -> & Hw2 & He2); [apply Ht|lia|].
  pose proof (find_fd t (fd e) e eq_refl) as Hf. destruct (find_elem fdt_cmp (elements t) e) as [y|]; [|by destruct (Hf e Hin)].
  destruct Hf as [Hy Ey]. assert (y = e) as -> by (by apply (fd_unique t)).
  exists t2. assert (elements t ≡ₚ e :: elements t2) as Hpm.
  { rewrite He2. apply filter_remove; [|done]. apply (wf_distinct _ _ _ (proj1 Ht)). }
  split_and!; [done| |done|].
  - split; [done|]. intros x Hx. apply (proj2 Ht). rewrite Hpm. by right.
  - intros x Hx E. rewrite He2 in Hx. apply list_elem_of_filter in Hx as [Hne Hx]. by apply Hne, (fd_unique t).
Qed.
