(* ===== verification/KState.v ===== *)
(** * The state of the kernel

    The members of every [struct thread], [struct semaphore], [struct lock],
    condition variable and shared lock, the scheduler's variables, the timer
    and the interrupt flag, and the kernel stacks of threads that are not
    running.  [Thread], [Synch] and [Machine] hold the code that works on it.

    A function that can switch threads is cut at the points where control may
    leave the thread: the code that remains is a [frame] on the thread's
    kernel stack, executed when the thread runs again.  Lists are Rocq lists:
    [LinkedList] shows what the list functions do to the pointers.  The member
    [stale] is not part of the kernel: it tells from when on the lists are no
    description of memory. *)

From stdpp Require Import base tactics list numbers option gmap sets.
From stdpp Require Import functions.
From Stdlib Require Import ZArith Lia.
From S2P Require Import Prelude LinkedList ListOps FixedPoint.

Local Open Scope pintos_scope.
Local Open Scope Z_scope.

(** ** Names of objects *)

(** Threads are known by their page. *)
Abbreviation tp := positive (only parsing).

Inductive lock_id : Type :=
| TidLock
| L (n : positive)
| SlockLock (n : positive).

Inductive sema_id : Type :=
| IdleStarted
| Sema (n : positive)
| LockSema (l : lock_id)
| WaiterSema (t : tp).

Inductive cond_id : Type :=
| Cond (n : positive)
| SlockCond (n : positive).

(** The lists [thread_pl] can point to: the run queue and the waiters of a
    semaphore. *)
Inductive plist : Type :=
| ReadyList
| Waiters (s : sema_id).

#[global] Instance lock_id_eq : EqDecision lock_id.
Proof. solve_decision. Defined.
#[global] Instance sema_id_eq : EqDecision sema_id.
Proof. solve_decision. Defined.
#[global] Instance cond_id_eq : EqDecision cond_id.
Proof. solve_decision. Defined.
#[global] Instance plist_eq : EqDecision plist.
Proof. solve_decision. Defined.

(** ** Kernel stacks *)

(** The code a thread has still to execute, outermost call last. *)
Inductive frame : Type :=
| F_intr_set_level (on : bool)
| F_iret
| F_kernel_thread
| F_idle
| F_idle_loop
| F_idle_resume
| F_intr_enable
| F_yield
| F_unblock (t : tp)
| F_sema_down (s : sema_id)
| F_sema_down_loop (s : sema_id) (old : bool)
| F_sema_up (s : sema_id)
| F_sema_up_pop (s : sema_id)
| F_lock_acquire (l : lock_id)
| F_lock_acquire_give (l : lock_id) (old : bool)
| F_lock_release (l : lock_id)
| F_cond_wait (c : cond_id) (l : lock_id)
| F_cond_signal (c : cond_id) (l : lock_id)
| F_cond_broadcast (c : cond_id) (l : lock_id)
| F_exclusive_loop (n : positive)
| F_shared_loop (n : positive)
| F_release_shared (n : positive)
| F_release_exclusive (n : positive)
| F_allocate_tid (t : tp)
| F_create (t : tp) (is_idle : bool).

(** ** Threads *)

Inductive thread_status : Type :=
| THREAD_RUNNING
| THREAD_READY
| THREAD_BLOCKED
| THREAD_DYING.

#[global] Instance thread_status_eq : EqDecision thread_status.
Proof. solve_decision. Defined.

Record thread : Type := Thread {
  magic : bool;
  tid : Z;
  status : thread_status;
  priority : Z;
  original_priority : Z;
  nice : Z;
  recent_cpu : Z;
  start : Z;
  sleep : Z;
  recently_up : bool;
  donated : bool;
  thread_pl : option plist;
  waiting_for_tlock : option tp;
  acquired_locks : list lock_id;
  user : bool;
  stack : list frame
}.

Definition PRI_MIN : Z := 0.
Definition PRI_DEFAULT : Z := 31.
Definition PRI_MAX : Z := 63.
Definition TIME_SLICE : Z := 4.
Definition TIMER_FREQ : Z := 100.

(** Assignments to members. *)
Definition set_tid (v : Z) (t : thread) : thread :=
  Thread (magic t) v (status t) (priority t) (original_priority t) (nice t) (recent_cpu t)
    (start t) (sleep t) (recently_up t) (donated t) (thread_pl t) (waiting_for_tlock t)
    (acquired_locks t) (user t) (stack t).
Definition set_status (v : thread_status) (t : thread) : thread :=
  Thread (magic t) (tid t) v (priority t) (original_priority t) (nice t) (recent_cpu t)
    (start t) (sleep t) (recently_up t) (donated t) (thread_pl t) (waiting_for_tlock t)
    (acquired_locks t) (user t) (stack t).
Definition set_priority (v : Z) (t : thread) : thread :=
  Thread (magic t) (tid t) (status t) v (original_priority t) (nice t) (recent_cpu t)
    (start t) (sleep t) (recently_up t) (donated t) (thread_pl t) (waiting_for_tlock t)
    (acquired_locks t) (user t) (stack t).
Definition set_original_priority (v : Z) (t : thread) : thread :=
  Thread (magic t) (tid t) (status t) (priority t) v (nice t) (recent_cpu t)
    (start t) (sleep t) (recently_up t) (donated t) (thread_pl t) (waiting_for_tlock t)
    (acquired_locks t) (user t) (stack t).
Definition set_nice (v : Z) (t : thread) : thread :=
  Thread (magic t) (tid t) (status t) (priority t) (original_priority t) v (recent_cpu t)
    (start t) (sleep t) (recently_up t) (donated t) (thread_pl t) (waiting_for_tlock t)
    (acquired_locks t) (user t) (stack t).
Definition set_recent_cpu (v : Z) (t : thread) : thread :=
  Thread (magic t) (tid t) (status t) (priority t) (original_priority t) (nice t) v
    (start t) (sleep t) (recently_up t) (donated t) (thread_pl t) (waiting_for_tlock t)
    (acquired_locks t) (user t) (stack t).
Definition set_sleep (v w : Z) (t : thread) : thread :=
  Thread (magic t) (tid t) (status t) (priority t) (original_priority t) (nice t) (recent_cpu t)
    v w (recently_up t) (donated t) (thread_pl t) (waiting_for_tlock t)
    (acquired_locks t) (user t) (stack t).
Definition set_recently_up (v : bool) (t : thread) : thread :=
  Thread (magic t) (tid t) (status t) (priority t) (original_priority t) (nice t) (recent_cpu t)
    (start t) (sleep t) v (donated t) (thread_pl t) (waiting_for_tlock t)
    (acquired_locks t) (user t) (stack t).
Definition set_donated (v : bool) (t : thread) : thread :=
  Thread (magic t) (tid t) (status t) (priority t) (original_priority t) (nice t) (recent_cpu t)
    (start t) (sleep t) (recently_up t) v (thread_pl t) (waiting_for_tlock t)
    (acquired_locks t) (user t) (stack t).
Definition set_thread_pl (v : option plist) (t : thread) : thread :=
  Thread (magic t) (tid t) (status t) (priority t) (original_priority t) (nice t) (recent_cpu t)
    (start t) (sleep t) (recently_up t) (donated t) v (waiting_for_tlock t)
    (acquired_locks t) (user t) (stack t).
Definition set_waiting (v : option tp) (t : thread) : thread :=
  Thread (magic t) (tid t) (status t) (priority t) (original_priority t) (nice t) (recent_cpu t)
    (start t) (sleep t) (recently_up t) (donated t) (thread_pl t) v
    (acquired_locks t) (user t) (stack t).
Definition set_acquired (v : list lock_id) (t : thread) : thread :=
  Thread (magic t) (tid t) (status t) (priority t) (original_priority t) (nice t) (recent_cpu t)
    (start t) (sleep t) (recently_up t) (donated t) (thread_pl t) (waiting_for_tlock t)
    v (user t) (stack t).
Definition set_stack (v : list frame) (t : thread) : thread :=
  Thread (magic t) (tid t) (status t) (priority t) (original_priority t) (nice t) (recent_cpu t)
    (start t) (sleep t) (recently_up t) (donated t) (thread_pl t) (waiting_for_tlock t)
    (acquired_locks t) (user t) v.
Definition clear_magic (t : thread) : thread :=
  Thread false (tid t) (status t) (priority t) (original_priority t) (nice t) (recent_cpu t)
    (start t) (sleep t) (recently_up t) (donated t) (thread_pl t) (waiting_for_tlock t)
    (acquired_locks t) (user t) (stack t).

(** ** The machine *)

(** The scheduler's variables, the timer and the interrupt flag. *)
Record sched : Type := Sched {
  current : tp;
  idle_thread : option tp;
  initial_thread : tp;
  intr_on : bool;
  in_external_intr : bool;
  yield_on_return : bool;
  thread_ticks : Z;
  ticks : Z;
  idle_ticks : Z;
  kernel_ticks : Z;
  user_ticks : Z;
  load_avg : Z;
  load_avg_coefficient : Z;
  next_tid : Z
}.

(** [stale] records that [list_remove] has been called on an element that was in
    no list.  [lib/kernel/list.h] leaves that undefined: the call writes through
    the pointers the element had when it was last in a list.  From then on the
    lists here need not be the lists in memory any more, and the theorems about
    lists are about states in which [stale] is not set. *)
Record kstate : Type := KState {
  threads : tp → thread;
  lists : plist → list tp;
  sleeping_list : list tp;
  all_list : list tp;
  sema_value : sema_id → Z;
  holder : lock_id → option tp;
  cond_waiters : cond_id → list tp;
  slock_i : positive → Z;
  cpu : sched;
  stale : bool
}.

Definition set_current (v : tp) (c : sched) : sched :=
  Sched v (idle_thread c) (initial_thread c) (intr_on c) (in_external_intr c) (yield_on_return
    c) (thread_ticks c) (ticks c) (idle_ticks c) (kernel_ticks c) (user_ticks c) (load_avg c)
    (load_avg_coefficient c) (next_tid c).
Definition set_idle_thread (v : option tp) (c : sched) : sched :=
  Sched (current c) v (initial_thread c) (intr_on c) (in_external_intr c) (yield_on_return c)
    (thread_ticks c) (ticks c) (idle_ticks c) (kernel_ticks c) (user_ticks c) (load_avg c)
    (load_avg_coefficient c) (next_tid c).
Definition set_initial_thread (v : tp) (c : sched) : sched :=
  Sched (current c) (idle_thread c) v (intr_on c) (in_external_intr c) (yield_on_return c)
    (thread_ticks c) (ticks c) (idle_ticks c) (kernel_ticks c) (user_ticks c) (load_avg c)
    (load_avg_coefficient c) (next_tid c).
Definition set_intr_on (v : bool) (c : sched) : sched :=
  Sched (current c) (idle_thread c) (initial_thread c) v (in_external_intr c) (yield_on_return
    c) (thread_ticks c) (ticks c) (idle_ticks c) (kernel_ticks c) (user_ticks c) (load_avg c)
    (load_avg_coefficient c) (next_tid c).
Definition set_in_external_intr (v : bool) (c : sched) : sched :=
  Sched (current c) (idle_thread c) (initial_thread c) (intr_on c) v (yield_on_return c)
    (thread_ticks c) (ticks c) (idle_ticks c) (kernel_ticks c) (user_ticks c) (load_avg c)
    (load_avg_coefficient c) (next_tid c).
Definition set_yield_on_return (v : bool) (c : sched) : sched :=
  Sched (current c) (idle_thread c) (initial_thread c) (intr_on c) (in_external_intr c) v
    (thread_ticks c) (ticks c) (idle_ticks c) (kernel_ticks c) (user_ticks c) (load_avg c)
    (load_avg_coefficient c) (next_tid c).
Definition set_thread_ticks (v : Z) (c : sched) : sched :=
  Sched (current c) (idle_thread c) (initial_thread c) (intr_on c) (in_external_intr c)
    (yield_on_return c) v (ticks c) (idle_ticks c) (kernel_ticks c) (user_ticks c) (load_avg c)
    (load_avg_coefficient c) (next_tid c).
Definition set_ticks (v : Z) (c : sched) : sched :=
  Sched (current c) (idle_thread c) (initial_thread c) (intr_on c) (in_external_intr c)
    (yield_on_return c) (thread_ticks c) v (idle_ticks c) (kernel_ticks c) (user_ticks c)
    (load_avg c) (load_avg_coefficient c) (next_tid c).
Definition set_idle_ticks (v : Z) (c : sched) : sched :=
  Sched (current c) (idle_thread c) (initial_thread c) (intr_on c) (in_external_intr c)
    (yield_on_return c) (thread_ticks c) (ticks c) v (kernel_ticks c) (user_ticks c) (load_avg
    c) (load_avg_coefficient c) (next_tid c).
Definition set_kernel_ticks (v : Z) (c : sched) : sched :=
  Sched (current c) (idle_thread c) (initial_thread c) (intr_on c) (in_external_intr c)
    (yield_on_return c) (thread_ticks c) (ticks c) (idle_ticks c) v (user_ticks c) (load_avg c)
    (load_avg_coefficient c) (next_tid c).
Definition set_user_ticks (v : Z) (c : sched) : sched :=
  Sched (current c) (idle_thread c) (initial_thread c) (intr_on c) (in_external_intr c)
    (yield_on_return c) (thread_ticks c) (ticks c) (idle_ticks c) (kernel_ticks c) v (load_avg
    c) (load_avg_coefficient c) (next_tid c).
Definition set_load_avg (v : Z) (c : sched) : sched :=
  Sched (current c) (idle_thread c) (initial_thread c) (intr_on c) (in_external_intr c)
    (yield_on_return c) (thread_ticks c) (ticks c) (idle_ticks c) (kernel_ticks c) (user_ticks
    c) v (load_avg_coefficient c) (next_tid c).
Definition set_load_avg_coefficient (v : Z) (c : sched) : sched :=
  Sched (current c) (idle_thread c) (initial_thread c) (intr_on c) (in_external_intr c)
    (yield_on_return c) (thread_ticks c) (ticks c) (idle_ticks c) (kernel_ticks c) (user_ticks
    c) (load_avg c) v (next_tid c).
Definition set_next_tid (v : Z) (c : sched) : sched :=
  Sched (current c) (idle_thread c) (initial_thread c) (intr_on c) (in_external_intr c)
    (yield_on_return c) (thread_ticks c) (ticks c) (idle_ticks c) (kernel_ticks c) (user_ticks
    c) (load_avg c) (load_avg_coefficient c) v.

Definition with_threads (v : tp → thread) (s : kstate) : kstate :=
  KState v (lists s) (sleeping_list s) (all_list s) (sema_value s) (holder s) (cond_waiters s)
    (slock_i s) (cpu s) (stale s).
Definition with_lists (v : plist → list tp) (s : kstate) : kstate :=
  KState (threads s) v (sleeping_list s) (all_list s) (sema_value s) (holder s) (cond_waiters s)
    (slock_i s) (cpu s) (stale s).
Definition with_sleeping_list (v : list tp) (s : kstate) : kstate :=
  KState (threads s) (lists s) v (all_list s) (sema_value s) (holder s) (cond_waiters s)
    (slock_i s) (cpu s) (stale s).
Definition with_all_list (v : list tp) (s : kstate) : kstate :=
  KState (threads s) (lists s) (sleeping_list s) v (sema_value s) (holder s) (cond_waiters s)
    (slock_i s) (cpu s) (stale s).
Definition with_sema_value (v : sema_id → Z) (s : kstate) : kstate :=
  KState (threads s) (lists s) (sleeping_list s) (all_list s) v (holder s) (cond_waiters s)
    (slock_i s) (cpu s) (stale s).
Definition with_holder (v : lock_id → option tp) (s : kstate) : kstate :=
  KState (threads s) (lists s) (sleeping_list s) (all_list s) (sema_value s) v (cond_waiters s)
    (slock_i s) (cpu s) (stale s).
Definition with_cond_waiters (v : cond_id → list tp) (s : kstate) : kstate :=
  KState (threads s) (lists s) (sleeping_list s) (all_list s) (sema_value s) (holder s) v
    (slock_i s) (cpu s) (stale s).
Definition with_slock_i (v : positive → Z) (s : kstate) : kstate :=
  KState (threads s) (lists s) (sleeping_list s) (all_list s) (sema_value s) (holder s)
    (cond_waiters s) v (cpu s) (stale s).
Definition with_cpu (v : sched) (s : kstate) : kstate :=
  KState (threads s) (lists s) (sleeping_list s) (all_list s) (sema_value s) (holder s)
    (cond_waiters s) (slock_i s) v (stale s).
Definition with_stale (v : bool) (s : kstate) : kstate :=
  KState (threads s) (lists s) (sleeping_list s) (all_list s) (sema_value s) (holder s)
    (cond_waiters s) (slock_i s) (cpu s) v.

(** Kernel code that does not switch threads. *)
Abbreviation K := (st kstate).

Definition cpu_do (f : sched → sched) : K unit := modifyS (λ s, with_cpu (f (cpu s)) s).
Definition upd (t : tp) (f : thread → thread) : K unit :=
  modifyS (λ s, with_threads (<[t := f (threads s t)]> (threads s)) s).
Definition get {A} (t : tp) (f : thread → A) : K A := gets (λ s, f (threads s t)).
Definition set_list (l : plist) (v : list tp) : K unit :=
  modifyS (λ s, with_lists (<[l := v]> (lists s)) s).

(** A call of [list_remove], [found] if the element is in the list. *)
Definition note_remove (found : bool) : K unit := modifyS (λ s, with_stale (stale s || negb found) s).
