(* ===== verification/Thread.v ===== *)
(** * Threads and scheduling: [threads/thread.c]

    Every function that cannot switch threads is a function on the kernel
    state, statement by statement.  Those that can ([thread_block],
    [thread_yield], [thread_unblock], [thread_exit], ...) end by calling
    [schedule], after pushing the [frame]s of the code behind the switch.
    The interrupt level functions of [threads/interrupt.c] and the timer
    functions of [devices/timer.c] that the scheduler uses are here too. *)

From stdpp Require Import base tactics list numbers option sets functions.
From Stdlib Require Import ZArith Lia.
From S2P Require Import Prelude LinkedList ListOps FixedPoint KState.

Local Open Scope Z_scope.

(** ** Interrupt level *)

Definition intr_context : K bool := gets (λ s, in_external_intr (cpu s)).
Definition intr_get_level : K bool := gets (λ s, intr_on (cpu s)).

Definition intr_disable : K bool :=
  old ← intr_get_level;
  cpu_do (set_intr_on false);;
  mret old.

Definition intr_enable : K bool :=
  old ← intr_get_level;
  (c ← intr_context; assertS (negb c));;
  cpu_do (set_intr_on true);;
  mret old.

Definition intr_set_level (on : bool) : K bool := if on then intr_enable else intr_disable.

Definition intr_yield_on_return : K unit :=
  (c ← intr_context; assertS c);;
  cpu_do (set_yield_on_return true).

(** ** The running thread *)

Definition running_thread : K tp := gets (λ s, current (cpu s)).

Definition is_thread (t : option tp) : K bool :=
  match t with Some t => get t magic | None => mret false end.

Definition thread_current : K tp :=
  t ← running_thread;
  (b ← is_thread (Some t); assertS b);;
  (st ← get t status; assertS (bool_decide (st = THREAD_RUNNING)));;
  mret t.

(** Code behind a call that can switch threads, innermost first. *)
Definition push (fs : list frame) : K unit :=
  t ← running_thread; upd t (λ r, set_stack (fs ++ stack r) r).

(** ** Priority lists *)

Definition thread_cmp (ts : tp → thread) (a b : tp) : bool :=
  priority (ts b) <? priority (ts a).

Definition list_insert_ordered (l : plist) (t : tp) : K unit :=
  s ← getS;
  set_list l (insert_sorted (thread_cmp (threads s)) t (lists s l)).

(** [list_update_elem (list, &t->elem, thread_cmp)]: the element is removed from
    whatever list it is in and inserted into [list].  An element that was popped
    from [list] before is still linked to its old neighbours: removing it again
    changes nothing as long as they are neighbours, and it goes back to the list. *)
Definition list_update_elem (l : option plist) (t : tp) : K unit :=
  match l with
  | None => panicS
  | Some l =>
      s ← getS;
      note_remove (bool_decide (t ∈ lists s l));;
      set_list l (filter (λ x, x ≠ t) (lists s l));;
      list_insert_ordered l t
  end.

Definition thread_list_top_pri (l : plist) : K Z :=
  s ← getS;
  mret match lists s l with [] => PRI_MIN | top :: _ => priority (threads s top) end.

(** ** Switching *)

Definition next_thread_to_run : K (option tp) :=
  s ← getS;
  match lists s ReadyList with
  | [] => mret (idle_thread (cpu s))
  | ret :: rest =>
      set_list ReadyList rest;;
      upd ret (set_thread_pl None);;
      mret (Some ret)
  end.

Definition thread_schedule_tail (prev : option tp) : K unit :=
  cur ← running_thread;
  (on ← intr_get_level; assertS (negb on));;
  upd cur (set_status THREAD_RUNNING);;
  cpu_do (set_thread_ticks 0);;
  match prev with
  | None => mret tt
  | Some p =>
      s ← getS;
      if bool_decide (status (threads s p) = THREAD_DYING)
         && bool_decide (p ≠ initial_thread (cpu s)) then
        assertS (bool_decide (p ≠ cur));;
        upd p clear_magic
      else mret tt
  end.

Definition schedule : K unit :=
  cur ← running_thread;
  next ← next_thread_to_run;
  (on ← intr_get_level; assertS (negb on));;
  (st ← get cur status; assertS (bool_decide (st ≠ THREAD_RUNNING)));;
  (b ← is_thread next; assertS b);;
  match next with
  | None => panicS
  | Some n =>
      if bool_decide (cur ≠ n) then
        cpu_do (set_current n);;
        thread_schedule_tail (Some cur)
      else thread_schedule_tail None
  end.

Definition thread_block : K unit :=
  (c ← intr_context; assertS (negb c));;
  (on ← intr_get_level; assertS (negb on));;
  cur ← thread_current;
  upd cur (set_status THREAD_BLOCKED);;
  schedule.

Definition thread_yield : K unit :=
  cur ← thread_current;
  (c ← intr_context; assertS (negb c));;
  old_level ← intr_disable;
  s ← getS;
  (if bool_decide (Some cur ≠ idle_thread (cpu s)) then
     list_insert_ordered ReadyList cur;;
     upd cur (set_thread_pl (Some ReadyList))
   else mret tt);;
  upd cur (set_status THREAD_READY);;
  push [F_intr_set_level old_level];;
  schedule.

Definition thread_get_priority : K Z :=
  old_level ← intr_disable;
  cur ← thread_current;
  ret_pri ← get cur priority;
  intr_set_level old_level;;
  mret ret_pri.

Definition thread_unblock (t : tp) : K unit :=
  (b ← is_thread (Some t); assertS b);;
  old_level ← intr_disable;
  (st ← get t status; assertS (bool_decide (st = THREAD_BLOCKED)));;
  list_insert_ordered ReadyList t;;
  upd t (λ r, set_status THREAD_READY (set_thread_pl (Some ReadyList) r));;
  pri ← thread_get_priority;
  top ← thread_list_top_pri ReadyList;
  if (pri <? top) && old_level then push [F_yield; F_intr_set_level old_level]
  else intr_set_level old_level;; mret tt.

(** [process_exit], which runs first, belongs to the process component. *)
Definition thread_exit : K unit :=
  (c ← intr_context; assertS (negb c));;
  intr_disable;;
  cur ← thread_current;
  modifyS (λ s, with_all_list (filter (λ x, x ≠ cur) (all_list s)) s);;
  upd cur (λ r, set_status THREAD_DYING (set_thread_pl None r));;
  schedule.

(** ** Sleeping *)

Definition timer_elapsed (then_ : Z) : K Z := gets (λ s, s64 (ticks (cpu s) - then_)).

(** The loop over [sleeping_list], from the elements [ts] on. *)
Fixpoint update_timers_loop (ts : list tp) : K unit :=
  match ts with
  | [] => mret tt
  | t :: ts =>
      st0 ← get t start;
      e ← timer_elapsed st0;
      sl ← get t sleep;
      (if sl <=? e then
         modifyS (λ s, with_sleeping_list (filter (λ x, x ≠ t) (sleeping_list s)) s);;
         list_insert_ordered ReadyList t;;
         upd t (λ r, set_status THREAD_READY (set_thread_pl (Some ReadyList) r))
       else mret tt);;
      update_timers_loop ts
  end.

Definition thread_update_timers : K unit :=
  s ← getS; update_timers_loop (sleeping_list s).

Definition thread_sleep : K unit :=
  cur ← thread_current;
  modifyS (λ s, with_sleeping_list (sleeping_list s ++ [cur]) s);;
  thread_block.

Definition timer_sleep (n : Z) : K unit :=
  (on ← intr_get_level; assertS on);;
  old_level ← intr_disable;
  cur ← thread_current;
  s ← getS;
  upd cur (set_sleep (ticks (cpu s)) n);;
  push [F_intr_set_level old_level];;
  thread_sleep.

(** ** Creation *)

Section config.

(** [thread_mlfqs], set from the command line before threads start. *)
Context (thread_mlfqs : bool).

Definition init_thread (t : tp) (pri : Z) : K unit :=
  assertS ((PRI_MIN <=? pri) && (pri <=? PRI_MAX));;
  old_level ← intr_disable;
  let p := if thread_mlfqs then PRI_DEFAULT else pri in
  upd t (λ _, Thread true 0 THREAD_BLOCKED p p 0 0 (-1) (-1) false false None None [] false []);;
  modifyS (λ s, with_all_list (all_list s ++ [t]) s);;
  intr_set_level old_level;;
  mret tt.

(** ** Priorities *)

Definition thread_set_priority (new_priority : Z) : K unit :=
  if thread_mlfqs then mret tt
  else
    t ← thread_current;
    old_level ← intr_disable;
    upd t (set_original_priority new_priority);;
    d ← get t donated;
    p ← get t priority;
    (if (d : bool) then
       if p <? new_priority then
         upd t (set_priority new_priority);; upd t (set_donated false)
       else mret tt
     else upd t (set_priority new_priority));;
    p ← get t priority;
    top ← thread_list_top_pri ReadyList;
    if p <? top then push [F_yield; F_intr_set_level old_level]
    else intr_set_level old_level;; mret tt.

(** The value of the priority formula, before it is clamped. *)
Definition mlfqs_priority (recent_cpu nice : Z) : Z :=
  let quarter_cpu := div_fpn recent_cpu 4 in
  let sub1 := sub_fpfp (conv_itofp PRI_MAX) quarter_cpu in
  rzconv_fptoi (sub_fpn sub1 (s32 (nice * 2))).

Definition thread_calculate_priority (t : tp) : K unit :=
  old_level ← intr_disable;
  cpu_used ← get t recent_cpu;
  n ← get t nice;
  let p := mlfqs_priority cpu_used n in
  let p := if p <? PRI_MIN then PRI_MIN else if PRI_MAX <? p then PRI_MAX else p in
  upd t (set_priority p);;
  pl ← get t thread_pl;
  (match pl with Some _ => list_update_elem pl t | None => mret tt end);;
  top ← thread_list_top_pri ReadyList;
  if p <? top then
    c ← intr_context;
    if (c : bool) then intr_yield_on_return;; intr_set_level old_level;; mret tt
    else intr_set_level old_level;; push [F_yield; F_intr_set_level old_level]
  else intr_set_level old_level;; mret tt.

Definition thread_set_nice (n : Z) : K unit :=
  assertS ((n <=? 20) && (-20 <=? n));;
  t ← thread_current;
  upd t (set_nice n);;
  thread_calculate_priority t.

Definition thread_get_nice : K Z := t ← thread_current; get t nice.

Definition thread_get_load_avg : K Z :=
  s ← getS; mret (s32 (100 * rnconv_fptoi (load_avg (cpu s)))).

Definition thread_get_recent_cpu : K Z :=
  t ← thread_current; r ← get t recent_cpu; mret (s32 (100 * rnconv_fptoi r)).

Definition thread_calculate_load_avg : K unit :=
  s ← getS;
  let product1 := mult_fpfp (div_fpn (conv_itofp 59) 60) (load_avg (cpu s)) in
  let num_ready := Z.of_nat (length (lists s ReadyList)) in
  t ← thread_current;
  let num_ready := if bool_decide (Some t ≠ idle_thread (cpu s)) then num_ready + 1 else num_ready in
  let product2 := div_fpn (conv_itofp num_ready) 60 in
  let la := add_fpfp product1 product2 in
  cpu_do (set_load_avg la);;
  cpu_do (set_load_avg_coefficient (div_fpfp (mult_fpn la 2) (add_fpn (mult_fpn la 2) 1))).

Definition thread_calculate_recent_cpu (t : tp) : K unit :=
  upd t (set_recently_up true);;
  s ← getS;
  let r := threads s t in
  upd t (set_recent_cpu (add_fpn (mult_fpfp (load_avg_coefficient (cpu s)) (recent_cpu r)) (nice r))).

Definition thread_update_priorities (t : tp) : K unit :=
  r ← get t recently_up;
  if (r : bool) then upd t (set_recently_up false);; thread_calculate_priority t
  else mret tt.

Fixpoint foreach_loop (func : tp → K unit) (ts : list tp) : K unit :=
  match ts with
  | [] => mret tt
  | t :: ts => func t;; foreach_loop func ts
  end.

Definition thread_foreach (func : tp → K unit) : K unit :=
  (on ← intr_get_level; assertS (negb on));;
  s ← getS; foreach_loop func (all_list s).

(** ** The timer interrupt *)

Definition count_tick (t : tp) : K unit :=
  s ← getS;
  if bool_decide (Some t = idle_thread (cpu s)) then cpu_do (set_idle_ticks (s64 (idle_ticks (cpu s) + 1)))
  else if user (threads s t) then cpu_do (set_user_ticks (s64 (user_ticks (cpu s) + 1)))
  else cpu_do (set_kernel_ticks (s64 (kernel_ticks (cpu s) + 1))).

Definition mlfqs_tick (t : tp) : K unit :=
  s ← getS;
  (if bool_decide (Some t ≠ idle_thread (cpu s)) then
     upd t (λ r, set_recent_cpu (add_fpn (recent_cpu r) 1) r);; upd t (set_recently_up true)
   else mret tt);;
  (if Z.rem (ticks (cpu s)) TIMER_FREQ =? 0 then
     thread_calculate_load_avg;;
     old_level ← intr_disable;
     thread_foreach thread_calculate_recent_cpu;;
     intr_set_level old_level;; mret tt
   else mret tt);;
  (if Z.rem (ticks (cpu s)) TIME_SLICE =? 0 then
     old_level ← intr_disable;
     thread_foreach thread_update_priorities;;
     intr_set_level old_level;; mret tt
   else mret tt).

Definition thread_tick : K unit :=
  t ← thread_current;
  s ← getS;
  (match sleeping_list s with [] => mret tt | _ => thread_update_timers end);;
  p ← get t priority;
  top ← thread_list_top_pri ReadyList;
  (if top <? p then intr_yield_on_return else mret tt);;
  count_tick t;;
  (if thread_mlfqs then mlfqs_tick t else mret tt);;
  s ← getS;
  let n := u32 (thread_ticks (cpu s) + 1) in
  cpu_do (set_thread_ticks n);;
  if TIME_SLICE <=? n then intr_yield_on_return else mret tt.

Definition timer_interrupt : K unit :=
  cpu_do (λ c, set_ticks (s64 (ticks c + 1)) c);;
  thread_tick.

(** [intr_handler] for the timer interrupt. *)
Definition intr_handler : K unit :=
  (on ← intr_get_level; assertS (negb on));;
  (c ← intr_context; assertS (negb c));;
  cpu_do (set_in_external_intr true);;
  cpu_do (set_yield_on_return false);;
  timer_interrupt;;
  (on ← intr_get_level; assertS (negb on));;
  (c ← intr_context; assertS c);;
  cpu_do (set_in_external_intr false);;
  s ← getS;
  if yield_on_return (cpu s) then push [F_yield; F_iret] else push [F_iret].
End config.
