(* ===== verification/Synch.v ===== *)
(** * Synchronization: [threads/synch.c]

    Semaphores, locks with priority donation, condition variables and shared
    locks, on the kernel state.  A function that can sleep or be preempted
    between two of its statements pushes the rest of its code as [frame]s. *)

From stdpp Require Import base tactics list numbers option sets functions.
From Stdlib Require Import ZArith Lia.
From S2P Require Import Prelude LinkedList ListOps FixedPoint KState Thread.

Local Open Scope Z_scope.

(** ** Semaphores *)

Definition set_value (q : sema_id) (v : Z) : K unit :=
  modifyS (λ s, with_sema_value (<[q := v]> (sema_value s)) s).

Definition sema_init (q : sema_id) (v : Z) : K unit :=
  set_value q v;; set_list (Waiters q) [].

(** The loop of [sema_down], with interrupts off; [old] is the level to
    return to. *)
Definition sema_down_loop (q : sema_id) (old : bool) : K unit :=
  s ← getS;
  if sema_value s q =? 0 then
    cur ← thread_current;
    list_insert_ordered (Waiters q) cur;;
    upd cur (set_thread_pl (Some (Waiters q)));;
    push [F_sema_down_loop q old];;
    thread_block
  else
    set_value q (u32 (sema_value s q - 1));;
    intr_set_level old;; mret tt.

Definition sema_down (q : sema_id) : K unit :=
  (c ← intr_context; assertS (negb c));;
  old_level ← intr_disable;
  sema_down_loop q old_level.

Definition sema_try_down (q : sema_id) : K bool :=
  old_level ← intr_disable;
  s ← getS;
  success ← (if 0 <? sema_value s q then
               set_value q (u32 (sema_value s q - 1));; mret true
             else mret false);
  intr_set_level old_level;;
  mret success.

(** [sema_up]: the waiters are looked at with interrupts off, but the level is
    restored before the first of them is taken out of the list. *)
Definition sema_up (q : sema_id) : K unit :=
  old_level ← intr_disable;
  s ← getS;
  set_value q (u32 (sema_value s q + 1));;
  match lists s (Waiters q) with
  | [] => intr_set_level old_level;; mret tt
  | _ =>
      intr_set_level old_level;;
      push [F_sema_up_pop q; F_intr_set_level old_level]
  end.

Definition sema_up_pop (q : sema_id) : K unit :=
  s ← getS;
  match lists s (Waiters q) with
  | [] => panicS
  | t :: rest => set_list (Waiters q) rest;; push [F_unblock t]
  end.

(** ** Locks *)

Definition set_holder (l : lock_id) (h : option tp) : K unit :=
  modifyS (λ s, with_holder (<[l := h]> (holder s)) s).

Definition lock_init (l : lock_id) : K unit :=
  set_holder l None;; sema_init (LockSema l) 1.

(** The loop of [lock_donate] at [cur] with [n] donations left. *)
Fixpoint lock_donate_loop (n : nat) (cur : option tp) (donate_pri : Z) : K unit :=
  match n, cur with
  | S n, Some t =>
      p ← get t priority;
      if donate_pri <=? p then mret tt
      else
        upd t (λ r, set_donated true (set_priority donate_pri r));;
        pl ← get t thread_pl;
        list_update_elem pl t;;
        next ← get t waiting_for_tlock;
        lock_donate_loop n next donate_pri
  | _, _ => mret tt
  end.

Definition lock_donate (l : lock_id) (donate_pri : Z) : K unit :=
  s ← getS; lock_donate_loop 9 (holder s l) donate_pri.

Definition give_lock (l : lock_id) (t : tp) : K unit :=
  set_holder l (Some t);;
  upd t (set_waiting None);;
  upd t (λ r, set_acquired (acquired_locks r ++ [l]) r).

Definition lock_held_by_current_thread (l : lock_id) : K bool :=
  s ← getS; t ← thread_current; mret (bool_decide (holder s l = Some t)).

Definition lock_try_acquire (l : lock_id) : K bool :=
  (h ← lock_held_by_current_thread l; assertS (negb h));;
  old_level ← intr_disable;
  success ← sema_try_down (LockSema l);
  (if (success : bool) then t ← thread_current; give_lock l t else mret tt);;
  intr_set_level old_level;;
  mret success.

Section config.
Context (thread_mlfqs : bool).

Definition lock_acquire (l : lock_id) : K unit :=
  (c ← intr_context; assertS (negb c));;
  (h ← lock_held_by_current_thread l; assertS (negb h));;
  old_level ← intr_disable;
  t ← thread_current;
  current_priority ← get t priority;
  ok ← lock_try_acquire l;
  if (ok : bool) then intr_set_level old_level;; mret tt
  else
    s ← getS;
    upd t (set_waiting (holder s l));;
    h ← deref (holder s l);
    hp ← get h priority;
    (if (hp <? current_priority) && negb thread_mlfqs then lock_donate l current_priority
     else mret tt);;
    push [F_sema_down (LockSema l); F_lock_acquire_give l old_level].

(** The end of [lock_acquire], once the semaphore is down. *)
Definition lock_acquire_give (l : lock_id) (old_level : bool) : K unit :=
  t ← running_thread; give_lock l t;; intr_set_level old_level;; mret tt.

Definition waiters_top (s : kstate) (l : lock_id) : Z :=
  match lists s (Waiters (LockSema l)) with
  | [] => PRI_MIN
  | t :: _ => priority (threads s t)
  end.

(** The loop of [next_potential_donation] over [acquired_locks]. *)
Fixpoint potential_loop (s : kstate) (ls : list lock_id) (max_donatable_pri : Z) : Z :=
  match ls with
  | [] => max_donatable_pri
  | l :: ls =>
      let p := waiters_top s l in
      potential_loop s ls (if max_donatable_pri <? p then p else max_donatable_pri)
  end.

Definition next_potential_donation (t : tp) : K Z :=
  s ← getS; mret (potential_loop s (acquired_locks (threads s t)) 0).

(** [list_remove (&lock->lock_list_elem)] takes the lock off the list of the
    thread that holds it. *)
Definition lock_release (l : lock_id) : K unit :=
  (h ← lock_held_by_current_thread l; assertS h);;
  old_level ← intr_disable;
  t ← thread_current;
  (ls ← get t acquired_locks; note_remove (bool_decide (l ∈ ls)));;
  upd t (λ r, set_acquired (filter (λ x, x ≠ l) (acquired_locks r)) r);;
  (if thread_mlfqs then mret tt
   else
     upd t (λ r, set_priority (original_priority r) r);;
     upd t (set_donated false);;
     ls ← get t acquired_locks;
     match ls with
     | [] => mret tt
     | _ =>
         max_donatable_pri ← next_potential_donation t;
         o ← get t original_priority;
         if o <? max_donatable_pri then
           upd t (set_priority max_donatable_pri);; upd t (set_donated true)
         else mret tt
     end);;
  set_holder l None;;
  intr_set_level old_level;;
  push [F_sema_up (LockSema l)].
End config.

(** ** Condition variables *)

Section cond.

(** What [cond_cmp] reads as a priority when the waiter of thread [t] has no
    thread on its semaphore yet: [list_begin] is then the end of the empty
    list, and the word is some part of the stack of [t]. *)
Context (stack_word : kstate → tp → Z).

Definition set_cond (c : cond_id) (v : list tp) : K unit :=
  modifyS (λ s, with_cond_waiters (<[c := v]> (cond_waiters s)) s).

Definition cond_init (c : cond_id) : K unit := set_cond c [].

Definition cond_key (s : kstate) (w : tp) : Z :=
  match lists s (Waiters (WaiterSema w)) with
  | [] => stack_word s w
  | t :: _ => priority (threads s t)
  end.

Definition cond_cmp (s : kstate) (a b : tp) : bool := cond_key s b <? cond_key s a.

(** [list_sort], whose result is the stable sort. *)
Definition list_sort (less : tp → tp → bool) (xs : list tp) : list tp :=
  foldl (λ acc x, insert_sorted less x acc) [] xs.

Definition cond_sort_priority (c : cond_id) : K unit :=
  s ← getS; set_cond c (list_sort (cond_cmp s) (cond_waiters s c)).

Definition cond_wait (c : cond_id) (l : lock_id) : K unit :=
  cur ← running_thread;
  sema_init (WaiterSema cur) 0;;
  (c ← intr_context; assertS (negb c));;
  (h ← lock_held_by_current_thread l; assertS h);;
  sema_init (WaiterSema cur) 0;;
  s ← getS;
  set_cond c (insert_sorted (cond_cmp s) cur (cond_waiters s c));;
  push [F_lock_release l; F_sema_down (WaiterSema cur); F_lock_acquire l].

Definition cond_signal (c : cond_id) (l : lock_id) : K unit :=
  (x ← intr_context; assertS (negb x));;
  (h ← lock_held_by_current_thread l; assertS h);;
  cond_sort_priority c;;
  s ← getS;
  match cond_waiters s c with
  | [] => mret tt
  | w :: rest => set_cond c rest;; push [F_sema_up (WaiterSema w)]
  end.

Definition cond_broadcast (c : cond_id) (l : lock_id) : K unit :=
  s ← getS;
  match cond_waiters s c with
  | [] => mret tt
  | _ => push [F_cond_signal c l; F_cond_broadcast c l]
  end.
End cond.

(** ** Shared locks *)

Definition set_slock_i (n : positive) (v : Z) : K unit :=
  modifyS (λ s, with_slock_i (<[n := v]> (slock_i s)) s).

Definition slock_init (n : positive) : K unit :=
  lock_init (SlockLock n);; cond_init (SlockCond n);; set_slock_i n 0.

Definition lock_acquire_exclusive (n : positive) : K unit :=
  push [F_lock_acquire (SlockLock n); F_exclusive_loop n].

(** From the loop on, with [slock] held. *)
Definition exclusive_loop (n : positive) : K unit :=
  s ← getS;
  if slock_i s n =? 0 then set_slock_i n (-1);; push [F_lock_release (SlockLock n)]
  else push [F_cond_wait (SlockCond n) (SlockLock n); F_exclusive_loop n].

Definition lock_acquire_shared (n : positive) : K unit :=
  push [F_lock_acquire (SlockLock n); F_shared_loop n].

Definition shared_loop (n : positive) : K unit :=
  s ← getS;
  if slock_i s n <? 0 then push [F_cond_wait (SlockCond n) (SlockLock n); F_shared_loop n]
  else set_slock_i n (s32 (slock_i s n + 1));; push [F_lock_release (SlockLock n)].

Definition lock_release_shared (n : positive) : K unit :=
  push [F_lock_acquire (SlockLock n); F_release_shared n].

Definition release_shared (n : positive) : K unit :=
  s ← getS;
  let i := s32 (slock_i s n - 1) in
  set_slock_i n i;;
  if i =? 0 then push [F_cond_signal (SlockCond n) (SlockLock n); F_lock_release (SlockLock n)]
  else push [F_lock_release (SlockLock n)].

Definition lock_release_exclusive (n : positive) : K unit :=
  push [F_lock_acquire (SlockLock n); F_release_exclusive n].

Definition release_exclusive (n : positive) : K unit :=
  set_slock_i n 0;;
  push [F_cond_broadcast (SlockCond n) (SlockLock n); F_lock_release (SlockLock n)].
