(* ===== verification/Machine.v ===== *)
(** * The running kernel

    Kernel threads that call the operations of [Thread] and [Synch],
    interleaved with each other and with the timer interrupt.  One step of
    the machine executes the code of one [frame] of the running thread up to
    the next call that can switch threads, starts a call of a thread whose
    kernel stack is empty, or takes a timer interrupt (interrupts on).
    [boot] is the state in which [thread_start] is called. *)

From stdpp Require Import base tactics list numbers option sets functions.
From Stdlib Require Import ZArith Lia.
From S2P Require Import Prelude LinkedList ListOps FixedPoint KState Thread Synch.

Local Open Scope Z_scope.

(** What a thread can ask of the kernel.  [CreateThread] carries the page that
    [palloc_get_page] returns, or [None]. *)
Inductive call : Type :=
| SemaDown (n : positive)
| SemaTryDown (n : positive)
| SemaUp (n : positive)
| LockAcquire (n : positive)
| LockTryAcquire (n : positive)
| LockRelease (n : positive)
| CondWait (n m : positive)
| CondSignal (n m : positive)
| CondBroadcast (n m : positive)
| AcquireExclusive (n : positive)
| AcquireShared (n : positive)
| ReleaseShared (n : positive)
| ReleaseExclusive (n : positive)
| TimerSleep (n : Z)
| ThreadYield
| SetPriority (p : Z)
| SetNice (n : Z)
| CreateThread (page : option tp) (p : Z)
| ThreadExit.

Inductive event : Type :=
| Call (c : call)
| Run
| Tick.

Lemma outcome_snd {A} (o : outcome (A * kstate)) s : snd <$> o = Ret s → ∃ a, o = Ret (a, s).
Proof. destruct o as [[a s']| |]; cbn; try done. intros [= ->]. by exists a. Qed.

Section machine.
Context (thread_mlfqs : bool) (stack_word : kstate → tp → Z).

(** [thread_create] up to [allocate_tid]; the page allocator returns a page
    that is not in use. *)
Definition thread_create (page : option tp) (p : Z) (is_idle : bool) : K unit :=
  match page with
  | None => mret tt
  | Some t =>
      init_thread thread_mlfqs t p;;
      push [F_lock_acquire TidLock; F_allocate_tid t; F_lock_release TidLock; F_create t is_idle]
  end.

Definition allocate_tid (t : tp) : K unit :=
  s ← getS;
  upd t (set_tid (next_tid (cpu s)));;
  cpu_do (set_next_tid (s32 (next_tid (cpu s) + 1))).

(** [thread_create] from the stack frames on. *)
Definition create_frames (t : tp) (is_idle : bool) : K unit :=
  upd t (set_stack (F_kernel_thread :: if is_idle then [F_idle] else []));;
  push [F_unblock t].

Definition kernel_thread : K unit := intr_enable;; mret tt.

Definition idle : K unit :=
  t ← thread_current;
  cpu_do (set_idle_thread (Some t));;
  push [F_sema_up IdleStarted; F_idle_loop].

Definition idle_loop : K unit :=
  intr_disable;; push [F_idle_resume];; thread_block.

Definition idle_resume : K unit := cpu_do (set_intr_on true);; push [F_idle_loop].

Definition iret : K unit := cpu_do (set_intr_on true).

Definition exec_frame (f : frame) : K unit :=
  match f with
  | F_intr_set_level on => intr_set_level on;; mret tt
  | F_iret => iret
  | F_kernel_thread => kernel_thread
  | F_idle => idle
  | F_idle_loop => idle_loop
  | F_idle_resume => idle_resume
  | F_intr_enable => intr_enable;; mret tt
  | F_yield => thread_yield
  | F_unblock t => thread_unblock t
  | F_sema_down q => sema_down q
  | F_sema_down_loop q old => sema_down_loop q old
  | F_sema_up q => sema_up q
  | F_sema_up_pop q => sema_up_pop q
  | F_lock_acquire l => lock_acquire thread_mlfqs l
  | F_lock_acquire_give l old => lock_acquire_give l old
  | F_lock_release l => lock_release thread_mlfqs l
  | F_cond_wait c l => cond_wait stack_word c l
  | F_cond_signal c l => cond_signal stack_word c l
  | F_cond_broadcast c l => cond_broadcast c l
  | F_exclusive_loop n => exclusive_loop n
  | F_shared_loop n => shared_loop n
  | F_release_shared n => release_shared n
  | F_release_exclusive n => release_exclusive n
  | F_allocate_tid t => allocate_tid t
  | F_create t is_idle => create_frames t is_idle
  end.

Definition exec_call (c : call) : K unit :=
  match c with
  | SemaDown n => push [F_sema_down (Sema n)]
  | SemaTryDown n => sema_try_down (Sema n);; mret tt
  | SemaUp n => push [F_sema_up (Sema n)]
  | LockAcquire n => push [F_lock_acquire (L n)]
  | LockTryAcquire n => lock_try_acquire (L n);; mret tt
  | LockRelease n => push [F_lock_release (L n)]
  | CondWait n m => push [F_cond_wait (Cond n) (L m)]
  | CondSignal n m => push [F_cond_signal (Cond n) (L m)]
  | CondBroadcast n m => push [F_cond_broadcast (Cond n) (L m)]
  | AcquireExclusive n => lock_acquire_exclusive n
  | AcquireShared n => lock_acquire_shared n
  | ReleaseShared n => lock_release_shared n
  | ReleaseExclusive n => lock_release_exclusive n
  | TimerSleep n => timer_sleep n
  | ThreadYield => push [F_yield]
  | SetPriority p => thread_set_priority thread_mlfqs p
  | SetNice n => thread_set_nice n
  | CreateThread page p => thread_create page p false
  | ThreadExit => thread_exit
  end.

(** Pages that [palloc_get_page] can return. *)
Definition page_free (s : kstate) (t : tp) : bool :=
  negb (magic (threads s t)) && bool_decide (t ∉ all_list s).

Definition call_ok (s : kstate) (c : call) : bool :=
  match c with
  | CreateThread (Some t) _ => page_free s t
  | _ => true
  end.

(** One step; [None] when the event cannot happen in the state. *)
Definition kstep (e : event) (s : kstate) : option (outcome kstate) :=
  let t := current (cpu s) in
  match e, stack (threads s t) with
  | Call c, [] =>
      if intr_on (cpu s) && call_ok s c then Some (snd <$> exec_call c s) else None
  | Run, f :: fs =>
      Some (snd <$> exec_frame f (with_threads (<[t := set_stack fs (threads s t)]> (threads s)) s))
  | Tick, _ =>
      if intr_on (cpu s) then Some (snd <$> (intr_disable;; intr_handler thread_mlfqs) s) else None
  | _, _ => None
  end.

(** A sequence of events; [None] when one of them cannot happen. *)
Fixpoint kexec (es : list event) (s : kstate) : option (outcome kstate) :=
  match es with
  | [] => Some (Ret s)
  | e :: es =>
      match kstep e s with
      | Some (Ret s') => kexec es s'
      | r => r
      end
  end.

Definition kernel_step (s s' : kstate) : Prop := ∃ e, kstep e s = Some (Ret s').

(** ** Booting *)

Definition no_thread : thread :=
  Thread false 0 THREAD_DYING 0 0 0 0 0 0 false false None None [] false [].

(** Memory before [thread_init]: nothing is a thread, every object a client
    uses is initialized, and the code that runs is to become thread 1. *)
Definition start_state : kstate :=
  KState (λ _, no_thread) (λ _, []) [] []
    (λ q, match q with LockSema _ => 1 | _ => 0 end) (λ _, None) (λ _, []) (λ _, 0)
    (Sched 1 None 1 false false false 0 0 0 0 0 0 0 1) false.

(** [thread_init]; the call of [allocate_tid] is left on the stack. *)
Definition thread_init : K unit :=
  (on ← intr_get_level; assertS (negb on));;
  lock_init TidLock;;
  set_list ReadyList [];;
  modifyS (with_all_list []);;
  modifyS (with_sleeping_list []);;
  cpu_do (set_load_avg 0);;
  cpu_do (set_load_avg_coefficient 0);;
  t ← running_thread;
  cpu_do (set_initial_thread t);;
  init_thread thread_mlfqs t PRI_DEFAULT;;
  upd t (set_status THREAD_RUNNING);;
  push [F_lock_acquire TidLock; F_allocate_tid t; F_lock_release TidLock].

(** [thread_start], with the page of the idle thread. *)
Definition thread_start (page : option tp) : K unit :=
  sema_init IdleStarted 0;;
  thread_create page PRI_MIN true;;
  t ← running_thread;
  upd t (λ r, set_stack (stack r ++ [F_intr_enable; F_sema_down IdleStarted]) r).

(** The kernel after [thread_init], with [allocate_tid] run (the tid lock is
    free, so four steps do it), and the call of [thread_start] with [page]. *)
Definition boot (page : tp) : outcome kstate :=
  '(_, s) ← thread_init start_state;
  match kexec [Run; Run; Run; Run] s with
  | Some (Ret s) => snd <$> thread_start (Some page) s
  | _ => Panic
  end.

(** The states of the runs of the kernel. *)
Definition runs_to (s : kstate) : Prop :=
  ∃ page s0, page ≠ 1%positive ∧ boot page = Ret s0 ∧ star kernel_step s0 s.

(** Those in which every [list_remove] so far was of an element of a list. *)
Definition reachable (s : kstate) : Prop := runs_to s ∧ stale s = false.

Lemma kexec_star es s s' : kexec es s = Some (Ret s') → star kernel_step s s'.
Proof.
  revert s. induction es as [|e es IH]; intros s H; cbn [kexec] in H; [injection H as ->; apply star_refl|].
  destruct (kstep e s) as [[s1| |]|] eqn:Hs; try done. eapply star_step; [by exists e|auto].
Qed.

Lemma boot_split page s :
  boot page = Ret s →
  ∃ u s0 s1 u', thread_init start_state = Ret (u, s0) ∧
    kexec [Run; Run; Run; Run] s0 = Some (Ret s1) ∧
    thread_start (Some page) s1 = Ret (u', s).
Proof.
  unfold boot. destruct (thread_init start_state) as [[u s0]| |]; try done.
  cbn [mbind outcome_bind]. destruct (kexec [Run; Run; Run; Run] s0) as [[s1| |]|] eqn:Hr; try done.
  intros [u' H]%outcome_snd. by exists u, s0, s1, u'.
Qed.

End machine.
