(* ===== verification/KernelInv.v ===== *)
(** * Where threads are: the scheduler's invariant

    In every reachable state each live thread is in one place: running, on
    one priority list ([ready_list] or the waiters of a semaphore), on
    [sleeping_list], taken out of a list and about to be unblocked, or idle.
    The members of [struct thread] agree with the place, and the priority
    lists are in order of priority. *)

From stdpp Require Import functions.
From stdpp Require Import base tactics list numbers option sorting sets.
From Stdlib Require Import ZArith Lia.
From S2P Require Import Prelude LinkedList ListOps FixedPoint KState Thread Synch Machine.

Local Open Scope Z_scope.

(** ** Threads in transit *)

(** The thread a frame is going to put on the run queue. *)
Definition mention (f : frame) : option tp :=
  match f with
  | F_unblock t | F_create t _ => Some t
  | _ => None
  end.

Definition pend_of (fs : list frame) : list tp := omap mention fs.

Definition pend (s : kstate) : list tp :=
  mjoin ((λ t, pend_of (stack (threads s t))) <$> all_list s).

Lemma join_split {A B} (f g : A → list B) (l : list A) x :
  NoDup l → x ∈ l → (∀ y, y ≠ x → f y = g y) →
  ∃ r, mjoin (f <$> l) ≡ₚ f x ++ r ∧ mjoin (g <$> l) ≡ₚ g x ++ r.
Proof.
  intros Hnd (l1 & l2 & ->)%list_elem_of_split Hfg.
  apply NoDup_app in Hnd as (_ & Hd & [Hx _]%NoDup_cons).
  assert (∀ l', x ∉ l' → mjoin (f <$> l') = mjoin (g <$> l')) as Hext.
  { intros l' Hl'. f_equal. apply list_fmap_ext. intros i y Hy. apply Hfg. intros ->.
    by apply Hl', (list_elem_of_lookup_2 _ i). }
  exists (mjoin (f <$> l1) ++ mjoin (f <$> l2)).
  assert (∀ h : A → list B, mjoin (h <$> x :: l2) = h x ++ mjoin (h <$> l2)) as Hc by done.
  rewrite !fmap_app, !join_app, !Hc, <-(Hext l1), <-(Hext l2) by set_solver.
  split; apply Permutation_app_swap_app.
Qed.

(** ** The part of the state the invariant is about *)

Definition place_status (l : plist) : thread_status :=
  match l with ReadyList => THREAD_READY | Waiters _ => THREAD_BLOCKED end.

Record core_eq (s s' : kstate) : Prop := {
  ce_lists l : lists s' l = lists s l;
  ce_sleeping : sleeping_list s' = sleeping_list s;
  ce_all : all_list s' = all_list s;
  ce_magic t : magic (threads s' t) = magic (threads s t);
  ce_status t : status (threads s' t) = status (threads s t);
  ce_pl t : thread_pl (threads s' t) = thread_pl (threads s t);
  ce_priority t : priority (threads s' t) = priority (threads s t);
  ce_pend t : pend_of (stack (threads s' t)) = pend_of (stack (threads s t));
  ce_current : current (cpu s') = current (cpu s);
  ce_idle : idle_thread (cpu s') = idle_thread (cpu s);
  ce_stale : stale s' = stale s
}.

#[global] Instance core_eq_refl : Reflexive core_eq.
Proof. by constructor. Qed.
#[global] Instance core_eq_trans : Transitive core_eq.
Proof. intros s1 s2 s3 [] []. constructor; intros; congruence. Qed.

(** ** The invariant *)

Record base (s : kstate) : Prop := {
  b_lists l : NoDup (lists s l);
  b_in l t : t ∈ lists s l →
    thread_pl (threads s t) = Some l ∧ status (threads s t) = place_status l ∧
    t ∈ all_list s ∧ Some t ≠ idle_thread (cpu s) ∧ (t ∉ sleeping_list s);
  b_sleeping : NoDup (sleeping_list s);
  b_sleeper t : t ∈ sleeping_list s →
    thread_pl (threads s t) = None ∧ status (threads s t) = THREAD_BLOCKED ∧
    t ∈ all_list s ∧ Some t ≠ idle_thread (cpu s);
  b_pend : NoDup (pend s);
  b_pending t : t ∈ pend s →
    status (threads s t) = THREAD_BLOCKED ∧ (t ∉ sleeping_list s) ∧ (∀ l, t ∉ lists s l) ∧
    t ∈ all_list s ∧ Some t ≠ idle_thread (cpu s);
  b_all : NoDup (all_list s);
  b_live t : t ∈ all_list s →
    magic (threads s t) = true ∧ status (threads s t) ≠ THREAD_DYING;
  b_running t : t ∈ all_list s → status (threads s t) = THREAD_RUNNING → t = current (cpu s);
  b_idle i : idle_thread (cpu s) = Some i → i ∈ all_list s ∧ thread_pl (threads s i) = None;
  b_order l : in_order (thread_cmp (threads s)) (lists s l)
}.

(** Between two steps of the machine a thread is running. *)
Record inv (s : kstate) : Prop := {
  i_base : base s;
  i_status : status (threads s (current (cpu s))) = THREAD_RUNNING;
  i_pl : thread_pl (threads s (current (cpu s))) = None;
  i_live : current (cpu s) ∈ all_list s
}.

Lemma in_order_ext f g (xs : list tp) :
  (∀ x, x ∈ xs → priority (f x) = priority (g x)) →
  in_order (thread_cmp f) xs → in_order (thread_cmp g) xs.
Proof.
  unfold in_order. induction xs as [|x xs IH]; intros Hp Ho; [constructor|].
  apply StronglySorted_inv in Ho as [Ho Hx]. constructor; [apply IH; set_solver|].
  rewrite Forall_forall in Hx |- *. intros y Hy. specialize (Hx y Hy). unfold thread_cmp in *.
  rewrite <-!Hp by set_solver. done.
Qed.

#[global] Instance thread_cmp_weak f : StrictWeak (thread_cmp f).
Proof. split; unfold thread_cmp; intros; lia. Qed.

Lemma pend_ext s s' :
  all_list s' = all_list s →
  (∀ t, pend_of (stack (threads s' t)) = pend_of (stack (threads s t))) → pend s' = pend s.
Proof. intros Ha Hp. unfold pend. rewrite Ha. f_equal. by apply list_fmap_ext. Qed.

Lemma base_core s s' : core_eq s s' → base s → base s'.
Proof.
  intros [Hl Hsl Ha Hm Hst Hpl Hpr Hpe Hc Hi _] [].
  pose proof (pend_ext s s' Ha Hpe) as Hp.
  constructor; intros *;
    rewrite ?Hp, ?Ha, ?Hsl, ?Hl, ?Hm, ?Hst, ?Hpl, ?Hc, ?Hi; eauto.
  - intros (?&?&?&?&?)%b_pending0. split_and!; [done..| |done|done]. intros l. by rewrite Hl.
  - eapply in_order_ext; [|apply b_order0]. intros. by rewrite Hpr.
Qed.

Lemma inv_core s s' : core_eq s s' → inv s → inv s'.
Proof.
  intros Hc []. pose proof (base_core _ _ Hc i_base0). destruct Hc. constructor; [done|..];
    rewrite ?ce_all0, ce_current0; [rewrite ce_status0|rewrite ce_pl0|]; done.
Qed.

(** ** Moves of one thread *)

(** Splits on whether two names are equal, in function updates. *)
Ltac fn_case x y :=
  destruct (decide (x = y)) as [->|?];
  rewrite ?fn_lookup_insert, ?fn_lookup_insert_ne in * by done.

Definition upd_thread (t : tp) (f : thread → thread) (s : kstate) : kstate :=
  with_threads (<[t := f (threads s t)]> (threads s)) s.

(** [t] goes to the list [l]. *)
Definition enqueue (l : plist) (t : tp) (s : kstate) : kstate :=
  upd_thread t (λ r, set_status (place_status l) (set_thread_pl (Some l) r))
    (with_sleeping_list (filter (λ x, x ≠ t) (sleeping_list s))
      (with_lists (<[l := insert_sorted (thread_cmp (threads s)) t (lists s l)]> (lists s)) s)).

Lemma insert_sorted_in f t x (xs : list tp) :
  x ∈ insert_sorted (thread_cmp f) t xs ↔ x = t ∨ x ∈ xs.
Proof. rewrite insert_sorted_perm. apply elem_of_cons. Qed.

Lemma insert_sorted_nodup f t (xs : list tp) :
  (t ∉ xs) → NoDup xs → NoDup (insert_sorted (thread_cmp f) t xs).
Proof. rewrite insert_sorted_perm. by constructor. Qed.

Lemma insert_sorted_in_order f t (xs : list tp) :
  in_order (thread_cmp f) xs → in_order (thread_cmp f) (insert_sorted (thread_cmp f) t xs).
Proof. intros Ho. by destruct (insert_sorted_order (thread_cmp f) t xs Ho) as (?&?&?&?&?&?&?). Qed.

Lemma upd_thread_ne t f s u : u ≠ t → threads (upd_thread t f s) u = threads s u.
Proof. intros. cbn. by rewrite fn_lookup_insert_ne. Qed.
Lemma upd_thread_eq t f s : threads (upd_thread t f s) t = f (threads s t).
Proof. cbn. by rewrite fn_lookup_insert. Qed.

(** A member of every thread that an update of one thread keeps. *)
Lemma upd_thread_keeps {A} (p : thread → A) t f s u :
  p (f (threads s t)) = p (threads s t) → p (threads (upd_thread t f s) u) = p (threads s u).
Proof. intros. cbn. by fn_case u t. Qed.

Lemma base_enqueue l t s :
  base s → t ∈ all_list s → (∀ l', t ∉ lists s l') → (t ∉ pend s) →
  Some t ≠ idle_thread (cpu s) → base (enqueue l t s).
Proof.
  intros Hb Ha Hl Hp Hi. unfold enqueue. set (s1 := with_sleeping_list _ _).
  assert (pend (upd_thread t (λ r, set_status (place_status l) (set_thread_pl (Some l) r)) s1) = pend s) as Hpe.
  { apply (pend_ext s1); [done|]. intros u. by apply (upd_thread_keeps (λ r, pend_of (stack r))). }
  assert (∀ l' x, x ∈ lists s1 l' → x = t ∧ l' = l ∨ x ≠ t ∧ x ∈ lists s l') as Hin.
  { intros l' x. cbn. fn_case l' l; [rewrite insert_sorted_in|]; [|set_solver].
    destruct (decide (x = t)); naive_solver. }
  destruct Hb. constructor; rewrite ?Hpe; cbn [all_list upd_thread with_threads s1 lists with_sleeping_list with_lists sleeping_list cpu].
  - intros l'. fn_case l' l; [|done]. apply insert_sorted_nodup; auto.
  - intros l' x [[-> ->]|[? Hx]]%Hin.
    + rewrite upd_thread_eq. split_and!; [done..|]. rewrite list_elem_of_filter. tauto.
    + rewrite upd_thread_ne by done. destruct (b_in0 _ _ Hx) as (?&?&?&?&?).
      split_and!; [done..|]. rewrite list_elem_of_filter. tauto.
  - by apply NoDup_filter.
  - intros x [? Hx]%list_elem_of_filter. rewrite upd_thread_ne by done. by apply b_sleeper0.
  - done.
  - intros x Hx. destruct (b_pending0 _ Hx) as (?&?&Hn&?&?).
    assert (x ≠ t) by congruence. rewrite upd_thread_ne by done.
    split_and!; [done|rewrite list_elem_of_filter; tauto| |done..].
    intros l' [[]|[_ Hx']]%Hin; [done|by apply (Hn l')].
  - done.
  - intros x Hx. destruct (decide (x = t)) as [->|]; [rewrite upd_thread_eq|rewrite upd_thread_ne by done; by apply b_live0].
    split; [by apply b_live0|]. by destruct l.
  - intros x Hx. destruct (decide (x = t)) as [->|]; [rewrite upd_thread_eq; by destruct l|].
    rewrite upd_thread_ne by done. by apply b_running0.
  - intros i Hx. rewrite upd_thread_ne by congruence. by apply b_idle0.
  - intros l'. eapply (in_order_ext (threads s)); [intros; symmetry; by apply (upd_thread_keeps priority _ _ s1)|].
    fn_case l' l; [|done]. by apply insert_sorted_in_order.
Qed.

Lemma in_order_sublist less (xs ys : list tp) :
  xs `sublist_of` ys → in_order less ys → in_order less xs.
Proof.
  unfold in_order. induction 1 as [|x xs ys Hs IH|x xs ys Hs IH]; intros Ho; [done|..];
    apply StronglySorted_cons in Ho as [Hx Ho]; [|by apply IH].
  constructor; [by apply IH|]. rewrite Forall_forall in Hx |- *.
  intros y Hy. apply Hx. by eapply elem_of_sublist.
Qed.

(** Taking threads off a list. *)
Lemma base_sublist l xs s :
  base s → xs `sublist_of` lists s l → base (with_lists (<[l := xs]> (lists s)) s).
Proof.
  intros Hb Hs. set (s1 := with_lists _ s).
  assert (∀ l' x, x ∈ lists s1 l' → x ∈ lists s l') as Hin.
  { intros l' x. cbn. fn_case l' l; [|done]. intros ?. by eapply elem_of_sublist. }
  destruct Hb. constructor; try done.
  - intros l'. cbn. fn_case l' l; [|done]. by apply (sublist_NoDup xs (lists s l)).
  - intros l' x ?%Hin. by apply b_in0.
  - intros x Hx. destruct (b_pending0 x Hx) as (?&?&Hn&?&?). split_and!; [done..| |done|done].
    intros l' ?%Hin. by apply (Hn l').
  - intros l'. cbn. fn_case l' l; [|apply b_order0]. by apply (in_order_sublist (thread_cmp (threads s)) xs (lists s l)).
Qed.

(** [n] becomes the running thread. *)
Definition switch_to (n : tp) (s : kstate) : kstate :=
  upd_thread n (set_status THREAD_RUNNING) (with_cpu (set_current n (cpu s)) s).

Lemma inv_switch_to n s :
  base s → status (threads s (current (cpu s))) ≠ THREAD_RUNNING →
  n ∈ all_list s → (∀ l, n ∉ lists s l) → (n ∉ sleeping_list s) → (n ∉ pend s) →
  thread_pl (threads s n) = None → inv (switch_to n s).
Proof.
  intros Hb Hc Ha Hl Hs Hp Hpl. unfold switch_to. set (s1 := with_cpu _ _).
  set (f := set_status THREAD_RUNNING).
  assert (pend (upd_thread n f s1) = pend s) as Hpe.
  { apply (pend_ext s1); [done|]. intros u. by apply (upd_thread_keeps (λ r, pend_of (stack r))). }
  destruct Hb. split; [|by rewrite upd_thread_eq|by rewrite upd_thread_eq|done].
  constructor; rewrite ?Hpe; try done.
  - intros l x Hx. assert (x ≠ n) by (intros ->; by apply (Hl l)).
    rewrite upd_thread_ne by done. by apply b_in0.
  - intros x Hx. assert (x ≠ n) by (intros ->; done).
    rewrite upd_thread_ne by done. by apply b_sleeper0.
  - intros x Hx. assert (x ≠ n) by (intros ->; done).
    rewrite upd_thread_ne by done. by apply b_pending0.
  - intros x Hx. destruct (decide (x = n)) as [->|]; [rewrite upd_thread_eq|rewrite upd_thread_ne by done; by apply b_live0].
    split; [by apply b_live0|done].
  - intros x Hx. destruct (decide (x = n)) as [->|]; [done|].
    rewrite upd_thread_ne by done. intros Hr. change (threads s1) with (threads s) in Hr.
    rewrite (b_running0 x Hx Hr) in Hr. done.
  - intros i Hi. destruct (b_idle0 i Hi). split; [done|].
    destruct (decide (i = n)) as [->|]; [by rewrite upd_thread_eq|by rewrite upd_thread_ne].
  - intros l. eapply (in_order_ext (threads s)); [|apply b_order0].
    intros. symmetry. by apply (upd_thread_keeps priority _ _ s1).
Qed.

Lemma base_pl_none t s :
  base s → (∀ l, t ∉ lists s l) → base (upd_thread t (set_thread_pl None) s).
Proof.
  intros Hb Hl. set (s1 := upd_thread t _ s).
  assert (pend s1 = pend s) as Hpe.
  { apply pend_ext; [done|]. intros u. by apply (upd_thread_keeps (λ r, pend_of (stack r))). }
  assert (∀ {A} (p' : thread → A) u, (∀ r, p' (set_thread_pl None r) = p' r) →
    p' (threads s1 u) = p' (threads s u)) as Hk by (intros; by apply upd_thread_keeps).
  destruct Hb. constructor; try done; intros *; rewrite ?Hpe, ?(Hk _ status), ?(Hk _ magic) by done; eauto.
  - intros Hx. unfold s1. rewrite upd_thread_ne by (intros ->; by apply (Hl l)). by apply b_in0.
  - intros (?&?&?&?)%b_sleeper0. split_and!; try done. unfold s1.
    destruct (decide (t0 = t)) as [->|]; [by rewrite upd_thread_eq|by rewrite upd_thread_ne].
  - intros (?&?)%b_idle0. split; [done|]. unfold s1.
    destruct (decide (i = t)) as [->|]; [by rewrite upd_thread_eq|by rewrite upd_thread_ne].
  - eapply (in_order_ext (threads s)); [|apply b_order0]. intros. symmetry. by apply (Hk _ priority).
Qed.

(** Code pushed on, or popped from, the stack of [t]. *)
Lemma base_stack t fs s :
  base s → t ∈ all_list s → NoDup (pend_of fs) →
  (∀ x, x ∈ pend_of fs →
     x ∈ pend_of (stack (threads s t)) ∨
     (x ∉ pend s) ∧ status (threads s x) = THREAD_BLOCKED ∧ (x ∉ sleeping_list s) ∧
     (∀ l, x ∉ lists s l) ∧ x ∈ all_list s ∧ Some x ≠ idle_thread (cpu s)) →
  base (upd_thread t (set_stack fs) s).
Proof.
  intros Hb Ha Hnd Hnew. set (s1 := upd_thread _ _ _).
  assert (∀ {A} (p : thread → A) u, (∀ r, p (set_stack fs r) = p r) → p (threads s1 u) = p (threads s u)) as Hk.
  { intros A p u Hp. by apply upd_thread_keeps. }
  destruct (join_split (λ u, pend_of (stack (threads s u))) (λ u, pend_of (stack (threads s1 u)))
    (all_list s) t) as (r & Hr & Hr1); [apply Hb|done|intros; unfold s1; by rewrite upd_thread_ne|].
  change (mjoin _) with (pend s) in Hr. change (mjoin (_ <$> all_list s)) with (pend s1) in Hr1.
  unfold s1 in Hr1 at 2. rewrite upd_thread_eq in Hr1. cbn [stack set_stack] in Hr1.
  assert (∀ x, x ∈ pend s1 → x ∈ pend s ∨ x ∈ pend_of fs) as Hsub.
  { intros x. rewrite Hr, Hr1, !elem_of_app. tauto. }
  destruct Hb. constructor; try done; intros *; rewrite ?(Hk _ thread_pl), ?(Hk _ status), ?(Hk _ magic) by done; auto.
  - rewrite Hr in b_pend0. apply NoDup_app in b_pend0 as (_ & Hd & Hndr). rewrite Hr1.
    apply NoDup_app. split_and!; [done| |done]. intros x Hx. destruct (Hnew x Hx) as [?|[Hn _]]; [auto|].
    rewrite Hr, elem_of_app in Hn. tauto.
  - intros [?|Hx]%Hsub; [by apply b_pending0|]. destruct (Hnew _ Hx) as [?|(?&?&?&?&?&?)]; [|done].
    apply b_pending0. rewrite Hr. apply elem_of_app. auto.
  - eapply (in_order_ext (threads s)); [|apply b_order0]. intros. symmetry. by apply (Hk _ priority).
Qed.

(** An update of members the invariant reads only through the lists: [t] is
    on none, or goes to its place in [l] again. *)
Lemma base_priority f t s :
  base s → (∀ l, t ∉ lists s l) →
  magic (f (threads s t)) = magic (threads s t) → status (f (threads s t)) = status (threads s t) →
  thread_pl (f (threads s t)) = thread_pl (threads s t) → stack (f (threads s t)) = stack (threads s t) →
  base (upd_thread t f s).
Proof.
  intros Hb Hl Hm Hst Hpl Hsk. set (s1 := upd_thread t f s).
  assert (pend s1 = pend s) as Hpe.
  { apply pend_ext; [done|]. intros u. apply (upd_thread_keeps (λ r, pend_of (stack r))). by rewrite Hsk. }
  assert (∀ u, thread_pl (threads s1 u) = thread_pl (threads s u)) as Hpl' by (intros; by apply upd_thread_keeps).
  assert (∀ u, status (threads s1 u) = status (threads s u)) as Hst' by (intros; by apply upd_thread_keeps).
  assert (∀ u, magic (threads s1 u) = magic (threads s u)) as Hm' by (intros; by apply upd_thread_keeps).
  destruct Hb. constructor; try done; intros *; rewrite ?Hpe, ?Hpl', ?Hst', ?Hm'; eauto.
  - eapply (in_order_ext (threads s)); [|apply b_order0]. intros x Hx.
    unfold s1. rewrite upd_thread_ne; [done|]. intros ->. by apply (Hl l).
Qed.

Definition reprioritize (l : plist) (p : Z) (t : tp) (s : kstate) : kstate :=
  let s1 := upd_thread t (set_priority p) s in
  with_lists (<[l := insert_sorted (thread_cmp (threads s1)) t (filter (λ x, x ≠ t) (lists s l))]> (lists s)) s1.

Lemma base_reprioritize l p t s : base s → t ∈ lists s l → base (reprioritize l p t s).
Proof.
  intros Hb Hin. unfold reprioritize. set (s1 := upd_thread t (set_priority p) s).
  set (xs := insert_sorted _ _ _).
  assert (xs ≡ₚ lists s l) as Hxs.
  { unfold xs. rewrite insert_sorted_perm. symmetry. apply filter_remove; [apply Hb|done]. }
  set (s2 := with_lists _ s1).
  assert (∀ l' x, x ∈ lists s2 l' ↔ x ∈ lists s l') as Hl.
  { intros l' x. cbn. fn_case l' l; [by rewrite Hxs|done]. }
  assert (pend s2 = pend s) as Hpe.
  { apply pend_ext; [done|]. intros u. by apply (upd_thread_keeps (λ r, pend_of (stack r))). }
  assert (∀ {A} (p' : thread → A) u, (∀ r, p' (set_priority p r) = p' r) →
    p' (threads s2 u) = p' (threads s u)) as Hk by (intros; by apply upd_thread_keeps).
  destruct Hb. constructor; try done; intros *; rewrite ?Hpe, ?(Hk _ thread_pl), ?(Hk _ status), ?(Hk _ magic) by done; eauto.
  - cbn. fn_case l0 l; [by rewrite Hxs|done].
  - rewrite Hl. apply b_in0.
  - intros (?&?&Hn&?&?)%b_pending0. split_and!; [done..| |done|done]. intros l'. rewrite Hl. apply Hn.
  - cbn. fn_case l0 l.
    + apply insert_sorted_in_order. eapply (in_order_ext (threads s));
        [|eapply in_order_sublist, b_order0; apply sublist_filter].
      intros x [? _]%list_elem_of_filter. unfold s1. by rewrite upd_thread_ne.
    + eapply (in_order_ext (threads s)); [|apply b_order0]. intros x Hx.
      rewrite fn_lookup_insert_ne; [done|]. intros <-. apply b_in0 in Hx as [? _]. apply b_in0 in Hin as [? _]. congruence.
Qed.

(** A new thread. *)
Definition new_thread (p : Z) : thread :=
  Thread true 0 THREAD_BLOCKED p p 0 0 (-1) (-1) false false None None [] false [].

Definition add_thread (t : tp) (p : Z) (s : kstate) : kstate :=
  with_all_list (all_list s ++ [t]) (upd_thread t (λ _, new_thread p) s).

Lemma add_thread_ne t p s x :
  (t ∉ all_list s) → x ∈ all_list s → threads (add_thread t p s) x = threads s x.
Proof. intros Ht Hx. apply (upd_thread_ne t _ s). congruence. Qed.

Lemma pend_add_thread t p s : (t ∉ all_list s) → pend (add_thread t p s) = pend s.
Proof.
  intros Ht. set (s1 := add_thread t p s). unfold pend.
  cbn [all_list s1 add_thread with_all_list]. rewrite fmap_app, join_app.
  replace (mjoin ((λ u, pend_of (stack (threads s1 u))) <$> [t])) with (@nil tp).
  - rewrite app_nil_r. f_equal. apply list_fmap_ext. intros i x Hx%list_elem_of_lookup_2.
    unfold s1. by rewrite add_thread_ne.
  - unfold s1, add_thread. cbn. by rewrite fn_lookup_insert.
Qed.

Lemma base_add_thread t p s : base s → (t ∉ all_list s) → base (add_thread t p s).
Proof.
  intros Hb Ht. pose proof (pend_add_thread t p s Ht) as Hpe.
  pose proof (λ x, add_thread_ne t p s x Ht) as Hne. set (s1 := add_thread t p s) in *.
  destruct Hb. constructor; rewrite ?Hpe; try done; cbn [all_list s1 add_thread with_all_list]; intros *.
  - intros (?&?&?&?&?)%b_in0. rewrite Hne by done. split_and!; [done..| |done|done]. set_solver.
  - intros (?&?&?&?)%b_sleeper0. rewrite Hne by done. split_and!; [done..| |done]. set_solver.
  - intros (?&?&?&?&?)%b_pending0. rewrite Hne by done. split_and!; [done..| |done]. set_solver.
  - apply NoDup_app. split_and!; [done|set_solver|apply NoDup_singleton].
  - rewrite elem_of_app, list_elem_of_singleton. intros [Hx| ->]; [rewrite Hne by done; by apply b_live0|].
    cbn. by rewrite fn_lookup_insert.
  - rewrite elem_of_app, list_elem_of_singleton. intros [Hx| ->]; [rewrite Hne by done; by apply b_running0|].
    cbn. by rewrite fn_lookup_insert.
  - intros [Hi ?]%b_idle0. rewrite Hne by done. set_solver.
  - eapply (in_order_ext (threads s)); [|apply b_order0]. intros x (?&?&?&?&?)%b_in0. by rewrite Hne.
Qed.

(** The end of the running thread. *)
Definition end_thread (t : tp) (s : kstate) : kstate :=
  upd_thread t (λ r, set_status THREAD_DYING (set_thread_pl None r))
    (with_all_list (filter (λ x, x ≠ t) (all_list s)) s).

Lemma base_end_thread s :
  inv s → stack (threads s (current (cpu s))) = [] →
  Some (current (cpu s)) ≠ idle_thread (cpu s) → base (end_thread (current (cpu s)) s).
Proof.
  intros [Hb Hst Hpl Ha] Hsk Hi. set (t := current (cpu s)) in *. set (s1 := end_thread t s).
  assert (∀ x, x ∈ all_list s1 ↔ x ≠ t ∧ x ∈ all_list s) as Hall
    by (intros; cbn; by rewrite list_elem_of_filter).
  assert (∀ x, x ≠ t → threads s1 x = threads s x) as Hne by (intros; cbn; by rewrite fn_lookup_insert_ne).
  assert (pend s ≡ₚ pend s1) as Hpe.
  { unfold pend. cbn [all_list s1 end_thread upd_thread with_threads with_all_list].
    rewrite (filter_remove t (all_list s)) at 1 by (done || apply Hb). cbn. rewrite Hsk. cbn.
    apply reflexive_eq. f_equal. apply list_fmap_ext. intros i x [? _]%list_elem_of_lookup_2%list_elem_of_filter.
    change (<[_:=_]> _ x) with (threads s1 x). by rewrite Hne. }
  assert (∀ l, t ∉ lists s l) as Htl.
  { intros l (_&Hl&_)%(b_in _ Hb). rewrite Hst in Hl. by destruct l. }
  destruct Hb. constructor; rewrite <-?Hpe; try done; intros *; rewrite ?Hall.
  - intros Hx. assert (t0 ≠ t) by (intros ->; by apply (Htl l)). rewrite Hne by done.
    by destruct (b_in0 _ _ Hx) as (?&?&?&?&?).
  - intros (?&?&?&?)%b_sleeper0. assert (t0 ≠ t) by congruence. by rewrite Hne.
  - rewrite <-Hpe. intros (?&?&?&?&?)%b_pending0. assert (t0 ≠ t) by congruence. by rewrite Hne.
  - by apply NoDup_filter.
  - intros [? ?]. rewrite Hne by done. by apply b_live0.
  - intros [? ?]. rewrite Hne by done. by apply b_running0.
  - intros Hj. assert (i ≠ t) by (intros ->; by apply Hi). rewrite Hne by done. by destruct (b_idle0 i Hj).
  - eapply (in_order_ext (threads s)); [|apply b_order0]. intros x Hx. rewrite Hne; [done|].
    intros ->. by apply (Htl l).
Qed.

Lemma base_clear_magic t s : base s → (t ∉ all_list s) → base (upd_thread t clear_magic s).
Proof.
  intros Hb Ht. set (s1 := upd_thread t clear_magic s).
  assert (pend s1 = pend s) as Hpe.
  { apply pend_ext; [done|]. intros u. by apply (upd_thread_keeps (λ r, pend_of (stack r))). }
  assert (∀ {A} (p' : thread → A) u, (∀ r, p' (clear_magic r) = p' r) →
    p' (threads s1 u) = p' (threads s u)) as Hk by (intros; by apply upd_thread_keeps).
  destruct Hb. constructor; try done; intros *; rewrite ?Hpe, ?(Hk _ thread_pl), ?(Hk _ status) by done; eauto.
  - intros Hx. unfold s1. rewrite upd_thread_ne by (intros ->; done). by apply b_live0.
  - eapply (in_order_ext (threads s)); [|apply b_order0]. intros. symmetry. by apply (Hk _ priority).
Qed.

(** The running thread stops running without being put on a list, or goes to
    sleep. *)
Lemma base_status v t s :
  base s → (∀ l, t ∉ lists s l) → (t ∉ sleeping_list s) → (t ∉ pend s) →
  v ≠ THREAD_DYING → v ≠ THREAD_RUNNING → base (upd_thread t (set_status v) s).
Proof.
  intros Hb Hl Hs Hp Hd Hr. set (s1 := upd_thread t _ s).
  assert (pend s1 = pend s) as Hpe.
  { apply pend_ext; [done|]. intros u. by apply (upd_thread_keeps (λ r, pend_of (stack r))). }
  assert (∀ {A} (p' : thread → A) u, (∀ r, p' (set_status v r) = p' r) →
    p' (threads s1 u) = p' (threads s u)) as Hk by (intros; by apply upd_thread_keeps).
  destruct Hb. constructor; try done; intros *; rewrite ?Hpe, ?(Hk _ thread_pl), ?(Hk _ magic) by done; eauto.
  - intros Hx. unfold s1. rewrite upd_thread_ne by (intros ->; by apply (Hl l)). by apply b_in0.
  - intros Hx. unfold s1. rewrite upd_thread_ne by (intros ->; done). by apply b_sleeper0.
  - intros Hx. unfold s1. rewrite upd_thread_ne by (intros ->; done). by apply b_pending0.
  - intros [? ?]%b_live0. split; [done|]. unfold s1.
    destruct (decide (t0 = t)) as [->|]; [by rewrite upd_thread_eq|by rewrite upd_thread_ne].
  - unfold s1. destruct (decide (t0 = t)) as [->|]; [by rewrite upd_thread_eq|rewrite upd_thread_ne by done].
    apply b_running0.
  - eapply (in_order_ext (threads s)); [|apply b_order0]. intros. symmetry. by apply (Hk _ priority).
Qed.

Lemma base_sleep t s :
  base s → t ∈ all_list s → (∀ l, t ∉ lists s l) → (t ∉ sleeping_list s) → (t ∉ pend s) →
  thread_pl (threads s t) = None → Some t ≠ idle_thread (cpu s) →
  base (with_sleeping_list (sleeping_list s ++ [t]) (upd_thread t (set_status THREAD_BLOCKED) s)).
Proof.
  intros Hb Ha Hl Hs Hp Hpl Hi. apply (base_status THREAD_BLOCKED t s) in Hb; try done.
  set (s1 := upd_thread t _ s) in *. assert (pend s1 = pend s) as Hpe.
  { apply pend_ext; [done|]. intros u. by apply (upd_thread_keeps (λ r, pend_of (stack r))). }
  destruct Hb. constructor; try done; intros *.
  - intros Hx. destruct (b_in0 l t0 Hx) as (?&?&?&?&?). split_and!; try done. cbn.
    rewrite elem_of_app, list_elem_of_singleton. intros [?| ->]; [done|by apply (Hl l)].
  - cbn. apply NoDup_app. split_and!; [done|set_solver|apply NoDup_singleton].
  - cbn. rewrite elem_of_app, list_elem_of_singleton. intros [?%b_sleeper0| ->]; [done|].
    rewrite fn_lookup_insert. done.
  - intros Hx. destruct (b_pending0 _ Hx) as (?&?&?&?&?). split_and!; try done. cbn.
    rewrite elem_of_app, list_elem_of_singleton. intros [?| ->]; [done|]. apply Hp. by rewrite <-Hpe.
Qed.
