(* ===== verification/KernelPass.v ===== *)
(** * Relations between the states before and after kernel code

    A relation on states that is reflexive and transitive, that allows changes
    of lists, counters and of most members of a thread, and that holds across
    the few operations that set priorities, holds across every call and every
    frame of the machine.  [KernelOps], [Liveness] and [Mlfqs] use it for facts
    that all of the code keeps; the first one is that [stale] stays set. *)

From stdpp Require Import functions.
From stdpp Require Import base tactics list numbers option sorting sets.
From Stdlib Require Import ZArith Lia.
From S2P Require Import Prelude LinkedList ListOps FixedPoint KState Thread Synch Machine KernelInv.

Local Open Scope Z_scope.

(** Changes of the scheduler's variables and of a thread that every relation
    here allows. *)
Definition cpu_ok (f : sched → sched) : Prop := ∀ c, in_external_intr (f c) = in_external_intr c.
Definition upd_ok (f : thread → thread) : Prop := ∀ r, priority (f r) = priority r ∧ nice (f r) = nice r.

Record allows (R : kstate → kstate → Prop) : Prop := {
  al_refl s : R s s;
  al_trans s1 s2 s3 : R s1 s2 → R s2 s3 → R s1 s3;
  al_cpu f s : cpu_ok f → R s (with_cpu (f (cpu s)) s);
  al_upd t f s : upd_ok f → R s (upd_thread t f s);
  al_lists v s : R s (with_lists v s);
  al_sleeping v s : R s (with_sleeping_list v s);
  al_all v s : R s (with_all_list v s);
  al_sema v s : R s (with_sema_value v s);
  al_holder v s : R s (with_holder v s);
  al_cond v s : R s (with_cond_waiters v s);
  al_slock v s : R s (with_slock_i v s);
  al_stale b s : R s (with_stale (stale s || b) s)
}.

Definition steps (R : kstate → kstate → Prop) {A} (m : K A) : Prop := ∀ s a s', m s = Ret (a, s') → R s s'.

Section steps.
Context {R : kstate → kstate → Prop} (HR : allows R).

Lemma steps_ret {A} (a : A) : steps R (mret a).
Proof. intros s ? ? [= <- <-]. apply HR. Qed.
Lemma steps_bind {A B} (m : K A) (f : A → K B) : steps R m → (∀ a, steps R (f a)) → steps R (m ≫= f).
Proof.
  intros Hm Hf s b s' (a & s1 & H1 & H2)%st_bind_inv. eapply (al_trans _ HR); [by eapply Hm|by eapply Hf].
Qed.
Lemma steps_gets {A} (f : kstate → A) : steps R (gets f).
Proof. intros s ? ? [= <- <-]. apply HR. Qed.
Lemma steps_getS : steps R getS.
Proof. intros s ? ? [= <- <-]. apply HR. Qed.
Lemma steps_assert b : steps R (assertS b).
Proof. intros s ? ? [_ ->]%assertS_inv. apply HR. Qed.
Lemma steps_panic {A} : steps R (panicS (A := A)).
Proof. done. Qed.
Lemma steps_deref {A} (o : option A) : steps R (deref o).
Proof. destruct o; [apply steps_ret|apply steps_panic]. Qed.
Lemma steps_modify f : (∀ s, R s (f s)) → steps R (modifyS f).
Proof. intros Hf s ? ? [= <- <-]. apply Hf. Qed.
Lemma steps_cpu f : cpu_ok f → steps R (cpu_do f).
Proof. intros Hf. apply steps_modify. intros s. by apply HR. Qed.
Lemma steps_upd t f : upd_ok f → steps R (upd t f).
Proof. intros Hf. apply steps_modify. intros s. by apply HR. Qed.
Lemma steps_push fs : steps R (push fs).
Proof. apply steps_bind; [apply steps_gets|intros; by apply steps_upd]. Qed.
Lemma steps_if {A} (b : bool) (m1 m2 : K A) : steps R m1 → steps R m2 → steps R (if b then m1 else m2).
Proof. by destruct b. Qed.
Lemma steps_running : steps R running_thread.
Proof. apply steps_gets. Qed.
Lemma steps_note b : steps R (note_remove b).
Proof. apply steps_modify. intros s. by apply HR. Qed.
End steps.

Create HintDb steps.
#[export] Hint Resolve steps_ret steps_gets steps_getS steps_assert steps_panic steps_deref steps_push steps_running steps_note : steps.
#[export] Hint Extern 1 (steps _ (_ ≫= _)) => apply steps_bind; [assumption| |intros ?] : steps.
#[export] Hint Extern 1 (steps _ (if _ then _ else _)) => apply steps_if : steps.
#[export] Hint Extern 1 (steps _ (modifyS _)) =>
  apply steps_modify; intros ?; match goal with H : allows _ |- _ => apply H end : steps.
#[export] Hint Extern 1 (steps _ (cpu_do _)) => apply steps_cpu; [assumption|done] : steps.
#[export] Hint Extern 1 (steps _ (upd _ _)) => apply steps_upd; [assumption|done] : steps.
#[export] Hint Extern 1 (steps _ (get _ _)) => apply steps_gets; assumption : steps.
#[export] Hint Extern 2 (steps _ (match ?x with _ => _ end)) => destruct x : steps.
Ltac stp := intros; auto 60 with steps.

(** ** The code of the kernel *)

Section code.
Context {R : kstate → kstate → Prop} (HR : allows R).

Lemma steps_intr_disable : steps R intr_disable.
Proof using HR. unfold intr_disable, intr_get_level. stp. Qed.
Lemma steps_intr_enable : steps R intr_enable.
Proof using HR. unfold intr_enable, intr_get_level, intr_context. stp. Qed.
Lemma steps_set_cond c v : steps R (set_cond c v).
Proof using HR. unfold set_cond. stp. Qed.
#[local] Hint Resolve steps_intr_disable steps_intr_enable steps_set_cond : steps.
Lemma steps_intr_set_level on : steps R (intr_set_level on).
Proof using HR. unfold intr_set_level. stp. Qed.
Lemma steps_intr_yield : steps R intr_yield_on_return.
Proof using HR. unfold intr_yield_on_return, intr_context. stp. Qed.
Lemma steps_thread_current : steps R thread_current.
Proof using HR. unfold thread_current, is_thread. stp. Qed.
Lemma steps_insert_ordered l t : steps R (list_insert_ordered l t).
Proof using HR. unfold list_insert_ordered, set_list. stp. Qed.
Lemma steps_top_pri l : steps R (thread_list_top_pri l).
Proof using HR. unfold thread_list_top_pri. stp. Qed.
#[local] Hint Resolve steps_intr_set_level steps_intr_yield steps_thread_current
  steps_insert_ordered steps_top_pri : steps.
Lemma steps_update_elem l t : steps R (list_update_elem l t).
Proof using HR. unfold list_update_elem, set_list. stp. Qed.
Lemma steps_get_priority : steps R thread_get_priority.
Proof using HR. unfold thread_get_priority. stp. Qed.
Lemma steps_schedule : steps R schedule.
Proof using HR.
  unfold schedule, next_thread_to_run, set_list, is_thread, intr_get_level, thread_schedule_tail, intr_get_level. stp.
Qed.
#[local] Hint Resolve steps_update_elem steps_get_priority steps_schedule : steps.
Lemma steps_block : steps R thread_block.
Proof using HR. unfold thread_block, intr_context, intr_get_level. stp. Qed.
Lemma steps_yield : steps R thread_yield.
Proof using HR. unfold thread_yield, intr_context. stp. Qed.
Lemma steps_unblock t : steps R (thread_unblock t).
Proof using HR. unfold thread_unblock, is_thread. stp. Qed.
Lemma steps_update_timers : steps R thread_update_timers.
Proof using HR.
  assert (∀ ts, steps R (update_timers_loop ts))
    by (induction ts; cbn; unfold timer_elapsed, list_insert_ordered, set_list; stp).
  unfold thread_update_timers. stp.
Qed.
#[local] Hint Resolve steps_block steps_yield steps_unblock steps_update_timers : steps.

(** The operations that set priorities. *)
Context (thread_mlfqs : bool) (stack_word : kstate → positive → Z).
Context (H_calculate : ∀ t, steps R (thread_calculate_priority t)).
Context (H_nice : ∀ n, steps R (thread_set_nice n)).
Context (H_set : ∀ p, steps R (thread_set_priority thread_mlfqs p)).
Context (H_init : ∀ t p, steps R (init_thread thread_mlfqs t p)).
Context (H_donate : ∀ l p, thread_mlfqs = false → steps R (lock_donate l p)).
Context (H_release : ∀ l, steps R (lock_release thread_mlfqs l)).

Lemma steps_thread_tick : steps R (thread_tick thread_mlfqs).
Proof using HR H_calculate.
  assert (∀ f, (∀ t, steps R (f t)) → steps R (thread_foreach f)) as Hfe.
  { intros f Hf. assert (∀ ts, steps R (foreach_loop f ts)) by (induction ts; cbn; stp).
    unfold thread_foreach, intr_get_level. stp. }
  assert (steps R (thread_foreach thread_calculate_recent_cpu))
    by (apply Hfe; unfold thread_calculate_recent_cpu; stp).
  assert (steps R (thread_foreach thread_update_priorities))
    by (apply Hfe; unfold thread_update_priorities; stp).
  assert (steps R thread_calculate_load_avg) by (unfold thread_calculate_load_avg; stp).
  unfold thread_tick, count_tick, mlfqs_tick; stp.
Qed.

Lemma steps_sema_up q : steps R (sema_up q).
Proof using HR. unfold sema_up, set_value. stp. Qed.
Lemma steps_sema_up_pop q : steps R (sema_up_pop q).
Proof using HR. unfold sema_up_pop, set_list. stp. Qed.
Lemma steps_sema_down_loop q old : steps R (sema_down_loop q old).
Proof using HR. unfold sema_down_loop, set_value. stp. Qed.
Lemma steps_try_down q : steps R (sema_try_down q).
Proof using HR. unfold sema_try_down, set_value. stp. Qed.
Lemma steps_held l : steps R (lock_held_by_current_thread l).
Proof using HR. unfold lock_held_by_current_thread. stp. Qed.
Lemma steps_give l t : steps R (give_lock l t).
Proof using HR. unfold give_lock, set_holder. stp. Qed.
#[local] Hint Resolve steps_sema_up steps_sema_up_pop steps_sema_down_loop steps_try_down steps_held steps_give : steps.
Lemma steps_sema_down q : steps R (sema_down q).
Proof using HR. unfold sema_down, intr_context. stp. Qed.
Lemma steps_try_acquire l : steps R (lock_try_acquire l).
Proof using HR. unfold lock_try_acquire. stp. Qed.
#[local] Hint Resolve steps_sema_down steps_try_acquire : steps.
Lemma steps_acquire l : steps R (lock_acquire thread_mlfqs l).
Proof using HR H_donate.
  assert (∀ b p, steps R (if b && negb thread_mlfqs then lock_donate l p else mret tt)).
  { intros b p. destruct (b && negb thread_mlfqs) eqn:E; [|stp].
    apply andb_true_iff in E as [_ E%negb_true_iff]. by apply H_donate. }
  unfold lock_acquire, intr_context. stp.
Qed.
#[local] Hint Resolve steps_acquire : steps.

Lemma steps_exec_frame f : steps R (exec_frame thread_mlfqs stack_word f).
Proof using HR H_donate H_release.
  destruct f; cbn [exec_frame];
    unfold iret, kernel_thread, idle, idle_loop, idle_resume, lock_acquire_give, cond_wait, cond_signal,
      cond_broadcast, exclusive_loop, shared_loop, release_shared, release_exclusive, allocate_tid, create_frames,
      set_slock_i, cond_sort_priority, sema_init, set_value, set_list, intr_context; stp.
Qed.

Lemma steps_exec_call c : steps R (exec_call thread_mlfqs c).
Proof using HR H_nice H_set H_init.
  destruct c; cbn [exec_call];
    unfold lock_acquire_exclusive, lock_acquire_shared, lock_release_shared, lock_release_exclusive, timer_sleep,
      thread_sleep, thread_create, thread_exit, intr_context, intr_get_level, timer_elapsed; stp.
Qed.

Lemma steps_thread_init : steps R (thread_init thread_mlfqs).
Proof using HR H_init.
  unfold thread_init, intr_get_level, lock_init, set_holder, sema_init, set_value, set_list. stp.
Qed.

Lemma steps_thread_start page : steps R (thread_start thread_mlfqs page).
Proof using HR H_init. unfold thread_start, sema_init, set_value, set_list, thread_create. stp. Qed.
End code.

(** ** [stale] stays set *)

Definition fresher (s s' : kstate) : Prop := stale s' = false → stale s = false.

Lemma fresher_allows : allows fresher.
Proof. split; unfold fresher; try done; [auto|]. by intros b s [? _]%orb_false_iff. Qed.

Lemma fresher_upd t f : steps fresher (upd t f).
Proof. apply steps_modify. intros s Hs. exact Hs. Qed.
#[local] Hint Resolve fresher_upd fresher_allows steps_intr_disable steps_intr_enable steps_intr_set_level
  steps_intr_yield steps_thread_current steps_top_pri steps_update_elem steps_held : steps.

Lemma fresher_calculate t : steps fresher (thread_calculate_priority t).
Proof. pose proof fresher_allows. unfold thread_calculate_priority, intr_context. stp. Qed.
#[local] Hint Resolve fresher_calculate : steps.
Lemma fresher_nice n : steps fresher (thread_set_nice n).
Proof. pose proof fresher_allows. unfold thread_set_nice. stp. Qed.
Lemma fresher_set m p : steps fresher (thread_set_priority m p).
Proof. pose proof fresher_allows. unfold thread_set_priority. stp. Qed.
Lemma fresher_init m t p : steps fresher (init_thread m t p).
Proof. pose proof fresher_allows. unfold init_thread. stp. Qed.
Lemma fresher_donate_loop n o p : steps fresher (lock_donate_loop n o p).
Proof. pose proof fresher_allows. revert o. induction n; intros; cbn; stp. Qed.
#[local] Hint Resolve fresher_donate_loop : steps.
Lemma fresher_donate l p : steps fresher (lock_donate l p).
Proof. pose proof fresher_allows. unfold lock_donate. stp. Qed.
Lemma fresher_release m l : steps fresher (lock_release m l).
Proof. pose proof fresher_allows. unfold lock_release, next_potential_donation, set_holder. stp. Qed.
Lemma fresher_handler m : steps fresher (intr_handler m).
Proof.
  pose proof fresher_allows as HR. pose proof (steps_thread_tick HR m fresher_calculate).
  assert (∀ f, steps fresher (cpu_do f)) by (intros f; apply steps_modify; intros s Hs; exact Hs).
  unfold intr_handler, timer_interrupt, intr_get_level, intr_context. stp.
Qed.

Lemma kstep_fresher m w e s s' : kstep m w e s = Some (Ret s') → fresher s s'.
Proof.
  intros Hk. unfold kstep in Hk. pose proof fresher_allows as HR.
  destruct e as [c| |], (stack (threads s (current (cpu s)))) as [|f fs]; try done.
  all: repeat match type of Hk with (if ?x then _ else _) = _ => destruct x; [|done] end.
  all: injection Hk as Hk; apply outcome_snd in Hk as [u Hk].
  - exact (steps_exec_call HR m fresher_nice (fresher_set m) (fresher_init m) c _ _ _ Hk).
  - exact (steps_exec_frame HR m w (λ l p _, fresher_donate l p) (fresher_release m) f _ _ _ Hk).
  - exact (steps_bind HR _ _ (steps_intr_disable HR) (λ _, fresher_handler m) _ _ _ Hk).
  - exact (steps_bind HR _ _ (steps_intr_disable HR) (λ _, fresher_handler m) _ _ _ Hk).
Qed.

Lemma star_fresher m w s s' : star (kernel_step m w) s s' → fresher s s'.
Proof. induction 1 as [|s1 s2 s3 [e He] _ IH]; [by intros ?|]. intros Hs. eapply kstep_fresher; [done|auto]. Qed.

(** An invariant of the steps that do not set [stale] holds in every reachable
    state. *)
Lemma reachable_invariant m w (P : kstate → Prop) :
  (∀ page s, page ≠ 1%positive → boot m w page = Ret s → stale s = false → P s) →
  (∀ e s s', P s → kstep m w e s = Some (Ret s') → stale s' = false → P s') →
  ∀ s, reachable m w s → P s.
Proof.
  intros Hb Hstep s [(page & s0 & Hp & Hb0 & Hs) Hst].
  assert (P s0) as H0 by (eapply Hb; [done..|by eapply star_fresher]). clear Hb Hb0 Hp.
  induction Hs as [|s1 s2 s3 [e He] Hs IH]; [done|]. apply IH; [done|].
  eapply Hstep; [done..|]. by eapply star_fresher.
Qed.

(** ** Invariants *)

(** What code keeps when it keeps [P]. *)
Definition keeping (P : kstate → Prop) (s s' : kstate) : Prop := P s → P s'.

(** A property kept by all of the code and by the interrupt handler holds in
    every state of every run. *)
Lemma runs_keeping m w (P : kstate → Prop) :
  allows (keeping P) →
  (∀ t, steps (keeping P) (thread_calculate_priority t)) → (∀ n, steps (keeping P) (thread_set_nice n)) →
  (∀ p, steps (keeping P) (thread_set_priority m p)) → (∀ t p, steps (keeping P) (init_thread m t p)) →
  (∀ l p, m = false → steps (keeping P) (lock_donate l p)) → (∀ l, steps (keeping P) (lock_release m l)) →
  steps (keeping P) (intr_handler m) → P start_state →
  ∀ s, runs_to m w s → P s.
Proof.
  intros HR Hcalc Hnice Hset Hinit Hdon Hrel Hh Hstart s (page & s0 & _ & Hb & Hs).
  assert (∀ e a b, P a → kstep m w e a = Some (Ret b) → P b) as Hstep.
  { intros e a b Ha Hk. unfold kstep in Hk.
    destruct e as [c| |], (stack (threads a (current (cpu a)))) as [|f fs]; try done.
    all: repeat match type of Hk with (if ?x then _ else _) = _ => destruct x; [|done] end.
    all: injection Hk as Hk; apply outcome_snd in Hk as [u Hk].
    - exact (steps_exec_call HR m Hnice Hset Hinit c _ _ _ Hk Ha).
    - refine (steps_exec_frame HR m w Hdon Hrel f _ _ _ Hk _). by apply (al_upd _ HR _ (set_stack fs)).
    - exact (steps_bind HR _ _ (steps_intr_disable HR) (λ _, Hh) _ _ _ Hk Ha).
    - exact (steps_bind HR _ _ (steps_intr_disable HR) (λ _, Hh) _ _ _ Hk Ha). }
  assert (∀ es a b, P a → kexec m w es a = Some (Ret b) → P b) as Hexec.
  { induction es as [|e es IH]; intros a b Ha Hk; cbn [kexec] in Hk; [by injection Hk as <-|].
    destruct (kstep m w e a) as [[a1| |]|] eqn:E; try done. eapply IH; [|exact Hk]. by eapply Hstep. }
  apply (star_invariant (kernel_step m w) P s0 s); [|clear Hs|done].
  { intros a b Ha [e He]. by eapply Hstep. }
  apply boot_split in Hb as (u & a & b & u' & Hi & Hx & Ht).
  refine (steps_thread_start HR m Hinit _ _ _ _ Ht _). eapply Hexec; [|exact Hx].
  exact (steps_thread_init HR m Hinit _ _ _ Hi Hstart).
Qed.
