(* ===== verification/KernelOps.v ===== *)
(** * The scheduler's invariant is kept by every operation

    Each operation of [Thread], [Synch] and [Machine] keeps the invariant of
    [KernelInv]; so every state the machine can reach satisfies it. *)

From stdpp Require Import functions.
From stdpp Require Import base tactics list numbers option sorting sets.
From Stdlib Require Import ZArith Lia.
From S2P Require Import Prelude LinkedList ListOps FixedPoint KState Thread Synch Machine KernelInv KernelPass.

Local Open Scope Z_scope.

(** ** Code that does not touch what the invariant reads *)

Definition keeps {A} (m : K A) : Prop := ∀ s a s', m s = Ret (a, s') → core_eq s s'.

Lemma keeps_ret {A} (a : A) : keeps (mret a).
Proof. intros s ? ? [= <- <-]. done. Qed.
Lemma keeps_bind {A B} (m : K A) (f : A → K B) : keeps m → (∀ a, keeps (f a)) → keeps (m ≫= f).
Proof. intros Hm Hf s b s' (a & s1 & H1 & H2)%st_bind_inv. trans s1; [by eapply Hm|by eapply Hf]. Qed.
Lemma keeps_gets {A} (f : kstate → A) : keeps (gets f).
Proof. intros s ? ? [= <- <-]. done. Qed.
Lemma keeps_getS : keeps getS.
Proof. intros s ? ? [= <- <-]. done. Qed.
Lemma keeps_assert b : keeps (assertS b).
Proof. by intros s ? ? [_ ->]%assertS_inv. Qed.
Lemma keeps_panic {A} : keeps (panicS (A := A)).
Proof. done. Qed.
Lemma keeps_deref {A} (o : option A) : keeps (deref o).
Proof. destruct o; [apply keeps_ret|apply keeps_panic]. Qed.

Lemma keeps_modify f : (∀ s, core_eq s (f s)) → keeps (modifyS f).
Proof. intros Hf s ? ? [= <- <-]. apply Hf. Qed.

(** Members the invariant does not read. *)
Definition core_fun (f : thread → thread) : Prop := ∀ r,
  magic (f r) = magic r ∧ status (f r) = status r ∧ thread_pl (f r) = thread_pl r ∧
  priority (f r) = priority r ∧ pend_of (stack (f r)) = pend_of (stack r).

Lemma core_upd_thread t f s : core_fun f → core_eq s (upd_thread t f s).
Proof.
  intros Hf. constructor; try done; intros u; cbn; fn_case u t; try done; apply Hf.
Qed.

Lemma keeps_upd t f : core_fun f → keeps (upd t f).
Proof. intros Hf. apply keeps_modify. intros s. by apply core_upd_thread. Qed.

Lemma keeps_cpu f :
  (∀ c, current (f c) = current c ∧ idle_thread (f c) = idle_thread c) → keeps (cpu_do f).
Proof. intros Hf. apply keeps_modify. intros s. constructor; try done; apply Hf. Qed.

Lemma keeps_if {A} (b : bool) (m1 m2 : K A) : keeps m1 → keeps m2 → keeps (if b then m1 else m2).
Proof. by destruct b. Qed.

Lemma keeps_push fs : pend_of fs = [] → keeps (push fs).
Proof.
  intros Hp. apply keeps_bind; [apply keeps_gets|intros t]. apply keeps_upd. intros r.
  split_and!; try done. unfold pend_of in *. cbn [stack set_stack]. by rewrite omap_app, Hp.
Qed.

Create HintDb keeps.
#[export] Hint Resolve keeps_ret keeps_gets keeps_getS keeps_assert keeps_panic keeps_deref keeps_push : keeps.
#[export] Hint Extern 1 (keeps (_ ≫= _)) => apply keeps_bind; [|intros ?] : keeps.
#[export] Hint Extern 1 (keeps (if _ then _ else _)) => apply keeps_if : keeps.
#[export] Hint Extern 1 (keeps (modifyS _)) => apply keeps_modify; done : keeps.
#[export] Hint Extern 1 (keeps (cpu_do _)) => apply keeps_cpu; done : keeps.
#[export] Hint Extern 1 (keeps (upd _ _)) => apply keeps_upd; done : keeps.
#[export] Hint Extern 1 (keeps (get _ _)) => apply keeps_gets : keeps.
#[export] Hint Extern 2 (keeps (match ?x with _ => _ end)) => destruct x : keeps.
#[export] Hint Extern 1 (pend_of _ = []) => reflexivity : keeps.

Ltac keep := intros; auto 60 with keeps.

Lemma keeps_intr_disable : keeps intr_disable.
Proof. unfold intr_disable, intr_get_level. keep. Qed.
Lemma keeps_intr_enable : keeps intr_enable.
Proof. unfold intr_enable, intr_get_level, intr_context. keep. Qed.
#[export] Hint Resolve keeps_intr_disable keeps_intr_enable : keeps.
Lemma keeps_intr_set_level on : keeps (intr_set_level on).
Proof. unfold intr_set_level. keep. Qed.
Lemma keeps_intr_context : keeps intr_context.
Proof. unfold intr_context. keep. Qed.
Lemma keeps_intr_get_level : keeps intr_get_level.
Proof. unfold intr_get_level. keep. Qed.
#[export] Hint Resolve keeps_intr_set_level keeps_intr_context keeps_intr_get_level : keeps.
Lemma keeps_intr_yield_on_return : keeps intr_yield_on_return.
Proof. unfold intr_yield_on_return. keep. Qed.
Lemma keeps_is_thread t : keeps (is_thread t).
Proof. unfold is_thread. keep. Qed.
Lemma keeps_running_thread : keeps running_thread.
Proof. unfold running_thread. keep. Qed.
#[export] Hint Resolve keeps_intr_yield_on_return keeps_is_thread keeps_running_thread : keeps.
Lemma keeps_thread_current : keeps thread_current.
Proof. unfold thread_current. keep. Qed.
Lemma keeps_top_pri l : keeps (thread_list_top_pri l).
Proof. unfold thread_list_top_pri. keep. Qed.
#[export] Hint Resolve keeps_thread_current keeps_top_pri : keeps.
Lemma keeps_get_priority : keeps thread_get_priority.
Proof. unfold thread_get_priority. keep. Qed.
Lemma keeps_set_value q v : keeps (set_value q v).
Proof. unfold set_value. keep. Qed.
Lemma keeps_set_holder l v : keeps (set_holder l v).
Proof. unfold set_holder. keep. Qed.
Lemma keeps_set_cond c v : keeps (set_cond c v).
Proof. unfold set_cond. keep. Qed.
Lemma keeps_set_slock n v : keeps (set_slock_i n v).
Proof. unfold set_slock_i. keep. Qed.
#[export] Hint Resolve keeps_get_priority keeps_set_value keeps_set_holder keeps_set_cond keeps_set_slock : keeps.
Lemma keeps_sema_try_down q : keeps (sema_try_down q).
Proof. unfold sema_try_down. keep. Qed.
Lemma keeps_sema_up q : keeps (sema_up q).
Proof. unfold sema_up. keep. Qed.
Lemma keeps_held l : keeps (lock_held_by_current_thread l).
Proof. unfold lock_held_by_current_thread. keep. Qed.
Lemma keeps_give_lock l t : keeps (give_lock l t).
Proof. unfold give_lock. keep. Qed.
#[export] Hint Resolve keeps_sema_try_down keeps_sema_up keeps_held keeps_give_lock : keeps.
Lemma keeps_try_acquire l : keeps (lock_try_acquire l).
Proof. unfold lock_try_acquire. keep. Qed.
Lemma keeps_acquire_give l old : keeps (lock_acquire_give l old).
Proof. unfold lock_acquire_give. keep. Qed.
Lemma keeps_cond_signal w c l : keeps (cond_signal w c l).
Proof. unfold cond_signal, cond_sort_priority. keep. Qed.
Lemma keeps_cond_broadcast c l : keeps (cond_broadcast c l).
Proof. unfold cond_broadcast. keep. Qed.
Lemma keeps_exclusive_loop n : keeps (exclusive_loop n).
Proof. unfold exclusive_loop. keep. Qed.
Lemma keeps_shared_loop n : keeps (shared_loop n).
Proof. unfold shared_loop. keep. Qed.
Lemma keeps_release_shared n : keeps (release_shared n).
Proof. unfold release_shared. keep. Qed.
Lemma keeps_release_exclusive n : keeps (release_exclusive n).
Proof. unfold release_exclusive. keep. Qed.
Lemma keeps_allocate_tid t : keeps (allocate_tid t).
Proof. unfold allocate_tid. keep. Qed.
#[export] Hint Resolve keeps_try_acquire keeps_acquire_give keeps_cond_signal keeps_cond_broadcast
  keeps_exclusive_loop keeps_shared_loop keeps_release_shared keeps_release_exclusive
  keeps_allocate_tid : keeps.

(** ** Switching threads *)

(** The state in which [schedule] has chosen [n]. *)
Inductive chosen (s : kstate) : tp → kstate → Prop :=
| chosen_idle i : lists s ReadyList = [] → idle_thread (cpu s) = Some i → chosen s i s
| chosen_ready n rest : lists s ReadyList = n :: rest →
    chosen s n (upd_thread n (set_thread_pl None) (with_lists (<[ReadyList := rest]> (lists s)) s)).

(** What [schedule] does: switch to the thread chosen, and free the page of a
    dying one. *)
Definition free_dying (p : tp) (s : kstate) : kstate :=
  if bool_decide (status (threads s p) = THREAD_DYING) && bool_decide (p ≠ initial_thread (cpu s))
     && bool_decide (p ≠ current (cpu s))
  then upd_thread p clear_magic s else s.

(** States with the same members, seen through the updates. *)
Ltac core_tac :=
  constructor; try done; intros; cbn; repeat (
    match goal with
    | |- context [<[?y := _]> _ ?x] => fn_case x y
    end; cbn); try done.

Lemma core_free_dying p s s' :
  core_eq s s' → initial_thread (cpu s') = initial_thread (cpu s) →
  core_eq (free_dying p s) (free_dying p s').
Proof.
  intros Hc Hi. unfold free_dying. rewrite (ce_status _ _ Hc), (ce_current _ _ Hc), Hi.
  destruct (_ && _); [|done]. destruct Hc. constructor; try done; intros u; cbn; fn_case u p; cbn; auto.
Qed.

Lemma schedule_tail_run prev s s' :
  thread_schedule_tail prev s = Ret (tt, s') →
  let s1 := upd_thread (current (cpu s)) (set_status THREAD_RUNNING) s in
  core_eq (match prev with Some p => free_dying p s1 | None => s1 end) s'.
Proof.
  unfold thread_schedule_tail, running_thread, intr_get_level, upd, cpu_do. intros H. st_run H.
  destruct prev as [p|]; [|by st_run H; constructor].
  st_run H. unfold free_dying. cbn -[bool_decide] in H |- *.
  destruct (_ && _); st_run H; [|by constructor].
  rewrite bool_decide_eq_true in Hassert0. rewrite bool_decide_eq_true_2 by done. by constructor.
Qed.

Lemma next_thread_run s next s1 :
  next_thread_to_run s = Ret (next, s1) →
  (next = None ∧ s1 = s) ∨ ∃ n, next = Some n ∧ chosen s n s1.
Proof.
  unfold next_thread_to_run, upd, set_list. intros H.
  apply st_bind_inv in H as (? & ? & H0 & H). st_run H0.
  destruct (lists s ReadyList) as [|n rest] eqn:Hl; st_run H.
  - destruct (idle_thread (cpu s)) as [i|] eqn:Hi; [|by left]. right. exists i.
    split; [done|by constructor].
  - right. exists n. split; [done|by apply chosen_ready].
Qed.

Lemma chosen_same s n s1 :
  chosen s n s1 → cpu s1 = cpu s ∧ all_list s1 = all_list s ∧
  (∀ t, magic (threads s1 t) = magic (threads s t) ∧ status (threads s1 t) = status (threads s t)).
Proof. destruct 1; [done|]. split_and!; [done..|]. intros t. cbn. by fn_case t n. Qed.

Lemma schedule_run s s' :
  schedule s = Ret (tt, s') →
  ∃ n s1, chosen s n s1 ∧ magic (threads s n) = true ∧
    status (threads s (current (cpu s))) ≠ THREAD_RUNNING ∧
    core_eq (free_dying (current (cpu s)) (switch_to n s1)) s'.
Proof.
  unfold schedule, running_thread, get, cpu_do, intr_get_level. intros H.
  apply st_bind_inv in H as (? & ? & Hr & H). st_run Hr.
  apply st_bind_inv in H as (next & s1 & Hn & H).
  destruct (next_thread_run _ _ _ Hn) as [[-> ->]|(n & -> & Hch)]; [st_run H|].
  destruct (chosen_same _ _ _ Hch) as (Hcp & _ & Hts). unfold is_thread, get in H.
  st_run H. rewrite bool_decide_eq_true, (proj2 (Hts _)) in Hassert0. rewrite (proj1 (Hts _)) in Hassert1.
  exists n, s1. split_and!; [done..|].
  case_bool_decide as Hcn; st_run H; apply schedule_tail_run in H; cbn zeta in H.
  - done.
  - subst n. etrans; [|exact H]. unfold free_dying. cbn.
    rewrite fn_lookup_insert. cbn. rewrite Hcp. 
    constructor; try done; cbn; by rewrite Hcp.
Qed.

(** No ready thread is more important than the running one. *)
Definition highest (s : kstate) : Prop :=
  ∀ t, t ∈ lists s ReadyList → priority (threads s t) ≤ priority (threads s (current (cpu s))).

Lemma highest_core s s' : core_eq s s' → highest s → highest s'.
Proof. intros [] Hh t. rewrite ce_lists, !ce_priority, ce_current. apply Hh. Qed.

Lemma chosen_highest s n s1 : base s → chosen s n s1 → highest (switch_to n s1).
Proof.
  intros Hb Hch t. change (lists (switch_to n s1)) with (lists s1).
  change (current (cpu (switch_to n s1))) with n. unfold switch_to.
  rewrite !(upd_thread_keeps priority) by done. cbn [threads with_cpu].
  destruct Hch as [n Hl _|n rest Hl]; [rewrite Hl; by intros ?%elem_of_nil|].
  rewrite !(upd_thread_keeps priority) by done. cbn. rewrite fn_lookup_insert. intros Ht.
  pose proof (b_order _ Hb ReadyList) as Ho. rewrite Hl in Ho.
  apply StronglySorted_inv in Ho as [_ Ho]. rewrite Forall_forall in Ho. specialize (Ho t Ht).
  unfold thread_cmp in Ho. lia.
Qed.

Lemma schedule_ok s u s' : base s → schedule s = Ret (u, s') → inv s' ∧ highest s'.
Proof.
  destruct u. intros Hb (n & s1 & Hch & Hm & Hst & Hc)%schedule_run.
  destruct (chosen_same _ _ _ Hch) as (Hcp & Ha & Hts).
  assert (inv (switch_to n s1)) as Hi.
  { destruct Hch as [n Hl Hi|n rest Hl].
    - destruct (b_idle _ Hb n Hi). apply inv_switch_to; try done.
      + intros l Hn%(b_in _ Hb). naive_solver.
      + intros Hn%(b_sleeper _ Hb). naive_solver.
      + intros Hn%(b_pending _ Hb). naive_solver.
    - destruct (b_in _ Hb ReadyList n) as (?&Hrd&?&?&?); [rewrite Hl; set_solver|].
      pose proof (base_sublist ReadyList rest s Hb ltac:(rewrite Hl; by constructor)) as Hb1.
      set (s0 := with_lists _ s) in *.
      assert (∀ l, n ∉ lists s0 l) as Hnl.
      { intros l. unfold s0. cbn. fn_case l ReadyList.
        - pose proof (b_lists _ Hb ReadyList) as Hnd. rewrite Hl in Hnd. by apply NoDup_cons in Hnd as [? _].
        - intros Hn%(b_in _ Hb). naive_solver. }
      apply inv_switch_to; try done.
      + by apply base_pl_none.
      + by rewrite (proj2 (Hts _)), Hcp.
      + change (pend _) with (pend (upd_thread n (set_thread_pl None) s0)).
        erewrite (pend_ext s); [|done|].
        * intros (Hn&_)%(b_pending _ Hb). by rewrite Hrd in Hn.
        * intros u. by apply (upd_thread_keeps (λ r, pend_of (stack r)) _ _ s0).
      + by rewrite upd_thread_eq. }
  pose proof (chosen_highest _ _ _ Hb Hch) as Hh.
  split; [eapply inv_core; [exact Hc|]|eapply highest_core; [exact Hc|]].
  2: { unfold free_dying. destruct (_ && _); [|done]. intros t.
       rewrite !(upd_thread_keeps priority) by done. apply Hh. }
  unfold free_dying. case_bool_decide as Hd; [|done].
  case_bool_decide; [|done]. case_bool_decide as Hne; [|done]. cbn [andb]. destruct Hi as [Hbi ???].
  assert (current (cpu s) ∉ all_list (switch_to n s1)) by (intros []%(b_live _ Hbi); done).
  split; [by apply base_clear_magic|..]; rewrite ?upd_thread_ne by (apply not_eq_sym, Hne); done.
Qed.

(** ** Operations that keep the invariant *)

(** Of the state after the code only one without [stale] set is of interest. *)
Definition preserves {A} (m : K A) : Prop := ∀ s a s',
  m s = Ret (a, s') → stale s' = false → stale s = false ∧ (inv s → inv s').

Lemma preserves_intro {A} (m : K A) :
  steps fresher m → (∀ s a s', inv s → m s = Ret (a, s') → stale s' = false → inv s') → preserves m.
Proof. intros Hf Hm s a s' Hr Hs. split; [by eapply Hf|]. intros. by eapply Hm. Qed.
Lemma preserves_keeps {A} (m : K A) : keeps m → preserves m.
Proof. intros Hk s a s' Hr%Hk Hs. split; [by rewrite <-(ce_stale _ _ Hr)|]. intros. by eapply inv_core. Qed.
Lemma preserves_bind {A B} (m : K A) (f : A → K B) :
  preserves m → (∀ a, preserves (f a)) → preserves (m ≫= f).
Proof.
  intros Hm Hf s b s' (a & s1 & H1 & H2)%st_bind_inv Hs. destruct (Hf _ _ _ _ H2 Hs) as [Hs1 ?].
  destruct (Hm _ _ _ H1 Hs1) as [? ?]. auto.
Qed.
Lemma preserves_if {A} (b : bool) (m1 m2 : K A) :
  preserves m1 → preserves m2 → preserves (if b then m1 else m2).
Proof. by destruct b. Qed.
Lemma preserves_run {A} (m : K A) s a s' : preserves m → inv s → m s = Ret (a, s') → stale s' = false → inv s'.
Proof. intros Hm Hi Hr Hs. by apply (Hm _ _ _ Hr Hs). Qed.
Lemma keeps_run {A} (m : K A) s a s' : keeps m → inv s → m s = Ret (a, s') → inv s'.
Proof. intros Hm Hi Hr%Hm. by eapply inv_core. Qed.

(** The running thread is the one the code works on. *)
Lemma thread_current_run s t s' :
  thread_current s = Ret (t, s') → t = current (cpu s) ∧ s' = s.
Proof. unfold thread_current, running_thread, is_thread, get. intros H. by st_run H. Qed.

Lemma intr_disable_run s old s' :
  intr_disable s = Ret (old, s') → old = intr_on (cpu s) ∧ s' = with_cpu (set_intr_on false (cpu s)) s.
Proof. unfold intr_disable, intr_get_level, cpu_do. intros H. by st_run H. Qed.

Lemma current_not_listed s l : inv s → current (cpu s) ∉ lists s l.
Proof. intros [Hb Hs _ _] (_&Hl&_)%(b_in _ Hb). rewrite Hs in Hl. by destruct l. Qed.
Lemma current_not_sleeping s : inv s → current (cpu s) ∉ sleeping_list s.
Proof. intros [Hb Hs _ _] (_&Hl&_)%(b_sleeper _ Hb). by rewrite Hs in Hl. Qed.
Lemma current_not_pending s : inv s → current (cpu s) ∉ pend s.
Proof. intros [Hb Hs _ _] (Hl&_)%(b_pending _ Hb). by rewrite Hs in Hl. Qed.

(** The running thread changes members the lists do not depend on. *)
Lemma preserves_upd_current f s :
  inv s → (∀ r, magic (f r) = magic r ∧ status (f r) = status r ∧ thread_pl (f r) = thread_pl r ∧
             stack (f r) = stack r) →
  inv (upd_thread (current (cpu s)) f s).
Proof.
  intros Hi Hf. pose proof (current_not_listed s) as Hl. destruct (Hf (threads s (current (cpu s)))) as (?&?&?&?).
  pose proof Hi as [Hb ???]. split; [apply base_priority; auto|..];
    change (cpu (upd_thread _ _ s)) with (cpu s); rewrite ?upd_thread_eq; try done; congruence.
Qed.

Create HintDb preserves.
#[export] Hint Extern 1 (preserves (_ ≫= _)) => apply preserves_bind; [|intros ?] : preserves.
#[export] Hint Extern 1 (preserves (if _ then _ else _)) => apply preserves_if : preserves.
#[export] Hint Extern 5 (preserves _) => apply preserves_keeps; solve [auto 60 with keeps] : preserves.
#[export] Hint Extern 2 (preserves (match ?x with _ => _ end)) => destruct x : preserves.
Ltac pres := intros; auto 60 with preserves.

(** Blocking: the running thread has been put somewhere. *)
Lemma thread_block_ok s u s' :
  base (upd_thread (current (cpu s)) (set_status THREAD_BLOCKED) s) →
  thread_block s = Ret (u, s') → inv s' ∧ highest s'.
Proof.
  intros Hb H. unfold thread_block, intr_context, intr_get_level, upd in H.
  apply st_bind_inv in H as (? & ? & H1 & H). st_run H1.
  apply st_bind_inv in H as (? & ? & H1 & H). st_run H1.
  apply st_bind_inv in H as (? & ? & [-> ->]%thread_current_run & H).
  apply st_bind_inv in H as (? & ? & H1 & H). st_run H1. by eapply schedule_ok.
Qed.

Lemma thread_yield_ok s u s' : inv s → thread_yield s = Ret (u, s') → inv s' ∧ highest s'.
Proof.
  intros Hi H. unfold thread_yield, intr_context in H.
  apply st_bind_inv in H as (? & ? & [-> ->]%thread_current_run & H).
  apply st_bind_inv in H as (? & ? & H1 & H). st_run H1.
  apply st_bind_inv in H as (old & s1 & Hd & H). apply keeps_intr_disable in Hd as Hc.
  apply (inv_core _ _ Hc) in Hi as Hi1. rewrite <-(ce_current _ _ Hc) in H.
  apply st_bind_inv in H as (? & ? & H1 & H). st_run H1.
  apply st_bind_inv in H as (? & s2 & H1 & H). apply st_bind_inv in H as (? & s3 & H2 & H).
  unfold upd in H1, H2. st_run H2.
  apply st_bind_inv in H as (? & s4 & H3 & H). apply (keeps_push [F_intr_set_level old] eq_refl) in H3 as Hc4.
  eapply schedule_ok; [|exact H]. eapply base_core; [exact Hc4|].
  pose proof Hi1 as [Hb Hs Hpl Ha]. case_bool_decide as Hidle.
  - unfold list_insert_ordered, set_list in H1. st_run H1.
    eapply base_core; [|apply (base_enqueue ReadyList (current (cpu s1)) s1); try done].
    + constructor; try done; intros; cbn; try fn_case t (current (cpu s1)); try done.
      * symmetry. apply filter_ne. by apply current_not_sleeping.
    + intros l. by apply current_not_listed.
    + by apply current_not_pending.
  - st_run H1. apply (base_status THREAD_READY); try done.
    + intros l. by apply current_not_listed.
    + by apply current_not_sleeping.
    + by apply current_not_pending.
Qed.

Lemma preserves_yield : preserves thread_yield.
Proof. apply preserves_intro; [apply steps_yield, fresher_allows|]. intros s u s' Hi H _. by eapply thread_yield_ok. Qed.

Lemma preserves_unblock t s u s' :
  inv s → t ∈ all_list s → (∀ l, t ∉ lists s l) → (t ∉ sleeping_list s) → (t ∉ pend s) →
  Some t ≠ idle_thread (cpu s) → t ≠ current (cpu s) →
  thread_unblock t s = Ret (u, s') → inv s'.
Proof.
  intros Hi Ha Hl Hs Hp Hid Hc H. unfold thread_unblock in H.
  apply st_bind_inv in H as (? & ? & H1 & H). unfold is_thread, get in H1. st_run H1.
  apply st_bind_inv in H as (old & s1 & [-> ->]%intr_disable_run & H).
  set (s1 := with_cpu _ s) in *. assert (inv s1) as Hi1 by (eapply inv_core; [|exact Hi]; by constructor).
  apply st_bind_inv in H as (? & ? & H1 & H). unfold get in H1. st_run H1.
  apply st_bind_inv in H as (? & s2 & H1 & H). apply st_bind_inv in H as (? & s3 & H2 & H).
  unfold upd, list_insert_ordered, set_list in H1, H2. st_run H1. st_run H2.
  set (s4 := with_threads _ _) in H.
  assert (inv s4) as Hi4.
  { pose proof Hi1 as [Hb ???]. pose proof (base_enqueue ReadyList t s1 Hb Ha Hl Hp Hid) as Hb4.
    eapply inv_core; [|split; [exact Hb4|..]].
    - constructor; try done; intros; cbn; try fn_case t0 t; try done. symmetry. by apply filter_ne.
    - unfold enqueue. rewrite upd_thread_ne; [done|]. cbn. congruence.
    - unfold enqueue. rewrite upd_thread_ne; [done|]. cbn. congruence.
    - done. }
  revert Hi4 H. generalize s4. intros s5 Hi5 H.
  eapply (keeps_run _ _ _ _ (ltac:(keep) : keeps
    (pri ← thread_get_priority; top ← thread_list_top_pri ReadyList;
     if (pri <? top) && intr_on (cpu s) then push [F_yield; F_intr_set_level (intr_on (cpu s))]
     else intr_set_level (intr_on (cpu s));; mret tt))); [exact Hi5|exact H].
Qed.

(** ** Sleeping and waking *)

Lemma sleeper_places s t :
  base s → t ∈ sleeping_list s →
  t ∈ all_list s ∧ (∀ l, t ∉ lists s l) ∧ (t ∉ pend s) ∧ Some t ≠ idle_thread (cpu s).
Proof.
  intros Hb Ht. destruct (b_sleeper _ Hb t Ht) as (?&?&?&?). split_and!; try done.
  - intros l (?&?&?&?&?)%(b_in _ Hb). done.
  - intros (?&?&?)%(b_pending _ Hb). done.
Qed.

Lemma wake_inv t s :
  inv s → t ∈ sleeping_list s → inv (enqueue ReadyList t s).
Proof.
  intros Hi Ht. pose proof Hi as [Hb Hst Hpl Ha].
  destruct (sleeper_places s t Hb Ht) as (?&?&?&?).
  assert (current (cpu s) ≠ t) by (intros <-; by apply (current_not_sleeping s)).
  split; [by apply base_enqueue|..|done]; unfold enqueue; by rewrite upd_thread_ne.
Qed.

(** One turn of the loop of [thread_update_timers]. *)
Lemma update_timers_step t ts s u s' :
  update_timers_loop (t :: ts) s = Ret (u, s') →
  ∃ s1, update_timers_loop ts s1 = Ret (u, s') ∧
    s1 = if sleep (threads s t) <=? s64 (ticks (cpu s) - start (threads s t))
         then enqueue ReadyList t s else s.
Proof.
  intros H. cbn [update_timers_loop] in H. unfold timer_elapsed, get in H.
  apply st_bind_inv in H as (? & ? & H1 & H). st_run H1.
  apply st_bind_inv in H as (? & ? & H1 & H). st_run H1.
  apply st_bind_inv in H as (? & ? & H1 & H). st_run H1.
  apply st_bind_inv in H as ([] & s1 & H1 & H). exists s1. split; [exact H|].
  destruct (_ <=? _); [|by st_run H1].
  unfold upd, list_insert_ordered, set_list in H1. st_run H1.
  done.
Qed.

Lemma update_timers_loop_inv ts s u s' :
  inv s → NoDup ts → (∀ t, t ∈ ts → t ∈ sleeping_list s) →
  update_timers_loop ts s = Ret (u, s') → inv s'.
Proof.
  revert s. induction ts as [|t ts IH]; intros s Hi Hnd Hsub H.
  - cbn in H. by st_run H.
  - apply update_timers_step in H as (s1 & H & ->). apply NoDup_cons in Hnd as [Ht Hnd].
    destruct (_ <=? _); (eapply IH; [|exact Hnd| |exact H]).
    + apply wake_inv; [done|set_solver].
    + intros x Hx. apply list_elem_of_filter. set_solver.
    + done.
    + set_solver.
Qed.

Lemma update_timers_inv s u s' : inv s → thread_update_timers s = Ret (u, s') → inv s'.
Proof.
  intros Hi H. unfold thread_update_timers in H.
  apply st_bind_inv in H as (? & ? & H1 & H). st_run H1.
  eapply update_timers_loop_inv; [exact Hi| |done|exact H]. apply Hi.
Qed.
Lemma preserves_update_timers : preserves thread_update_timers.
Proof. apply preserves_intro; [apply steps_update_timers, fresher_allows|]. intros s u s' Hi H _. by eapply update_timers_inv. Qed.

(** Pushing code that is about no thread keeps every other member. *)
Lemma push_run fs s u s' :
  push fs s = Ret (u, s') →
  s' = upd_thread (current (cpu s)) (λ r, set_stack (fs ++ stack r) r) s.
Proof. unfold push, running_thread, upd. intros H. by st_run H. Qed.

Lemma timer_sleep_ok n s u s' :
  inv s → Some (current (cpu s)) ≠ idle_thread (cpu s) → timer_sleep n s = Ret (u, s') → inv s' ∧ highest s'.
Proof.
  intros Hi Hid H. unfold timer_sleep, intr_get_level, upd in H.
  apply st_bind_inv in H as (? & ? & H1 & H). st_run H1.
  apply st_bind_inv in H as (old & s1 & [-> ->]%intr_disable_run & H).
  apply st_bind_inv in H as (? & ? & [-> ->]%thread_current_run & H).
  apply st_bind_inv in H as (? & ? & H1 & H). st_run H1.
  apply st_bind_inv in H as (? & ? & H1 & H). st_run H1.
  set (s1 := with_threads _ _) in H.
  apply st_bind_inv in H as (? & s2 & H1 & H). apply (keeps_push [F_intr_set_level (intr_on (cpu s))] eq_refl) in H1 as Hc2.
  assert (core_eq s s2) as Hc by (etrans; [|exact Hc2]; constructor; try done; intros u'; cbn; by fn_case u' (current (cpu s))).
  apply (inv_core _ _ Hc) in Hi as Hi2. clear H1 Hc2 s1.
  rewrite <-(ce_current _ _ Hc), <-(ce_idle _ _ Hc) in Hid. clear Hc.
  unfold thread_sleep in H.
  apply st_bind_inv in H as (? & ? & [-> ->]%thread_current_run & H).
  apply st_bind_inv in H as (? & ? & H1 & H). st_run H1.
  pose proof Hi2 as [Hb ? Hpl Ha].
  eapply thread_block_ok; [|exact H].
  apply (base_sleep (current (cpu s2)) s2); try done.
  - intros l. by apply current_not_listed.
  - by apply current_not_sleeping.
  - by apply current_not_pending.
Qed.

Lemma thread_exit_ok s u s' :
  inv s → Some (current (cpu s)) ≠ idle_thread (cpu s) → stack (threads s (current (cpu s))) = [] →
  thread_exit s = Ret (u, s') → inv s' ∧ highest s'.
Proof.
  intros Hi Hid Hsk H. unfold thread_exit, intr_context, upd in H.
  apply st_bind_inv in H as (? & ? & H1 & H). st_run H1.
  apply st_bind_inv in H as (old & s1 & [-> ->]%intr_disable_run & H).
  set (s1 := with_cpu _ s) in *. assert (inv s1) as Hi1 by (eapply inv_core; [|exact Hi]; by constructor).
  apply st_bind_inv in H as (? & ? & [-> ->]%thread_current_run & H).
  apply st_bind_inv in H as (? & ? & H1 & H). st_run H1.
  apply st_bind_inv in H as (? & ? & H1 & H). st_run H1.
  eapply schedule_ok; [|exact H]. by apply (base_end_thread s1).
Qed.

(** ** Priorities *)

Lemma insert_sorted_ext f g t (xs : list tp) :
  (∀ x, priority (f x) = priority (g x)) →
  insert_sorted (thread_cmp f) t xs = insert_sorted (thread_cmp g) t xs.
Proof.
  intros Hp. induction xs as [|x xs IH]; [done|]. cbn. unfold thread_cmp at 1 3. by rewrite !Hp, IH.
Qed.

Lemma update_elem_run l t p s s1 u s' :
  core_eq (upd_thread t (set_priority p) s) s1 → list_update_elem (Some l) t s1 = Ret (u, s') → stale s' = false →
  t ∈ lists s l ∧ core_eq (reprioritize l p t s) s'.
Proof.
  intros Hc H Hst. unfold list_update_elem, list_insert_ordered, set_list, note_remove in H. st_run H.
  cbn in Hst. apply orb_false_iff in Hst as [Hst Hin]. rewrite negb_false_iff, bool_decide_eq_true, (ce_lists _ _ Hc) in Hin.
  split; [done|]. destruct Hc. constructor; try done; [|cbn; rewrite Hst; change (stale s) with (stale (upd_thread t (set_priority p) s)); rewrite <-ce_stale, Hst; by rewrite bool_decide_eq_true_2 by (by rewrite ce_lists)].
  intros l'. cbn. fn_case l' l; [|done]. rewrite ce_lists.
  by apply insert_sorted_ext.
Qed.

Lemma reprioritize_inv l p t s : inv s → t ∈ lists s l → inv (reprioritize l p t s).
Proof.
  intros Hi Ht. pose proof Hi as [Hb Hst Hpl Ha].
  assert (current (cpu s) ≠ t) by (intros <-; by apply (current_not_listed s l)).
  split; [by apply base_reprioritize|..|done];
    change (cpu (reprioritize l p t s)) with (cpu s); cbn; by rewrite fn_lookup_insert_ne by done.
Qed.

(** [t] gets a priority, and its place in the list it is on. *)
Lemma set_priority_inv p t s s1 u s' :
  inv s → core_eq (upd_thread t (set_priority p) s) s1 →
  match thread_pl (threads s1 t) with
  | Some _ => list_update_elem (thread_pl (threads s1 t)) t
  | None => mret tt
  end s1 = Ret (u, s') → stale s' = false → inv s'.
Proof.
  intros Hi Hc H Hst. assert (thread_pl (threads s1 t) = thread_pl (threads s t)) as Hpl.
  { rewrite (ce_pl _ _ Hc). by apply upd_thread_keeps. }
  rewrite Hpl in H. destruct (thread_pl (threads s t)) as [l|] eqn:Hl.
  - apply (update_elem_run l t p s) in H as [Ht Hc']; [|done..].
    eapply inv_core; [exact Hc'|]. by apply reprioritize_inv.
  - st_run H. eapply inv_core; [exact Hc|]. pose proof Hi as [Hb Hrun Hp Ha].
    split; [apply base_priority; try done|..|done].
    + intros l (?&_)%(b_in _ Hb). congruence.
    + by rewrite (upd_thread_keeps status).
    + by rewrite (upd_thread_keeps thread_pl).
Qed.

Lemma preserves_thread_set_priority m p : preserves (thread_set_priority m p).
Proof.
  apply preserves_intro; [apply fresher_set|]. intros s u s' Hi H _. unfold thread_set_priority, upd, get in H. destruct m; [by st_run H|].
  apply st_bind_inv in H as (? & ? & [-> ->]%thread_current_run & H).
  apply st_bind_inv in H as (old & s1 & [-> ->]%intr_disable_run & H).
  apply st_bind_inv in H as (? & s2 & H1 & H). st_run H1.
  apply st_bind_inv in H as (? & ? & H1 & H). st_run H1.
  apply st_bind_inv in H as (? & ? & H1 & H). st_run H1.
  set (s2 := with_threads _ _) in *. set (t := current (cpu s)) in *.
  assert (inv s2) as Hi2.
  { eapply inv_core; [|exact Hi]. constructor; try done; intros u'; cbn; by fn_case u' t. }
  apply st_bind_inv in H as (? & s3 & H1 & H).
  assert (inv s3) as Hi3.
  { change t with (current (cpu s2)) in H1. destruct (donated _); [destruct (_ <? _)|]; st_run H1; try done.
    - by apply (preserves_upd_current (set_donated false) _ (preserves_upd_current (set_priority p) s2 Hi2 ltac:(done)) ltac:(done)).
    - by apply (preserves_upd_current (set_priority p)). }
  clear H1 Hi2 s2. apply st_bind_inv in H as (? & ? & H1 & H). st_run H1.
  apply st_bind_inv in H as (? & s4 & Hk & H). apply keeps_top_pri in Hk.
  apply (inv_core _ _ Hk) in Hi3. destruct (_ <? _).
  - eapply (keeps_run (push _)); [|exact Hi3|exact H]; keep.
  - eapply (keeps_run (intr_set_level _;; mret tt)); [|exact Hi3|exact H]; keep.
Qed.

Lemma preserves_calculate_priority t : preserves (thread_calculate_priority t).
Proof.
  apply preserves_intro; [apply fresher_calculate|].
  intros s u s' Hi H Hst. unfold thread_calculate_priority, upd, get in H.
  apply st_bind_inv in H as (old & s1 & [-> ->]%intr_disable_run & H).
  apply st_bind_inv in H as (? & ? & H1 & H). st_run H1.
  apply st_bind_inv in H as (? & ? & H1 & H). st_run H1.
  set (p := if _ <? PRI_MIN then _ else _) in *.
  apply st_bind_inv in H as (? & ? & H1 & H). st_run H1.
  apply st_bind_inv in H as (? & ? & H1 & H). st_run H1.
  apply st_bind_inv in H as (? & s3 & H1 & H).
  eapply (ltac:(keep) : keeps (top ← thread_list_top_pri ReadyList;
    if p <? top then
      c ← intr_context;
      if (c : bool) then intr_yield_on_return;; intr_set_level (intr_on (cpu s));; mret tt
      else intr_set_level (intr_on (cpu s));; push [F_yield; F_intr_set_level (intr_on (cpu s))]
    else intr_set_level (intr_on (cpu s));; mret tt)) in H.
  eapply inv_core; [exact H|]. eapply (set_priority_inv p t s); [done| |exact H1|by rewrite <-(ce_stale _ _ H)].
  constructor; try done; intros u'; cbn; by fn_case u' t.
Qed.

#[export] Hint Resolve preserves_yield preserves_update_timers preserves_thread_set_priority
  preserves_calculate_priority : preserves.

Lemma preserves_set_nice n : preserves (thread_set_nice n).
Proof. unfold thread_set_nice. pres. Qed.
Lemma keeps_load_avg : keeps thread_calculate_load_avg.
Proof. unfold thread_calculate_load_avg. keep. Qed.
Lemma keeps_recent_cpu t : keeps (thread_calculate_recent_cpu t).
Proof. unfold thread_calculate_recent_cpu. keep. Qed.
#[export] Hint Resolve keeps_load_avg keeps_recent_cpu : keeps.
Lemma preserves_update_priorities t : preserves (thread_update_priorities t).
Proof. unfold thread_update_priorities. pres. Qed.
Lemma preserves_foreach f : (∀ t, preserves (f t)) → preserves (thread_foreach f).
Proof.
  intros Hf. assert (∀ ts, preserves (foreach_loop f ts)) by (induction ts; cbn; pres).
  unfold thread_foreach. pres.
Qed.
#[export] Hint Resolve preserves_set_nice preserves_update_priorities : preserves.

Lemma preserves_mlfqs_tick t : preserves (mlfqs_tick t).
Proof.
  assert (preserves (thread_foreach thread_calculate_recent_cpu)) by (apply preserves_foreach; pres).
  assert (preserves (thread_foreach thread_update_priorities)) by (apply preserves_foreach; pres).
  unfold mlfqs_tick. pres.
Qed.
Lemma keeps_count_tick t : keeps (count_tick t).
Proof. unfold count_tick. keep. Qed.
#[export] Hint Resolve preserves_mlfqs_tick : preserves.
#[export] Hint Resolve keeps_count_tick : keeps.
Lemma preserves_thread_tick m : preserves (thread_tick m).
Proof. unfold thread_tick. pres. Qed.
#[export] Hint Resolve preserves_thread_tick : preserves.
Lemma preserves_intr_handler m : preserves (intr_handler m).
Proof. unfold intr_handler, timer_interrupt. pres. Qed.
#[export] Hint Resolve preserves_intr_handler : preserves.
