(* ===== verification/KernelStacks.v ===== *)
(** * What the operations leave on kernel stacks

    Kernel code pushes frames on the stack of the running thread only, and
    the idle thread only ever executes the code of [idle], of the semaphore
    it ups and of timer interrupts. *)

From stdpp Require Import functions.
From stdpp Require Import base tactics list numbers option sorting sets.
From Stdlib Require Import ZArith Lia.
From S2P Require Import Prelude LinkedList ListOps FixedPoint KState Thread Synch Machine KernelInv KernelOps.

Local Open Scope Z_scope.

(** [pushes P m]: [m] leaves the running thread, and pushes frames in [P]. *)
Record grown (P : frame → Prop) (t : tp) (s s' : kstate) : Prop := {
  g_other u : u ≠ t → stack (threads s' u) = stack (threads s u);
  g_top : ∃ fs, stack (threads s' t) = fs ++ stack (threads s t) ∧ Forall P fs;
  g_idle : idle_thread (cpu s') = idle_thread (cpu s)
}.

Definition pushes {A} (P : frame → Prop) (m : K A) : Prop := ∀ s a s',
  m s = Ret (a, s') → current (cpu s') = current (cpu s) ∧ grown P (current (cpu s)) s s'.

(** The same for code that ends in a switch. *)
Definition ends {A} (P : frame → Prop) (m : K A) : Prop := ∀ s a s',
  m s = Ret (a, s') → grown P (current (cpu s)) s s'.

Lemma grown_refl P t s : grown P t s s.
Proof. split; [done| |done]. by exists []. Qed.

Lemma grown_trans P t s1 s2 s3 : grown P t s1 s2 → grown P t s2 s3 → grown P t s1 s3.
Proof.
  intros [Ho1 (fs1 & H1 & HP1) Hi1] [Ho2 (fs2 & H2 & HP2) Hi2]. split; [|..|congruence].
  - intros u Hu. by rewrite Ho2, Ho1.
  - exists (fs2 ++ fs1). rewrite H2, H1, app_assoc. split; [done|]. by apply Forall_app.
Qed.

Section pushes.
Context (P : frame → Prop).

Lemma pushes_bind {A B} (m : K A) (f : A → K B) :
  pushes P m → (∀ a, pushes P (f a)) → pushes P (m ≫= f).
Proof.
  intros Hm Hf s b s' (a & s1 & [Hc H1]%Hm & [Hc' H2]%Hf)%st_bind_inv. split; [congruence|].
  rewrite Hc in H2. by eapply grown_trans.
Qed.
Lemma ends_bind {A B} (m : K A) (f : A → K B) :
  pushes P m → (∀ a, ends P (f a)) → ends P (m ≫= f).
Proof.
  intros Hm Hf s b s' (a & s1 & [Hc H1]%Hm & H2%Hf)%st_bind_inv.
  rewrite Hc in H2. by eapply grown_trans.
Qed.
Lemma ends_pushes {A} (m : K A) : pushes P m → ends P m.
Proof. by intros Hm s a s' [_ H]%Hm. Qed.

Lemma pushes_ret {A} (a : A) : pushes P (mret a).
Proof. intros s ? ? [= <- <-]. auto using grown_refl. Qed.
Lemma pushes_gets {A} (f : kstate → A) : pushes P (gets f).
Proof. intros s ? ? [= <- <-]. auto using grown_refl. Qed.
Lemma pushes_getS : pushes P getS.
Proof. intros s ? ? [= <- <-]. auto using grown_refl. Qed.
Lemma pushes_assert b : pushes P (assertS b).
Proof. intros s ? ? [_ ->]%assertS_inv. auto using grown_refl. Qed.
Lemma pushes_panic {A} : pushes P (panicS (A := A)).
Proof. done. Qed.
Lemma pushes_deref {A} (o : option A) : pushes P (deref o).
Proof. destruct o; [apply pushes_ret|apply pushes_panic]. Qed.
Lemma pushes_upd t f : (∀ r, stack (f r) = stack r) → pushes P (upd t f).
Proof.
  intros Hf s ? ? [= <- <-]. split; [done|]. split; [| |done].
  - intros u _. cbn. fn_case u t; [apply Hf|done].
  - exists []. cbn. fn_case (current (cpu s)) t; [by rewrite Hf|done].
Qed.
Lemma pushes_cpu f :
  (∀ c, current (f c) = current c ∧ idle_thread (f c) = idle_thread c) → pushes P (cpu_do f).
Proof.
  intros Hf s ? ? [= <- <-]. split; [apply Hf|]. split; [done|by exists []|apply Hf].
Qed.
Lemma pushes_modify f :
  (∀ s, threads (f s) = threads s ∧ cpu (f s) = cpu s) → pushes P (modifyS f).
Proof.
  intros Hf s ? ? [= <- <-]. destruct (Hf s) as [Ht Hc]. split; [by rewrite Hc|].
  split; [by rewrite Ht|rewrite Ht; by exists []|by rewrite Hc].
Qed.
Lemma pushes_push fs : Forall P fs → pushes P (push fs).
Proof.
  intros HP s u s' H%push_run. subst s'. split; [done|]. split; [| |done].
  - intros x Hx. by rewrite upd_thread_ne.
  - exists fs. by rewrite upd_thread_eq.
Qed.
Lemma pushes_if {A} (b : bool) (m1 m2 : K A) : pushes P m1 → pushes P m2 → pushes P (if b then m1 else m2).
Proof. by destruct b. Qed.
Lemma ends_if {A} (b : bool) (m1 m2 : K A) : ends P m1 → ends P m2 → ends P (if b then m1 else m2).
Proof. by destruct b. Qed.
End pushes.

Create HintDb pushes.
#[export] Hint Resolve pushes_ret pushes_gets pushes_getS pushes_assert pushes_panic pushes_deref pushes_push : pushes.
#[export] Hint Extern 1 (pushes _ (_ ≫= _)) => apply pushes_bind; [|intros ?] : pushes.
#[export] Hint Extern 1 (ends _ (_ ≫= _)) => apply ends_bind; [|intros ?] : pushes.
#[export] Hint Extern 1 (pushes _ (if _ then _ else _)) => apply pushes_if : pushes.
#[export] Hint Extern 1 (ends _ (if _ then _ else _)) => apply ends_if : pushes.
#[export] Hint Extern 1 (pushes _ (modifyS _)) => apply pushes_modify; done : pushes.
#[export] Hint Extern 1 (pushes _ (cpu_do _)) => apply pushes_cpu; done : pushes.
#[export] Hint Extern 1 (pushes _ (upd _ _)) => apply pushes_upd; done : pushes.
#[export] Hint Extern 1 (pushes _ (get _ _)) => apply pushes_gets : pushes.
#[export] Hint Extern 2 (pushes _ (match ?x with _ => _ end)) => destruct x : pushes.
#[export] Hint Extern 9 (ends _ _) => apply ends_pushes : pushes.
#[export] Hint Extern 1 (Forall _ _) => repeat (constructor; [solve [exact I|auto]|]); constructor : pushes.
Ltac psh := intros; auto 60 with pushes.

Section ops.
Context (P : frame → Prop).

Lemma pushes_intr_disable : pushes P intr_disable.
Proof. unfold intr_disable, intr_get_level. psh. Qed.
Lemma pushes_intr_set_level on : pushes P (intr_set_level on).
Proof. unfold intr_set_level, intr_enable, intr_disable, intr_get_level, intr_context. psh. Qed.
Lemma pushes_intr_yield : pushes P intr_yield_on_return.
Proof. unfold intr_yield_on_return, intr_context. psh. Qed.
Lemma pushes_thread_current : pushes P thread_current.
Proof. unfold thread_current, running_thread, is_thread. psh. Qed.
Lemma pushes_insert_ordered l t : pushes P (list_insert_ordered l t).
Proof. unfold list_insert_ordered, set_list. psh. Qed.
Lemma pushes_top_pri l : pushes P (thread_list_top_pri l).
Proof. unfold thread_list_top_pri. psh. Qed.
#[local] Hint Resolve pushes_intr_disable pushes_intr_set_level pushes_intr_yield pushes_thread_current
  pushes_insert_ordered pushes_top_pri : pushes.
Lemma pushes_update_elem l t : pushes P (list_update_elem l t).
Proof. unfold list_update_elem, set_list, note_remove. psh. Qed.
Lemma pushes_get_priority : pushes P thread_get_priority.
Proof. unfold thread_get_priority. psh. Qed.
#[local] Hint Resolve pushes_update_elem pushes_get_priority : pushes.

(** [schedule] changes the running thread, and no stack. *)
Lemma tail_stacks prev s u s' :
  thread_schedule_tail prev s = Ret (u, s') →
  (∀ t, stack (threads s' t) = stack (threads s t)) ∧ idle_thread (cpu s') = idle_thread (cpu s).
Proof.
  unfold thread_schedule_tail, running_thread, intr_get_level, upd, cpu_do. intros H. st_run H.
  destruct prev as [p|]; [st_run H; destruct (_ && _)|]; st_run H; (split; [|done]); intros t; cbn;
    repeat match goal with |- context [<[?y := _]> _ ?x] => fn_case x y; cbn end; done.
Qed.

Lemma ends_schedule : ends P schedule.
Proof.
  intros s u s' H. unfold schedule, running_thread, get, cpu_do in H.
  apply st_bind_inv in H as (? & ? & Hr & H). st_run Hr.
  apply st_bind_inv in H as (next & s1 & Hn & H).
  assert ((∀ t, stack (threads s1 t) = stack (threads s t)) ∧ idle_thread (cpu s1) = idle_thread (cpu s)) as [Hs1 Hi1].
  { destruct (next_thread_run _ _ _ Hn) as [[-> ->]|(n & -> & [|n' rest Hl])]; [done..|].
    split; [|done]. intros t. cbn. by fn_case t n'. }
  unfold intr_get_level in H. apply st_bind_inv in H as (? & ? & Hr & H). st_run Hr.
  apply st_bind_inv in H as (? & ? & Hr & H). st_run Hr.
  apply st_bind_inv in H as (? & s2 & Hr & H).
  assert (s2 = s1) as -> by (unfold is_thread, get in Hr; destruct next; by st_run Hr).
  destruct next as [n|]; [|done].
  assert ((∀ t, stack (threads s' t) = stack (threads s1 t)) ∧ idle_thread (cpu s') = idle_thread (cpu s1)) as [Hs2 Hi2].
  { case_bool_decide; [|by eapply tail_stacks]. st_run H. apply tail_stacks in H as [Ht Hi]. by split. }
  split; [|exists []|congruence]; intros; rewrite Hs2, Hs1; done.
Qed.
#[local] Hint Resolve ends_schedule : pushes.

Lemma ends_block : ends P thread_block.
Proof. unfold thread_block, intr_context, intr_get_level. psh. Qed.
Lemma ends_yield : (∀ on, P (F_intr_set_level on)) → ends P thread_yield.
Proof. intros HP. unfold thread_yield, intr_context. psh. Qed.
Lemma pushes_unblock t : P F_yield → (∀ on, P (F_intr_set_level on)) → pushes P (thread_unblock t).
Proof. intros HP HP'. unfold thread_unblock, is_thread. psh. Qed.
Lemma pushes_update_timers : pushes P thread_update_timers.
Proof.
  assert (∀ ts, pushes P (update_timers_loop ts)) by (induction ts; cbn; unfold timer_elapsed; psh).
  unfold thread_update_timers. psh.
Qed.
Lemma pushes_calculate_priority t :
  P F_yield → (∀ on, P (F_intr_set_level on)) → pushes P (thread_calculate_priority t).
Proof. intros HP HP'. unfold thread_calculate_priority, intr_context. psh. Qed.
#[local] Hint Resolve pushes_update_timers pushes_calculate_priority : pushes.

Lemma pushes_thread_tick m :
  P F_yield → (∀ on, P (F_intr_set_level on)) → pushes P (thread_tick m).
Proof.
  intros HP HP'.
  assert (∀ f, (∀ t, pushes P (f t)) → pushes P (thread_foreach f)) as Hfe.
  { intros f Hf. assert (∀ ts, pushes P (foreach_loop f ts)) by (induction ts; cbn; psh).
    unfold thread_foreach, intr_get_level. psh. }
  assert (pushes P (thread_foreach thread_calculate_recent_cpu))
    by (apply Hfe; unfold thread_calculate_recent_cpu; psh).
  assert (pushes P (thread_foreach thread_update_priorities))
    by (apply Hfe; unfold thread_update_priorities; psh).
  assert (pushes P thread_calculate_load_avg) by (unfold thread_calculate_load_avg; psh).
  unfold thread_tick, count_tick, mlfqs_tick. psh.
Qed.

Lemma pushes_intr_handler m :
  P F_yield → P F_iret → (∀ on, P (F_intr_set_level on)) → pushes P (intr_handler m).
Proof.
  intros HP HP' HP''. pose proof (pushes_thread_tick m HP HP'').
  unfold intr_handler, timer_interrupt, intr_get_level, intr_context. psh.
Qed.

Lemma pushes_sema_up q :
  P (F_sema_up_pop q) → (∀ on, P (F_intr_set_level on)) → pushes P (sema_up q).
Proof. intros HP HP'. unfold sema_up, set_value. psh. Qed.
Lemma pushes_sema_up_pop q : (∀ t, P (F_unblock t)) → pushes P (sema_up_pop q).
Proof. intros HP. unfold sema_up_pop, set_list. psh. Qed.
End ops.

(** ** Every frame and every call *)

(** [idle] is called by [kernel_thread] only. *)
Definition not_idle (f : frame) : Prop := match f with F_idle => False | _ => True end.

(** Frames other than those of [idle] and [thread_create]. *)
Definition plain (f : frame) : Prop := match f with F_idle | F_create _ _ => False | _ => True end.

Lemma plain_not_idle f : plain f → not_idle f.
Proof. by destruct f. Qed.

Lemma grown_weaken (P Q : frame → Prop) t s s' : (∀ f, P f → Q f) → grown P t s s' → grown Q t s s'.
Proof.
  intros HPQ [Ho (fs & Ht & Hfs) Hi]. split; [done| |done]. exists fs. split; [done|].
  by eapply Forall_impl.
Qed.

Section all.
Context (thread_mlfqs : bool) (stack_word : kstate → tp → Z).

#[local] Hint Resolve pushes_intr_disable pushes_intr_set_level pushes_intr_yield pushes_thread_current
  pushes_insert_ordered pushes_top_pri pushes_update_elem pushes_get_priority pushes_update_timers
  ends_schedule ends_block : pushes.

Lemma pushes_try_down q : pushes plain (sema_try_down q).
Proof. unfold sema_try_down, set_value. psh. Qed.
Lemma pushes_held l : pushes plain (lock_held_by_current_thread l).
Proof. unfold lock_held_by_current_thread. psh. Qed.
Lemma pushes_give l t : pushes plain (give_lock l t).
Proof. unfold give_lock, set_holder. psh. Qed.
#[local] Hint Resolve pushes_try_down pushes_held pushes_give : pushes.
Lemma pushes_try_acquire l : pushes plain (lock_try_acquire l).
Proof. unfold lock_try_acquire. psh. Qed.
Lemma pushes_donate l p : pushes plain (lock_donate l p).
Proof.
  assert (∀ n o, pushes plain (lock_donate_loop n o p)) by (induction n; cbn; psh).
  unfold lock_donate. psh.
Qed.
#[local] Hint Resolve pushes_try_acquire pushes_donate : pushes.

(** Frames whose code can switch threads. *)
Definition switches (f : frame) : bool :=
  match f with
  | F_idle_loop | F_yield | F_sema_down _ | F_sema_down_loop _ _ => true
  | _ => false
  end.

Lemma stack_exec_frame f :
  match f with
  | F_create _ _ | F_idle => True
  | _ => if switches f then ends plain (exec_frame thread_mlfqs stack_word f)
         else pushes plain (exec_frame thread_mlfqs stack_word f)
  end.
Proof.
  destruct f; try done; unfold exec_frame, switches.
  - psh.
  - unfold iret. psh.
  - unfold kernel_thread, intr_enable, intr_context, intr_get_level. psh.
  - unfold idle_loop. psh.
  - unfold idle_resume. psh.
  - unfold intr_enable, intr_context, intr_get_level. psh.
  - by apply ends_yield.
  - by apply pushes_unblock.
  - unfold sema_down, sema_down_loop, intr_context, set_value. psh.
  - unfold sema_down_loop, set_value. psh.
  - by apply pushes_sema_up.
  - by apply pushes_sema_up_pop.
  - unfold lock_acquire, intr_context. psh.
  - unfold lock_acquire_give, running_thread. psh.
  - unfold lock_release, next_potential_donation, set_holder, note_remove. psh.
  - unfold cond_wait, running_thread, sema_init, set_value, set_list, set_cond, intr_context. psh.
  - unfold cond_signal, cond_sort_priority, set_cond, intr_context. psh.
  - unfold cond_broadcast. psh.
  - unfold exclusive_loop, set_slock_i. psh.
  - unfold shared_loop, set_slock_i. psh.
  - unfold release_shared, set_slock_i. psh.
  - unfold release_exclusive, set_slock_i. psh.
  - unfold allocate_tid. psh.
Qed.

Lemma ends_exec_frame f :
  match f with F_create _ _ | F_idle => True | _ => ends plain (exec_frame thread_mlfqs stack_word f) end.
Proof. pose proof (stack_exec_frame f) as H. destruct f; try done; by apply ends_pushes. Qed.

Lemma stack_exec_call c :
  match c with
  | CreateThread _ _ => True
  | TimerSleep _ | ThreadExit => ends plain (exec_call thread_mlfqs c)
  | _ => pushes plain (exec_call thread_mlfqs c)
  end.
Proof.
  destruct c; try done; unfold exec_call, lock_acquire_exclusive, lock_acquire_shared,
    lock_release_shared, lock_release_exclusive; psh.
  - unfold timer_sleep, thread_sleep, intr_get_level. psh.
  - unfold thread_set_priority. psh.
  - unfold thread_set_nice. apply pushes_bind; [psh|intros]. apply pushes_bind; [psh|intros].
    apply pushes_bind; [psh|intros]. by apply pushes_calculate_priority.
  - unfold thread_exit, intr_context. psh.
Qed.

Lemma ends_exec_call c :
  match c with CreateThread _ _ => True | _ => ends plain (exec_call thread_mlfqs c) end.
Proof. pose proof (stack_exec_call c) as H. destruct c; try done; by apply ends_pushes. Qed.
End all.
