(* ===== verification/KernelReach.v ===== *)
(** * Reachable states of the kernel

    The remaining operations keep the scheduler's invariant, so that it holds
    in every state the machine can reach from [boot], whatever calls the
    threads make and whenever the timer interrupts. *)

From stdpp Require Import functions.
From stdpp Require Import base tactics list numbers option sorting sets.
From Stdlib Require Import ZArith Lia.
From S2P Require Import Prelude LinkedList ListOps FixedPoint KState Thread Synch Machine.
From S2P Require Import KernelInv KernelPass KernelOps KernelStacks.

Local Open Scope Z_scope.

(** ** Semaphores and locks *)

(** The running thread goes on, or another one is chosen. *)
Definition moved (s s' : kstate) : Prop :=
  inv s' ∧ (current (cpu s') = current (cpu s) ∨ highest s').

Lemma sema_down_loop_ok q old s u s' :
  inv s → Some (current (cpu s)) ≠ idle_thread (cpu s) → sema_down_loop q old s = Ret (u, s') → moved s s'.
Proof.
  intros Hi Hid H. unfold sema_down_loop in H.
  apply st_bind_inv in H as (? & ? & H1 & H). st_run H1.
  destruct (_ =? _).
  2: { assert (core_eq s s') as Hc.
       { eapply (keeps_bind (set_value _ _) (λ _, intr_set_level old;; mret tt)); [| |exact H]; keep. }
       split; [by eapply inv_core|left; by apply ce_current]. }
  apply st_bind_inv in H as (? & ? & [-> ->]%thread_current_run & H).
  apply st_bind_inv in H as (? & s1 & H1 & H). apply st_bind_inv in H as (? & s2 & H2 & H).
  unfold list_insert_ordered, set_list, upd in H1, H2. st_run H1. st_run H2.
  apply st_bind_inv in H as (? & s3 & ->%push_run & H).
  assert (inv s' ∧ highest s') as [? ?]; [|split; auto].
  eapply thread_block_ok; [|exact H]. pose proof Hi as [Hb ???].
  eapply base_core; [|apply (base_enqueue (Waiters q) (current (cpu s)) s); try done].
  - constructor; try done; intros; cbn; repeat (match goal with
      |- context [<[?y := _]> _ ?x] => fn_case x y; cbn end); try done.
    symmetry. apply filter_ne. by apply current_not_sleeping.
  - intros l. by apply current_not_listed.
  - by apply current_not_pending.
Qed.

Lemma sema_down_ok q s u s' :
  inv s → Some (current (cpu s)) ≠ idle_thread (cpu s) → sema_down q s = Ret (u, s') → moved s s'.
Proof.
  intros Hi Hid H. unfold sema_down, intr_context in H.
  apply st_bind_inv in H as (? & ? & H1 & H). st_run H1.
  apply st_bind_inv in H as (old & s1 & [-> ->]%intr_disable_run & H).
  set (s1 := with_cpu _ s) in H. change (current (cpu s)) with (current (cpu s1)).
  eapply sema_down_loop_ok in H; [done| |done]. eapply inv_core; [|exact Hi]. by constructor.
Qed.

Lemma inv_stack fs s :
  inv s → NoDup (pend_of fs) →
  (∀ x, x ∈ pend_of fs →
     x ∈ pend_of (stack (threads s (current (cpu s)))) ∨
     (x ∉ pend s) ∧ status (threads s x) = THREAD_BLOCKED ∧ (x ∉ sleeping_list s) ∧
     (∀ l, x ∉ lists s l) ∧ x ∈ all_list s ∧ Some x ≠ idle_thread (cpu s)) →
  inv (upd_thread (current (cpu s)) (set_stack fs) s).
Proof.
  intros [Hb Hs Hpl Ha] Hnd Hnew. split; [by apply base_stack|..|done].
  - by rewrite (upd_thread_keeps status).
  - by rewrite (upd_thread_keeps thread_pl).
Qed.

(** A new thread in transit is pushed with the code that will unblock it. *)
Lemma inv_push_pending fs t s :
  inv s → pend_of fs = [t] → (t ∉ pend s) → status (threads s t) = THREAD_BLOCKED → (t ∉ sleeping_list s) →
  (∀ l, t ∉ lists s l) → t ∈ all_list s → Some t ≠ idle_thread (cpu s) →
  inv (upd_thread (current (cpu s)) (λ r, set_stack (fs ++ stack r) r) s).
Proof.
  intros Hi Hm Hp Hst Hsl Hl Ha Hid. set (c := current (cpu s)).
  assert (pend_of (fs ++ stack (threads s c)) = t :: pend_of (stack (threads s c))) as Hpo.
  { unfold pend_of in *. by rewrite omap_app, Hm. }
  pose proof Hi as [Hb _ _ Hc].
  destruct (join_split (λ u, pend_of (stack (threads s u))) (λ u, pend_of (stack (threads s u)))
    (all_list s) c) as (r & Hr & _); [apply Hb|done..|]. change (mjoin _) with (pend s) in Hr.
  apply (inv_stack (fs ++ stack (threads s c)) s); [done|..]; rewrite Hpo.
  - constructor.
    + intros Hin. apply Hp. rewrite Hr. apply elem_of_app. by left.
    + pose proof (b_pend _ Hb) as Hnd. rewrite Hr in Hnd. by apply NoDup_app in Hnd as [? _].
  - intros x [-> |Hx]%elem_of_cons; [by right|by left].
Qed.

Lemma preserves_sema_up_pop q : preserves (sema_up_pop q).
Proof.
  apply preserves_intro; [apply steps_sema_up_pop, fresher_allows|]. intros s u s' Hi H _. unfold sema_up_pop, set_list in H.
  apply st_bind_inv in H as (? & ? & H1 & H). st_run H1.
  destruct (lists s (Waiters q)) as [|t rest] eqn:Hl; [done|].
  apply st_bind_inv in H as (? & ? & H1 & H). st_run H1. apply push_run in H. subst s'.
  set (s1 := with_lists _ s). pose proof Hi as [Hb Hs Hpl Ha].
  destruct (b_in _ Hb (Waiters q) t) as (?&?&?&?&?); [rewrite Hl; set_solver|].
  assert (inv s1) as Hi1.
  { split; [|done..]. apply (base_sublist (Waiters q) rest s Hb). rewrite Hl. by constructor. }
  apply (inv_push_pending [F_unblock t] t s1); try done.
  - intros (_&_&Hn&_)%(b_pending _ Hb). apply (Hn (Waiters q)). rewrite Hl. set_solver.
  - intros l. unfold s1. cbn. fn_case l (Waiters q).
    + pose proof (b_lists _ Hb (Waiters q)) as Hnd. rewrite Hl in Hnd. by apply NoDup_cons in Hnd as [? _].
    + intros Hn%(b_in _ Hb). naive_solver.
Qed.

Lemma preserves_donate_loop p n o : preserves (lock_donate_loop n o p).
Proof.
  apply preserves_intro; [apply fresher_donate_loop|].
  revert o. induction n as [|n IH]; intros o s u s' Hi H Hst; cbn [lock_donate_loop] in H; [by st_run H|].
  destruct o as [t|]; [|by st_run H]. unfold get, upd in H.
  apply st_bind_inv in H as (? & ? & H1 & H). st_run H1.
  destruct (_ <=? _); [by st_run H|].
  apply st_bind_inv in H as (? & ? & H1 & H). st_run H1.
  apply st_bind_inv in H as (? & ? & H1 & H). st_run H1.
  set (s1 := with_threads _ _) in H.
  apply st_bind_inv in H as (? & s2 & H1 & H). apply st_bind_inv in H as (? & ? & H2 & H). st_run H2.
  pose proof (fresher_donate_loop _ _ _ _ _ _ H Hst) as Hst2.
  eapply IH; [|exact H|done]. destruct (thread_pl (threads s1 t)) as [l|] eqn:Hl; [|done].
  apply (update_elem_run l t p s) in H1 as [Ht Hc']; [eapply inv_core; [exact Hc'|by apply reprioritize_inv]| |done].
  constructor; try done; intros x'; cbn; by fn_case x' t.
Qed.

Lemma preserves_donate l p : preserves (lock_donate l p).
Proof. pose proof (preserves_donate_loop p). unfold lock_donate. pres. Qed.
#[export] Hint Resolve preserves_sema_up_pop preserves_donate : preserves.

Lemma preserves_lock_acquire m l : preserves (lock_acquire m l).
Proof. unfold lock_acquire. pres. Qed.

(** Clearing the waiters of a semaphore. *)
Lemma sema_init_inv q v s u s' : inv s → sema_init q v s = Ret (u, s') → inv s'.
Proof.
  intros [Hb ???] H. unfold sema_init, set_value, set_list in H. st_run H. split; [|done..].
  eapply (base_core (with_lists (<[Waiters q := []]> (lists s)) s)); [by constructor|].
  apply base_sublist; [done|]. apply sublist_nil_l.
Qed.
Lemma preserves_sema_init q v : preserves (sema_init q v).
Proof.
  apply preserves_intro; [pose proof fresher_allows; unfold sema_init, set_value, set_list; stp|].
  intros. by eapply sema_init_inv.
Qed.
#[export] Hint Resolve preserves_lock_acquire preserves_sema_init : preserves.

Lemma preserves_cond_wait w c l : preserves (cond_wait w c l).
Proof. unfold cond_wait. pres. Qed.

(** Code that updates the running thread [c]. *)
Definition on_current {A} (c : tp) (m : K A) : Prop := ∀ s a s',
  current (cpu s) = c → inv s → m s = Ret (a, s') → current (cpu s') = c ∧ inv s'.

Lemma on_current_bind {A B} c (m : K A) (f : A → K B) :
  on_current c m → (∀ a, on_current c (f a)) → on_current c (m ≫= f).
Proof.
  intros Hm Hf s b s' Hc Hi (a & s1 & H1 & H2)%st_bind_inv.
  destruct (Hm _ _ _ Hc Hi H1). by eapply Hf.
Qed.
Lemma on_current_if {A} c (b : bool) (m1 m2 : K A) :
  on_current c m1 → on_current c m2 → on_current c (if b then m1 else m2).
Proof. by destruct b. Qed.
Lemma on_current_keeps {A} c (m : K A) : keeps m → on_current c m.
Proof.
  intros Hk s a s' <- Hi H%Hk. split; [by apply ce_current|]. by eapply inv_core.
Qed.
Lemma on_current_upd c f :
  (∀ r, magic (f r) = magic r ∧ status (f r) = status r ∧ thread_pl (f r) = thread_pl r ∧
        stack (f r) = stack r) → on_current c (upd c f).
Proof. intros Hf s a s' <- Hi H. unfold upd in H. st_run H. split; [done|]. by apply preserves_upd_current. Qed.
Lemma inv_note b s : inv s → inv (with_stale b s).
Proof. intros [[] ???]. split; [|done..]. by constructor. Qed.
Lemma on_current_note c b : on_current c (note_remove b).
Proof. intros s a s' <- Hi H. unfold note_remove in H. st_run H. split; [done|]. by apply inv_note. Qed.

Create HintDb on_current.
#[export] Hint Extern 1 (on_current _ (_ ≫= _)) => apply on_current_bind; [|intros ?] : on_current.
#[export] Hint Extern 1 (on_current _ (if _ then _ else _)) => apply on_current_if : on_current.
#[export] Hint Extern 1 (on_current _ (upd _ _)) => apply on_current_upd; done : on_current.
#[export] Hint Resolve on_current_note : on_current.
#[export] Hint Extern 5 (on_current _ _) => apply on_current_keeps; solve [auto 60 with keeps] : on_current.
#[export] Hint Extern 2 (on_current _ (match ?x with _ => _ end)) => destruct x : on_current.

Lemma preserves_lock_release m l : preserves (lock_release m l).
Proof.
  assert (∀ t, keeps (next_potential_donation t)) as Hk by (unfold next_potential_donation; keep).
  apply preserves_intro; [apply fresher_release|]. intros s u s' Hi H _. unfold lock_release in H.
  apply st_bind_inv in H as (? & s1 & H1 & H). apply st_bind_inv in H as (old & s2 & H2 & H).
  assert (inv s2) as Hi2.
  { eapply (keeps_run _ _ _ _ keeps_intr_disable); [|exact H2].
    eapply (keeps_run (_ ≫= _)); [|exact Hi|exact H1]. keep. }
  clear Hi H1 H2. apply st_bind_inv in H as (? & ? & [-> ->]%thread_current_run & H).
  match type of H with ?m' _ = _ => assert (on_current (current (cpu s2)) m') as Ho end.
  { auto 60 with on_current. }
  by eapply Ho.
Qed.

(** ** New threads and the idle thread *)

Lemma thread_create_inv m page p idle s u s' :
  inv s → (∀ t, page = Some t → t ∉ all_list s) →
  thread_create m page p idle s = Ret (u, s') → inv s'.
Proof.
  intros Hi Hf H. destruct page as [t|]; [|by cbn in H; st_run H]. specialize (Hf t eq_refl).
  unfold thread_create, init_thread, upd in H.
  apply st_bind_inv in H as (? & s1 & H1 & H). apply push_run in H. subst s'.
  apply st_bind_inv in H1 as (? & ? & H2 & H1). st_run H2.
  apply st_bind_inv in H1 as (old & ? & [-> ->]%intr_disable_run & H1).
  apply st_bind_inv in H1 as (? & ? & H2 & H1). st_run H2.
  apply st_bind_inv in H1 as (? & ? & H2 & H1). st_run H2.
  apply (keeps_bind _ _ (keeps_intr_set_level _) (λ _, keeps_ret tt)) in H1.
  set (p' := if m then PRI_DEFAULT else p) in *.
  assert (core_eq (add_thread t p' s) s1) as Hc by (etrans; [|exact H1]; by constructor).
  pose proof Hi as [Hb Hst Hpl Ha].
  assert (current (cpu s) ≠ t) as Hne by congruence.
  assert (inv (add_thread t p' s)) as Hi1.
  { split; [by apply base_add_thread|..].
    - cbn. by rewrite fn_lookup_insert_ne by done.
    - cbn. by rewrite fn_lookup_insert_ne by done.
    - cbn. set_solver. }
  assert (pend s1 = pend s) as Hpe.
  { rewrite (pend_ext _ _ (ce_all _ _ Hc) (ce_pend _ _ Hc)). by apply pend_add_thread. }
  apply (inv_core _ _ Hc) in Hi1. destruct Hc. apply (inv_push_pending _ t s1); try done.
  - rewrite Hpe. intros (?&?&?&?&?)%(b_pending _ Hb). done.
  - rewrite ce_status. cbn. by rewrite fn_lookup_insert.
  - rewrite ce_sleeping. intros (?&?&?&?)%(b_sleeper _ Hb). done.
  - intros l. rewrite ce_lists. intros (?&?&?&?)%(b_in _ Hb). done.
  - rewrite ce_all. cbn. set_solver.
  - rewrite ce_idle. intros Hj%eq_sym. by destruct (b_idle _ Hb t Hj).
Qed.

(** [create_frames], once the frame is popped. *)
Lemma create_frames_inv t idle s u s' :
  inv s → t ∈ all_list s → status (threads s t) = THREAD_BLOCKED → (∀ l, t ∉ lists s l) →
  (t ∉ sleeping_list s) → (t ∉ pend s) → Some t ≠ idle_thread (cpu s) →
  create_frames t idle s = Ret (u, s') → inv s'.
Proof.
  intros Hi Ha Hst Hl Hs Hp Hid H. unfold create_frames, upd in H.
  apply st_bind_inv in H as (? & s1 & H1 & H). st_run H1. apply push_run in H. subst s'.
  set (fs := F_kernel_thread :: _). change (with_threads _ s) with (upd_thread t (set_stack fs) s).
  assert (pend_of fs = []) as Hfs by by destruct idle.
  pose proof Hi as [Hb Hcs Hcp Hca]. assert (current (cpu s) ≠ t) by congruence.
  set (s1 := upd_thread t (set_stack fs) s).
  assert (inv s1) as Hi1.
  { split; [apply base_stack; try done; rewrite Hfs; [constructor|set_solver]|..|done];
      unfold s1; rewrite upd_thread_ne; done. }
  apply (inv_push_pending [F_unblock t] t s1); try done.
  - intros Hin. apply Hp. revert Hin.
    destruct (join_split (λ u, pend_of (stack (threads s u))) (λ u, pend_of (stack (threads s1 u)))
      (all_list s) t) as (r & Hr & Hr1); [apply Hb|done|intros; unfold s1; by rewrite upd_thread_ne|].
    change (mjoin _) with (pend s) in Hr. change (mjoin (_ <$> all_list s)) with (pend s1) in Hr1.
    unfold s1 in Hr1 at 2. rewrite upd_thread_eq in Hr1. cbn [stack set_stack] in Hr1.
    rewrite Hr, Hr1, Hfs, app_nil_l, elem_of_app. by right.
  - unfold s1. by rewrite upd_thread_eq.
Qed.

Lemma idle_inv s u s' : inv s → idle s = Ret (u, s') → inv s'.
Proof.
  intros Hi H. unfold idle, cpu_do in H.
  apply st_bind_inv in H as (? & ? & [-> ->]%thread_current_run & H).
  apply st_bind_inv in H as (? & ? & H1 & H). st_run H1.
  eapply (keeps_run (push _)); [| |exact H]; [keep|].
  pose proof Hi as [[] Hst Hpl Ha]. pose proof (current_not_listed s) as Hl.
  split; [|done..]. constructor; try done; intros *.
  - intros Hx. destruct (b_in l t Hx) as (?&?&?&?&?). split_and!; try done.
    intros [= ->]. by apply (Hl l).
  - intros Hx. destruct (b_sleeper t Hx) as (?&?&?&?). split_and!; try done.
    intros [= ->]. by apply (current_not_sleeping s).
  - intros Hx. destruct (b_pending t Hx) as (?&?&?&?&?). split_and!; try done.
    intros [= ->]. by apply (current_not_pending s).
  - by intros [= <-].
Qed.

Lemma idle_loop_ok s u s' : inv s → idle_loop s = Ret (u, s') → inv s' ∧ highest s'.
Proof.
  intros Hi H. unfold idle_loop in H.
  apply st_bind_inv in H as (? & s1 & H1 & H). apply st_bind_inv in H as (? & s2 & H2 & H).
  assert (inv s2) as Hi2.
  { eapply (keeps_run (push _)); [| |exact H2]; [keep|].
    by eapply (keeps_run _ _ _ _ keeps_intr_disable). }
  eapply thread_block_ok; [|exact H]. destruct Hi2 as [Hb ???] eqn:E. apply base_status; try done.
  - intros l. by apply current_not_listed.
  - by apply current_not_sleeping.
  - by apply current_not_pending.
Qed.

(** ** The stack of the idle thread *)

(** The code the idle thread executes. *)
Definition idle_frame (f : frame) : Prop :=
  match f with
  | F_intr_set_level _ | F_iret | F_idle_loop | F_idle_resume | F_yield
  | F_unblock _ | F_sema_up _ | F_sema_up_pop _ => True
  | _ => False
  end.

Definition idle_stack (fs : list frame) : Prop :=
  Forall idle_frame fs ∧ (last fs = Some F_idle_loop ∨ last fs = Some F_idle_resume).

(** A call of [idle] is the outermost one. *)
Fixpoint idle_last (fs : list frame) : Prop :=
  match fs with
  | [] => True
  | F_idle :: r => r = []
  | _ :: r => idle_last r
  end.

Definition stacks_ok (s : kstate) : Prop :=
  (∀ t, idle_last (stack (threads s t))) ∧
  (∀ i, idle_thread (cpu s) = Some i → idle_stack (stack (threads s i))).

Lemma idle_last_push gs fs : Forall not_idle gs → idle_last fs → idle_last (gs ++ fs).
Proof. induction 1 as [|f gs Hf]; intros; [done|]. destruct f; cbn; auto. done. Qed.

Lemma idle_last_pop f fs : idle_last (f :: fs) → idle_last fs.
Proof. destruct f; cbn; try done. by intros ->. Qed.

Lemma idle_stack_push gs fs : Forall idle_frame gs → idle_stack fs → idle_stack (gs ++ fs).
Proof.
  intros Hg [Hf Hl]. split; [by apply Forall_app|]. rewrite last_app. by destruct Hl as [-> | ->]; [left|right].
Qed.

(** Code that pushes on the stack of the running thread. *)
Lemma stacks_ok_grown s s' c :
  grown not_idle c s s' → (∀ t, idle_last (stack (threads s t))) →
  (∀ i, idle_thread (cpu s) = Some i → i ≠ c → idle_stack (stack (threads s i))) →
  (idle_thread (cpu s) = Some c → idle_stack (stack (threads s' c))) → stacks_ok s'.
Proof.
  intros [Ho (fs & Ht & Hfs) Hi] Hl Hid Hc. split.
  - intros t. destruct (decide (t = c)) as [->|]; [rewrite Ht; by apply idle_last_push|by rewrite Ho].
  - intros i. rewrite Hi. intros Hj. destruct (decide (i = c)) as [->|]; [auto|rewrite Ho by done; auto].
Qed.

Section reach.
Context (thread_mlfqs : bool) (stack_word : kstate → tp → Z).

Lemma idle_pushes f :
  idle_frame f → ends idle_frame (exec_frame thread_mlfqs stack_word f).
Proof.
  destruct f; try done; intros _; unfold exec_frame.
  - apply ends_pushes, pushes_bind; [apply pushes_intr_set_level|intros; apply pushes_ret].
  - unfold iret. psh.
  - pose proof (pushes_intr_disable idle_frame). pose proof (ends_block idle_frame). unfold idle_loop. psh.
  - unfold idle_resume. psh.
  - by apply ends_yield.
  - by apply ends_pushes, pushes_unblock.
  - by apply ends_pushes, pushes_sema_up.
  - by apply ends_pushes, pushes_sema_up_pop.
Qed.

(** The loop of [idle] leaves one of its two frames at the bottom. *)
Lemma idle_loop_stack s u s' :
  idle_loop s = Ret (u, s') →
  stack (threads s' (current (cpu s))) = F_idle_resume :: stack (threads s (current (cpu s))).
Proof.
  unfold idle_loop. intros H. apply st_bind_inv in H as (? & s1 & [-> ->]%intr_disable_run & H).
  apply st_bind_inv in H as (? & ? & ->%push_run & H).
  destruct (ends_block (λ _, False) _ _ _ H) as [_ ([|f fs] & Hs & Hf) _]; [|by inversion Hf].
  cbn in Hs. rewrite Hs. by rewrite fn_lookup_insert.
Qed.

Lemma idle_resume_stack s u s' :
  idle_resume s = Ret (u, s') →
  stack (threads s' (current (cpu s))) = F_idle_loop :: stack (threads s (current (cpu s))).
Proof.
  unfold idle_resume, cpu_do. intros H. apply st_bind_inv in H as (? & ? & H1 & H). st_run H1.
  apply push_run in H. subst s'. cbn. by rewrite fn_lookup_insert.
Qed.

(** The frame of the idle thread that runs leaves its stack in order. *)
Lemma idle_exec_stack f fs s u s' :
  stack (threads s (current (cpu s))) = fs → idle_stack (f :: fs) →
  exec_frame thread_mlfqs stack_word f s = Ret (u, s') →
  idle_stack (stack (threads s' (current (cpu s)))).
Proof.
  intros Hfs [Hf Hl] H. apply Forall_cons in Hf as [Hf Hr].
  destruct (idle_pushes f Hf _ _ _ H) as [_ (gs & Hg & Hgs) _]. rewrite Hg, Hfs.
  destruct fs as [|f' fs]; [|by apply idle_stack_push].
  destruct Hl as [[= ->]|[= ->]]; rewrite <-Hfs, <-Hg.
  - apply idle_loop_stack in H as ->. rewrite Hfs. split; [by repeat constructor|by right].
  - apply idle_resume_stack in H as ->. rewrite Hfs. split; [by repeat constructor|by left].
Qed.

(** The state in which the frame on top of the stack is executed. *)
Definition popped (fs : list frame) (s : kstate) : kstate :=
  upd_thread (current (cpu s)) (set_stack fs) s.

Lemma popped_inv s f fs :
  inv s → stack (threads s (current (cpu s))) = f :: fs →
  inv (popped fs s) ∧ ∀ t, mention f = Some t →
    t ∈ all_list s ∧ status (threads s t) = THREAD_BLOCKED ∧ (∀ l, t ∉ lists s l) ∧
    (t ∉ sleeping_list s) ∧ Some t ≠ idle_thread (cpu s) ∧ (t ∉ pend (popped fs s)).
Proof.
  intros Hi Hs. pose proof Hi as [Hb Hst Hpl Ha]. set (c := current (cpu s)) in *.
  destruct (join_split (λ u, pend_of (stack (threads s u))) (λ u, pend_of (stack (threads (popped fs s) u)))
    (all_list s) c) as (r & Hr & Hr1);
    [apply Hb|done|intros; unfold popped; by rewrite upd_thread_ne|].
  change (mjoin _) with (pend s) in Hr. change (mjoin (_ <$> all_list s)) with (pend (popped fs s)) in Hr1.
  unfold popped in Hr1 at 2. rewrite upd_thread_eq in Hr1. cbn [stack set_stack] in Hr1. rewrite Hs in Hr.
  pose proof (b_pend _ Hb) as Hnd. rewrite Hr in Hnd.
  assert (pend_of (f :: fs) = match mention f with Some t => t :: pend_of fs | None => pend_of fs end) as Hpf by done.
  rewrite Hpf in Hr, Hnd. split.
  - apply inv_stack; [done|..].
    + apply NoDup_app in Hnd as (Hn & _ & _). destruct (mention f); [by apply NoDup_cons in Hn as [_ ?]|done].
    + intros x Hx. left. fold c. rewrite Hs, Hpf. destruct (mention f); set_solver.
  - intros t Hm. rewrite Hm in Hr, Hnd. assert (t ∈ pend s) as Ht by (rewrite Hr; set_solver).
    destruct (b_pending _ Hb t Ht) as (?&?&?&?&?). split_and!; try done.
    rewrite Hr1. by apply NoDup_cons in Hnd as [? _].
Qed.

Lemma exec_frame_ok f fs s u s' :
  inv s → stack (threads s (current (cpu s))) = f :: fs → (Some (current (cpu s)) = idle_thread (cpu s) → idle_frame f) →
  exec_frame thread_mlfqs stack_word f (popped fs s) = Ret (u, s') → stale s' = false → moved s s'.
Proof.
  intros Hi Hs Hid H Hst. destruct (popped_inv s f fs Hi Hs) as [Hi0 Hm].
  assert (switches f = false → current (cpu s') = current (cpu s)) as Hsw.
  { pose proof (stack_exec_frame thread_mlfqs stack_word f) as Hp. intros Hf.
    destruct f; try done; try exact (proj1 (Hp _ _ _ H)); cbn [exec_frame] in H.
    - unfold idle, cpu_do in H. st_run H. apply thread_current_run in Hstep as [-> ->].
      apply push_run in H. by subst s'.
    - unfold create_frames, upd in H. st_run H. apply push_run in H. by subst s'. }
  assert (∀ t, mention f = Some t → t ≠ current (cpu s)) as Hne.
  { intros t (?&?&_)%Hm ->. destruct Hi. congruence. }
  destruct f; cbn [exec_frame] in H; cbn [mention idle_frame] in Hm, Hid.
  all: try (split; [|left; by apply Hsw]).
  all: try (eapply keeps_run; [|exact Hi0|exact H]; solve [unfold iret, kernel_thread, idle_resume; keep]).
  - by eapply idle_inv.
  - apply idle_loop_ok in H as [? ?]; [split; auto|done].
  - apply thread_yield_ok in H as [? ?]; [split; auto|done].
  - destruct (Hm t eq_refl) as (?&?&?&?&?&?). eapply (preserves_unblock t); try exact H; auto.
  - apply sema_down_ok in H; [exact H|exact Hi0|]. by intros ?%Hid.
  - apply sema_down_loop_ok in H; [exact H|exact Hi0|]. by intros ?%Hid.
  - eapply preserves_run; [apply preserves_sema_up_pop|done..].
  - eapply preserves_run; [apply preserves_lock_acquire|done..].
  - eapply preserves_run; [apply preserves_lock_release|done..].
  - eapply preserves_run; [apply preserves_cond_wait|done..].
  - destruct (Hm t eq_refl) as (?&?&?&?&?&?). eapply (create_frames_inv t); try exact H; try done.
    unfold popped. by rewrite (upd_thread_keeps status).
Qed.

(** ** Steps *)

Definition kinv (s : kstate) : Prop := inv s ∧ stacks_ok s.

Lemma run_stacks f fs s u s' :
  inv s → stacks_ok s → stack (threads s (current (cpu s))) = f :: fs →
  exec_frame thread_mlfqs stack_word f (popped fs s) = Ret (u, s') → stacks_ok s'.
Proof.
  intros Hi [Hl Hid] Hs H. set (c := current (cpu s)) in *.
  assert (∀ t, idle_last (stack (threads (popped fs s) t))) as Hl0.
  { intros t. unfold popped. fold c. destruct (decide (t = c)) as [->|]; [|by rewrite upd_thread_ne].
    rewrite upd_thread_eq. eapply (idle_last_pop f). cbn [stack set_stack]. rewrite <-Hs. apply Hl. }
  assert (∀ i, idle_thread (cpu s) = Some i → i ≠ c → idle_stack (stack (threads (popped fs s) i))) as Hid0.
  { intros i Hi' Hne. unfold popped. fold c. rewrite upd_thread_ne by done. auto. }
  assert (threads (popped fs s) c = set_stack fs (threads s c)) as Hc by apply upd_thread_eq.
  assert (match f with F_create _ _ | F_idle => False | _ => True end →
          stacks_ok s') as Hrest.
  { intros Hf. pose proof (ends_exec_frame thread_mlfqs stack_word f) as He.
    assert (grown not_idle c (popped fs s) s') as Hg.
    { apply (grown_weaken plain); [apply plain_not_idle|]. destruct f; try done; exact (He _ _ _ H). }
    eapply (stacks_ok_grown (popped fs s)); try done.
    intros Hic. eapply (idle_exec_stack f fs (popped fs s)); [change (current (cpu (popped fs s))) with c; by rewrite Hc|rewrite <-Hs; auto|exact H]. }
  destruct f; try (by apply Hrest); clear Hrest; cbn [exec_frame] in H.
  - unfold idle, cpu_do in H. st_run H.
    apply thread_current_run in Hstep as [-> ->]. apply push_run in H. subst s'.
    assert (fs = []) as -> by (specialize (Hl c); rewrite Hs in Hl; done). split.
    + intros t. cbn. fold c. fn_case t c; [done|apply Hl].
    + intros i [= <-]. cbn. fold c. rewrite !fn_lookup_insert. cbn.
      split; [by repeat constructor|by left].
  - unfold create_frames, upd in H. st_run H. apply push_run in H. subst s'.
    destruct (popped_inv s (F_create t is_idle) fs Hi Hs) as [_ Hm].
    destruct (Hm t eq_refl) as (_&Hst&_&_&Hti&_).
    assert (t ≠ c) by (intros ->; destruct Hi; unfold c in *; congruence).
    split; intros y; cbn; fold c.
    + fn_case y c; [rewrite fn_lookup_insert; specialize (Hl c); rewrite Hs in Hl; done|].
      fn_case y t; [by destruct is_idle|apply Hl].
    + intros Hx. assert (y ≠ t) by congruence.
      fn_case y c; [|rewrite ?fn_lookup_insert_ne by done; by apply Hid].
      apply Hid in Hx. rewrite Hs in Hx. destruct Hx as [Hx _]. by inversion Hx.
Qed.

(** Creating a thread leaves the stacks in order. *)
Lemma thread_create_stacks page p is_idle s u s' :
  inv s → stacks_ok s → (∀ t, page = Some t → t ∉ all_list s) →
  Some (current (cpu s)) ≠ idle_thread (cpu s) →
  thread_create thread_mlfqs page p is_idle s = Ret (u, s') →
  stacks_ok s' ∧ current (cpu s') = current (cpu s) ∧ idle_thread (cpu s') = idle_thread (cpu s) ∧
  ∃ fs, stack (threads s' (current (cpu s))) = fs ++ stack (threads s (current (cpu s))) ∧ Forall not_idle fs.
Proof.
  intros Hi [Hl Hk] Hf Hid H.
  destruct page as [t|]; [|cbn in H; st_run H; split_and!; try done; by exists []].
  specialize (Hf t eq_refl). assert (t ≠ current (cpu s)) by (intros ->; by destruct Hi).
  unfold thread_create in H. apply st_bind_inv in H as (? & s1 & H1 & H).
  apply st_bind_inv in H1 as (? & ? & H2 & H1). st_run H2.
  apply st_bind_inv in H1 as (old & ? & [-> ->]%intr_disable_run & H1). unfold upd in H1.
  apply st_bind_inv in H1 as (? & ? & H2 & H1). st_run H2.
  apply st_bind_inv in H1 as (? & ? & H2 & H1). st_run H2.
  set (s0 := with_all_list _ _) in H1.
  assert (stacks_ok s0) as [Hl0 Hk0].
  { split; [intros x'|intros i Hj]; cbn.
    - fn_case x' t; [done|apply Hl].
    - fn_case i t; [|by apply Hk]. by destruct (b_idle _ (i_base _ Hi) t Hj). }
  eapply (pushes_bind not_idle) in H1 as [Hc1 Hg1]; [|apply pushes_intr_set_level|intros; apply pushes_ret].
  eapply (pushes_push not_idle) in H as [Hc2 Hg]; [|by repeat constructor].
  rewrite Hc1 in Hg, Hc2. pose proof (grown_trans _ _ _ _ _ Hg1 Hg) as Hg'. split_and!.
  - eapply (stacks_ok_grown s0); [done|auto|auto|]. intros Hj%eq_sym. by destruct Hid.
  - done.
  - by rewrite (g_idle _ _ _ _ Hg').
  - destruct (g_top _ _ _ _ Hg') as (fs & Ht & Hfs). exists fs. split; [|done].
    change (current (cpu s0)) with (current (cpu s)) in Ht. rewrite Ht. cbn.
    by rewrite fn_lookup_insert_ne by done.
Qed.

(** A call of a thread that is not the idle thread. *)
Lemma exec_call_kinv c s u s' :
  kinv s → stack (threads s (current (cpu s))) = [] → call_ok s c = true →
  exec_call thread_mlfqs c s = Ret (u, s') → stale s' = false → kinv s'.
Proof.
  intros [Hi [Hl Hk]] Hs Hok H Hst.
  assert (Some (current (cpu s)) ≠ idle_thread (cpu s)) as Hid.
  { intros Hc%eq_sym%Hk. rewrite Hs in Hc. destruct Hc as [_ [?|?]]; done. }
  assert (match c with CreateThread _ _ => False | _ => True end → stacks_ok s') as Hrest.
  { intros Hc. pose proof (ends_exec_call thread_mlfqs c) as He.
    assert (grown not_idle (current (cpu s)) s s') as Hg.
    { apply (grown_weaken plain); [apply plain_not_idle|]. destruct c; try done; exact (He _ _ _ H). }
    apply (stacks_ok_grown s s' _ Hg Hl); [auto|]. intros Hj. by rewrite Hj in Hid. }
  split; [|destruct c; try (by apply Hrest)]; [destruct c; cbn [exec_call] in H|].
  all: try (eapply keeps_run; [|exact Hi|exact H]; solve [unfold lock_acquire_exclusive,
    lock_acquire_shared, lock_release_shared, lock_release_exclusive; keep]).
  - by eapply timer_sleep_ok.
  - eapply preserves_run; [apply preserves_thread_set_priority|done..].
  - eapply preserves_run; [apply preserves_set_nice|done..].
  - eapply thread_create_inv; [exact Hi| |exact H]. intros t ->. cbn in Hok. unfold page_free in Hok.
    apply andb_prop in Hok as [_ Hok]. by apply bool_decide_eq_true in Hok.
  - by eapply thread_exit_ok.
  - clear Hrest. cbn [exec_call] in H. destruct page as [t|]; [|cbn in H; st_run H; by split].
    cbn in Hok. unfold page_free in Hok. apply andb_prop in Hok as [_ Hok]. apply bool_decide_eq_true in Hok.
    eapply thread_create_stacks; try done. by intros t' [= <-].
Qed.

Lemma tick_kinv s u s' :
  kinv s → (intr_disable;; intr_handler thread_mlfqs) s = Ret (u, s') → stale s' = false → kinv s'.
Proof.
  intros [Hi [Hl Hk]] H Hst. split.
  - eapply (preserves_run (intr_disable;; intr_handler thread_mlfqs)); [pres|exact Hi|exact H|done].
  - eapply (pushes_bind (λ f, not_idle f ∧ idle_frame f) _ (λ _, intr_handler thread_mlfqs)) in H as [_ Hg];
      [|apply pushes_intr_disable|intros; by apply pushes_intr_handler].
    destruct Hg as [Ho (fs & Ht & Hfs) Hid]. apply Forall_and in Hfs as [Hn Hf].
    eapply (stacks_ok_grown s _ (current (cpu s))); auto.
    + split; eauto.
    + intros Hj. rewrite Ht. apply idle_stack_push; auto.
Qed.

Lemma kstep_kinv e s s' :
  kinv s → kstep thread_mlfqs stack_word e s = Some (Ret s') → stale s' = false → kinv s'.
Proof.
  intros Hk H Hst. unfold kstep in H. destruct e as [c| |].
  - destruct (stack _) as [|f fs] eqn:Hs; [|done]. destruct (intr_on _ && _) eqn:Hc; [|done].
    injection H as [u H]%outcome_snd. apply andb_prop in Hc as [_ Hc]. by eapply exec_call_kinv.
  - destruct (stack _) as [|f fs] eqn:Hs; [done|]. injection H as [u H]%outcome_snd.
    destruct Hk as [Hi Hk]. split; [|by eapply run_stacks]. eapply exec_frame_ok; [done..| |exact H|done].
    intros Hid%eq_sym%(proj2 Hk). rewrite Hs in Hid. destruct Hid as [Hid _]. by inversion Hid.
  - destruct (intr_on _); [|done]. injection H as [u H]%outcome_snd. by eapply tick_kinv.
Qed.

(** ** Booting *)

Lemma start_base : base start_state.
Proof.
  constructor; cbn; intros; try done; try apply NoDup_nil_2; try (by inversion H).
  constructor.
Qed.

Lemma started_inv : inv (switch_to 1 (add_thread 1 PRI_DEFAULT start_state)).
Proof.
  pose proof (base_add_thread 1 PRI_DEFAULT start_state start_base (not_elem_of_nil _)) as Hb.
  apply inv_switch_to; try done.
  - cbn. by apply list_elem_of_singleton.
  - intros l. apply not_elem_of_nil.
  - apply not_elem_of_nil.
  - rewrite pend_add_thread by apply not_elem_of_nil. apply not_elem_of_nil.
Qed.

Lemma thread_init_kinv u s : thread_init thread_mlfqs start_state = Ret (u, s) → kinv s.
Proof.
  intros H. split.
  - eapply inv_core; [|exact started_inv].
    destruct thread_mlfqs; vm_compute in H; injection H as Hu Hs; subst s;
      (constructor; [intros [|[| |[]|]]; reflexivity|..]; try reflexivity; intros [| |]; reflexivity).
  - destruct thread_mlfqs; vm_compute in H; injection H as Hu Hs; subst s;
      (split; [intros [| |]; reflexivity|done]).
Qed.

Lemma kexec_kinv es s s' :
  kinv s → kexec thread_mlfqs stack_word es s = Some (Ret s') → stale s' = false → kinv s'.
Proof.
  revert s. induction es as [|e es IH]; intros s Hk H Hst; cbn [kexec] in H; [by injection H as <-|].
  destruct (kstep _ _ e s) as [[s1| |]|] eqn:Hr; try done.
  eapply IH; [|exact H|done]. eapply kstep_kinv; [done..|]. by eapply star_fresher; [eapply kexec_star|].
Qed.

Lemma init_run :
  match thread_init thread_mlfqs start_state with
  | Ret (_, s) =>
      match kexec thread_mlfqs stack_word [Run; Run; Run; Run] s with
      | Some (Ret s) => all_list s = [1%positive] ∧ idle_thread (cpu s) = None ∧
                        current (cpu s) = 1%positive ∧ stack (threads s 1%positive) = []
      | _ => False
      end
  | _ => False
  end.
Proof. destruct thread_mlfqs; vm_compute; done. Qed.

Lemma thread_start_kinv page s1 u s :
  kinv s1 → page ≠ 1%positive → all_list s1 = [1%positive] → idle_thread (cpu s1) = None →
  current (cpu s1) = 1%positive → stack (threads s1 1%positive) = [] →
  thread_start thread_mlfqs (Some page) s1 = Ret (u, s) → kinv s.
Proof.
  intros [Hi Hst] Hpage Ha Hid Hc Hsk H. unfold thread_start, running_thread, upd in H.
  apply st_bind_inv in H as (? & s2 & H2 & H).
  pose proof (sema_init_inv _ _ _ _ _ Hi H2) as Hi2.
  unfold sema_init, set_value, set_list in H2. st_run H2.
  apply st_bind_inv in H as (? & s3 & H3 & H). st_run H.
  assert (∀ t, Some page = Some t → t ∉ all_list (with_lists (<[Waiters IdleStarted:=[]]> (lists s1))
    (with_sema_value (<[IdleStarted:=0]> (sema_value s1)) s1))) as Hf.
  { intros t [= <-]. cbn. rewrite Ha, list_elem_of_singleton. done. }
  apply thread_create_inv in H3 as Hi3; [|done..].
  apply thread_create_stacks in H3 as ([Hl3 _] & Hc3 & Hid3 & fs & Hfs & Hn); [|done..|]; last first.
  { cbn. by rewrite Hid. }
  cbn in Hc3, Hid3, Hfs. rewrite Hc in Hc3, Hfs. rewrite Hsk, app_nil_r in Hfs. rewrite Hc3.
  split.
  - eapply inv_core; [|exact Hi3]. constructor; try done; intros t; cbn; fn_case t 1%positive; try done.
    cbn. unfold pend_of. rewrite omap_app. cbn. by rewrite app_nil_r.
  - split; cbn; [|by rewrite Hid3, Hid]. intros t. fn_case t 1%positive; [|apply Hl3].
    cbn. rewrite Hfs. by apply idle_last_push.
Qed.

Lemma boot_kinv page s : page ≠ 1%positive → boot thread_mlfqs stack_word page = Ret s → stale s = false → kinv s.
Proof.
  intros Hpage (u & s0 & s1 & u' & H0 & H1 & H)%boot_split Hst. pose proof init_run as Hr.
  rewrite H0, H1 in Hr. destruct Hr as (Ha & Hid & Hc & Hsk).
  eapply thread_start_kinv; [|exact Hpage|exact Ha|exact Hid|exact Hc|exact Hsk|exact H].
  eapply kexec_kinv; [by eapply thread_init_kinv|exact H1|].
  exact (steps_thread_start fresher_allows thread_mlfqs (fresher_init thread_mlfqs) _ _ _ _ H Hst).
Qed.

Lemma reachable_kinv s : reachable thread_mlfqs stack_word s → kinv s.
Proof. apply reachable_invariant; [by apply boot_kinv|by apply kstep_kinv]. Qed.

(** A step goes on with the same thread, or runs a most important one. *)
Lemma kstep_moved e s s' :
  kinv s → kstep thread_mlfqs stack_word e s = Some (Ret s') → stale s' = false →
  current (cpu s') = current (cpu s) ∨ highest s'.
Proof.
  intros [Hi Hk] H Hst. unfold kstep in H. destruct e as [c| |].
  - destruct (stack _) as [|f fs] eqn:Hs; [|done]. destruct (intr_on _ && _) eqn:Hc; [|done].
    injection H as [u H]%outcome_snd. pose proof (stack_exec_call thread_mlfqs c) as Hp.
    assert (Some (current (cpu s)) ≠ idle_thread (cpu s)) as Hid.
    { intros Hj%eq_sym%(proj2 Hk). rewrite Hs in Hj. destruct Hj as [_ [?|?]]; done. }
    destruct c; try (left; exact (proj1 (Hp _ _ _ H))).
    + right. by eapply timer_sleep_ok.
    + left. apply andb_prop in Hc as [_ Hc]. cbn in Hc, H.
      eapply (thread_create_stacks page p false); [done..| |done|exact H].
      intros t ->. unfold page_free in Hc. apply andb_prop in Hc as [_ Hc]. by apply bool_decide_eq_true in Hc.
    + right. by eapply thread_exit_ok.
  - destruct (stack _) as [|f fs] eqn:Hs; [done|]. injection H as [u H]%outcome_snd.
    eapply exec_frame_ok; [done..| |exact H|done].
    intros Hid%eq_sym%(proj2 Hk). rewrite Hs in Hid. destruct Hid as [Hid _]. by inversion Hid.
  - left. destruct (intr_on _); [|done]. injection H as [u H]%outcome_snd.
    eapply (pushes_bind idle_frame _ (λ _, intr_handler thread_mlfqs)) in H as [Hc _]; [done|..].
    + apply pushes_intr_disable.
    + intros. by apply pushes_intr_handler.
Qed.
End reach.
