(* ===== verification/KernelRuns.v ===== *)
(** * Runs of the kernel

    The states that a list of events leads to, from [boot]: every one of them
    that is not [stale] is reachable.  The witnesses of the kernel's theorems are
    such states. *)

From stdpp Require Import functions.
From stdpp Require Import base tactics list numbers option sorting sets.
From Stdlib Require Import ZArith Lia.
From S2P Require Import Prelude LinkedList ListOps FixedPoint KState Thread Synch Machine.
From S2P Require Import KernelInv KernelOps KernelStacks KernelReach.

Local Open Scope Z_scope.

Definition no_word : kstate → tp → Z := λ _ _, 0.

(** The kernel that has booted, with the idle thread at page 2. *)
Definition booted (m : bool) : kstate :=
  match boot m no_word 2 with Ret s => s | _ => start_state end.

Definition after (m : bool) (es : list event) : kstate :=
  match kexec m no_word es (booted m) with Some (Ret s) => s | _ => start_state end.

Definition runs (m : bool) (es : list event) : bool :=
  match boot m no_word 2, kexec m no_word es (booted m) with
  | Ret _, Some (Ret _) => true
  | _, _ => false
  end.

Lemma after_runs m es : runs m es = true → runs_to m no_word (after m es).
Proof.
  unfold runs, after. intros H.
  destruct (kexec m no_word es (booted m)) as [[s'| |]|] eqn:He; [|by destruct (boot _ _ _)..].
  exists 2%positive, (booted m). split; [done|]. split; [|by eapply kexec_star].
  clear He. revert H. unfold booted. by case (boot m no_word 2).
Qed.

Lemma after_reachable m es : runs m es && negb (stale (after m es)) = true → reachable m no_word (after m es).
Proof. intros [? ?%negb_true_iff]%andb_prop. split; [by apply after_runs|done]. Qed.

Definition Runs (n : nat) : list event := repeat Run n.

(** The initial thread at its first call. *)
Definition start_up : list event := Runs 15.

(** Threads 3 and 4, of priority 40, are waiting for a lock that the initial
    thread holds, and ready to run. *)
Definition two_waiters : list event :=
  start_up ++ [Call (LockAcquire 1)] ++ Runs 1 ++
  [Call (CreateThread (Some 3%positive) 40)] ++ Runs 8 ++ [Call (LockAcquire 1)] ++ Runs 4 ++
  [Call (CreateThread (Some 4%positive) 40)] ++ Runs 6.

Lemma in_order_priorities f (xs : list tp) :
  in_order (thread_cmp f) xs ↔ StronglySorted (λ a b, priority (f b) ≤ priority (f a)) xs.
Proof.
  unfold in_order. induction xs as [|x xs IH]; [split; constructor|].
  rewrite !StronglySorted_cons, IH, !Forall_forall. unfold thread_cmp.
  split; intros [H ?]; (split; [|done]); intros y Hy; specialize (H y Hy); cbn in *; lia.
Qed.
