(* ===== verification/KernelSpec.v ===== *)
(** * What the scheduler guarantees, and where it fails

    The scheduler's invariant and the choice of the thread to run, stated of
    every reachable state; and runs of the kernel, from [boot], that end in a
    failed assertion or leave priority donation wrong. *)

From stdpp Require Import functions.
From stdpp Require Import base tactics list numbers option sorting sets.
From Stdlib Require Import ZArith Lia.
From S2P Require Import Prelude LinkedList ListOps FixedPoint KState Thread Synch Machine.
From S2P Require Import KernelInv KernelPass KernelOps KernelStacks KernelReach KernelRuns.

Local Open Scope Z_scope.

(** ** The invariant *)

(** C1: in every state of every run, as long as no [list_remove] was called on an
    element that is in no list ([stale]), exactly the running thread is marked
    running; every priority list holds different live threads, whose [status]
    and [thread_pl] name that list, so that no thread is on two lists; sleeping
    threads are different, blocked and on no priority list; threads about to
    be unblocked are blocked and on no list. *)
Theorem scheduler_invariant m w s :
  runs_to m w s → stale s = false →
  (∀ t, t ∈ all_list s → (status (threads s t) = THREAD_RUNNING ↔ t = current (cpu s))) ∧
  current (cpu s) ∈ all_list s ∧ NoDup (all_list s) ∧
  (∀ l, NoDup (lists s l) ∧ ∀ t, t ∈ lists s l →
     t ∈ all_list s ∧ status (threads s t) = place_status l ∧ thread_pl (threads s t) = Some l) ∧
  (∀ l l' t, t ∈ lists s l → t ∈ lists s l' → l = l') ∧
  NoDup (sleeping_list s) ∧
  (∀ t, t ∈ sleeping_list s → t ∈ all_list s ∧ status (threads s t) = THREAD_BLOCKED ∧ ∀ l, t ∉ lists s l) ∧
  NoDup (pend s) ∧
  (∀ t, t ∈ pend s → t ∈ all_list s ∧ status (threads s t) = THREAD_BLOCKED ∧
     (t ∉ sleeping_list s) ∧ ∀ l, t ∉ lists s l).
Proof.
  intros Hr Hst0. destruct (reachable_kinv m w s (conj Hr Hst0)) as [[Hb Hst Hpl Ha] _].
  pose proof (sleeper_places s) as Hsl. split_and!.
  - intros t Ht. split; [by apply b_running|by intros ->].
  - done.
  - apply Hb.
  - intros l. split; [apply Hb|]. intros t (?&?&?&?&?)%(b_in _ Hb). done.
  - intros l l' t (?&_)%(b_in _ Hb) (?&_)%(b_in _ Hb). congruence.
  - apply Hb.
  - intros t Ht. destruct (Hsl t Hb Ht) as (?&?&?&?). by destruct (b_sleeper _ Hb t Ht) as (?&?&?&?).
  - apply Hb.
  - intros t (?&?&?&?&?)%(b_pending _ Hb). done.
Qed.

Lemma scheduler_invariant_witness :
  runs_to false no_word (after false two_waiters) ∧ stale (after false two_waiters) = false ∧
  status (threads (after false two_waiters) (current (cpu (after false two_waiters)))) = THREAD_RUNNING.
Proof.
  assert (runs_to false no_word (after false two_waiters)) as Hr by (apply after_runs; vm_compute; reflexivity).
  assert (stale (after false two_waiters) = false) as Hst by (vm_compute; reflexivity).
  split; [exact Hr|]. split; [exact Hst|]. destruct (scheduler_invariant false no_word _ Hr Hst) as (H & Hc & _).
  by apply H.
Defined.

(** C3: the run queue and the waiters of every semaphore are in order of
    priority in every state of every run, as long as no [list_remove] was called
    on an element that is in no list, although priorities of threads on them
    change: by donation, by the 4.4BSD scheduler and by new threads. *)
Theorem priority_lists_sorted m w s l :
  runs_to m w s → stale s = false →
  StronglySorted (λ a b, priority (threads s b) ≤ priority (threads s a)) (lists s l).
Proof. intros Hr Hst. destruct (reachable_kinv m w s (conj Hr Hst)) as [[Hb _ _ _] _]. apply in_order_priorities, Hb. Qed.

Lemma priority_lists_sorted_witness :
  lists (after false two_waiters) ReadyList = [4%positive] ∧
  StronglySorted (λ a b, priority (threads (after false two_waiters) b) ≤ priority (threads (after false two_waiters) a))
    (lists (after false two_waiters) ReadyList).
Proof.
  split; [vm_compute; reflexivity|]. apply (priority_lists_sorted false no_word).
  - apply after_runs. vm_compute. reflexivity.
  - vm_compute. reflexivity.
Defined.

(** C2: whenever a step of the machine (a call, the return from one, the end
    of a thread, preemption by the timer) changes the running thread, no
    thread on the run queue has a higher priority than the new one, as long as
    no [list_remove] was called on an element that is in no list. *)
Theorem switch_runs_highest_priority m w e s s' :
  runs_to m w s → kstep m w e s = Some (Ret s') → stale s' = false → current (cpu s') ≠ current (cpu s) →
  ∀ t, t ∈ lists s' ReadyList → priority (threads s' t) ≤ priority (threads s' (current (cpu s'))).
Proof.
  intros Hr Hs Hst Hne. pose proof (reachable_kinv m w s (conj Hr (kstep_fresher _ _ _ _ _ Hs Hst))) as Hk.
  destruct (kstep_moved _ _ _ _ _ Hk Hs Hst); done.
Qed.

(** Thread 1 holds the lock that 3 waits for; 4 runs when 1 goes to sleep. *)
Lemma switch_runs_highest_priority_witness :
  let s := after false two_waiters in
  let s' := after false (two_waiters ++ [Call (TimerSleep 5)]) in
  current (cpu s') = 4%positive ∧ 
  ∀ t, t ∈ lists s' ReadyList → priority (threads s' t) ≤ priority (threads s' (current (cpu s'))).
Proof.
  split; [vm_compute; reflexivity|].
  apply (switch_runs_highest_priority false no_word (Call (TimerSleep 5)) (after false two_waiters)).
  - apply after_runs. vm_compute. reflexivity.
  - vm_compute. reflexivity.
  - vm_compute. reflexivity.
  - vm_compute. discriminate.
Defined.

(** ** Runs that go wrong *)

(** Three ticks use up most of the time slice of the running thread, and the
    next one ends it. *)
Definition ticks3 : list event := concat (repeat (Tick :: Runs 1) 3).

(** Thread 3 waits for the semaphore; the initial thread ups it and is
    preempted before it takes 3 out of the waiters; thread 4 ups it too. *)
Definition sema_up_events : list event :=
  start_up ++ [Call (CreateThread (Some 3%positive) 40)] ++ Runs 8 ++ [Call (SemaDown 1)] ++ Runs 3 ++
  [Call (CreateThread (Some 4%positive) 31)] ++ Runs 6 ++ ticks3 ++
  [Call (SemaUp 1)] ++ Runs 1 ++ [Tick] ++ Runs 2 ++ [Call (SemaUp 1)] ++ Runs 5 ++
  [Call ThreadExit] ++ Runs 2.

(** [sema_up] looks at the waiters with interrupts off and takes the first
    one out with interrupts on again: when another thread has done so in
    between, [list_pop_front] is called on an empty list and the kernel
    stops. *)
Theorem sema_up_race :
  let s := after false sema_up_events in
  reachable false no_word s ∧
  list.head (stack (threads s (current (cpu s)))) = Some (F_sema_up_pop (Sema 1)) ∧
  lists s (Waiters (Sema 1)) = [] ∧ kstep false no_word Run s = Some Panic.
Proof. split; [apply after_reachable; vm_compute; reflexivity|]. vm_compute. done. Qed.

(** Thread 3 holds a lock and waits for the semaphore; the initial thread ups it
    and is preempted when it has taken 3 out of the waiters and before it
    unblocks it; thread 4, of a higher priority, asks for the lock. *)
Definition stale_events : list event :=
  start_up ++ [Call (CreateThread (Some 3%positive) 40)] ++ Runs 8 ++ [Call (LockAcquire 1)] ++ Runs 1 ++
  [Call (SemaDown 1)] ++ Runs 3 ++ [Call (CreateThread (Some 4%positive) 31)] ++ Runs 6 ++ ticks3 ++
  [Call (SemaUp 1)] ++ Runs 2 ++ [Tick] ++ Runs 2 ++ [Call (SetPriority 50); Call (LockAcquire 1)].

(** [sema_up] takes the first waiter out of the list with interrupts on, and
    [thread_pl] of the waiter goes on naming that list until it is unblocked.
    When another thread donates its priority to the waiter in between,
    [list_update_elem] removes an element that is in no list and puts it back on
    the waiters, and unblocking it puts it on the run queue as well: thread 3 is
    on two lists.  The other theorems on lists are about states in which this
    has not happened. *)
Theorem stale_update_two_lists :
  let s := after false stale_events in
  let s1 := after false (stale_events ++ Runs 1) in
  let s2 := after false (stale_events ++ Runs 5) in
  reachable false no_word s ∧ 3%positive ∈ pend s ∧ thread_pl (threads s 3%positive) = Some (Waiters (Sema 1)) ∧
  lists s (Waiters (Sema 1)) = [] ∧
  kstep false no_word Run s = Some (Ret s1) ∧ stale s1 = true ∧ lists s1 (Waiters (Sema 1)) = [3%positive] ∧
  runs_to false no_word s2 ∧ lists s2 ReadyList = [3%positive] ∧ lists s2 (Waiters (Sema 1)) = [3%positive].
Proof.
  split; [apply after_reachable; vm_compute; reflexivity|]. split; [vm_compute; by left|].
  do 5 (split; [vm_compute; reflexivity|]). split; [apply after_runs; vm_compute; reflexivity|].
  split; vm_compute; reflexivity.
Qed.

(** The initial thread has released the lock that 3 waits for, and is
    preempted before it ups the semaphore; 4 calls [lock_acquire]. *)
Definition null_holder_events : list event :=
  two_waiters ++ ticks3 ++ [Call (LockRelease 1)] ++ Runs 1 ++ [Tick] ++ Runs 2 ++ [Call (LockAcquire 1)].

(** [lock_release] clears the holder before it ups the semaphore, with
    interrupts on in between: [lock_acquire] in another thread then finds the
    semaphore down and no holder, whose priority it reads through a null
    pointer. *)
Theorem lock_acquire_null_holder :
  let s := after false null_holder_events in
  reachable false no_word s ∧
  list.head (stack (threads s (current (cpu s)))) = Some (F_lock_acquire (L 1)) ∧
  holder s (L 1) = None ∧ sema_value s (LockSema (L 1)) = 0 ∧ kstep false no_word Run s = Some Panic.
Proof. split; [apply after_reachable; vm_compute; reflexivity|]. vm_compute. done. Qed.

(** The initial thread sleeps with a lock; 3 raises its priority and asks for
    the lock. *)
Definition sleeping_holder_events : list event :=
  start_up ++ [Call (LockAcquire 1)] ++ Runs 1 ++ [Call (CreateThread (Some 3%positive) 31)] ++ Runs 6 ++
  [Call (TimerSleep 10)] ++ Runs 1 ++ [Call (SetPriority 40); Call (LockAcquire 1)].

(** Donation to a holder that is on no list, as a sleeping thread is, calls
    [list_update_elem] with a null list and the kernel stops. *)
Theorem donate_to_sleeping_holder :
  let s := after false sleeping_holder_events in
  reachable false no_word s ∧ holder s (L 1) = Some 1%positive ∧ 1%positive ∈ sleeping_list s ∧
  list.head (stack (threads s (current (cpu s)))) = Some (F_lock_acquire (L 1)) ∧
  kstep false no_word Run s = Some Panic.
Proof.
  split; [apply after_reachable; vm_compute; reflexivity|]. vm_compute. split_and!; try done. constructor.
Qed.

(** The holder of a lock that a thread of priority 40 waits for sets its
    priority to 55 and then to 10. *)
Definition lost_donation_events : list event :=
  two_waiters ++ [Call (SetPriority 55); Call (SetPriority 10)].

(** [thread_set_priority] drops the donated mark when the new priority is
    higher than the donation, so that lowering the priority later goes below a
    donation that is still due: the holder of the lock runs at priority 10
    while a thread of priority 40 waits for it. *)
Theorem set_priority_loses_donation :
  let s := after false lost_donation_events in
  reachable false no_word s ∧ holder s (L 1) = Some 1%positive ∧
  lists s (Waiters (LockSema (L 1))) = [3%positive] ∧
  priority (threads s 3%positive) = 40 ∧ priority (threads s 1%positive) = 10.
Proof. split; [apply after_reachable; vm_compute; reflexivity|]. vm_compute. done. Qed.

(** Thread 3, of priority 40, sleeps for one tick. *)
Definition late_preemption_events : list event :=
  start_up ++ [Call (CreateThread (Some 3%positive) 40)] ++ Runs 8 ++ [Call (TimerSleep 1)] ++ Runs 2.

(** [thread_tick] asks for a yield when the running thread is the more
    important one, not when a ready thread is: a thread of priority 40 that the
    tick wakes up does not preempt the running thread of priority 31, which
    goes on when the interrupt returns. *)
Theorem tick_does_not_preempt :
  let s := after false (late_preemption_events ++ [Tick]) in
  reachable false no_word s ∧ lists s ReadyList = [3%positive] ∧
  priority (threads s 3%positive) = 40 ∧ priority (threads s (current (cpu s))) = 31 ∧
  stack (threads s (current (cpu s))) = [F_iret].
Proof. split; [apply after_reachable; vm_compute; reflexivity|]. vm_compute. done. Qed.
