(* ===== verification/LockInv.v ===== *)
(** * Mutual exclusion of locks

    The semaphore of a lock, its holder and the frames of the threads that
    are in [lock_acquire] or [lock_release] share one token.  A frame that is
    going to up the semaphore or to take the lock carries it; so at most one
    thread at a time holds a lock, and only that thread gives it up. *)

From stdpp Require Import functions.
From stdpp Require Import base tactics list numbers option sorting sets.
From Stdlib Require Import ZArith Lia.
From S2P Require Import Prelude LinkedList ListOps FixedPoint KState Thread Synch Machine.
From S2P Require Import KernelInv KernelPass KernelOps KernelStacks KernelReach KernelRuns.

Local Open Scope Z_scope.

(** ** Tokens *)

(** The tokens of [l] that the code of a frame gives back (negative: takes). *)
Definition weight1 (l : lock_id) (f : frame) : Z :=
  match f with
  | F_sema_up q => if bool_decide (q = LockSema l) then 1 else 0
  | F_lock_acquire_give l' _ => if bool_decide (l' = l) then 1 else 0
  | F_sema_down q | F_sema_down_loop q _ => if bool_decide (q = LockSema l) then -1 else 0
  | _ => 0
  end.

Fixpoint weight (l : lock_id) (fs : list frame) : Z :=
  match fs with
  | [] => 0
  | f :: fs => weight1 l f + weight l fs
  end.

(** A thread downs the semaphore of a lock in order to take the lock. *)
Fixpoint shape (fs : list frame) : Prop :=
  match fs with
  | [] => True
  | f :: r =>
      match f with
      | F_sema_down (LockSema l) | F_sema_down_loop (LockSema l) _ =>
          ∃ old, list.head r = Some (F_lock_acquire_give l old)
      | _ => True
      end ∧ shape r
  end.

Lemma weight_app l fs gs : weight l (fs ++ gs) = weight l fs + weight l gs.
Proof. induction fs as [|f fs IH]; cbn; lia. Qed.

Lemma weight_nonneg l fs : shape fs → 0 ≤ weight l fs ∧ (∀ old r, fs = F_lock_acquire_give l old :: r → 1 ≤ weight l fs).
Proof.
  induction fs as [|f fs IH]; intros Hs; [cbn; split; [lia|done]|]. destruct Hs as [Hf Hs].
  destruct (IH Hs) as [H0 H1]. cbn [weight].
  assert (match f with
    | F_sema_down q | F_sema_down_loop q _ => q = LockSema l → 1 ≤ weight l fs
    | _ => True end) as Hd.
  { destruct f as [| | | | | | | | |q|q old| | | | | | | | | | | | | |]; try done; intros ->;
      destruct Hf as (o & Ho); destruct fs as [|f' r]; try done; injection Ho as ->; by eapply H1. }
  split; [|intros old r [= -> ->]; cbn; rewrite bool_decide_eq_true_2 by done; lia].
  destruct f; cbn [weight1]; try lia; case_bool_decide; try lia; specialize (Hd ltac:(done)); lia.
Qed.

(** Frames that carry no token. *)
Definition quiet (f : frame) : Prop :=
  match f with
  | F_sema_up (LockSema _) | F_lock_acquire_give _ _ | F_sema_down (LockSema _)
  | F_sema_down_loop (LockSema _) _ | F_create _ _ => False
  | _ => True
  end.

Lemma quiet_weight l fs : Forall quiet fs → weight l fs = 0.
Proof.
  induction 1 as [|f fs Hf _ IH]; cbn; [done|]. rewrite IH.
  destruct f as [| | | | | | | | |q|q old|q| | | | | | | | | | | | |]; cbn in *; try done;
    destruct q; by try rewrite bool_decide_eq_false_2.
Qed.

Lemma quiet_shape fs gs : Forall quiet fs → shape gs → shape (fs ++ gs).
Proof.
  induction 1 as [|f fs Hf _ IH]; [done|]. intros Hg. split; [|auto].
  destruct f as [| | | | | | | | |q|q old| | | | | | | | | | | | | |]; try done; by destruct q.
Qed.

(** ** Code that moves no token *)

Record still (c : tp) (s s' : kstate) : Prop := {
  st_value l : sema_value s' (LockSema l) = sema_value s (LockSema l);
  st_holder l : holder s' l = holder s l;
  st_all : all_list s' = all_list s;
  st_other u : u ≠ c → stack (threads s' u) = stack (threads s u);
  st_top : ∃ fs, stack (threads s' c) = fs ++ stack (threads s c) ∧ Forall quiet fs
}.

Definition neutral {A} (m : K A) : Prop := ∀ s a s',
  m s = Ret (a, s') → current (cpu s') = current (cpu s) ∧ still (current (cpu s)) s s'.

Definition neutral_end {A} (m : K A) : Prop := ∀ s a s',
  m s = Ret (a, s') → still (current (cpu s)) s s'.

Lemma still_refl c s : still c s s.
Proof. split; try done. by exists []. Qed.

Lemma still_trans c s1 s2 s3 : still c s1 s2 → still c s2 s3 → still c s1 s3.
Proof.
  intros [Hv1 Hh1 Ha1 Ho1 (fs1 & H1 & HP1)] [Hv2 Hh2 Ha2 Ho2 (fs2 & H2 & HP2)].
  split; intros; try congruence.
  - by rewrite Ho2, Ho1.
  - exists (fs2 ++ fs1). rewrite H2, H1, app_assoc. split; [done|]. by apply Forall_app.
Qed.

Lemma neutral_bind {A B} (m : K A) (f : A → K B) :
  neutral m → (∀ a, neutral (f a)) → neutral (m ≫= f).
Proof.
  intros Hm Hf s b s' (a & s1 & [Hc H1]%Hm & [Hc' H2]%Hf)%st_bind_inv. split; [congruence|].
  rewrite Hc in H2. by eapply still_trans.
Qed.
Lemma neutral_end_bind {A B} (m : K A) (f : A → K B) :
  neutral m → (∀ a, neutral_end (f a)) → neutral_end (m ≫= f).
Proof.
  intros Hm Hf s b s' (a & s1 & [Hc H1]%Hm & H2%Hf)%st_bind_inv. rewrite Hc in H2. by eapply still_trans.
Qed.
Lemma neutral_ends {A} (m : K A) : neutral m → neutral_end m.
Proof. by intros Hm s a s' [_ H]%Hm. Qed.
Lemma neutral_ret {A} (a : A) : neutral (mret a).
Proof. intros s ? ? [= <- <-]. auto using still_refl. Qed.
Lemma neutral_gets {A} (f : kstate → A) : neutral (gets f).
Proof. intros s ? ? [= <- <-]. auto using still_refl. Qed.
Lemma neutral_getS : neutral getS.
Proof. intros s ? ? [= <- <-]. auto using still_refl. Qed.
Lemma neutral_assert b : neutral (assertS b).
Proof. intros s ? ? [_ ->]%assertS_inv. auto using still_refl. Qed.
Lemma neutral_panic {A} : neutral (panicS (A := A)).
Proof. done. Qed.
Lemma neutral_deref {A} (o : option A) : neutral (deref o).
Proof. destruct o; [apply neutral_ret|apply neutral_panic]. Qed.
Lemma neutral_upd t f : (∀ r, stack (f r) = stack r) → neutral (upd t f).
Proof.
  intros Hf s ? ? [= <- <-]. split; [done|]. split; try done.
  - intros u _. cbn. fn_case u t; [apply Hf|done].
  - exists []. cbn. fn_case (current (cpu s)) t; [by rewrite Hf|done].
Qed.
Lemma neutral_cpu f : (∀ c, current (f c) = current c) → neutral (cpu_do f).
Proof. intros Hf s ? ? [= <- <-]. split; [apply Hf|]. split; try done. by exists []. Qed.
Lemma neutral_modify f :
  (∀ s, threads (f s) = threads s ∧ cpu (f s) = cpu s ∧ sema_value (f s) = sema_value s ∧
        holder (f s) = holder s ∧ all_list (f s) = all_list s) → neutral (modifyS f).
Proof.
  intros Hf s ? ? [= <- <-]. destruct (Hf s) as (Ht & Hc & Hv & Hh & Ha). split; [by rewrite Hc|].
  split; rewrite ?Ht, ?Hv, ?Hh, ?Ha; try done. by exists [].
Qed.
Lemma neutral_push fs : Forall quiet fs → neutral (push fs).
Proof.
  intros HP s u s' H%push_run. subst s'. split; [done|]. split; try done.
  - intros x Hx. by rewrite upd_thread_ne.
  - exists fs. by rewrite upd_thread_eq.
Qed.
Lemma neutral_if {A} (b : bool) (m1 m2 : K A) : neutral m1 → neutral m2 → neutral (if b then m1 else m2).
Proof. by destruct b. Qed.
Lemma neutral_end_if {A} (b : bool) (m1 m2 : K A) :
  neutral_end m1 → neutral_end m2 → neutral_end (if b then m1 else m2).
Proof. by destruct b. Qed.

(** Semaphores that are not those of locks. *)
Definition free_sema (q : sema_id) : Prop := match q with LockSema _ => False | _ => True end.

Lemma neutral_set_value q v : free_sema q → neutral (set_value q v).
Proof.
  intros Hq s ? ? [= <- <-]. split; [done|]. split; try done.
  - intros l. cbn. rewrite fn_lookup_insert_ne; [done|]. by intros ->.
  - by exists [].
Qed.

Create HintDb neutral.
#[export] Hint Resolve neutral_ret neutral_gets neutral_getS neutral_assert neutral_panic neutral_deref neutral_push
  neutral_set_value : neutral.
#[export] Hint Extern 1 (neutral (_ ≫= _)) => apply neutral_bind; [|intros ?] : neutral.
#[export] Hint Extern 1 (neutral_end (_ ≫= _)) => apply neutral_end_bind; [|intros ?] : neutral.
#[export] Hint Extern 1 (neutral (if _ then _ else _)) => apply neutral_if : neutral.
#[export] Hint Extern 1 (neutral_end (if _ then _ else _)) => apply neutral_end_if : neutral.
#[export] Hint Extern 1 (neutral (modifyS _)) => apply neutral_modify; done : neutral.
#[export] Hint Extern 1 (neutral (cpu_do _)) => apply neutral_cpu; done : neutral.
#[export] Hint Extern 1 (neutral (upd _ _)) => apply neutral_upd; done : neutral.
#[export] Hint Extern 1 (neutral (get _ _)) => apply neutral_gets : neutral.
#[export] Hint Extern 2 (neutral (match ?x with _ => _ end)) => destruct x : neutral.
#[export] Hint Extern 9 (neutral_end _) => apply neutral_ends : neutral.
#[export] Hint Extern 1 (Forall quiet _) => repeat (constructor; [solve [exact I|auto]|]); constructor : neutral.
#[export] Hint Extern 1 (free_sema _) => exact I : neutral.
Ltac ntl := intros; auto 60 with neutral.

Lemma neutral_intr_disable : neutral intr_disable.
Proof. unfold intr_disable, intr_get_level. ntl. Qed.
Lemma neutral_intr_enable : neutral intr_enable.
Proof. unfold intr_enable, intr_get_level, intr_context. ntl. Qed.
#[export] Hint Resolve neutral_intr_disable neutral_intr_enable : neutral.
Lemma neutral_intr_set_level on : neutral (intr_set_level on).
Proof. unfold intr_set_level. ntl. Qed.
Lemma neutral_intr_yield : neutral intr_yield_on_return.
Proof. unfold intr_yield_on_return, intr_context. ntl. Qed.
Lemma neutral_thread_current : neutral thread_current.
Proof. unfold thread_current, running_thread, is_thread. ntl. Qed.
Lemma neutral_insert_ordered l t : neutral (list_insert_ordered l t).
Proof. unfold list_insert_ordered, set_list. ntl. Qed.
Lemma neutral_top_pri l : neutral (thread_list_top_pri l).
Proof. unfold thread_list_top_pri. ntl. Qed.
#[export] Hint Resolve neutral_intr_set_level neutral_intr_yield neutral_thread_current
  neutral_insert_ordered neutral_top_pri : neutral.
Lemma neutral_update_elem l t : neutral (list_update_elem l t).
Proof. unfold list_update_elem, set_list, note_remove. ntl. Qed.
Lemma neutral_get_priority : neutral thread_get_priority.
Proof. unfold thread_get_priority. ntl. Qed.
#[export] Hint Resolve neutral_update_elem neutral_get_priority : neutral.

Lemma tail_still prev c s u s' : thread_schedule_tail prev s = Ret (u, s') → still c s s'.
Proof.
  intros H. destruct (tail_stacks prev s u s' H) as [Hs _].
  unfold thread_schedule_tail, running_thread, intr_get_level, upd, cpu_do in H. st_run H.
  split; [..|intros; apply Hs|exists []; by rewrite Hs];
    (destruct prev as [p|]; [st_run H; destruct (_ && _)|]; st_run H; done).
Qed.

Lemma neutral_schedule : neutral_end schedule.
Proof.
  intros s u s' H. unfold schedule, running_thread, get, cpu_do in H.
  apply st_bind_inv in H as (? & ? & Hr & H). st_run Hr.
  apply st_bind_inv in H as (next & s1 & Hn & H). set (c := current (cpu s)).
  assert (still c s s1) as Hs1.
  { destruct (next_thread_run _ _ _ Hn) as [[-> ->]|(n & -> & [|n' rest Hl])]; [apply still_refl..|].
    split; try done; [intros x Hx|exists []; split; [|done]]; cbn.
    - by fn_case x n'.
    - by fn_case c n'. }
  eapply still_trans; [exact Hs1|].
  unfold intr_get_level in H. apply st_bind_inv in H as (? & ? & Hr & H). st_run Hr.
  apply st_bind_inv in H as (? & ? & Hr & H). st_run Hr.
  apply st_bind_inv in H as (? & s2 & Hr & H).
  assert (s2 = s1) as -> by (unfold is_thread, get in Hr; destruct next; by st_run Hr).
  destruct next as [n|]; [|done].
  case_bool_decide; [|by eapply tail_still]. st_run H.
  eapply (still_trans c s1 (with_cpu (set_current n (cpu s1)) s1)); [|by eapply tail_still].
  split; try done. by exists [].
Qed.
#[export] Hint Resolve neutral_schedule : neutral.

Lemma neutral_block : neutral_end thread_block.
Proof. unfold thread_block, intr_context, intr_get_level. ntl. Qed.
Lemma neutral_yield : neutral_end thread_yield.
Proof. unfold thread_yield, intr_context. ntl. Qed.
Lemma neutral_unblock t : neutral (thread_unblock t).
Proof. unfold thread_unblock, is_thread. ntl. Qed.
Lemma neutral_update_timers : neutral thread_update_timers.
Proof.
  assert (∀ ts, neutral (update_timers_loop ts)) by (induction ts; cbn; unfold timer_elapsed; ntl).
  unfold thread_update_timers. ntl.
Qed.
Lemma neutral_calculate_priority t : neutral (thread_calculate_priority t).
Proof. unfold thread_calculate_priority, intr_context. ntl. Qed.
#[export] Hint Resolve neutral_block neutral_yield neutral_unblock neutral_update_timers
  neutral_calculate_priority : neutral.

Lemma neutral_intr_handler m : neutral (intr_handler m).
Proof.
  assert (∀ f, (∀ t, neutral (f t)) → neutral (thread_foreach f)) as Hfe.
  { intros f Hf. assert (∀ ts, neutral (foreach_loop f ts)) by (induction ts; cbn; ntl).
    unfold thread_foreach, intr_get_level. ntl. }
  assert (neutral (thread_foreach thread_calculate_recent_cpu))
    by (apply Hfe; unfold thread_calculate_recent_cpu; ntl).
  assert (neutral (thread_foreach thread_update_priorities))
    by (apply Hfe; unfold thread_update_priorities; ntl).
  assert (neutral thread_calculate_load_avg) by (unfold thread_calculate_load_avg; ntl).
  assert (neutral (thread_tick m)) by (unfold thread_tick, count_tick, mlfqs_tick; ntl).
  unfold intr_handler, timer_interrupt, intr_get_level, intr_context. ntl.
Qed.

Lemma neutral_held l : neutral (lock_held_by_current_thread l).
Proof. unfold lock_held_by_current_thread. ntl. Qed.
Lemma neutral_donate l p : neutral (lock_donate l p).
Proof.
  assert (∀ n o, neutral (lock_donate_loop n o p)) by (induction n; cbn; ntl).
  unfold lock_donate. ntl.
Qed.
Lemma neutral_sema_up q : free_sema q → neutral (sema_up q).
Proof. intros. unfold sema_up. ntl. Qed.
Lemma neutral_sema_down_loop q old : free_sema q → neutral_end (sema_down_loop q old).
Proof. intros. unfold sema_down_loop. apply neutral_end_bind; [ntl|intros s]. apply neutral_end_if; [|ntl].
  destruct q; ntl. Qed.
Lemma neutral_try_down q : free_sema q → neutral (sema_try_down q).
Proof. intros. unfold sema_try_down. ntl. Qed.
#[export] Hint Resolve neutral_held neutral_donate neutral_sema_up neutral_sema_down_loop neutral_try_down : neutral.

(** ** Code that moves the token *)

Definition held (s : kstate) (l : lock_id) : Z := match holder s l with Some _ => 1 | None => 0 end.

(** The code of frame [f] executed by [c]: the tokens of the frame go to the
    semaphore, to the holder or to the frames pushed; a holder only changes
    when it releases the lock. *)
Record token_step (c : tp) (f : frame) (s s' : kstate) : Prop := {
  ts_all : all_list s' = all_list s;
  ts_other u : u ≠ c → stack (threads s' u) = stack (threads s u);
  ts_top : ∃ fs, stack (threads s' c) = fs ++ stack (threads s c) ∧
    (∀ t b, F_create t b ∉ fs) ∧ (shape (f :: stack (threads s c)) → shape (fs ++ stack (threads s c))) ∧
    ∀ l, sema_value s' (LockSema l) + held s' l + weight l fs =
         sema_value s (LockSema l) + held s l + weight1 l f;
  ts_value l : 0 ≤ sema_value s' (LockSema l);
  ts_holder l t : holder s l = Some t →
    holder s' l = Some t ∨ holder s' l = None ∧ t = c ∧ f = F_lock_release l
}.

(** What the invariant gives to a frame that runs. *)
Definition tokens_ok (f : frame) (s : kstate) : Prop := ∀ l,
  0 ≤ sema_value s (LockSema l) ≤ 1 ∧ (0 < sema_value s (LockSema l) → holder s l = None) ∧
  (weight1 l f = 1 → sema_value s (LockSema l) = 0 ∧ holder s l = None).

Lemma quiet_no_create fs : Forall quiet fs → ∀ t b, F_create t b ∉ fs.
Proof. intros Hf t b Hin. rewrite Forall_forall in Hf. by apply Hf in Hin. Qed.

Lemma still_step c f s s' : tokens_ok f s → quiet f → still c s s' → token_step c f s s'.
Proof.
  intros Ht Hf [Hv Hh Ha Ho (fs & Htop & Hfs)]. split; [done|done|..].
  - exists fs. split_and!; [done|by apply quiet_no_create| |].
    + intros [_ Hs]. by apply quiet_shape.
    + intros l. unfold held. rewrite Hv, Hh, (quiet_weight l fs Hfs).
      pose proof (quiet_weight l [f] ltac:(by constructor)) as Hw. cbn in Hw. lia.
  - intros l. rewrite Hv. apply Ht.
  - intros l t Hl. left. by rewrite Hh.
Qed.

(** Going on after code that moves no token. *)
Lemma step_still c f s s1 s' : token_step c f s s1 → still c s1 s' → token_step c f s s'.
Proof.
  intros [Ha Ho (fs & Ht & Hc & Hs & Hw) Hv Hh] [Hv' Hh' Ha' Ho' (gs & Ht' & Hgs)]. split.
  - congruence.
  - intros u Hu. by rewrite Ho', Ho.
  - exists (gs ++ fs). split_and!.
    + by rewrite Ht', Ht, app_assoc.
    + intros t b [Hin|Hin]%elem_of_app; [by eapply quiet_no_create|by eapply Hc].
    + intros Hsh%Hs. rewrite <-app_assoc. by apply quiet_shape.
    + intros l. unfold held. rewrite Hv', Hh', weight_app, (quiet_weight l gs Hgs). apply Hw.
  - intros l. rewrite Hv'. apply Hv.
  - intros l t. rewrite Hh'. apply Hh.
Qed.

Lemma still_tokens c f s s' : tokens_ok f s → still c s s' → tokens_ok f s'.
Proof. intros Ht [Hv Hh _ _ _] l. rewrite Hv, Hh. apply Ht. Qed.

(** Going on from code that has moved no token. *)
Lemma still_then_step c f s s1 s' :
  still c s s1 → stack (threads s1 c) = stack (threads s c) → token_step c f s1 s' → token_step c f s s'.
Proof.
  intros [Hv Hh Ha Ho _] Hst [Ha' Ho' Ht Hv' Hh']. split.
  - congruence.
  - intros u Hu. by rewrite Ho', Ho.
  - destruct Ht as (fs & Ht & Hc & Hs & Hw). exists fs. rewrite <-Hst. split_and!; try done.
    intros l. rewrite Hw. unfold held. by rewrite Hv, Hh.
  - done.
  - intros l t. rewrite <-Hh. apply Hh'.
Qed.

Lemma intr_disable_still c s old s' :
  intr_disable s = Ret (old, s') → still c s s' ∧ threads s' = threads s ∧ current (cpu s') = current (cpu s).
Proof. intros [-> ->]%intr_disable_run. split_and!; [|done..]. split; try done. by exists []. Qed.

Lemma sema_up_step l s u s' :
  tokens_ok (F_sema_up (LockSema l)) s → sema_up (LockSema l) s = Ret (u, s') →
  token_step (current (cpu s)) (F_sema_up (LockSema l)) s s'.
Proof.
  intros Htk H. unfold sema_up in H.
  apply st_bind_inv in H as (old & s1 & Hd & H). apply (intr_disable_still (current (cpu s))) in Hd as (Hst & Hth & Hcu).
  apply st_bind_inv in H as (? & ? & H1 & H). st_run H1.
  apply st_bind_inv in H as (? & s2 & H1 & H). unfold set_value in H1. st_run H1.
  destruct (Htk l) as (? & _ & [Hv0 Hh0]); [cbn; by rewrite bool_decide_eq_true_2|].
  eapply still_then_step; [exact Hst|by rewrite Hth|].
  assert (token_step (current (cpu s)) (F_sema_up (LockSema l)) s1
    (with_sema_value (<[LockSema l:=u32 (sema_value s1 (LockSema l) + 1)]> (sema_value s1)) s1)) as Hstep.
  { destruct Hst as [Hv Hh _ _ _]. split; [done|done|exists []|..].
    - split_and!; [done|intros t b; apply not_elem_of_nil|by intros [_ ?]|]. intros l'. unfold held. cbn.
      destruct (decide (l' = l)) as [->|Hne].
      + rewrite fn_lookup_insert, Hv, bool_decide_eq_true_2, Hv0 by done. change (u32 (0 + 1)) with 1. lia.
      + rewrite fn_lookup_insert_ne, bool_decide_eq_false_2 by congruence. lia.
    - intros l'. cbn. destruct (decide (l' = l)) as [->|Hne].
      + rewrite fn_lookup_insert, Hv, Hv0. done.
      + rewrite fn_lookup_insert_ne, Hv by congruence. apply Htk.
    - intros l' t Hl. by left. }
  eapply step_still; [exact Hstep|]. rewrite <-Hcu.
  eapply (neutral_ends _ (ltac:(ntl) : neutral (match lists s1 (Waiters (LockSema l)) with
    | [] => intr_set_level old;; mret tt
    | _ => intr_set_level old;; push [F_sema_up_pop (LockSema l); F_intr_set_level old] end))) in H. done.
Qed.

Definition downs (l : lock_id) (f : frame) : Prop :=
  f = F_sema_down (LockSema l) ∨ ∃ old, f = F_sema_down_loop (LockSema l) old.

Lemma downs_weight l f l' : downs l f → weight1 l' f = if bool_decide (LockSema l = LockSema l') then -1 else 0.
Proof. by intros [->|[old ->]]. Qed.
Lemma downs_shape l f r : downs l f → shape (f :: r) → shape r ∧ ∃ o, list.head r = Some (F_lock_acquire_give l o).
Proof. by intros [->|[old ->]] [? ?]. Qed.

(** One token leaves the semaphore of [l]. *)
Lemma take_value l s : 0 < sema_value s (LockSema l) ≤ 1 → u32 (sema_value s (LockSema l) - 1) = 0.
Proof. intros H. replace (sema_value s (LockSema l)) with 1 by lia. done. Qed.

Lemma sema_down_loop_step l f old s u s' :
  tokens_ok f s → downs l f → sema_down_loop (LockSema l) old s = Ret (u, s') →
  token_step (current (cpu s)) f s s'.
Proof.
  intros Htk Hf H. unfold sema_down_loop in H.
  apply st_bind_inv in H as (? & ? & H1 & H). st_run H1. set (c := current (cpu s)).
  destruct (Htk l) as (Hv & _). destruct (_ =? _) eqn:Hz.
  - apply st_bind_inv in H as (? & ? & [-> ->]%thread_current_run & H).
    apply st_bind_inv in H as (? & s1 & H1 & H). apply st_bind_inv in H as (? & s2 & H2 & H).
    unfold list_insert_ordered, set_list, upd in H1, H2. st_run H1. st_run H2.
    apply st_bind_inv in H as (? & s3 & ->%push_run & H). apply neutral_block in H.
    eapply step_still; [|exact H]. split; [done| |exists [F_sema_down_loop (LockSema l) old]|apply Htk|by left].
    + intros x' Hx. cbn. by rewrite !fn_lookup_insert_ne by done.
    + split_and!.
      * cbn. by rewrite !fn_lookup_insert.
      * intros t b [Hin|Hin%not_elem_of_nil]%elem_of_cons; done.
      * intros [Hs Hh]%(downs_shape l); [by split|done].
      * intros l'. rewrite (downs_weight l f l' Hf). unfold held. cbn. lia.
  - apply st_bind_inv in H as (? & s1 & H1 & H). unfold set_value in H1. st_run H1.
    eapply (neutral_ends (intr_set_level old;; mret tt)) in H; [|ntl].
    eapply step_still; [|exact H]. rewrite take_value by lia. split; [done|done|exists []|..].
    + split_and!; [done|intros t b; apply not_elem_of_nil|intros [Hs _]%(downs_shape l); done|].
      intros l'. rewrite (downs_weight l f l' Hf). unfold held. cbn.
      destruct (decide (l' = l)) as [->|Hne].
      * rewrite fn_lookup_insert, bool_decide_eq_true_2 by done. lia.
      * rewrite fn_lookup_insert_ne, bool_decide_eq_false_2 by congruence. lia.
    + intros l'. cbn. destruct (decide (l' = l)) as [->|Hne].
      * by rewrite fn_lookup_insert.
      * rewrite fn_lookup_insert_ne by congruence. apply Htk.
    + by left.
Qed.

(** [lock_try_acquire] takes the lock when the semaphore is up. *)
Lemma try_down_run q s ok s' :
  sema_try_down q s = Ret (ok, s') →
  ∃ s1, neutral_end (intr_set_level (intr_on (cpu s))) ∧ (intr_set_level (intr_on (cpu s)) s1 = Ret (intr_on (cpu s1), s')) ∧
   s1 = with_cpu (set_intr_on false (cpu s))
     (if ok then with_sema_value (<[q := u32 (sema_value s q - 1)]> (sema_value s)) s else s) ∧
   ok = (0 <? sema_value s q).
Proof.
  unfold sema_try_down. intros H.
  apply st_bind_inv in H as (? & ? & [-> ->]%intr_disable_run & H).
  apply st_bind_inv in H as (? & ? & H2 & H). st_run H2.
  apply st_bind_inv in H as (succ & s2 & H1 & H). cbn [sema_value with_cpu] in H1.
  apply st_bind_inv in H as (? & s3 & H2 & H). st_run H.
  assert (∀ v, intr_set_level v s2 = Ret (x, s3) → x = intr_on (cpu s2)) as Hx.
  { unfold intr_set_level, intr_enable, intr_disable, intr_get_level, intr_context, cpu_do.
    intros [] Hv; by st_run Hv. }
  exists s2. rewrite (Hx _ H2) in H2. split_and!; [ntl|exact H2|..];
    destruct (0 <? sema_value s q); unfold set_value in H1; by st_run H1.
Qed.

Definition exact_stacks {A} (m : K A) : Prop := pushes (λ _, False) m.

Lemma exact_stack {A} (m : K A) s a s' :
  exact_stacks m → m s = Ret (a, s') →
  current (cpu s') = current (cpu s) ∧ stack (threads s' (current (cpu s))) = stack (threads s (current (cpu s))).
Proof.
  intros Hm H. destruct (Hm _ _ _ H) as [Hc [_ (fs & Ht & Hf) _]]. split; [done|].
  destruct fs as [|f fs]; [done|by inversion Hf].
Qed.

#[local] Hint Resolve pushes_intr_disable pushes_intr_set_level pushes_thread_current : pushes.

Lemma exact_held l : exact_stacks (lock_held_by_current_thread l).
Proof. unfold exact_stacks, lock_held_by_current_thread. psh. Qed.
Lemma exact_try_down q : exact_stacks (sema_try_down q).
Proof. unfold exact_stacks, sema_try_down, set_value. psh. Qed.
Lemma exact_give l t : exact_stacks (give_lock l t).
Proof. unfold exact_stacks, give_lock, set_holder. psh. Qed.
#[local] Hint Resolve exact_held exact_try_down exact_give : pushes.
Lemma exact_try_acquire l : exact_stacks (lock_try_acquire l).
Proof.
  unfold exact_stacks, lock_try_acquire. pose proof (exact_held l). pose proof (exact_try_down (LockSema l)).
  pose proof (exact_give l). unfold exact_stacks in *. psh.
Qed.

(** Giving a lock that nobody has. *)
Lemma give_step l f s u s' :
  tokens_ok f s → weight1 l f = 1 → (∀ l', l' ≠ l → weight1 l' f = 0) → shape [f] →
  holder s l = None → give_lock l (current (cpu s)) s = Ret (u, s') →
  token_step (current (cpu s)) f s s' ∧ holder s' l = Some (current (cpu s)).
Proof.
  intros Htk Hw Hw' Hsh Hh H. destruct (exact_stack _ _ _ _ (exact_give l _) H) as [_ Hstk].
  unfold give_lock, set_holder, upd in H. st_run H. split; [|cbn; by rewrite fn_lookup_insert]. split.
  - done.
  - intros x' Hx. cbn. by rewrite !fn_lookup_insert_ne by done.
  - exists []. split_and!; [done|intros t b; apply not_elem_of_nil|by intros [_ ?]|].
    intros l'. unfold held. cbn. destruct (decide (l' = l)) as [->|Hne].
    + rewrite fn_lookup_insert, Hh, Hw. lia.
    + rewrite fn_lookup_insert_ne, (Hw' l') by congruence. lia.
  - apply Htk.
  - intros l' t Hl. cbn. destruct (decide (l' = l)) as [->|Hne]; [congruence|].
    rewrite fn_lookup_insert_ne by congruence. by left.
Qed.

Lemma give_frame_step l old s u s' :
  tokens_ok (F_lock_acquire_give l old) s → lock_acquire_give l old s = Ret (u, s') →
  token_step (current (cpu s)) (F_lock_acquire_give l old) s s'.
Proof.
  intros Htk H. unfold lock_acquire_give, running_thread in H.
  apply st_bind_inv in H as (? & ? & H1 & H). st_run H1.
  apply st_bind_inv in H as (? & s1 & H1 & H).
  destruct (Htk l) as (_ & _ & [_ Hh]); [cbn; by rewrite bool_decide_eq_true_2|].
  destruct (exact_stack _ _ _ _ (exact_give l _) H1) as [Hc _].
  apply (give_step l (F_lock_acquire_give l old)) in H1 as [H1 _]; try done.
  - eapply step_still; [exact H1|]. rewrite <-Hc.
    eapply (neutral_ends (intr_set_level old;; mret tt)) in H; [done|ntl].
  - cbn. by rewrite bool_decide_eq_true_2.
  - intros l' Hne. cbn. by rewrite bool_decide_eq_false_2.
Qed.

(** Two moves in one piece of code. *)
Lemma steps_compose c f1 f2 f s s1 s2 :
  token_step c f1 s s1 → token_step c f2 s1 s2 →
  stack (threads s1 c) = stack (threads s c) → stack (threads s2 c) = stack (threads s1 c) →
  (∀ l, weight1 l f1 + weight1 l f2 = weight1 l f) → (∀ l, f1 ≠ F_lock_release l ∧ f2 ≠ F_lock_release l) →
  token_step c f s s2.
Proof.
  intros [Ha1 Ho1 (g1 & Ht1 & _ & _ & Hw1) Hv1 Hh1] [Ha2 Ho2 (g2 & Ht2 & _ & _ & Hw2) Hv2 Hh2] Hs1 Hs2 Hw Hr.
  assert (g1 = []) as -> by (apply (app_inv_tail (stack (threads s c))); by rewrite <-Ht1).
  assert (g2 = []) as -> by (apply (app_inv_tail (stack (threads s1 c))); by rewrite <-Ht2).
  cbn in Hw1, Hw2. split.
  - congruence.
  - intros u Hu. by rewrite Ho2, Ho1.
  - exists []. rewrite Hs2, Hs1. split_and!; [done|intros t b; apply not_elem_of_nil|by intros [_ ?]|].
    intros l. cbn. rewrite <-Hw. specialize (Hw1 l). specialize (Hw2 l). lia.
  - done.
  - intros l t Hl. destruct (Hr l). destruct (Hh1 l t Hl) as [Hl1|(_ & _ & ?)]; [|done].
    destruct (Hh2 l t Hl1) as [?|(_ & _ & ?)]; [by left|done].
Qed.

Lemma try_down_step l s s' :
  tokens_ok F_iret s → sema_try_down (LockSema l) s = Ret (true, s') →
  token_step (current (cpu s)) (F_sema_down (LockSema l)) s s' ∧ 0 < sema_value s (LockSema l) ∧
  tokens_ok F_iret s' ∧ (∀ l', holder s' l' = holder s l') ∧ sema_value s' (LockSema l) = 0.
Proof.
  intros Htk H. destruct (exact_stack _ _ _ _ (exact_try_down _) H) as [_ Hstk].
  apply try_down_run in H as (s1 & Hn & Hset & -> & Hok). symmetry in Hok. apply Z.ltb_lt in Hok.
  destruct (Htk l) as (Hv & Hup & _). rewrite take_value in Hset by lia.
  set (s1 := with_cpu _ _) in Hset.
  assert (token_step (current (cpu s)) (F_sema_down (LockSema l)) s s1) as H1.
  { split; [done|done|exists []|..].
    - split_and!; [done|intros t b; apply not_elem_of_nil|by intros [_ ?]|].
      intros l'. unfold held. cbn. destruct (decide (l' = l)) as [->|Hne].
      + rewrite fn_lookup_insert, bool_decide_eq_true_2 by done. lia.
      + rewrite fn_lookup_insert_ne, bool_decide_eq_false_2 by congruence. lia.
    - intros l'. cbn. destruct (decide (l' = l)) as [->|Hne].
      + by rewrite fn_lookup_insert.
      + rewrite fn_lookup_insert_ne by congruence. apply Htk.
    - by left. }
  apply Hn in Hset. destruct Hset as [Hv' Hh' Ha' Ho' Ht']. split_and!.
  - eapply step_still; [exact H1|]. by split.
  - done.
  - intros l'. rewrite Hv', Hh'. cbn. destruct (decide (l' = l)) as [->|Hne].
    + rewrite fn_lookup_insert. split_and!; [lia..|done].
    + rewrite fn_lookup_insert_ne by congruence. apply Htk.
  - done.
  - rewrite Hv'. cbn. by rewrite fn_lookup_insert.
Qed.

Lemma try_down_false q s s' : sema_try_down q s = Ret (false, s') → still (current (cpu s)) s s'.
Proof.
  intros (s1 & Hn & Hset & -> & _)%try_down_run. apply Hn in Hset.
  eapply still_trans; [|exact Hset]. split; try done. by exists [].
Qed.

Lemma tokens_weight f s : tokens_ok F_iret s → (∀ l, weight1 l f = 1 → sema_value s (LockSema l) = 0 ∧ holder s l = None) → tokens_ok f s.
Proof. intros Ht Hw l. destruct (Ht l) as (? & ? & _). split_and!; try done; try lia; apply Hw; done. Qed.

Lemma try_acquire_step l s ok s' :
  tokens_ok F_iret s → lock_try_acquire l s = Ret (ok, s') →
  if ok then token_step (current (cpu s)) F_iret s s' ∧ holder s' l = Some (current (cpu s))
  else still (current (cpu s)) s s'.
Proof.
  intros Htk H. set (c := current (cpu s)). unfold lock_try_acquire in H.
  apply st_bind_inv in H as (? & ? & H1 & H).
  assert (∀ u s1, (lock_held_by_current_thread l ≫= λ h, assertS (negb h)) s = Ret (u, s1) → s1 = s) as Hheld.
  { unfold lock_held_by_current_thread, thread_current, running_thread, is_thread, get. intros u s1 Hx. by st_run Hx. }
  apply Hheld in H1 as ->. clear Hheld.
  apply st_bind_inv in H as (old & s1 & Hd & H). apply (intr_disable_still c) in Hd as (Hst & Hth & Hc1).
  apply st_bind_inv in H as (succ & s2 & H1 & H). destruct (exact_stack _ _ _ _ (exact_try_down _) H1) as [Hc2 Hk2].
  apply st_bind_inv in H as (? & s3 & H2 & H).
  assert (∀ v, (intr_set_level old;; mret v) s3 = Ret (ok, s') → ok = v ∧ still (current (cpu s3)) s3 s') as Hend.
  { intros v Hv. pose proof (neutral_ends (intr_set_level old;; mret v) ltac:(ntl) _ _ _ Hv) as Hn.
    apply st_bind_inv in Hv as (? & ? & _ & Hv). cbv [mret st_ret] in Hv. by injection Hv as <- _. }
  apply Hend in H as [-> Hs3]. clear Hend. destruct succ.
  - apply st_bind_inv in H2 as (? & ? & [-> ->]%thread_current_run & H2).
    pose proof (still_tokens _ _ _ _ Htk Hst) as Htk1.
    destruct (Htk1 l) as (_ & Hup & _).
    apply try_down_step in H1 as (Hstep1 & Hpos & Htk2 & Hh2 & Hv2); [|done].
    destruct (exact_stack _ _ _ _ (exact_give l _) H2) as [Hc3 Hk3].
    pose proof (Hh2 l) as Hhl. rewrite (Hup Hpos) in Hhl.
    apply (give_step l (F_lock_acquire_give l true)) in H2 as [H2 Hh3]; [|apply tokens_weight; [done|]|..].
    + split; [|rewrite (st_holder _ _ _ Hs3), Hh3, Hc2, Hc1; done].
      rewrite Hc3, Hc2, Hc1 in Hs3. rewrite Hc2, Hc1 in H2, Hk3. rewrite Hc1 in Hstep1, Hk2.
      eapply step_still; [|exact Hs3].
      eapply (still_then_step c F_iret s s1); [exact Hst|by rewrite Hth|].
      eapply (steps_compose c (F_sema_down (LockSema l)) (F_lock_acquire_give l true)); try done.
      intros l'. cbn. repeat case_bool_decide; try congruence; lia.
    + intros l'. cbn. case_bool_decide; [|done]. subst l'. done.
    + cbn. by rewrite bool_decide_eq_true_2.
    + intros l' Hne. cbn. by rewrite bool_decide_eq_false_2.
    + done.
    + done.
  - st_run H2. apply try_down_false in H1. rewrite Hc1 in H1. rewrite Hc2, Hc1 in Hs3.
    eapply still_trans; [exact Hst|]. by eapply still_trans.
Qed.

Lemma quiet_cons_shape f fs : quiet f → shape fs → shape (f :: fs).
Proof. intros Hf Hs. apply (quiet_shape [f]); [by constructor|done]. Qed.

(** Going on from code that moved no token, with a frame that carries none. *)
Lemma still_then_quiet c f s s1 s' :
  quiet f → still c s s1 → token_step c f s1 s' → token_step c f s s'.
Proof.
  intros Hf [Hv Hh Ha Ho (qs & Hq & Hqs)] [Ha' Ho' (fs & Ht & Hc & Hs & Hw) Hv' Hh']. split.
  - congruence.
  - intros u Hu. by rewrite Ho', Ho.
  - exists (fs ++ qs). rewrite Hq in Ht, Hs. split_and!.
    + by rewrite Ht, app_assoc.
    + intros t b [Hin|Hin]%elem_of_app; [by eapply Hc|by eapply quiet_no_create].
    + intros [_ Hsh]. rewrite <-app_assoc. apply Hs. apply quiet_cons_shape; [done|]. by apply quiet_shape.
    + intros l. rewrite weight_app, (quiet_weight l qs Hqs). specialize (Hw l). unfold held in *.
      rewrite <-Hv, <-Hh. lia.
  - done.
  - intros l t. rewrite <-Hh. apply Hh'.
Qed.

Lemma push_step f fs s u s' :
  tokens_ok f s → (∀ t b, F_create t b ∉ fs) → (∀ r, shape (f :: r) → shape (fs ++ r)) →
  (∀ l, weight l fs = weight1 l f) → push fs s = Ret (u, s') → token_step (current (cpu s)) f s s'.
Proof.
  intros Htk Hc Hs Hw ->%push_run. split; [done| | |apply Htk|by left].
  - intros x Hx. by rewrite upd_thread_ne.
  - exists fs. rewrite upd_thread_eq. split_and!; [done|exact Hc|apply Hs|]. intros l. rewrite Hw. done.
Qed.

Section steps.
Context (thread_mlfqs : bool) (stack_word : kstate → tp → Z).

Lemma lock_acquire_step l s u s' :
  tokens_ok F_iret s → lock_acquire thread_mlfqs l s = Ret (u, s') → token_step (current (cpu s)) F_iret s s'.
Proof.
  intros Htk H. set (c := current (cpu s)). unfold lock_acquire in H.
  apply st_bind_inv in H as (? & s1 & H1 & H). unfold intr_context in H1. st_run H1.
  apply st_bind_inv in H as (? & s1 & H1 & H).
  destruct (neutral_bind _ _ (neutral_held l) (λ h, neutral_assert (negb h)) _ _ _ H1) as [Hc1 Hs1]. clear H1.
  apply st_bind_inv in H as (old & s2 & H1 & H). apply neutral_intr_disable in H1 as [Hc2 Hs2].
  apply st_bind_inv in H as (t & ? & H1 & H). apply thread_current_run in H1 as [Ht ->].
  apply st_bind_inv in H as (? & ? & H1 & H). unfold get in H1. st_run H1.
  rewrite Hc1 in Hs2, Hc2. fold c in Hs1, Hs2, Hc2. pose proof (still_trans _ _ _ _ Hs1 Hs2) as Hs. clear Hs1 Hs2 Hc1.
  eapply still_then_quiet; [done|exact Hs|]. pose proof (still_tokens _ _ _ _ Htk Hs) as Htk2.
  apply st_bind_inv in H as (ok & s3 & H1 & H).
  assert (current (cpu s3) = c) as Hc3 by (rewrite <-Hc2; by eapply exact_stack; [apply exact_try_acquire|]).
  apply try_acquire_step in H1; [|done]. rewrite Hc2 in H1. destruct ok.
  - destruct H1 as [H1 _]. eapply step_still; [exact H1|]. rewrite <-Hc3.
    eapply (neutral_ends (intr_set_level old;; mret tt)) in H; [done|ntl].
  - eapply still_then_quiet; [done|exact H1|]. pose proof (still_tokens _ _ _ _ Htk2 H1) as Htk3.
    clear H1 Hs Htk Htk2.
    apply st_bind_inv in H as (? & ? & H1 & H). st_run H1.
    apply st_bind_inv in H as (? & s4 & H1 & H). apply (neutral_upd t (set_waiting _) ltac:(done)) in H1 as [Hc4 Hs4].
    apply st_bind_inv in H as (h & s5 & H1 & H). apply neutral_deref in H1 as [Hc5 Hs5].
    apply st_bind_inv in H as (? & ? & H1 & H). unfold get in H1. st_run H1.
    apply st_bind_inv in H as (? & s6 & H1 & H).
    assert (current (cpu s6) = current (cpu s5) ∧ still (current (cpu s5)) s5 s6) as [Hc6 Hs6].
    { eapply (neutral_if _ (lock_donate l _) (mret tt)); [ntl|ntl|exact H1]. }
    rewrite Hc5, Hc4, Hc3 in Hs6, Hc6. rewrite Hc4, Hc3 in Hs5. rewrite Hc3 in Hs4.
    pose proof (still_trans _ _ _ _ Hs4 (still_trans _ _ _ _ Hs5 Hs6)) as Hs.
    eapply still_then_quiet; [done|exact Hs|]. rewrite <-Hc6.
    eapply (push_step _ [F_sema_down (LockSema l); F_lock_acquire_give l old]); [by eapply still_tokens|..|exact H].
    + intros t' b [?|[?|?%elem_of_nil]%elem_of_cons]%elem_of_cons; done.
    + intros r [_ Hr]. cbn. eauto.
    + intros l'. cbn. repeat case_bool_decide; try congruence; lia.
Qed.

Lemma lock_release_step l s u s' :
  tokens_ok (F_lock_release l) s → lock_release thread_mlfqs l s = Ret (u, s') →
  token_step (current (cpu s)) (F_lock_release l) s s'.
Proof.
  intros Htk H. set (c := current (cpu s)). unfold lock_release in H.
  apply st_bind_inv in H as (? & s1 & H1 & H).
  assert (holder s l = Some c ∧ s1 = s) as [Hh ->].
  { unfold lock_held_by_current_thread, thread_current, running_thread, is_thread, get in H1. st_run H1.
    by apply bool_decide_eq_true in Hassert1. }
  apply st_bind_inv in H as (old & s2 & H2 & H). apply neutral_intr_disable in H2 as [Hc2 Hs2].
  apply st_bind_inv in H as (t & ? & H3 & H). apply thread_current_run in H3 as [-> ->].
  fold c in Hc2, Hs2. rewrite Hc2 in H.
  apply st_bind_inv in H as (? & s3 & H3 & H).
  assert (neutral (ls ← get c acquired_locks; note_remove (bool_decide (l ∈ ls)))) as Hnote by (unfold note_remove; ntl).
  apply Hnote in H3 as [Hc3 Hs3]. clear Hnote. rewrite Hc2 in Hc3, Hs3.
  apply st_bind_inv in H as (? & s4 & H3 & H). apply (neutral_upd c) in H3 as [Hc4 Hs4]; [|done].
  apply st_bind_inv in H as (? & s5 & H3 & H).
  assert (current (cpu s5) = current (cpu s4) ∧ still (current (cpu s4)) s4 s5) as [Hc5 Hs5].
  { revert H3. match goal with |- ?m _ = _ → _ => assert (neutral m) as Hn end.
    { unfold next_potential_donation. ntl. }
    apply Hn. }
  rewrite Hc3 in Hs4, Hc4. rewrite Hc4 in Hs5, Hc5.
  pose proof (still_trans _ _ _ _ Hs2 (still_trans _ _ _ _ Hs3 (still_trans _ _ _ _ Hs4 Hs5))) as Hs. clear Hs2 Hs3 Hs4 Hs5.
  eapply still_then_quiet; [done|exact Hs|]. pose proof (still_tokens _ _ _ _ Htk Hs) as Htk5.
  assert (holder s5 l = Some c) as Hh5 by (by rewrite (st_holder _ _ _ Hs)).
  clear Hs Htk Hh H1 H3. apply st_bind_inv in H as (? & s6 & H1 & H). unfold set_holder in H1. st_run H1.
  apply st_bind_inv in H as (? & s7 & H1 & H).
  destruct (neutral_intr_set_level _ _ _ _ H1) as [Hc7 Hs7]. cbn in Hc7, Hs7. rewrite Hc5 in Hc7, Hs7.
  apply push_run in H. subst s'. rewrite Hc7. destruct Hs7 as [Hv7 Hh7 Ha7 Ho7 (qs & Hq7 & Hqs)]. cbn in *. split.
  - done.
  - intros y Hy. cbn. rewrite fn_lookup_insert_ne by done. by apply Ho7.
  - exists (F_sema_up (LockSema l) :: qs). split_and!.
    + cbn. rewrite fn_lookup_insert. cbn. by rewrite Hq7.
    + intros t b [?|Hin]%elem_of_cons; [done|by eapply quiet_no_create].
    + intros [_ Hsh]. split; [done|]. by apply quiet_shape.
    + intros l'. unfold held. cbn. rewrite Hv7, Hh7, (quiet_weight l' qs Hqs).
      destruct (decide (l' = l)) as [->|Hne].
      * rewrite fn_lookup_insert, bool_decide_eq_true_2, Hh5 by done. lia.
      * rewrite fn_lookup_insert_ne, bool_decide_eq_false_2 by congruence. lia.
  - intros l'. cbn. rewrite Hv7. apply Htk5.
  - intros l' t Hl. cbn. rewrite Hh7. destruct (decide (l' = l)) as [->|Hne].
    + rewrite fn_lookup_insert. right. split_and!; congruence.
    + rewrite fn_lookup_insert_ne by congruence. by left.
Qed.

Lemma quiet_step c f s s' : quiet f → token_step c F_iret s s' → token_step c f s s'.
Proof.
  intros Hf [Ha Ho (fs & Ht & Hc & Hs & Hw) Hv Hh]. split; try done.
  - exists fs. split_and!; try done.
    + intros [_ Hsh]. apply Hs. by split.
    + intros l. rewrite Hw. pose proof (quiet_weight l [f] ltac:(by constructor)) as Hw'. cbn in *. lia.
  - intros l t Hl. destruct (Hh l t Hl) as [?|(_ & _ & ?)]; [by left|done].
Qed.

Lemma tokens_quiet f s : tokens_ok f s → tokens_ok F_iret s.
Proof. intros Ht l. destruct (Ht l) as (? & ? & _). split_and!; [lia..|done|done]. Qed.

Lemma frame_step f s u s' :
  (∀ t b, f ≠ F_create t b) → tokens_ok f s → exec_frame thread_mlfqs stack_word f s = Ret (u, s') →
  token_step (current (cpu s)) f s s'.
Proof.
  intros Hf Htk H. pose proof (tokens_quiet f s Htk) as Hti.
  assert (quiet f → neutral_end (exec_frame thread_mlfqs stack_word f) → token_step (current (cpu s)) f s s') as Hq.
  { intros Hq Hn. apply still_step; [done..|]. by eapply Hn. }
  destruct f as [| | | | | | | |t|q|q old|q|q|l|l old|l|c l|c l|c l|n|n|n|n|t|t b];
    cbn [exec_frame] in H, Hq.
  all: try (apply Hq; [exact I|]; unfold iret, kernel_thread, idle, idle_loop, idle_resume, sema_up_pop,
    set_list, cond_wait, cond_signal, cond_sort_priority, cond_broadcast, exclusive_loop, shared_loop,
    release_shared, release_exclusive, allocate_tid, running_thread, sema_init, set_list, set_cond,
    set_slock_i, intr_context; ntl; fail).
  - destruct q as [|n|l|t]; try (apply Hq; [exact I|]; unfold sema_down, intr_context; ntl; fail).
    unfold sema_down, intr_context in H. apply st_bind_inv in H as (? & ? & H1 & H). st_run H1.
    apply st_bind_inv in H as (old & s1 & Hd & H). apply (intr_disable_still (current (cpu s))) in Hd as (Hst & Hth & Hcu).
    eapply still_then_step; [exact Hst|by rewrite Hth|]. rewrite <-Hcu.
    eapply (sema_down_loop_step l); [|by left|exact H]. by eapply still_tokens.
  - destruct q as [|n|l|t]; try (apply Hq; [exact I|]; ntl; fail).
    eapply (sema_down_loop_step l); [done| |exact H]. right. eauto.
  - destruct q as [|n|l|t]; try (apply Hq; [exact I|]; ntl; fail). by eapply sema_up_step.
  - apply quiet_step; [done|]. by eapply lock_acquire_step.
  - by eapply give_frame_step.
  - by eapply lock_release_step.
  - by destruct (Hf t b).
Qed.
End steps.

(** ** The invariant *)

(** Sums over all threads. *)
Fixpoint sum_over (w : tp → Z) (ts : list tp) : Z :=
  match ts with
  | [] => 0
  | t :: ts => w t + sum_over w ts
  end.

Definition total (l : lock_id) (s : kstate) : Z :=
  sum_over (λ t, weight l (stack (threads s t))) (all_list s).

Record lock_inv (s : kstate) : Prop := {
  li_value l : 0 ≤ sema_value s (LockSema l);
  li_token l : sema_value s (LockSema l) + held s l + total l s = 1;
  li_shape t : t ∈ all_list s → shape (stack (threads s t));
  li_fresh u t b : u ∈ all_list s → F_create t b ∈ stack (threads s u) → stack (threads s t) = []
}.

Lemma sum_over_ext w w' ts : (∀ t, t ∈ ts → w t = w' t) → sum_over w ts = sum_over w' ts.
Proof. induction ts as [|t ts IH]; intros H; [done|]. cbn. rewrite (H t), IH; set_solver. Qed.
Lemma sum_over_app w ts ts' : sum_over w (ts ++ ts') = sum_over w ts + sum_over w ts'.
Proof. induction ts as [|t ts IH]; cbn; [done|]. rewrite IH. lia. Qed.
Lemma sum_over_change w w' c ts :
  NoDup ts → c ∈ ts → (∀ t, t ≠ c → w t = w' t) → sum_over w' ts = sum_over w ts + w' c - w c.
Proof.
  intros Hnd (l1 & l2 & ->)%list_elem_of_split Hw. apply NoDup_app in Hnd as (_ & Hd & [Hn _]%NoDup_cons).
  rewrite !sum_over_app. cbn. rewrite (sum_over_ext w w' l1), (sum_over_ext w w' l2); [lia|..];
    intros t Ht; apply Hw; set_solver.
Qed.
Lemma sum_over_filter w c ts : NoDup ts → c ∈ ts → sum_over w ts = w c + sum_over w (filter (λ x, x ≠ c) ts).
Proof.
  intros Hnd (l1 & l2 & ->)%list_elem_of_split. apply NoDup_app in Hnd as (_ & Hd & [Hn _]%NoDup_cons).
  rewrite filter_app, filter_cons_False by auto. rewrite !filter_ne by set_solver.
  rewrite !sum_over_app. cbn. lia.
Qed.
Lemma sum_over_ge w c ts : (∀ t, t ∈ ts → 0 ≤ w t) → c ∈ ts → 0 ≤ w c ≤ sum_over w ts.
Proof.
  intros Hw Hc. split; [by apply Hw|]. induction ts as [|t ts IH]; [by apply elem_of_nil in Hc|].
  cbn. assert (∀ ts', (∀ t', t' ∈ ts' → 0 ≤ w t') → 0 ≤ sum_over w ts') as Hpos.
  { induction ts' as [|t' ts' IH']; intros Ht'; cbn; [lia|]. specialize (IH' ltac:(set_solver)).
    specialize (Ht' t' ltac:(set_solver)). lia. }
  apply elem_of_cons in Hc as [->|Hc].
  - specialize (Hpos ts ltac:(set_solver)). lia.
  - specialize (IH ltac:(set_solver) Hc). specialize (Hw t ltac:(set_solver)). lia.
Qed.

Lemma lock_tokens f s :
  lock_inv s → current (cpu s) ∈ all_list s →
  (∀ l, weight1 l f = 1 → 1 ≤ weight l (stack (threads s (current (cpu s))))) → tokens_ok f s.
Proof.
  intros [Hv Ht Hsh _] Hc Hf l. specialize (Hv l). specialize (Ht l). specialize (Hf l). set (c := current (cpu s)) in *.
  pose proof (sum_over_ge (λ t, weight l (stack (threads s t))) c (all_list s)
    (λ t Hin, proj1 (weight_nonneg l _ (Hsh t Hin))) Hc) as Hge.
  change (sum_over _ _) with (total l s) in Hge. cbn in Hge. unfold held in Ht.
  destruct (holder s l); split_and!; try lia; try done; intros Hw; try (specialize (Hf Hw)); try lia.
  split; [lia|done].
Qed.

Lemma create_pending s u t b : u ∈ all_list s → F_create t b ∈ stack (threads s u) → t ∈ pend s.
Proof.
  intros Hu Hin. unfold pend. apply list_elem_of_join. eexists.
  split; [|apply list_elem_of_fmap; by exists u]. apply list_elem_of_omap. by exists (F_create t b).
Qed.

(** A step of the running thread keeps the invariant. *)
Lemma token_step_inv s s0 f s' :
  let c := current (cpu s) in
  inv s → lock_inv s → all_list s0 = all_list s → (∀ u, u ≠ c → stack (threads s0 u) = stack (threads s u)) →
  (∀ l, sema_value s0 (LockSema l) = sema_value s (LockSema l)) → (∀ l, holder s0 l = holder s l) →
  (∀ l, weight l (stack (threads s c)) = weight1 l f + weight l (stack (threads s0 c))) →
  (shape (stack (threads s c)) → shape (f :: stack (threads s0 c))) →
  (∀ t b, F_create t b ∈ stack (threads s0 c) → F_create t b ∈ stack (threads s c)) →
  token_step c f s0 s' → lock_inv s'.
Proof.
  intros c Hi [Hv Ht Hsh Hfr] Ha0 Ho0 Hv0 Hh0 Hw0 Hs0 Hf0 [Ha Ho (gs & Htop & Hnc & Hshp & Hw) Hv' _].
  pose proof Hi as [Hb Hst _ Hc]. fold c in Hst, Hc. split.
  - done.
  - intros l. unfold total. rewrite Ha, Ha0.
    rewrite (sum_over_change (λ t, weight l (stack (threads s t))) _ c); [|apply Hb|done|].
    + change (sum_over _ _) with (total l s). rewrite Htop, weight_app, Hw0.
      specialize (Ht l). specialize (Hw l). unfold held in *. rewrite Hv0, Hh0 in Hw. lia.
    + intros t Hne. by rewrite Ho, Ho0.
  - intros t. rewrite Ha, Ha0. intros Hin. destruct (decide (t = c)) as [->|Hne]; [|rewrite Ho, Ho0 by done; auto].
    rewrite Htop. apply Hshp, Hs0, Hsh, Hc.
  - intros u t b. rewrite Ha, Ha0. intros Hu Hin.
    assert (F_create t b ∈ stack (threads s u)) as Hin'.
    { destruct (decide (u = c)) as [->|Hne]; [|by rewrite <-Ho0, <-Ho].
      rewrite Htop in Hin. apply elem_of_app in Hin as [Hin|Hin]; [by apply Hnc in Hin|by apply Hf0]. }
    pose proof (create_pending s u t b Hu Hin') as Htp.
    assert (t ≠ c) by (intros ->; apply (b_pending _ Hb) in Htp as (Hx & _); congruence).
    rewrite Ho, Ho0 by done. by eapply Hfr.
Qed.

Section reach.
Context (thread_mlfqs : bool) (stack_word : kstate → tp → Z).

(** A frame of the running thread. *)
Lemma run_tokens s f fs :
  inv s → lock_inv s → stack (threads s (current (cpu s))) = f :: fs → tokens_ok f (popped fs s).
Proof.
  intros Hi Hk Hs. pose proof Hi as [Hb _ _ Hc].
  assert (tokens_ok f s) as Ht; [|exact Ht]. apply lock_tokens; [done..|].
  intros l Hw. rewrite Hs. cbn. pose proof (li_shape _ Hk _ Hc) as Hsh. rewrite Hs in Hsh. destruct Hsh as [_ Hsh].
  pose proof (proj1 (weight_nonneg l fs Hsh)). lia.
Qed.

Lemma run_lock_inv s f fs u s' :
  inv s → lock_inv s → stack (threads s (current (cpu s))) = f :: fs → (∀ t b, f ≠ F_create t b) →
  exec_frame thread_mlfqs stack_word f (popped fs s) = Ret (u, s') →
  lock_inv s' ∧ token_step (current (cpu s)) f (popped fs s) s'.
Proof.
  intros Hi Hk Hs Hf H. apply frame_step in H; [|done|by apply run_tokens]. split; [|exact H].
  assert (threads (popped fs s) (current (cpu s)) = set_stack fs (threads s (current (cpu s)))) as Hp by apply upd_thread_eq.
  eapply (token_step_inv s (popped fs s) f); try done.
  - intros x Hx. unfold popped. by rewrite upd_thread_ne.
  - intros l. by rewrite Hs, Hp.
  - by rewrite Hs, Hp.
  - intros t b. rewrite Hs, Hp. cbn. intros. apply elem_of_cons. by right.
Qed.

(** [create_frames] moves no token: the stack of the new thread was empty. *)
Lemma create_lock_inv s t b fs u s' :
  inv s → lock_inv s → stack (threads s (current (cpu s))) = F_create t b :: fs →
  create_frames t b (popped fs s) = Ret (u, s') → lock_inv s' ∧ (∀ l, holder s' l = holder s l).
Proof.
  intros Hi [Hv Ht Hsh Hfr] Hs H. pose proof Hi as [Hb Hst _ Hc]. set (c := current (cpu s)) in *.
  destruct (popped_inv stack_word s (F_create t b) fs Hi Hs) as [_ Hm].
  destruct (Hm t eq_refl) as (Hta&Htst&_&_&_&Htp).
  assert (t ≠ c) as Htc by (intros ->; congruence).
  assert (stack (threads s t) = []) as Hst0 by (apply (Hfr c t b Hc); rewrite Hs; apply elem_of_cons; by left).
  unfold create_frames, upd in H. st_run H. apply push_run in H. subst s'. clear x.
  set (s' := upd_thread _ _ _).
  assert (stack (threads s' c) = F_unblock t :: fs) as Hsc.
  { unfold s'. cbn. fold c. rewrite fn_lookup_insert. cbn. by rewrite fn_lookup_insert_ne, fn_lookup_insert by done. }
  assert (stack (threads s' t) = F_kernel_thread :: if b then [F_idle] else []) as Hs't.
  { unfold s'. cbn. fold c. rewrite fn_lookup_insert_ne by done. by rewrite fn_lookup_insert. }
  assert (∀ x, x ≠ c → x ≠ t → stack (threads s' x) = stack (threads s x)) as Hso.
  { intros x ? ?. unfold s'. cbn. fold c. by rewrite !fn_lookup_insert_ne by done. }
  assert (∀ l x, weight l (stack (threads s' x)) = weight l (stack (threads s x))) as Hw.
  { intros l x. destruct (decide (x = c)) as [->|]; [by rewrite Hsc, Hs|].
    destruct (decide (x = t)) as [->|]; [rewrite Hs't, Hst0; by destruct b|by rewrite Hso]. }
  split; [split|done].
  - done.
  - intros l. unfold total. rewrite (sum_over_ext _ (λ x, weight l (stack (threads s x)))); [|auto]. apply Ht.
  - intros x Hx. destruct (decide (x = c)) as [->|]; [rewrite Hsc|].
    + specialize (Hsh c Hx). rewrite Hs in Hsh. done.
    + destruct (decide (x = t)) as [->|]; [rewrite Hs't; by destruct b|rewrite Hso by done; by apply Hsh].
  - intros x t' b' Hx Hin.
    assert (F_create t' b' ∈ stack (threads (popped fs s) x)) as Hin'.
    { destruct (decide (x = c)) as [->|].
      - rewrite Hsc in Hin. apply elem_of_cons in Hin as [?|Hin]; [done|].
        unfold popped. fold c. by rewrite upd_thread_eq.
      - destruct (decide (x = t)) as [->|]; [|unfold popped; fold c; by rewrite upd_thread_ne, <-Hso].
        rewrite Hs't in Hin. destruct b; set_solver. }
    pose proof (create_pending (popped fs s) x t' b' Hx Hin') as Hp.
    assert (t' ≠ t) by (intros ->; done).
    assert (F_create t' b' ∈ stack (threads s x)) as Hin0.
    { destruct (decide (x = c)) as [->|]; unfold popped in Hin'; fold c in Hin'.
      - rewrite upd_thread_eq in Hin'. rewrite Hs. apply elem_of_cons. by right.
      - by rewrite upd_thread_ne in Hin'. }
    pose proof (Hfr x t' b' Hx Hin0) as He. pose proof (create_pending s x t' b' Hx Hin0) as Hp0.
    assert (t' ≠ c) by (intros ->; apply (b_pending _ Hb) in Hp0 as (Hy & _); congruence).
    by rewrite Hso.
Qed.

Lemma neutral_calls c :
  match c with
  | LockTryAcquire _ | CreateThread _ _ | ThreadExit => True
  | _ => neutral_end (exec_call thread_mlfqs c)
  end.
Proof.
  destruct c; try done; unfold exec_call, lock_acquire_exclusive, lock_acquire_shared, lock_release_shared,
    lock_release_exclusive, timer_sleep, thread_sleep, thread_set_priority, thread_set_nice, intr_get_level; ntl.
Qed.

(** Code of the running thread that is not a frame. *)
Lemma plain_step_inv s s' :
  inv s → lock_inv s → token_step (current (cpu s)) F_iret s s' → lock_inv s'.
Proof. intros Hi Hk Ht. eapply (token_step_inv s s F_iret); try done; auto. Qed.

Lemma iret_tokens s : inv s → lock_inv s → tokens_ok F_iret s.
Proof. intros Hi Hk. apply lock_tokens; [done|apply (i_live _ Hi)|by intros l]. Qed.

(** The end of a thread, whose stack is empty. *)
Lemma exit_lock_inv s u s' :
  inv s → lock_inv s → stack (threads s (current (cpu s))) = [] → thread_exit s = Ret (u, s') →
  lock_inv s' ∧ ∀ l, holder s' l = holder s l.
Proof.
  intros Hi Hk Hs H. unfold thread_exit, intr_context, upd in H.
  apply st_bind_inv in H as (? & ? & H1 & H). st_run H1.
  apply st_bind_inv in H as (old & s1 & [-> ->]%intr_disable_run & H).
  apply st_bind_inv in H as (? & ? & [-> ->]%thread_current_run & H).
  apply st_bind_inv in H as (? & ? & H1 & H). st_run H1.
  apply st_bind_inv in H as (? & ? & H1 & H). st_run H1.
  set (s1 := with_threads _ _) in H. apply neutral_schedule in H as [Hv Hh Ha Ho (qs & Hq & Hqs)].
  set (c := current (cpu s)) in *. change (current (cpu s1)) with c in *.
  pose proof Hi as [Hb Hst _ Hc]. fold c in Hc, Hst.
  assert (∀ t, stack (threads s1 t) = stack (threads s t)) as Hs1 by (intros t; cbn; fold c; by fn_case t c).
  assert (all_list s1 = filter (λ x, x ≠ c) (all_list s)) as Ha1 by done.
  assert (∀ t, t ∈ all_list s' → t ≠ c ∧ t ∈ all_list s) as Hin.
  { intros t. rewrite Ha, Ha1, list_elem_of_filter. done. }
  assert (∀ t, t ∈ all_list s' → stack (threads s' t) = stack (threads s t)) as Hst'.
  { intros t [Hne _]%Hin. by rewrite Ho, Hs1. }
  destruct Hk as [Hkv Hkt Hksh Hkf]. split; [split|by intros l; rewrite Hh].
  - intros l. rewrite Hv. apply Hkv.
  - intros l. specialize (Hkt l). unfold total in *.
    rewrite (sum_over_filter _ c) in Hkt by (done || apply Hb). cbn in Hkt. rewrite Hs in Hkt. cbn in Hkt.
    rewrite (sum_over_ext _ (λ t, weight l (stack (threads s t)))); [|intros t Ht; by rewrite Hst'].
    rewrite Ha, Ha1. unfold held in *. rewrite Hv, Hh. cbn. lia.
  - intros t Ht. rewrite Hst' by done. apply Hksh. by apply Hin.
  - intros y t b Hx Hcr. rewrite Hst' in Hcr by done. destruct (Hin y Hx) as [_ Hx'].
    pose proof (create_pending s y t b Hx' Hcr) as Hp. apply (b_pending _ Hb) in Hp as (?&_).
    rewrite Ho, Hs1; [by eapply Hkf|]. congruence.
Qed.

(** A new thread, whose stack is empty. *)
Lemma thread_create_lock_inv page p is_idle s u s' :
  inv s → lock_inv s → (∀ t, page = Some t → t ∉ all_list s) →
  thread_create thread_mlfqs page p is_idle s = Ret (u, s') → lock_inv s' ∧ ∀ l, holder s' l = holder s l.
Proof.
  intros Hi Hk Hf H. destruct page as [t|]; [|by cbn in H; st_run H]. specialize (Hf t eq_refl).
  unfold thread_create, init_thread, upd in H.
  apply st_bind_inv in H as (? & s1 & H1 & H). apply push_run in H. subst s'.
  apply st_bind_inv in H1 as (? & ? & H2 & H1). st_run H2.
  apply st_bind_inv in H1 as (old & ? & [-> ->]%intr_disable_run & H1).
  apply st_bind_inv in H1 as (? & ? & H2 & H1). st_run H2.
  apply st_bind_inv in H1 as (? & ? & H2 & H1). st_run H2.
  destruct (neutral_bind _ _ (neutral_intr_set_level _) (λ _, neutral_ret tt) _ _ _ H1) as [Hc1 [Hv Hh Ha _ _]].
  destruct (exact_stack _ _ _ _ (pushes_bind _ _ _ (pushes_intr_set_level _ _) (λ _, pushes_ret _ tt)) H1) as [_ Hstk].
  destruct (pushes_bind (λ _, False) _ _ (pushes_intr_set_level _ _) (λ _, pushes_ret _ tt) _ _ _ H1) as [_ [Ho _ _]].
  cbn in Hc1, Hv, Hh, Ha, Hstk, Ho. set (c := current (cpu s)) in *.
  pose proof Hi as [Hb Hst _ Hc]. fold c in Hst, Hc. assert (t ≠ c) as Htc by congruence.
  rewrite fn_lookup_insert_ne in Hstk by done.
  set (gs := [F_lock_acquire TidLock; _; _; _]). set (s' := upd_thread _ _ s1).
  assert (stack (threads s' c) = gs ++ stack (threads s c)) as Hsc.
  { unfold s'. cbn. rewrite Hc1. rewrite fn_lookup_insert. cbn. by rewrite Hstk. }
  assert (stack (threads s' t) = []) as Hs't.
  { unfold s'. cbn. rewrite Hc1. rewrite fn_lookup_insert_ne by done. rewrite Ho by done. by rewrite fn_lookup_insert. }
  assert (∀ x, x ≠ c → x ≠ t → stack (threads s' x) = stack (threads s x)) as Hso.
  { intros y ? ?. unfold s'. cbn. rewrite Hc1. rewrite fn_lookup_insert_ne by done. rewrite Ho by done.
    by rewrite fn_lookup_insert_ne by done. }
  assert (∀ l x, x ∈ all_list s → weight l (stack (threads s' x)) = weight l (stack (threads s x))) as Hw.
  { intros l y Hy. assert (y ≠ t) by congruence.
    destruct (decide (y = c)) as [->|]; [by rewrite Hsc|by rewrite Hso]. }
  destruct Hk as [Hkv Hkt Hksh Hkf]. split; [split|intros l; cbn; by rewrite Hh].
  - intros l. cbn. rewrite Hv. apply Hkv.
  - intros l. specialize (Hkt l). unfold total in *. change (all_list s') with (all_list s1). rewrite Ha, sum_over_app.
    rewrite (sum_over_ext _ (λ x, weight l (stack (threads s x)))) by auto. cbn [sum_over].
    rewrite Hs't. cbn [weight]. unfold held in *. change (sema_value s') with (sema_value s1).
    change (holder s') with (holder s1). rewrite Hv, Hh. lia.
  - intros y. change (all_list s') with (all_list s1). rewrite Ha, elem_of_app, list_elem_of_singleton.
    intros [Hy| ->]; [|by rewrite Hs't]. specialize (Hksh y Hy). assert (y ≠ t) by congruence.
    destruct (decide (y = c)) as [->|]; [by rewrite Hsc|by rewrite Hso].
  - intros y t' b. change (all_list s') with (all_list s1). rewrite Ha, elem_of_app, list_elem_of_singleton.
    intros [Hy| ->] Hin; [|rewrite Hs't in Hin; by apply elem_of_nil in Hin].
    destruct (decide (t' = t)) as [->|Hne]; [done|]. assert (y ≠ t) by congruence.
    assert (F_create t' b ∈ stack (threads s y)) as Hin0.
    { destruct (decide (y = c)) as [->|]; [|by rewrite <-Hso].
      rewrite Hsc in Hin. apply elem_of_app in Hin as [Hin|?]; [|done]. unfold gs in Hin. set_solver. }
    pose proof (create_pending s y t' b Hy Hin0) as Hp. apply (b_pending _ Hb) in Hp as (?&_).
    rewrite Hso; [by eapply Hkf|congruence|done].
Qed.

(** What a step does to the holders of locks. *)
Definition holders_kept (e : event) (s s' : kstate) : Prop := ∀ l t,
  holder s l = Some t →
  holder s' l = Some t ∨
  holder s' l = None ∧ e = Run ∧ t = current (cpu s) ∧
  list.head (stack (threads s t)) = Some (F_lock_release l).

Lemma kstep_lock e s s' :
  kinv s → lock_inv s → kstep thread_mlfqs stack_word e s = Some (Ret s') → lock_inv s' ∧ holders_kept e s s'.
Proof.
  intros [Hi Hst] Hk H. unfold kstep in H. destruct e as [c| |].
  - destruct (stack _) as [|f fs] eqn:Hs; [|done]. destruct (intr_on _ && _) eqn:Hc; [|done].
    injection H as [u H]%outcome_snd. apply andb_prop in Hc as [_ Hok].
    assert (lock_inv s' ∧ (∀ l t, holder s l = Some t → holder s' l = Some t)) as [? Hh];
      [|split; [done|]; intros l t Hl; left; auto].
    pose proof (neutral_calls c) as Hn. pose proof (iret_tokens s Hi Hk) as Htk.
    assert (neutral_end (exec_call thread_mlfqs c) → lock_inv s' ∧ (∀ l t, holder s l = Some t → holder s' l = Some t)) as Hq.
    { intros Hn'. apply Hn' in H. split; [apply (plain_step_inv s); [done..|]; by apply still_step|].
      intros l t. by rewrite (st_holder _ _ _ H). }
    destruct c; try (apply Hq; exact Hn); cbn [exec_call] in H.
    + apply st_bind_inv in H as (ok & ? & H1 & H). st_run H. apply try_acquire_step in H1; [|done]. destruct ok.
      * destruct H1 as [H1 _]. split; [by apply (plain_step_inv s)|]. intros l t Hl.
        destruct (ts_holder _ _ _ _ H1 l t Hl) as [?|(_ & _ & ?)]; done.
      * split; [apply (plain_step_inv s); [done..|]; by apply still_step|].
        intros l t. by rewrite (st_holder _ _ _ H1).
    + apply thread_create_lock_inv in H as [? Hh]; [split; [done|]; intros l t; by rewrite Hh|done..|].
      intros t ->. cbn in Hok. unfold page_free in Hok. apply andb_prop in Hok as [_ Hok].
      by apply bool_decide_eq_true in Hok.
    + apply exit_lock_inv in H as [? Hh]; [split; [done|]; intros l t; by rewrite Hh|done..].
  - destruct (stack _) as [|f fs] eqn:Hs; [done|]. injection H as [u H]%outcome_snd.
    assert ((∃ t b, f = F_create t b) ∨ ∀ t b, f ≠ F_create t b) as [(t & b & ->)|Hf]
      by (destruct f; eauto; by right).
    + apply (create_lock_inv s t b fs) in H as [? Hh]; [|done..]. split; [done|]. intros l t' Hl. left. by rewrite Hh.
    + apply (run_lock_inv s f fs) in H as [? Hts]; [|done..]. split; [done|]. intros l t Hl.
      destruct (ts_holder _ _ _ _ Hts l t Hl) as [?|(? & -> & ->)]; [by left|]. right. by rewrite Hs.
  - destruct (intr_on _); [|done]. injection H as [u H]%outcome_snd.
    assert (neutral (intr_disable;; intr_handler thread_mlfqs)) as Hn.
    { pose proof (neutral_intr_handler thread_mlfqs). ntl. }
    apply Hn in H as [_ H]. pose proof (iret_tokens s Hi Hk) as Htk.
    split; [apply (plain_step_inv s); [done..|]; by apply still_step|].
    intros l t Hl. left. by rewrite (st_holder _ _ _ H).
Qed.

(** ** Booting *)

Lemma init_lock_inv u s : thread_init thread_mlfqs start_state = Ret (u, s) → lock_inv s.
Proof.
  intros H. destruct thread_mlfqs; vm_compute in H; injection H as Hu Hs; subst s; split;
    try (intros [| |]; vm_compute; done).
  all: try (intros t Ht; apply list_elem_of_singleton in Ht as ->; vm_compute; done).
  all: intros x t b Hx; apply list_elem_of_singleton in Hx as ->; cbn; set_solver.
Qed.

Lemma shape_app fs gs : shape fs → Forall quiet gs → shape (fs ++ gs).
Proof.
  intros Hs Hg. induction fs as [|f fs IH]; [apply (quiet_shape gs []) in Hg; [by rewrite app_nil_r in Hg|done]|].
  destruct Hs as [Hf Hs]. split; [|by apply IH]. cbn.
  destruct f as [| | | | | | | | |[]|[] old| | | | | | | | | | | | | |]; try done;
    destruct Hf as [o Ho]; exists o; by destruct fs.
Qed.

Lemma thread_start_lock_inv page s1 u s :
  kinv s1 → lock_inv s1 → page ≠ 1%positive → all_list s1 = [1%positive] → current (cpu s1) = 1%positive →
  thread_start thread_mlfqs (Some page) s1 = Ret (u, s) → lock_inv s.
Proof.
  intros [Hi Hst] Hk Hpage Ha Hc H. unfold thread_start, running_thread, upd in H.
  apply st_bind_inv in H as (? & s2 & H2 & H).
  assert (inv s2 ∧ lock_inv s2 ∧ all_list s2 = all_list s1) as (Hi2 & Hk2 & Ha2).
  { split_and!.
    - by eapply sema_init_inv.
    - eapply (neutral_ends (sema_init IdleStarted 0)) in H2; [|unfold sema_init, set_list; ntl].
      apply (plain_step_inv s1); [done..|]. apply still_step; [by apply iret_tokens|done|done].
    - unfold sema_init, set_value, set_list in H2. by st_run H2. }
  clear H2. apply st_bind_inv in H as (? & s3 & H3 & H). st_run H.
  assert (∀ t, Some page = Some t → t ∉ all_list s2) as Hf.
  { intros t [= <-]. rewrite Ha2, Ha, list_elem_of_singleton. done. }
  pose proof (thread_create_inv _ _ _ _ _ _ _ Hi2 Hf H3) as [Hb3 Hst3 _ _].
  apply thread_create_lock_inv in H3 as [[Hv Ht Hsh Hfr] _]; [|done..].
  set (c := current (cpu s3)). set (gs := [F_intr_enable; F_sema_down IdleStarted]).
  set (s4 := with_threads _ s3).
  assert (∀ x, stack (threads s4 x) = if bool_decide (x = c) then stack (threads s3 c) ++ gs else stack (threads s3 x)) as Hs4.
  { intros y. unfold s4. cbn. case_bool_decide; [subst y; by rewrite fn_lookup_insert|by rewrite fn_lookup_insert_ne]. }
  assert (∀ l y, weight l (stack (threads s4 y)) = weight l (stack (threads s3 y))) as Hw.
  { intros l y. rewrite Hs4. case_bool_decide; [subst y|done]. rewrite weight_app, (quiet_weight l gs); [lia|by repeat constructor]. }
  split.
  - done.
  - intros l. unfold total. rewrite (sum_over_ext _ (λ y, weight l (stack (threads s3 y)))) by auto. apply Ht.
  - intros y Hy. rewrite Hs4. case_bool_decide; [subst y|by apply Hsh]. apply shape_app; [by apply Hsh|by repeat constructor].
  - intros y t b Hy Hin.
    assert (F_create t b ∈ stack (threads s3 y)) as Hin0.
    { rewrite Hs4 in Hin. case_bool_decide; [subst y|done]. apply elem_of_app in Hin as [?|Hin]; [done|]. unfold gs in Hin. set_solver. }
    pose proof (Hfr y t b Hy Hin0) as He. rewrite Hs4. case_bool_decide as Htc; [|done].
    pose proof (create_pending s3 y t b Hy Hin0) as Hp. apply (b_pending _ Hb3) in Hp as (Hx&_).
    rewrite Htc in Hx. unfold c in Hx. congruence.
Qed.

Lemma kexec_lock es s s' :
  kinv s → lock_inv s → kexec thread_mlfqs stack_word es s = Some (Ret s') → stale s' = false → lock_inv s'.
Proof.
  revert s. induction es as [|e es IH]; intros s Hk Hl H Hst; cbn [kexec] in H; [by injection H as <-|].
  destruct (kstep _ _ e s) as [[s1| |]|] eqn:Hr; try done.
  eapply IH; [| |exact H|done]; [|by eapply kstep_lock].
  eapply kstep_kinv; [done..|]. by eapply star_fresher; [eapply kexec_star|].
Qed.

Lemma reachable_lock_inv s : reachable thread_mlfqs stack_word s → kinv s ∧ lock_inv s.
Proof.
  apply (reachable_invariant _ _ (λ s, kinv s ∧ lock_inv s)).
  - intros page s1 Hp Hb Hst. split; [by eapply boot_kinv|].
    apply boot_split in Hb as (u & s2 & s3 & u' & H0 & H1 & H).
    pose proof (init_run thread_mlfqs stack_word) as Hr.
    rewrite H0, H1 in Hr. destruct Hr as (Ha & Hid & Hc & Hsk).
    pose proof (thread_init_kinv thread_mlfqs _ _ H0) as Hk1.
    pose proof (steps_thread_start fresher_allows thread_mlfqs (fresher_init thread_mlfqs) _ _ _ _ H Hst) as Hst3.
    eapply thread_start_lock_inv; [| |exact Hp|exact Ha|exact Hc|exact H].
    + by eapply kexec_kinv.
    + eapply kexec_lock; [exact Hk1|by eapply init_lock_inv|exact H1|done].
  - intros e x y [Hx Hl] He Hst. split; [by eapply kstep_kinv|by eapply kstep_lock].
Qed.
End reach.

(** ** Mutual exclusion *)

(** C4: in every run of the kernel, as long as no [list_remove] was called on an
    element that is in no list, a lock that a thread holds stays with that
    thread until the thread itself executes [lock_release] on it: no call of any
    thread, no preemption and no exit gives a lock that is held to another
    thread or takes it away. *)
Theorem lock_mutual_exclusion m w e s s' l t :
  reachable m w s → kstep m w e s = Some (Ret s') → holder s l = Some t →
  holder s' l = Some t ∨
  holder s' l = None ∧ e = Run ∧ t = current (cpu s) ∧
  list.head (stack (threads s t)) = Some (F_lock_release l).
Proof. intros [Hk Hl]%reachable_lock_inv Hs Hh. by eapply kstep_lock. Qed.

Lemma lock_mutual_exclusion_witness :
  holder (after false (two_waiters ++ [Call (LockRelease 1)] ++ Runs 1)) (L 1) = None ∧
  (holder (after false (two_waiters ++ [Call (LockRelease 1)] ++ Runs 1)) (L 1) = Some 1%positive ∨
   holder (after false (two_waiters ++ [Call (LockRelease 1)] ++ Runs 1)) (L 1) = None ∧ Run = Run ∧
   1%positive = current (cpu (after false (two_waiters ++ [Call (LockRelease 1)]))) ∧
   list.head (stack (threads (after false (two_waiters ++ [Call (LockRelease 1)])) 1%positive)) =
     Some (F_lock_release (L 1))).
Proof.
  split; [vm_compute; reflexivity|].
  apply (lock_mutual_exclusion false no_word Run (after false (two_waiters ++ [Call (LockRelease 1)]))).
  - apply after_reachable. vm_compute. reflexivity.
  - vm_compute. reflexivity.
  - vm_compute. reflexivity.
Defined.

(** C5: as long as no [list_remove] was called on an element that is in no list,
    the semaphore of a lock is 0 or 1, and it is 1 only while nobody holds
    the lock; together with the threads that are about to release the lock or
    to take it there is exactly one token. *)
Theorem lock_token m w s l :
  reachable m w s →
  0 ≤ sema_value s (LockSema l) ≤ 1 ∧
  sema_value s (LockSema l) + (match holder s l with Some _ => 1 | None => 0 end) + total l s = 1 ∧
  (sema_value s (LockSema l) = 1 → holder s l = None).
Proof.
  intros [[Hi _] Hk]%reachable_lock_inv. destruct (iret_tokens s Hi Hk l) as (? & Hh & _).
  split_and!; [lia..|apply (li_token _ Hk)|]. intros. apply Hh. lia.
Qed.

Lemma lock_token_witness :
  let s := after false two_waiters in
  total (L 1) s = 0 ∧ holder s (L 1) = Some 1%positive ∧
  (0 ≤ sema_value s (LockSema (L 1)) ≤ 1 ∧
   sema_value s (LockSema (L 1)) + (match holder s (L 1) with Some _ => 1 | None => 0 end) + total (L 1) s = 1 ∧
   (sema_value s (LockSema (L 1)) = 1 → holder s (L 1) = None)).
Proof.
  split; [vm_compute; reflexivity|]. split; [vm_compute; reflexivity|].
  apply (lock_token false no_word). apply after_reachable. vm_compute. reflexivity.
Defined.
