(* ===== verification/SchedSpec.v ===== *)
(** * What the operations on threads and locks compute

    Which sleepers a tick wakes, which waiter [sema_up] wakes, where donation
    goes, and the priority that [lock_release] leaves. *)

From stdpp Require Import functions.
From stdpp Require Import base tactics list numbers option sorting sets.
From Stdlib Require Import ZArith Lia.
From S2P Require Import Prelude LinkedList ListOps FixedPoint KState Thread Synch Machine.
From S2P Require Import KernelInv KernelPass KernelOps KernelStacks KernelReach KernelRuns.

Local Open Scope Z_scope.

(** ** No interrupt is being handled between steps *)

Definition ext (s : kstate) : bool := in_external_intr (cpu s).

Definition calm (s : kstate) : Prop := ext s = false.

Lemma calm_allows : allows (keeping calm).
Proof. split; unfold keeping, calm, ext; auto. intros f s Hf. cbn. by rewrite Hf. Qed.

(** Any change of a thread will do. *)
Lemma calm_upd t f : steps (keeping calm) (upd t f).
Proof. apply steps_modify. intros s Hs. exact Hs. Qed.
#[local] Hint Resolve calm_upd calm_allows : steps.
#[local] Hint Resolve steps_intr_disable steps_intr_enable steps_intr_set_level steps_intr_yield
  steps_thread_current steps_top_pri steps_update_elem steps_held : steps.

(** The handler leaves the flag cleared. *)
Lemma handler_calm m s u s' : intr_handler m s = Ret (u, s') → calm s'.
Proof.
  unfold intr_handler. intros H. pose proof calm_allows as HR.
  do 7 (apply st_bind_inv in H as (? & ? & _ & H)).
  apply st_bind_inv in H as (? & s1 & H1 & H).
  assert (calm s1) as E by (unfold cpu_do in H1; st_run H1; done).
  assert (steps (keeping calm) (s ← getS; if yield_on_return (cpu s) then push [F_yield; F_iret] else push [F_iret]))
    as Hc by stp. exact (Hc _ _ _ H E).
Qed.

Lemma reachable_calm m w s : reachable m w s → ext s = false.
Proof.
  intros [Hr _]. pose proof calm_allows as HR. revert s Hr. apply (runs_keeping m w calm); try done; intros.
  - unfold thread_calculate_priority, intr_context. stp.
  - unfold thread_set_nice, thread_calculate_priority, intr_context. stp.
  - unfold thread_set_priority. stp.
  - unfold init_thread. stp.
  - assert (∀ n o, steps (keeping calm) (lock_donate_loop n o p)) by (induction n; cbn; stp).
    unfold lock_donate. stp.
  - unfold lock_release, next_potential_donation, set_holder. stp.
  - intros a u b Hb _. by eapply handler_calm.
Qed.

(** ** Waking sleepers *)

(** The time a thread asked for has passed. *)
Definition elapsed (s : kstate) (t : tp) : bool :=
  sleep (threads s t) <=? s64 (ticks (cpu s) - start (threads s t)).

Definition wake (s : kstate) (t : tp) : kstate := if elapsed s t then enqueue ReadyList t s else s.

Lemma update_timers_loop_run ts s : update_timers_loop ts s = Ret (tt, foldl wake s ts).
Proof.
  revert s. induction ts as [|t ts IH]; intros s; [done|]. cbn [update_timers_loop foldl].
  unfold get, timer_elapsed. do 3 (erewrite st_bind_ret; [|reflexivity]).
  unfold wake at 2, elapsed. destruct (_ <=? _); (erewrite st_bind_ret; [apply IH|reflexivity]).
Qed.

Lemma wake_elapsed s t u : t ≠ u → elapsed (wake s t) u = elapsed s u.
Proof. intros Hne. unfold wake. destruct (elapsed s t); [|done]. unfold elapsed. cbn. by rewrite fn_lookup_insert_ne. Qed.

(** The threads of [ts] that are woken. *)
Definition woken (s : kstate) (ts : list tp) (t : tp) : Prop := t ∈ ts ∧ elapsed s t = true.
#[global] Instance woken_dec s ts t : Decision (woken s ts t).
Proof. unfold woken. apply _. Defined.

Lemma woken_cons s t ts x :
  (t ∉ ts) → woken s (t :: ts) x ↔ x = t ∧ elapsed s t = true ∨ woken (wake s t) ts x.
Proof.
  intros Ht. unfold woken. rewrite elem_of_cons. split.
  - intros [[->|Hx] He]; [by left|right]. split; [done|]. rewrite wake_elapsed; [done|congruence].
  - intros [[-> He]|[Hx He]]; [auto|]. split; [auto|]. rewrite wake_elapsed in He; [done|congruence].
Qed.

Lemma wake_list_spec ts s :
  NoDup ts →
  let s' := foldl wake s ts in
  sleeping_list s' = filter (λ t, ¬ woken s ts t) (sleeping_list s) ∧
  (∀ t, t ∈ lists s' ReadyList ↔ t ∈ lists s ReadyList ∨ woken s ts t) ∧
  (∀ t, threads s' t = if decide (woken s ts t)
          then set_status THREAD_READY (set_thread_pl (Some ReadyList) (threads s t)) else threads s t).
Proof.
  revert s. induction ts as [|t ts IH]; intros s Hnd; cbn [foldl].
  - assert (∀ x, ¬ woken s [] x) as Hn by (intros x [Hx _]; by apply elem_of_nil in Hx).
    split_and!; [by rewrite filter_all by auto| |].
    + intros x. specialize (Hn x). tauto.
    + intros x. by rewrite decide_False by auto.
  - apply NoDup_cons in Hnd as [Ht Hnd]. destruct (IH (wake s t) Hnd) as (Hs & Hl & Hth). clear IH.
    pose proof (λ x, woken_cons s t ts x Ht) as Hw.
    assert (¬ woken (wake s t) ts t) as Hnt by (intros [? _]; done).
    destruct (elapsed s t) eqn:Et.
    + assert (wake s t = enqueue ReadyList t s) as Hwk by (unfold wake; by rewrite Et).
      assert (sleeping_list (wake s t) = filter (λ x, x ≠ t) (sleeping_list s)) as Hsl by by rewrite Hwk.
      assert (∀ x, x ∈ lists (wake s t) ReadyList ↔ x = t ∨ x ∈ lists s ReadyList) as Hrl.
      { intros x. rewrite Hwk. cbn. by rewrite fn_lookup_insert, insert_sorted_in. }
      assert (∀ x, threads (wake s t) x = if decide (x = t)
        then set_status THREAD_READY (set_thread_pl (Some ReadyList) (threads s t)) else threads s x) as Htl.
      { intros x. rewrite Hwk. unfold enqueue. destruct (decide (x = t)) as [->|];
          [by rewrite upd_thread_eq|by rewrite upd_thread_ne]. }
      clear Hwk. split_and!.
      * rewrite Hs, Hsl, list_filter_filter. apply list_filter_iff. intros x. rewrite Hw. naive_solver.
      * intros x. rewrite Hl, Hw, Hrl. naive_solver.
      * intros x. rewrite Hth, Htl. destruct (decide (x = t)) as [->|Hx].
        -- rewrite decide_False by done. by rewrite decide_True by (apply Hw; auto).
        -- apply decide_ext. rewrite Hw. naive_solver.
    + assert (wake s t = s) as Hwk by (unfold wake; by rewrite Et).
      assert (∀ x, woken s (t :: ts) x ↔ woken s ts x) as Hw' by (intros x; rewrite Hw, Hwk; naive_solver).
      rewrite Hwk in *. split_and!.
      * rewrite Hs. apply list_filter_iff. intros x. by rewrite Hw'.
      * intros x. by rewrite Hl, Hw'.
      * intros x. rewrite Hth. apply decide_ext. by rewrite Hw'.
Qed.

(** C24: as long as no [list_remove] was called on an element that is in no list,
    [thread_update_timers], called at each tick, always returns; it moves
    exactly the sleeping threads whose time has passed to the run queue, in
    order of priority, marks them ready, leaves the other sleepers asleep in
    their order and changes nothing else of any thread. *)
Theorem sleepers_wake_exactly m w s :
  reachable m w s →
  ∃ s', thread_update_timers s = Ret (tt, s') ∧ inv s' ∧
    sleeping_list s' = filter (λ t, elapsed s t = false) (sleeping_list s) ∧
    (∀ t, t ∈ lists s' ReadyList ↔ t ∈ lists s ReadyList ∨ t ∈ sleeping_list s ∧ elapsed s t = true) ∧
    (∀ t, threads s' t = if bool_decide (t ∈ sleeping_list s) && elapsed s t
            then set_status THREAD_READY (set_thread_pl (Some ReadyList) (threads s t)) else threads s t).
Proof.
  intros [Hi _]%reachable_kinv. pose proof (b_sleeping _ (i_base _ Hi)) as Hnd.
  assert (thread_update_timers s = Ret (tt, foldl wake s (sleeping_list s))) as Hr.
  { unfold thread_update_timers. erewrite st_bind_ret; [|reflexivity]. apply update_timers_loop_run. }
  destruct (wake_list_spec (sleeping_list s) s Hnd) as (Hs & Hl & Hth).
  eexists. split_and!; [exact Hr|by eapply update_timers_inv| |exact Hl|].
  - rewrite Hs. apply filter_ext_in. intros t Ht. unfold woken. destruct (elapsed s t); naive_solver.
  - intros t. rewrite Hth. case_decide as Hd; unfold woken in Hd.
    + destruct Hd as [? ->]. by rewrite bool_decide_eq_true_2.
    + case_bool_decide; [|done]. destruct (elapsed s t); [|done]. naive_solver.
Qed.

(** Two sleepers: the one that asked for one tick is woken by the next. *)
Definition sleepers : list event :=
  start_up ++ [Call (CreateThread (Some 3%positive) 40)] ++ Runs 8 ++ [Call (TimerSleep 0)] ++ Runs 2 ++
  [Call (CreateThread (Some 4%positive) 40)] ++ Runs 8 ++ [Call (TimerSleep 7)] ++ Runs 2.

Lemma sleepers_wake_exactly_witness :
  let s := after false sleepers in
  sleeping_list s = [3%positive; 4%positive] ∧
  ∃ s', thread_update_timers s = Ret (tt, s') ∧ inv s' ∧
    sleeping_list s' = filter (λ t, elapsed s t = false) (sleeping_list s) ∧
    (∀ t, t ∈ lists s' ReadyList ↔ t ∈ lists s ReadyList ∨ t ∈ sleeping_list s ∧ elapsed s t = true) ∧
    (∀ t, threads s' t = if bool_decide (t ∈ sleeping_list s) && elapsed s t
            then set_status THREAD_READY (set_thread_pl (Some ReadyList) (threads s t)) else threads s t).
Proof.
  split; [vm_compute; reflexivity|]. apply (sleepers_wake_exactly false no_word).
  apply after_reachable. vm_compute. reflexivity.
Defined.

(** ** Waking a waiter *)

Lemma current_runs s :
  magic (threads s (current (cpu s))) = true → status (threads s (current (cpu s))) = THREAD_RUNNING →
  thread_current s = Ret (current (cpu s), s).
Proof.
  intros Hm Hst. unfold thread_current, running_thread, is_thread, get.
  unfold mbind, st_bind, gets, mret, st_ret, assertS. rewrite Hm, Hst. done.
Qed.

Lemma thread_current_ok s : inv s → thread_current s = Ret (current (cpu s), s).
Proof. intros [Hb Hst _ Ha]. destruct (b_live _ Hb _ Ha) as [Hm _]. by apply current_runs. Qed.

Lemma held_ok s l : inv s → lock_held_by_current_thread l s = Ret (bool_decide (holder s l = Some (current (cpu s))), s).
Proof.
  intros Hi. unfold lock_held_by_current_thread. rewrite (st_bind_ret _ _ _ s s) by done.
  by rewrite (st_bind_ret _ _ _ _ _ (thread_current_ok s Hi)).
Qed.

(** The level is restored outside of interrupts. *)
Lemma intr_set_level_ok on s :
  in_external_intr (cpu s) = false →
  intr_set_level on s = Ret (intr_on (cpu s), with_cpu (set_intr_on on (cpu s)) s).
Proof.
  intros Hx. destruct on; [|done]. unfold intr_set_level, intr_enable, intr_get_level, intr_context, cpu_do.
  unfold mbind, st_bind, gets, mret, st_ret, assertS, modifyS. by rewrite Hx.
Qed.

Lemma get_priority_ok s :
  magic (threads s (current (cpu s))) = true → status (threads s (current (cpu s))) = THREAD_RUNNING →
  intr_on (cpu s) = false → thread_get_priority s = Ret (priority (threads s (current (cpu s))), s).
Proof.
  intros Hm Hst Hoff. unfold thread_get_priority, intr_disable. erewrite st_bind_ret; [|reflexivity].
  assert (with_cpu (set_intr_on false (cpu s)) s = s) as ->.
  { destruct s as [? ? ? ? ? ? ? ? c ?]. destruct c. cbn in Hoff. by rewrite Hoff. }
  rewrite (st_bind_ret _ _ _ _ _ (current_runs s Hm Hst)). erewrite st_bind_ret; [|reflexivity]. rewrite Hoff.
  unfold intr_set_level, intr_disable. erewrite st_bind_ret; [reflexivity|].
  erewrite st_bind_ret; [|reflexivity]. 
  destruct s as [? ? ? ? ? ? ? ? c ?]. destruct c. cbn in Hoff. by rewrite Hoff.
Qed.

(** What [thread_unblock] does for a blocked thread. *)
Record unblocked (t : tp) (s s' : kstate) : Prop := {
  ub_ready : lists s' ReadyList = insert_sorted (thread_cmp (threads s)) t (lists s ReadyList);
  ub_lists l : l ≠ ReadyList → lists s' l = lists s l;
  ub_status : status (threads s' t) = THREAD_READY ∧ thread_pl (threads s' t) = Some ReadyList;
  ub_priority u : priority (threads s' u) = priority (threads s u);
  ub_other u : u ≠ t → status (threads s' u) = status (threads s u);
  ub_value : sema_value s' = sema_value s;
  ub_current : current (cpu s') = current (cpu s);
  ub_stack u : stack (threads s' u) =
    (if bool_decide (u = current (cpu s)) && intr_on (cpu s) &&
        (priority (threads s (current (cpu s))) <?
         match lists s' ReadyList with [] => PRI_MIN | x :: _ => priority (threads s x) end)
     then [F_yield; F_intr_set_level true] else []) ++ stack (threads s u)
}.

Ltac rstep := erewrite st_bind_ret; [|reflexivity].

Lemma unblock_run t s :
  magic (threads s (current (cpu s))) = true → status (threads s (current (cpu s))) = THREAD_RUNNING →
  in_external_intr (cpu s) = false → magic (threads s t) = true → status (threads s t) = THREAD_BLOCKED →
  ∃ s', thread_unblock t s = Ret (tt, s') ∧ unblocked t s s'.
Proof.
  intros Hmc Hsc Hx Hm Hst. set (c := current (cpu s)) in *. assert (c ≠ t) as Hne by congruence.
  unfold thread_unblock. erewrite st_bind_ret; [|rstep; apply assertS_true; exact Hm].
  unfold intr_disable. rewrite (st_bind_ret _ _ s (intr_on (cpu s)) (with_cpu (set_intr_on false (cpu s)) s)) by reflexivity.
  erewrite st_bind_ret; [|rstep; apply assertS_true; by rewrite bool_decide_eq_true_2].
  rstep. rstep. set (s1 := with_threads _ _).
  assert (threads s1 t = set_status THREAD_READY (set_thread_pl (Some ReadyList) (threads s t))) as Ht1
    by (unfold s1; cbn; by rewrite fn_lookup_insert).
  assert (∀ u, u ≠ t → threads s1 u = threads s u) as Ho1 by (intros; unfold s1; cbn; by rewrite fn_lookup_insert_ne).
  assert (cpu s1 = set_intr_on false (cpu s) ∧ sema_value s1 = sema_value s) as [Hc1 Hv1] by done.
  assert (lists s1 ReadyList = insert_sorted (thread_cmp (threads s)) t (lists s ReadyList)) as Hr1
    by (unfold s1; cbn; by rewrite fn_lookup_insert).
  assert (∀ l, l ≠ ReadyList → lists s1 l = lists s l) as Hl1 by (intros; unfold s1; cbn; by rewrite fn_lookup_insert_ne).
  clearbody s1. assert (∀ u, priority (threads s1 u) = priority (threads s u)) as Hp1.
  { intros u. destruct (decide (u = t)) as [->|]; [by rewrite Ht1|by rewrite Ho1]. }
  assert (∀ u, stack (threads s1 u) = stack (threads s u)) as Hk1.
  { intros u. destruct (decide (u = t)) as [->|]; [by rewrite Ht1|by rewrite Ho1]. }
  assert (thread_get_priority s1 = Ret (priority (threads s c), s1)) as Hg.
  { rewrite get_priority_ok; rewrite ?Hc1; cbn; fold c; rewrite ?Hp1, ?Ho1; done. }
  rewrite (st_bind_ret _ _ _ _ _ Hg). rstep. set (top := match lists s1 ReadyList with [] => _ | _ => _ end).
  assert (top = match lists s1 ReadyList with [] => PRI_MIN | x :: _ => priority (threads s x) end) as Etop.
  { unfold top. destruct (lists s1 ReadyList); [done|apply Hp1]. }
  destruct (priority (threads s c) <? top) eqn:Ep, (intr_on (cpu s)) eqn:Eon; cbn [andb].
  1: { eexists. split; [unfold push, running_thread, upd; rstep; reflexivity|]. rewrite Hc1. cbn. fold c.
    split; cbn; try done.
    - rewrite fn_lookup_insert_ne by done. by rewrite Ht1.
    - intros u. fn_case u c; cbn; apply Hp1.
    - intros u Hu. fn_case u c; cbn; by rewrite Ho1.
    - by rewrite Hc1.
    - intros u. fold c. rewrite Eon, <-Etop, Ep. fn_case u c; [by rewrite bool_decide_eq_true_2, Hk1|].
      rewrite bool_decide_eq_false_2 by done. apply Hk1. }
  all: (erewrite st_bind_ret; [|apply intr_set_level_ok; by rewrite Hc1]); eexists; (split; [reflexivity|]);
    split; cbn; try done; [by rewrite Ht1|intros u Hu; by rewrite Ho1|by rewrite Hc1|intros u; fold c; rewrite Eon, <-Etop, Ep, ?andb_false_r; apply Hk1].
Qed.

(** Only the stack of the current thread has changed. *)
Definition restacked (fs : list frame) (s s' : kstate) : Prop :=
  cpu s' = cpu s ∧
  ∀ u, threads s' u = if decide (u = current (cpu s)) then set_stack fs (threads s u) else threads s u.

Lemma sema_up_first m w q fs s :
  in_external_intr (cpu s) = false → stack (threads s (current (cpu s))) = F_sema_up q :: fs →
  ∃ s', kstep m w Run s = Some (Ret s') ∧ lists s' = lists s ∧
    sema_value s' = <[q := u32 (sema_value s q + 1)]> (sema_value s) ∧
    restacked (match lists s (Waiters q) with
               | [] => fs | _ => F_sema_up_pop q :: F_intr_set_level (intr_on (cpu s)) :: fs end) s s'.
Proof.
  intros Hx Hs. unfold kstep. rewrite Hs. cbn [exec_frame]. set (s0 := with_threads _ s).
  unfold sema_up, intr_disable, set_value. rewrite (st_bind_ret _ _ s0 (intr_on (cpu s)) (with_cpu (set_intr_on false (cpu s)) s0)) by reflexivity.
  do 2 rstep. cbn [lists with_cpu s0 with_threads].
  assert (∀ b, set_intr_on (intr_on b) (set_intr_on false b) = b) as Hback by (by intros []).
  destruct (lists s (Waiters q)) as [|t ts].
  - erewrite st_bind_ret; [|apply intr_set_level_ok; done]. eexists. split; [reflexivity|]. cbn. rewrite Hback.
    do 2 (split; [done|]). split; [done|]. intros u. cbn.
    case_decide as Hu; [subst u; by rewrite fn_lookup_insert|by rewrite fn_lookup_insert_ne].
  - erewrite st_bind_ret; [|apply intr_set_level_ok; done]. unfold push, running_thread, upd. rstep.
    eexists. split; [reflexivity|]. cbn. rewrite Hback. do 2 (split; [done|]). split; [done|]. intros u. cbn.
    case_decide as Hu; [subst u; by rewrite !fn_lookup_insert|by rewrite !fn_lookup_insert_ne].
Qed.

Lemma sema_up_second m w q fs s t rest :
  stack (threads s (current (cpu s))) = F_sema_up_pop q :: fs → lists s (Waiters q) = t :: rest →
  ∃ s', kstep m w Run s = Some (Ret s') ∧ lists s' = <[Waiters q := rest]> (lists s) ∧
    sema_value s' = sema_value s ∧ restacked (F_unblock t :: fs) s s'.
Proof.
  intros Hs Hl. unfold kstep. rewrite Hs. cbn [exec_frame]. set (s0 := with_threads _ s). unfold sema_up_pop, set_list.
  rstep. change (lists s0 (Waiters q)) with (lists s (Waiters q)). rewrite Hl. rstep.
  unfold push, running_thread, upd. rstep. eexists. split; [reflexivity|]. do 2 (split; [done|]). split; [done|]. intros u. cbn.
  case_decide as Hu; [subst u; by rewrite !fn_lookup_insert|by rewrite !fn_lookup_insert_ne].
Qed.

(** The first thread of a list in order has the highest priority. *)
Lemma in_order_first f t (ts : list tp) u :
  in_order (thread_cmp f) (t :: ts) → u ∈ t :: ts → priority (f u) ≤ priority (f t).
Proof.
  intros [Ho _]%in_order_priorities%StronglySorted_cons Hu. rewrite Forall_forall in Ho.
  apply elem_of_cons in Hu as [->|Hu]; [lia|by apply Ho].
Qed.

(** What [sema_up] does to wake the waiter [t]. *)
Record wakes (q : sema_id) (t : tp) (s s' : kstate) : Prop := {
  wo_highest u : u ∈ lists s (Waiters q) → priority (threads s u) ≤ priority (threads s t);
  wo_waiters : lists s (Waiters q) = t :: lists s' (Waiters q);
  wo_ready x : x ∈ lists s' ReadyList ↔ x = t ∨ x ∈ lists s ReadyList;
  wo_lists l : l ≠ ReadyList → l ≠ Waiters q → lists s' l = lists s l;
  wo_status : status (threads s' t) = THREAD_READY ∧ thread_pl (threads s' t) = Some ReadyList;
  wo_other u : u ≠ t → status (threads s' u) = status (threads s u);
  wo_priority u : priority (threads s' u) = priority (threads s u);
  wo_value : sema_value s' = <[q := u32 (sema_value s q + 1)]> (sema_value s);
  wo_current : current (cpu s') = current (cpu s);
  wo_yield : intr_on (cpu s) = true → priority (threads s (current (cpu s))) < priority (threads s t) →
    list.head (stack (threads s' (current (cpu s)))) = Some F_yield
}.

Lemma woken_waiter q t rest c on fs s s3 s' :
  inv s → lists s (Waiters q) = t :: rest → c = current (cpu s) → cpu s3 = cpu s →
  (∀ u, threads s3 u = if decide (u = c) then set_stack (F_intr_set_level on :: fs) (threads s u) else threads s u) →
  lists s3 = <[Waiters q := rest]> (lists s) →
  sema_value s3 = <[q := u32 (sema_value s q + 1)]> (sema_value s) → unblocked t s3 s' → wakes q t s s'.
Proof.
  intros Hi Hq -> Hc Ht Hl Hv [Hur Hul Hus Hup Huo Huv Huc Huk].
  assert (∀ u, priority (threads s3 u) = priority (threads s u)) as Hp by (intros u; rewrite Ht; by case_decide).
  assert (lists s3 ReadyList = lists s ReadyList) as Hr by (by rewrite Hl, fn_lookup_insert_ne).
  pose proof (b_order _ (i_base _ Hi)) as Ho. split.
  - intros u Hu. eapply in_order_first; [|by rewrite <-Hq]. by rewrite <-Hq.
  - by rewrite Hul, Hl, fn_lookup_insert, Hq.
  - intros x. by rewrite Hur, insert_sorted_in, Hr.
  - intros l Hlr Hlq. by rewrite Hul, Hl, fn_lookup_insert_ne.
  - done.
  - intros u Hu. rewrite Huo, Ht by done. by case_decide.
  - intros u. by rewrite Hup.
  - congruence.
  - congruence.
  - intros Hon Hlt. rewrite Huk, Hc, Hon, Hp, bool_decide_eq_true_2 by done. cbn [andb].
    assert (in_order (thread_cmp (threads s)) (lists s' ReadyList)) as Hos.
    { rewrite Hur, Hr. apply (in_order_ext (threads s3)); [intros; by rewrite Hp|]. apply insert_sorted_in_order.
      apply (in_order_ext (threads s)); [intros; by rewrite Hp|done]. }
    assert (t ∈ lists s' ReadyList) as Hin by (rewrite Hur, insert_sorted_in; by left).
    destruct (lists s' ReadyList) as [|x xs]; [by apply elem_of_nil in Hin|].
    pose proof (in_order_first _ _ _ _ Hos Hin). rewrite Hp. by replace (_ <? _) with true by lia.
Qed.

(** C25: as long as no [list_remove] was called on an element that is in no list,
    [sema_up], when nothing interrupts it, always gets to its end.  Without
    waiters it adds one to the value and does nothing else.  With waiters it
    also takes the first of them out of the list, which is one of the highest
    priority among them, and makes it ready: the waiter has the status of a
    ready thread, is on the run queue, and no other thread is
    moved.  When interrupts are on and the waiter has a higher priority than
    the thread that woke it, that thread yields next. *)
Theorem sema_up_wakes_highest m w s q fs :
  reachable m w s → stack (threads s (current (cpu s))) = F_sema_up q :: fs →
  match lists s (Waiters q) with
  | [] => ∃ s', kstep m w Run s = Some (Ret s') ∧ lists s' = lists s ∧ restacked fs s s' ∧
            sema_value s' = <[q := u32 (sema_value s q + 1)]> (sema_value s)
  | t :: _ => ∃ s', kexec m w [Run; Run; Run] s = Some (Ret s') ∧ wakes q t s s'
  end.
Proof.
  intros Hre Hs. pose proof (reachable_calm _ _ _ Hre) as Hx. apply reachable_kinv in Hre as [Hi _].
  destruct (sema_up_first m w q fs s Hx Hs) as (s1 & E1 & Hl1 & Hv1 & Hc1 & Ht1).
  destruct (lists s (Waiters q)) as [|t rest] eqn:Hq; [exists s1; by split_and!|].
  destruct (sema_up_second m w q (F_intr_set_level (intr_on (cpu s)) :: fs) s1 t rest) as (s2 & E2 & Hl2 & Hv2 & Hc2 & Ht2);
    [by rewrite Hc1, Ht1, decide_True|by rewrite Hl1|].
  set (c := current (cpu s)) in *. rewrite Hc1 in Hc2, Ht2. fold c in Ht2.
  destruct (b_live _ (i_base _ Hi) _ (i_live _ Hi)) as [Hmc _]. pose proof (i_status _ Hi) as Hsc. fold c in Hmc, Hsc.
  destruct (b_in _ (i_base _ Hi) (Waiters q) t) as (_ & Hst & Hal & _); [rewrite Hq; set_solver|].
  destruct (b_live _ (i_base _ Hi) _ Hal) as [Hmt _]. assert (t ≠ c) as Hne by (intros ->; by rewrite Hsc in Hst).
  cbn [kexec]. rewrite E1, E2. unfold kstep at 1. rewrite Hc2. fold c. rewrite Ht2, decide_True by done.
  cbn [stack set_stack exec_frame]. set (s3 := with_threads _ s2).
  assert (∀ u, threads s3 u = if decide (u = c) then set_stack (F_intr_set_level (intr_on (cpu s)) :: fs) (threads s u) else threads s u) as Ht3.
  { intros u. unfold s3. cbn. case_decide as Hu; [subst u; by rewrite fn_lookup_insert, Ht1, decide_True|].
    by rewrite fn_lookup_insert_ne, Ht2, Ht1, !decide_False. }
  assert (cpu s3 = cpu s ∧ lists s3 = <[Waiters q := rest]> (lists s) ∧ sema_value s3 = sema_value s1) as (Hc3 & Hl3 & Hv3).
  { unfold s3. cbn. by rewrite Hl2, Hl1. } clearbody s3.
  destruct (unblock_run t s3) as (s' & -> & Hu); [rewrite ?Hc3, ?Ht3; fold c; repeat case_decide; done..|].
  exists s'. split; [done|]. eapply (woken_waiter q t rest c _ fs s s3 s'); [done..|exact Ht3|done|congruence|done].
Qed.

Definition sema_waiter : list event :=
  start_up ++ [Call (CreateThread (Some 3%positive) 40)] ++ Runs 8 ++ [Call (SemaDown 1)] ++ Runs 3 ++
  [Call (SemaUp 1)].

Lemma sema_up_wakes_highest_witness :
  let s := after false sema_waiter in
  lists s (Waiters (Sema 1)) = [3%positive] ∧
  ∃ s', kexec false no_word [Run; Run; Run] s = Some (Ret s') ∧ wakes (Sema 1) 3%positive s s'.
Proof.
  assert (lists (after false sema_waiter) (Waiters (Sema 1)) = [3%positive]) as Hl by (vm_compute; reflexivity).
  split; [exact Hl|]. pose proof (sema_up_wakes_highest false no_word (after false sema_waiter) (Sema 1) []) as H.
  rewrite Hl in H. apply H.
  - apply after_reachable. vm_compute. reflexivity.
  - vm_compute. reflexivity.
Defined.

(** ** Releasing a lock *)

(** The highest priority among the first waiters of locks. *)
Definition best_donation (s : kstate) (ls : list lock_id) : Z :=
  foldr (λ l p, waiters_top s l `max` p) 0 ls.

Lemma best_donation_nonneg s ls : 0 ≤ best_donation s ls.
Proof. induction ls as [|l ls IH]; cbn; [lia|]. change (foldr _ _ ls) with (best_donation s ls). lia. Qed.

Lemma potential_loop_max s ls p : 0 ≤ p → potential_loop s ls p = p `max` best_donation s ls.
Proof.
  revert p. induction ls as [|l ls IH]; intros p Hp; cbn [potential_loop]; [cbn; lia|].
  change (best_donation s (l :: ls)) with (waiters_top s l `max` best_donation s ls).
  rewrite IH by (destruct (_ <? _) eqn:?; lia).
  destruct (p <? waiters_top s l) eqn:E; lia.
Qed.

(** The priority a thread falls back to when it holds the locks [ls]. *)
Definition fallback (s : kstate) (t : tp) (ls : list lock_id) : Z :=
  match ls with
  | [] => original_priority (threads s t)
  | _ => original_priority (threads s t) `max` best_donation s ls
  end.

(** The waiters do not see the changes that the holder makes to itself. *)
Lemma best_donation_ext s s' t ls :
  (∀ l, lists s' l = lists s l) → (∀ u, u ≠ t → priority (threads s' u) = priority (threads s u)) →
  (∀ l, t ∉ lists s l) → best_donation s' ls = best_donation s ls.
Proof.
  intros Hl Hp Ht. unfold best_donation. induction ls as [|l ls IH]; [done|]. cbn. rewrite IH. f_equal.
  unfold waiters_top. rewrite Hl. destruct (lists s (Waiters (LockSema l))) as [|u us] eqn:E; [done|].
  apply Hp. intros ->. apply (Ht (Waiters (LockSema l))). rewrite E. set_solver.
Qed.

(** What [lock_release] does to the thread that releases. *)
Definition released (m : bool) (s : kstate) (l : lock_id) (r : thread) : thread :=
  let ls := filter (λ x, x ≠ l) (acquired_locks r) in
  let p := fallback s (current (cpu s)) ls in
  set_stack (F_sema_up (LockSema l) :: stack r)
    (if m then set_acquired ls r
     else set_donated (original_priority r <? p) (set_priority p (set_acquired ls r))).

(** The priority that [lock_release] computes, once the lock is off the list. *)
Lemma release_priority_run (m : bool) t s s2 ls :
  (∀ l, t ∉ lists s l) → threads s2 t = set_acquired ls (threads s t) →
  (∀ u, u ≠ t → threads s2 u = threads s u) → lists s2 = lists s →
  ∃ s3, (if m then mret tt
         else
           upd t (λ r, set_priority (original_priority r) r);; upd t (set_donated false);;
           ls ← get t acquired_locks;
           match ls with
           | [] => mret tt
           | _ =>
               max_donatable_pri ← next_potential_donation t;
               o ← get t original_priority;
               if o <? max_donatable_pri then upd t (set_priority max_donatable_pri);; upd t (set_donated true)
               else mret tt
           end) s2 = Ret (tt, s3) ∧ cpu s3 = cpu s2 ∧ lists s3 = lists s2 ∧ holder s3 = holder s2 ∧
    threads s3 t = (if m then set_acquired ls (threads s t) else
      set_donated (original_priority (threads s t) <? fallback s t ls)
        (set_priority (fallback s t ls) (set_acquired ls (threads s t)))) ∧
    ∀ u, u ≠ t → threads s3 u = threads s u.
Proof.
  intros Hn Ht2 Ho2 Hl2. set (r := threads s t) in *. unfold upd, get. destruct m; [by exists s2|]. erewrite st_bind_ret; [|reflexivity]. erewrite st_bind_ret; [|reflexivity].
  set (s3 := with_threads _ (with_threads _ s2)).
  assert (threads s3 t = set_donated false (set_priority (original_priority r) (set_acquired ls r))) as Ht3.
  { unfold s3. cbn. rewrite !fn_lookup_insert. by rewrite Ht2. }
  assert (∀ u, u ≠ t → threads s3 u = threads s u) as Ho3.
  { intros u Hu. unfold s3. cbn. rewrite !fn_lookup_insert_ne by done. by apply Ho2. }
  assert (cpu s3 = cpu s2 ∧ lists s3 = lists s2 ∧ holder s3 = holder s2) as (Hc3 & Hl3 & Hh3) by done.
  clearbody s3. erewrite st_bind_ret; [|reflexivity]. cbv beta. rewrite Ht3.
  cbn [acquired_locks set_donated set_priority set_acquired]. unfold fallback.
  destruct ls as [|l0 ls'] eqn:Els.
  { exists s3. split_and!; try done. rewrite Ht3. cbn. by rewrite Z.ltb_irrefl. }
  rewrite <-Els in *. unfold next_potential_donation.
  erewrite st_bind_ret; [|erewrite st_bind_ret; [|reflexivity]; reflexivity]. cbv beta. rewrite Ht3.
  cbn [acquired_locks set_donated set_priority set_acquired].
  rewrite potential_loop_max, (best_donation_ext s s3 t) by
    (done || (intros; by rewrite Hl3, Hl2) || (intros; by rewrite Ho3) || (intros; by apply Hn)).
  set (p := best_donation s ls). replace (0 `max` p) with p by (pose proof (best_donation_nonneg s ls); lia).
  erewrite st_bind_ret; [|reflexivity]. cbv beta. rewrite Ht3. cbn [original_priority set_donated set_priority set_acquired].
  change (original_priority (threads s t)) with (original_priority r).
  destruct (original_priority r <? p) eqn:Ep.
  - erewrite st_bind_ret; [|reflexivity]. eexists. split; [reflexivity|]. cbn [cpu lists holder threads with_threads].
    split_and!; try done.
    + rewrite !fn_lookup_insert, Ht3. cbn. rewrite Z.max_r by lia. by rewrite Ep.
    + intros u Hu. rewrite !fn_lookup_insert_ne by done. by apply Ho3.
  - exists s3. split_and!; try done. rewrite Ht3. rewrite Z.max_l by lia. by rewrite Z.ltb_irrefl.
Qed.

Lemma lock_release_run m s l :
  inv s → holder s l = Some (current (cpu s)) → in_external_intr (cpu s) = false →
  ∃ s', lock_release m l s = Ret (tt, s') ∧ cpu s' = cpu s ∧ lists s' = lists s ∧
    holder s' = <[l := None]> (holder s) ∧
    threads s' (current (cpu s)) = released m s l (threads s (current (cpu s))) ∧
    ∀ u, u ≠ current (cpu s) → threads s' u = threads s u.
Proof.
  intros Hi Hh Hx. set (t := current (cpu s)) in *. unfold lock_release.
  erewrite st_bind_ret; [|erewrite st_bind_ret; [|by apply held_ok]; apply assertS_true; by rewrite bool_decide_eq_true_2].
  erewrite st_bind_ret; [|reflexivity]. set (s1 := with_cpu _ s).
  assert (inv s1) as Hi1 by (eapply inv_core; [|exact Hi]; by constructor).
  rewrite (st_bind_ret _ _ _ _ _ (thread_current_ok s1 Hi1)).
  change (current (cpu s1)) with t.
  erewrite st_bind_ret; [|erewrite st_bind_ret; [|reflexivity]; reflexivity].
  erewrite st_bind_ret; [|reflexivity]. set (r := threads s t) in *. set (ls := filter (λ x, x ≠ l) (acquired_locks r)).
  match goal with |- context [with_threads ?f ?x] => set (s2 := with_threads f x) end.
  assert (threads s2 t = set_acquired ls r) as Ht2 by (unfold s2; cbn; by rewrite fn_lookup_insert).
  assert (∀ u, u ≠ t → threads s2 u = threads s u) as Ho2 by (intros; unfold s2; cbn; by rewrite fn_lookup_insert_ne).
  assert (cpu s2 = cpu s1 ∧ lists s2 = lists s ∧ holder s2 = holder s) as (Hc2 & Hl2 & Hh2) by done.
  clearbody s2.
  destruct (release_priority_run m t s s2 ls) as (s3 & Hm & Hc3 & Hl3 & Hh3 & Ht3 & Ho3);
    [intros l'; by apply current_not_listed|done..|]. rewrite Hc2 in Hc3. rewrite Hl2 in Hl3. rewrite Hh2 in Hh3.
  rewrite (st_bind_ret _ _ _ _ _ Hm). clear Hm. unfold set_holder. erewrite st_bind_ret; [|reflexivity].
  erewrite st_bind_ret; [|apply intr_set_level_ok; cbn; by rewrite Hc3].
  eexists. split; [unfold push, running_thread, upd; erewrite st_bind_ret; reflexivity|]. cbn. rewrite Hc3. cbn. fold t.
  rewrite Hh3, Hl3. split_and!; try done.
  - unfold s1, set_intr_on. cbn. destruct (cpu s) as [? ? ? [] ? ? ? ? ? ? ? ? ? ?]; done.
  - rewrite fn_lookup_insert, Ht3. unfold released. fold t r ls. by destruct m.
  - intros u Hu. rewrite fn_lookup_insert_ne by done. by apply Ho3.
Qed.

(** C28: as long as no [list_remove] was called on an element that is in no list,
    with either scheduler, [lock_release] by the thread that holds the
    lock always returns: it takes the lock off the list of the thread, clears
    the holder, changes no other thread, and goes on to up the semaphore of the
    lock.  With the priority scheduler it leaves the thread with the highest of
    its own priority and the priorities of the first waiters of the locks it
    still holds, marked as donated exactly when that is above its own; with the
    4.4BSD scheduler it leaves both as they are. *)
Theorem lock_release_priority m w s l :
  let t := current (cpu s) in
  let ls := filter (λ x, x ≠ l) (acquired_locks (threads s t)) in
  reachable m w s → holder s l = Some t →
  ∃ s', lock_release m l s = Ret (tt, s') ∧
    priority (threads s' t) = (if m then priority (threads s t) else fallback s t ls) ∧
    donated (threads s' t) =
      (if m then donated (threads s t) else original_priority (threads s t) <? fallback s t ls) ∧
    acquired_locks (threads s' t) = ls ∧ holder s' l = None ∧ current (cpu s') = t ∧
    stack (threads s' t) = F_sema_up (LockSema l) :: stack (threads s t) ∧
    (∀ l', l' ≠ l → holder s' l' = holder s l') ∧ (∀ u, u ≠ t → threads s' u = threads s u) ∧
    lists s' = lists s.
Proof.
  intros t ls Hre Hh. pose proof (reachable_calm _ _ _ Hre) as Hx. apply reachable_kinv in Hre as [Hi _].
  destruct (lock_release_run m s l Hi Hh Hx) as (s' & Hr & Hc & Hls & Hho & Ht & Ho). fold t in Ht, Ho.
  exists s'. rewrite Ht, Hho, Hc, Hls, fn_lookup_insert. unfold released. split_and!; try done; try (by destruct m).
  intros l' Hne. by rewrite fn_lookup_insert_ne by done.
Qed.

(** The initial thread holds locks 1 and 2, and thread 3 waits for lock 1. *)
Definition two_locks : list event :=
  start_up ++ [Call (LockAcquire 1)] ++ Runs 1 ++ [Call (LockAcquire 2)] ++ Runs 1 ++
  [Call (CreateThread (Some 3%positive) 40)] ++ Runs 8 ++ [Call (LockAcquire 1)] ++ Runs 4.

Lemma lock_release_priority_witness :
  let s := after false two_locks in
  fallback s 1%positive [L 1] = 40 ∧
  ∃ s', lock_release false (L 2) s = Ret (tt, s') ∧ priority (threads s' 1%positive) = fallback s 1%positive [L 1].
Proof.
  split; [vm_compute; reflexivity|].
  destruct (lock_release_priority false no_word (after false two_locks) (L 2)) as (s' & Hr & Hp & _).
  - apply after_reachable. vm_compute. reflexivity.
  - vm_compute. reflexivity.
  - exists s'. split; [exact Hr|exact Hp].
Defined.

(** ** Donation *)

(** The threads that donation of [p], starting at [o], reaches: each waits for
    a lock of the next one, and has a lower priority.  The ones it has been at
    have the priority [p], and stop it. *)
Fixpoint donees (s : kstate) (seen : list tp) (n : nat) (o : option tp) (p : Z) : list tp :=
  match n, o with
  | S n, Some t =>
      if (p <=? priority (threads s t)) || bool_decide (t ∈ seen) then []
      else t :: donees s (t :: seen) n (waiting_for_tlock (threads s t)) p
  | _, _ => []
  end.

(** The thread is on the list that its [thread_pl] names. *)
Definition listed (s : kstate) (t : tp) : Prop :=
  ∃ l, thread_pl (threads s t) = Some l ∧ t ∈ lists s l.

Lemma update_elem_ok l t s :
  t ∈ lists s l →
  ∃ s', list_update_elem (Some l) t s = Ret (tt, s') ∧ threads s' = threads s ∧ cpu s' = cpu s ∧
    holder s' = holder s ∧ stale s' = stale s ∧ ∀ l' x, x ∈ lists s' l' ↔ x ∈ lists s l'.
Proof.
  intros Ht. unfold list_update_elem, list_insert_ordered, set_list, note_remove. do 3 rstep.
  rewrite bool_decide_eq_true_2 by done. cbn [negb]. rstep. rewrite orb_false_r.
  eexists. split_and!; [reflexivity..|]. intros l' x. cbn. fn_case l' l; [|done].
  rewrite insert_sorted_in, list_elem_of_filter. destruct (decide (x = t)) as [->|]; naive_solver.
Qed.

Lemma donees_seen s seen n o p t : t ∈ donees s seen n o p → t ∉ seen.
Proof.
  revert seen o. induction n as [|n IH]; intros seen [u|]; cbn [donees]; try (by intros ?%elem_of_nil).
  destruct (p <=? _); [by intros ?%elem_of_nil|]. case_bool_decide; cbn [orb]; [by intros ?%elem_of_nil|].
  intros [->|Ht]%elem_of_cons; [done|]. apply IH in Ht. set_solver.
Qed.

Lemma donees_ext s s' seen seen' n o p :
  (∀ u, waiting_for_tlock (threads s' u) = waiting_for_tlock (threads s u)) →
  (∀ u, p ≤ priority (threads s' u) ∨ u ∈ seen' ↔ p ≤ priority (threads s u) ∨ u ∈ seen) →
  donees s' seen' n o p = donees s seen n o p.
Proof.
  intros Hw. revert seen seen' o. induction n as [|n IH]; intros seen seen' [u|] Hp; cbn [donees]; try done.
  replace ((p <=? priority (threads s' u)) || bool_decide (u ∈ seen')) with
    ((p <=? priority (threads s u)) || bool_decide (u ∈ seen)).
  2: { apply eq_iff_eq_true. rewrite !orb_true_iff, !bool_decide_eq_true, !Z.leb_le. by rewrite Hp. }
  destruct (_ || _); [done|]. rewrite Hw. f_equal. apply IH. intros x. specialize (Hp x). set_solver.
Qed.

(** One donation, to a thread that is on its list. *)
Lemma donate_step n t p s :
  inv s → stale s = false → priority (threads s t) < p → listed s t →
  ∃ s', lock_donate_loop (S n) (Some t) p s = lock_donate_loop n (waiting_for_tlock (threads s t)) p s' ∧
    inv s' ∧ stale s' = false ∧ threads s' t = set_donated true (set_priority p (threads s t)) ∧
    (∀ u, u ≠ t → threads s' u = threads s u) ∧ (∀ l x, x ∈ lists s' l ↔ x ∈ lists s l).
Proof.
  intros Hi Hf Hp (l & Hl & Hin). cbn [lock_donate_loop]. unfold get, upd. rstep. cbv beta.
  replace (p <=? priority (threads s t)) with false by lia. do 2 rstep. cbv beta.
  set (s1 := with_threads _ s).
  assert (threads s1 t = set_donated true (set_priority p (threads s t))) as Ht1 by (unfold s1; cbn; by rewrite fn_lookup_insert).
  assert (∀ u, u ≠ t → threads s1 u = threads s u) as Ho1 by (intros; unfold s1; cbn; by rewrite fn_lookup_insert_ne).
  assert (core_eq (upd_thread t (set_priority p) s) s1) as Hc1.
  { constructor; try done; intros x; cbn; by fn_case x t. }
  assert (∀ l, lists s1 l = lists s l) as Hl1 by done. assert (stale s1 = stale s) as Hf1 by done. clearbody s1.
  replace (thread_pl (threads s1 t)) with (Some l) by (by rewrite Ht1).
  destruct (update_elem_ok l t s1) as (s2 & Hr2 & Ht2 & _ & _ & Hf2 & Hl2); [by rewrite Hl1|].
  rewrite Hf1, Hf in Hf2. destruct (update_elem_run l t p s s1 _ _ Hc1 Hr2 Hf2) as [_ Hc2].
  rewrite (st_bind_ret _ _ _ _ _ Hr2). rstep. cbv beta. rewrite Ht2, Ht1. exists s2. split_and!; try done.
  - eapply inv_core; [exact Hc2|by apply reprioritize_inv].
  - by rewrite Ht2.
  - intros u Hu. rewrite Ht2. auto.
  - intros l' x. by rewrite Hl2, Hl1.
Qed.

Lemma donees_step s s' n t p :
  priority (threads s t) < p → threads s' t = set_donated true (set_priority p (threads s t)) →
  (∀ u, u ≠ t → threads s' u = threads s u) →
  donees s [] (S n) (Some t) p = t :: donees s' [] n (waiting_for_tlock (threads s t)) p.
Proof.
  intros Hp Ht Ho. cbn [donees]. replace (p <=? priority (threads s t)) with false by lia.
  rewrite bool_decide_eq_false_2 by apply not_elem_of_nil. cbn [orb]. f_equal. symmetry. apply donees_ext.
  - intros u. destruct (decide (u = t)) as [->|]; [by rewrite Ht|by rewrite Ho].
  - intros u. destruct (decide (u = t)) as [->|]; [rewrite Ht; cbn|rewrite Ho by done]; set_solver by lia.
Qed.

(** The donations to the first donees, the rest left to do. *)
Lemma donate_prefix pre n o p s post :
  inv s → stale s = false → donees s [] n o p = pre ++ post → Forall (listed s) pre →
  ∃ s' n' o', lock_donate_loop n o p s = lock_donate_loop n' o' p s' ∧ donees s' [] n' o' p = post ∧
    inv s' ∧ stale s' = false ∧
    (∀ t, t ∈ pre → threads s' t = set_donated true (set_priority p (threads s t))) ∧
    (∀ t, t ∉ pre → threads s' t = threads s t) ∧ (∀ l x, x ∈ lists s' l ↔ x ∈ lists s l).
Proof.
  revert n o s. induction pre as [|t pre IH]; intros n o s Hi Hf Hd Hl.
  { exists s, n, o. split_and!; try done. intros t Ht. by apply elem_of_nil in Ht. }
  destruct n as [|n], o as [u|]; try done. destruct (Z.le_gt_cases p (priority (threads s u))) as [Hp|Hp].
  { cbn in Hd. by replace (p <=? priority (threads s u)) with true in Hd by lia. }
  assert (t = u) as ->. { cbn in Hd. replace (p <=? priority (threads s u)) with false in Hd by lia. by injection Hd as <- _. }
  apply Forall_cons in Hl as [Hlu Hl]. destruct (donate_step n u p s Hi Hf Hp Hlu) as (s1 & Hr1 & Hi1 & Hf1 & Hu1 & Ho1 & Hl1).
  pose proof (donees_seen s [u] n (waiting_for_tlock (threads s u)) p u) as Hns.
  assert (u ∉ pre) as Hnu.
  { intros Hin. cbn in Hd. replace (p <=? priority (threads s u)) with false in Hd by lia. injection Hd as Hd.
    apply Hns; [rewrite Hd|]; set_solver. }
  rewrite (donees_step s s1 n u p Hp Hu1 Ho1) in Hd. injection Hd as Hd.
  destruct (IH n (waiting_for_tlock (threads s u)) s1 Hi1 Hf1 Hd) as (s' & n' & o' & Hr & Hd' & Hi' & Hf' & Hin & Hout & Hl').
  { apply Forall_forall. intros x Hx. rewrite Forall_forall in Hl. destruct (Hl x Hx) as (q & Hq & Hxq).
    exists q. rewrite Ho1, Hl1 by (intros ->; done). done. }
  exists s', n', o'. rewrite Hr1. split_and!; try done.
  - intros x [->|Hx]%elem_of_cons; [by rewrite Hout, Hu1|]. rewrite Hin, Ho1 by (done || intros ->; done). done.
  - intros x Hx. rewrite Hout, Ho1 by set_solver. done.
  - intros l' x. by rewrite Hl', Hl1.
Qed.

(** No donee: the walk ends. *)
Lemma donate_end n o p s : donees s [] n o p = [] → lock_donate_loop n o p s = Ret (tt, s).
Proof.
  destruct n as [|n], o as [t|]; cbn; try done. rewrite bool_decide_eq_false_2 by apply not_elem_of_nil.
  rewrite orb_false_r. unfold get. rstep. by destruct (p <=? _).
Qed.

(** A donee that is not on the list it names. *)
Lemma donate_unlisted n o p s t post :
  donees s [] n o p = t :: post → ¬ listed s t →
  match thread_pl (threads s t) with
  | None => lock_donate_loop n o p s = Panic
  | Some _ => ∀ u s', lock_donate_loop n o p s = Ret (u, s') → stale s' = true
  end.
Proof.
  intros Hd Hl. destruct n as [|n], o as [x|]; try done. cbn [donees lock_donate_loop] in *.
  destruct (p <=? priority (threads s x)) eqn:Ep; [done|]. rewrite bool_decide_eq_false_2 in Hd by apply not_elem_of_nil.
  injection Hd as -> Hd. unfold get, upd. rstep. cbv beta. rewrite Ep. do 2 rstep. cbv beta. set (s1 := with_threads _ s).
  assert (thread_pl (threads s1 t) = thread_pl (threads s t)) as -> by (unfold s1; cbn; by rewrite fn_lookup_insert).
  destruct (thread_pl (threads s t)) as [l|] eqn:El; [|done].
  assert (t ∉ lists s1 l) as Hin by (intros Hin; apply Hl; by exists l). clearbody s1.
  unfold list_update_elem, list_insert_ordered, set_list, note_remove.
  intros u s' H. apply st_bind_inv in H as (? & s2 & H2 & H). apply not_false_iff_true. intros Hs.
  assert (stale s2 = true) as E by (st_run H2; cbn; rewrite bool_decide_eq_false_2 by done; apply orb_true_r).
  apply st_bind_inv in H as (? & s3 & H3 & H). assert (s3 = s2) as -> by (by st_run H3).
  pose proof (fresher_donate_loop n _ p _ _ _ H Hs). congruence.
Qed.

(** C26: as long as no [list_remove] was called on an element that is in no list,
    [lock_donate] walks from the holder of the lock along the threads that
    each wait for a lock of the next; it stops at the first thread of at least
    the donated priority, which one that it has raised is, and after nine.  The
    threads it reaches before that get the priority, marked as donated.  If
    each of them is on the list that its [thread_pl] names it returns, changes
    no other thread and keeps every thread on its list, with the lists still in
    order.  The first that is not so panics when its [thread_pl] is null, and
    otherwise is taken off a list that it is not on. *)
Theorem lock_donate_chain m w s l p :
  reachable m w s →
  (Forall (listed s) (donees s [] 9 (holder s l) p) →
   ∃ s', lock_donate l p s = Ret (tt, s') ∧ inv s' ∧ stale s' = false ∧
     (∀ t, t ∈ donees s [] 9 (holder s l) p → threads s' t = set_donated true (set_priority p (threads s t))) ∧
     (∀ t, t ∉ donees s [] 9 (holder s l) p → threads s' t = threads s t) ∧
     (∀ q x, x ∈ lists s' q ↔ x ∈ lists s q)) ∧
  (∀ pre t post, donees s [] 9 (holder s l) p = pre ++ t :: post → Forall (listed s) pre → ¬ listed s t →
   match thread_pl (threads s t) with
   | None => lock_donate l p s = Panic
   | Some _ => ∀ u s', lock_donate l p s = Ret (u, s') → stale s' = true
   end).
Proof.
  intros Hre. pose proof Hre as [_ Hf]. apply reachable_kinv in Hre as [Hi _]. unfold lock_donate. split.
  - intros Hl. rstep. set (ds := donees _ _ _ _ _) in *.
    destruct (donate_prefix ds 9 (holder s l) p s [] Hi Hf) as (s' & n & o & Hr & Hd & Hi' & Hf' & H1 & H2 & H3);
      [by rewrite app_nil_r|done|]. exists s'. rewrite Hr, donate_end by done. done.
  - intros pre t post Hd Hl Hn.
    destruct (donate_prefix pre 9 (holder s l) p s (t :: post) Hi Hf Hd Hl) as (s' & n & o & Hr & Hd' & Hi' & Hf' & H1 & H2 & H3).
    assert (t ∉ pre) as Hnp by (rewrite Forall_forall in Hl; auto).
    pose proof (donate_unlisted n o p s' t post Hd') as H. unfold listed in H. rewrite H2 in H by done.
    setoid_rewrite H3 in H. specialize (H Hn). rewrite (st_bind_ret _ _ s s s), Hr by done. exact H.
Qed.

(** Thread 3, which waits for the lock of thread 1, holds lock 2. *)
Definition nested_locks : list event :=
  start_up ++ [Call (LockAcquire 1)] ++ Runs 1 ++
  [Call (CreateThread (Some 3%positive) 40)] ++ Runs 8 ++ [Call (LockAcquire 2)] ++ Runs 1 ++
  [Call (LockAcquire 1)] ++ Runs 4 ++ [Call (CreateThread (Some 4%positive) 50)] ++ Runs 8.

Lemma lock_donate_chain_witness :
  let s := after false nested_locks in
  donees s [] 9 (holder s (L 2)) 50 = [3%positive; 1%positive] ∧
  ∃ s', lock_donate (L 2) 50 s = Ret (tt, s') ∧ inv s'.
Proof.
  split; [vm_compute; reflexivity|].
  destruct (lock_donate_chain false no_word (after false nested_locks) (L 2) 50) as [Hc _].
  { apply after_reachable. vm_compute. reflexivity. }
  change (donees (after false nested_locks) [] 9 (holder (after false nested_locks) (L 2)) 50)
    with [3%positive; 1%positive] in Hc.
  destruct Hc as (s' & Hr & Hi & _).
  - apply Forall_cons. split; [|apply Forall_singleton].
    + exists (Waiters (LockSema (L 1))). vm_compute. split; [reflexivity|constructor].
    + exists ReadyList. vm_compute. split; [reflexivity|constructor].
  - exists s'. split; [exact Hr|exact Hi].
Defined.
