(* ===== verification/Liveness.v ===== *)
(** * Progress under the timer

    Between the steps of the machine no interrupt is being handled, so a timer
    interrupt that finds interrupts on is handled without failing; and when a
    thread of at least its priority is ready, a thread that goes on computing
    loses the processor when its time slice is over.  (For the priority
    scheduler; the 4.4BSD scheduler changes priorities meanwhile.) *)

From stdpp Require Import functions.
From stdpp Require Import base tactics list numbers option sorting sets.
From Stdlib Require Import ZArith Lia.
From S2P Require Import Prelude LinkedList ListOps FixedPoint KState Thread Synch Machine.
From S2P Require Import KernelInv KernelPass KernelOps KernelStacks KernelReach KernelRuns SchedSpec.

Local Open Scope Z_scope.

(** ** A timer interrupt *)

Lemma wake_cpu ts : ∀ s, cpu (foldl wake s ts) = cpu s.
Proof.
  induction ts as [|t ts IH]; intros s; [done|]. cbn [foldl]. rewrite IH. unfold wake. by destruct (elapsed s t).
Qed.

Ltac rstep := erewrite st_bind_ret; [|reflexivity].

Lemma timers_run s :
  (match sleeping_list s with [] => mret tt | _ => thread_update_timers end) s =
  Ret (tt, foldl wake s (sleeping_list s)).
Proof.
  destruct (sleeping_list s) as [|t ts] eqn:E; [done|]. unfold thread_update_timers. rstep.
  rewrite E. apply update_timers_loop_run.
Qed.

(** What the interrupt handler relies on in the scheduler's variables [c], after
    code that changes only its counters and asks for a yield or not. *)
Definition ticked (c c' : sched) : Prop :=
  current c' = current c ∧ idle_thread c' = idle_thread c ∧ initial_thread c' = initial_thread c ∧
  intr_on c' = intr_on c ∧ in_external_intr c' = in_external_intr c ∧
  thread_ticks c' = u32 (thread_ticks c + 1) ∧
  (TIME_SLICE ≤ u32 (thread_ticks c + 1) → yield_on_return c' = true).

Lemma thread_tick_run s :
  inv s → in_external_intr (cpu s) = true →
  ∃ c, thread_tick false s = Ret (tt, with_cpu c (foldl wake s (sleeping_list s))) ∧ ticked (cpu s) c.
Proof.
  intros Hi He. unfold thread_tick. rewrite (st_bind_ret _ _ _ _ _ (thread_current_ok s Hi)). rstep.
  rewrite (st_bind_ret _ _ _ _ _ (timers_run s)). set (s1 := foldl wake s (sleeping_list s)).
  assert (cpu s1 = cpu s) as Ec by apply wake_cpu. clearbody s1. do 2 rstep.
  assert (∀ s, in_external_intr (cpu s) = true →
    intr_yield_on_return s = Ret (tt, with_cpu (set_yield_on_return true (cpu s)) s)) as Hy.
  { intros a Ha. unfold intr_yield_on_return, intr_context. erewrite st_bind_ret; [reflexivity|].
    erewrite st_bind_ret; [|reflexivity]. by apply assertS_true. }
  set (b := match lists s1 ReadyList with [] => PRI_MIN | top :: _ => priority (threads s1 top) end <? _).
  assert (∃ c1, (if b then intr_yield_on_return else mret tt) s1 = Ret (tt, with_cpu c1 s1) ∧
    current c1 = current (cpu s) ∧ idle_thread c1 = idle_thread (cpu s) ∧ initial_thread c1 = initial_thread (cpu s) ∧
    intr_on c1 = intr_on (cpu s) ∧ in_external_intr c1 = true ∧ thread_ticks c1 = thread_ticks (cpu s)) as (c1 & E1 & H1).
  { destruct b; [eexists; rewrite Hy by congruence; split; [done|]; cbn; rewrite Ec; by split_and!|].
    exists (cpu s1). split; [by destruct s1|]. rewrite Ec. by split_and!. }
  rewrite (st_bind_ret _ _ _ _ _ E1). clear b E1.
  assert (∃ c2, count_tick (current (cpu s)) (with_cpu c1 s1) = Ret (tt, with_cpu c2 s1) ∧
    current c2 = current c1 ∧ idle_thread c2 = idle_thread c1 ∧ initial_thread c2 = initial_thread c1 ∧
    intr_on c2 = intr_on c1 ∧ in_external_intr c2 = in_external_intr c1 ∧ thread_ticks c2 = thread_ticks c1) as (c2 & E2 & H2).
  { unfold count_tick. erewrite st_bind_ret; [|reflexivity].
    destruct (bool_decide _); [|destruct (user _)]; eexists; (split; [reflexivity|]); by split_and!. }
  rewrite (st_bind_ret _ _ _ _ _ E2). clear E2. do 2 rstep. rstep. cbn [cpu with_cpu].
  destruct H1 as (?&?&?&?&?&Ht1), H2 as (?&?&?&?&?&Ht2). rewrite Ht2, Ht1.
  set (n := u32 (thread_ticks (cpu s) + 1)) in *. destruct (Z.leb_spec TIME_SLICE n) as [Hn|Hn].
  - rewrite Hy by (cbn; congruence). eexists. split; [reflexivity|].
    unfold ticked. fold n. split_and!; cbn -[u32]; congruence || done.
  - eexists. split; [reflexivity|]. unfold ticked. fold n. split_and!; cbn -[u32]; congruence || done || lia.
Qed.

Lemma wake_stale ts : ∀ s, stale (foldl wake s ts) = stale s.
Proof.
  induction ts as [|t ts IH]; intros s; [done|]. cbn [foldl]. rewrite IH. unfold wake. by destruct (elapsed s t).
Qed.

Lemma wake_list_facts s :
  NoDup (sleeping_list s) →
  let s' := foldl wake s (sleeping_list s) in
  (∀ t, priority (threads s' t) = priority (threads s t) ∧ stack (threads s' t) = stack (threads s t)) ∧
  (∀ t, t ∈ lists s ReadyList → t ∈ lists s' ReadyList).
Proof.
  intros Hnd s'. destruct (wake_list_spec (sleeping_list s) s Hnd) as (_ & Hl & Ht). fold s' in Hl, Ht. split.
  - intros t. rewrite Ht. by case_decide.
  - intros t Hr. rewrite Hl. by left.
Qed.

(** A timer interrupt in thread [current (cpu s)]. *)
Record tick_to (s s' : kstate) : Prop := {
  tt_current : current (cpu s') = current (cpu s);
  tt_priority t : priority (threads s' t) = priority (threads s t);
  tt_ready t : t ∈ lists s ReadyList → t ∈ lists s' ReadyList;
  tt_ticks : thread_ticks (cpu s') = u32 (thread_ticks (cpu s) + 1);
  tt_off : intr_on (cpu s') = false;
  tt_stale : stale s' = stale s;
  tt_stack : ∃ y : bool, (TIME_SLICE ≤ u32 (thread_ticks (cpu s) + 1) → y = true) ∧
    stack (threads s' (current (cpu s))) =
      (if y then [F_yield; F_iret] else [F_iret]) ++ stack (threads s (current (cpu s)))
}.

Lemma tick_run w s :
  inv s → ext s = false → intr_on (cpu s) = true →
  ∃ s', kstep false w Tick s = Some (Ret s') ∧ tick_to s s'.
Proof.
  intros Hi He Hon. unfold ext in He.
  assert (∃ s', (intr_disable;; intr_handler false) s = Ret (tt, s') ∧ tick_to s s') as (s' & E & Ht).
  { unfold intr_disable. rewrite (st_bind_ret _ _ s (intr_on (cpu s)) (with_cpu (set_intr_on false (cpu s)) s)) by reflexivity.
    unfold intr_handler. rstep.
    erewrite st_bind_ret; [|erewrite st_bind_ret; [|reflexivity]; apply assertS_true; cbn; by rewrite He].
    do 2 rstep. unfold timer_interrupt.
    set (c := set_ticks (s64 (ticks (cpu s) + 1)) (set_yield_on_return false (set_in_external_intr true
      (set_intr_on false (cpu s))))).
    set (sa := with_cpu c s).
    assert (inv sa) as Hia by (eapply inv_core; [|exact Hi]; constructor; done).
    destruct (thread_tick_run sa Hia eq_refl) as (c' & E' & Hc).
    erewrite st_bind_ret; [|erewrite st_bind_ret; [exact E'|reflexivity]].
    destruct Hc as (Hcur & _ & _ & Hon' & Hex & Htk & Hy). cbn in Hcur, Hon', Hex, Htk, Hy.
    assert (NoDup (sleeping_list sa)) as Hnd by apply (b_sleeping _ (i_base _ Hia)).
    destruct (wake_list_facts sa Hnd) as [Hth Hrl]. pose proof (wake_stale (sleeping_list sa) sa) as Hsl.
    set (sb := foldl wake sa (sleeping_list sa)) in *. clearbody sb.
    erewrite st_bind_ret; [|erewrite st_bind_ret; [|reflexivity]; apply assertS_true; cbn; by rewrite Hon'].
    erewrite st_bind_ret; [|erewrite st_bind_ret; [|reflexivity]; apply assertS_true; cbn; by rewrite Hex].
    do 2 rstep. cbn [cpu with_cpu set_in_external_intr yield_on_return].
    exists (upd_thread (current (cpu s)) (λ r, set_stack ((if yield_on_return c' then [F_yield; F_iret] else [F_iret]) ++ stack r) r)
      (with_cpu (set_in_external_intr false c') sb)).
    split; [destruct (yield_on_return c'); unfold push; (erewrite st_bind_ret; [|reflexivity]); cbn; by rewrite Hcur|].
    split; try done.
    - intros t. cbn. fn_case t (current (cpu s)); cbn; apply Hth.
    - exists (yield_on_return c'). split; [exact Hy|]. rewrite upd_thread_eq. cbn. f_equal. apply Hth. }
  exists s'. split; [|done]. unfold kstep. rewrite Hon, E. by destruct (stack (threads s (current (cpu s)))).
Qed.

(** ** Giving up the processor *)

Lemma tail_run cur s :
  intr_on (cpu s) = false → status (threads s cur) ≠ THREAD_DYING → current (cpu s) ≠ cur →
  ∃ s', thread_schedule_tail (Some cur) s = Ret (tt, s') ∧ current (cpu s') = current (cpu s).
Proof.
  intros Hon Hst Hne. unfold thread_schedule_tail. rstep.
  erewrite st_bind_ret; [|erewrite st_bind_ret; [|reflexivity]; apply assertS_true; cbn; by rewrite Hon].
  do 3 rstep. cbn [threads with_cpu cpu]. cbn. rewrite fn_lookup_insert_ne by done.
  rewrite bool_decide_false by done. cbn. eexists. split; [reflexivity|done].
Qed.

Lemma schedule_switch_run s t rest :
  lists s ReadyList = t :: rest → intr_on (cpu s) = false → magic (threads s t) = true → t ≠ current (cpu s) →
  status (threads s (current (cpu s))) = THREAD_READY →
  ∃ s', schedule s = Ret (tt, s') ∧ current (cpu s') = t.
Proof.
  intros Hl Hon Hm Hne Hst. unfold schedule. rstep.
  set (s1 := upd_thread t (set_thread_pl None) (with_lists (<[ReadyList := rest]> (lists s)) s)).
  assert (next_thread_to_run s = Ret (Some t, s1)) as En.
  { unfold next_thread_to_run. rstep. rewrite Hl. reflexivity. }
  rewrite (st_bind_ret _ _ _ _ _ En).
  erewrite st_bind_ret; [|erewrite st_bind_ret; [|reflexivity]; apply assertS_true; cbn; by rewrite Hon].
  erewrite st_bind_ret; [|erewrite st_bind_ret; [|reflexivity]; apply assertS_true; apply bool_decide_true; cbn;
    rewrite fn_lookup_insert_ne by done; by rewrite Hst].
  erewrite st_bind_ret; [|erewrite st_bind_ret; [|reflexivity]; apply assertS_true; cbn; by rewrite fn_lookup_insert].
  rewrite bool_decide_true by done. rstep.
  destruct (tail_run (current (cpu s)) (with_cpu (set_current t (cpu s1)) s1)) as (s' & E & Hc); [done| |done|].
  { cbn. rewrite fn_lookup_insert_ne by done. by rewrite Hst. }
  exists s'. by rewrite E.
Qed.

Lemma yield_run s t rest :
  inv s → ext s = false → lists s ReadyList = t :: rest →
  priority (threads s (current (cpu s))) ≤ priority (threads s t) →
  ∃ s', thread_yield s = Ret (tt, s') ∧ current (cpu s') ≠ current (cpu s).
Proof.
  intros Hi He Hl Hp. set (cur := current (cpu s)) in *.
  assert (t ∈ lists s ReadyList) as Ht by (rewrite Hl; set_solver).
  destruct (b_in _ (i_base _ Hi) ReadyList t Ht) as (_ & Hst & Hall & _ & _).
  assert (t ≠ cur) as Hne by (pose proof (i_status _ Hi) as Hr; fold cur in Hr; intros E; rewrite E, Hr in Hst; done).
  pose proof (proj1 (b_live _ (i_base _ Hi) t Hall)) as Hm.
  unfold thread_yield. rewrite (st_bind_ret _ _ _ _ _ (thread_current_ok s Hi)). fold cur.
  erewrite st_bind_ret; [|erewrite st_bind_ret; [|reflexivity]; apply assertS_true; unfold ext in He; by rewrite He].
  do 2 rstep.
  set (s1 := with_cpu (set_intr_on false (cpu s)) s).
  assert (∃ s2 rest', (if bool_decide (Some cur ≠ idle_thread (cpu s1)) then
      list_insert_ordered ReadyList cur;; upd cur (set_thread_pl (Some ReadyList)) else mret tt) s1 = Ret (tt, s2) ∧
    lists s2 ReadyList = t :: rest' ∧ cpu s2 = cpu s1 ∧ magic (threads s2 t) = true) as (s2 & rest' & E2 & Hl2 & Hc2 & Hm2).
  { case_bool_decide.
    - eexists _, _. split; [reflexivity|]. cbn. rewrite fn_lookup_insert, Hl. cbn.
      assert (thread_cmp (threads s) cur t = false) as -> by (unfold thread_cmp; apply Z.ltb_ge; done).
      rewrite fn_lookup_insert_ne by done. by split_and!.
    - exists s1, rest. by split_and!. }
  rewrite (st_bind_ret _ _ _ _ _ E2). do 2 rstep.
  match goal with |- context [schedule ?x] => destruct (schedule_switch_run x t rest') as (s' & E & Hc) end.
  - done.
  - cbn. by rewrite Hc2.
  - cbn. rewrite Hc2. cbn. fold cur. by rewrite !fn_lookup_insert_ne.
  - cbn. rewrite Hc2. done.
  - cbn. rewrite Hc2. cbn. fold cur. by rewrite !fn_lookup_insert.
  - exists s'. split; [exact E|]. by rewrite Hc.
Qed.

(** ** Rounds of the timer *)

Lemma star_snoc {A} (R : A → A → Prop) a b c : star R a b → R b c → star R a c.
Proof. induction 1; intros Hbc; [eapply star_step; [done|constructor]|eapply star_step; eauto]. Qed.

Lemma reachable_step m w s e s' : reachable m w s → kstep m w e s = Some (Ret s') → stale s' = stale s → reachable m w s'.
Proof.
  intros [(page & s0 & Hp & Hb & Hs) Hst] He Hst'. split; [|congruence]. exists page, s0. split_and!; [done..|].
  eapply star_snoc; [exact Hs|by exists e].
Qed.

(** A thread computes, with interrupts on, and another one of at least its
    priority is ready. *)
Definition contended (w : kstate → positive → Z) (s : kstate) : Prop :=
  reachable false w s ∧ stack (threads s (current (cpu s))) = [] ∧ intr_on (cpu s) = true ∧
  ∃ t, t ∈ lists s ReadyList ∧ priority (threads s (current (cpu s))) ≤ priority (threads s t).

Lemma contended_head s t :
  inv s → t ∈ lists s ReadyList →
  ∃ h rest, lists s ReadyList = h :: rest ∧ priority (threads s t) ≤ priority (threads s h).
Proof.
  intros Hi Ht. pose proof (b_order _ (i_base _ Hi) ReadyList) as Ho. apply in_order_priorities in Ho.
  destruct (lists s ReadyList) as [|h rest]; [by apply elem_of_nil in Ht|]. exists h, rest. split; [done|].
  apply StronglySorted_inv in Ho as [_ Hh]. rewrite Forall_forall in Hh.
  apply elem_of_cons in Ht as [->|Ht]; [done|]. by apply Hh.
Qed.

(** One tick and the step after it: the end of the interrupt, or a yield. *)
Lemma round_run w s :
  contended w s →
  ∃ s', kexec false w [Tick; Run] s = Some (Ret s') ∧
    (current (cpu s') ≠ current (cpu s) ∨
     contended w s' ∧ current (cpu s') = current (cpu s) ∧
     thread_ticks (cpu s') = u32 (thread_ticks (cpu s) + 1) ∧ u32 (thread_ticks (cpu s) + 1) < TIME_SLICE).
Proof.
  intros (Hr & Hs & Hon & t & Ht & Hp). destruct (reachable_kinv _ _ _ Hr) as [Hi _].
  destruct (tick_run w s Hi (reachable_calm _ _ _ Hr) Hon) as (s1 & E1 & [Hc Hpr Hrd Htk Hoff Hsl (y & Hy & Hs1)]).
  pose proof (reachable_step _ _ _ _ _ Hr E1 Hsl) as Hr1. destruct (reachable_kinv _ _ _ Hr1) as [Hi1 _].
  rewrite Hs, app_nil_r in Hs1. cbn [kexec]. rewrite E1. rewrite <- Hc in Hs1.
  assert (∃ t, t ∈ lists s1 ReadyList ∧ priority (threads s1 (current (cpu s1))) ≤ priority (threads s1 t))
    as (t1 & Ht1 & Hp1) by (exists t; rewrite Hc, !Hpr; auto).
  destruct y.
  - destruct (popped_inv w _ _ _ Hi1 Hs1) as [Hip _].
    destruct (contended_head s1 t1 Hi1 Ht1) as (h & rest & Hl & Hh).
    destruct (yield_run (popped [F_iret] s1) h rest) as (s2 & E2 & Hc2); [done|exact (reachable_calm _ _ _ Hr1)|done| |].
    { unfold popped. cbn. fn_case h (current (cpu s1)); rewrite ?fn_lookup_insert; cbn; lia. }
    exists s2. unfold kstep. rewrite Hs1. cbn [exec_frame]. change (with_threads _ s1) with (popped [F_iret] s1).
    rewrite E2. split; [done|]. left. cbn in Hc2. congruence.
  - assert (u32 (thread_ticks (cpu s) + 1) < TIME_SLICE) as Hlt by (destruct (Z.lt_ge_cases (u32 (thread_ticks (cpu s) + 1)) TIME_SLICE); [done|by specialize (Hy ltac:(done))]).
    set (s2 := with_cpu (set_intr_on true (cpu s1)) (popped [] s1)).
    assert (kstep false w Run s1 = Some (Ret s2)) as E2 by (unfold kstep; by rewrite Hs1).
    rewrite E2. exists s2. split; [done|]. right. split; [|split_and!; [exact Hc|exact Htk|exact Hlt]].
    split_and!; [by eapply reachable_step| |done|].
    + unfold s2, popped. cbn. by rewrite fn_lookup_insert.
    + exists t1. split; [done|]. unfold s2, popped. cbn. rewrite fn_lookup_insert. cbn.
      fn_case t1 (current (cpu s1)); cbn; done.
Qed.

Definition rounds (n : nat) : list event := concat (replicate n [Tick; Run]).

Lemma kexec_app m w es fs s s' :
  kexec m w es s = Some (Ret s') → kexec m w (es ++ fs) s = kexec m w fs s'.
Proof.
  revert s. induction es as [|e es IH]; intros s H; cbn [kexec app] in *; [by injection H as ->|].
  destruct (kstep m w e s) as [[s1| |]|]; try done. by apply IH.
Qed.

Lemma slice_run w k : ∀ s,
  contended w s → 0 ≤ thread_ticks (cpu s) < TIME_SLICE → TIME_SLICE - thread_ticks (cpu s) ≤ Z.of_nat k →
  ∃ n s', (n ≤ k)%nat ∧ kexec false w (rounds n) s = Some (Ret s') ∧ current (cpu s') ≠ current (cpu s).
Proof.
  induction k as [|k IH]; intros s Hs Ht Hk; [lia|].
  destruct (round_run w s Hs) as (s1 & E & [Hc|(Hs1 & Hc & Ht1 & Hlt)]).
  { exists 1%nat, s1. split_and!; [lia|done..]. }
  assert (TIME_SLICE = 4) as H4 by done. rewrite u32_id in Ht1 by lia.
  rewrite u32_id in Hlt by lia. destruct (IH s1) as (n & s2 & Hn & E2 & Hc2); [done|lia..|].
  exists (S n), s2. split; [lia|]. split; [|congruence].
  change (rounds (S n)) with ([Tick; Run] ++ rounds n). by rewrite (kexec_app _ _ _ _ _ _ E).
Qed.

(** C6: with the priority scheduler, a thread that computes does not keep the
    processor from ready threads of at least its priority: from every state
    reached before [list_remove] is called on an element that is in no list and
    in which such a thread is ready, within a time slice and one tick the timer interrupt
    makes the running thread yield, and another thread runs. *)
Theorem time_slice_ends w s :
  contended w s →
  ∃ n s', Z.of_nat n ≤ TIME_SLICE + 1 ∧ kexec false w (rounds n) s = Some (Ret s') ∧
    current (cpu s') ≠ current (cpu s).
Proof.
  intros Hs. destruct (round_run w s Hs) as (s1 & E & [Hc|(Hs1 & Hc & Ht1 & Hlt)]).
  { exists 1%nat, s1. by split_and!. }
  pose proof (u32_range (thread_ticks (cpu s) + 1)). assert (TIME_SLICE = 4) as H4 by done.
  destruct (slice_run w 4 s1) as (n & s2 & Hn & E2 & Hc2); [done|lia..|].
  exists (S n), s2. split; [lia|]. split; [|congruence].
  change (rounds (S n)) with ([Tick; Run] ++ rounds n). by rewrite (kexec_app _ _ _ _ _ _ E).
Qed.

(** The initial thread computes while a thread of its priority is ready. *)
Definition rivals : list event := start_up ++ [Call (CreateThread (Some 3%positive) 31)] ++ Runs 6.

Lemma time_slice_ends_witness :
  ∃ n s', Z.of_nat n ≤ TIME_SLICE + 1 ∧ kexec false no_word (rounds n) (after false rivals) = Some (Ret s') ∧
    current (cpu s') ≠ current (cpu (after false rivals)).
Proof.
  apply (time_slice_ends no_word). split_and!; [apply after_reachable; vm_compute; reflexivity|vm_compute; reflexivity..|].
  exists 3%positive. split; [by_decide|vm_compute; discriminate].
Defined.
