(* ===== verification/Mlfqs.v ===== *)
(** * The 4.4BSD scheduler ([threads/thread.c])

    The priorities the multi-level feedback queue scheduler computes: they are
    the value of its formula, without overflow for any [recent_cpu], and stay
    between [PRI_MIN] and [PRI_MAX] in every state of the kernel. *)

From stdpp Require Import functions.
From stdpp Require Import base tactics list numbers option sorting sets.
From Stdlib Require Import ZArith Lia.
From S2P Require Import Prelude LinkedList ListOps FixedPoint KState Thread Synch Machine.
From S2P Require Import KernelInv KernelOps KernelStacks KernelReach KernelRuns KernelPass.

Local Open Scope Z_scope.

(** ** Ranges *)

Definition in_range (r : thread) : Prop := PRI_MIN ≤ priority r ≤ PRI_MAX ∧ -20 ≤ nice r ≤ 20.
Definition ranged (s : kstate) : Prop := ∀ t, in_range (threads s t).

Lemma ranged_upd t f : (∀ r, in_range r → in_range (f r)) → steps (keeping ranged) (upd t f).
Proof.
  intros Hf. apply steps_modify. intros s Hs u. cbn. fn_case u t; [apply Hf|]; apply Hs.
Qed.

Lemma ranged_allows : allows (keeping ranged).
Proof.
  split; unfold keeping, ranged; auto. intros t f s Hf Hs u. cbn. fn_case u t; [|apply Hs].
  unfold in_range. destruct (Hf (threads s t)) as [-> ->]. apply Hs.
Qed.

#[local] Hint Resolve ranged_allows : steps.
#[local] Hint Resolve steps_intr_disable steps_intr_enable steps_intr_set_level steps_intr_yield
  steps_thread_current steps_top_pri steps_update_elem steps_held : steps.

Lemma ranged_calculate t : steps (keeping ranged) (thread_calculate_priority t).
Proof.
  pose proof ranged_allows as HR. unfold thread_calculate_priority, intr_context.
  apply steps_bind; [done|stp|intros old]. apply steps_bind; [done|stp|intros c]. apply steps_bind; [done|stp|intros n].
  apply steps_bind; [done| |stp].
  apply ranged_upd. intros r [_ Hn]. split; [cbn|done].
  destruct (Z.ltb_spec (mlfqs_priority c n) PRI_MIN), (Z.ltb_spec PRI_MAX (mlfqs_priority c n)); unfold PRI_MIN, PRI_MAX in *; lia.
Qed.
#[local] Hint Resolve ranged_calculate : steps.

Lemma ranged_handler : steps (keeping ranged) (intr_handler true).
Proof.
  pose proof ranged_allows as HR. pose proof (steps_thread_tick HR true ranged_calculate).
  assert (∀ f, steps (keeping ranged) (cpu_do f)) by (intros f; apply steps_modify; intros s Hs; exact Hs).
  unfold intr_handler, timer_interrupt, intr_get_level, intr_context. stp.
Qed.

(** C35: in every state the kernel reaches with the 4.4BSD scheduler, every
    thread has a priority between [PRI_MIN] and [PRI_MAX] and a nice value
    between -20 and 20: the clamping of [thread_calculate_priority] and the
    assertions of [init_thread] and [thread_set_nice] are enough, and donation
    stays out. *)
Theorem mlfqs_ranges w s t :
  runs_to true w s → PRI_MIN ≤ priority (threads s t) ≤ PRI_MAX ∧ -20 ≤ nice (threads s t) ≤ 20.
Proof.
  intros Hr. revert t. pose proof ranged_allows as HR. revert s Hr. apply (runs_keeping true w ranged); try done; intros.
  - apply ranged_calculate.
  - unfold thread_set_nice. intros a u b (? & ? & H1 & H)%st_bind_inv. apply assertS_inv in H1 as [H1 ->].
    apply andb_true_iff in H1 as [?%Z.leb_le ?%Z.leb_le]. revert H.
    apply steps_bind; [done|stp|intros c]. apply steps_bind; [done| |stp].
    apply ranged_upd. intros r [Hp _]. split; [done|]. cbn. lia.
  - unfold thread_set_priority. stp.
  - unfold init_thread. intros a u b (? & ? & H1 & H)%st_bind_inv. apply assertS_inv in H1 as [_ ->]. revert H.
    apply steps_bind; [done|stp|intros c]. apply steps_bind; [done| |stp]. by apply ranged_upd.
  - unfold lock_release, set_holder. stp.
  - apply ranged_handler.
Qed.

Lemma mlfqs_ranges_witness :
  let s := after true (start_up ++ [Run; Call (SetNice 20)]) in
  priority (threads s 1%positive) = 23 ∧
  PRI_MIN ≤ priority (threads s 1%positive) ≤ PRI_MAX ∧ -20 ≤ nice (threads s 1%positive) ≤ 20.
Proof.
  intros s. split; [vm_compute; reflexivity|]. apply (mlfqs_ranges no_word).
  apply after_runs. vm_compute. reflexivity.
Defined.

(** ** The formulas *)

(** [PRI_MAX - recent_cpu / 4 - nice * 2] in fixed-point numbers, rounded toward
    zero: no step overflows, whatever [recent_cpu] is. *)
Lemma mlfqs_priority_formula r n :
  int32 r → -20 ≤ n ≤ 20 → mlfqs_priority r n = Z.quot (PRI_MAX * F_CONV - Z.quot r 4 - n * 2 * F_CONV) F_CONV.
Proof.
  unfold int32. intros Hr Hn.
  assert (- 2 ^ 29 ≤ Z.quot r 4 ≤ 2 ^ 29) as Hq by zlia.
  unfold mlfqs_priority, rzconv_fptoi, sub_fpn, div_fpn, div_fpfp, sub_fpfp.
  rewrite !conv_itofp_exact by (unfold PRI_MAX; lia || (rewrite s32_id; lia)).
  unfold F_CONV, PRI_MAX in *. rewrite (s64_id (r * 2 ^ 14)), (s32_id (n * 2)) by lia.
  rewrite Z.quot_mul_cancel_r by lia. rewrite (s32_id (Z.quot r 4)) by lia.
  rewrite !s32_id by (rewrite ?s32_id; lia). done.
Qed.

(** [thread_get_load_avg] rounds before it multiplies: of 100 times the load
    average, only whole hundreds are left. *)
Lemma load_avg_hundreds s v s' :
  int32 (load_avg (cpu s)) → thread_get_load_avg s = Ret (v, s') → ∃ k, v = 100 * k.
Proof.
  unfold int32. intros Hl H. unfold thread_get_load_avg in H. st_run H. st_inv.
  exists (rnconv_fptoi (load_avg (cpu s))). apply s32_id.
  assert (- 2 ^ 18 ≤ rnconv_fptoi (load_avg (cpu s)) ≤ 2 ^ 18); [|lia].
  unfold rnconv_fptoi, F_CONV.
  destruct (0 <=? load_avg (cpu s)); match goal with |- context [s32 ?x] => pose proof (s32_range x); generalize dependent (s32 x) end;
    intros; zlia.
Qed.
