(* ===== verification/Arith64.v ===== *)
(** * 64-bit division ([lib/arithmetic.c])

    The routines the compiler calls for division and remainder of [long long]
    values on a 32-bit processor.  [divl] is the processor's instruction, which
    traps ([Panic]) when the divisor is zero or the quotient does not fit.  The
    theorems show that the quotients are those of C on every operand and that
    no trap happens for a divisor other than zero, and say when the remainders
    are right: they are computed at 64 bits but returned at 32. *)

From stdpp Require Import base tactics numbers.
From Stdlib Require Import ZArith Lia.
From S2P Require Import Prelude.

Definition divl (n d : Z) : outcome Z :=
  let n1 := u32 (Z.shiftr n 32) in
  let n0 := u32 n in
  let x := Z.shiftl n1 32 + n0 in
  if d =? 0 then Panic else if x / d <? 2 ^ 32 then Ret (x / d) else Panic.

(** One step of the binary search of [nlz]: when [x] is at most [top], count
    [k] zeros and shift them out. *)
Definition nlz_step (top k : Z) (nx : Z * Z) : Z * Z :=
  if nx.2 <=? top then (nx.1 + k, u32 (Z.shiftl nx.2 k)) else nx.

Definition nlz (x : Z) : Z :=
  let nx := nlz_step 0x0000FFFF 16 (0, x) in
  let nx := nlz_step 0x00FFFFFF 8 nx in
  let nx := nlz_step 0x0FFFFFFF 4 nx in
  let nx := nlz_step 0x3FFFFFFF 2 nx in
  if nx.2 <=? 0x7FFFFFFF then nx.1 + 1 else nx.1.

Definition udiv64 (n d : Z) : outcome Z :=
  if Z.shiftr d 32 =? 0 then
    let b := Z.shiftl 1 32 in
    let n1 := u32 (Z.shiftr n 32) in
    let n0 := u32 n in
    let d0 := u32 d in
    if d0 =? 0 then Panic
    else
      q ← divl (u64 (u64 (b * (n1 mod d0)) + n0)) d0;
      Ret (u64 (q + u64 (b * (n1 / d0))))
  else if n <? d then Ret 0
  else
    let d1 := u32 (Z.shiftr d 32) in
    let s := nlz d1 in
    q0 ← divl (Z.shiftr n 1) (u32 (Z.shiftr (u64 (Z.shiftl d s)) 32));
    let q := Z.shiftr q0 (31 - s) in
    Ret (if u64 (n - u64 (u64 (q - 1) * d)) <? d then u64 (q - 1) else q).

Definition umod64 (n d : Z) : outcome Z :=
  q ← udiv64 n d;
  Ret (u32 (u64 (n - u64 (d * q)))).

(** The absolute value of a 64-bit integer, as an unsigned one. *)
Definition abs64 (n : Z) : Z := if 0 <=? n then u64 n else u64 (- u64 n).

Definition sdiv64 (n d : Z) : outcome Z :=
  q_abs ← udiv64 (abs64 n) (abs64 d);
  Ret (if bool_decide (n < 0 ↔ d < 0) then s64 q_abs else s64 (- s64 q_abs)).

Definition smod64 (n d : Z) : outcome Z :=
  q ← sdiv64 n d;
  Ret (s32 (s64 (n - s64 (d * q)))).

Definition __divdi3 (n d : Z) : outcome Z := sdiv64 n d.
Definition __moddi3 (n d : Z) : outcome Z := smod64 n d.
Definition __udivdi3 (n d : Z) : outcome Z := udiv64 n d.
Definition __umoddi3 (n d : Z) : outcome Z := umod64 n d.

(** ** Leading zeros *)

Lemma nlz_step_spec top k n x y :
  0 ≤ k → top = 2 ^ (32 - k) - 1 → k ≤ 32 →
  0 < x < 2 ^ 32 → x = y * 2 ^ n → 0 ≤ n →
  ∃ n' x', nlz_step top k (n, x) = (n', x') ∧ n ≤ n' ∧ x' = y * 2 ^ n' ∧ x ≤ x' < 2 ^ 32 ∧
    (2 ^ (32 - k) ≤ x' ∨ x' = x * 2 ^ k).
Proof.
  intros Hk -> Hk' Hx Hy Hn. unfold nlz_step; cbn [fst snd].
  destruct (Z.leb_spec x (2 ^ (32 - k) - 1)) as [Hle|Hgt].
  - assert (2 ^ (32 - k) * 2 ^ k = 2 ^ 32) as Hp by (rewrite <- Z.pow_add_r by lia; f_equal; lia).
    rewrite Z.shiftl_mul_pow2 by lia. assert (0 < 2 ^ k) by lia.
    assert (x * 2 ^ k < 2 ^ 32) by nia.
    rewrite u32_id by nia. eexists _, _; split; [done|]. split_and!; [lia| |nia|nia|by right].
    rewrite Hy, Z.pow_add_r by lia. ring.
  - eexists _, _; split; [done|]. split_and!; lia.
Qed.

(** [nlz] counts the zeros: shifting them out puts the top bit in place. *)
Lemma nlz_spec x : 0 < x < 2 ^ 32 → 0 ≤ nlz x ≤ 31 ∧ 2 ^ 31 ≤ x * 2 ^ nlz x < 2 ^ 32.
Proof.
  intros Hx. unfold nlz.
  destruct (nlz_step_spec 0x0000FFFF 16 0 x x) as (n1&x1&->&?&E1&?&C1); [lia..|].
  destruct (nlz_step_spec 0x00FFFFFF 8 n1 x1 x) as (n2&x2&->&?&E2&?&C2); [lia..|].
  destruct (nlz_step_spec 0x0FFFFFFF 4 n2 x2 x) as (n3&x3&->&?&E3&?&C3); [lia..|].
  destruct (nlz_step_spec 0x3FFFFFFF 2 n3 x3 x) as (n4&x4&->&?&E4&?&C4); [lia..|].
  cbn [fst snd]. assert (2 ^ 30 ≤ x4) by lia.
  assert (∀ m, 0 ≤ m → x * 2 ^ m < 2 ^ 32 → m ≤ 31) as Hb.
  { intros m Hm Hlt. destruct (decide (m ≤ 31)); [done|].
    assert (2 ^ 32 ≤ 2 ^ m) by (apply Z.pow_le_mono_r; lia). nia. }
  destruct (Z.leb_spec x4 0x7FFFFFFF).
  - assert (x * 2 ^ (n4 + 1) = x4 * 2) as E by (rewrite E4, Z.pow_add_r by lia; ring).
    split; [split; [lia|apply Hb; lia]|lia].
  - split; [split; [lia|apply Hb; lia]|lia].
Qed.

(** ** Quotients *)

Lemma divl_spec n d : 0 ≤ n < 2 ^ 64 → 0 < d → n < d * 2 ^ 32 → divl n d = Ret (n / d).
Proof.
  intros Hn Hd Hlt. unfold divl.
  rewrite Z.shiftr_div_pow2, Z.shiftl_mul_pow2 by lia. rewrite (u32_id (n / 2 ^ 32)) by zlia.
  unfold u32. replace (n / 2 ^ 32 * 2 ^ 32 + n mod 2 ^ 32) with n by zlia.
  destruct (Z.eqb_spec d 0); [lia|].
  assert (n / d < 2 ^ 32) by (apply Z.div_lt_upper_bound; lia).
  by destruct (Z.ltb_spec (n / d) (2 ^ 32)); [|lia].
Qed.

(** The estimate of the quotient from the top 32 bits [v] of the normalised
    divisor is right or one too large.  [a] and [b] are the powers of two of
    the two shifts. *)
Lemma estimate_close n d v a b :
  0 ≤ n < 2 ^ 64 → 0 < a → 0 < b → a * b = 2 ^ 31 → 2 ^ 31 ≤ v →
  v * (2 * b) ≤ d < v * (2 * b) + 2 * b →
  n / d ≤ n / (v * (2 * b)) ≤ n / d + 1.
Proof.
  intros Hn Ha Hb Hab Hv Hd. set (e := v * (2 * b)) in *. assert (2 ^ 32 * b ≤ e) by (unfold e; nia).
  split; [apply Z.div_le_compat_l; lia|].
  set (q := n / e). assert (q * e ≤ n) by (unfold q; zlia).
  assert (0 ≤ q) by (apply Z.div_pos; lia). assert (q * b < 2 ^ 32) by nia.
  assert (q ≤ 2 * a - 1) by nia.
  enough ((q - 1) * d ≤ n) by (enough (q - 1 ≤ n / d) by lia; apply Z.div_le_lower_bound; lia).
  assert (q * (d - e) ≤ (2 * a - 1) * (2 * b - 1)) by nia.
  assert ((2 * a - 1) * (2 * b - 1) ≤ d) by nia. nia.
Qed.

(** The estimate [udiv64] computes, for a divisor of more than 32 bits. *)
Lemma udiv64_estimate n d s v :
  0 ≤ n < 2 ^ 64 → 0 ≤ s ≤ 31 → v = d * 2 ^ s / 2 ^ 32 → 2 ^ 31 ≤ v → 0 < d →
  n / d ≤ n / 2 / v / 2 ^ (31 - s) ≤ n / d + 1.
Proof.
  intros Hn Hs Hv Hv' Hd. set (a := 2 ^ s). set (b := 2 ^ (31 - s)).
  assert (a * b = 2 ^ 31) by (unfold a, b; rewrite <- Z.pow_add_r by lia; f_equal; lia).
  assert (0 < a ∧ 0 < b) as [??] by (unfold a, b; lia).
  rewrite !Z.div_div by lia. replace (2 * v * b) with (v * (2 * b)) by ring.
  replace (2 * (v * b)) with (v * (2 * b)) by ring.
  apply (estimate_close n d v a b); [lia..|]. fold a in Hv.
  assert (2 ^ 32 = a * (2 * b)) as E by lia. rewrite E in Hv.
  rewrite (Z.mul_comm d), Z.div_mul_cancel_l in Hv by lia. rewrite Hv. zlia.
Qed.

Lemma udiv64_wide n d :
  0 ≤ n < 2 ^ 64 → 2 ^ 32 ≤ d < 2 ^ 64 → udiv64 n d = Ret (n / d).
Proof.
  intros Hn Hd. unfold udiv64. rewrite !Z.shiftr_div_pow2 by lia.
  destruct (Z.eqb_spec (d / 2 ^ 32) 0); [zlia|].
  destruct (Z.ltb_spec n d); [by rewrite Z.div_small by lia|].
  rewrite (u32_id (d / 2 ^ 32)) by zlia.
  destruct (nlz_spec (d / 2 ^ 32)) as [Hs Hnz]; [zlia|]. set (s := nlz (d / 2 ^ 32)) in *.
  rewrite Z.shiftl_mul_pow2 by lia. set (a := 2 ^ s) in *. assert (0 < a) by (unfold a; lia).
  assert (d * a < 2 ^ 64) as Hda.
  { assert (2 ^ (32 - s) * a = 2 ^ 32) as Hp by (unfold a; rewrite <- Z.pow_add_r by lia; f_equal; lia).
    assert (d / 2 ^ 32 + 1 ≤ 2 ^ (32 - s)) by nia. assert (d < (d / 2 ^ 32 + 1) * 2 ^ 32) by zlia. nia. }
  rewrite (u64_id (d * a)) by nia. set (v := d * a / 2 ^ 32).
  assert (2 ^ 31 ≤ v < 2 ^ 32).
  { unfold v. split; [|apply Z.div_lt_upper_bound; lia]. apply Z.div_le_lower_bound; [lia|].
    assert (d / 2 ^ 32 * 2 ^ 32 ≤ d) by zlia. nia. }
  rewrite (u32_id v) by lia. change (2 ^ 1) with 2.
  rewrite divl_spec by zlia. cbn [mbind outcome_bind].
  rewrite Z.shiftr_div_pow2 by lia.
  pose proof (udiv64_estimate n d s v Hn ltac:(lia) eq_refl ltac:(lia) ltac:(lia)) as Hq.
  set (q := n / 2 / v / 2 ^ (31 - s)) in *. clearbody q.
  assert (1 ≤ n / d) by (apply Z.div_le_lower_bound; lia).
  assert (n / d < 2 ^ 32) by (apply Z.div_lt_upper_bound; nia).
  rewrite (u64_id (q - 1)) by lia.
  assert ((q - 1) * d ≤ n) by (assert (n / d * d ≤ n) by zlia; nia).
  rewrite (u64_id ((q - 1) * d)), (u64_id (n - _)) by nia.
  f_equal. destruct (Z.ltb_spec (n - (q - 1) * d) d).
  - apply Z.div_unique with (n - (q - 1) * d); lia.
  - enough (q ≤ n / d) by lia. apply Z.div_le_lower_bound; lia.
Qed.

Lemma udiv64_narrow n d :
  0 ≤ n < 2 ^ 64 → 0 < d < 2 ^ 32 → udiv64 n d = Ret (n / d).
Proof.
  intros Hn Hd. unfold udiv64. rewrite !Z.shiftr_div_pow2, Z.shiftl_mul_pow2 by lia.
  destruct (Z.eqb_spec (d / 2 ^ 32) 0); [|zlia].
  rewrite (u32_id d), (u32_id (n / 2 ^ 32)) by zlia. unfold u32.
  set (n1 := n / 2 ^ 32). set (n0 := n mod 2 ^ 32).
  assert (n = n1 * 2 ^ 32 + n0 ∧ 0 ≤ n0 < 2 ^ 32 ∧ 0 ≤ n1 < 2 ^ 32) as (En & H0 & H1)
    by (unfold n0, n1; zlia). clearbody n0 n1.
  destruct (Z.eqb_spec d 0); [lia|]. change (1 * 2 ^ 32) with (2 ^ 32).
  pose proof (Z.div_mod n1 d ltac:(lia)) as E1. pose proof (Z.mod_pos_bound n1 d ltac:(lia)).
  set (r := n1 mod d) in *. set (t := n1 / d) in *. assert (0 ≤ t) by (apply Z.div_pos; lia).
  assert (t < 2 ^ 32) by nia. clearbody r t.
  rewrite (u64_id (2 ^ 32 * r)), (u64_id (_ + n0)), (u64_id (2 ^ 32 * t)) by lia.
  rewrite divl_spec by nia. cbn [mbind outcome_bind].
  replace n with (2 ^ 32 * r + n0 + 2 ^ 32 * t * d) by (rewrite En, E1; ring).
  rewrite Z.div_add by lia. rewrite u64_id; [done|].
  assert (0 ≤ (2 ^ 32 * r + n0) / d < 2 ^ 32)
    by (split; [apply Z.div_pos; lia|apply Z.div_lt_upper_bound; nia]). lia.
Qed.

Lemma udiv64_spec n d : 0 ≤ n < 2 ^ 64 → 0 < d < 2 ^ 64 → udiv64 n d = Ret (n / d).
Proof.
  intros Hn Hd. destruct (decide (d < 2 ^ 32)); [apply udiv64_narrow|apply udiv64_wide]; lia.
Qed.

Lemma udiv64_zero n : udiv64 n 0 = Panic.
Proof. done. Qed.

(** ** Signed quotients and remainders *)

Definition int64 (n : Z) : Prop := - 2 ^ 63 ≤ n < 2 ^ 63.

Lemma abs64_spec n : int64 n → abs64 n = Z.abs n.
Proof.
  unfold int64, abs64, u64. intros Hn. destruct (Z.leb_spec 0 n); [rewrite Z.mod_small; lia|zlia].
Qed.

Lemma s64_congr x y : (x - y) mod 2 ^ 64 = 0 → s64 x = s64 y.
Proof. unfold s64. intros H. zlia. Qed.

Lemma s64_mod x : ∃ k, s64 x = x + k * 2 ^ 64.
Proof. exists (- ((x + 2 ^ 63) / 2 ^ 64)). unfold s64. zlia. Qed.

Lemma s64_opp x : s64 (- s64 x) = s64 (- x).
Proof. apply s64_congr. unfold s64. zlia. Qed.

Lemma quot_abs n d :
  d ≠ 0 → Z.quot n d = if bool_decide (n < 0 ↔ d < 0) then Z.abs n / Z.abs d else - (Z.abs n / Z.abs d).
Proof.
  intros Hd. rewrite <- (Z.quot_div_nonneg (Z.abs n)) by lia.
  rewrite Z.quot_abs by done. pose proof (Z.quot_pos (Z.abs n) (Z.abs d)) as Hp.
  destruct (Z.abs_spec n) as [[? En]|[? En]], (Z.abs_spec d) as [[? Ed]|[? Ed]];
    rewrite En, Ed, ?Z.quot_opp_l, ?Z.quot_opp_r in Hp by lia;
    specialize (Hp ltac:(lia) ltac:(lia)); case_bool_decide; try lia.
Qed.

Lemma sdiv64_spec n d : int64 n → int64 d → d ≠ 0 → sdiv64 n d = Ret (s64 (Z.quot n d)).
Proof.
  intros Hn Hd Hz. unfold sdiv64. rewrite !abs64_spec by done. unfold int64 in *.
  rewrite udiv64_spec by lia. cbn [mbind outcome_bind]. rewrite (quot_abs n d Hz).
  case_bool_decide; [done|]. by rewrite s64_opp.
Qed.

(** C29: the 64-bit quotients are those of C for every dividend and every
    divisor other than zero, although the processor divides by 32 bits only;
    no division traps.  The one signed quotient that does not fit,
    [INT64_MIN / -1], wraps around.  A zero divisor traps. *)
Theorem division_correct n d :
  (0 ≤ n < 2 ^ 64 → 0 < d < 2 ^ 64 → __udivdi3 n d = Ret (n / d)) ∧
  (int64 n → int64 d → d ≠ 0 →
     __divdi3 n d = Ret (if bool_decide (n = - 2 ^ 63 ∧ d = -1) then n else Z.quot n d)) ∧
  __udivdi3 n 0 = Panic ∧ __divdi3 n 0 = Panic.
Proof.
  split_and!; [by apply udiv64_spec| |done|done]. intros Hn Hd Hz.
  unfold __divdi3. rewrite sdiv64_spec by done. unfold int64 in *. f_equal.
  case_bool_decide as Hc; [destruct Hc as [-> ->]; done|].
  apply s64_id. clear -Hn Hd Hz Hc. zlia.
Qed.

Lemma division_correct_witness :
  __udivdi3 (2 ^ 64 - 1) (2 ^ 32 + 1) = Ret (2 ^ 32 - 1) ∧ __divdi3 (- 2 ^ 40) 7 = Ret (Z.quot (- 2 ^ 40) 7).
Proof.
  split; [apply (proj1 (division_correct (2 ^ 64 - 1) (2 ^ 32 + 1))); lia|].
  apply (proj1 (proj2 (division_correct (- 2 ^ 40) 7))); unfold int64; lia.
Defined.

(** The remainders come back at 32 bits: they are right exactly when the
    true remainder fits, as it does for every divisor of at most 32 bits, and
    are cut off otherwise. *)
Theorem remainder_truncated n d :
  (0 ≤ n < 2 ^ 64 → 0 < d < 2 ^ 64 →
     __umoddi3 n d = Ret (u32 (n mod d)) ∧ (d ≤ 2 ^ 32 → __umoddi3 n d = Ret (n mod d))) ∧
  (int64 n → int64 d → d ≠ 0 →
     __moddi3 n d = Ret (s32 (Z.rem n d)) ∧ (Z.abs d ≤ 2 ^ 31 → __moddi3 n d = Ret (Z.rem n d))) ∧
  __umoddi3 (2 ^ 32) (2 ^ 33) = Ret 0 ∧ __moddi3 (2 ^ 32) (2 ^ 33) = Ret 0.
Proof.
  split_and!; [| |done..].
  - intros Hn Hd. unfold __umoddi3, umod64. rewrite udiv64_spec by done. cbn [mbind outcome_bind].
    pose proof (Z.mod_pos_bound n d ltac:(lia)).
    pose proof (Z.div_mod n d ltac:(lia)). assert (0 ≤ n / d) by (apply Z.div_pos; lia).
    rewrite (u64_id (d * _)), (u64_id (n - _)) by nia.
    replace (n - d * (n / d)) with (n mod d) by lia.
    split; [done|]. intros. by rewrite u32_id by lia.
  - intros Hn Hd Hz. unfold __moddi3, smod64. rewrite sdiv64_spec by done. cbn [mbind outcome_bind].
    pose proof (Z.rem_bound_abs n d Hz).
    replace (s64 (n - s64 (d * s64 (Z.quot n d)))) with (Z.rem n d).
    { split; [done|]. intros. by rewrite s32_id by lia. }
    pose proof (Z.quot_rem' n d) as E. unfold int64 in *. set (q := Z.quot n d) in *. clearbody q.
    destruct (s64_mod q) as [k1 E1], (s64_mod (d * s64 q)) as [k2 E2].
    transitivity (s64 (n - d * q)); [rewrite s64_id; lia|].
    apply s64_congr, Z.mod_divide; [lia|]. exists (k2 + d * k1). rewrite E2, E1. ring.
Qed.

Lemma remainder_truncated_witness :
  __umoddi3 (2 ^ 63 + 5) 1000 = Ret ((2 ^ 63 + 5) mod 1000) ∧ __moddi3 (-7) 100 = Ret (-7).
Proof.
  split.
  - apply (proj1 (remainder_truncated (2 ^ 63 + 5) 1000)); lia.
  - apply (proj1 (proj2 (remainder_truncated (-7) 100))); unfold int64; lia.
Defined.
