(* ===== verification/Qsort.v ===== *)
(** * Sorting and searching of arrays ([lib/stdlib.c])

    [sort] (heap sort), [qsort], [binary_search] and [bsearch] on an array of
    elements of [size] bytes each: the array is its bytes, swapped one by one
    as the code does, and an access outside of it is a [Panic].  The theorems
    show, for a comparison function that is an order, that sorting returns, in
    place, a sorted permutation of the elements, and that searching a sorted
    array finds a match exactly when there is one. *)

From stdpp Require Import base tactics list numbers option sorting sets.
From Stdlib Require Import ZArith Lia.
From S2P Require Import Prelude.

Local Open Scope nat_scope.

Definition byte_at (array : list Z) (k : nat) : outcome Z :=
  match array !! k with Some x => Ret x | None => Panic end.

Section array.
Context (size : nat) (compare : list Z → list Z → Z).

(** [array + (idx - 1) * size]: the offset of an element by its 1-based
    index. *)
Definition offset (idx : nat) : outcome nat :=
  match idx with 0 => Panic | S k => Ret (k * size) end.

(** The element at an offset, for the comparison function to read. *)
Definition elem_at (array : list Z) (off : nat) : outcome (list Z) :=
  if decide (off + size ≤ length array) then Ret (take size (drop off array)) else Panic.

Fixpoint do_swap_loop (n i a b : nat) (array : list Z) : outcome (list Z) :=
  match n with
  | 0 => Ret array
  | S n =>
      t ← byte_at array (a + i);
      u ← byte_at array (b + i);
      do_swap_loop n (S i) a b (<[b + i := t]> (<[a + i := u]> array))
  end.

Definition do_swap (array : list Z) (a_idx b_idx : nat) : outcome (list Z) :=
  a ← offset a_idx;
  b ← offset b_idx;
  do_swap_loop size 0 a b array.

Definition do_compare (array : list Z) (a_idx b_idx : nat) : outcome Z :=
  a ← offset a_idx;
  b ← offset b_idx;
  x ← elem_at array a;
  y ← elem_at array b;
  Ret (compare x y).

(** [if (idx <= cnt && do_compare (array, idx, max, ...) > 0) max = idx;] *)
Definition larger (array : list Z) (cnt idx max : nat) : outcome nat :=
  if decide (idx ≤ cnt) then
    c ← do_compare array idx max;
    Ret (if (0 <? c)%Z then idx else max)
  else Ret max.

Definition size_t (n : Z) : nat := Z.to_nat (u32 n).

Fixpoint heapify (fuel : nat) (array : list Z) (i cnt : nat) : outcome (list Z) :=
  match fuel with
  | 0 => Diverge
  | S fuel =>
      let left := size_t (2 * Z.of_nat i) in
      let right := size_t (2 * Z.of_nat i + 1) in
      max ← larger array cnt left i;
      max ← larger array cnt right max;
      if decide (max = i) then Ret array
      else
        array ← do_swap array i max;
        heapify fuel array max cnt
  end.

(** [for (i = cnt / 2; i > 0; i--) heapify (array, i, cnt, ...);] *)
Fixpoint build_heap (i cnt : nat) (array : list Z) : outcome (list Z) :=
  match i with
  | 0 => Ret array
  | S i' => array ← heapify (S cnt) array i cnt; build_heap i' cnt array
  end.

(** [for (i = cnt; i > 1; i--)] of the second phase. *)
Fixpoint sort_heap (i : nat) (array : list Z) : outcome (list Z) :=
  match i with
  | 0 | 1 => Ret array
  | S i' =>
      array ← do_swap array 1 i;
      array ← heapify i array 1 (i - 1);
      sort_heap i' array
  end.

Definition sort (array : list Z) (cnt : nat) : outcome (list Z) :=
  ASSERT (bool_decide (0 < size));;
  array ← build_heap (cnt / 2) cnt array;
  sort_heap cnt array.

Fixpoint search_loop (fuel : nat) (key array : list Z) (first last : nat) : outcome (option nat) :=
  match fuel with
  | 0 => Diverge
  | S fuel =>
      if decide (first < last) then
        let range := (last - first) / size in
        let middle := first + range / 2 * size in
        x ← elem_at array middle;
        let cmp := compare key x in
        if (cmp <? 0)%Z then search_loop fuel key array first middle
        else if (0 <? cmp)%Z then search_loop fuel key array (middle + size) last
        else Ret (Some middle)
      else Ret None
  end.

Definition binary_search (key array : list Z) (cnt : nat) : outcome (option nat) :=
  search_loop (S cnt) key array 0 (size * cnt).

(** ** Arrays as lists of elements *)

Definition elements (xs : list (list Z)) : Prop := Forall (λ x, length x = size) xs.

Lemma concat_length xs : elements xs → length (concat xs) = length xs * size.
Proof. induction 1 as [|x xs Hx Hxs IH]; [done|]. cbn. rewrite length_app, IH. lia. Qed.

(** The bytes of an array around one of its elements. *)
Lemma concat_split xs k x :
  elements xs → xs !! k = Some x →
  ∃ pre post, concat xs = pre ++ x ++ post ∧ length pre = k * size ∧
    (∀ y, concat (<[k := y]> xs) = pre ++ y ++ post).
Proof.
  intros Hxs Hk. exists (concat (take k xs)), (concat (drop (S k) xs)).
  assert (k < length xs) by (apply lookup_lt_is_Some; eauto).
  split_and!.
  - rewrite <- (take_drop_middle xs k x Hk) at 1. by rewrite concat_app.
  - rewrite concat_length by (by apply Forall_take). rewrite length_take. lia.
  - intros y. rewrite insert_take_drop by done. by rewrite concat_app.
Qed.

Lemma elem_at_concat xs k x :
  elements xs → xs !! k = Some x → elem_at (concat xs) (k * size) = Ret x.
Proof.
  intros Hxs Hk. destruct (concat_split xs k x Hxs Hk) as (pre & post & E & Hp & _).
  assert (length x = size) as Hx by (by eapply (Forall_lookup_1 _ _ _ _ Hxs)).
  unfold elem_at. rewrite E, !length_app, <- Hp. case_decide; [|lia].
  rewrite drop_app_length, <- Hx, take_app_length. done.
Qed.

Lemma byte_at_app pre x post : byte_at (pre ++ x :: post) (length pre) = Ret x.
Proof. unfold byte_at. by rewrite list_lookup_middle. Qed.

Lemma insert_app {A} (pre post : list A) x v : <[length pre := v]> (pre ++ x :: post) = pre ++ v :: post.
Proof. rewrite insert_app_r_alt by done. by rewrite Nat.sub_diag. Qed.

Ltac app_eq := repeat first [progress rewrite <- ?app_assoc | progress cbn [app]]; done.

(** The loop of [do_swap] exchanges two strings of bytes, the first of which
    ends before the second begins. *)
Lemma do_swap_loop_spec p m q x2 : ∀ x1 y1 y2,
  length x1 = length y1 → length x2 = length y2 →
  do_swap_loop (length x2) (length x1) (length p) (length (p ++ y1 ++ x2 ++ m))
    (p ++ (y1 ++ x2) ++ m ++ (x1 ++ y2) ++ q) = Ret (p ++ (y1 ++ y2) ++ m ++ (x1 ++ x2) ++ q).
Proof.
  induction x2 as [|c x2 IH]; intros x1 y1 [|d y2] H1 H2; try done.
  cbn [do_swap_loop length].
  replace (length p + length x1) with (length (p ++ y1)) by (rewrite length_app; lia).
  set (b := length (p ++ y1 ++ (c :: x2) ++ m)).
  assert (b + length x1 = length ((p ++ y1) ++ (c :: x2) ++ m ++ x1)) as Eb
    by (unfold b; rewrite !length_app; lia).
  replace (p ++ (y1 ++ c :: x2) ++ m ++ (x1 ++ d :: y2) ++ q)
    with ((p ++ y1) ++ c :: x2 ++ m ++ (x1 ++ d :: y2) ++ q) by app_eq.
  assert (byte_at ((p ++ y1) ++ c :: x2 ++ m ++ (x1 ++ d :: y2) ++ q) (b + length x1) = Ret d) as Ed.
  { rewrite Eb. etransitivity; [|apply byte_at_app]. f_equal. app_eq. }
  rewrite byte_at_app. cbn [mbind outcome_bind]. rewrite Ed. cbn [mbind outcome_bind].
  rewrite insert_app, Eb.
  replace ((p ++ y1) ++ d :: x2 ++ m ++ (x1 ++ d :: y2) ++ q)
    with (((p ++ y1) ++ (d :: x2) ++ m ++ x1) ++ d :: y2 ++ q) by app_eq.
  replace (length ((p ++ y1) ++ (c :: x2) ++ m ++ x1)) with (length ((p ++ y1) ++ (d :: x2) ++ m ++ x1))
    by (rewrite !length_app; done).
  rewrite insert_app. specialize (IH (x1 ++ [c]) (y1 ++ [d]) y2). rewrite !length_app in IH.
  specialize (IH ltac:(cbn; lia) ltac:(cbn in *; lia)).
  replace (((p ++ y1) ++ (d :: x2) ++ m ++ x1) ++ c :: y2 ++ q)
    with (p ++ ((y1 ++ [d]) ++ x2) ++ m ++ ((x1 ++ [c]) ++ y2) ++ q) by app_eq.
  replace b with (length p + (length y1 + length [d] + (length x2 + length m)))
    by (unfold b; rewrite !length_app; cbn; lia).
  replace (S (length x1)) with (length x1 + length [c]) by (cbn; lia).
  rewrite IH. f_equal. app_eq.
Qed.

(** Exchanging two elements of a list. *)
Lemma two_elements {A} (xs : list A) i j x y :
  i < j → xs !! i = Some x → xs !! j = Some y →
  ∃ p m q, xs = p ++ x :: m ++ y :: q ∧ length p = i ∧ i + S (length m) = j ∧
    <[j := x]> (<[i := y]> xs) = p ++ y :: m ++ x :: q.
Proof.
  intros Hij Hi Hj. assert (j < length xs) by (apply lookup_lt_is_Some; eauto).
  exists (take i xs), (take (j - S i) (drop (S i) xs)), (drop (S j) xs).
  assert (xs = take i xs ++ x :: take (j - S i) (drop (S i) xs) ++ y :: drop (S j) xs) as E.
  { rewrite <- (take_drop_middle xs i x Hi) at 1. do 2 f_equal.
    rewrite <- (take_drop_middle (drop (S i) xs) (j - S i) y) at 1.
    - rewrite drop_drop. do 3 f_equal. lia.
    - rewrite lookup_drop, <- Hj. f_equal. lia. }
  assert (length (take i xs) = i) as Hl by (rewrite length_take; lia).
  assert (i + S (length (take (j - S i) (drop (S i) xs))) = j) as Hm
    by (rewrite length_take, length_drop; lia).
  split_and!; [done..|]. rewrite E at 1.
  set (p := take i xs) in *. set (m := take (j - S i) _) in *. set (q := drop (S j) xs). clearbody p m q.
  rewrite <- Hl, insert_app.
  replace (p ++ y :: m ++ y :: q) with ((p ++ y :: m) ++ y :: q) by app_eq.
  replace j with (length (p ++ y :: m)) by (rewrite length_app; cbn; lia).
  rewrite insert_app. app_eq.
Qed.

(** [do_swap] exchanges two elements. *)
Lemma do_swap_spec xs i j x y :
  elements xs → i < j → xs !! i = Some x → xs !! j = Some y →
  do_swap (concat xs) (S i) (S j) = Ret (concat (<[j := x]> (<[i := y]> xs))).
Proof.
  intros Hxs Hij Hi Hj. unfold do_swap; cbn [offset mbind outcome_bind].
  assert (length x = size) as Hx by (by eapply (Forall_lookup_1 _ _ _ _ Hxs)).
  assert (length y = size) as Hy by (by eapply (Forall_lookup_1 _ _ _ _ Hxs)).
  destruct (two_elements xs i j x y) as (p & m & q & -> & Hl & Hm & ->); [done..|].
  unfold elements in Hxs. rewrite Forall_app, Forall_cons, Forall_app in Hxs.
  destruct Hxs as (Hp & _ & Hmm & _).
  pose proof (do_swap_loop_spec (concat p) (concat m) (concat q) x [] [] y eq_refl ltac:(lia)) as IH.
  cbn [app length] in IH. rewrite !length_app, Hx, concat_length, concat_length, Hl in IH by done.
  replace (i * size + (size + length m * size)) with (j * size) in IH by lia.
  rewrite !concat_app. cbn [concat]. rewrite !concat_app. cbn [concat]. by rewrite IH.
Qed.

(** ** Heaps *)

(** A comparison function that orders its arguments, as [strcmp] does. *)
Record comparison : Prop := {
  compare_sign a b : (0 < compare a b ↔ compare b a < 0)%Z;
  compare_trans a b c : (compare a b ≤ 0 → compare b c ≤ 0 → compare a c ≤ 0)%Z
}.

Definition le (a b : list Z) : Prop := (compare a b ≤ 0)%Z.

(** The element with the 1-based index [k]. *)
Definition get (xs : list (list Z)) (k : nat) : list Z := xs !!! (k - 1).

Definition child (p c : nat) : Prop := c = 2 * p ∨ c = 2 * p + 1.

Definition heap (lo cnt : nat) (xs : list (list Z)) : Prop :=
  ∀ p c, lo ≤ p → child p c → c ≤ cnt → le (get xs c) (get xs p).

(** A heap but for the element [i], which may be smaller than its children. *)
Definition heap_but (lo i cnt : nat) (xs : list (list Z)) : Prop :=
  (∀ p c, lo ≤ p → p ≠ i → child p c → c ≤ cnt → le (get xs c) (get xs p)) ∧
  (∀ p c, lo ≤ p → child p i → child i c → c ≤ cnt → le (get xs c) (get xs p)).

Definition swap (i j : nat) (xs : list (list Z)) : list (list Z) :=
  <[j - 1 := get xs i]> (<[i - 1 := get xs j]> xs).

Lemma get_lookup xs k : 1 ≤ k ≤ length xs → xs !! (k - 1) = Some (get xs k).
Proof. intros. apply list_lookup_lookup_total_lt. lia. Qed.

Lemma swap_spec xs i j :
  elements xs → 1 ≤ i < j → j ≤ length xs →
  do_swap (concat xs) i j = Ret (concat (swap i j xs)) ∧ elements (swap i j xs) ∧
  length (swap i j xs) = length xs ∧
  get (swap i j xs) i = get xs j ∧ get (swap i j xs) j = get xs i ∧
  (∀ k, 1 ≤ k → k ≠ i → k ≠ j → get (swap i j xs) k = get xs k).
Proof.
  intros Hxs Hij Hj. pose proof (get_lookup xs i ltac:(lia)) as Ei. pose proof (get_lookup xs j ltac:(lia)) as Ej.
  split_and!.
  - pose proof (do_swap_spec xs (i - 1) (j - 1) _ _ Hxs ltac:(lia) Ei Ej) as E.
    by replace (S (i - 1)) with i in E by lia; replace (S (j - 1)) with j in E by lia.
  - apply Forall_insert; [apply Forall_insert; [done|]|];
      eapply (Forall_lookup_1 (λ x, length x = size) xs); eassumption.
  - unfold swap. by rewrite !length_insert.
  - unfold get at 1, swap. rewrite list_lookup_total_insert_ne, list_lookup_total_insert_eq by lia; done.
  - unfold get at 1, swap. rewrite list_lookup_total_insert_eq; [done|]. rewrite length_insert. lia.
  - intros k Hk Hki Hkj. unfold get at 1, swap. by rewrite !list_lookup_total_insert_ne by lia.
Qed.

(** Exchanging two of the first [cnt] elements. *)
Lemma swap_perm xs i j cnt :
  1 ≤ i < j → j ≤ cnt → cnt ≤ length xs →
  take cnt (swap i j xs) ≡ₚ take cnt xs ∧ drop cnt (swap i j xs) = drop cnt xs.
Proof.
  intros Hij Hj Hc. pose proof (get_lookup xs i ltac:(lia)) as Ei. pose proof (get_lookup xs j ltac:(lia)) as Ej.
  destruct (two_elements xs (i - 1) (j - 1) _ _ ltac:(lia) Ei Ej) as (p & m & q & E & Hl & Hm & Es).
  unfold swap. rewrite Es. set (x := get xs i) in *. set (y := get xs j) in *. rewrite E. clear E Es Ei Ej.
  replace (p ++ y :: m ++ x :: q) with ((p ++ y :: m ++ [x]) ++ q) by app_eq.
  replace (p ++ x :: m ++ y :: q) with ((p ++ x :: m ++ [y]) ++ q) by app_eq.
  assert (∀ u v, length (p ++ u :: m ++ [v]) = j) as Hlen
    by (intros; rewrite length_app; cbn; rewrite length_app; cbn; lia).
  rewrite !take_app_ge, !drop_app_ge, !Hlen by (rewrite Hlen; lia). split; [|done].
  apply Permutation_app_tail, Permutation_app_head.
  rewrite (Permutation_app_comm m [x]), (Permutation_app_comm m [y]). apply Permutation_swap.
Qed.

Lemma size_t_id n : (0 ≤ n < 2 ^ 32)%Z → size_t n = Z.to_nat n.
Proof. intros. unfold size_t. by rewrite u32_id. Qed.

Lemma larger_spec xs cnt idx max :
  elements xs → cnt ≤ length xs → 1 ≤ idx → 1 ≤ max ≤ cnt →
  larger (concat xs) cnt idx max =
    Ret (if decide (idx ≤ cnt ∧ (0 < compare (get xs idx) (get xs max))%Z) then idx else max).
Proof.
  intros Hxs Hc Hi Hm. unfold larger. destruct (decide (idx ≤ cnt)); [|by rewrite decide_False by naive_solver].
  unfold do_compare. destruct idx as [|k]; [lia|]. destruct max as [|k']; [lia|].
  cbn [offset mbind outcome_bind].
  rewrite (elem_at_concat xs k (get xs (S k))), (elem_at_concat xs k' (get xs (S k'))); cbn [mbind outcome_bind].
  2-5: first [done | rewrite <- get_lookup by lia; f_equal; lia].
  destruct (Z.ltb_spec 0 (compare (get xs (S k)) (get xs (S k')))); case_decide; naive_solver lia.
Qed.

Section heap.
Context (Hcmp : comparison).

Lemma le_refl a : le a a.
Proof. unfold le. pose proof (compare_sign Hcmp a a). lia. Qed.
Lemma le_trans a b c : le a b → le b c → le a c.
Proof. apply (compare_trans Hcmp). Qed.
Lemma le_total a b : ¬ (0 < compare a b)%Z → le a b.
Proof. unfold le. lia. Qed.
Lemma gt_le a b : (0 < compare a b)%Z → le b a.
Proof. unfold le. intros ?%(compare_sign Hcmp). lia. Qed.

(** The index [heapify] goes on with: the largest of an element and its
    children. *)
Lemma largest_spec xs cnt i :
  elements xs → cnt ≤ length xs → 1 ≤ i ≤ cnt →
  ∃ m, (max ← larger (concat xs) cnt (2 * i) i; larger (concat xs) cnt (2 * i + 1) max) = Ret m ∧
    (m = i ∨ child i m ∧ m ≤ cnt) ∧ le (get xs i) (get xs m) ∧
    (∀ c, child i c → c ≤ cnt → le (get xs c) (get xs m)).
Proof.
  intros Hxs Hc Hi. rewrite larger_spec by (done || lia). cbn [mbind outcome_bind].
  set (l := if decide _ then _ else _).
  assert (l = 2 * i ∧ 2 * i ≤ cnt ∧ le (get xs i) (get xs l) ∨
    l = i ∧ (2 * i ≤ cnt → le (get xs (2 * i)) (get xs i))) as Hl.
  { unfold l. case_decide as Hd; [left; naive_solver auto using gt_le|right].
    split; [done|]. intros. apply le_total. naive_solver. }
  assert (1 ≤ l ≤ cnt) by (destruct Hl; lia). clearbody l.
  rewrite larger_spec by (done || lia). case_decide as Hd; eexists; split_and!; try done.
  - right. split; [by right|lia].
  - destruct Hd as [_ Hd%gt_le]. destruct Hl as [(->&?&?)|[-> ?]]; eauto using le_trans.
  - destruct Hd as [_ Hd%gt_le]. intros c [->| ->] Hcc; [|apply le_refl].
    destruct Hl as [(->&?&?)|[-> ?]]; eauto using le_trans.
  - destruct Hl as [(->&?&?)|[-> ?]]; [right; split; [by left|lia]|by left].
  - destruct Hl as [(->&?&?)|[-> ?]]; [done|apply le_refl].
  - intros c [->| ->] Hcc.
    + destruct Hl as [(->&?&?)|[-> ?]]; [apply le_refl|auto].
    + apply le_total. naive_solver.
Qed.

(** Floating an element one level down. *)
Lemma heap_but_swap lo i m cnt xs :
  elements xs → 1 ≤ lo ≤ i → cnt ≤ length xs → child i m → m ≤ cnt →
  (∀ c, child i c → c ≤ cnt → le (get xs c) (get xs m)) → le (get xs i) (get xs m) →
  heap_but lo i cnt xs → heap_but lo m cnt (swap i m xs).
Proof.
  intros Hxs Hlo Hc Hm Hmc Hmax Him [H1 H2].
  assert (1 ≤ i < m) by (destruct Hm; lia).
  destruct (swap_spec xs i m) as (_ & _ & _ & Ei & Em & Ek); [done|lia..|].
  split; intros p c Hp.
  - intros Hpm Hpc Hcc. destruct (decide (p = i)) as [->|Hpi].
    + rewrite Ei. destruct (decide (c = m)) as [->|]; [by rewrite Em|].
      rewrite Ek by (destruct Hpc; lia). auto.
    + rewrite (Ek p) by lia. destruct (decide (c = i)) as [->|].
      * rewrite Ei. by apply H2.
      * assert (c ≠ m) by (unfold child in *; lia). rewrite Ek by (destruct Hpc; lia). by apply H1.
  - intros Hpm Hmc' Hcc. assert (p = i) as -> by (unfold child in *; lia).
    rewrite Ei, Ek by (destruct Hmc', Hm; lia). apply H1; [destruct Hm; lia..|done|done].
Qed.

(** [heapify] terminates and repairs the heap by exchanging elements of it. *)
Lemma heapify_spec fuel : ∀ xs lo i cnt,
  elements xs → (Z.of_nat cnt < 2 ^ 31)%Z → cnt ≤ length xs → 1 ≤ lo ≤ i → i ≤ cnt → cnt < fuel + i →
  heap_but lo i cnt xs →
  ∃ xs', heapify fuel (concat xs) i cnt = Ret (concat xs') ∧ elements xs' ∧ length xs' = length xs ∧
    heap lo cnt xs' ∧ take cnt xs' ≡ₚ take cnt xs ∧ drop cnt xs' = drop cnt xs.
Proof.
  induction fuel as [|fuel IH]; intros xs lo i cnt Hxs H31 Hc Hlo Hi Hf Hb; [lia|].
  cbn [heapify]. rewrite !size_t_id by lia.
  replace (Z.to_nat (2 * Z.of_nat i)) with (2 * i) by lia.
  replace (Z.to_nat (2 * Z.of_nat i + 1)) with (2 * i + 1) by lia.
  destruct (largest_spec xs cnt i) as (m & Em & Hm & Him & Hmax); [done|lia..|].
  destruct (larger (concat xs) cnt (2 * i) i) as [l| |]; [|done..].
  cbn [mbind outcome_bind] in Em |- *. rewrite Em. cbn [mbind outcome_bind].
  case_decide as Hmi.
  - exists xs. split_and!; try done. intros p c Hp Hpc Hcc.
    destruct (decide (p = i)) as [->|]; [rewrite Hmi in Hmax; auto|]. by apply (proj1 Hb).
  - destruct Hm as [|[Hm Hmc]]; [done|]. assert (i < m) by (destruct Hm; lia).
    destruct (swap_spec xs i m) as (-> & He & Hl & _); [done|lia..|]. cbn [mbind outcome_bind].
    destruct (swap_perm xs i m cnt) as [Hp Hd]; [lia..|].
    destruct (IH (swap i m xs) lo m cnt) as (xs' & -> & ? & ? & ? & Hp' & Hd'); try lia; try done.
    { eapply heap_but_swap; eauto. }
    exists xs'. split_and!; [done..|congruence|done|by rewrite Hp'|congruence].
Qed.

Lemma heap_but_build i cnt xs : heap (S i) cnt xs → heap_but i i cnt xs.
Proof.
  intros Hh. split; [intros p c Hp Hpi; apply Hh; lia|]. intros p c Hp Hpi.
  assert (i = 0) as -> by (destruct Hpi; lia). assert (p = 0) as -> by (destruct Hpi; lia).
  intros Hc Hcc. destruct (decide (c = 0)) as [->|]; [apply le_refl|]. destruct Hc; [lia|].
  unfold get. subst c. apply le_refl.
Qed.

Lemma build_heap_spec i : ∀ cnt xs,
  elements xs → (Z.of_nat cnt < 2 ^ 31)%Z → length xs = cnt → i ≤ cnt → heap (S i) cnt xs →
  ∃ xs', build_heap i cnt (concat xs) = Ret (concat xs') ∧ elements xs' ∧ length xs' = cnt ∧
    heap 1 cnt xs' ∧ xs' ≡ₚ xs.
Proof.
  induction i as [|i IH]; intros cnt xs Hxs H31 Hl Hi Hh; [exists xs; by split_and!|].
  cbn [build_heap].
  destruct (heapify_spec (S cnt) xs (S i) (S i) cnt) as (xs1 & -> & He & Hl1 & Hh1 & Hp1 & _); try lia; [done| |].
  { by apply heap_but_build. }
  cbn [mbind outcome_bind]. rewrite !take_ge in Hp1 by lia.
  destruct (IH cnt xs1) as (xs2 & -> & ? & ? & ? & Hp2); try lia; [done..|].
  exists xs2. split_and!; [done..|]. by rewrite Hp2.
Qed.

(** The root of a heap is its largest element. *)
Lemma heap_root cnt xs k : heap 1 cnt xs → 1 ≤ k ≤ cnt → le (get xs k) (get xs 1).
Proof.
  intros Hh. induction (lt_wf k) as [k _ IH]. intros Hk.
  destruct (decide (k = 1)) as [->|]; [apply le_refl|].
  assert (child (k / 2) k) as Hc.
  { unfold child. pose proof (Nat.div_mod k 2). pose proof (Nat.mod_upper_bound k 2). lia. }
  assert (1 ≤ k / 2 < k) by (destruct Hc; lia).
  apply le_trans with (get xs (k / 2)); [apply Hh; lia || done|apply IH; lia].
Qed.

(** The state of the second phase: a heap of [i] elements, none larger than
    the sorted rest. *)
Definition sorting (i : nat) (xs : list (list Z)) : Prop :=
  heap 1 i xs ∧ StronglySorted le (drop i xs) ∧
  ∀ a b, a ∈ take i xs → b ∈ drop i xs → le a b.

Lemma get_take xs i k : 1 ≤ k ≤ i → i ≤ length xs → get xs k ∈ take i xs.
Proof.
  intros. apply list_elem_of_lookup. exists (k - 1). rewrite lookup_take_lt by lia. apply get_lookup. lia.
Qed.

Lemma take_get xs i a : a ∈ take i xs → ∃ k, 1 ≤ k ≤ i ∧ k ≤ length xs ∧ a = get xs k.
Proof.
  intros [k Hk]%list_elem_of_lookup. apply lookup_take_Some in Hk as [Hk ?].
  exists (S k). pose proof (lookup_lt_Some _ _ _ Hk). split_and!; [lia..|].
  unfold get. replace (S k - 1) with k by lia. symmetry. by apply list_lookup_total_correct.
Qed.

(** One round of the second phase, up to the repair of the heap. *)
Lemma sorting_swap i xs :
  elements xs → 2 ≤ i → i ≤ length xs → sorting i xs →
  heap_but 1 1 (i - 1) (swap 1 i xs) ∧ StronglySorted le (drop (i - 1) (swap 1 i xs)) ∧
  (∀ a b, a ∈ take (i - 1) (swap 1 i xs) → b ∈ drop (i - 1) (swap 1 i xs) → le a b).
Proof.
  intros Hxs Hi Hl (Hh & Hs & Hle).
  destruct (swap_spec xs 1 i) as (_ & _ & Hlen & E1 & Ei & Ek); [done|lia..|].
  destruct (swap_perm xs 1 i i) as [Hp Hd]; [lia..|].
  assert (drop (i - 1) (swap 1 i xs) = get xs 1 :: drop i xs) as Edrop.
  { rewrite (drop_S _ (get xs 1)) by (rewrite <- Ei; apply get_lookup; lia).
    rewrite <- Hd. do 2 f_equal. lia. }
  assert (∀ a, a ∈ take i xs → le a (get xs 1)) as Hroot.
  { intros a (k & ? & ? & ->)%take_get. by apply (heap_root i). }
  assert (get xs 1 ∈ take i xs) by (apply get_take; lia).
  rewrite Edrop. split_and!.
  - split; [|intros p c Hp1 Hp0; destruct Hp0; lia].
    intros p c Hp1 Hpn Hc Hcc. rewrite !Ek by (destruct Hc; lia). apply Hh; [lia|done|lia].
  - constructor; [done|]. apply Forall_forall. auto.
  - intros a b Ha Hb.
    assert (a ∈ take i xs).
    { rewrite <- Hp. apply take_get in Ha as (k & ? & ? & ->). apply get_take; lia. }
    apply elem_of_cons in Hb as [->|]; auto.
Qed.

Lemma sort_heap_spec i : ∀ xs,
  elements xs → (Z.of_nat i < 2 ^ 31)%Z → i ≤ length xs → sorting i xs →
  ∃ xs', sort_heap i (concat xs) = Ret (concat xs') ∧ elements xs' ∧ xs' ≡ₚ xs ∧ StronglySorted le xs'.
Proof.
  induction i as [|[|i] IH]; intros xs Hxs H31 Hi Hst.
  - exists xs. by destruct Hst as (_ & ? & _).
  - exists xs. destruct Hst as (_ & Hs & Hle). destruct xs as [|x xs]; [cbn in Hi; lia|].
    split_and!; try done. constructor; [done|]. apply Forall_forall. intros b Hb. apply Hle; [|done].
    cbn. set_solver.
  - change (sort_heap (S (S i)) (concat xs)) with
      (array ← do_swap (concat xs) 1 (S (S i)); array ← heapify (S (S i)) array 1 (S (S i) - 1); sort_heap (S i) array).
    destruct (swap_spec xs 1 (S (S i))) as (-> & He & Hl & _); [done|lia..|]. cbn [mbind outcome_bind].
    destruct (sorting_swap (S (S i)) xs) as (Hb & Hs & Hle); [done|lia..|done|].
    destruct (swap_perm xs 1 (S (S i)) (length xs)) as [Hp _]; [lia..|].
    rewrite !take_ge in Hp by lia. replace (S (S i) - 1) with (S i) in * by lia.
    set (ys := swap 1 (S (S i)) xs) in *. clearbody ys.
    destruct (heapify_spec (S (S i)) ys 1 1 (S i)) as (zs & -> & ? & Hlz & Hh & Hpz & Hdz); try lia; [done..|].
    cbn [mbind outcome_bind]. destruct (IH zs) as (xs' & -> & ? & Hp' & ?); try lia; [done| |].
    { split_and!; [done|by rewrite Hdz|]. intros a b Ha. rewrite Hdz. apply Hle. by rewrite <- Hpz. }
    exists xs'. split_and!; try done. rewrite Hp', <- Hp, <- (take_drop (S i) zs), Hpz, Hdz.
    by rewrite take_drop.
Qed.

Lemma sort_spec xs :
  0 < size → elements xs → (Z.of_nat (length xs) < 2 ^ 31)%Z →
  ∃ xs', sort (concat xs) (length xs) = Ret (concat xs') ∧ elements xs' ∧ xs' ≡ₚ xs ∧ StronglySorted le xs'.
Proof.
  intros Hs Hxs H31. unfold sort. rewrite bool_decide_true by done. cbn [ASSERT mbind outcome_bind].
  pose proof (Nat.div_mod (length xs) 2 ltac:(lia)). pose proof (Nat.mod_upper_bound (length xs) 2 ltac:(lia)).
  destruct (build_heap_spec (length xs / 2) (length xs) xs) as (ys & -> & He & Hl & Hh & Hp); try done; [lia| |].
  { intros p c Hpp [->| ->] Hc; lia. }
  cbn [mbind outcome_bind]. destruct (sort_heap_spec (length xs) ys) as (zs & -> & ? & Hp' & ?); [done|lia..| |].
  { split_and!; [done|..]; rewrite drop_ge by lia; [constructor|set_solver]. }
  exists zs. split_and!; try done. by rewrite Hp'.
Qed.

(** ** Searching *)

Lemma lt_le_lt a b c : (compare a b < 0)%Z → le b c → (compare a c < 0)%Z.
Proof.
  intros Hab Hbc. destruct (decide (compare a c < 0)%Z); [done|exfalso].
  pose proof (compare_sign Hcmp a c). pose proof (compare_sign Hcmp c a). pose proof (compare_sign Hcmp b a).
  pose proof (compare_trans Hcmp b c a Hbc). lia.
Qed.

Lemma gt_le_gt a b c : (0 < compare a b)%Z → le c b → (0 < compare a c)%Z.
Proof.
  intros Hab Hcb. destruct (decide (0 < compare a c)%Z); [done|exfalso].
  pose proof (compare_trans Hcmp a c b ltac:(lia) Hcb). lia.
Qed.

Lemma sorted_le xs i j x y :
  StronglySorted le xs → xs !! i = Some x → xs !! j = Some y → i ≤ j → le x y.
Proof.
  intros Hs Hi Hj Hij. destruct (decide (i = j)) as [->|]; [replace y with x by congruence; apply le_refl|].
  destruct (two_elements xs i j x y) as (p & m & q & -> & _); [lia|done..|].
  apply StronglySorted_app in Hs as (_ & _ & Hs). apply StronglySorted_inv in Hs as [_ Hs].
  rewrite Forall_forall in Hs. apply Hs. set_solver.
Qed.

Lemma search_loop_spec key xs fuel : ∀ f l,
  0 < size → elements xs → StronglySorted le xs → f ≤ l ≤ length xs → l < fuel + f →
  (∀ k x, xs !! k = Some x → k < f → (0 < compare key x)%Z) →
  (∀ k x, xs !! k = Some x → l ≤ k → (compare key x < 0)%Z) →
  ∃ r, search_loop fuel key (concat xs) (f * size) (l * size) = Ret r ∧
    match r with
    | Some off => ∃ k x, off = k * size ∧ xs !! k = Some x ∧ compare key x = 0%Z
    | None => ∀ x, x ∈ xs → compare key x ≠ 0%Z
    end.
Proof.
  induction fuel as [|fuel IH]; intros f l Hsz Hxs Hs Hfl Hf Hlow Hhigh; [lia|]. cbn [search_loop].
  case_decide as Hd.
  - assert (f < l) by nia. rewrite <- Nat.mul_sub_distr_r, Nat.div_mul by lia.
    set (m := f + (l - f) / 2). assert (f ≤ m < l).
    { unfold m. assert ((l - f) / 2 < l - f) by (apply Nat.div_lt; lia). lia. }
    replace (f * size + (l - f) / 2 * size) with (m * size) by (unfold m; lia).
    destruct (lookup_lt_is_Some_2 xs m) as [x Hx]; [lia|].
    rewrite (elem_at_concat xs m x Hxs Hx). cbn [mbind outcome_bind].
    destruct (Z.ltb_spec (compare key x) 0); [|destruct (Z.ltb_spec 0 (compare key x))].
    + apply IH; try lia; try done. intros k y Hy Hk. by eapply lt_le_lt, sorted_le.
    + replace (m * size + size) with (S m * size) by lia. apply IH; try lia; try done.
      intros k y Hy Hk. eapply gt_le_gt; [done|]. eapply sorted_le; try done. lia.
    + eexists; split; [done|]. exists m, x. split_and!; [done..|lia].
  - assert (f = l) as -> by nia. exists None. split; [done|].
    intros x [k Hk]%list_elem_of_lookup. destruct (decide (k < l)); [specialize (Hlow k x Hk)|specialize (Hhigh k x Hk)]; lia.
Qed.
End heap.
End array.

(** ** The entry points without auxiliary data *)

Definition compare_thunk (compare : list Z → list Z → Z) (a b : list Z) : Z := compare a b.

Definition qsort (array : list Z) (cnt size : nat) (compare : list Z → list Z → Z) : outcome (list Z) :=
  sort size (compare_thunk compare) array cnt.

Definition bsearch (key array : list Z) (cnt size : nat) (compare : list Z → list Z → Z) :
  outcome (option nat) :=
  binary_search size (compare_thunk compare) key array cnt.

(** C40: [qsort] on an array of [length xs] elements of [size] bytes each
    returns without an access outside of the array, and leaves in it the same
    elements in order. *)
Theorem qsort_correct size compare xs :
  0 < size → comparison compare → elements size xs → (Z.of_nat (length xs) < 2 ^ 31)%Z →
  ∃ xs', qsort (concat xs) (length xs) size compare = Ret (concat xs') ∧
    elements size xs' ∧ xs' ≡ₚ xs ∧ StronglySorted (le compare) xs'.
Proof. intros Hs Hc Hxs Hl. exact (sort_spec size compare Hc xs Hs Hxs Hl). Qed.

(** [bsearch] on a sorted array returns the offset of an element that
    matches the key, or null when no element does; it makes no access outside
    of the array and terminates within [cnt + 1] rounds. *)
Theorem bsearch_correct size compare key xs :
  0 < size → comparison compare → elements size xs → StronglySorted (le compare) xs →
  ∃ r, bsearch key (concat xs) (length xs) size compare = Ret r ∧
    match r with
    | Some off => ∃ k x, off = k * size ∧ xs !! k = Some x ∧ compare key x = 0%Z
    | None => ∀ x, x ∈ xs → compare key x ≠ 0%Z
    end.
Proof.
  intros Hs Hc Hxs Hso. unfold bsearch, binary_search. rewrite Nat.mul_comm.
  apply (search_loop_spec size compare Hc key xs (S (length xs)) 0 (length xs)); try done; try lia.
  intros k x ?%lookup_lt_Some. lia.
Qed.

(** Elements of one byte, compared by value. *)
Definition compare_bytes (a b : list Z) : Z := (hd 0 a - hd 0 b)%Z.

Lemma compare_bytes_comparison : comparison compare_bytes.
Proof. split; unfold compare_bytes; lia. Qed.

Lemma qsort_correct_witness :
  ∃ xs', qsort (concat [[5]; [1]; [9]; [3]; [1]])%Z 5 1 compare_bytes = Ret (concat xs') ∧
    elements 1 xs' ∧ xs' ≡ₚ [[5]; [1]; [9]; [3]; [1]]%Z ∧ StronglySorted (le compare_bytes) xs'.
Proof.
  apply (qsort_correct 1 compare_bytes [[5]; [1]; [9]; [3]; [1]]%Z); [lia|apply compare_bytes_comparison| |done].
  repeat constructor.
Defined.

Lemma bsearch_correct_witness :
  ∃ r, bsearch [3]%Z (concat [[1]; [3]; [7]])%Z 3 1 compare_bytes = Ret r ∧
    match r with
    | Some off => ∃ k x, off = k * 1 ∧ [[1]; [3]; [7]]%Z !! k = Some x ∧ compare_bytes [3]%Z x = 0%Z
    | None => ∀ x, x ∈ [[1]; [3]; [7]]%Z → compare_bytes [3]%Z x ≠ 0%Z
    end.
Proof.
  apply (bsearch_correct 1 compare_bytes [3]%Z [[1]; [3]; [7]]%Z); [lia|apply compare_bytes_comparison|..].
  - repeat constructor.
  - repeat constructor; unfold le, compare_bytes; cbn; lia.
Defined.
