(* ===== verification/Cstring.v ===== *)
(** * Strings and memory blocks ([lib/string.c], [lib/ctype.h])

    The functions run on one byte-addressed memory, so that blocks and strings
    may overlap: a state is the list of the bytes, a pointer is an index into
    it, the null pointer is 0, and an access outside of the memory is a
    [Panic].  A string is a run of bytes up to a null byte.  The theorems show
    that [memmove] copies overlapping blocks, that [strlcpy] and [strlcat]
    terminate their result and stay within the size they are given, that
    [strstr] finds the first occurrence and that [strtok_r], called again and
    again, returns the words of a string. *)

From Stdlib Require Import ZArith Lia Ascii String.
From stdpp Require Import base tactics list numbers option sets.
From S2P Require Import Prelude.

Local Open Scope nat_scope.

(** ** Characters *)

(** The code of a character, and the codes of a string constant. *)
Definition chr (c : ascii) : Z := Z.of_nat (nat_of_ascii c).
Definition str (s : string) : list Z := map chr (list_ascii_of_string s).

Definition islower (c : Z) : bool := (chr "a" <=? c)%Z && (c <=? chr "z")%Z.
Definition isupper (c : Z) : bool := (chr "A" <=? c)%Z && (c <=? chr "Z")%Z.
Definition isalpha (c : Z) : bool := islower c || isupper c.
Definition isdigit (c : Z) : bool := (chr "0" <=? c)%Z && (c <=? chr "9")%Z.
Definition isspace (c : Z) : bool :=
  (c =? 32)%Z || (c =? 12)%Z || (c =? 10)%Z || (c =? 13)%Z || (c =? 9)%Z || (c =? 11)%Z.
Definition isprint (c : Z) : bool := (32 <=? c)%Z && (c <? 127)%Z.

(** ** Memory *)

Abbreviation mem := (st (list Z)).

Definition load (p : nat) : mem Z := λ m,
  match m !! p with Some c => Ret (c, m) | None => Panic end.

Definition store (p : nat) (c : Z) : mem unit := λ m,
  if decide (p < length m) then Ret (tt, <[p := c]> m) else Panic.

(** [ASSERT (p != NULL || size == 0)] *)
Definition assert_block (p size : nat) : mem unit := assertS (negb (p =? 0) || (size =? 0)).
Definition assert_nonnull (p : nat) : mem unit := assertS (negb (p =? 0)).

(** ** Blocks *)

(** [while (size-- > 0) *dst++ = *src++;] *)
Fixpoint copy_up (dst src size : nat) : mem unit :=
  match size with
  | 0 => mret tt
  | S size => c ← load src; store dst c;; copy_up (S dst) (S src) size
  end.

(** [while (size-- > 0) *--dst = *--src;] *)
Fixpoint copy_down (dst src size : nat) : mem unit :=
  match size with
  | 0 => mret tt
  | S size => c ← load (src - 1); store (dst - 1) c;; copy_down (dst - 1) (src - 1) size
  end.

Definition memcpy (dst_ src_ size : nat) : mem nat :=
  assert_block dst_ size;;
  assert_block src_ size;;
  copy_up dst_ src_ size;;
  mret dst_.

(** The local variable [dst] that is returned has been moved along. *)
Definition memmove (dst_ src_ size : nat) : mem nat :=
  assert_block dst_ size;;
  assert_block src_ size;;
  if decide (dst_ < src_) then
    copy_up dst_ src_ size;; mret (dst_ + size)
  else
    copy_down (dst_ + size) (src_ + size) size;; mret dst_.

Fixpoint compare_blocks (a b size : nat) : mem Z :=
  match size with
  | 0 => mret 0%Z
  | S size =>
      x ← load a;
      y ← load b;
      if (x =? y)%Z then compare_blocks (S a) (S b) size
      else mret (if (y <? x)%Z then 1 else -1)%Z
  end.

Definition memcmp (a b size : nat) : mem Z :=
  assert_block a size;;
  assert_block b size;;
  compare_blocks a b size.

Fixpoint find_block (block : nat) (ch : Z) (size : nat) : mem nat :=
  match size with
  | 0 => mret 0
  | S size => c ← load block; if (c =? ch)%Z then mret block else find_block (S block) ch size
  end.

Definition memchr (block : nat) (ch_ : Z) (size : nat) : mem nat :=
  assert_block block size;;
  find_block block (u8 ch_) size.

Fixpoint fill (dst : nat) (value : Z) (size : nat) : mem unit :=
  match size with
  | 0 => mret tt
  | S size => store dst (u8 value);; fill (S dst) value size
  end.

Definition memset (dst_ : nat) (value : Z) (size : nat) : mem nat :=
  assert_block dst_ size;;
  fill dst_ value size;;
  mret dst_.

(** ** Strings

    A scan stops at a null byte at the latest, and the end of the memory is a
    [Panic]: it takes at most one round per byte of the memory, which is the
    fuel the loops get. *)

Definition scan {A} (loop : nat → mem A) : mem A := λ m, loop (S (length m)) m.

Fixpoint strcmp_loop (fuel a b : nat) : mem Z :=
  match fuel with
  | 0 => divergeS
  | S fuel =>
      x ← load a;
      y ← load b;
      if negb (x =? 0)%Z && (x =? y)%Z then strcmp_loop fuel (S a) (S b)
      else mret (if (x <? y)%Z then -1 else if (y <? x)%Z then 1 else 0)%Z
  end.

Definition strcmp (a b : nat) : mem Z :=
  assert_nonnull a;;
  assert_nonnull b;;
  scan (λ fuel, strcmp_loop fuel a b).

Fixpoint strchr_loop (fuel string : nat) (c : Z) : mem nat :=
  match fuel with
  | 0 => divergeS
  | S fuel =>
      x ← load string;
      if (x =? c)%Z then mret string
      else if (x =? 0)%Z then mret 0
      else strchr_loop fuel (S string) c
  end.

Definition strchr (string : nat) (c_ : Z) : mem nat :=
  assert_nonnull string;;
  scan (λ fuel, strchr_loop fuel string (u8 c_)).

(** [strcspn] stops at a character that occurs in the other string, [strspn]
    at one that does not. *)
Fixpoint span_loop (fuel string set : nat) (stop_if : bool) (len : nat) : mem nat :=
  match fuel with
  | 0 => divergeS
  | S fuel =>
      x ← load (string + len);
      if (x =? 0)%Z then mret len
      else
        p ← strchr set x;
        if Bool.eqb (negb (p =? 0)) stop_if then mret len
        else span_loop fuel string set stop_if (S len)
  end.

Definition strcspn (string stop : nat) : mem nat := scan (λ fuel, span_loop fuel string stop true 0).
Definition strspn (string skip : nat) : mem nat := scan (λ fuel, span_loop fuel string skip false 0).

Fixpoint strpbrk_loop (fuel string stop : nat) : mem nat :=
  match fuel with
  | 0 => divergeS
  | S fuel =>
      x ← load string;
      if (x =? 0)%Z then mret 0
      else
        p ← strchr stop x;
        if p =? 0 then strpbrk_loop fuel (S string) stop else mret string
  end.

Definition strpbrk (string stop : nat) : mem nat := scan (λ fuel, strpbrk_loop fuel string stop).

Fixpoint strrchr_loop (fuel string : nat) (c : Z) (p : nat) : mem nat :=
  match fuel with
  | 0 => divergeS
  | S fuel =>
      x ← load string;
      if (x =? 0)%Z then mret p
      else strrchr_loop fuel (S string) c (if (x =? c)%Z then string else p)
  end.

Definition strrchr (string : nat) (c_ : Z) : mem nat := scan (λ fuel, strrchr_loop fuel string (u8 c_) 0).

Fixpoint strlen_loop (fuel p : nat) : mem nat :=
  match fuel with
  | 0 => divergeS
  | S fuel => x ← load p; if (x =? 0)%Z then mret p else strlen_loop fuel (S p)
  end.

Definition strlen (string : nat) : mem nat :=
  assert_nonnull string;;
  p ← scan (λ fuel, strlen_loop fuel string);
  mret (p - string).

Fixpoint strnlen_loop (fuel string : nat) (maxlen : Z) (len : nat) : mem nat :=
  match fuel with
  | 0 => divergeS
  | S fuel =>
      x ← load (string + len);
      if negb (x =? 0)%Z && (Z.of_nat len <? maxlen)%Z then strnlen_loop fuel string maxlen (S len)
      else mret len
  end.

Definition strnlen (string : nat) (maxlen : Z) : mem nat := scan (λ fuel, strnlen_loop fuel string maxlen 0).

(** [for (i = 0; i <= haystack_len - needle_len; i++)], [n] rounds from [i]. *)
Fixpoint strstr_loop (n i haystack needle needle_len : nat) : mem nat :=
  match n with
  | 0 => mret 0
  | S n =>
      c ← memcmp (haystack + i) needle needle_len;
      if (c =? 0)%Z then mret (haystack + i) else strstr_loop n (S i) haystack needle needle_len
  end.

Definition strstr (haystack needle : nat) : mem nat :=
  haystack_len ← strlen haystack;
  needle_len ← strlen needle;
  if decide (needle_len ≤ haystack_len) then
    strstr_loop (S (haystack_len - needle_len)) 0 haystack needle needle_len
  else mret 0.

Definition strlcpy (dst src size : nat) : mem nat :=
  assert_nonnull dst;;
  assert_nonnull src;;
  src_len ← strlen src;
  (if decide (0 < size) then
     let dst_len := if decide (src_len < size - 1) then src_len else size - 1 in
     memcpy dst src dst_len;;
     store (dst + dst_len) 0%Z
   else mret tt);;
  mret src_len.

Definition strlcat (dst src size : nat) : mem nat :=
  assert_nonnull dst;;
  assert_nonnull src;;
  src_len ← strlen src;
  dst_len ← strlen dst;
  (if decide (0 < size ∧ dst_len < size) then
     let copy_cnt := if decide (src_len < size - dst_len - 1) then src_len else size - dst_len - 1 in
     memcpy (dst + dst_len) src copy_cnt;;
     store (dst + dst_len + copy_cnt) 0%Z
   else mret tt);;
  mret (src_len + dst_len).

(** The first loop of [strtok_r]: the address of the first character of a
    token, or [None] at the end of the string. *)
Fixpoint skip_delimiters (fuel s delimiters : nat) : mem (nat + nat) :=
  match fuel with
  | 0 => divergeS
  | S fuel =>
      x ← load s;
      p ← strchr delimiters x;
      if p =? 0 then mret (inl s)
      else if (x =? 0)%Z then mret (inr s)
      else skip_delimiters fuel (S s) delimiters
  end.

(** The second loop: the end of the token. *)
Fixpoint skip_token (fuel s delimiters : nat) : mem nat :=
  match fuel with
  | 0 => divergeS
  | S fuel =>
      x ← load s;
      p ← strchr delimiters x;
      if p =? 0 then skip_token fuel (S s) delimiters else mret s
  end.

(** [save_ptr] is the value of the caller's variable; the result is the token
    and the new value of the variable. *)
Definition strtok_r (s delimiters save_ptr : nat) : mem (nat * nat) :=
  assert_nonnull delimiters;;
  let s := if s =? 0 then save_ptr else s in
  assert_nonnull s;;
  start ← scan (λ fuel, skip_delimiters fuel s delimiters);
  match start with
  | inr s => mret (0, s)
  | inl token =>
      s ← scan (λ fuel, skip_token fuel token delimiters);
      x ← load s;
      if (x =? 0)%Z then mret (token, s)
      else store s 0%Z;; mret (token, S s)
  end.

(** ** Specification of the scans *)

(** The memory holds the string [s] at address [p]. *)
Definition cstring (m : list Z) (p : nat) (s : list Z) : Prop :=
  p ≠ 0 ∧ (0%Z ∉ s) ∧ ∃ pre post, m = pre ++ s ++ 0%Z :: post ∧ length pre = p.

Lemma load_spec p m c : m !! p = Some c → load p m = Ret (c, m).
Proof. unfold load. by intros ->. Qed.

Lemma store_spec p m c : p < length m → store p c m = Ret (tt, <[p := c]> m).
Proof. intros. unfold store. by rewrite decide_True. Qed.

Lemma cstring_lookup m p s k :
  cstring m p s → k ≤ length s → m !! (p + k) = Some (if decide (k < length s) then s !!! k else 0%Z).
Proof.
  intros (_ & _ & pre & post & -> & <-) Hk. rewrite lookup_app_r by lia.
  replace (length pre + k - length pre) with k by lia. case_decide.
  - rewrite lookup_app_l by lia. by apply list_lookup_lookup_total_lt.
  - replace k with (length s) by lia. by rewrite list_lookup_middle.
Qed.

Lemma cstring_length m p s : cstring m p s → p + length s < length m.
Proof. intros (_ & _ & pre & post & -> & <-). rewrite !length_app. cbn. lia. Qed.

Lemma cstring_nz s k : (0%Z ∉ s) → k < length s → s !!! k ≠ 0%Z.
Proof. intros Hs Hk E. apply Hs. rewrite <- E. by apply list_elem_of_lookup_total_2. Qed.

Lemma cstring_nil m p : cstring m p [] → m !! p = Some 0%Z.
Proof. intros H. pose proof (cstring_lookup m p [] 0 H ltac:(done)) as E. by rewrite Nat.add_0_r in E. Qed.

Lemma cstring_cons m p c s :
  cstring m p (c :: s) → m !! p = Some c ∧ c ≠ 0%Z ∧ cstring m (S p) s.
Proof.
  intros (Hp & Hn & pre & post & -> & Hl). split_and!.
  - rewrite <- Hl. by apply list_lookup_middle.
  - set_solver.
  - split_and!; [lia|set_solver|]. exists (pre ++ [c]), post. rewrite length_app. cbn.
    split; [by rewrite <- app_assoc|lia].
Qed.

Lemma cstring_app m p s1 s2 : cstring m p (s1 ++ s2) → cstring m (p + length s1) s2.
Proof.
  revert p. induction s1 as [|c s1 IH]; intros p H; cbn; [by rewrite Nat.add_0_r|].
  apply cstring_cons in H as (_ & _ & H). replace (p + S (length s1)) with (S p + length s1) by lia. auto.
Qed.

(** Runs a load from a known string. *)
Ltac ld H := rewrite (st_bind_ret _ _ _ _ _ (load_spec _ _ _ H)).

Lemma strlen_loop_spec m s : ∀ p fuel,
  cstring m p s → length s < fuel → strlen_loop fuel p m = Ret (p + length s, m).
Proof.
  induction s as [|c s IH]; intros p [|fuel] H Hf; cbn [length] in *; try lia; cbn [strlen_loop].
  - ld (cstring_nil _ _ H). cbn. by rewrite Nat.add_0_r.
  - apply cstring_cons in H as (Hc & Hz & H). ld Hc. rewrite (proj2 (Z.eqb_neq c 0) Hz).
    rewrite IH by (done || lia). do 2 f_equal. lia.
Qed.

Lemma assert_nonnull_spec p (m : list Z) : p ≠ 0 → assert_nonnull p m = Ret (tt, m).
Proof. intros H. unfold assert_nonnull. apply assertS_true. by destruct (Nat.eqb_spec p 0). Qed.

Lemma strlen_spec m p s : cstring m p s → strlen p m = Ret (length s, m).
Proof.
  intros H. pose proof (cstring_length _ _ _ H). unfold strlen.
  rewrite (st_bind_ret _ _ _ _ _ (assert_nonnull_spec p m (proj1 H))).
  erewrite st_bind_ret; [|apply strlen_loop_spec; [done|lia]].
  unfold mret, st_ret. do 2 f_equal. lia.
Qed.

Lemma strnlen_loop_spec m p s maxlen : cstring m p s → (Z.of_nat (length s) ≤ maxlen)%Z → ∀ fuel len,
  len ≤ length s → length s - len < fuel → strnlen_loop fuel p maxlen len m = Ret (length s, m).
Proof.
  intros Hs Hmax. induction fuel as [|fuel IH]; intros len Hlen Hf; [lia|]. cbn [strnlen_loop].
  ld (cstring_lookup _ _ _ _ Hs Hlen). case_decide as Hd.
  - rewrite (proj2 (Z.eqb_neq _ _) (cstring_nz s len (proj1 (proj2 Hs)) Hd)), (proj2 (Z.ltb_lt _ _)) by lia. apply IH; lia.
  - cbn. unfold mret, st_ret. do 2 f_equal. lia.
Qed.

Lemma strnlen_spec m p s maxlen :
  cstring m p s → (Z.of_nat (length s) ≤ maxlen)%Z → strnlen p maxlen m = Ret (length s, m).
Proof. intros Hs Hmax. pose proof (cstring_length _ _ _ Hs). eapply strnlen_loop_spec; try done; lia. Qed.

(** The result of [strchr]: the first occurrence, the null byte included. *)
Definition first_occurrence (p : nat) (c : Z) (s : list Z) : nat :=
  match list_find (c =.) (s ++ [0%Z]) with Some (k, _) => p + k | None => 0 end.

Lemma strchr_loop_spec m c s : ∀ p fuel,
  cstring m p s → length s < fuel → strchr_loop fuel p c m = Ret (first_occurrence p c s, m).
Proof.
  unfold first_occurrence.
  induction s as [|x s IH]; intros p [|fuel] H Hf; cbn [length] in *; try lia; cbn [strchr_loop].
  - ld (cstring_nil _ _ H). cbn [app list_find].
    destruct (Z.eqb_spec 0 c) as [<-|]; [by rewrite decide_True, Nat.add_0_r|].
    by rewrite decide_False by done.
  - apply cstring_cons in H as (Hx & Hz & H). ld Hx. cbn [app list_find].
    destruct (Z.eqb_spec x c) as [->|]; [by rewrite decide_True, Nat.add_0_r|].
    rewrite decide_False by done. rewrite (proj2 (Z.eqb_neq x 0) Hz), IH by (done || lia). do 2 f_equal.
    destruct (list_find _ _) as [[k ?]|]; cbn; lia.
Qed.

Lemma strchr_spec m p c s :
  cstring m p s → (0 ≤ c < 256)%Z → strchr p c m = Ret (first_occurrence p c s, m).
Proof.
  intros H Hc. pose proof (cstring_length _ _ _ H). unfold strchr.
  rewrite (st_bind_ret _ _ _ _ _ (assert_nonnull_spec p m (proj1 H))).
  unfold scan, u8. rewrite Z.mod_small by lia. apply strchr_loop_spec; [done|lia].
Qed.

Lemma first_occurrence_null p c s :
  p ≠ 0 → (first_occurrence p c s =? 0) = negb (bool_decide (c ∈ s ++ [0%Z])).
Proof.
  intros Hp. unfold first_occurrence. destruct (list_find (c =.) (s ++ [0%Z])) as [[k x]|] eqn:E.
  - apply list_find_Some in E as (Hk & <- & _). rewrite bool_decide_true by (by eapply list_elem_of_lookup_2).
    cbn. apply Nat.eqb_neq. lia.
  - rewrite bool_decide_false; [done|]. intros Hc. apply list_find_None in E.
    rewrite Forall_forall in E. by apply (E c Hc).
Qed.

(** ** Copying *)

(** [m'] is [m] with the [size] bytes at [src] copied to [dst]. *)
Definition moved (m : list Z) (dst src size : nat) (m' : list Z) : Prop :=
  length m' = length m ∧
  ∀ k, m' !! k = if decide (dst ≤ k < dst + size) then m !! (src + (k - dst)) else m !! k.

Lemma copy_up_spec size : ∀ m dst src,
  dst + size ≤ length m → src + size ≤ length m → dst ≤ src ∨ src + size ≤ dst →
  ∃ m', copy_up dst src size m = Ret (tt, m') ∧ moved m dst src size m'.
Proof.
  induction size as [|size IH]; intros m dst src Hd Hs Ho; cbn [copy_up].
  - exists m. split; [done|]. split; [done|]. intros k. by rewrite decide_False by lia.
  - destruct (lookup_lt_is_Some_2 m src) as [c Hc]; [lia|]. ld Hc.
    erewrite st_bind_ret by (apply store_spec; lia).
    destruct (IH (<[dst := c]> m) (S dst) (S src)) as (m' & -> & Hl & Hm); rewrite ?length_insert; [lia..|].
    exists m'. split; [done|]. rewrite length_insert in Hl. split; [done|]. intros k. rewrite Hm.
    repeat case_decide; try lia.
    + rewrite list_lookup_insert_ne by lia. f_equal. lia.
    + replace k with dst by lia. rewrite list_lookup_insert_eq, Nat.sub_diag, Nat.add_0_r by lia. done.
    + by rewrite list_lookup_insert_ne by lia.
Qed.

Lemma copy_down_spec size : ∀ m dst src,
  dst + size ≤ length m → src + size ≤ length m → src ≤ dst →
  ∃ m', copy_down (dst + size) (src + size) size m = Ret (tt, m') ∧ moved m dst src size m'.
Proof.
  induction size as [|size IH]; intros m dst src Hd Hs Ho; cbn [copy_down].
  - exists m. split; [done|]. split; [done|]. intros k. by rewrite decide_False by lia.
  - replace (src + S size - 1) with (src + size) by lia. replace (dst + S size - 1) with (dst + size) by lia.
    destruct (lookup_lt_is_Some_2 m (src + size)) as [c Hc]; [lia|]. ld Hc.
    erewrite st_bind_ret by (apply store_spec; lia).
    destruct (IH (<[dst + size := c]> m) dst src) as (m' & -> & Hl & Hm); rewrite ?length_insert; [lia..|].
    exists m'. split; [done|]. rewrite length_insert in Hl. split; [done|]. intros k. rewrite Hm.
    repeat case_decide; try lia.
    + rewrite list_lookup_insert_ne by lia. done.
    + replace k with (dst + size) by lia. rewrite list_lookup_insert_eq by lia.
      replace (dst + size - dst) with size by lia. done.
    + by rewrite list_lookup_insert_ne by lia.
Qed.

Lemma assert_block_spec p size (m : list Z) : p ≠ 0 ∨ size = 0 → assert_block p size m = Ret (tt, m).
Proof.
  intros H. unfold assert_block. apply assertS_true.
  destruct (Nat.eqb_spec p 0), (Nat.eqb_spec size 0); naive_solver.
Qed.

(** Passes the assertions on block and string pointers. *)
Ltac blk := erewrite st_bind_ret by (apply assert_block_spec; first [done | lia | tauto]).
Ltac nonnull := erewrite st_bind_ret by (apply assert_nonnull_spec; done).

Lemma memcpy_spec m dst src size :
  dst ≠ 0 → src ≠ 0 → dst + size ≤ length m → src + size ≤ length m → dst ≤ src ∨ src + size ≤ dst →
  ∃ m', memcpy dst src size m = Ret (dst, m') ∧ moved m dst src size m'.
Proof.
  intros Hd Hs Hdl Hsl Ho. unfold memcpy. blk. blk.
  destruct (copy_up_spec size m dst src) as (m' & E & ?); [done..|]. exists m'. by st_step E.
Qed.

(** Strings and copies: a string outside of the target is kept; a prefix of a
    string followed by a null byte is a string. *)
Lemma moved_unchanged m dst src size m' k :
  moved m dst src size m' → k < dst ∨ dst + size ≤ k → m' !! k = m !! k.
Proof. intros [_ Hm] Hk. rewrite Hm. by rewrite decide_False by lia. Qed.

Lemma cstring_intro m p s :
  p ≠ 0 → (0%Z ∉ s) → (∀ k, k < length s → m !! (p + k) = s !! k) → m !! (p + length s) = Some 0%Z →
  cstring m p s.
Proof.
  intros Hp Hs Hk Hz. split_and!; [done..|]. exists (take p m), (drop (S (p + length s)) m).
  assert (p + length s < length m) by (by eapply lookup_lt_Some).
  split; [|rewrite length_take; lia].
  apply list_eq. intros i. destruct (decide (i < p)).
  { rewrite lookup_app_l by (rewrite length_take; lia). by rewrite lookup_take_lt. }
  rewrite lookup_app_r, length_take, Nat.min_l by (rewrite ?length_take; lia).
  destruct (decide (i < p + length s)).
  { rewrite lookup_app_l by lia. rewrite <- Hk by lia. f_equal. lia. }
  rewrite lookup_app_r by lia. destruct (decide (i = p + length s)) as [->|].
  { by replace (p + length s - p - length s) with 0 by lia. }
  replace (i - p - length s) with (S (i - S (p + length s))) by lia.
  transitivity (drop (S (p + length s)) m !! (i - S (p + length s))); [|done].
  rewrite lookup_drop. f_equal. lia.
Qed.

Lemma cstring_ext m m' p s :
  cstring m p s → (∀ k, p ≤ k ≤ p + length s → m' !! k = m !! k) → cstring m' p s.
Proof.
  intros H Hk. apply cstring_intro; [apply H|apply H|..].
  - intros k Hks. rewrite Hk, (cstring_lookup _ _ _ _ H) by lia. rewrite decide_True by done.
    symmetry. by apply list_lookup_lookup_total_lt.
  - rewrite Hk, (cstring_lookup _ _ _ _ H) by lia. by rewrite decide_False by lia.
Qed.

Lemma cstring_byte m p s k : cstring m p s → k < length s → m !! (p + k) = s !! k.
Proof.
  intros H Hk. rewrite (cstring_lookup _ _ _ _ H), decide_True by lia. symmetry. by apply list_lookup_lookup_total_lt.
Qed.

Lemma cstring_join m p s t :
  p ≠ 0 → (0%Z ∉ s) → (∀ k, k < length s → m !! (p + k) = s !! k) → cstring m (p + length s) t →
  cstring m p (s ++ t).
Proof.
  intros Hp Hs Hk Ht. apply cstring_intro; [done| | |].
  - intros [?|Hz]%elem_of_app; [done|]. by apply Ht in Hz.
  - intros k Hlt. rewrite length_app in Hlt. destruct (decide (k < length s)).
    + rewrite lookup_app_l by done. by apply Hk.
    + rewrite lookup_app_r by lia. rewrite <- (cstring_byte m (p + length s) t) by (done || lia).
      f_equal. lia.
  - rewrite length_app, Nat.add_assoc, (cstring_lookup _ _ _ _ Ht) by lia. by rewrite decide_False by lia.
Qed.

(** What [strlcpy] and [strlcat] do last: copy a prefix and terminate it. *)
Lemma copy_prefix m dst src s n :
  cstring m src s → dst ≠ 0 → n ≤ length s → dst + n < length m →
  dst + n < src ∨ src + length s < dst →
  ∃ m', (memcpy dst src n;; store (dst + n) 0%Z) m = Ret (tt, m') ∧ length m' = length m ∧
    cstring m' dst (take n s) ∧ ∀ k, k < dst ∨ dst + n < k → m' !! k = m !! k.
Proof.
  intros Hs Hd Hn Hl Ho. pose proof (cstring_length _ _ _ Hs).
  destruct (memcpy_spec m dst src n) as (m1 & E & Hm); [done|apply Hs|lia..|]. st_step E.
  assert (length m1 = length m) as Hl1 by apply Hm.
  rewrite store_spec by lia. eexists. split; [done|]. rewrite length_insert. split_and!; [done| |].
  - assert (length (take n s) = n) as Ht by (rewrite length_take; lia).
    apply cstring_intro; rewrite ?Ht; [done| | |].
    + intros Hz%list_elem_of_lookup. destruct Hz as [k [Hk _]%lookup_take_Some].
      by apply (proj1 (proj2 Hs)), list_elem_of_lookup_2 with k.
    + intros k Hk. rewrite list_lookup_insert_ne by lia. rewrite (proj2 Hm), decide_True by lia.
      replace (dst + k - dst) with k by lia. rewrite lookup_take_lt by done. apply cstring_byte; [done|lia].
    + by rewrite list_lookup_insert_eq by lia.
  - intros k Hk. rewrite list_lookup_insert_ne by lia. eapply moved_unchanged; [done|]. lia.
Qed.

(** [strlcpy] into a target of positive size. *)
Lemma strlcpy_run m dst src size s :
  cstring m src s → dst ≠ 0 → dst + size ≤ length m → dst + size ≤ src ∨ src + length s < dst → 0 < size →
  ∃ m', strlcpy dst src size m = Ret (length s, m') ∧ length m' = length m ∧
    cstring m' dst (take (size - 1) s) ∧
    ∀ k, k < dst ∨ dst + length s `min` (size - 1) < k → m' !! k = m !! k.
Proof.
  intros Hs Hd Hl Ho Hz. unfold strlcpy. nonnull. erewrite st_bind_ret by (apply assert_nonnull_spec, Hs).
  st_step (strlen_spec _ _ _ Hs). rewrite decide_True by done.
  set (n := if decide _ then _ else _).
  assert (n = length s `min` (size - 1)) as Hn by (unfold n; case_decide; lia). clearbody n.
  destruct (copy_prefix m dst src s n) as (m' & E & Hm & Hc & Hk); [done..|lia|lia|lia|]. st_step E.
  exists m'. split_and!; [done|done| |intros; apply Hk; lia].
  replace (take (size - 1) s) with (take n s); [done|]. rewrite Hn.
  rewrite <- (take_ge s (length s)) at 3 by lia. by rewrite take_take, Nat.min_comm.
Qed.

(** [memmove] copies a block whatever the overlap of source and target:
    the target gets the bytes the source had before, and nothing else changes.
    It returns the target when this is not below the source, and the end of
    the target otherwise. *)
Theorem memmove_correct m dst src size :
  dst ≠ 0 → src ≠ 0 → dst + size ≤ length m → src + size ≤ length m →
  ∃ m', memmove dst src size m = Ret (if decide (dst < src) then dst + size else dst, m') ∧
    length m' = length m ∧
    (∀ k, k < size → m' !! (dst + k) = m !! (src + k)) ∧
    (∀ k, k < dst ∨ dst + size ≤ k → m' !! k = m !! k).
Proof.
  intros Hd Hs Hdl Hsl.
  assert (∃ m', memmove dst src size m = Ret (if decide (dst < src) then dst + size else dst, m') ∧
    moved m dst src size m') as (m' & E & Hm).
  { unfold memmove. blk. blk. case_decide.
    - destruct (copy_up_spec size m dst src) as (m' & E & ?); [lia..|]. exists m'. by st_step E.
    - destruct (copy_down_spec size m dst src) as (m' & E & ?); [lia..|]. exists m'. by st_step E. }
  exists m'. split; [done|]. split; [apply Hm|]. split.
  - intros k Hk. rewrite (proj2 Hm), decide_True by lia. f_equal. lia.
  - intros k Hk. eapply moved_unchanged; [done|lia].
Qed.

Lemma memmove_correct_witness :
  ∃ m', memmove 2 1 3 [9; 1; 2; 3; 4]%Z = Ret (2, m') ∧ length m' = 5 ∧
    (∀ k, k < 3 → m' !! (2 + k) = [9; 1; 2; 3; 4]%Z !! (1 + k)) ∧
    (∀ k, k < 2 ∨ 5 ≤ k → m' !! k = [9; 1; 2; 3; 4]%Z !! k).
Proof. apply (memmove_correct [9; 1; 2; 3; 4]%Z 2 1 3); cbn; lia. Defined.

(** [strlcpy] and [strlcat] leave in the target, whenever its size allows
    any string, the longest prefix of the (concatenated) string that fits with
    its null byte; they change nothing outside of the target and return the
    length of the untruncated string. *)
Theorem strlcpy_strlcat_bounded m dst src size s d :
  cstring m src s → dst ≠ 0 → dst + size ≤ length m → dst + size ≤ src ∨ src + length s < dst →
  (∃ m', strlcpy dst src size m = Ret (length s, m') ∧
     (0 < size → cstring m' dst (take (size - 1) s)) ∧
     (∀ k, k < dst ∨ dst + size ≤ k → m' !! k = m !! k)) ∧
  (cstring m dst d → length d < size →
   ∃ m', strlcat dst src size m = Ret (length s + length d, m') ∧
     cstring m' dst (take (size - 1) (d ++ s)) ∧
     (∀ k, k < dst ∨ dst + size ≤ k → m' !! k = m !! k)).
Proof.
  intros Hs Hd Hl Ho. split.
  - destruct (decide (0 < size)) as [Hz|Hz].
    + destruct (strlcpy_run m dst src size s) as (m' & E & _ & Hc & Hk); [done..|]. exists m'.
      split_and!; [done..|]. intros k Hr. apply Hk. lia.
    + exists m. unfold strlcpy. nonnull. erewrite st_bind_ret by (apply assert_nonnull_spec, Hs).
      st_step (strlen_spec _ _ _ Hs). rewrite decide_False by done. by split_and!; [|lia|].
  - intros Hdd Hlt. unfold strlcat. nonnull. erewrite st_bind_ret by (apply assert_nonnull_spec, Hs).
    st_step (strlen_spec _ _ _ Hs). st_step (strlen_spec _ _ _ Hdd). rewrite decide_True by lia.
    set (n := if decide _ then _ else _).
    assert (n = length s `min` (size - length d - 1)) as Hn by (unfold n; case_decide; lia). clearbody n.
    destruct (copy_prefix m (dst + length d) src s n) as (m' & E & _ & Hc & Hk); [done|lia..|]. st_step E.
    exists m'. split_and!; [done| |intros; apply Hk; lia].
    replace (take (size - 1) (d ++ s)) with (d ++ take n s).
    + apply cstring_join; [done|apply Hdd| |done].
      intros k Hkd. rewrite Hk by lia. by apply cstring_byte.
    + rewrite take_app_ge by lia. f_equal. rewrite Hn.
      rewrite <- (take_ge s (length s)) at 3 by lia. rewrite take_take. f_equal. lia.
Qed.

Lemma strlcpy_strlcat_bounded_witness :
  let m := (9 :: str "abc" ++ [0] ++ str "xy" ++ [0; 7; 7])%Z in
  (∃ m', strlcpy 5 1 4 m = Ret (3, m') ∧ (0 < 4 → cstring m' 5 (str "abc")) ∧
     (∀ k, k < 5 ∨ 9 ≤ k → m' !! k = m !! k)) ∧
  (∃ m', strlcat 5 1 4 m = Ret (5, m') ∧ cstring m' 5 (str "xya") ∧
     (∀ k, k < 5 ∨ 9 ≤ k → m' !! k = m !! k)).
Proof.
  intros m.
  destruct (strlcpy_strlcat_bounded m 5 1 4 (str "abc") (str "xy")) as [H1 H2]; [|done|cbn; lia|cbn; lia|].
  { apply cstring_intro; [done| |intros [|[|[|?]]] ?; [done..|cbn in *; lia]|done].
    by_decide. }
  split; [exact H1|]. apply H2; [|cbn; lia].
  apply cstring_intro; [done| |intros [|[|?]] ?; [done..|cbn in *; lia]|done].
  by_decide.
Defined.

(** ** Searching *)

Lemma compare_blocks_spec size : ∀ m a b,
  a + size ≤ length m → b + size ≤ length m →
  ∃ r, compare_blocks a b size m = Ret (r, m) ∧ (r = 0%Z ↔ ∀ k, k < size → m !! (a + k) = m !! (b + k)).
Proof.
  induction size as [|size IH]; intros m a b Ha Hb; cbn [compare_blocks].
  { exists 0%Z. split; [done|]. split; [lia|done]. }
  destruct (lookup_lt_is_Some_2 m a) as [x Hx]; [lia|]. destruct (lookup_lt_is_Some_2 m b) as [y Hy]; [lia|].
  ld Hx. ld Hy. destruct (Z.eqb_spec x y) as [<-|Hne].
  - destruct (IH m (S a) (S b)) as (r & -> & Hr); [lia..|]. exists r. split; [done|]. rewrite Hr. split.
    + intros H [|k] Hk; [rewrite !Nat.add_0_r; congruence|].
      rewrite <- !Nat.add_succ_comm. apply H. lia.
    + intros H k Hk. rewrite !Nat.add_succ_comm. apply H. lia.
  - eexists. split; [done|]. split; [by destruct (y <? x)%Z|].
    intros H. specialize (H 0 ltac:(lia)). rewrite !Nat.add_0_r in H. congruence.
Qed.

Lemma prefix_lookup (s t : list Z) i :
  i + length t ≤ length s → t `prefix_of` drop i s ↔ ∀ k, k < length t → s !! (i + k) = t !! k.
Proof.
  intros Hl. split.
  - intros [u Hu] k Hk. rewrite <- lookup_drop, Hu. by rewrite lookup_app_l.
  - intros H. exists (drop (i + length t) s). apply list_eq. intros k.
    destruct (decide (k < length t)).
    + rewrite lookup_drop, lookup_app_l by done. auto.
    + rewrite lookup_app_r, !lookup_drop by lia. f_equal. lia.
Qed.

(** The result of [strstr]: the first occurrence of [t] in [s], from position
    [i] on. *)
Definition first_substring (h : nat) (s t : list Z) (i r : nat) : Prop :=
  (r = 0 ∧ ∀ j, i ≤ j → j + length t ≤ length s → ¬ t `prefix_of` drop j s) ∨
  (∃ j, i ≤ j ∧ r = h + j ∧ t `prefix_of` drop j s ∧ ∀ j', i ≤ j' < j → ¬ t `prefix_of` drop j' s).

Lemma strstr_loop_spec m h s p t n : ∀ i,
  cstring m h s → cstring m p t → length t ≤ length s → i + n = S (length s - length t) →
  ∃ r, strstr_loop n i h p (length t) m = Ret (r, m) ∧ first_substring h s t i r.
Proof.
  induction n as [|n IH]; intros i Hh Hp Hl Hi; cbn [strstr_loop].
  { exists 0. split; [done|]. left. split; [done|]. lia. }
  pose proof (cstring_length _ _ _ Hh). pose proof (cstring_length _ _ _ Hp).
  destruct (compare_blocks_spec (length t) m (h + i) p) as (c & E & Hc); [lia..|].
  assert (memcmp (h + i) p (length t) m = Ret (c, m)) as E'.
  { unfold memcmp. destruct Hh as [? _], Hp as [? _]. blk. by blk. }
  assert (c = 0%Z ↔ t `prefix_of` drop i s) as Hcp.
  { rewrite Hc, prefix_lookup by lia. apply forall_proper. intros k. split; intros Hk Hlt; specialize (Hk Hlt).
    - rewrite <- (cstring_byte _ _ _ _ Hh), <- (cstring_byte _ _ _ _ Hp), Nat.add_assoc by lia. done.
    - rewrite <- Nat.add_assoc, (cstring_byte _ _ _ _ Hh), (cstring_byte _ _ _ _ Hp) by lia. done. }
  st_step E'. destruct (Z.eqb_spec c 0) as [Hz|Hz].
  - eexists. split; [done|]. right. exists i. split_and!; [done..|by apply Hcp|lia].
  - destruct (IH (S i)) as (r & -> & Hr); [done..|lia|]. exists r. split; [done|].
    assert (¬ t `prefix_of` drop i s) by tauto.
    destruct Hr as [[-> Hr]|(j & ? & -> & ? & Hr)].
    + left. split; [done|]. intros j Hj Hjl. destruct (decide (j = i)) as [->|]; [done|]. apply Hr; lia.
    + right. exists j. split_and!; [lia|done..|]. intros j' Hj'.
      destruct (decide (j' = i)) as [->|]; [done|]. apply Hr. lia.
Qed.

(** [strstr] returns the first occurrence of a string in another, or null
    when there is none. *)
Theorem strstr_first m h s p t :
  cstring m h s → cstring m p t →
  ∃ r, strstr h p m = Ret (r, m) ∧
    ((r = 0 ∧ ∀ i, ¬ t `prefix_of` drop i s) ∨
     (∃ i, r = h + i ∧ t `prefix_of` drop i s ∧ ∀ j, j < i → ¬ t `prefix_of` drop j s)).
Proof.
  intros Hh Hp. unfold strstr. st_step (strlen_spec _ _ _ Hh). st_step (strlen_spec _ _ _ Hp).
  case_decide as Hl.
  - destruct (strstr_loop_spec m h s p t (S (length s - length t)) 0) as (r & -> & Hr); [done..|].
    exists r. split; [done|]. destruct Hr as [[-> Hr]|(j & ? & -> & ? & Hr)].
    + left. split; [done|]. intros i Hpre. pose proof (prefix_length _ _ Hpre) as Hlen.
      rewrite length_drop in Hlen. destruct (decide (i + length t ≤ length s)); [by apply (Hr i); [lia|..]|].
      apply (Hr 0); [lia..|]. destruct t; [apply prefix_nil|cbn in *; lia].
    + right. exists j. split_and!; [done..|]. intros. apply Hr. lia.
  - exists 0. split; [done|]. left. split; [done|]. intros i Hpre%prefix_length.
    rewrite length_drop in Hpre. lia.
Qed.

Lemma strstr_first_witness :
  let m := (9 :: str "banana" ++ [0] ++ str "an" ++ [0])%Z in
  ∃ r, strstr 1 8 m = Ret (r, m) ∧
    ((r = 0 ∧ ∀ i, ¬ str "an" `prefix_of` drop i (str "banana")) ∨
     (∃ i, r = 1 + i ∧ str "an" `prefix_of` drop i (str "banana") ∧
        ∀ j, j < i → ¬ str "an" `prefix_of` drop j (str "banana"))).
Proof.
  intros m. apply (strstr_first m 1 (str "banana") 8 (str "an")).
  - apply cstring_intro; [done|by_decide|intros [|[|[|[|[|[|?]]]]]] ?; [done..|cbn in *; lia]|done].
  - apply cstring_intro; [done|by_decide|intros [|[|?]] ?; [done..|cbn in *; lia]|done].
Defined.

(** ** Tokens *)

(** The words of a string: its maximal runs of characters that are not
    delimiters.  [w] is the part of a word already seen. *)
Fixpoint words_from (d s w : list Z) : list (list Z) :=
  match s with
  | [] => match w with [] => [] | _ => [w] end
  | c :: s =>
      if decide (c ∈ d) then match w with [] => words_from d s [] | _ => w :: words_from d s [] end
      else words_from d s (w ++ [c])
  end.
Definition words (d s : list Z) : list (list Z) := words_from d s [].

Lemma words_skip d sp s : Forall (.∈ d) sp → words d (sp ++ s) = words d s.
Proof. unfold words. induction 1; [done|]. cbn. by rewrite decide_True. Qed.

Lemma words_from_token d t s w :
  Forall (.∉ d) t → w ++ t ≠ [] → (s = [] ∨ ∃ c s', s = c :: s' ∧ c ∈ d) →
  words_from d (t ++ s) w = (w ++ t) :: words d (tail s).
Proof.
  intros Ht. revert w. induction Ht as [|c t Hc Ht IH]; intros w Hw Hs.
  - rewrite app_nil_r in *. destruct Hs as [->|(c & s' & -> & Hc)]; cbn.
    + by destruct w.
    + rewrite decide_True by done. by destruct w.
  - cbn. rewrite decide_False by done. rewrite IH; rewrite <- ?app_assoc; [done|by destruct w|done].
Qed.

Definition bytes (s : list Z) : Prop := Forall (λ c, 0 ≤ c < 256)%Z s.

Lemma strchr_null m p c d :
  cstring m p d → (0 ≤ c < 256)%Z →
  ∃ r, strchr p c m = Ret (r, m) ∧ (r =? 0) = negb (bool_decide (c ∈ d ++ [0%Z])).
Proof.
  intros Hd Hc. eexists. split; [by apply strchr_spec|]. apply first_occurrence_null, Hd.
Qed.

Lemma skip_delimiters_spec m dl d s : ∀ p fuel,
  cstring m p s → bytes s → cstring m dl d → length s < fuel →
  ∃ sp r, s = sp ++ r ∧ Forall (.∈ d) sp ∧
    ((r = [] ∧ skip_delimiters fuel p dl m = Ret (inr (p + length s), m)) ∨
     (∃ c r', r = c :: r' ∧ (c ∉ d) ∧ skip_delimiters fuel p dl m = Ret (inl (p + length sp), m))).
Proof.
  induction s as [|x s IH]; intros p [|fuel] Hs Hb Hd Hf; cbn [length] in *; try lia; cbn [skip_delimiters].
  - exists [], []. split_and!; [done..|]. left. split; [done|]. ld (cstring_nil _ _ Hs).
    destruct (strchr_null m dl 0 d) as (r & Er & Hr); [done..|]. st_step Er.
    rewrite Hr, bool_decide_true by set_solver. cbn. by rewrite Nat.add_0_r.
  - apply cstring_cons in Hs as (Hx & Hz & Hs). apply Forall_cons in Hb as [Hxb Hb].
    destruct (strchr_null m dl x d) as (r & Er & Hr); [done..|].
    assert (x ∈ d ++ [0%Z] ↔ x ∈ d) as Hxd by set_solver.
    destruct (decide (x ∈ d)) as [Hin|Hout].
    + destruct (IH (S p) fuel) as (sp & r' & -> & Hsp & Hres); [done..|lia|].
      exists (x :: sp), r'. split_and!; [done|by constructor|]. ld Hx. st_step Er.
      rewrite Hr, bool_decide_true by tauto. cbn [negb]. rewrite (proj2 (Z.eqb_neq x 0) Hz). cbn [length].
      rewrite <- !Nat.add_succ_comm. done.
    + exists [], (x :: s). split_and!; [done..|]. right. exists x, s. split_and!; [done..|]. ld Hx. st_step Er.
      rewrite Hr, bool_decide_false by tauto. cbn. by rewrite Nat.add_0_r.
Qed.

Lemma skip_token_spec m dl d s : ∀ p fuel,
  cstring m p s → bytes s → cstring m dl d → length s < fuel →
  ∃ t r, s = t ++ r ∧ Forall (.∉ d) t ∧ (r = [] ∨ ∃ c r', r = c :: r' ∧ c ∈ d) ∧
    skip_token fuel p dl m = Ret (p + length t, m).
Proof.
  induction s as [|x s IH]; intros p [|fuel] Hs Hb Hd Hf; cbn [length] in *; try lia; cbn [skip_token].
  - exists [], []. split_and!; [done..|by left|]. ld (cstring_nil _ _ Hs).
    destruct (strchr_null m dl 0 d) as (r & Er & Hr); [done..|]. st_step Er.
    rewrite Hr, bool_decide_true by set_solver. cbn. by rewrite Nat.add_0_r.
  - apply cstring_cons in Hs as (Hx & Hz & Hs). apply Forall_cons in Hb as [Hxb Hb].
    destruct (strchr_null m dl x d) as (r & Er & Hr); [done..|].
    assert (x ∈ d ++ [0%Z] ↔ x ∈ d) as Hxd by set_solver.
    destruct (decide (x ∈ d)) as [Hin|Hout].
    + exists [], (x :: s). split_and!; [done..|right; eauto|]. ld Hx. st_step Er.
      rewrite Hr, bool_decide_true by tauto. cbn. by rewrite Nat.add_0_r.
    + destruct (IH (S p) fuel) as (t & r' & -> & Ht & Hr' & Hres); [done..|lia|].
      exists (x :: t), r'. split_and!; [done|by constructor|done|]. ld Hx. st_step Er.
      rewrite Hr, bool_decide_false by tauto. cbn [negb length]. by rewrite <- Nat.add_succ_comm.
Qed.

Lemma strtok_r_from s dl save : s ≠ 0 → strtok_r s dl save = strtok_r 0 dl s.
Proof. intros Hs. unfold strtok_r. by destruct (Nat.eqb_spec s 0). Qed.

(** One call of [strtok_r] at a saved position [p] before the string [s]: no
    token is left, or the token is the first word, [s'] is the rest of the
    string at the new saved position, and only the delimiter between them has
    changed. *)
Lemma strtok_r_spec m p s dl d :
  cstring m p s → bytes s → cstring m dl d → dl + length d < p ∨ p + length s < dl →
  (words d s = [] ∧ strtok_r 0 dl p m = Ret ((0, p + length s), m)) ∨
  ∃ w tok sv s' m', words d s = w :: words d s' ∧ strtok_r 0 dl p m = Ret ((tok, sv), m') ∧
    cstring m' tok w ∧ cstring m' sv s' ∧ bytes s' ∧ p ≤ tok ∧ length s' < length s ∧
    tok + length w + 1 `min` length s' ≤ sv ∧ sv + length s' = p + length s ∧ length m' = length m ∧
    (∀ k, k < tok ∨ sv ≤ k → m' !! k = m !! k).
Proof.
  intros Hs Hb Hd Ho. pose proof (cstring_length _ _ _ Hs). unfold strtok_r. cbn [Nat.eqb].
  erewrite st_bind_ret by (apply assert_nonnull_spec, Hd).
  erewrite st_bind_ret by (apply assert_nonnull_spec, Hs).
  destruct (skip_delimiters_spec m dl d s p (S (length m))) as (sp & r & -> & Hsp & Hr); [done..|lia|].
  destruct Hr as [[-> E]|(c & r' & -> & Hc & E)]; (erewrite st_bind_ret by exact E); [left|right].
  { split; [|done]. by rewrite words_skip. }
  apply Forall_app in Hb as [_ Hb]. pose proof (cstring_app _ _ _ _ Hs) as Hr.
  destruct (skip_token_spec m dl d (c :: r') (p + length sp) (S (length m))) as (t & r & Et & Ht & Hr' & E');
    [done..| |].
  { rewrite length_app in *. lia. }
  assert (t ≠ []) as Hne.
  { intros ->. destruct Hr' as [->|(c' & r'' & -> & Hc')]; [done|]. cbn in Et. congruence. }
  rewrite Et in *. clear Et c r' Hc. erewrite st_bind_ret by exact E'.
  assert (words d (sp ++ t ++ r) = t :: words d (tail r)) as Hw.
  { rewrite words_skip by done. by apply (words_from_token d t r []). }
  pose proof (cstring_app _ _ _ _ Hr) as Hq. set (tok := p + length sp) in *.
  assert (0%Z ∉ t) as Hzt by (intros Hz; apply (proj1 (proj2 Hr)); set_solver).
  rewrite !length_app in *. destruct Hr' as [->|(c & r' & -> & Hc)].
  - ld (cstring_nil _ _ Hq). cbn. exists t, tok, (tok + length t), [], m. rewrite app_nil_r in *.
    split_and!; try done; unfold tok; try (cbn; lia). { constructor. } destruct t; [done|cbn; lia].
  - apply cstring_cons in Hq as (Hx & Hz & Hq). ld Hx. rewrite (proj2 (Z.eqb_neq c 0) Hz).
    cbn [length] in *. erewrite st_bind_ret by (apply store_spec; unfold tok; lia).
    exists t, tok, (S (tok + length t)), r', (<[tok + length t := 0%Z]> m).
    split_and!; try done; try (rewrite ?length_insert; unfold tok; lia).
    + apply cstring_intro; [by apply Hr|done| |].
      * intros k Hk. rewrite list_lookup_insert_ne by lia. rewrite (cstring_byte _ _ _ k Hr) by (rewrite length_app; lia).
        by apply lookup_app_l.
      * apply list_lookup_insert_eq. unfold tok. lia.
    + eapply cstring_ext; [exact Hq|]. intros k Hk. apply list_lookup_insert_ne. lia.
    + rewrite Forall_app, Forall_cons in Hb. by destruct Hb as (_ & _ & ?).
    + intros k Hk. apply list_lookup_insert_ne. lia.
Qed.

(** The loop in the comment of [strtok_r]: all tokens of a string. *)
Fixpoint tokens (fuel s delimiters save_ptr : nat) : mem (list nat) :=
  match fuel with
  | 0 => divergeS
  | S fuel =>
      '(token, save_ptr) ← strtok_r s delimiters save_ptr;
      if token =? 0 then mret [] else ts ← tokens fuel 0 delimiters save_ptr; mret (token :: ts)
  end.

Lemma tokens_spec fuel : ∀ m p s dl d,
  cstring m p s → bytes s → cstring m dl d → dl + length d < p ∨ p + length s < dl → length s < fuel →
  ∃ ts m', tokens fuel 0 dl p m = Ret (ts, m') ∧ Forall2 (cstring m') ts (words d s) ∧
    length m' = length m ∧ (∀ k, k < p ∨ p + length s ≤ k → m' !! k = m !! k).
Proof.
  induction fuel as [|fuel IH]; intros m p s dl d Hs Hb Hd Ho Hf; [lia|]. cbn [tokens].
  destruct (strtok_r_spec m p s dl d) as [[-> E]|(w & tok & sv & s' & m1 & -> & E & Hw & Hs' & Hb' & ? & ? & ? & ? & Hl & Hk)];
    [done..| |]; st_step E.
  { exists [], m. split_and!; [done|constructor|done..]. }
  destruct (Nat.eqb_spec tok 0) as [->|]; [by destruct Hw|].
  destruct (IH m1 sv s' dl d) as (ts & m2 & E2 & Hts & Hl2 & Hk2); [done..| |lia|lia|].
  { eapply cstring_ext; [exact Hd|]. intros k Hkd. apply Hk. lia. }
  st_step E2. exists (tok :: ts), m2. split_and!; [done| |congruence|].
  - constructor; [|done]. eapply cstring_ext; [exact Hw|]. intros k Hkw. apply Hk2. lia.
  - intros k Hkk. rewrite Hk2, Hk by lia. done.
Qed.

(** [strtok_r], called with a string and then with a null pointer until it
    returns null, returns the addresses of the words of the string in order:
    its maximal runs of characters that are not delimiters, terminated in
    place by null bytes.  Nothing outside of the string is changed. *)
Theorem strtok_r_words m p s dl d save :
  cstring m p s → bytes s → cstring m dl d → dl + length d < p ∨ p + length s < dl →
  ∃ ts m', tokens (S (length s)) p dl save m = Ret (ts, m') ∧ Forall2 (cstring m') ts (words d s) ∧
    (∀ k, k < p ∨ p + length s ≤ k → m' !! k = m !! k).
Proof.
  intros Hs Hb Hd Ho.
  destruct (tokens_spec (S (length s)) m p s dl d) as (ts & m' & E & Hts & _ & Hk); [done..|lia|].
  exists ts, m'. split_and!; [|done..]. rewrite <- E. cbn [tokens]. by rewrite strtok_r_from by apply Hs.
Qed.

Lemma strtok_r_words_witness :
  let m := (9 :: str "  a  bc " ++ [0] ++ str " " ++ [0])%Z in
  ∃ ts m', tokens 9 1 10 0 m = Ret (ts, m') ∧ Forall2 (cstring m') ts [str "a"; str "bc"] ∧
    (∀ k, k < 1 ∨ 9 ≤ k → m' !! k = m !! k).
Proof.
  intros m. apply (strtok_r_words m 1 (str "  a  bc ") 10 (str " ") 0).
  - apply cstring_intro; [done|by_decide|intros [|[|[|[|[|[|[|[|?]]]]]]]] ?; [done..|cbn in *; lia]|done].
  - repeat constructor; done.
  - apply cstring_intro; [done|by_decide|intros [|?] ?; [done..|cbn in *; lia]|done].
  - cbn. lia.
Defined.
