(* ===== verification/ArgStack.v ===== *)
(** * Program arguments ([userprog/process.c])

    How a new process gets its command line: [push_stack_args] splits the
    command line into words and builds the initial user stack, on the byte
    memory of [Cstring].  [esp] is the stack pointer the functions update
    through their [void **esp] argument.  [writable] tells the addresses that
    the page directory lets the kernel write: [setup_stack] has mapped one page
    for the stack, and a [push] that goes below it is a page fault in the
    kernel, which panics.  The theorem shows that the stack is
    the one the C calling convention prescribes: a null return address, the
    number of arguments, and a null-terminated array of pointers to the program
    name and the words of the command line in order. *)

From Stdlib Require Import ZArith Lia Ascii String.
From stdpp Require Import base tactics list numbers option sets.
From S2P Require Import Prelude Vaddr Cstring.

Local Open Scope nat_scope.

(** The bytes of a 32-bit value in memory. *)
Definition le32 (v : Z) : list Z :=
  [v mod 256; v / 2 ^ 8 mod 256; v / 2 ^ 16 mod 256; v / 2 ^ 24 mod 256]%Z.

(** What [push] copies from: a null pointer, an address, or (the address of) a
    local variable with the given bytes. *)
Inductive source : Type :=
| Null
| Mem (adr : nat)
| Local_var (bs : list Z).

Fixpoint store_bytes (p : nat) (bs : list Z) : mem unit :=
  match bs with
  | [] => mret tt
  | b :: bs => store p b;; store_bytes (S p) bs
  end.

Section args.
Context (writable : nat → bool).

(** The addresses from [lo] to [hi] can be written. *)
Definition mapped (lo hi : nat) : bool := forallb writable (seq lo (hi - lo)).

(** Bytes that go around the end of the address space are at the null page
    too, which is never mapped. *)
Definition push (esp : nat) (adr : source) (num_bytes : nat) : mem nat :=
  assertS ((num_bytes <? esp) && mapped (esp - num_bytes) esp);;
  let esp := esp - num_bytes in
  match adr with
  | Null => memset esp 0 num_bytes;; mret esp
  | Mem adr => memcpy esp adr num_bytes;; mret esp
  | Local_var bs => store_bytes esp (take num_bytes bs);; mret esp
  end.

(** The address of the constant [ignore_delimiters]. *)
Context (ignore_delimiters : nat).

Fixpoint parse_loop (fuel token save_ptr esp : nat) (count : Z) : mem (Z * nat) :=
  match fuel with
  | 0 => divergeS
  | S fuel =>
      if token =? 0 then mret (count, esp)
      else
        n ← strnlen token PGSIZE;
        esp ← push esp (Mem token) (n + 1);
        '(token, save_ptr) ← strtok_r 0 ignore_delimiters save_ptr;
        parse_loop fuel token save_ptr esp (count + 1)
  end.

Definition parse_cmd_ln (cmdline esp : nat) : mem (Z * nat) :=
  '(token, save_ptr) ← strtok_r cmdline ignore_delimiters 0;
  scan (λ fuel, parse_loop fuel token save_ptr esp 0).

(** [for (curr_str = 0; curr_str < argc; curr_str++)], [n] rounds. *)
Fixpoint push_argv (n argv_data_ptr esp : nat) : mem nat :=
  match n with
  | 0 => mret esp
  | S n =>
      esp ← push esp (Local_var (le32 (Z.of_nat argv_data_ptr))) 4;
      len ← strnlen argv_data_ptr PGSIZE;
      push_argv n (argv_data_ptr + (len + 1)) esp
  end.

Definition push_stack_args (file_name cmdline esp : nat) : mem nat :=
  len ← strnlen file_name PGSIZE;
  esp ← push esp (Mem file_name) (len + 1);
  '(n, esp) ← parse_cmd_ln cmdline esp;
  let argc := (n + 1)%Z in
  let argv_data_ptr := esp in
  esp ← push esp Null (esp mod 4);
  esp ← push esp Null 4;
  esp ← push_argv (Z.to_nat argc) argv_data_ptr esp;
  let argv_ptr_strt := esp in
  esp ← push esp (Local_var (le32 (Z.of_nat argv_ptr_strt))) 4;
  esp ← push esp (Local_var (le32 argc)) 4;
  push esp Null 4.
End args.

(** ** Memory that is all mapped *)

Definition everywhere (k : nat) : bool := true.

Lemma mapped_everywhere lo hi : mapped everywhere lo hi = true.
Proof. unfold mapped. apply forallb_forall. done. Qed.

(** ** Pushing *)

(** The memory holds the bytes [bs] at [p]. *)
Definition holds (m : list Z) (p : nat) (bs : list Z) : Prop :=
  ∀ k, k < length bs → m !! (p + k) = bs !! k.

(** [m'] differs from [m] at most in the bytes from [lo] to [hi]. *)
Definition same_outside (m m' : list Z) (lo hi : nat) : Prop :=
  length m' = length m ∧ ∀ k, k < lo ∨ hi ≤ k → m' !! k = m !! k.

Lemma same_bytes_refl m lo hi : same_outside m m lo hi.
Proof. done. Qed.

Lemma same_bytes_trans m1 m2 m3 lo hi :
  same_outside m1 m2 lo hi → same_outside m2 m3 lo hi → same_outside m1 m3 lo hi.
Proof. intros [? H1] [? H2]. split; [congruence|]. intros k Hk. by rewrite H2, H1. Qed.

Lemma same_weaken m m' lo hi lo' hi' :
  same_outside m m' lo hi → lo' ≤ lo → hi ≤ hi' → same_outside m m' lo' hi'.
Proof. intros [? H] ? ?. split; [done|]. intros k Hk. apply H. lia. Qed.

Lemma same_cstring m m' lo hi p s :
  same_outside m m' lo hi → cstring m p s → p + length s < lo ∨ hi ≤ p → cstring m' p s.
Proof. intros [_ H] Hs Hp. eapply cstring_ext; [exact Hs|]. intros k Hk. apply H. lia. Qed.

Lemma same_holds m m' lo hi p bs :
  same_outside m m' lo hi → holds m p bs → p + length bs ≤ lo ∨ hi ≤ p → holds m' p bs.
Proof. intros [_ H] Hs Hp k Hk. rewrite H by lia. by apply Hs. Qed.

Lemma store_bytes_spec bs : ∀ m p,
  p + length bs ≤ length m →
  ∃ m', store_bytes p bs m = Ret (tt, m') ∧ holds m' p bs ∧ same_outside m m' p (p + length bs).
Proof.
  induction bs as [|b bs IH]; intros m p Hl; cbn [store_bytes length] in *.
  { exists m. split; [done|]. split; [intros k Hk; cbn in Hk; lia|done]. }
  erewrite st_bind_ret by (apply store_spec; lia).
  destruct (IH (<[p := b]> m) (S p)) as (m' & -> & Hh & Hl' & Hs); [rewrite length_insert; lia|].
  rewrite length_insert in Hl'. exists m'. split; [done|]. split; [|split; [done|]].
  - intros [|k] Hk; cbn in Hk.
    + rewrite Nat.add_0_r, Hs by lia. by rewrite list_lookup_insert_eq by lia.
    + rewrite <- Nat.add_succ_comm. apply Hh. lia.
  - intros k Hk. rewrite Hs by lia. apply list_lookup_insert_ne. lia.
Qed.

Lemma fill_spec n : ∀ m p,
  p + n ≤ length m → fill p 0 n m = store_bytes p (replicate n 0%Z) m.
Proof.
  induction n as [|n IH]; intros m p Hl; [done|]. cbn [fill store_bytes replicate].
  erewrite !st_bind_ret by (apply store_spec; lia). apply IH. rewrite length_insert. lia.
Qed.

(** [push] moves the stack pointer down and puts the bytes there. *)
Lemma push_bytes m esp n bs run :
  n < esp → esp ≤ length m → length bs = n →
  (∃ m', run m = Ret (esp - n, m') ∧ holds m' (esp - n) bs ∧ same_outside m m' (esp - n) esp) →
  ∃ m', (assertS ((n <? esp) && mapped everywhere (esp - n) esp);; run) m = Ret (esp - n, m') ∧ holds m' (esp - n) bs ∧
    same_outside m m' (esp - n) esp.
Proof.
  intros Hn Hl Hb Hr. erewrite st_bind_ret; [done|]. apply assertS_true. rewrite mapped_everywhere, andb_true_r. by apply Nat.ltb_lt.
Qed.

Lemma push_null m esp n :
  n < esp → esp ≤ length m →
  ∃ m', push everywhere esp Null n m = Ret (esp - n, m') ∧ holds m' (esp - n) (replicate n 0%Z) ∧
    same_outside m m' (esp - n) esp.
Proof.
  intros Hn Hl. apply push_bytes; [done..|apply length_replicate|].
  destruct (store_bytes_spec (replicate n 0%Z) m (esp - n)) as (m' & E & Hh & Hs);
    rewrite ?length_replicate in *; [lia|].
  exists m'. split_and!; [|done|].
  - unfold memset. erewrite st_bind_ret; [|erewrite st_bind_ret by (apply assert_block_spec; lia)].
    2: { erewrite st_bind_ret by (rewrite fill_spec by lia; exact E). done. } done.
  - replace esp with (esp - n + n) at 2 by lia. apply Hs.
Qed.

Lemma push_local m esp bs :
  length bs = 4 → 4 < esp → esp ≤ length m →
  ∃ m', push everywhere esp (Local_var bs) 4 m = Ret (esp - 4, m') ∧ holds m' (esp - 4) bs ∧
    same_outside m m' (esp - 4) esp.
Proof.
  intros Hb Hn Hl. apply push_bytes; [done..|].
  destruct (store_bytes_spec bs m (esp - 4)) as (m' & E & Hh & Hs); [lia|].
  exists m'. rewrite take_ge by lia. split_and!; [by st_step E|done|].
  replace esp with (esp - 4 + length bs) at 2 by lia. apply Hs.
Qed.

(** Pushing a string with its null byte. *)
Lemma push_string m esp p s :
  cstring m p s → length s + 1 < esp → esp ≤ length m → p + length s < esp - (length s + 1) ∨ esp ≤ p →
  ∃ m', push everywhere esp (Mem p) (length s + 1) m = Ret (esp - (length s + 1), m') ∧
    cstring m' (esp - (length s + 1)) s ∧ same_outside m m' (esp - (length s + 1)) esp.
Proof.
  intros Hs Hn Hl Ho. pose proof (cstring_length _ _ _ Hs).
  destruct (memcpy_spec m (esp - (length s + 1)) p (length s + 1)) as (m' & E & Hl' & Hm);
    [lia|apply Hs|lia..|].
  exists m'. split; [|split; [|split; [done|]]].
  - unfold push. erewrite st_bind_ret by (apply assertS_true; rewrite mapped_everywhere, andb_true_r; by apply Nat.ltb_lt). by st_step E.
  - apply cstring_intro; [lia|apply Hs| |].
    + intros k Hk. rewrite Hm, decide_True by lia. rewrite <- (cstring_byte m p s) by (done || lia). f_equal. lia.
    + rewrite Hm, decide_True by lia. rewrite (cstring_lookup m p s) by (done || lia).
      by rewrite decide_False by lia.
  - intros k Hk. rewrite Hm, decide_False by lia. done.
Qed.

(** ** The strings on the stack *)

(** Strings one after the other in memory, and the bytes they take. *)
Fixpoint strings (m : list Z) (p : nat) (ws : list (list Z)) : Prop :=
  match ws with
  | [] => True
  | w :: ws => cstring m p w ∧ strings m (p + (length w + 1)) ws
  end.
Definition strings_size (ws : list (list Z)) : nat := sum_list_with (λ w, length w + 1) ws.

Lemma strings_size_app ws vs : strings_size (ws ++ vs) = strings_size ws + strings_size vs.
Proof. apply sum_list_with_app. Qed.

Lemma strings_size_rev ws : strings_size (rev ws) = strings_size ws.
Proof.
  induction ws as [|w ws IH]; [done|]. cbn [rev]. rewrite strings_size_app, IH.
  unfold strings_size; cbn. lia.
Qed.

Lemma rev_Forall2 {A B} (P : A → B → Prop) xs ys : Forall2 P xs ys → Forall2 P (rev xs) (rev ys).
Proof. induction 1; cbn; [constructor|]. apply Forall2_app; auto. Qed.

(** [m'] differs from [m] at most at the addresses in [R]. *)
Definition differ (R : nat → Prop) (m m' : list Z) : Prop :=
  length m' = length m ∧ ∀ k, ¬ R k → m' !! k = m !! k.

Lemma differ_trans (R1 R2 R : nat → Prop) m1 m2 m3 :
  differ R1 m1 m2 → differ R2 m2 m3 → (∀ k, R1 k ∨ R2 k → R k) → differ R m1 m3.
Proof.
  intros [? H1] [? H2] HR. split; [congruence|]. intros k Hk. rewrite H2, H1; naive_solver.
Qed.

Lemma differ_cstring R m m' p s :
  differ R m m' → cstring m p s → (∀ k, p ≤ k ≤ p + length s → ¬ R k) → cstring m' p s.
Proof. intros [_ H] Hs HR. eapply cstring_ext; [exact Hs|]. auto. Qed.

Lemma differ_strings R m m' ws : ∀ p,
  differ R m m' → strings m p ws → (∀ k, p ≤ k < p + strings_size ws → ¬ R k) → strings m' p ws.
Proof.
  induction ws as [|w ws IH]; intros p Hd Hs HR; [done|]. destruct Hs as [Hw Hs]. cbn in HR. split.
  - eapply differ_cstring; [done..|]. intros k Hk. apply HR. lia.
  - apply IH; [done..|]. intros k Hk. apply HR. unfold strings_size in *. lia.
Qed.

Lemma same_differ m m' lo hi : same_outside m m' lo hi → differ (λ k, lo ≤ k < hi) m m'.
Proof. intros [? H]. split; [done|]. intros k Hk. apply H. lia. Qed.

Section parse.
Context (dl : nat) (d : list Z) (top : nat).

(** What [parse_loop] touches: the stack from [esp], and the command line. *)
Definition touched (esp lo hi k : nat) : Prop := esp ≤ k < top ∨ lo ≤ k < hi.

Lemma parse_loop_spec fuel : ∀ m tok w sv s esp acc count,
  cstring m tok w → cstring m sv s → bytes s → cstring m dl d →
  top ≤ tok → tok + length w + 1 `min` length s ≤ sv → top ≤ dl → dl + length d < sv ∨ sv + length s < dl →
  (Z.of_nat (length w + length s) ≤ PGSIZE)%Z → length s + 1 < fuel →
  strings m esp acc → esp + strings_size acc = top → top ≤ length m → strings_size (w :: words d s) < esp →
  ∃ m' esp', parse_loop everywhere dl fuel tok sv esp count m = Ret ((count + Z.of_nat (length (w :: words d s)))%Z, esp', m') ∧
    strings m' esp' (rev (w :: words d s) ++ acc) ∧ esp' + strings_size (rev (w :: words d s) ++ acc) = top ∧
    0 < esp' ∧ differ (touched esp' sv (sv + length s)) m m'.
Proof.
  induction fuel as [|fuel IH];
    intros m tok w sv s esp acc count Hw Hs Hb Hdl Htok Hsv Hdt Ho Hpg Hf Hacc Hesp Hm Hroom; [lia|].
  cbn [parse_loop]. destruct (Nat.eqb_spec tok 0) as [->|]; [by destruct Hw|].
  st_step (strnlen_spec m tok w PGSIZE Hw ltac:(lia)).
  unfold strings_size in Hroom; cbn [sum_list_with] in Hroom; fold (strings_size (words d s)) in Hroom.
  destruct (push_string m esp tok w) as (m1 & E1 & Hw1 & Hd1%same_differ); [done|lia..|]. st_step E1.
  set (esp1 := esp - (length w + 1)) in *.
  assert (length m1 = length m) by apply Hd1.
  assert (strings m1 esp1 (w :: acc)) as Hacc1.
  { split; [done|]. replace (esp1 + (length w + 1)) with esp by (unfold esp1; lia).
    eapply differ_strings; [done..|]. cbn. lia. }
  assert (esp1 + strings_size (w :: acc) = top) as Hesp1 by (unfold esp1, strings_size in *; cbn; lia).
  assert (cstring m1 sv s) as Hs1 by (eapply differ_cstring; [exact Hd1|exact Hs|cbn; lia]).
  assert (cstring m1 dl d) as Hdl1 by (eapply differ_cstring; [exact Hd1|exact Hdl|cbn; lia]).
  destruct (strtok_r_spec m1 sv s dl d) as
    [[Ews E]|(w2 & tok2 & sv2 & s2 & m2 & Ews & E & Hw2 & Hs2 & Hb2 & ? & ? & ? & ? & Hl2 & Hk2)]; [done..| |];
    st_step E; rewrite Ews in *.
  - destruct fuel; [lia|]. cbn [parse_loop Nat.eqb length rev app]. exists m1, esp1.
    split; [done|]. split; [exact Hacc1|]. split; [exact Hesp1|]. split; [unfold esp1; lia|].
    split; [done|]. intros k Hk. apply Hd1. unfold touched in Hk. lia.
  - assert (differ (λ k, sv ≤ k < sv + length s) m1 m2) as Hd2.
    { split; [done|]. intros k Hk. apply Hk2. lia. }
    unfold strings_size in Hroom; cbn [sum_list_with] in Hroom; fold (strings_size (words d s2)) in Hroom.
    destruct (IH m2 tok2 w2 sv2 s2 esp1 (w :: acc) (count + 1)%Z) as (m3 & esp3 & E3 & Hs3 & He3 & Hp3 & Hd3);
      [done..| | | | | | | | | | | |].
    { eapply differ_cstring; [exact Hd2|done|cbn; lia]. }
    all: try lia.
    { eapply differ_strings; [exact Hd2|done|]. rewrite ?Hesp1. cbn. lia. }
    { unfold strings_size at 1; cbn. fold (strings_size (words d s2)). unfold esp1. lia. }
    exists m3, esp3. rewrite E3. cbn [rev] in *. rewrite <- !app_assoc in *. cbn [app] in *.
    split_and!; [do 2 f_equal; f_equal; cbn; lia|done..|].
    eapply differ_trans; [exact Hd1|eapply differ_trans; [exact Hd2|exact Hd3|intros k Hk; exact Hk]|].
    unfold touched. rewrite strings_size_app in He3. unfold strings_size in He3 at 2; cbn in He3.
    intros k. unfold esp1, strings_size in *. cbn in *. lia.
Qed.
End parse.

Lemma parse_cmd_ln_spec dl d m cl line esp acc :
  cstring m cl line → bytes line → cstring m dl d →
  esp + strings_size acc ≤ cl → esp + strings_size acc ≤ dl → dl + length d < cl ∨ cl + length line < dl →
  (Z.of_nat (length line) ≤ PGSIZE)%Z → strings m esp acc → strings_size (words d line) < esp →
  ∃ m' esp', parse_cmd_ln everywhere dl cl esp m = Ret (Z.of_nat (length (words d line)), esp', m') ∧
    strings m' esp' (rev (words d line) ++ acc) ∧
    esp' + strings_size (rev (words d line) ++ acc) = esp + strings_size acc ∧
    0 < esp' ∧ differ (touched (esp + strings_size acc) esp' cl (cl + length line)) m m'.
Proof.
  intros Hc Hb Hd Htop Hdt Ho Hpg Hacc Hroom. pose proof (cstring_length _ _ _ Hc).
  unfold parse_cmd_ln. rewrite strtok_r_from by apply Hc.
  destruct (strtok_r_spec m cl line dl d) as
    [[Ews E]|(w & tok & sv & s & m1 & Ews & E & Hw & Hs & Hb1 & ? & ? & ? & ? & Hl & Hk)]; [done..| |];
    st_step E; rewrite Ews in *.
  { exists m, esp. split; [done|]. split; [done|]. split; [done|]. split; [lia|done]. }
  assert (differ (λ k, cl ≤ k < cl + length line) m m1) as Hd1.
  { split; [done|]. intros k Hkk. apply Hk. lia. }
  unfold scan. rewrite Hl.
  destruct (parse_loop_spec dl d (esp + strings_size acc) (S (length m)) m1 tok w sv s esp acc 0)
    as (m2 & esp2 & E2 & Hs2 & He2 & Hp2 & Hd2); try done; try lia.
  { eapply differ_cstring; [exact Hd1|exact Hd|cbn; lia]. }
  { eapply differ_strings; [exact Hd1|exact Hacc|cbn; lia]. }
  exists m2, esp2. split; [exact E2|]. split_and!; [done..|].
  eapply differ_trans; [exact Hd1|exact Hd2|]. unfold touched. lia.
Qed.

(** ** The argument vector *)

(** An array of pointers in memory. *)
Definition pointers (m : list Z) (p : nat) (ps : list nat) : Prop :=
  ∀ j a, ps !! j = Some a → holds m (p + 4 * j) (le32 (Z.of_nat a)).

Fixpoint addresses (p : nat) (ws : list (list Z)) : list nat :=
  match ws with
  | [] => []
  | w :: ws => p :: addresses (p + (length w + 1)) ws
  end.

Lemma addresses_strings m ws : ∀ p, strings m p ws → Forall2 (cstring m) (addresses p ws) ws.
Proof. induction ws as [|w ws IH]; intros p Hs; [constructor|]. destruct Hs. constructor; auto. Qed.

Lemma differ_pointers m m' lo hi p ps :
  same_outside m m' lo hi → pointers m p ps → hi ≤ p → pointers m' p ps.
Proof. intros Hs Hp Hlt j a Hj. eapply same_holds; [done|by apply Hp|lia]. Qed.

Lemma push_argv_spec ws : ∀ m p esp ps,
  strings m p ws → Forall (λ w, Z.of_nat (length w) ≤ PGSIZE)%Z ws → esp ≤ p → esp ≤ length m →
  4 * length ws < esp → pointers m esp ps →
  ∃ m', push_argv everywhere (length ws) p esp m = Ret (esp - 4 * length ws, m') ∧
    pointers m' (esp - 4 * length ws) (rev (addresses p ws) ++ ps) ∧
    same_outside m m' (esp - 4 * length ws) esp.
Proof.
  induction ws as [|w ws IH]; intros m p esp ps Hs Hpg Hp Hm Hroom Hps; cbn [length push_argv] in *.
  { exists m. rewrite Nat.mul_0_r, Nat.sub_0_r. by split_and!. }
  apply Forall_cons in Hpg as [Hwp Hpg].
  destruct (push_local m esp (le32 (Z.of_nat p))) as (m1 & E1 & Hh1 & Hs1); [done|lia..|]. st_step E1.
  assert (strings m1 p (w :: ws)) as [Hw Hws].
  { eapply differ_strings; [by apply same_differ|done|cbn; lia]. }
  assert (length m1 = length m) by apply Hs1. st_step (strnlen_spec m1 p w PGSIZE Hw Hwp).
  destruct (IH m1 (p + (length w + 1)) (esp - 4) (p :: ps)) as (m2 & -> & Hp2 & Hs2); try done; try lia.
  { intros [|j] a; cbn [lookup list_lookup].
    - intros [= <-]. by rewrite Nat.mul_0_r, Nat.add_0_r.
    - intros Hj. replace (esp - 4 + 4 * S j) with (esp + 4 * j) by lia.
      eapply same_holds; [exact Hs1|by apply Hps|lia]. }
  replace (esp - 4 - 4 * length ws) with (esp - 4 * S (length ws)) in * by lia.
  exists m2. split_and!; [done| |].
  - cbn [addresses rev]. by rewrite <- app_assoc.
  - eapply same_bytes_trans; (eapply same_weaken; [eassumption|lia|lia]).
Qed.

(** The stack a C program starts with: return address, [argc], [argv], and the
    array [argv] points to. *)
Definition initial_stack (m : list Z) (esp : nat) (args : list (list Z)) : Prop :=
  holds m esp (le32 0) ∧
  holds m (esp + 4) (le32 (Z.of_nat (length args))) ∧
  holds m (esp + 8) (le32 (Z.of_nat (esp + 12))) ∧
  ∃ argv, Forall2 (cstring m) argv args ∧ pointers m (esp + 12) (argv ++ [0]).

(** The part after the strings: alignment, [argv], the call frame. *)
Definition push_frame (argc : Z) (esp : nat) : mem nat :=
  let argv_data_ptr := esp in
  esp ← push everywhere esp Null (esp mod 4);
  esp ← push everywhere esp Null 4;
  esp ← push_argv everywhere (Z.to_nat argc) argv_data_ptr esp;
  let argv_ptr_strt := esp in
  esp ← push everywhere esp (Local_var (le32 (Z.of_nat argv_ptr_strt))) 4;
  esp ← push everywhere esp (Local_var (le32 argc)) 4;
  push everywhere esp Null 4.

Lemma push_frame_spec m esp args :
  strings m esp (rev args) → Forall (λ w, Z.of_nat (length w) ≤ PGSIZE)%Z args → esp ≤ length m →
  4 * length args + 19 < esp →
  ∃ m' esp', push_frame (Z.of_nat (length args)) esp m = Ret (esp', m') ∧
    initial_stack m' esp' args ∧ esp' mod 4 = 0 ∧
    esp' = esp - esp mod 4 - (4 * length args + 16) ∧ same_outside m m' esp' esp.
Proof.
  intros Hs Hpg Hm Hroom. unfold push_frame. rewrite Nat2Z.id.
  pose proof (Nat.mod_upper_bound esp 4 ltac:(lia)). pose proof (Nat.div_mod esp 4 ltac:(lia)) as Hdm.
  destruct (push_null m esp (esp mod 4)) as (m1 & E1 & _ & S1); [lia..|]. st_step E1.
  set (e1 := esp - esp mod 4) in *. assert (length m1 = length m) by apply S1.
  destruct (push_null m1 e1 4) as (m2 & E2 & Q2 & S2); [lia..|]. st_step E2.
  assert (length m2 = length m1) by apply S2.
  assert (same_outside m m2 (e1 - 4) esp) as S12.
  { eapply same_bytes_trans; (eapply same_weaken; [eassumption|lia|lia]). }
  rewrite <- (length_rev args) in Hroom |- *.
  destruct (push_argv_spec (rev args) m2 esp (e1 - 4) [0]) as (m3 & E3 & Q3 & S3); try lia.
  { eapply differ_strings; [by apply same_differ|done|cbn; lia]. }
  { by apply Forall_rev. }
  { intros j a [-> <-]%list_lookup_singleton_Some. by rewrite Nat.add_0_r. }
  st_step E3. assert (length m3 = length m2) by apply S3. rewrite length_rev in *.
  set (e3 := e1 - 4 - 4 * length args) in *.
  destruct (push_local m3 e3 (le32 (Z.of_nat e3))) as (m4 & E4 & Q4 & S4); [done|lia..|]. st_step E4.
  assert (length m4 = length m3) by apply S4.
  destruct (push_local m4 (e3 - 4) (le32 (Z.of_nat (length args)))) as (m5 & E5 & Q5 & S5); [done|lia..|].
  st_step E5. assert (length m5 = length m4) by apply S5.
  destruct (push_null m5 (e3 - 4 - 4) 4) as (m6 & E6 & Q6 & S6); [lia..|]. rewrite E6.
  assert (same_outside m3 m6 (e3 - 12) e3) as S36.
  { eapply same_bytes_trans; [|eapply same_bytes_trans]; (eapply same_weaken; [eassumption|lia|lia]). }
  assert (same_outside m m6 (e3 - 12) esp) as S06.
  { eapply same_bytes_trans; [eapply same_weaken; [exact S12|lia|lia]|].
    eapply same_bytes_trans; (eapply same_weaken; [eassumption|lia|lia]). }
  exists m6, (e3 - 12). split; [do 2 f_equal; lia|]. split; [|split; [|split; [unfold e3, e1; lia|]]].
  - replace (e3 - 4 - 4 - 4) with (e3 - 12) in * by lia. replace (e3 - 4 - 4) with (e3 - 12 + 4) in * by lia.
    replace (e3 - 4) with (e3 - 12 + 8) in * by lia. split_and!; [done| | |].
    + eapply same_holds; [exact S6|done|cbn; lia].
    + replace (e3 - 12 + 12) with e3 by lia.
      eapply same_holds; [exact S6|eapply same_holds; [exact S5|done|cbn; lia]|cbn; lia].
    + replace (e3 - 12 + 12) with e3 by lia. exists (rev (addresses esp (rev args))). split.
      * rewrite <- (rev_involutive args) at 2. apply rev_Forall2, addresses_strings.
        eapply differ_strings; [exact (same_differ _ _ _ _ S06)|exact Hs|intros k; cbn; lia].
      * eapply differ_pointers; [exact S36|done|lia].
  - unfold e3, e1. apply Nat.Div0.mod_divides. exists (esp / 4 - length args - 4). lia.
  - done.
Qed.

Lemma words_from_length d s : ∀ w v, v ∈ words_from d s w → length v ≤ length w + length s.
Proof.
  induction s as [|c s IH]; intros w v; cbn; [destruct w; set_solver by (cbn; lia)|].
  case_decide.
  - destruct w as [|x w].
    + intros ?%IH. cbn in *. lia.
    + intros [->|Hv]%elem_of_cons; [cbn; lia|]. apply IH in Hv. cbn in *. lia.
  - intros Hv%IH. rewrite length_app in Hv. cbn in *. lia.
Qed.

Lemma words_length d s w : w ∈ words d s → length w ≤ length s.
Proof. apply words_from_length. Qed.

(** ** The page of the stack *)

Lemma mapped_app W a b c : a ≤ b ≤ c → mapped W a c = mapped W a b && mapped W b c.
Proof.
  intros H. unfold mapped. replace (c - a) with ((b - a) + (c - b)) by lia.
  rewrite seq_app, forallb_app. by replace (a + (b - a)) with b by lia.
Qed.

(** What a program that pushes from [esp] down to [pos a] does when not all of
    memory can be written: the same if the bytes it pushes can be, otherwise
    it faults. *)
Definition confined {A} (esp : nat) (f : (nat → bool) → mem A) (pos : A → nat) : Prop :=
  ∀ m a m', f everywhere m = Ret (a, m') →
    pos a ≤ esp ∧ ∀ W, f W m = if mapped W (pos a) esp then Ret (a, m') else Panic.

Lemma confined_ret {A} esp (a : A) pos : pos a = esp → confined esp (λ _, mret a) pos.
Proof. intros <- m b m' [= <- <-]. split; [done|]. intros W. unfold mapped. by rewrite Nat.sub_diag. Qed.

Lemma confined_bind {A B} esp f pos (g : (nat → bool) → A → mem B) pos' :
  confined esp f pos → (∀ a, confined (pos a) (λ W, g W a) pos') → confined esp (λ W, f W ≫= g W) pos'.
Proof.
  intros Hf Hg m b m' (a & m1 & E1 & E2)%st_bind_inv. destruct (Hf _ _ _ E1) as [H1 Hw1].
  destruct (Hg _ _ _ _ E2) as [H2 Hw2]. split; [lia|]. intros W. rewrite (mapped_app W _ (pos a)) by lia.
  specialize (Hw1 W). specialize (Hw2 W). destruct (mapped W (pos a) esp).
  - rewrite andb_true_r, (st_bind_ret _ _ _ _ _ Hw1). exact Hw2.
  - rewrite andb_false_r. by rewrite (st_bind_panic _ _ _ Hw1).
Qed.

(** Code that pushes nothing. *)
Lemma confined_step {A B} esp (f : mem A) (g : (nat → bool) → A → mem B) pos :
  (∀ a, confined esp (λ W, g W a) pos) → confined esp (λ W, f ≫= g W) pos.
Proof.
  intros Hg m b m' (a & m1 & E1 & E2)%st_bind_inv. destruct (Hg _ _ _ _ E2) as [H2 Hw2].
  split; [done|]. intros W. rewrite (st_bind_ret _ _ _ _ _ E1). apply Hw2.
Qed.

Lemma confined_push esp adr n : confined esp (λ W, push W esp adr n) id.
Proof.
  intros m e m' H. unfold push in *. apply st_bind_inv in H as ([] & m1 & H1 & H).
  apply assertS_inv in H1 as [[Hn _]%andb_prop ->]. apply Nat.ltb_lt in Hn.
  assert (e = esp - n) as ->.
  { destruct adr; apply st_bind_inv in H as (? & ? & _ & H); by injection H as <- _. }
  split; [cbn; lia|]. intros W. unfold id. rewrite (proj2 (Nat.ltb_lt _ _) Hn). cbn [andb].
  destruct (mapped W (esp - n) esp); [exact H|done].
Qed.
Create HintDb confined.
#[local] Hint Resolve confined_push confined_ret : confined.

Lemma confined_parse_loop dl fuel : ∀ token sv esp count,
  confined esp (λ W, parse_loop W dl fuel token sv esp count) snd.
Proof.
  induction fuel as [|fuel IH]; intros token sv esp count; cbn [parse_loop]; [by intros ? ? ?|].
  destruct (token =? 0); [auto with confined|]. apply confined_step. intros n.
  apply (confined_bind esp (λ W, push W esp (Mem token) (n + 1)) id); [auto with confined|]. intros e.
  apply confined_step. intros [tok sv']. apply IH.
Qed.

Lemma confined_parse_cmd_ln dl cl esp : confined esp (λ W, parse_cmd_ln W dl cl esp) snd.
Proof.
  unfold parse_cmd_ln. apply confined_step. intros [tok sv]. intros m a m'. unfold scan.
  apply (confined_parse_loop dl (S (length m)) tok sv esp 0 m).
Qed.

Lemma confined_push_argv n : ∀ p esp, confined esp (λ W, push_argv W n p esp) id.
Proof.
  induction n as [|n IH]; intros p esp; cbn [push_argv]; [auto with confined|].
  apply (confined_bind esp (λ W, push W esp _ 4) id); [auto with confined|]. intros e.
  apply confined_step. intros len. apply IH.
Qed.

Lemma confined_push_stack_args dl fn cl esp : confined esp (λ W, push_stack_args W dl fn cl esp) id.
Proof.
  unfold push_stack_args. apply confined_step. intros len.
  apply (confined_bind esp (λ W, push W esp _ _) id); [auto with confined|]. intros e.
  apply (confined_bind e (λ W, parse_cmd_ln W dl cl e) snd); [apply confined_parse_cmd_ln|]. intros [n e1].
  apply (confined_bind e1 (λ W, push W e1 _ _) id); [auto with confined|]. intros e2.
  apply (confined_bind e2 (λ W, push W e2 _ _) id); [auto with confined|]. intros e3.
  apply (confined_bind e3 (λ W, push_argv W _ _ e3) id); [apply confined_push_argv|]. intros e4.
  apply (confined_bind e4 (λ W, push W e4 _ _) id); [auto with confined|]. intros e5.
  apply (confined_bind e5 (λ W, push W e5 _ _) id); [auto with confined|]. intros e6.
  auto with confined.
Qed.

(** Where the stack of the arguments [args] ends that starts at [esp]: the
    strings, padding, [argv] with its null pointer, three words. *)
Definition stack_bottom (esp : nat) (args : list (list Z)) : nat :=
  let e := esp - strings_size args in e - e mod 4 - (4 * length args + 16).

Lemma push_stack_args_run m fn name cl line dl d esp :
  cstring m fn name → cstring m cl line → bytes line → cstring m dl d →
  esp ≤ fn → esp ≤ cl → esp ≤ dl → dl + length d < cl ∨ cl + length line < dl →
  (Z.of_nat (length name) ≤ PGSIZE)%Z → (Z.of_nat (length line) ≤ PGSIZE)%Z →
  let args := name :: words d line in
  strings_size args + 4 * length args + 19 < esp →
  ∃ m', push_stack_args everywhere dl fn cl esp m = Ret (stack_bottom esp args, m') ∧
    initial_stack m' (stack_bottom esp args) args ∧ stack_bottom esp args mod 4 = 0 ∧
    (∀ k, k < stack_bottom esp args ∨ esp ≤ k < cl ∨ cl + length line ≤ k → m' !! k = m !! k).
Proof.
  intros Hn Hc Hb Hd Hfn Hcl Hdl Ho Hnl Hll args Hroom.
  pose proof (cstring_length _ _ _ Hn). unfold args, strings_size in Hroom; cbn in Hroom.
  fold (strings_size (words d line)) in Hroom. unfold push_stack_args.
  st_step (strnlen_spec m fn name PGSIZE Hn Hnl).
  destruct (push_string m esp fn name) as (m1 & E1 & Hn1 & S1%same_differ); [done|lia..|]. st_step E1.
  set (e1 := esp - (length name + 1)) in *. assert (length m1 = length m) by apply S1.
  assert (strings_size [name] = length name + 1) as Hsz by (unfold strings_size; cbn; lia).
  destruct (parse_cmd_ln_spec dl d m1 cl line e1 [name]) as (m2 & e2 & E2 & Q2 & He2 & Hp2 & S2); try lia; try done.
  { eapply differ_cstring; [exact S1|done|cbn; lia]. }
  { eapply differ_cstring; [exact S1|done|cbn; lia]. }
  assert (length m2 = length m1) by apply S2. st_step E2.
  rewrite strings_size_app, Hsz in He2.
  assert (strings_size (rev (words d line)) = strings_size (words d line)) as Hrev.
  { apply strings_size_rev. }
  destruct (push_frame_spec m2 e2 args) as (m3 & e3 & E3 & Q3 & Hal & Hb3 & S3); try done; try lia.
  { constructor; [done|]. apply Forall_forall. intros w ?%words_length. lia. }
  { unfold args; cbn. lia. }
  assert (e3 = stack_bottom esp args) as Ee.
  { unfold stack_bottom. by replace (esp - strings_size args) with e2 by (unfold args, strings_size in *; cbn in *; lia). }
  rewrite <-Ee. exists m3. split_and!; [|done|done|].
  - rewrite <- E3. unfold push_frame, args. cbn [length].
    replace (Z.of_nat (S (length (words d line)))) with (Z.of_nat (length (words d line)) + 1)%Z by lia. done.
  - intros k Hk. rewrite (proj2 S3), (proj2 S2), (proj2 S1); unfold touched; cbn; lia || done.
Qed.

(** C8: [push_stack_args] gives a new process the stack of a C program whose
    arguments are the program name and the words of the command line, in
    order: a null return address, [argc], [argv], and at [argv] the addresses
    of the strings, followed by a null pointer.  The stack pointer is a
    multiple of four, and nothing but the stack above it and the command line
    is changed.  That is so if all of this fits in the page that [setup_stack]
    has mapped; if it does not, and the page below is not mapped, the kernel
    panics.  The user stack ends below the kernel's copy of the command line,
    which is at most a page long. *)
Theorem push_stack_args_correct writable m fn name cl line dl d esp :
  cstring m fn name → cstring m cl line → bytes line → cstring m dl d →
  esp ≤ fn → esp ≤ cl → esp ≤ dl → dl + length d < cl ∨ cl + length line < dl →
  (Z.of_nat (length name) ≤ PGSIZE)%Z → (Z.of_nat (length line) ≤ PGSIZE)%Z →
  let args := name :: words d line in
  let esp' := stack_bottom esp args in
  strings_size args + 4 * length args + 19 < esp → 4096 < esp →
  (∀ k, esp - 4096 ≤ k < esp → writable k = true) → writable (esp - 4097) = false →
  if esp - 4096 <=? esp' then
    ∃ m', push_stack_args writable dl fn cl esp m = Ret (esp', m') ∧
      initial_stack m' esp' args ∧ esp' mod 4 = 0 ∧
      (∀ k, k < esp' ∨ esp ≤ k < cl ∨ cl + length line ≤ k → m' !! k = m !! k)
  else push_stack_args writable dl fn cl esp m = Panic.
Proof.
  intros Hn Hc Hb Hd Hfn Hcl Hdl Ho Hnl Hll args esp' Hroom Hpg Hw Hnw.
  destruct (push_stack_args_run m fn name cl line dl d esp) as (m' & E & Hst & Hal & Hk); [done..|].
  destruct (confined_push_stack_args dl fn cl esp m _ _ E) as [Hle HW]. specialize (HW writable).
  cbn [id] in Hle, HW. fold args esp' in E, Hst, Hal, Hk, Hle, HW. rewrite HW.
  destruct (Nat.leb_spec (esp - 4096) esp') as [Hfit|Hno].
  - replace (mapped writable esp' esp) with true; [by exists m'|]. symmetry. apply forallb_forall.
    intros k Hin%in_seq. apply Hw. lia.
  - replace (mapped writable esp' esp) with false; [done|]. symmetry. apply not_true_iff_false.
    unfold mapped. rewrite forallb_forall. intros Hall.
    rewrite (Hall (esp - 4097)) in Hnw; [done|]. apply in_seq. lia.
Qed.

(** The bytes of a stack page that ends at [esp]. *)
Definition page_below (esp k : nat) : bool := (esp - 4096 <=? k) && (k <? esp).

(** [exec("echo  x yz")] with the strings right above a stack at 4200. *)
Definition echo_mem : list Z :=
  (replicate 4200 0 ++ str "echo" ++ [0] ++ str " x yz" ++ [0] ++ str " " ++ [0])%Z.

Lemma push_stack_args_correct_witness :
  ∃ m', push_stack_args (page_below 4200) 4211 4200 4205 4200 echo_mem = Ret (4160, m') ∧
    initial_stack m' 4160 [str "echo"; str "x"; str "yz"] ∧ 4160 mod 4 = 0 ∧
    (∀ k, k < 4160 ∨ 4200 ≤ k < 4205 ∨ 4210 ≤ k → m' !! k = echo_mem !! k).
Proof.
  apply (push_stack_args_correct (page_below 4200) echo_mem 4200 (str "echo") 4205 (str " x yz") 4211 (str " ") 4200).
  - apply cstring_intro; [lia|by_decide|intros [|[|[|[|?]]]] H; [vm_compute; reflexivity..|cbn in H; lia]|vm_compute; reflexivity].
  - apply cstring_intro; [lia|by_decide|intros [|[|[|[|[|?]]]]] H; [vm_compute; reflexivity..|cbn in H; lia]|vm_compute; reflexivity].
  - repeat constructor; done.
  - apply cstring_intro; [lia|by_decide|intros [|?] H; [vm_compute; reflexivity..|cbn in H; lia]|vm_compute; reflexivity].
  - lia.
  - lia.
  - lia.
  - right. change (length (str " x yz")) with 5. lia.
  - vm_compute. discriminate.
  - vm_compute. discriminate.
  - vm_compute. lia.
  - lia.
  - intros k Hk. apply andb_true_intro. split; [apply Nat.leb_le|apply Nat.ltb_lt]; lia.
  - vm_compute. reflexivity.
Defined.
