(* ===== verification/Stdio.v ===== *)
(** * Formatted output ([lib/stdio.c], [atoi] of [lib/stdlib.c])

    [__vprintf] and the conversions below it are modelled by the characters
    they pass to their [output] function, in order; none of them reads the
    output back.  A pointer to characters is the memory from there on, up to
    where it ends: the format with its null byte and whatever is behind it.  The
    variadic arguments are the words of the stack, of which a conversion takes
    one or two whatever the caller meant by them.  Reading where there is no
    memory is a page fault, which stops the kernel.  [char buf[64]] is a list
    that may not grow beyond 64 characters.  The theorems show that the digit
    buffer never overflows, that formatting terminates on any memory, that
    [vsnprintf] stays within its buffer, and that [atoi] reads back what the
    conversions [%d] and [%i] print, for every value, width, precision and
    combination of flags but digit grouping. *)

From Stdlib Require Import ZArith Lia Ascii String.
From stdpp Require Import base tactics list numbers option sets.
From S2P Require Import Prelude Cstring.

Local Open Scope Z_scope.

(** ** Numbers from strings *)

Fixpoint skip_space (s : list Z) : list Z :=
  match s with
  | c :: s' => if isspace c then skip_space s' else s
  | [] => []
  end.

(** [for (value = 0; isdigit ( *s); s++) value = value * 10 - ( *s - '0');] *)
Fixpoint atoi_digits (s : list Z) (value : Z) : Z :=
  match s with
  | c :: s => if isdigit c then atoi_digits s (s32 (s32 (value * 10) - (c - chr "0"))) else value
  | [] => value
  end.

Definition atoi (s : list Z) : Z :=
  let s := skip_space s in
  let '(negative, s) :=
    match s with
    | c :: s' => if c =? chr "+" then (false, s') else if c =? chr "-" then (true, s') else (false, s)
    | [] => (false, s)
    end in
  let value := atoi_digits s 0 in
  if negative : bool then value else s32 (- value).

(** ** Conversions *)

Definition MINUS : Z := Z.shiftl 1 0.
Definition PLUS : Z := Z.shiftl 1 1.
Definition SPACE : Z := Z.shiftl 1 2.
Definition POUND : Z := Z.shiftl 1 3.
Definition ZERO : Z := Z.shiftl 1 4.
Definition GROUP : Z := Z.shiftl 1 5.

Inductive arg_type : Type :=
| CHAR | SHORT | INT | INTMAX | LONG | LONGLONG | PTRDIFFT | SIZET.

Record printf_conversion : Type := Conversion {
  flags : Z;
  width : Z;
  precision : Z;
  type : arg_type
}.

Record integer_base : Type := Base {
  base : Z;
  digits : list Z;
  x : Z;
  group : Z
}.

Definition base_d : integer_base := Base 10 (str "0123456789") 0 3.
Definition base_o : integer_base := Base 8 (str "01234567") 0 3.
Definition base_x : integer_base := Base 16 (str "0123456789abcdef") (chr "x") 4.
Definition base_X : integer_base := Base 16 (str "0123456789ABCDEF") (chr "X") 4.

(** [c->flags & f] as a condition. *)
Definition has (fl f : Z) : bool := negb (Z.land fl f =? 0).

(** The next word of the variadic arguments, and the next two. *)
Definition va_word (args : list Z) : outcome (Z * list Z) :=
  match args with v :: args => Ret (v, args) | [] => Panic end.
Definition va_word64 (args : list Z) : outcome (Z * list Z) :=
  match args with lo :: hi :: args => Ret (u32 lo + Z.shiftl (u32 hi) 32, args) | _ => Panic end.

(** A string constant in memory. *)
Definition lit (s : string) : list Z := str s ++ [0].

(** The character a pointer points to. *)
Definition peek (s : list Z) : outcome Z :=
  match s with c :: _ => Ret c | [] => Panic end.

Definition flag_of (c : Z) : option Z :=
  if c =? chr "-" then Some MINUS
  else if c =? chr "+" then Some PLUS
  else if c =? chr " " then Some SPACE
  else if c =? chr "#" then Some POUND
  else if c =? chr "0" then Some ZERO
  else if c =? chr "'" then Some GROUP
  else None.

Fixpoint parse_flags (format : list Z) (fl : Z) : outcome (Z * list Z) :=
  match format with
  | c :: rest => match flag_of c with Some f => parse_flags rest (Z.lor fl f) | None => Ret (fl, format) end
  | [] => Panic
  end.

(** [for (; isdigit ( *format); format++) n = n * 10 + *format - '0';] *)
Fixpoint parse_number (format : list Z) (n : Z) : outcome (Z * list Z) :=
  match format with
  | c :: rest => if isdigit c then parse_number rest (s32 (s32 (s32 (n * 10) + c) - chr "0")) else Ret (n, format)
  | [] => Panic
  end.

(** A field width or a precision: digits or an asterisk. *)
Definition parse_star (format args : list Z) : outcome (Z * list Z * list Z) :=
  ch ← peek format;
  if ch =? chr "*" then
    '(v, args) ← va_word args;
    Ret (s32 v, tail format, args)
  else
    '(n, format) ← parse_number format 0;
    Ret (n, format, args).

Definition parse_type (format : list Z) : outcome (arg_type * list Z) :=
  c ← peek format;
  let rest := tail format in
  if c =? chr "h" then d ← peek rest; Ret (if d =? chr "h" then (CHAR, tail rest) else (SHORT, rest))
  else if c =? chr "j" then Ret (INTMAX, rest)
  else if c =? chr "l" then d ← peek rest; Ret (if d =? chr "l" then (LONGLONG, tail rest) else (LONG, rest))
  else if c =? chr "t" then Ret (PTRDIFFT, rest)
  else if c =? chr "z" then Ret (SIZET, rest)
  else Ret (INT, format).

Definition parse_conversion (format args : list Z) : outcome (printf_conversion * list Z * list Z) :=
  '(fl, format) ← parse_flags format 0;
  let fl := if has fl MINUS then Z.ldiff fl ZERO else fl in
  let fl := if has fl PLUS then Z.ldiff fl SPACE else fl in
  '(w, format, args) ← parse_star format args;
  let '(w, fl) := if w <? 0 then (s32 (- w), Z.lor fl MINUS) else (w, fl) in
  dot ← peek format;
  '(p, format, args) ←
    (if dot =? chr "." then
       '(p, format, args) ← parse_star (tail format) args;
       Ret (if p <? 0 then -1 else p, format, args)
     else Ret (-1, format, args));
  let fl := if 0 <=? p then Z.ldiff fl ZERO else fl in
  '(t, format) ← parse_type format;
  Ret (Conversion fl w p t, format, args).

(** ** Integer conversions *)

(** [*cp++ = ch;] for [cp] within [char buf[64]], whose used part is [buf]. *)
Definition put (buf : list Z) (ch : Z) : outcome (list Z) :=
  if (Z.of_nat (length buf) <? 64) then Ret (buf ++ [ch]) else Panic.

Definition digit_at (b : integer_base) (d : Z) : outcome Z :=
  match digits b !! Z.to_nat d with Some ch => Ret ch | None => Panic end.

Fixpoint digit_loop (fuel : nat) (value : Z) (b : integer_base) (fl digit_cnt : Z) (buf : list Z) :
  outcome (list Z) :=
  match fuel with
  | O => Diverge
  | S fuel =>
      if 0 <? value then
        buf ← (if has fl GROUP && (0 <? digit_cnt) && (digit_cnt mod group b =? 0)
               then put buf (chr ",") else Ret buf);
        ch ← digit_at b (value mod base b);
        buf ← put buf ch;
        digit_loop fuel (value / base b) b fl (digit_cnt + 1) buf
      else Ret buf
  end.

(** [while (cp - buf < precision && cp < buf + sizeof buf - 1) *cp++ = '0';] *)
Fixpoint zero_loop (fuel : nat) (prec : Z) (buf : list Z) : outcome (list Z) :=
  match fuel with
  | O => Diverge
  | S fuel =>
      if (Z.of_nat (length buf) <? prec) && (Z.of_nat (length buf) <? 63) then
        buf ← put buf (chr "0");
        zero_loop fuel prec buf
      else Ret buf
  end.

Definition output_dup (ch cnt : Z) : list Z := replicate (Z.to_nat (u32 cnt)) ch.

Definition sign_char (is_signed negative : bool) (fl : Z) : Z :=
  if is_signed then
    if has fl PLUS then if negative then chr "-" else chr "+"
    else if has fl SPACE then if negative then chr "-" else chr " "
    else if negative then chr "-" else 0
  else 0.

(** The digits, in reverse order, with the zeros the precision asks for. *)
Definition render_digits (value : Z) (b : integer_base) (c : printf_conversion) : outcome (list Z) :=
  buf ← digit_loop 65 value b (flags c) 0 [];
  let prec := if precision c <? 0 then 1 else precision c in
  buf ← zero_loop 65 prec buf;
  if has (flags c) POUND && (base b =? 8) && negb (bool_decide (list.last buf = Some (chr "0")))
  then put buf (chr "0") else Ret buf.

Definition format_integer (value : Z) (is_signed negative : bool) (b : integer_base) (c : printf_conversion) :
  outcome (list Z) :=
  let sign := sign_char is_signed negative (flags c) in
  let x := if has (flags c) POUND && negb (value =? 0) then x b else 0 in
  buf ← render_digits value b c;
  let pad_cnt :=
    s32 (s32 (s32 (width c - Z.of_nat (length buf)) - (if x =? 0 then 0 else 2)) - (if sign =? 0 then 0 else 1)) in
  let pad_cnt := if pad_cnt <? 0 then 0 else pad_cnt in
  Ret ((if has (flags c) (Z.lor MINUS ZERO) then [] else output_dup (chr " ") pad_cnt) ++
       (if sign =? 0 then [] else [sign]) ++
       (if x =? 0 then [] else [chr "0"; x]) ++
       (if has (flags c) ZERO then output_dup (chr "0") pad_cnt else []) ++
       rev buf ++
       (if has (flags c) MINUS then output_dup (chr " ") pad_cnt else [])).

Definition format_string (string : list Z) (len : Z) (c : printf_conversion) : list Z :=
  (if (len <? width c) && negb (has (flags c) MINUS) then output_dup (chr " ") (s32 (width c - len)) else []) ++
  take (Z.to_nat len) string ++
  (if (len <? width c) && has (flags c) MINUS then output_dup (chr " ") (s32 (width c - len)) else []).

(** The value of a signed and of an unsigned integer argument. *)
Definition signed_arg (t : arg_type) (args : list Z) : outcome (Z * list Z) :=
  match t with
  | CHAR => '(v, args) ← va_word args; Ret ((v + 2 ^ 7) mod 2 ^ 8 - 2 ^ 7, args)
  | SHORT => '(v, args) ← va_word args; Ret ((v + 2 ^ 15) mod 2 ^ 16 - 2 ^ 15, args)
  | INT | LONG | PTRDIFFT => '(v, args) ← va_word args; Ret (s32 v, args)
  | INTMAX | LONGLONG => '(v, args) ← va_word64 args; Ret (s64 v, args)
  | SIZET =>
      '(v, args) ← va_word args;
      let value := u32 v in
      Ret (if SIZE_MAX / 2 <? value then value - SIZE_MAX - 1 else value, args)
  end.

Definition unsigned_arg (t : arg_type) (args : list Z) : outcome (Z * list Z) :=
  match t with
  | CHAR => '(v, args) ← va_word args; Ret (u8 v, args)
  | SHORT => '(v, args) ← va_word args; Ret (u16 v, args)
  | INT | LONG | SIZET => '(v, args) ← va_word args; Ret (u32 v, args)
  | INTMAX | LONGLONG => '(v, args) ← va_word64 args; Ret (u64 v, args)
  | PTRDIFFT =>
      '(v, args) ← va_word args;
      Ret (Z.land (u64 (s32 v)) (Z.lor (Z.shiftl (2 ^ 31 - 1) 1) 1), args)
  end.

(** The base of an unsigned conversion. *)
Definition base_of (ch : Z) : integer_base :=
  if ch =? chr "o" then base_o else if ch =? chr "u" then base_d
  else if ch =? chr "x" then base_x else base_X.

Definition is_one_of (ch : Z) (s : string) : bool := bool_decide (ch ∈ str s).

(** [strnlen] on the characters [s], of which it has counted [len]. *)
Fixpoint string_length (s : list Z) (maxlen len : Z) : outcome Z :=
  match s with
  | [] => Panic
  | c :: s => if negb (c =? 0) && (len <? maxlen) then string_length s maxlen (len + 1) else Ret len
  end.

Section printf.

(** The memory from an address on. *)
Context (memory : Z → list Z).

(** The [switch] of [__vprintf] on the conversion character, but for the calls
    of [__printf] for a conversion that is not supported. *)
Definition convert (ch : Z) (c : printf_conversion) (args : list Z) : outcome (option (list Z * list Z)) :=
  if is_one_of ch "di" then
    '(value, args) ← signed_arg (type c) args;
    out ← format_integer (u64 (if value <? 0 then - value else value)) true (value <? 0) base_d c;
    Ret (Some (out, args))
  else if is_one_of ch "ouxX" then
    '(value, args) ← unsigned_arg (type c) args;
    out ← format_integer value false false (base_of ch) c;
    Ret (Some (out, args))
  else if ch =? chr "c" then
    '(v, args) ← va_word args;
    Ret (Some (format_string [u8 v] 1 c, args))
  else if ch =? chr "s" then
    '(v, args) ← va_word args;
    let s := if u32 v =? 0 then lit "(null)" else memory (u32 v) in
    len ← string_length s (u32 (precision c)) 0;
    Ret (Some (format_string s (s32 len) c, args))
  else if ch =? chr "p" then
    '(v, args) ← va_word args;
    out ← format_integer (u32 v) false false base_x (Conversion POUND (width c) (precision c) (type c));
    Ret (Some (out, args))
  else Ret None.

(** The format of the message for a conversion that is not supported. *)
Definition unsupported (ch : Z) : list Z :=
  if is_one_of ch "feEgGn" then lit "<<no %%%c in kernel>>" else lit "<<no %%%c conversion>>".

(** One pass of the loop of [__vprintf] from the character [ch] of the format on,
    with [format] behind it: the characters written and the rest of the format
    and of the arguments.  [nested] is the call of [__printf]. *)
Definition vprintf_step (nested : list Z → list Z → outcome (list Z)) (ch : Z) (format args : list Z) :
  outcome (list Z * list Z * list Z) :=
  if negb (ch =? chr "%") then Ret ([ch], format, args)
  else
    ch ← peek format;
    if ch =? chr "%" then Ret ([chr "%"], tail format, args)
    else
      '(c, format, args) ← parse_conversion format args;
      ch ← peek format;
      r ← convert ch c args;
      '(out, args) ←
        (match r with
         | Some r => Ret r
         | None => out ← nested (unsupported ch) [ch]; Ret (out, args)
         end);
      Ret (out, tail format, args).

Fixpoint vprintf_loop (fuel : nat) (format args : list Z) : outcome (list Z) :=
  match fuel with
  | O => Diverge
  | S fuel =>
      ch ← peek format;
      if ch =? 0 then Ret []
      else
        '(out, format, args) ← vprintf_step (vprintf_loop fuel) ch (tail format) args;
        rest ← vprintf_loop fuel format args;
        Ret (out ++ rest)
  end.

(** Every pass reads at least one character of the format, and the formats of
    nested calls have less than 32. *)
Definition __vprintf (format args : list Z) : outcome (list Z) :=
  vprintf_loop (length format + 32) format args.

(** ** Output into a buffer *)

Record vsnprintf_aux : Type := Aux {
  buffer : list Z;
  p : Z;
  length_ : Z;
  max_length : Z
}.

(** [*aux->p = ch] *)
Definition poke (buf : list Z) (p ch : Z) : outcome (list Z) :=
  if (0 <=? p) && (p <? Z.of_nat (length buf)) then Ret (<[Z.to_nat p := ch]> buf) else Panic.

Definition vsnprintf_helper (ch : Z) (a : vsnprintf_aux) : outcome vsnprintf_aux :=
  if length_ a <? max_length a then
    buf ← poke (buffer a) (p a) ch;
    Ret (Aux buf (p a + 1) (s32 (length_ a + 1)) (max_length a))
  else Ret (Aux (buffer a) (p a) (s32 (length_ a + 1)) (max_length a)).

Fixpoint output_all (chars : list Z) (a : vsnprintf_aux) : outcome vsnprintf_aux :=
  match chars with
  | [] => Ret a
  | ch :: chars => a ← vsnprintf_helper ch a; output_all chars a
  end.

(** The result is the buffer and the returned length. *)
Definition vsnprintf (buf : list Z) (buf_size : Z) (format args : list Z) : outcome (list Z * Z) :=
  chars ← __vprintf format args;
  a ← output_all chars (Aux buf 0 0 (s32 (if 0 <? buf_size then buf_size - 1 else 0)));
  if 0 <? buf_size then
    buf ← poke (buffer a) (p a) 0;
    Ret (buf, length_ a)
  else Ret (buffer a, length_ a).

Definition snprintf (buf : list Z) (buf_size : Z) (format args : list Z) : outcome (list Z * Z) :=
  vsnprintf buf buf_size format args.
End printf.

(** ** The digit buffer *)

Definition good_base (b : integer_base) : Prop :=
  b = base_d ∨ b = base_o ∨ b = base_x ∨ b = base_X.

Lemma put_spec buf ch : (length buf < 64)%nat → put buf ch = Ret (buf ++ [ch]).
Proof. intros. unfold put. by rewrite (proj2 (Z.ltb_lt _ _)) by lia. Qed.

(** The value of digits in reverse order. *)
Fixpoint value_of (b : integer_base) (ds : list Z) : Z :=
  match ds with
  | [] => 0
  | ch :: ds => (match list_find (ch =.) (digits b) with Some (d, _) => Z.of_nat d | None => 0 end) + base b * value_of b ds
  end.

(** The digit of a character, and its character. *)
Definition digit_value (b : integer_base) (ch : Z) : Z :=
  match list_find (ch =.) (digits b) with Some (d, _) => Z.of_nat d | None => 0 end.

Lemma digit_at_spec b d :
  good_base b → 0 ≤ d < base b → ∃ ch, digit_at b d = Ret ch ∧ ch ∈ digits b ∧ digit_value b ch = d.
Proof.
  intros Hb Hd. enough (Forall (λ d, ∃ ch, digit_at b d = Ret ch ∧ ch ∈ digits b ∧ digit_value b ch = d)
    (seqZ 0 (base b))) as Hf.
  { rewrite Forall_forall in Hf. apply Hf, elem_of_seqZ. lia. }
  destruct Hb as [->|[->|[->| ->]]]; repeat (constructor; [eexists; split_and!; [vm_compute; reflexivity|by_decide|vm_compute; reflexivity]|]);
    constructor.
Qed.

Lemma good_base_range b : good_base b → 8 ≤ base b ≤ 16 ∧ 0 < group b.
Proof. by intros [->|[->|[->| ->]]]. Qed.

Lemma value_of_app b ds es : value_of b (ds ++ es) = value_of b ds + base b ^ Z.of_nat (length ds) * value_of b es.
Proof.
  induction ds as [|ch ds IH]; cbn [value_of app length]; [lia|].
  rewrite IH, Nat2Z.inj_succ, Z.pow_succ_r by lia. ring.
Qed.

Lemma value_of_zeros b n : good_base b → value_of b (replicate n (chr "0")) = 0.
Proof.
  intros Hb. assert (digit_value b (chr "0") = 0) as Hz by (by destruct Hb as [->|[->|[->| ->]]]).
  unfold digit_value in Hz. induction n as [|n IH]; [done|]. cbn [replicate value_of]. rewrite IH, Hz. lia.
Qed.

(** The digit loop terminates within the buffer and renders the value. *)
Lemma digit_loop_spec b fl n : ∀ fuel value cnt buf,
  good_base b → 0 ≤ value < 8 ^ Z.of_nat n → (n < fuel)%nat → (length buf + 2 * n ≤ 64)%nat →
  ∃ ds, digit_loop fuel value b fl cnt buf = Ret (buf ++ ds) ∧ (length ds ≤ 2 * n)%nat ∧
    (has fl GROUP = false → value_of b ds = value ∧ Forall (.∈ digits b) ds ∧ (length ds ≤ n)%nat).
Proof.
  induction n as [|n IH]; intros [|fuel] value cnt buf Hb Hv Hf Hl; try lia; cbn [digit_loop].
  - rewrite (proj2 (Z.ltb_ge 0 value)) by (cbn in Hv; lia). exists []. rewrite app_nil_r.
    split_and!; [done|cbn; lia|]. intros _. cbn in *. split_and!; [lia|constructor|lia].
  - destruct (Z.ltb_spec 0 value) as [Hpos|Hneg].
    2: { exists []. rewrite app_nil_r. split_and!; [done|cbn; lia|]. intros _. cbn. split_and!; [lia|constructor|lia]. }
    destruct (good_base_range b Hb) as [Hbr _].
    rewrite Nat2Z.inj_succ, Z.pow_succ_r in Hv by lia.
    destruct (digit_at_spec b (value mod base b) Hb) as (ch & Ech & Hch & Hcv); [apply Z.mod_pos_bound; lia|].
    set (comma := has fl GROUP && _ && _).
    assert (∃ buf1, (if comma then put buf (chr ",") else Ret buf) = Ret buf1 ∧
      buf1 = buf ++ (if comma then [chr ","] else [])) as (buf1 & E1 & Eb).
    { destruct comma; eexists; [rewrite put_spec by lia|rewrite app_nil_r]; done. }
    rewrite E1. cbn [mbind outcome_bind]. rewrite Ech. cbn [mbind outcome_bind].
    assert (length buf1 ≤ S (length buf))%nat as Hl1.
    { rewrite Eb, length_app. destruct comma; cbn; lia. }
    rewrite put_spec by lia. cbn [mbind outcome_bind].
    destruct (IH fuel (value / base b) (cnt + 1) (buf1 ++ [ch])) as (ds & -> & Hd & Hval); [done| |lia| |].
    { split; [apply Z.div_pos; lia|apply Z.div_lt_upper_bound; [lia|nia]]. }
    { rewrite length_app; cbn; lia. }
    exists ((if comma then [chr ","] else []) ++ ch :: ds). rewrite Eb, <- !app_assoc. split_and!; [done| |].
    + rewrite length_app. destruct comma; cbn; lia.
    + intros Hg. destruct (Hval Hg) as (Hv1 & Hf1 & Hl2). unfold comma. rewrite Hg. cbn [andb app value_of].
      unfold digit_value in Hcv. rewrite Hcv, Hv1. split_and!; [|by constructor|cbn; lia].
      pose proof (Z.div_mod value (base b)). lia.
Qed.

Lemma zero_loop_spec prec n : ∀ fuel buf,
  (n < fuel)%nat → (64 ≤ n + length buf)%nat →
  ∃ k, zero_loop fuel prec buf = Ret (buf ++ replicate k (chr "0")) ∧
    ((length buf + k ≤ 63)%nat ∨ k = O) ∧ prec `min` 63 ≤ Z.of_nat (length buf + k).
Proof.
  induction n as [|n IH]; intros [|fuel] buf Hf Hl; try lia; cbn [zero_loop].
  - rewrite (proj2 (Z.ltb_ge _ 63)) by lia. rewrite andb_false_r. exists O. rewrite app_nil_r.
    split_and!; [done|by right|lia].
  - destruct (Z.ltb_spec (Z.of_nat (length buf)) prec); cbn [andb].
    2: { exists O. rewrite app_nil_r. split_and!; [done|by right|lia]. }
    destruct (Z.ltb_spec (Z.of_nat (length buf)) 63).
    2: { exists O. rewrite app_nil_r. split_and!; [done|by right|lia]. }
    rewrite put_spec by lia. cbn [mbind outcome_bind].
    destruct (IH fuel (buf ++ [chr "0"])) as (k & -> & Hk & Hp); [lia|rewrite length_app; cbn; lia|].
    rewrite length_app in *. cbn in *. exists (S k). rewrite <- app_assoc. split_and!; [done|left; lia|lia].
Qed.

Lemma zero_digit b : good_base b → chr "0" ∈ digits b.
Proof. intros [->|[->|[->| ->]]]; by_decide. Qed.

(** The digits of any 64-bit value fit the buffer, for every precision and all
    flags. *)
Lemma render_digits_spec value b c :
  good_base b → 0 ≤ value < 2 ^ 64 →
  ∃ ds, render_digits value b c = Ret ds ∧ (length ds ≤ 64)%nat ∧ precision c `min` 63 ≤ Z.of_nat (length ds) ∧
    (has (flags c) GROUP = false → value_of b ds = value ∧ Forall (.∈ digits b) ds).
Proof.
  intros Hb Hv. unfold render_digits.
  destruct (digit_loop_spec b (flags c) 22 65 value 0 []) as (ds & -> & Hl & Hval); [done|cbn; lia|lia|cbn; lia|].
  cbn [app mbind outcome_bind].
  destruct (zero_loop_spec (if precision c <? 0 then 1 else precision c) 64 65 ds) as (k & -> & Hk & Hp); [lia..|].
  cbn [mbind outcome_bind].
  assert (precision c `min` 63 ≤ Z.of_nat (length ds + k)) as Hp' by (destruct (Z.ltb_spec (precision c) 0); lia).
  assert (length (ds ++ replicate k (chr "0")) = length ds + k)%nat as Hlk by (by rewrite length_app, length_replicate).
  assert (∀ j, has (flags c) GROUP = false →
    value_of b ((ds ++ replicate k (chr "0")) ++ replicate j (chr "0")) = value ∧
    Forall (.∈ digits b) ((ds ++ replicate k (chr "0")) ++ replicate j (chr "0"))) as Hj.
  { intros j Hg. destruct (Hval Hg) as (Hv1 & Hf1 & _). rewrite <- app_assoc, <- replicate_add.
    rewrite value_of_app, value_of_zeros, Z.mul_0_r, Z.add_0_r by done. split; [done|].
    apply Forall_app; split; [done|]. apply Forall_replicate. by apply zero_digit. }
  destruct (has (flags c) POUND && (base b =? 8) && _).
  - rewrite put_spec by lia. eexists. split; [done|]. rewrite length_app, Hlk. cbn. split_and!; [lia|lia|].
    intros Hg. by apply (Hj 1%nat).
  - eexists. split; [done|]. split_and!; [lia|by rewrite Hlk|]. intros Hg.
    destruct (Hj O Hg). cbn in *. by rewrite app_nil_r in *.
Qed.

(** ** Reading back *)

(** The number a string of decimal digits denotes. *)
Definition number (ds : list Z) : Z := foldl (λ n c, n * 10 + (c - chr "0")) 0 ds.

Lemma number_snoc ds c : number (ds ++ [c]) = number ds * 10 + (c - chr "0").
Proof. unfold number. by rewrite foldl_snoc. Qed.

Lemma foldl_number ds v : foldl (λ n c, n * 10 + (c - chr "0")) v ds = v * 10 ^ Z.of_nat (length ds) + number ds.
Proof.
  unfold number. revert v. induction ds as [|c ds IH]; intros v; [cbn; lia|].
  cbn [foldl length]. rewrite IH, (IH (0 * 10 + _)), Nat2Z.inj_succ, Z.pow_succ_r by lia. ring.
Qed.

Definition all_digits (ds : list Z) : Prop := Forall (λ c, isdigit c = true) ds.

Lemma isdigit_range c : isdigit c = true ↔ 48 ≤ c ≤ 57.
Proof. unfold isdigit. rewrite andb_true_iff, !Z.leb_le. done. Qed.

Lemma number_nonneg ds : all_digits ds → 0 ≤ number ds.
Proof.
  induction ds as [|c ds IH] using rev_ind; [done|]. intros [Hd Hc]%Forall_app.
  rewrite number_snoc. apply Forall_singleton, isdigit_range in Hc. specialize (IH Hd). change (chr "0") with 48. lia.
Qed.

Definition no_digit (s : list Z) : Prop := match s with c :: _ => isdigit c = false | [] => True end.

Lemma atoi_digits_spec ds rest : ∀ v,
  all_digits ds → no_digit rest → v ≤ 0 →
  - 2 ^ 31 ≤ v * 10 ^ Z.of_nat (length ds) - number ds →
  atoi_digits (ds ++ rest) v = v * 10 ^ Z.of_nat (length ds) - number ds.
Proof.
  induction ds as [|c ds IH]; intros v Hd Hr Hv Hb.
  - cbn. destruct rest as [|r rest]; cbn in *; [lia|]. rewrite Hr. lia.
  - apply Forall_cons in Hd as [Hc Hd]. cbn [app atoi_digits]. rewrite Hc. apply isdigit_range in Hc.
    pose proof (number_nonneg ds Hd) as Hn.
    assert (v * 10 ^ Z.of_nat (length (c :: ds)) - number (c :: ds) =
            (v * 10 - (c - chr "0")) * 10 ^ Z.of_nat (length ds) - number ds) as E.
    { unfold number at 1. cbn [foldl length]. rewrite foldl_number, Nat2Z.inj_succ, Z.pow_succ_r by lia. ring. }
    rewrite E in *. change (chr "0") with 48 in *.
    assert (0 < 10 ^ Z.of_nat (length ds)) by (apply Z.pow_pos_nonneg; lia).
    assert (- 2 ^ 31 ≤ v * 10 - (c - 48)) by nia.
    rewrite (s32_id (v * 10)), (s32_id (v * 10 - _)) by lia. apply IH; [done..|lia|lia].
Qed.

Definition spaces (s : list Z) : Prop := Forall (.= chr " ") s.

Lemma skip_spaces s t : spaces s → skip_space (s ++ t) = skip_space t.
Proof. induction 1 as [|c s -> Hs IH]; [done|]. cbn. done. Qed.

Lemma spaces_no_digit s : spaces s → no_digit s.
Proof. destruct 1 as [|c s -> Hs]; done. Qed.

Lemma digit_not_space c : isdigit c = true → isspace c = false.
Proof.
  intros Hc%isdigit_range. unfold isspace. by rewrite !(proj2 (Z.eqb_neq c _)) by lia.
Qed.

(** What [atoi] makes of digits between spaces, with or without a sign. *)
Lemma atoi_shape pre sg ds post :
  spaces pre → sg ∈ [[]; [chr "+"]; [chr "-"]; [chr " "]] → all_digits ds → spaces post →
  number ds ≤ (if bool_decide (sg = [chr "-"]) then 2 ^ 31 else 2 ^ 31 - 1) →
  atoi (pre ++ sg ++ ds ++ post) = if bool_decide (sg = [chr "-"]) then - number ds else number ds.
Proof.
  intros Hpre Hsg Hd Hpost Hb. unfold atoi. rewrite skip_spaces by done.
  pose proof (number_nonneg ds Hd) as Hn.
  assert (atoi_digits (ds ++ post) 0 = - number ds) as E.
  { rewrite atoi_digits_spec; [lia|done|by apply spaces_no_digit|lia|].
    destruct (bool_decide _); lia. }
  assert (skip_space (ds ++ post) = ds ++ post ∨ ds = []) as Hds.
  { destruct ds as [|c ds]; [by right|left]. apply Forall_cons in Hd as [Hc _].
    cbn [app skip_space]. by rewrite digit_not_space. }
  assert (∀ s : list Z, skip_space (ds ++ post) = s →
    (let '(negative, s) := match s with
       | c :: s' => if c =? chr "+" then (false, s') else if c =? chr "-" then (true, s') else (false, s)
       | [] => (false, s) end in
     let value := atoi_digits s 0 in if negative : bool then value else s32 (- value)) = s32 (number ds)) as Hplain.
  { intros s <-. destruct Hds as [->|Hds].
    - destruct ds as [|c ds].
      + cbn [app]. destruct post as [|q post]; [done|]. apply Forall_cons in Hpost as [-> _]. done.
      + apply Forall_cons in Hd as [Hc%isdigit_range _]. cbn [app] in *.
        assert (chr "+" = 43 ∧ chr "-" = 45) as [? ?] by done.
        rewrite (proj2 (Z.eqb_neq c (chr "+"))), (proj2 (Z.eqb_neq c (chr "-"))) by lia.
        rewrite E. by rewrite Z.opp_involutive.
    - subst ds. cbn [app]. rewrite <- (app_nil_r post), skip_spaces by done. done. }
  rewrite !elem_of_cons in Hsg. destruct Hsg as [->|[->|[->|[->|[]%elem_of_nil]]]].
  - rewrite bool_decide_false in * by done. cbn [app]. rewrite Hplain by done. apply s32_id. lia.
  - rewrite bool_decide_false in * by done. cbn [app skip_space]. change (isspace (chr "+")) with false. cbn iota.
    rewrite Z.eqb_refl. rewrite E, Z.opp_involutive. apply s32_id. lia.
  - rewrite bool_decide_true in * by done. cbn [app skip_space]. change (isspace (chr "-")) with false. cbn iota.
    change (chr "-" =? chr "+") with false. rewrite Z.eqb_refl. done.
  - rewrite bool_decide_false in * by done. cbn [app skip_space]. change (isspace (chr " ")) with true. cbn iota.
    rewrite Hplain by done. apply s32_id. lia.
Qed.

Lemma decimal_digit c : c ∈ digits base_d → isdigit c = true ∧ digit_value base_d c = c - chr "0".
Proof.
  revert c. apply Forall_forall. repeat (constructor; [split; vm_compute; reflexivity|]). constructor.
Qed.

Lemma decimal_digits ds : Forall (.∈ digits base_d) ds → all_digits ds.
Proof. intros Hf. eapply Forall_impl; [exact Hf|]. intros c Hc. by apply decimal_digit. Qed.

Lemma number_value ds : Forall (.∈ digits base_d) ds → number (rev ds) = value_of base_d ds.
Proof.
  induction 1 as [|c ds Hc Hd IH]; [done|]. cbn [rev value_of]. rewrite number_snoc, IH.
  destruct (decimal_digit c Hc) as [_ E]. unfold digit_value in E. rewrite E. change (base base_d) with 10. lia.
Qed.

Lemma number_zeros k ds : number (replicate k (chr "0") ++ ds) = number ds.
Proof.
  unfold number at 1. rewrite foldl_app.
  replace (foldl _ 0 (replicate k (chr "0"))) with 0; [done|].
  induction k as [|k IH]; [done|]. cbn [replicate foldl]. by replace (0 * 10 + _) with 0.
Qed.

Lemma dup_spaces cnt : spaces (output_dup (chr " ") cnt).
Proof. by apply Forall_replicate. Qed.

Lemma dup_zeros_digits cnt : all_digits (output_dup (chr "0") cnt).
Proof. by apply Forall_replicate. Qed.

(** A signed decimal conversion without digit grouping, read back. *)
Lemma format_integer_atoi n c :
  - 2 ^ 31 ≤ n < 2 ^ 31 → has (flags c) GROUP = false →
  ∃ out, format_integer (u64 (if n <? 0 then - n else n)) true (n <? 0) base_d c = Ret out ∧ atoi out = n.
Proof.
  intros Hn Hg. assert (good_base base_d) as Hb by (by left).
  set (v := if n <? 0 then - n else n). assert (v = Z.abs n) as Ev by (unfold v; destruct (Z.ltb_spec n 0); lia).
  rewrite u64_id by lia.
  destruct (render_digits_spec v base_d c Hb) as (ds & E & _ & _ & Hd); [lia|]. destruct (Hd Hg) as [Hv Hds].
  unfold format_integer. rewrite E. cbn [mbind outcome_bind].
  set (sign := sign_char true (n <? 0) (flags c)).
  assert ((if has (flags c) POUND && negb (v =? 0) then x base_d else 0) = 0) as -> by (by destruct (_ && _)).
  change (0 =? 0) with true. cbn iota.
  set (pad := if _ <? 0 then 0 else _). eexists. split; [done|].
  set (pre := if has (flags c) (Z.lor MINUS ZERO) then [] else _).
  set (zs := if has (flags c) ZERO then output_dup (chr "0") pad else []).
  set (post := if has (flags c) MINUS then _ else _).
  set (sg := if sign =? 0 then [] else [sign]). cbn [app]. rewrite (app_assoc zs).
  assert (all_digits (zs ++ rev ds)) as Hall.
  { apply Forall_app. split; [unfold zs; destruct (has (flags c) ZERO); [apply dup_zeros_digits|constructor]|].
    by apply Forall_rev, decimal_digits. }
  assert (number (zs ++ rev ds) = Z.abs n) as Hnum.
  { unfold zs. destruct (has (flags c) ZERO); [unfold output_dup; rewrite number_zeros|cbn];
      by rewrite number_value, Hv. }
  assert (sg ∈ [[]; [chr "+"]; [chr "-"]; [chr " "]] ∧ (sg = [chr "-"] ↔ n < 0)) as [Hsg Hneg].
  { unfold sg, sign, sign_char. change (chr "+") with 43. change (chr "-") with 45. change (chr " ") with 32.
    destruct (Z.ltb_spec n 0); destruct (has (flags c) PLUS), (has (flags c) SPACE); cbn;
      (split; [by_decide|split; [intros [=]|]; lia || done]). }
  rewrite atoi_shape; rewrite ?Hnum; try done.
  - case_bool_decide as Hs; [apply Hneg in Hs; lia|]. enough (¬ n < 0) by lia. tauto.
  - unfold pre. destruct (has (flags c) (Z.lor MINUS ZERO)); [constructor|apply dup_spaces].
  - unfold post. destruct (has (flags c) MINUS); [apply dup_spaces|constructor].
  - case_bool_decide; [lia|]. enough (¬ n < 0) by lia. tauto.
Qed.

(** ** Buffers *)

(** [vsnprintf_helper] appends to [pre], the part of the buffer written so far,
    as long as it is shorter than the maximal length. *)
Lemma output_all_spec max chars : ∀ pre rest len,
  0 ≤ len → len + Z.of_nat (length chars) < 2 ^ 31 → 0 ≤ max →
  Z.of_nat (length pre) = len `min` max → max ≤ Z.of_nat (length (pre ++ rest)) →
  let n := (Z.to_nat max - length pre)%nat in
  output_all chars (Aux (pre ++ rest) (Z.of_nat (length pre)) len max) =
    Ret (Aux (pre ++ take n chars ++ drop (n `min` length chars) rest)
           (Z.of_nat (length pre + n `min` length chars)) (len + Z.of_nat (length chars)) max).
Proof.
  induction chars as [|ch chars IH]; intros pre rest len Hlen Hb Hmax Hpre Hroom; cbn [output_all length] in *.
  - rewrite Nat.min_0_r, take_nil. cbn. by rewrite Nat.add_0_r, Z.add_0_r.
  - unfold vsnprintf_helper; cbn [length_ max_length buffer p]. rewrite (s32_id (len + 1)) by lia.
    destruct (Z.ltb_spec len max).
    + assert (length pre = Z.to_nat len) as Hl by lia.
      destruct rest as [|r rest]; [rewrite app_nil_r in Hroom; lia|].
      unfold poke. rewrite (proj2 (Z.leb_le _ _)), (proj2 (Z.ltb_lt _ _)) by (rewrite ?length_app; cbn; lia).
      cbn [andb mbind outcome_bind]. rewrite Nat2Z.id.
      replace (<[length pre:=ch]> (pre ++ r :: rest)) with ((pre ++ [ch]) ++ rest)
        by (rewrite insert_app_r_alt, Nat.sub_diag by lia; cbn; by rewrite <- app_assoc).
      replace (Z.of_nat (length pre) + 1) with (Z.of_nat (length (pre ++ [ch]))) by (rewrite length_app; cbn; lia).
      rewrite IH; rewrite ?length_app in *; cbn [length] in *; try lia.
      replace (Z.to_nat max - length pre)%nat with (S (Z.to_nat max - (length pre + 1)))%nat by lia.
      cbn [take drop Nat.min]. rewrite <- app_assoc. do 2 f_equal; lia.
    + cbn [mbind outcome_bind]. rewrite IH by (rewrite ?length_app in *; lia).
      replace (Z.to_nat max - length pre)%nat with O by lia. cbn. do 2 f_equal; lia.
Qed.

(** A run of [vsnprintf] into a buffer of positive size. *)
Lemma vsnprintf_spec memory buf buf_size format args chars :
  __vprintf memory format args = Ret chars → Z.of_nat (length chars) < 2 ^ 31 →
  0 < buf_size < 2 ^ 31 → buf_size ≤ Z.of_nat (length buf) →
  let n := (Z.to_nat (buf_size - 1) `min` length chars)%nat in
  vsnprintf memory buf buf_size format args = Ret (take n chars ++ [0] ++ drop (n + 1) buf, Z.of_nat (length chars)).
Proof.
  intros E Hc Hb Hl n. unfold vsnprintf. rewrite E. cbn [mbind outcome_bind].
  rewrite (proj2 (Z.ltb_lt 0 buf_size)) by lia. rewrite (s32_id (buf_size - 1)) by lia.
  pose proof (output_all_spec (buf_size - 1) chars [] buf 0 ltac:(lia) ltac:(lia) ltac:(lia) ltac:(cbn; lia)
    ltac:(cbn; lia)) as Ea.
  cbn [app length Nat.add] in Ea. change (Z.of_nat 0) with 0 in Ea. rewrite Ea. cbn [mbind outcome_bind buffer p length_].
  rewrite Nat.sub_0_r. fold n. set (kept := take (Z.to_nat (buf_size - 1)) chars).
  assert (length kept = n) as Hk by (unfold kept, n; by rewrite length_take).
  assert (take n chars = kept) as ->.
  { unfold kept, n. rewrite <- (take_ge chars (length chars)) at 3 by lia. by rewrite take_take. }
  destruct (drop n buf) as [|r rest] eqn:Er.
  { apply (f_equal length) in Er. rewrite length_drop in Er. cbn in Er. lia. }
  unfold poke. rewrite (proj2 (Z.leb_le _ _)), (proj2 (Z.ltb_lt _ _)) by (rewrite ?length_app; cbn; lia).
  cbn [andb mbind outcome_bind]. rewrite Nat2Z.id, <- Hk. rewrite insert_app_r_alt, Nat.sub_diag by lia.
  by rewrite Hk, <- drop_drop, Er.
Qed.

(** C39: [vsnprintf] writes nothing outside of the first [buf_size] characters
    of its buffer, leaves there the longest prefix of the formatted text that
    fits, terminated by a null byte, and returns the length of the whole
    text. *)
Theorem vsnprintf_bounded memory buf buf_size format args chars :
  __vprintf memory format args = Ret chars → Z.of_nat (length chars) < 2 ^ 31 →
  0 < buf_size < 2 ^ 31 → buf_size ≤ Z.of_nat (length buf) →
  let n := (Z.to_nat (buf_size - 1) `min` length chars)%nat in
  ∃ rest, vsnprintf memory buf buf_size format args = Ret (take n chars ++ [0] ++ rest, Z.of_nat (length chars)) ∧
    rest = drop (n + 1) buf.
Proof. intros. eexists. split; [by apply vsnprintf_spec|done]. Qed.

Lemma vsnprintf_bounded_witness :
  vsnprintf (λ _, lit "xyz") (replicate 8 1) 4 (lit "%d-%s") [12; 0xc0020000] = Ret (str "12-" ++ [0] ++ replicate 4 1, 6).
Proof.
  destruct (vsnprintf_bounded (λ _, lit "xyz") (replicate 8 1) 4 (lit "%d-%s") [12; 0xc0020000] (str "12-xyz"))
    as (rest & E & ->); [vm_compute; reflexivity|cbn; lia|lia|cbn; lia|]. exact E.
Defined.

(** One conversion in a format. *)
Lemma vprintf_step_convert memory nested format args c ch rest args' out args'' :
  format ≠ [] → head format ≠ Some (chr "%") →
  parse_conversion format args = Ret (c, ch :: rest, args') →
  convert memory ch c args' = Ret (Some (out, args'')) →
  vprintf_step memory nested (chr "%") format args = Ret (out, rest, args'').
Proof.
  intros Hf Hp Ep Ec. unfold vprintf_step. rewrite Z.eqb_refl. cbn [negb]. destruct format as [|d format]; [done|].
  cbn [peek mbind outcome_bind]. rewrite (proj2 (Z.eqb_neq d _)) by (intros ->; done). rewrite Ep.
  cbn [mbind outcome_bind peek]. by rewrite Ec.
Qed.

Lemma vprintf_loop_step memory fuel format ch format' args out rest args' :
  format = ch :: format' → ch ≠ 0 → vprintf_step memory (vprintf_loop memory fuel) ch format' args = Ret (out, rest, args') →
  vprintf_loop memory (S fuel) format args = r ← vprintf_loop memory fuel rest args'; Ret (out ++ r).
Proof. intros -> Hf E. cbn [vprintf_loop peek mbind outcome_bind tail]. rewrite (proj2 (Z.eqb_neq ch 0)) by done. by rewrite E. Qed.

(** C33: [atoi] reads back what a signed decimal conversion prints, for every
    [int], width, precision and all flags but digit grouping: the conversion
    returns, and its text denotes the number, whatever is on the stack behind the
    number.  So it does for the plain format ["%d"], whatever is in memory
    behind it. *)
Theorem atoi_printf_round_trip memory n c behind stack :
  INT_MIN ≤ n ≤ INT_MAX → has (flags c) GROUP = false → type c = INT →
  (∃ out, convert memory (chr "d") c (u32 n :: stack) = Ret (Some (out, stack)) ∧ atoi out = n) ∧
  (∃ out, __vprintf memory (lit "%d" ++ behind) (u32 n :: stack) = Ret out ∧ atoi out = n).
Proof.
  intros Hn Hg Ht. unfold INT_MIN, INT_MAX in Hn.
  assert (s32 (u32 n) = n) as Es by (unfold s32, u32; zlia).
  assert (∀ c, type c = INT → convert memory (chr "d") c (u32 n :: stack) =
    out ← format_integer (u64 (if n <? 0 then - n else n)) true (n <? 0) base_d c; Ret (Some (out, stack))) as Ec.
  { clear c Hg Ht. intros c Ht. unfold convert. change (is_one_of (chr "d") "di") with true. cbn iota.
    unfold signed_arg. rewrite Ht. cbn [va_word mbind outcome_bind]. by rewrite Es. }
  split.
  - destruct (format_integer_atoi n c) as (out & E & Ha); [lia|done|].
    exists out. rewrite Ec, E by done. done.
  - destruct (format_integer_atoi n (Conversion 0 0 (-1) INT)) as (out & E & Ha); [lia|done|].
    exists (out ++ []). split; [|by rewrite app_nil_r]. specialize (Ec (Conversion 0 0 (-1) INT) eq_refl).
    unfold __vprintf. change (lit "%d" ++ behind) with (chr "%" :: chr "d" :: 0 :: behind).
    replace (length (chr "%" :: chr "d" :: 0%Z :: behind) + 32)%nat with (S (S (length behind + 33))) by (cbn; lia).
    erewrite vprintf_loop_step; [|reflexivity|done|eapply (vprintf_step_convert _ _ _ _ (Conversion 0 0 (-1) INT) (chr "d")); [done|done|reflexivity|rewrite Ec, E; done]].
    done.
Qed.

Lemma atoi_printf_round_trip_witness :
  (∃ out, convert (λ _, []) (chr "d") (Conversion (Z.lor PLUS ZERO) 14 (-1) INT) [u32 INT_MIN] = Ret (Some (out, [])) ∧
     atoi out = INT_MIN) ∧
  (∃ out, __vprintf (λ _, []) (lit "%d") [u32 INT_MIN] = Ret out ∧ atoi out = INT_MIN).
Proof. apply (atoi_printf_round_trip (λ _, []) INT_MIN (Conversion (Z.lor PLUS ZERO) 14 (-1) INT) [] []); done. Defined.

(** ** Termination *)

(** Memory that ends with two null bytes. *)
Definition two_nulls (f : list Z) : Prop := ∃ X, f = X ++ [0; 0].

Lemma two_nulls_tail c f : two_nulls (c :: f) → c ≠ 0 → two_nulls f.
Proof. intros [[|d X] E] Hc; injection E as -> ->; [done|by exists X]. Qed.

Lemma two_nulls_rest f : two_nulls f → two_nulls (tail f) ∨ tail f = [0].
Proof. intros [[|d X] ->]; [by right|left; by exists X]. Qed.

(** A function that reads from the format and takes at most [n] words returns,
    unless it runs out of memory or words. *)
Definition reads {A} (n : nat) (format args : list Z) (o : outcome (A * list Z * list Z)) : Prop :=
  match o with
  | Ret (_, f, args') => (length f ≤ length format)%nat ∧ (two_nulls format → two_nulls f) ∧ (length args ≤ length args' + n)%nat
  | Panic => ¬ two_nulls format ∨ (length args < n)%nat
  | Diverge => False
  end.

Definition scans {A} (format : list Z) (o : outcome (A * list Z)) : Prop :=
  match o with
  | Ret (_, f) => (length f ≤ length format)%nat ∧ (two_nulls format → two_nulls f)
  | Panic => ¬ two_nulls format
  | Diverge => False
  end.

Lemma reads_bind {A B} n m format args (o : outcome (A * list Z * list Z)) (k : A * list Z * list Z → outcome (B * list Z * list Z)) :
  reads n format args o → (∀ a f args', reads m f args' (k (a, f, args'))) → reads (n + m) format args (o ≫= k).
Proof.
  intros Ho Hk. destruct o as [[[a f] args']| |]; cbn in *; [|destruct Ho; [by left|right; lia]|done]. destruct Ho as (Hl & Hp & Ha).
  specialize (Hk a f args'). destruct (k (a, f, args')) as [[[b g] args'']| |]; cbn in *; [|destruct Hk; [left; tauto|right; lia]|done].
  destruct Hk as (? & ? & ?). split_and!; [lia|tauto|lia].
Qed.

Lemma scans_bind {A B} m format args (o : outcome (A * list Z)) (k : A * list Z → outcome (B * list Z * list Z)) :
  scans format o → (∀ a f, reads m f args (k (a, f))) → reads m format args (o ≫= k).
Proof.
  intros Ho Hk. destruct o as [[a f]| |]; cbn in *; [|by left|done]. destruct Ho as [Hl Hp].
  specialize (Hk a f). destruct (k (a, f)) as [[[b g] args'']| |]; cbn in *; [|destruct Hk; [left; tauto|by right]|done].
  destruct Hk as (? & ? & ?). split_and!; [lia|tauto|lia].
Qed.

Lemma two_nulls_nil : ¬ two_nulls [].
Proof. intros [[|] E]; done. Qed.

Lemma parse_flags_scans format : ∀ fl, scans format (parse_flags format fl).
Proof.
  induction format as [|c f IH]; intros fl; cbn [parse_flags]; [apply two_nulls_nil|].
  destruct (flag_of c) as [z|] eqn:Ec; [|by split]. assert (c ≠ 0) as Hc by (by intros ->). specialize (IH (Z.lor fl z)).
  destruct (parse_flags f _) as [[n g]| |]; cbn in *; [|intros Hp; by apply IH, (two_nulls_tail c)|done].
  destruct IH. split; [lia|]. intros Hp. by apply H0, (two_nulls_tail c).
Qed.

Lemma parse_number_scans format : ∀ n, scans format (parse_number format n).
Proof.
  induction format as [|c f IH]; intros n; cbn [parse_number]; [apply two_nulls_nil|].
  destruct (isdigit c) eqn:Ec; [|by split]. assert (c ≠ 0) as Hc by (by intros ->).
  match goal with |- context [parse_number f ?x] => specialize (IH x); destruct (parse_number f x) as [[m g]| |] end; cbn in *;
    [|intros Hp; by apply IH, (two_nulls_tail c)|done].
  destruct IH. split; [lia|]. intros Hp. by apply H0, (two_nulls_tail c).
Qed.

Lemma parse_star_reads format args : reads 1 format args (parse_star format args).
Proof.
  unfold parse_star. destruct format as [|c f]; [left; apply two_nulls_nil|]. cbn [peek mbind outcome_bind]. destruct (Z.eqb_spec c (chr "*")) as [->|_].
  - destruct args as [|v args]; cbn; [right; lia|]. split_and!; [lia|intros Hp; by apply (two_nulls_tail _ _ Hp)|lia].
  - apply scans_bind; [apply parse_number_scans|]. intros a g. cbn. split_and!; [lia|done|lia].
Qed.

Lemma parse_type_scans format : scans format (parse_type format).
Proof.
  unfold parse_type. destruct format as [|c f]; [apply two_nulls_nil|]. cbn [peek mbind outcome_bind tail].
  assert (∀ d (t : arg_type), (c =? chr d) = true → chr d ≠ 0 → scans (c :: f) (Ret (t, f))) as H1.
  { intros d t ->%Z.eqb_eq Hd. cbn. split; [lia|]. intros Hp. by apply (two_nulls_tail _ _ Hp). }
  assert (∀ d (t t' : arg_type), (c =? chr d) = true → chr d ≠ 0 →
    scans (c :: f) (e ← peek f; Ret (if e =? chr d then (t, tail f) else (t', f)))) as H2.
  { intros d t t' ->%Z.eqb_eq Hd. destruct f as [|e f]; cbn; [intros [[|? [|]] E]; done|].
    destruct (Z.eqb_spec e (chr d)) as [->|_]; cbn; (split; [lia|]); intros Hp; apply two_nulls_tail in Hp; [|done| |done]; [|done].
    by apply (two_nulls_tail _ _ Hp). }
  destruct (c =? chr "h") eqn:E1; [by apply H2|]. destruct (c =? chr "j") eqn:E2; [by apply (H1 "j"%char)|].
  destruct (c =? chr "l") eqn:E3; [by apply H2|]. destruct (c =? chr "t") eqn:E4; [by apply (H1 "t"%char)|].
  destruct (c =? chr "z") eqn:E5; [by apply (H1 "z"%char)|]. by split.
Qed.

Lemma parse_conversion_reads format args : reads 2 format args (parse_conversion format args).
Proof.
  unfold parse_conversion. apply scans_bind; [apply parse_flags_scans|]. intros fl f.
  apply (reads_bind 1 1); [apply parse_star_reads|]. intros w g args'. destruct (w <? 0); cbn iota beta;
    (destruct g as [|d g]; [left; apply two_nulls_nil|]; cbn [peek mbind outcome_bind tail];
     apply (reads_bind 1 0);
     [|intros p h args''; apply scans_bind; [apply parse_type_scans|]; intros t h'; cbn; split_and!; [lia|done|lia]];
     destruct (Z.eqb_spec d (chr ".")) as [->|_]; [|cbn; split_and!; [lia|done|lia]]).
  all: pose proof (parse_star_reads g args') as Hs; destruct (parse_star g args') as [[[p h] args'']| |]; cbn in *;
    [|destruct Hs as [Hs|Hs]; [left; intros Hp; by apply Hs, (two_nulls_tail _ _ Hp)|by right]|done];
    destruct Hs as (? & Hp & ?); split_and!; [lia|intros Hp'; by apply Hp, (two_nulls_tail _ _ Hp')|lia].
Qed.

Lemma format_integer_returns value s n b c :
  good_base b → 0 ≤ value < 2 ^ 64 → ∃ out, format_integer value s n b c = Ret out.
Proof.
  intros Hb Hv. unfold format_integer. destruct (render_digits_spec value b c Hb Hv) as (ds & -> & _).
  cbn. eauto.
Qed.

(** At most two words are taken. *)
Definition takes {A} (args : list Z) (o : outcome (A * list Z)) : Prop :=
  match o with
  | Ret (_, args') => (length args ≤ length args' + 2)%nat
  | Panic => (length args < 2)%nat
  | Diverge => False
  end.

Lemma signed_arg_takes t args : takes args (signed_arg t args).
Proof. destruct t, args as [|lo [|hi args]]; cbn; lia. Qed.

Lemma unsigned_arg_takes t args : takes args (unsigned_arg t args).
Proof. destruct t, args as [|lo [|hi args]]; cbn; lia. Qed.

Lemma unsigned_arg_range t args v args' : unsigned_arg t args = Ret (v, args') → 0 ≤ v < 2 ^ 64.
Proof.
  destruct t, args as [|lo [|hi args]]; cbn [unsigned_arg va_word va_word64 mbind outcome_bind]; try done; intros [= <- _];
    try (pose proof (u32_range lo); lia); try (by apply u64_range); unfold u8, u16; try zlia;
    change (Z.lor (Z.shiftl (2 ^ 31 - 1) 1) 1) with (Z.ones 32); rewrite Z.land_ones by lia; zlia.
Qed.

Section terminates.
Context (memory : Z → list Z).

(** Every string ends. *)
Definition strings_end : Prop := ∀ a, 0 ∈ memory a.

Lemma string_length_ends s maxlen : ∀ len,
  match string_length s maxlen len with Ret _ => True | Panic => 0 ∉ s | Diverge => False end.
Proof.
  induction s as [|c s IH]; intros len; cbn [string_length]; [apply not_elem_of_nil|].
  destruct (Z.eqb_spec c 0) as [->|Hc]; [done|]. destruct (len <? maxlen); cbn [negb andb]; [|done]. specialize (IH (len + 1)).
  destruct (string_length s maxlen (len + 1)); try done. by apply not_elem_of_cons.
Qed.

Lemma convert_returns ch c args :
  match convert memory ch c args with
  | Ret (Some (_, args')) => (length args ≤ length args' + 2)%nat
  | Ret None => True
  | Panic => (length args < 2)%nat ∨ ¬ strings_end
  | Diverge => False
  end.
Proof.
  unfold convert. destruct (is_one_of ch "di").
  { pose proof (signed_arg_takes (type c) args) as Ht. destruct (signed_arg (type c) args) as [[v a]| |];
      cbn [takes mbind outcome_bind] in *; [|by left|done].
    destruct (format_integer_returns (u64 (if v <? 0 then - v else v)) true (v <? 0) base_d c) as [out ->]; [by left|apply u64_range|done]. }
  destruct (is_one_of ch "ouxX").
  { pose proof (unsigned_arg_takes (type c) args) as Ht.
    destruct (unsigned_arg (type c) args) as [[v a]| |] eqn:E; cbn [takes mbind outcome_bind] in *; [|by left|done]. apply unsigned_arg_range in E.
    destruct (format_integer_returns v false false (base_of ch) c) as [out ->]; [|done|done].
    unfold base_of, good_base. repeat case_match; auto. }
  destruct (ch =? chr "c"); [destruct args; cbn; [left; lia|lia]|]. destruct (ch =? chr "s").
  { destruct args as [|v args]; cbn [va_word mbind outcome_bind]; [left; cbn; lia|]. set (s := if u32 v =? 0 then lit "(null)" else memory (u32 v)).
    assert (strings_end → 0 ∈ s) as Hs by (intros He; unfold s; destruct (u32 v =? 0); [by_decide|apply He]).
    pose proof (string_length_ends s (u32 (precision c)) 0) as Hl.
    destruct (string_length s _ 0); cbn; [lia|right; tauto|done]. }
  destruct (ch =? chr "p"); [|done]. destruct args as [|v args]; cbn [va_word mbind outcome_bind]; [left; cbn; lia|]. pose proof (u32_range v).
  destruct (format_integer_returns (u32 v) false false base_x (Conversion POUND (width c) (precision c) (type c)))
    as [out ->]; [right; right; by left|lia|cbn; lia].
Qed.

(** The messages for conversions that are not supported. *)
Lemma unsupported_returns k ch : ∃ out, vprintf_loop memory (30 + k) (unsupported ch) [ch] = Ret out.
Proof. unfold unsupported. destruct (is_one_of ch "feEgGn"); eexists; vm_compute; reflexivity. Qed.

(** A pass of the loop, from a character that is not the null byte on. *)
Lemma vprintf_step_returns nested ch format args :
  ch ≠ 0 → (∀ ch, ∃ out, nested (unsupported ch) [ch] = Ret out) →
  match vprintf_step memory nested ch format args with
  | Ret (_, f, args') => (length f ≤ length format)%nat ∧ (length args ≤ length args' + 4)%nat ∧
      (two_nulls (ch :: format) → two_nulls f ∨ f = [0])
  | Panic => ¬ two_nulls (ch :: format) ∨ (length args < 4)%nat ∨ ¬ strings_end
  | Diverge => False
  end.
Proof.
  intros Hc Hn. assert (two_nulls (ch :: format) → two_nulls format) as Hp by (intros Hp; by apply (two_nulls_tail _ _ Hp)).
  unfold vprintf_step. destruct (ch =? chr "%"); cbn [negb]; [|split_and!; [lia|lia|by left; apply Hp]].
  destruct format as [|d f] eqn:Ef; [left; intros H; by apply two_nulls_nil, Hp|]. rewrite <-Ef in *. cbn [peek mbind outcome_bind].
  assert (peek format = Ret d) as -> by (by rewrite Ef). cbn [mbind outcome_bind]. destruct (d =? chr "%").
  { split_and!; [rewrite Ef; cbn; lia|lia|]. intros H. by apply two_nulls_rest, Hp. }
  pose proof (parse_conversion_reads format args) as Hr.
  destruct (parse_conversion format args) as [[[c g] a]| |]; cbn in *; [|destruct Hr; [left; tauto|right; left; lia]|done].
  destruct Hr as (Hl & Hg & Ha). destruct g as [|e g]; cbn; [left; intros H; by apply two_nulls_nil, Hg, Hp|].
  pose proof (convert_returns e c a) as Hv.
  assert (two_nulls (ch :: format) → two_nulls g ∨ g = [0]) as Hrest by (intros H; by apply (two_nulls_rest (e :: g)), Hg, Hp).
  destruct (convert memory e c a) as [[[out a']|]| |]; cbn in *; [split_and!; [lia|lia|done]| |right; destruct Hv; [left; lia|by right]|done].
  destruct (Hn e) as [out ->]. cbn. split_and!; [lia|lia|done].
Qed.

Lemma vprintf_loop_returns n : ∀ format args k, (length format ≤ n)%nat →
  match vprintf_loop memory (S n + 31 + k) format args with
  | Ret _ => True
  | Panic => ¬ ((two_nulls format ∨ format = [0]) ∧ (4 * length format ≤ length args)%nat ∧ strings_end)
  | Diverge => False
  end.
Proof.
  induction n as [|n IH]; intros [|c f] args k Hl; cbn [length] in Hl; try lia;
    try (cbn; intros [[[[|] ?]|?] _]; done).
  remember (S n + 31 + k)%nat as m eqn:Em. replace (S (S n) + 31 + k)%nat with (S m) by lia.
  cbn [vprintf_loop peek mbind outcome_bind tail]. destruct (Z.eqb_spec c 0) as [->|Hc]; [done|].
  pose proof (vprintf_step_returns (vprintf_loop memory m) c f args Hc) as Hs.
  specialize (Hs ltac:(intros ch; replace m with (30 + (n + 2 + k))%nat by lia; apply unsupported_returns)).
  destruct (vprintf_step _ _ c f args) as [[[out f'] args']| |]; cbn [mbind outcome_bind]; [| |done].
  - destruct Hs as (Hf & Ha & Hp). specialize (IH f' args' k ltac:(lia)). rewrite <-Em in IH.
    destruct (vprintf_loop memory m f' args'); cbn; [done| |done].
    intros ([Hp'|[= -> ->]] & Hw & He); [|done]. apply IH. cbn [length] in Hw. split_and!; [by apply Hp|lia|done].
  - intros ([Hp'|[= -> ->]] & Hw & He); [|done]. cbn [length] in Hw. destruct Hs as [Hs|[Hs|Hs]]; [done| |done].
    destruct Hp' as [[|? [|]] E]; injection E as -> ->; cbn in *; lia.
Qed.

(** C38: [__vprintf] terminates on every memory behind the pointer to the
    format, whatever conversions are there and whatever the stack holds for
    arguments: each round reads at least one character, no conversion can loop
    or overflow its digit buffer, and the message for a conversion that is not
    supported needs none itself.  It returns, instead of faulting where memory
    ends, also for a format that ends within a conversion and is read on
    behind its null byte, if memory ends with two null bytes, the stack has
    four words for each character and every string ends. *)
Theorem vprintf_terminates format args :
  __vprintf memory format args ≠ Diverge ∧
  (two_nulls format → (4 * length format ≤ length args)%nat → strings_end → ∃ out, __vprintf memory format args = Ret out).
Proof.
  pose proof (vprintf_loop_returns (length format) format args 0 ltac:(done)) as Hr. unfold __vprintf.
  replace (length format + 32)%nat with (S (length format) + 31 + 0)%nat by lia.
  destruct (vprintf_loop memory _ format args) as [out| |]; [|split; [done|]; tauto|done]. split; [done|]. by exists out.
Qed.
End terminates.

(** "100%", behind which there are more characters. *)
Lemma vprintf_terminates_witness :
  ∃ out, __vprintf (λ _, [0]) (lit "100%" ++ lit "secret" ++ [0]) (replicate 52 7) = Ret out ∧
    out = str "100<<no %" ++ [0] ++ str " conversion>>secret".
Proof.
  destruct (proj2 (vprintf_terminates (λ _, [0]) (lit "100%" ++ lit "secret" ++ [0]) (replicate 52 7))) as [out E];
    [by exists (lit "100%" ++ str "secret")|cbn; lia|intros a; by left|].
  exists out. split; [exact E|]. vm_compute in E. injection E as <-. reflexivity.
Defined.
