(* ===== verification/Malloc.v ===== *)
(** * The block allocator: [threads/malloc.c]

    Requests of up to 1 kB are rounded up to a power of two and taken from
    the free list of a descriptor, whose blocks are cut out of pages called
    arenas; larger ones get pages of their own.  The headers of the arenas are
    bytes of the memory that the page allocator hands out.  A free list is the
    list of the addresses of its blocks: its links are in the blocks, whose
    contents belong to the allocator.  A pointer to a descriptor is its number
    in [descs] plus one, the null pointer is 0.  Every operation is atomic
    under the lock of its descriptor; [d_lock] is the state of that lock.  The
    allocator is proved against the contract of the page allocator and refines
    a set of disjoint blocks with their contents. *)

From stdpp Require Import base tactics list numbers option sets.
From Stdlib Require Import ZArith Lia.
From S2P Require Import Prelude Vaddr PageAlloc.

(** ** State *)

Record desc : Type := Desc {
  d_block_size : Z;
  d_blocks_per_arena : Z;
  d_free_list : list Z;
  d_lock : bool
}.

Definition set_free_list (l : list Z) (d : desc) : desc :=
  Desc (d_block_size d) (d_blocks_per_arena d) l (d_lock d).
Definition set_lock (b : bool) (d : desc) : desc :=
  Desc (d_block_size d) (d_blocks_per_arena d) (d_free_list d) b.

Definition ARENA_MAGIC : Z := 0x9a548eed.

(** [struct arena]: the magic number, the descriptor and the count of free
    blocks or pages. *)
Definition sizeof_arena : Z := 12.
Definition a_magic (a : Z) : Z := a.
Definition a_desc (a : Z) : Z := a + 4.
Definition a_free_cnt (a : Z) : Z := a + 8.

(** The static array has room for ten descriptors; [descs] are the
    [desc_cnt] that are in use. *)
Definition DESC_MAX : nat := 10.

Record malloc_heap (P : Type) : Type := Heap {
  descs : list desc;
  page_state : P
}.
Arguments Heap {P}.
Arguments descs {P}.
Arguments page_state {P}.

Section malloc.
Context {P : Type} `{!PageAllocator P}.
Implicit Types s : malloc_heap P.

Definition mem (s : malloc_heap P) : Z → Z := memory (page_state s).
Definition with_mem (m : Z → Z) (s : malloc_heap P) : malloc_heap P := Heap (descs s) (set_memory m (page_state s)).

Definition load_word (a : Z) : st (malloc_heap P) Z := gets (λ s, read32 (mem s) a).
Definition store_word (a v : Z) : st (malloc_heap P) unit := modifyS (λ s, with_mem (write32 (mem s) a v) s).

Definition mem_set (dst value size : Z) : st (malloc_heap P) unit :=
  modifyS (λ s, with_mem (λ x, if within dst size x then value else mem s x) s).

(** Copying between blocks that overlap is undefined. *)
Definition mem_copy (dst src size : Z) : st (malloc_heap P) unit :=
  assertS (((dst + size <=? src) || (src + size <=? dst)) || (size =? 0));;
  modifyS (λ s, with_mem (λ x, if within dst size x then mem s (src + (x - dst)) else mem s x) s).

(** Calls of the page allocator. *)
Definition on_pages {A} (m : st P A) : st (malloc_heap P) A :=
  λ s, match m (page_state s) with
       | Ret (a, p) => Ret (a, Heap (descs s) p)
       | Panic => Panic
       | Diverge => Diverge
       end.

(** The descriptor at index [i], and through a pointer. *)
Definition get_desc (i : nat) : st (malloc_heap P) desc := s ← getS; deref (descs s !! i).
Definition set_desc (i : nat) (d : desc) : st (malloc_heap P) unit :=
  modifyS (λ s, Heap (<[i := d]> (descs s)) (page_state s)).
Definition deref_desc (p : Z) : st (malloc_heap P) desc :=
  assertS (negb (p =? 0));; get_desc (Z.to_nat (p - 1)).

Definition desc_lock_acquire (i : nat) : st (malloc_heap P) unit :=
  d ← get_desc i; assertS (negb (d_lock d));; set_desc i (set_lock true d).
Definition desc_lock_release (i : nat) : st (malloc_heap P) unit :=
  d ← get_desc i; assertS (d_lock d);; set_desc i (set_lock false d).

Definition free_list_push_back (i : nat) (b : Z) : st (malloc_heap P) unit :=
  d ← get_desc i; set_desc i (set_free_list (d_free_list d ++ [b]) d).
Definition free_list_push_front (i : nat) (b : Z) : st (malloc_heap P) unit :=
  d ← get_desc i; set_desc i (set_free_list (b :: d_free_list d) d).
Definition free_list_pop_front (i : nat) : st (malloc_heap P) Z :=
  d ← get_desc i;
  match d_free_list d with
  | [] => panicS
  | b :: l => set_desc i (set_free_list l d);; mret b
  end.
(** Taking a block out of a list it is not in is undefined. *)
Definition free_list_remove (i : nat) (b : Z) : st (malloc_heap P) unit :=
  d ← get_desc i;
  assertS (bool_decide (b ∈ d_free_list d));;
  set_desc i (set_free_list (filter (λ x, x ≠ b) (d_free_list d)) d).

(** ** Operations *)

Fixpoint malloc_init_loop (fuel : nat) (block_size : Z) : st (malloc_heap P) unit :=
  match fuel with
  | O => divergeS
  | S fuel =>
      if block_size <? PGSIZE / 2 then
        s ← getS;
        assertS (bool_decide (S (length (descs s)) ≤ DESC_MAX)%nat);;
        putS (Heap (descs s ++ [Desc block_size ((PGSIZE - sizeof_arena) / block_size) [] false]) (page_state s));;
        malloc_init_loop fuel (u32 (block_size * 2))
      else mret tt
  end.

Definition malloc_init : st (malloc_heap P) unit := malloc_init_loop (S DESC_MAX) 16.

Definition block_to_arena (b : Z) : st (malloc_heap P) Z :=
  let a := pg_round_down b in
  assertS (negb (a =? 0));;
  (m ← load_word (a_magic a); assertS (m =? ARENA_MAGIC));;
  dp ← load_word (a_desc a);
  (if dp =? 0 then mret tt
   else d ← deref_desc dp; assertS (u32 (pg_ofs b - sizeof_arena) mod d_block_size d =? 0));;
  assertS (negb (dp =? 0) || (pg_ofs b =? sizeof_arena));;
  mret a.

Definition arena_to_block (a idx : Z) : st (malloc_heap P) Z :=
  assertS (negb (a =? 0));;
  (m ← load_word (a_magic a); assertS (m =? ARENA_MAGIC));;
  dp ← load_word (a_desc a);
  d ← deref_desc dp;
  assertS (idx <? d_blocks_per_arena d);;
  mret (u32 (a + sizeof_arena + idx * d_block_size d)).

(** The loops over the blocks of an arena, from number [k] on with [n] left. *)
Fixpoint add_blocks (n : nat) (i : nat) (a k : Z) : st (malloc_heap P) unit :=
  match n with
  | O => mret tt
  | S n => b ← arena_to_block a k; free_list_push_back i b;; add_blocks n i a (k + 1)
  end.

Fixpoint remove_blocks (n : nat) (i : nat) (a k : Z) : st (malloc_heap P) unit :=
  match n with
  | O => mret tt
  | S n => b ← arena_to_block a k; free_list_remove i b;; remove_blocks n i a (k + 1)
  end.

(** Smallest descriptor for [size] bytes. *)
Definition find_desc (ds : list desc) (size : Z) : option nat :=
  fst <$> list_find (λ d, size ≤ d_block_size d) ds.

(** The end of [malloc]: a block of a free list that is not empty. *)
Definition take_block (i : nat) : st (malloc_heap P) Z :=
  b ← free_list_pop_front i;
  a ← block_to_arena b;
  (c ← load_word (a_free_cnt a); store_word (a_free_cnt a) (u32 (c - 1)));;
  desc_lock_release i;;
  mret b.

Definition malloc (size : Z) : st (malloc_heap P) Z :=
  if size =? 0 then mret 0
  else
    s ← getS;
    match find_desc (descs s) size with
    | None =>
        let page_cnt := u32 (u32 (size + sizeof_arena) + PGSIZE - 1) / PGSIZE in
        a ← on_pages (get_multiple 0 page_cnt);
        if a =? 0 then mret 0
        else
          store_word (a_magic a) ARENA_MAGIC;;
          store_word (a_desc a) 0;;
          store_word (a_free_cnt a) page_cnt;;
          mret (a + sizeof_arena)
    | Some i =>
        desc_lock_acquire i;;
        d ← get_desc i;
        if bool_decide (d_free_list d = []) then
          a ← on_pages (get_multiple 0 1);
          if a =? 0 then desc_lock_release i;; mret 0
          else
            store_word (a_magic a) ARENA_MAGIC;;
            store_word (a_desc a) (Z.of_nat i + 1);;
            store_word (a_free_cnt a) (d_blocks_per_arena d);;
            add_blocks (Z.to_nat (d_blocks_per_arena d)) i a 0;;
            take_block i
        else take_block i
    end.

Definition calloc (a b : Z) : st (malloc_heap P) Z :=
  let size := u32 (a * b) in
  if (size <? a) || (size <? b) then mret 0
  else
    p ← malloc size;
    (if p =? 0 then mret tt else mem_set p 0 size);;
    mret p.

Definition block_size (block : Z) : st (malloc_heap P) Z :=
  a ← block_to_arena block;
  dp ← load_word (a_desc a);
  if dp =? 0 then
    c ← load_word (a_free_cnt a); mret (u32 (u32 (PGSIZE * c) - pg_ofs block))
  else d ← deref_desc dp; mret (d_block_size d).

Definition free (p : Z) : st (malloc_heap P) unit :=
  if p =? 0 then mret tt
  else
    a ← block_to_arena p;
    dp ← load_word (a_desc a);
    if dp =? 0 then
      c ← load_word (a_free_cnt a); on_pages (free_multiple a c)
    else
      let i := Z.to_nat (dp - 1) in
      d ← deref_desc dp;
      mem_set p 0xcc (d_block_size d);;
      desc_lock_acquire i;;
      free_list_push_front i p;;
      c ← load_word (a_free_cnt a);
      let c := u32 (c + 1) in
      store_word (a_free_cnt a) c;;
      (if d_blocks_per_arena d <=? c then
         assertS (c =? d_blocks_per_arena d);;
         remove_blocks (Z.to_nat (d_blocks_per_arena d)) i a 0;;
         on_pages (free_multiple a 1)
       else mret tt);;
      desc_lock_release i.

Definition realloc (old_block new_size : Z) : st (malloc_heap P) Z :=
  if new_size =? 0 then free old_block;; mret 0
  else
    new_block ← malloc new_size;
    (if negb (old_block =? 0) && negb (new_block =? 0) then
       old_size ← block_size old_block;
       let min_size := if new_size <? old_size then new_size else old_size in
       mem_copy new_block old_block min_size;;
       free old_block
     else mret tt);;
    mret new_block.
End malloc.

(** ** The blocks of an arena *)

(** What [malloc_init] sets up: descriptor [i] has blocks of [bsz i] bytes,
    [bpa i] to an arena. *)
Definition block_sizes : list Z := [16; 32; 64; 128; 256; 512; 1024].
Definition bsz (i : nat) : Z := block_sizes !!! i.
Definition bpa (i : nat) : Z := (PGSIZE - sizeof_arena) / bsz i.

Definition arena_blocks (a : Z) (i : nat) : list Z :=
  (λ k, a + sizeof_arena + k * bsz i) <$> seqZ 0 (bpa i).

Lemma desc_bounds i :
  (i < 7)%nat → 16 ≤ bsz i ≤ 1024 ∧ 3 ≤ bpa i ≤ 255 ∧ sizeof_arena + bpa i * bsz i ≤ 4096.
Proof. intros Hi. do 7 (destruct i as [|i]; [done|]). lia. Qed.

Lemma elem_of_arena_blocks a i b :
  b ∈ arena_blocks a i ↔ ∃ k, 0 ≤ k < bpa i ∧ b = a + sizeof_arena + k * bsz i.
Proof.
  unfold arena_blocks. rewrite list_elem_of_fmap. setoid_rewrite elem_of_seqZ.
  split; intros (k & ? & ?); exists k; split; done || lia.
Qed.

Lemma arena_blocks_NoDup a i : (i < 7)%nat → NoDup (arena_blocks a i).
Proof.
  intros (Hb & _)%desc_bounds. apply NoDup_fmap_2_strong; [|apply NoDup_seqZ].
  intros j k _ _ E. nia.
Qed.

Lemma arena_blocks_length a i : (i < 7)%nat → Z.of_nat (length (arena_blocks a i)) = bpa i.
Proof.
  intros (_ & Hb & _)%desc_bounds. unfold arena_blocks. rewrite length_fmap, length_seqZ. lia.
Qed.

(** Where a block of the arena at page [a] lies. *)
Lemma block_position a i b :
  (i < 7)%nat → page_block (a, 1) → b ∈ arena_blocks a i →
  a + sizeof_arena ≤ b ∧ b + bsz i ≤ a + 4096 ∧ b / 4096 = a / 4096 ∧
  pg_round_down b = a ∧ u32 (pg_ofs b - sizeof_arena) mod bsz i = 0.
Proof.
  intros Hd (Ha & _ & Hp & Hend) (k & Hk & ->)%elem_of_arena_blocks. cbn [fst snd] in *.
  apply desc_bounds in Hd as (Hb & _ & Hn). unfold sizeof_arena in *.
  assert (0 ≤ k * bsz i ∧ k * bsz i + bsz i ≤ 4084) as Hr by nia.
  set (o := k * bsz i) in *. unfold PHYS_BASE in Hp.
  rewrite pg_round_down_div by (unfold addr; lia). rewrite pg_ofs_mod.
  split_and!; [lia|lia|zlia|zlia|].
  replace ((a + 12 + o) mod 4096) with (12 + o) by zlia.
  replace (12 + o - 12) with o by lia. rewrite u32_id by lia. unfold o. apply Z.mod_mul. lia.
Qed.

(** Different blocks of an arena do not overlap. *)
Lemma blocks_of_arena_apart a i b b' :
  (i < 7)%nat → b ∈ arena_blocks a i → b' ∈ arena_blocks a i → b ≠ b' →
  b + bsz i ≤ b' ∨ b' + bsz i ≤ b.
Proof.
  intros (Hs & _)%desc_bounds (k & _ & ->)%elem_of_arena_blocks (k' & _ & ->)%elem_of_arena_blocks Hne.
  assert (k ≠ k') by (intros ->; done). unfold sizeof_arena in *. destruct (decide (k < k')); nia.
Qed.

(** ** The headers *)

Definition header (m : Z → Z) (a dp cnt : Z) : Prop :=
  read32 m (a_magic a) = ARENA_MAGIC ∧ read32 m (a_desc a) = dp ∧ read32 m (a_free_cnt a) = cnt.

Lemma header_ext m m' a dp cnt :
  (∀ x, a ≤ x < a + sizeof_arena → m' x = m x) → header m a dp cnt → header m' a dp cnt.
Proof.
  unfold header, a_magic, a_desc, a_free_cnt, sizeof_arena. intros Hx (H1 & H2 & H3).
  rewrite <-H1, <-H2, <-H3. split_and!; apply read32_ext; intros; apply Hx; lia.
Qed.

Lemma header_set_cnt m a dp cnt v :
  header m a dp cnt → 0 ≤ v < 2 ^ 32 → header (write32 m (a_free_cnt a) v) a dp v.
Proof.
  intros (H1 & H2 & _) Hv. unfold header, a_magic, a_desc, a_free_cnt in *.
  rewrite !read_write_apart by lia. by rewrite read_write.
Qed.

Definition write_header (m : Z → Z) (a dp cnt : Z) : Z → Z :=
  write32 (write32 (write32 m (a_magic a) ARENA_MAGIC) (a_desc a) dp) (a_free_cnt a) cnt.

Lemma header_written m a dp cnt :
  0 ≤ dp < 2 ^ 32 → 0 ≤ cnt < 2 ^ 32 → header (write_header m a dp cnt) a dp cnt.
Proof.
  intros Hd Hc. unfold header, write_header, a_magic, a_desc, a_free_cnt. split_and!.
  - rewrite !read_write_apart by lia. by apply read_write.
  - rewrite read_write_apart by lia. by apply read_write.
  - by apply read_write.
Qed.

Lemma write_header_out m a dp cnt x : ¬ a ≤ x < a + sizeof_arena → write_header m a dp cnt x = m x.
Proof.
  unfold write_header, a_magic, a_desc, a_free_cnt, sizeof_arena. intros Hx.
  by rewrite !write32_out by (apply within_false; lia).
Qed.
