(* ===== verification/MallocInv.v ===== *)
(** * The invariant of the block allocator

    Which pages are arenas, which are large blocks, and which blocks the
    clients hold, against the free lists and the headers in memory; every
    change that [malloc] and [free] make keeps it. *)

From stdpp Require Import functions.
From stdpp Require Import base tactics list numbers option sets.
From Stdlib Require Import ZArith Lia.
From S2P Require Import Prelude Vaddr PageAlloc Malloc.

(** ** The pages of the allocator *)

(** The arenas with their descriptors, the large blocks with their number of
    pages, and the blocks of pages that others hold. *)
Record ghost : Type := Ghost {
  arenas : list (Z * nat);
  bigs : list (Z * Z);
  others : list (Z * Z)
}.

Definition own (g : ghost) : list (Z * Z) := ((λ x, (x.1, 1)) <$> arenas g) ++ bigs g.
Definition held (g : ghost) : list (Z * Z) := own g ++ others g.

Lemma holds_own `{PageAllocator P} p g : holds p (held g) → separate (own g).
Proof.
  intros [S1 S2 S3]%holds_separate. unfold held in *. apply NoDup_app in S3 as [S3 _]. split; set_solver.
Qed.

Lemma arena_own g a i : (a, i) ∈ arenas g → (a, 1) ∈ own g.
Proof. intros H. apply elem_of_app. left. apply list_elem_of_fmap. by exists (a, i). Qed.

Lemma big_own g b : b ∈ bigs g → b ∈ own g.
Proof. intros H. apply elem_of_app. by right. Qed.

(** An arena among the others. *)
Lemma own_arena g A1 a i A2 :
  arenas g = A1 ++ (a, i) :: A2 → own g ≡ₚ (a, 1) :: own (Ghost (A1 ++ A2) (bigs g) (others g)).
Proof.
  intros EA. unfold own. cbn. rewrite EA, !fmap_app, <-!app_assoc. cbn. by rewrite <-Permutation_middle.
Qed.

(** The blocks that the arenas and the large blocks consist of: the pages they
    are in, their address and their capacity. *)
Inductive slot (g : ghost) : Z * Z → Z → Z → Prop :=
| slot_small a i b : (a, i) ∈ arenas g → b ∈ arena_blocks a i → slot g (a, 1) b (bsz i)
| slot_big a cnt :
    (a, cnt) ∈ bigs g → slot g (a, cnt) (a + sizeof_arena) (4096 * cnt - sizeof_arena).

(** ** The invariant *)

(** The blocks of a free list in the page at [a]. *)
Definition free_in (a : Z) (l : list Z) : list Z := filter (λ b, b / 4096 = a / 4096) l.

(** [fl] are the free lists and [L] the blocks that clients hold, with the
    number of bytes they asked for. *)
Record core (fl : nat → list Z) (m : Z → Z) (g : ghost) (L : list (Z * Z)) : Prop := Core {
  c_index : ∀ a i, (a, i) ∈ arenas g → (i < 7)%nat;
  c_arena : ∀ a i, (a, i) ∈ arenas g →
    header m a (Z.of_nat i + 1) (Z.of_nat (length (free_in a (fl i))));
  c_whole : ∀ a i b, (a, i) ∈ arenas g → b ∈ arena_blocks a i → b ∈ fl i ∨ b ∈ L.*1;
  c_big : ∀ a cnt, (a, cnt) ∈ bigs g → header m a 0 cnt ∧ (a + sizeof_arena) ∈ L.*1;
  c_free_nodup : ∀ i, NoDup (fl i);
  c_free : ∀ i b, b ∈ fl i → (b ∉ L.*1) ∧ ∃ a, (a, i) ∈ arenas g ∧ b ∈ arena_blocks a i;
  c_live : ∀ b n, (b, n) ∈ L → 0 < n ∧ ∃ p c, slot g p b c ∧ n ≤ c;
  c_live_nodup : NoDup L.*1
}.

(** Every arena has a block that is in use. *)
Definition busy (g : ghost) (L : list (Z * Z)) : Prop :=
  ∀ a i, (a, i) ∈ arenas g → ∃ b, b ∈ arena_blocks a i ∧ b ∈ L.*1.

Section core.
Context (fl : nat → list Z) (m : Z → Z) (g : ghost) (L : list (Z * Z)).
Context (Hc : core fl m g L) (Hsep : separate (own g)).

Lemma arena_page a i : (a, i) ∈ arenas g → page_block (a, 1).
Proof. intros H. by eapply sep_block, arena_own. Qed.

(** An arena has one descriptor and is no large block. *)
Lemma arena_desc a i j : (a, i) ∈ arenas g → (a, j) ∈ arenas g → i = j.
Proof.
  intros (_ & Hi & _)%(c_arena _ _ _ _ Hc) (_ & Hj & _)%(c_arena _ _ _ _ Hc).
  rewrite Hi in Hj. lia.
Qed.

Lemma arena_not_big a i cnt : (a, i) ∈ arenas g → (a, cnt) ∈ bigs g → False.
Proof.
  intros (_ & Hi & _)%(c_arena _ _ _ _ Hc) [(_ & Hj & _) _]%(c_big _ _ _ _ Hc).
  rewrite Hi in Hj. lia.
Qed.

Lemma slot_span p b c :
  slot g p b c → p ∈ own g ∧ p.1 + sizeof_arena ≤ b ∧ b + c ≤ p.1 + 4096 * p.2.
Proof.
  intros [a i b' Ha Hb|a cnt Ha]; (split; [by eauto using arena_own, big_own|cbn]).
  - destruct (block_position a i b') as (? & ? & _); [by eapply c_index|by eapply arena_page|done|lia].
  - lia.
Qed.

Lemma slot_apart p b c p' b' c' :
  slot g p b c → slot g p' b' c' → b ≠ b' → b + c ≤ b' ∨ b' + c' ≤ b.
Proof.
  intros H H' Hne. destruct (slot_span _ _ _ H) as (Hp & H1 & H2).
  destruct (slot_span _ _ _ H') as (Hp' & H1' & H2'). destruct (decide (p = p')) as [E|Hpp].
  2:{ destruct (sep_apart _ Hsep p p'); [done..| |]; unfold sizeof_arena in *; lia. }
  destruct H as [a i b Ha Hb|a cnt Ha], H' as [a' i' b' Ha' Hb'|a' cnt' Ha']; simplify_eq.
  - pose proof (arena_desc _ _ _ Ha Ha') as <-.
    apply (blocks_of_arena_apart a'); [by eapply c_index|done..].
  - by destruct (arena_not_big _ _ _ Ha Ha').
  - by destruct (arena_not_big _ _ _ Ha' Ha).
Qed.

(** The headers are outside of all blocks. *)
Lemma slot_not_header p b c q x :
  slot g p b c → q ∈ own g → b ≤ x < b + c → ¬ q.1 ≤ x < q.1 + sizeof_arena.
Proof.
  intros (Hp & H1 & H2)%slot_span Hq Hx Hh. pose proof (sep_block _ Hsep q Hq) as (_ & Hq2 & _).
  unfold sizeof_arena in *. destruct (decide (p = q)) as [<-|Hne]; [lia|].
  destruct (sep_apart _ Hsep p q); [done..|lia|lia].
Qed.

(** ** Changes of memory *)

(** The clients' writes, and any other outside of the headers. *)
Lemma core_mem m' :
  (∀ p x, p ∈ own g → p.1 ≤ x < p.1 + sizeof_arena → m' x = m x) → core fl m' g L.
Proof.
  intros Hm. destruct Hc as [H1 H2 H3 H4 H5 H6 H7 H8]. split; try done.
  - intros a i Ha. eapply header_ext; [|by apply H2]. intros x. by apply (Hm (a, 1)), (arena_own g a i).
  - intros a cnt Ha. destruct (H4 a cnt Ha) as [Hh ?]. split; [|done].
    eapply header_ext; [|exact Hh]. intros x. by apply (Hm (a, cnt)), big_own.
Qed.

(** The headers after the count of arena [a] is set to [v]. *)
Lemma headers_set_cnt a i v m' :
  (a, i) ∈ arenas g → 0 ≤ v < 2 ^ 32 → m' = write32 m (a_free_cnt a) v →
  header m' a (Z.of_nat i + 1) v ∧
  (∀ a' i', (a', i') ∈ arenas g → a' ≠ a →
     header m' a' (Z.of_nat i' + 1) (Z.of_nat (length (free_in a' (fl i'))))) ∧
  (∀ a' cnt, (a', cnt) ∈ bigs g → header m' a' 0 cnt).
Proof.
  intros Ha Hv ->.
  assert (∀ p x, p ∈ own g → p ≠ (a, 1) → p.1 ≤ x < p.1 + sizeof_arena →
    write32 m (a_free_cnt a) v x = m x) as Hm.
  { intros p x Hp Hne Hx. apply write32_out, within_false. unfold a_free_cnt, sizeof_arena in *.
    pose proof (sep_block _ Hsep p Hp) as (_ & Hp2 & _).
    destruct (sep_apart _ Hsep p (a, 1)); cbn in *; [done|by eapply arena_own|done|lia|lia]. }
  split_and!.
  - eapply header_set_cnt; [by eapply c_arena|done].
  - intros a' i' Ha' Hne. eapply header_ext; [|by eapply c_arena].
    intros x. apply (Hm (a', 1)); [by eapply arena_own|congruence].
  - intros a' cnt Hb. eapply header_ext; [|by eapply (c_big _ _ _ _ Hc)].
    intros x. apply (Hm (a', cnt)); [by apply big_own|]. intros [= -> ->]. by eapply arena_not_big.
Qed.
End core.

(** ** The free blocks of a page *)

Lemma free_in_cons a i b l :
  (i < 7)%nat → page_block (a, 1) → b ∈ arena_blocks a i → free_in a (b :: l) = b :: free_in a l.
Proof. intros Hi Hp Hb. unfold free_in. rewrite filter_cons_True; [done|]. by eapply block_position. Qed.

Lemma free_in_cons_ne a a' i b l :
  (i < 7)%nat → page_block (a, 1) → page_block (a', 1) → a' ≠ a → b ∈ arena_blocks a i →
  free_in a' (b :: l) = free_in a' l.
Proof.
  intros Hi Hp (Ha' & _) Hne Hb. unfold free_in. rewrite filter_cons_False; [done|].
  destruct (block_position a i b) as (_ & _ & -> & _); [done..|].
  destruct Hp as (Ha & _). cbn in *. zlia.
Qed.

Lemma core_lookup_ne fl m g L i l :
  core fl m g L → separate (own g) → ∀ a a' j, (a, i) ∈ arenas g → (a', j) ∈ arenas g → a' ≠ a →
  free_in a' l = free_in a' (fl i) → free_in a' ((<[i := l]> fl) j) = free_in a' (fl j).
Proof.
  intros Hc Hsep a a' j Ha Ha' Hne E. destruct (decide (j = i)) as [->|Hj].
  - by rewrite fn_lookup_insert.
  - by rewrite fn_lookup_insert_ne by done.
Qed.

(** ** Taking a block and putting it back *)

Section moves.
Context (fl : nat → list Z) (m : Z → Z) (g : ghost) (L : list (Z * Z)).
Context (Hc : core fl m g L) (Hsep : separate (own g)).

Lemma block_arena_unique a i a' j b :
  (a, i) ∈ arenas g → (a', j) ∈ arenas g → b ∈ arena_blocks a i → b ∈ arena_blocks a' j →
  a' = a ∧ j = i.
Proof.
  intros Ha Ha' Hb Hb'. pose proof (arena_page _ Hsep _ _ Ha) as Hp.
  pose proof (arena_page _ Hsep _ _ Ha') as Hp'.
  destruct (block_position a i b) as (_ & _ & E & _); [by eapply c_index|done..|].
  destruct (block_position a' j b) as (_ & _ & E' & _); [by eapply c_index|done..|].
  assert (a' = a) as -> by (destruct Hp as (? & _), Hp' as (? & _); cbn in *; zlia).
  split; [done|]. by eapply arena_desc.
Qed.

Lemma free_in_blocks a i : (a, i) ∈ arenas g → free_in a (fl i) ⊆+ arena_blocks a i.
Proof.
  intros Ha. pose proof (c_index _ _ _ _ Hc _ _ Ha) as Hi. apply NoDup_submseteq.
  - apply NoDup_filter, (c_free_nodup _ _ _ _ Hc).
  - intros b [E Hb]%list_elem_of_filter. destruct (c_free _ _ _ _ Hc i b Hb) as (_ & a' & Ha' & Hb').
    pose proof (arena_page _ Hsep _ _ Ha) as Hp. pose proof (arena_page _ Hsep _ _ Ha') as Hp'.
    destruct (block_position a' i b) as (_ & _ & E' & _); [done..|].
    assert (a' = a) as ->; [|done]. destruct Hp as (? & _), Hp' as (? & _). cbn in *. zlia.
Qed.

Lemma free_count a i :
  (a, i) ∈ arenas g → 0 ≤ Z.of_nat (length (free_in a (fl i))) ≤ bpa i.
Proof.
  intros Ha. split; [lia|]. rewrite <-(arena_blocks_length a i (c_index _ _ _ _ Hc _ _ Ha)).
  by apply inj_le, submseteq_length, free_in_blocks.
Qed.

(** An arena whose blocks are not all counted as free has one in use; when
    they are, all of them are on the free list. *)
Lemma arena_busy a i :
  (a, i) ∈ arenas g → Z.of_nat (length (free_in a (fl i))) < bpa i →
  ∃ b, b ∈ arena_blocks a i ∧ b ∈ L.*1.
Proof.
  intros Ha Hlt. pose proof (c_index _ _ _ _ Hc _ _ Ha) as Hi.
  destruct (decide (Forall (λ b, b ∈ fl i) (arena_blocks a i))) as [Hall|Hex].
  - rewrite <-(arena_blocks_length a i Hi) in Hlt. exfalso.
    assert (length (arena_blocks a i) ≤ length (free_in a (fl i)))%nat; [|lia].
    apply submseteq_length, NoDup_submseteq; [by apply arena_blocks_NoDup|].
    intros b Hb. apply list_elem_of_filter. rewrite Forall_forall in Hall. split; [|by apply Hall].
    apply (block_position a i b); [done|by eapply arena_page|done].
  - apply not_Forall_Exists in Hex; [|intros ?; apply _]. apply Exists_exists in Hex as (b & Hb & Hn).
    exists b. split; [done|]. by destruct (c_whole _ _ _ _ Hc _ _ _ Ha Hb).
Qed.

Lemma arena_idle a i b :
  (a, i) ∈ arenas g → Z.of_nat (length (free_in a (fl i))) = bpa i → b ∈ arena_blocks a i → b ∈ fl i.
Proof.
  intros Ha He Hb. pose proof (c_index _ _ _ _ Hc _ _ Ha) as Hi.
  assert (free_in a (fl i) ≡ₚ arena_blocks a i) as E.
  { apply submseteq_length_Permutation; [by apply free_in_blocks|].
    pose proof (arena_blocks_length a i Hi). lia. }
  rewrite <-E in Hb. by apply list_elem_of_filter in Hb as [_ ?].
Qed.

Lemma core_take a i b l n m' :
  (a, i) ∈ arenas g → b ∈ arena_blocks a i → fl i = b :: l → 0 < n ≤ bsz i →
  m' = write32 m (a_free_cnt a) (Z.of_nat (length (free_in a (fl i))) - 1) →
  core (<[i := l]> fl) m' g ((b, n) :: L).
Proof.
  intros Ha Hb Efl Hn ->. pose proof (c_index _ _ _ _ Hc _ _ Ha) as Hi.
  pose proof (arena_page _ Hsep _ _ Ha) as Hp.
  pose proof (free_count a i Ha) as Hcnt. pose proof (desc_bounds i Hi) as (_ & Hbpa & _).
  rewrite Efl, (free_in_cons a i b l) in Hcnt by done. rewrite Efl, (free_in_cons a i b l) by done.
  cbn [length] in *.
  destruct (headers_set_cnt fl m g L Hc Hsep a i (Z.of_nat (S (length (free_in a l))) - 1) _ Ha
    ltac:(lia) eq_refl) as (Hh & Hh' & Hhb).
  pose proof (c_free_nodup _ _ _ _ Hc i) as Hnd. rewrite Efl in Hnd. apply NoDup_cons in Hnd as [Hbl Hnd].
  destruct (c_free _ _ _ _ Hc i b) as [HbL _]; [rewrite Efl; set_solver|].
  split.
  - apply (c_index _ _ _ _ Hc).
  - intros a' j Ha'. destruct (decide (a' = a)) as [->|Hne].
    + pose proof (arena_desc _ _ _ _ Hc _ _ _ Ha Ha') as <-. rewrite fn_lookup_insert.
      replace (Z.of_nat (length (free_in a l))) with (Z.of_nat (S (length (free_in a l))) - 1) by lia. done.
    + rewrite (core_lookup_ne _ _ _ _ _ _ Hc Hsep a) by (done || rewrite Efl; symmetry;
        eapply free_in_cons_ne; try done; by eapply arena_page). by apply Hh'.
  - intros a' j b' Ha' Hb'. destruct (c_whole _ _ _ _ Hc a' j b' Ha' Hb') as [H|H]; [|set_solver].
    destruct (decide (j = i)) as [->|Hj]; [|rewrite fn_lookup_insert_ne by done; by left].
    rewrite fn_lookup_insert. rewrite Efl in H. set_solver.
  - intros a' cnt Ha'. split; [by apply Hhb|]. apply elem_of_cons. right. by eapply c_big.
  - intros j. destruct (decide (j = i)) as [->|Hj]; [by rewrite fn_lookup_insert|].
    rewrite fn_lookup_insert_ne by done. by eapply c_free_nodup.
  - intros j b' Hb'.
    assert (b' ∈ fl j ∧ b' ≠ b) as [Hb'' Hne].
    { destruct (decide (j = i)) as [->|Hj].
      - rewrite fn_lookup_insert in Hb'. rewrite Efl. set_solver.
      - rewrite fn_lookup_insert_ne in Hb' by done. split; [done|]. intros ->.
        destruct (c_free _ _ _ _ Hc _ _ Hb') as (_ & a' & Ha' & Hba).
        by destruct (block_arena_unique a i a' j b). }
    destruct (c_free _ _ _ _ Hc _ _ Hb'') as (HnL & ?). split; [set_solver|done].
  - intros b' n' [[= -> ->]|H]%elem_of_cons; [|by eapply c_live].
    split; [lia|]. exists (a, 1), (bsz i). split; [by constructor|lia].
  - apply NoDup_cons. split; [done|by eapply c_live_nodup].
Qed.

Lemma slot_arena a i b p c :
  (a, i) ∈ arenas g → b ∈ arena_blocks a i → slot g p b c → p = (a, 1) ∧ c = bsz i.
Proof.
  intros Ha Hb Hs. pose proof (slot_small g a i b Ha Hb) as Hs0.
  destruct Hs as [a' i' b Ha' Hb'|a' cnt Ha'].
  - by destruct (block_arena_unique a i a' i' b) as [-> ->].
  - destruct (slot_span _ _ _ _ Hc Hsep _ _ _ Hs0) as (Hp & H1 & H2). pose proof (big_own _ _ Ha') as Hp'.
    pose proof (sep_block _ Hsep _ Hp') as (_ & Hcnt & _). pose proof (desc_bounds i (c_index _ _ _ _ Hc _ _ Ha)).
    cbn in *. unfold sizeof_arena in *.
    destruct (sep_apart _ Hsep (a, 1) (a', cnt)); cbn in *; [done..| |lia|lia].
    intros [= <- <-]. by eapply arena_not_big.
Qed.

Lemma core_put a i b n L1 L2 m' :
  L = L1 ++ (b, n) :: L2 → (a, i) ∈ arenas g → b ∈ arena_blocks a i →
  m' = write32 m (a_free_cnt a) (Z.of_nat (length (free_in a (fl i))) + 1) →
  core (<[i := b :: fl i]> fl) m' g (L1 ++ L2).
Proof.
  intros EL Ha Hb ->. pose proof (c_index _ _ _ _ Hc _ _ Ha) as Hi.
  pose proof (arena_page _ Hsep _ _ Ha) as Hp.
  pose proof (free_count a i Ha) as Hcnt. pose proof (desc_bounds i Hi) as (_ & Hbpa & _).
  destruct (headers_set_cnt fl m g L Hc Hsep a i (Z.of_nat (length (free_in a (fl i))) + 1) _ Ha
    ltac:(lia) eq_refl) as (Hh & Hh' & Hhb).
  pose proof (c_live_nodup _ _ _ _ Hc) as Hnd. rewrite EL, fmap_app in Hnd. cbn in Hnd.
  rewrite <-Permutation_middle in Hnd. apply NoDup_cons in Hnd as [HbL Hnd].
  rewrite <-fmap_app in HbL, Hnd.
  assert (∀ x, x ∈ L.*1 ↔ x = b ∨ x ∈ (L1 ++ L2).*1) as HL.
  { intros x. rewrite EL, !fmap_app. cbn. set_solver. }
  assert (∀ j, b ∉ fl j) as Hbf.
  { intros j Hj. apply (proj1 (c_free _ _ _ _ Hc j b Hj)), HL. by left. }
  split.
  - apply (c_index _ _ _ _ Hc).
  - intros a' j Ha'. destruct (decide (a' = a)) as [->|Hne].
    + pose proof (arena_desc _ _ _ _ Hc _ _ _ Ha Ha') as <-.
      rewrite fn_lookup_insert, (free_in_cons a i) by done. cbn [length].
      replace (Z.of_nat (S _)) with (Z.of_nat (length (free_in a (fl i))) + 1) by lia. done.
    + rewrite (core_lookup_ne _ _ _ _ _ _ Hc Hsep a); [by apply Hh'|done..|].
      eapply free_in_cons_ne; try done. by eapply arena_page.
  - intros a' j b' Ha' Hb'. destruct (c_whole _ _ _ _ Hc a' j b' Ha' Hb') as [H|[->|H]%HL]; [..|by right].
    + left. destruct (decide (j = i)) as [->|Hj]; [rewrite fn_lookup_insert; set_solver|].
      by rewrite fn_lookup_insert_ne.
    + left. destruct (block_arena_unique a i a' j b) as [-> ->]; [done..|].
      rewrite fn_lookup_insert. set_solver.
  - intros a' cnt Ha'. split; [by apply Hhb|].
    destruct (c_big _ _ _ _ Hc a' cnt Ha') as [_ [E|H]%HL]; [|done].
    destruct (slot_arena a i b (a', cnt) (4096 * cnt - sizeof_arena)) as [[= -> ->] _]; [done..| |].
    + rewrite <-E. by constructor.
    + by destruct (arena_not_big _ _ _ _ Hc a i 1 Ha Ha').
  - intros j. destruct (decide (j = i)) as [->|Hj].
    + rewrite fn_lookup_insert. apply NoDup_cons. split; [apply Hbf|by eapply c_free_nodup].
    + rewrite fn_lookup_insert_ne by done. by eapply c_free_nodup.
  - intros j b' Hb'.
    assert (b' ∈ fl j ∨ b' = b ∧ j = i) as [H|[-> ->]].
    { destruct (decide (j = i)) as [->|Hj]; [rewrite fn_lookup_insert in Hb'; set_solver|].
      rewrite fn_lookup_insert_ne in Hb' by done. by left. }
    + destruct (c_free _ _ _ _ Hc j b' H) as [Hn ?]. split; [|done]. intros ?. apply Hn, HL. by right.
    + split; [done|]. by exists a.
  - intros b' n' H. apply (c_live _ _ _ _ Hc b' n'). rewrite EL. set_solver.
  - done.
Qed.
End moves.

(** ** New pages and pages given back *)

Section page_state.
Context (fl : nat → list Z) (m : Z → Z) (L : list (Z * Z)).

(** Memory is changed within the pages of a block only. *)
Definition only_pages (p : Z * Z) (m m' : Z → Z) : Prop :=
  ∀ x, within p.1 (4096 * p.2) x = false → m' x = m x.

Lemma only_pages_header p q m0 m' dp cnt :
  only_pages p m0 m' → page_block q → pages_apart p q → header m0 q.1 dp cnt → header m' q.1 dp cnt.
Proof.
  intros Hm (_ & Hq & _) Hpq. apply header_ext. intros x Hx. apply Hm, within_false.
  unfold sizeof_arena, pages_apart in *. lia.
Qed.

Lemma only_pages_write_header p dp cnt m0 :
  page_block p → only_pages p m0 (write_header m0 p.1 dp cnt).
Proof.
  intros (_ & Hp & _) x Hx%within_false. apply write_header_out. unfold sizeof_arena. lia.
Qed.

Lemma core_add_arena g a i m' g' :
  g' = Ghost ((a, i) :: arenas g) (bigs g) (others g) → core fl m g L → separate (own g') →
  (i < 7)%nat → fl i = [] → m' = write_header m a (Z.of_nat i + 1) (bpa i) →
  core (<[i := arena_blocks a i]> fl) m' g' L.
Proof.
  intros -> Hc Hsep Hi Hfl ->. pose proof (desc_bounds i Hi) as (_ & Hbpa & _).
  destruct (separate_cons (a, 1) (own g) Hsep) as (Hp & Hsep' & Hq).
  pose proof (only_pages_write_header (a, 1) (Z.of_nat i + 1) (bpa i) m Hp) as Hm.
  split; cbn.
  - intros a' j [[= -> ->]|H]%elem_of_cons; [done|by eapply c_index].
  - intros a' j [[= -> ->]|H]%elem_of_cons.
    + rewrite fn_lookup_insert. unfold free_in. rewrite filter_all.
      * rewrite arena_blocks_length by done. apply header_written; lia.
      * intros b Hb. by eapply block_position.
    + pose proof (c_arena _ _ _ _ Hc _ _ H) as Hh. pose proof (arena_own _ _ _ H) as Ho.
      destruct (Hq _ Ho) as [Hap Hpb].
      replace (free_in a' ((<[i:=arena_blocks a i]> fl) j)) with (free_in a' (fl j)).
      * by apply (only_pages_header (a, 1) (a', 1) m).
      * destruct (decide (j = i)) as [->|Hj]; [|by rewrite fn_lookup_insert_ne].
        rewrite fn_lookup_insert, Hfl. symmetry. apply filter_none. intros b Hb.
        destruct (block_position a i b) as (_ & _ & -> & _); [done..|].
        destruct Hpb as (? & _), Hp as (? & _). unfold pages_apart in Hap. cbn in *. zlia.
  - intros a' j b [[= -> ->]|H]%elem_of_cons Hb; [rewrite fn_lookup_insert; by left|].
    destruct (c_whole _ _ _ _ Hc _ _ _ H Hb) as [Hf|?]; [left|by right].
    rewrite fn_lookup_insert_ne; [done|]. intros <-. rewrite Hfl in Hf. set_solver.
  - intros a' cnt H. destruct (c_big _ _ _ _ Hc _ _ H) as [Hh ?]. split; [|done].
    destruct (Hq _ (big_own _ _ H)). by apply (only_pages_header (a, 1) (a', cnt) m).
  - intros j. destruct (decide (j = i)) as [->|Hj].
    + rewrite fn_lookup_insert. by apply arena_blocks_NoDup.
    + rewrite fn_lookup_insert_ne by done. by eapply c_free_nodup.
  - intros j b Hb. destruct (decide (j = i)) as [->|Hj].
    + rewrite fn_lookup_insert in Hb. split; [|exists a; set_solver].
      intros ([b' n] & -> & HL)%list_elem_of_fmap.
      destruct (c_live _ _ _ _ Hc _ _ HL) as (Hn & p & c & Hs & Hc').
      destruct (slot_span _ _ _ _ Hc Hsep' _ _ _ Hs) as (Ho & ? & ?). destruct (Hq _ Ho) as [Hap _].
      destruct (block_position a i b') as (? & ? & _); [done..|].
      unfold pages_apart, sizeof_arena in *. cbn in *. pose proof (desc_bounds i Hi). lia.
    + rewrite fn_lookup_insert_ne in Hb by done.
      destruct (c_free _ _ _ _ Hc _ _ Hb) as (? & a' & ? & ?). split; [done|]. exists a'. set_solver.
  - intros b n H. destruct (c_live _ _ _ _ Hc _ _ H) as (? & p & c & Hs & ?). split; [done|].
    exists p, c. split; [|done]. destruct Hs; constructor; cbn; [set_solver..].
  - by eapply c_live_nodup.
Qed.

Lemma core_drop_arena g A1 A2 a i m' :
  arenas g = A1 ++ (a, i) :: A2 → core fl m g L → separate (own g) →
  (∀ b, b ∈ arena_blocks a i → b ∉ L.*1) → only_pages (a, 1) m m' →
  core (<[i := filter (λ b, b ∉ arena_blocks a i) (fl i)]> fl) m'
    (Ghost (A1 ++ A2) (bigs g) (others g)) L.
Proof.
  intros EA Hc Hsep Hfree Hm. assert (i < 7)%nat as Hi by (apply (c_index _ _ _ _ Hc a i); rewrite EA; set_solver).
  destruct (separate_cons (a, 1) (own (Ghost (A1 ++ A2) (bigs g) (others g)))) as (Hp & Hsep' & Hq).
  { eapply separate_perm; [|exact Hsep]. by apply (own_arena g A1 a i A2). }
  assert (∀ a' j, (a', j) ∈ A1 ++ A2 → (a', j) ∈ arenas g ∧ pages_apart (a, 1) (a', 1) ∧ page_block (a', 1))
    as Ha. { intros a' j H. split; [rewrite EA; set_solver|]. by apply Hq, (arena_own (Ghost (A1 ++ A2) (bigs g) (others g)) a' j). }
  split; cbn.
  - intros a' j H. by eapply c_index, Ha.
  - intros a' j H. destruct (Ha _ _ H) as (H' & Hap & Hpb).
    replace (free_in a' _) with (free_in a' (fl j)).
    { apply (only_pages_header (a, 1) (a', 1) m); try done. by eapply c_arena. }
    destruct (decide (j = i)) as [->|Hj]; [|by rewrite fn_lookup_insert_ne].
    rewrite fn_lookup_insert. unfold free_in. rewrite list_filter_filter. apply filter_ext_in.
    intros b Hb. split; [|tauto]. intros E. split; [done|]. intros Hb'.
    destruct (block_position a i b) as (_ & _ & E' & _); [done..|].
    destruct Hpb as (? & _), Hp as (? & _). unfold pages_apart in Hap. cbn in *. zlia.
  - intros a' j b H Hb. destruct (Ha _ _ H) as (H' & Hap & Hpb).
    destruct (c_whole _ _ _ _ Hc _ _ _ H' Hb) as [Hf|?]; [left|by right].
    destruct (decide (j = i)) as [->|Hj]; [|by rewrite fn_lookup_insert_ne].
    rewrite fn_lookup_insert. apply list_elem_of_filter. split; [|done]. intros Hb'.
    destruct (block_position a i b) as (_ & _ & E' & _); [done..|].
    destruct (block_position a' i b) as (_ & _ & E & _); [done..|].
    destruct Hpb as (? & _), Hp as (? & _). unfold pages_apart in Hap. cbn in *. zlia.
  - intros a' cnt H. destruct (c_big _ _ _ _ Hc _ _ H) as [Hh ?]. split; [|done].
    destruct (Hq (a', cnt)); [by apply big_own|]. by apply (only_pages_header (a, 1) (a', cnt) m).
  - intros j. destruct (decide (j = i)) as [->|Hj].
    + rewrite fn_lookup_insert. by eapply NoDup_filter, c_free_nodup.
    + rewrite fn_lookup_insert_ne by done. by eapply c_free_nodup.
  - intros j b Hb.
    assert (b ∈ fl j ∧ (j = i → b ∉ arena_blocks a i)) as [Hb' Hn].
    { destruct (decide (j = i)) as [->|Hj].
      - rewrite fn_lookup_insert in Hb. apply list_elem_of_filter in Hb as [? ?]. done.
      - rewrite fn_lookup_insert_ne in Hb by done. done. }
    destruct (c_free _ _ _ _ Hc _ _ Hb') as (? & a' & H & Hba). split; [done|]. exists a'.
    split; [|done]. rewrite EA in H. apply elem_of_app in H as [H|[[= -> ->]|H]%elem_of_cons]; set_solver.
  - intros b n H. destruct (c_live _ _ _ _ Hc _ _ H) as (? & p & c & Hs & ?). split; [done|].
    exists p, c. split; [|done]. destruct Hs as [a' j b H' Hb|a' cnt H']; constructor; cbn; try done.
    rewrite EA in H'. apply elem_of_app in H' as [H'|[[= -> ->]|H']%elem_of_cons]; [set_solver| |set_solver].
    destruct (Hfree b Hb). by apply (list_elem_of_fmap_2 fst) in H.
  - by eapply c_live_nodup.
Qed.

Lemma core_add_big g a cnt n :
  core fl m g L → separate (own (Ghost (arenas g) ((a, cnt) :: bigs g) (others g))) →
  0 < n ≤ 4096 * cnt - sizeof_arena → cnt < 2 ^ 32 →
  core fl (write_header m a 0 cnt) (Ghost (arenas g) ((a, cnt) :: bigs g) (others g))
    ((a + sizeof_arena, n) :: L).
Proof.
  intros Hc Hsep Hn Hcnt. destruct (separate_cons (a, cnt) (own g)) as (Hp & Hsep' & Hq).
  { eapply separate_perm; [|exact Hsep]. unfold own. cbn. by rewrite Permutation_middle. }
  pose proof (only_pages_write_header (a, cnt) 0 cnt m Hp) as Hm.
  assert (∀ p b c, slot g p b c → b + c ≤ a ∨ a + 4096 * cnt ≤ b) as Hslot.
  { intros p b c (Ho & ? & ?)%(slot_span _ _ _ _ Hc Hsep'). destruct (Hq p Ho) as [Hap _].
    unfold pages_apart, sizeof_arena in *. cbn in *. lia. }
  split; cbn.
  - apply (c_index _ _ _ _ Hc).
  - intros a' j H. destruct (Hq (a', 1)); [by eapply arena_own|].
    apply (only_pages_header (a, cnt) (a', 1) m); try done. by eapply c_arena.
  - intros a' j b H Hb. destruct (c_whole _ _ _ _ Hc _ _ _ H Hb); set_solver.
  - intros a' cnt' [[= -> ->]|H]%elem_of_cons.
    + split; [|set_solver]. apply header_written; destruct Hp as (_ & ? & _); cbn in *; lia.
    + destruct (c_big _ _ _ _ Hc _ _ H) as [Hh ?]. split; [|set_solver].
      destruct (Hq (a', cnt')); [by apply big_own|]. by apply (only_pages_header (a, cnt) (a', cnt') m).
  - apply (c_free_nodup _ _ _ _ Hc).
  - intros j b Hb. destruct (c_free _ _ _ _ Hc _ _ Hb) as (HL & a' & H & Hba). split; [|by exists a'].
    apply not_elem_of_cons. split; [|done]. intros ->.
    pose proof (Hslot _ _ _ (slot_small g a' j _ H Hba)).
    pose proof (desc_bounds j (c_index _ _ _ _ Hc _ _ H)). unfold sizeof_arena in *. lia.
  - intros b n' [[= -> ->]|H]%elem_of_cons.
    + split; [lia|]. exists (a, cnt), (4096 * cnt - sizeof_arena). split; [constructor; set_solver|lia].
    + destruct (c_live _ _ _ _ Hc _ _ H) as (? & p & c & Hs & ?). split; [done|].
      exists p, c. split; [|done]. destruct Hs; constructor; set_solver.
  - apply NoDup_cons. split; [|by eapply c_live_nodup].
    intros ([b n'] & E & H)%list_elem_of_fmap. cbn in E. subst b.
    destruct (c_live _ _ _ _ Hc _ _ H) as (? & p & c & Hs & ?). pose proof (Hslot _ _ _ Hs).
    unfold sizeof_arena in *. lia.
Qed.

Lemma core_drop_big g B1 B2 a cnt n L1 L2 m' :
  bigs g = B1 ++ (a, cnt) :: B2 → L = L1 ++ (a + sizeof_arena, n) :: L2 →
  core fl m g L → separate (own g) → only_pages (a, cnt) m m' →
  core fl m' (Ghost (arenas g) (B1 ++ B2) (others g)) (L1 ++ L2).
Proof.
  intros EB EL Hc Hsep Hm.
  destruct (separate_cons (a, cnt) (own (Ghost (arenas g) (B1 ++ B2) (others g)))) as (Hp & Hsep' & Hq).
  { eapply separate_perm; [|exact Hsep]. unfold own. cbn. rewrite EB. by rewrite Permutation_middle, <-!Permutation_middle. }
  pose proof (c_live_nodup _ _ _ _ Hc) as Hnd. rewrite EL, fmap_app in Hnd. cbn in Hnd.
  rewrite <-Permutation_middle in Hnd. apply NoDup_cons in Hnd as [HbL Hnd].
  rewrite <-fmap_app in HbL, Hnd.
  assert (∀ x, x ∈ L.*1 ↔ x = a + sizeof_arena ∨ x ∈ (L1 ++ L2).*1) as HL.
  { intros x. rewrite EL, !fmap_app. cbn. set_solver. }
  assert ((a, cnt) ∈ bigs g) as Hbig by (rewrite EB; set_solver).
  split; cbn.
  - apply (c_index _ _ _ _ Hc).
  - intros a' j H. destruct (Hq (a', 1)); [by eapply (arena_own (Ghost (arenas g) (B1 ++ B2) (others g)))|].
    apply (only_pages_header (a, cnt) (a', 1) m); try done. by eapply c_arena.
  - intros a' j b H Hb. destruct (c_whole _ _ _ _ Hc _ _ _ H Hb) as [?|[->|?]%HL]; [by left| |by right].
    destruct (slot_arena _ _ _ _ Hc Hsep a' j _ (a, cnt) (4096 * cnt - sizeof_arena) H Hb) as [[= -> ->] _];
      [by constructor|]. by destruct (arena_not_big _ _ _ _ Hc a' j 1).
  - intros a' cnt' H. destruct (Hq (a', cnt')) as [Hap Hpb]; [by apply (big_own (Ghost (arenas g) (B1 ++ B2) (others g)))|].
    destruct (c_big _ _ _ _ Hc a' cnt') as [Hh [E|?]%HL]; [rewrite EB; set_solver| |].
    + unfold pages_apart, page_block in *. cbn in *. lia.
    + split; [|done]. by apply (only_pages_header (a, cnt) (a', cnt') m).
  - apply (c_free_nodup _ _ _ _ Hc).
  - intros j b Hb. destruct (c_free _ _ _ _ Hc _ _ Hb) as (Hn & ?). split; [|done].
    intros ?. apply Hn, HL. by right.
  - intros b n' H. destruct (c_live _ _ _ _ Hc b n') as (? & p & c & Hs & ?); [rewrite EL; set_solver|].
    split; [done|]. exists p, c. split; [|done].
    destruct Hs as [a' j b H' Hb|a' cnt' H']; constructor; cbn; try done.
    rewrite EB in H'. apply elem_of_app in H' as [H'|[[= -> ->]|H']%elem_of_cons]; [set_solver| |set_solver].
    destruct HbL. by apply (list_elem_of_fmap_2 fst) in H.
  - done.
Qed.
End page_state.
