(* ===== verification/MallocSpec.v ===== *)
(** * The block allocator refines a set of blocks

    Running [malloc], [free], [calloc] and [realloc] from a state that
    satisfies the invariant, and the refinement: clients see disjoint blocks
    of the sizes they asked for, whose contents only they change. *)

From stdpp Require Import functions.
From stdpp Require Import base tactics list numbers option sets.
From Stdlib Require Import ZArith Lia.
From S2P Require Import Prelude Vaddr PageAlloc Malloc MallocInv.

(** Steps over a statement whose run is evident. *)
Ltac hstep := erewrite st_bind_ret; [|reflexivity].
Ltac hstep_by t := erewrite st_bind_ret; [|apply assertS_true; t].

Section runs.
Context {P : Type} `{!PageAllocator P}.
Implicit Types s : malloc_heap P.

Lemma mem_with_mem m s : mem (with_mem m s) = m.
Proof. apply memory_set. Qed.

Definition set_descs (ds : list desc) (s : malloc_heap P) : malloc_heap P := Heap ds (page_state s).

Lemma mem_set_descs ds s : mem (set_descs ds s) = mem s.
Proof. done. Qed.

(** A descriptor as [malloc_init] left it, but for its free list and lock. *)
Definition shaped (i : nat) (d : desc) : Prop := d_block_size d = bsz i ∧ d_blocks_per_arena d = bpa i.

Lemma get_desc_run s i d : descs s !! i = Some d → get_desc i s = Ret (d, s).
Proof. intros H. unfold get_desc. hstep. by rewrite H. Qed.

Lemma deref_desc_run s i d : descs s !! i = Some d → deref_desc (Z.of_nat i + 1) s = Ret (d, s).
Proof.
  intros H. unfold deref_desc. hstep_by ltac:(apply negb_true_iff, Z.eqb_neq; lia).
  replace (Z.to_nat (Z.of_nat i + 1 - 1)) with i by lia. by apply get_desc_run.
Qed.

Lemma page_addr a cnt : page_block (a, cnt) → addr a ∧ a ≠ 0 ∧ pg_round_down a = a ∧ pg_ofs a = 0.
Proof.
  intros (Ha & Hc & Hp & He). cbn in *. unfold PHYS_BASE in Hp. assert (addr a) by (unfold addr; lia).
  rewrite pg_round_down_div, pg_ofs_mod by done. split_and!; [done|lia|zlia|done].
Qed.

Lemma block_to_arena_run s a i b d cnt :
  header (mem s) a (Z.of_nat i + 1) cnt → (i < 7)%nat → page_block (a, 1) → b ∈ arena_blocks a i →
  descs s !! i = Some d → shaped i d → block_to_arena b s = Ret (a, s).
Proof.
  intros (Hm & Hd & _) Hi Hp Hb Hl [Hbs _].
  destruct (block_position a i b) as (_ & _ & _ & Hr & Hofs); [done..|].
  destruct (page_addr _ _ Hp) as (_ & Ha & _). unfold block_to_arena. rewrite Hr.
  hstep_by ltac:(by apply negb_true_iff, Z.eqb_neq).
  erewrite st_bind_ret; [|unfold load_word; hstep; apply assertS_true; by rewrite Hm].
  hstep. rewrite Hd. rewrite (proj2 (Z.eqb_neq _ _)) by lia.
  erewrite st_bind_ret; [|erewrite st_bind_ret by (by apply deref_desc_run); apply assertS_true; by rewrite Hbs, Hofs].
  by hstep_by done.
Qed.

Lemma block_to_arena_big s a cnt :
  header (mem s) a 0 cnt → page_block (a, cnt) → block_to_arena (a + sizeof_arena) s = Ret (a, s).
Proof.
  intros (Hm & Hd & _) Hp. destruct (page_addr _ _ Hp) as (Ha & Ha0 & _ & Hofs).
  destruct Hp as (Hal & Hc & Hp & He). cbn in *. rewrite pg_ofs_mod in Hofs.
  assert (pg_round_down (a + sizeof_arena) = a) as Hr.
  { unfold sizeof_arena, PHYS_BASE in *. rewrite pg_round_down_div by (unfold addr; lia). zlia. }
  unfold block_to_arena. rewrite Hr. hstep_by ltac:(by apply negb_true_iff, Z.eqb_neq).
  erewrite st_bind_ret; [|unfold load_word; hstep; apply assertS_true; by rewrite Hm].
  hstep. rewrite Hd. hstep. cbn [negb orb Z.eqb].
  hstep_by ltac:(apply Z.eqb_eq; rewrite pg_ofs_mod; unfold sizeof_arena; zlia). done.
Qed.

Lemma arena_to_block_run s a i d cnt k :
  header (mem s) a (Z.of_nat i + 1) cnt → (i < 7)%nat → page_block (a, 1) →
  descs s !! i = Some d → shaped i d → 0 ≤ k < bpa i →
  arena_to_block a k s = Ret (a + sizeof_arena + k * bsz i, s).
Proof.
  intros (Hm & Hd & _) Hi Hp Hl [Hbs Hbpa] Hk. pose proof (page_addr _ _ Hp) as (_ & Ha & _).
  assert ((a + sizeof_arena + k * bsz i) ∈ arena_blocks a i) as Hb by (apply elem_of_arena_blocks; eauto).
  destruct (block_position _ _ _ Hi Hp Hb) as (Hlo & Hhi & _). pose proof (desc_bounds i Hi) as (Hs & _).
  destruct Hp as (_ & _ & Hpb & Hend). cbn in *.
  unfold arena_to_block. hstep_by ltac:(by apply negb_true_iff, Z.eqb_neq).
  erewrite st_bind_ret; [|unfold load_word; hstep; apply assertS_true; by rewrite Hm].
  hstep. rewrite Hd. erewrite st_bind_ret by (by apply deref_desc_run).
  hstep_by ltac:(apply Z.ltb_lt; lia). rewrite Hbs, u32_id; [done|]. unfold PHYS_BASE, sizeof_arena in *. lia.
Qed.

(** ** The loops over the blocks of an arena *)

Definition blocks_from (a : Z) (i : nat) (k : Z) (n : nat) : list Z :=
  (λ k, a + sizeof_arena + k * bsz i) <$> seqZ k (Z.of_nat n).

Lemma blocks_from_S a i k n :
  blocks_from a i k (S n) = (a + sizeof_arena + k * bsz i) :: blocks_from a i (k + 1) n.
Proof.
  unfold blocks_from. rewrite seqZ_cons by lia. cbn [fmap list_fmap]. do 3 f_equal; lia.
Qed.

Lemma blocks_from_all a i : (i < 7)%nat → blocks_from a i 0 (Z.to_nat (bpa i)) = arena_blocks a i.
Proof. intros (_ & ? & _)%desc_bounds. unfold blocks_from, arena_blocks. by rewrite Z2Nat.id by lia. Qed.

Lemma free_list_push_back_run s i d b :
  descs s !! i = Some d →
  free_list_push_back i b s = Ret (tt, set_descs (<[i := set_free_list (d_free_list d ++ [b]) d]> (descs s)) s).
Proof. intros H. unfold free_list_push_back. by erewrite st_bind_ret by (by apply get_desc_run). Qed.

Lemma free_list_remove_run s i d b :
  descs s !! i = Some d → b ∈ d_free_list d →
  free_list_remove i b s =
    Ret (tt, set_descs (<[i := set_free_list (filter (λ x, x ≠ b) (d_free_list d)) d]> (descs s)) s).
Proof.
  intros H Hb. unfold free_list_remove. erewrite st_bind_ret by (by apply get_desc_run).
  by hstep_by ltac:(by apply bool_decide_eq_true).
Qed.

Lemma add_blocks_run n : ∀ s a i d cnt k,
  header (mem s) a (Z.of_nat i + 1) cnt → (i < 7)%nat → page_block (a, 1) →
  descs s !! i = Some d → shaped i d → 0 ≤ k → k + Z.of_nat n ≤ bpa i →
  add_blocks n i a k s =
    Ret (tt, set_descs (<[i := set_free_list (d_free_list d ++ blocks_from a i k n) d]> (descs s)) s).
Proof.
  induction n as [|n IH]; intros s a i d cnt k Hh Hi Hp Hd Hsh Hk Hn; cbn [add_blocks].
  - unfold blocks_from. cbn. rewrite app_nil_r. unfold set_free_list, set_descs. destruct d, s. cbn in *.
    by rewrite list_insert_id.
  - erewrite st_bind_ret by (eapply arena_to_block_run; done || lia).
    erewrite st_bind_ret by (by apply free_list_push_back_run).
    erewrite IH; [| |done|done|by apply list_lookup_insert_eq, (lookup_lt_Some _ _ _ Hd)|done|lia|lia];
      [|by rewrite mem_set_descs].
    unfold set_descs. cbn. rewrite list_insert_insert_eq, blocks_from_S. unfold set_free_list. cbn.
    by rewrite <-app_assoc.
Qed.

Lemma remove_blocks_run n : ∀ s a i d cnt k,
  header (mem s) a (Z.of_nat i + 1) cnt → (i < 7)%nat → page_block (a, 1) →
  descs s !! i = Some d → shaped i d → 0 ≤ k → k + Z.of_nat n ≤ bpa i →
  (∀ b, b ∈ blocks_from a i k n → b ∈ d_free_list d) →
  remove_blocks n i a k s =
    Ret (tt, set_descs (<[i := set_free_list (filter (λ b, b ∉ blocks_from a i k n) (d_free_list d)) d]>
                          (descs s)) s).
Proof.
  induction n as [|n IH]; intros s a i d cnt k Hh Hi Hp Hd Hsh Hk Hn Hin; cbn [remove_blocks].
  - unfold blocks_from. cbn. rewrite filter_all by set_solver. unfold set_free_list, set_descs.
    destruct d, s. cbn in *. by rewrite list_insert_id.
  - pose proof (desc_bounds i Hi) as (Hs & _). rewrite blocks_from_S in *.
    erewrite st_bind_ret by (eapply arena_to_block_run; done || lia).
    erewrite st_bind_ret by (apply free_list_remove_run; [done|set_solver]).
    erewrite IH; [| |done|done|by apply list_lookup_insert_eq, (lookup_lt_Some _ _ _ Hd)|done|lia|lia|];
      [|by rewrite mem_set_descs|].
    + unfold set_descs. cbn. rewrite list_insert_insert_eq. unfold set_free_list. cbn.
      rewrite list_filter_filter. do 5 f_equal. apply filter_ext_in. set_solver.
    + cbn. intros b Hb. apply list_elem_of_filter. split; [|set_solver]. intros ->.
      unfold blocks_from in Hb. apply list_elem_of_fmap in Hb as (j & E & Hj%elem_of_seqZ). nia.
Qed.

Lemma desc_lock_release_run s i d :
  descs s !! i = Some d → d_lock d = true →
  desc_lock_release i s = Ret (tt, set_descs (<[i := set_lock false d]> (descs s)) s).
Proof.
  intros H Hl. unfold desc_lock_release. erewrite st_bind_ret by (by apply get_desc_run).
  by hstep_by done.
Qed.

Lemma desc_lock_acquire_run s i d :
  descs s !! i = Some d → d_lock d = false →
  desc_lock_acquire i s = Ret (tt, set_descs (<[i := set_lock true d]> (descs s)) s).
Proof.
  intros H Hl. unfold desc_lock_acquire. erewrite st_bind_ret by (by apply get_desc_run).
  by hstep_by ltac:(by rewrite Hl).
Qed.

Lemma take_block_run s a i b l d cnt :
  header (mem s) a (Z.of_nat i + 1) cnt → (i < 7)%nat → page_block (a, 1) → b ∈ arena_blocks a i →
  descs s !! i = Some d → shaped i d → d_lock d = true → d_free_list d = b :: l → 0 < cnt < 2 ^ 32 →
  take_block i s =
    Ret (b, with_mem (write32 (mem s) (a_free_cnt a) (cnt - 1))
              (set_descs (<[i := set_lock false (set_free_list l d)]> (descs s)) s)).
Proof.
  intros Hh Hi Hp Hb Hd Hsh Hlk Hfl Hcnt. pose proof (lookup_lt_Some _ _ _ Hd) as Hlt. unfold take_block.
  set (s1 := set_descs (<[i := set_free_list l d]> (descs s)) s).
  assert (descs s1 !! i = Some (set_free_list l d)) as Hd1 by by apply list_lookup_insert_eq.
  erewrite st_bind_ret; [|unfold free_list_pop_front; erewrite st_bind_ret by (by apply get_desc_run);
    rewrite Hfl; hstep; reflexivity].
  erewrite st_bind_ret by (eapply (block_to_arena_run s1); done).
  destruct Hh as (_ & _ & Hc).
  erewrite st_bind_ret; [|unfold load_word, store_word; hstep; reflexivity]. cbv beta. fold s1.
  rewrite (mem_set_descs _ s : mem s1 = mem s), Hc, u32_id by lia.
  erewrite st_bind_ret by (apply (desc_lock_release_run _ i (set_free_list l d)); done).
  cbn. unfold set_descs, with_mem. cbn. by rewrite list_insert_insert_eq.
Qed.
End runs.

(** ** The invariant of the heap *)

Section malloc_heap.
Context {P : Type} `{!PageAllocator P}.
Implicit Types s : malloc_heap P.

Definition fl (s : malloc_heap P) (i : nat) : list Z := default [] (d_free_list <$> descs s !! i).

Record heap_inv (s : malloc_heap P) (g : ghost) (L : list (Z * Z)) : Prop := HeapInv {
  hi_holds : holds (page_state s) (held g);
  hi_len : length (descs s) = 7%nat;
  hi_desc : ∀ i d, descs s !! i = Some d → shaped i d ∧ d_lock d = false;
  hi_core : core (fl s) (mem s) g L;
  hi_busy : busy g L
}.

Lemma core_ext f f' m g L : (∀ i, f i = f' i) → core f m g L → core f' m g L.
Proof.
  intros E [H1 H2 H3 H4 H5 H6 H7 H8]. split; try done.
  - intros a i Ha. rewrite <-E. by apply H2.
  - intros a i b Ha. rewrite <-E. by apply H3.
  - intros i. by rewrite <-E.
  - intros i b. rewrite <-E. apply H6.
Qed.

Lemma hi_separate s g L : heap_inv s g L → separate (own g).
Proof. intros [Hh _ _ _ _]. by eapply holds_own. Qed.

Lemma hi_lookup s g L i :
  heap_inv s g L → (i < 7)%nat → ∃ d, descs s !! i = Some d ∧ shaped i d ∧ d_lock d = false ∧ d_free_list d = fl s i.
Proof.
  intros Hs Hi. destruct (lookup_lt_is_Some_2 (descs s) i) as [d Hd]; [rewrite (hi_len _ _ _ Hs); lia|].
  exists d. destruct (hi_desc _ _ _ Hs i d Hd) as [? ?]. unfold fl. by rewrite Hd.
Qed.

(** A state that differs in one free list, in memory and in the pages held. *)
Lemma heap_inv_update s g L i l p g' L' :
  heap_inv s g L → (i < 7)%nat → holds p (held g') → core (<[i := l]> (fl s)) (memory p) g' L' →
  busy g' L' → heap_inv (Heap (<[i := Desc (bsz i) (bpa i) l false]> (descs s)) p) g' L'.
Proof.
  intros Hs Hi Hh Hc Hb. pose proof (hi_len _ _ _ Hs) as Hlen. split; cbn [descs page_state]; try done.
  - by rewrite length_insert.
  - intros j d. destruct (decide (j = i)) as [->|Hne].
    + rewrite list_lookup_insert_eq by lia. by intros [= <-].
    + rewrite list_lookup_insert_ne by done. apply (hi_desc _ _ _ Hs).
  - eapply core_ext; [|exact Hc]. intros j. unfold fl. cbn. destruct (decide (j = i)) as [->|Hne].
    + by rewrite list_lookup_insert_eq, fn_lookup_insert by lia.
    + by rewrite list_lookup_insert_ne, fn_lookup_insert_ne by done.
Qed.

Lemma find_desc_spec s g L n :
  heap_inv s g L →
  match find_desc (descs s) n with
  | Some i => (i < 7)%nat ∧ n ≤ bsz i
  | None => 1024 < n
  end.
Proof.
  intros Hs. unfold find_desc. destruct (list_find _ _) as [[i d]|] eqn:E; cbn [fmap option_fmap option_map fst].
  - apply list_find_Some in E as (Hd & Hn & _). pose proof (lookup_lt_Some _ _ _ Hd).
    rewrite (hi_len _ _ _ Hs) in *. split; [done|]. by destruct (hi_desc _ _ _ Hs i d Hd) as [[<- _] _].
  - apply list_find_None in E. destruct (hi_lookup s g L 6 Hs) as (d & Hd & [Hb _] & _); [lia|].
    rewrite Forall_lookup in E. specialize (E 6%nat d Hd). cbn in Hb. change (bsz 6) with 1024 in Hb. lia.
Qed.

(** No block of a client is changed. *)
Definition intact (L : list (Z * Z)) (m m' : Z → Z) : Prop :=
  ∀ b n x, (b, n) ∈ L → b ≤ x < b + n → m' x = m x.

Lemma intact_header s g L p m' :
  heap_inv s g L → p ∈ own g → (∀ x, ¬ p.1 ≤ x < p.1 + sizeof_arena → m' x = mem s x) →
  intact L (mem s) m'.
Proof.
  intros Hs Hp Hm b n x HL Hx. apply Hm. destruct (c_live _ _ _ _ (hi_core _ _ _ Hs) _ _ HL) as (_ & q & c & Hsl & Hc).
  eapply slot_not_header; [apply (hi_core _ _ _ Hs)|by eapply hi_separate|done|done|lia].
Qed.

Lemma intact_pages s g L p m' :
  heap_inv s g L → (∀ q, q ∈ own g → pages_apart p q) → only_pages p (mem s) m' → intact L (mem s) m'.
Proof.
  intros Hs Hap Hm b n x HL Hx. apply Hm, within_false.
  destruct (c_live _ _ _ _ (hi_core _ _ _ Hs) _ _ HL) as (_ & q & c & Hsl & Hc).
  destruct (slot_span _ _ _ _ (hi_core _ _ _ Hs) (hi_separate _ _ _ Hs) _ _ _ Hsl) as (Hq & H1 & H2).
  destruct (Hap q Hq); unfold sizeof_arena in *; lia.
Qed.

(** The descriptor with its free list [l], in use or not. *)
Definition desc_with (i : nat) (l : list Z) (lk : bool) : desc := Desc (bsz i) (bpa i) l lk.

Lemma take_ok s g L g1 p1 i b l n :
  heap_inv s g L → (i < 7)%nat → 0 < n ≤ bsz i → holds p1 (held g1) →
  core (<[i := b :: l]> (fl s)) (memory p1) g1 L →
  (∀ a j, (a, j) ∈ arenas g1 → b ∈ arena_blocks a j ∨ ∃ b', b' ∈ arena_blocks a j ∧ b' ∈ L.*1) →
  ∃ s' a, take_block i (Heap (<[i := desc_with i (b :: l) true]> (descs s)) p1) = Ret (b, s') ∧
    heap_inv s' g1 ((b, n) :: L) ∧ (a, 1) ∈ own g1 ∧
    ∀ x, ¬ a ≤ x < a + sizeof_arena → mem s' x = memory p1 x.
Proof.
  intros Hs Hi Hn Hh Hc Hbusy. pose proof (hi_len _ _ _ Hs) as Hlen.
  pose proof (holds_own _ _ Hh) as Hsep.
  destruct (c_free _ _ _ _ Hc i b) as (_ & a & Ha & Hb); [rewrite fn_lookup_insert; set_solver|].
  pose proof (arena_page _ Hsep _ _ Ha) as Hp. pose proof (c_arena _ _ _ _ Hc _ _ Ha) as Hhd.
  pose proof (free_count _ _ _ _ Hc Hsep _ _ Ha) as Hcnt. pose proof (desc_bounds i Hi) as (_ & Hbpa & _).
  rewrite fn_lookup_insert in Hhd, Hcnt.
  set (cnt := Z.of_nat (length (free_in a (b :: l)))) in *.
  assert (0 < cnt) by (unfold cnt; rewrite (free_in_cons a i) by done; cbn; lia).
  eexists _, a. split_and!; [|..].
  - eapply (take_block_run (Heap _ p1) a i b l (desc_with i (b :: l) true) cnt); try done; [|lia].
    apply list_lookup_insert_eq. lia.
  - cbn. rewrite list_insert_insert_eq. apply (heap_inv_update s g L); [done|done| | |].
    + by apply holds_set.
    + rewrite memory_set. eapply core_ext; [|eapply (core_take _ _ _ _ Hc Hsep a i b l n);
        [done|done|by rewrite fn_lookup_insert|done|]]; [|by rewrite fn_lookup_insert].
      intros j. destruct (decide (j = i)) as [->|Hne]; [by rewrite !fn_lookup_insert|].
      by rewrite !fn_lookup_insert_ne.
    + intros a' j Ha'. destruct (Hbusy a' j Ha') as [?|(b' & ? & ?)]; [exists b|exists b']; set_solver.
  - by eapply arena_own.
  - intros x Hx. cbn. rewrite mem_with_mem. apply write32_out, within_false.
    unfold a_free_cnt, sizeof_arena in *. lia.
Qed.

(** The pages that a request for [n] bytes needs when no block is free. *)
Definition pages_for (n : Z) : Z :=
  if n <=? 1024 then 1 else (n + sizeof_arena + PGSIZE - 1) / PGSIZE.

(** There are no [n] bytes to be had: none are asked for, so many that their
    pages are not even 4 GB apart, or the page allocator does not have them. *)
Definition full (s : malloc_heap P) (n : Z) : Prop :=
  n = 0 ∨ 2 ^ 32 ≤ n + sizeof_arena + PGSIZE - 1 ∨ ∃ q, get_multiple 0 (pages_for n) (page_state s) = Ret (0, q).

(** What [malloc] has done when it returns [p] for [n] bytes. *)
Definition allocated (s : malloc_heap P) (g : ghost) (L : list (Z * Z)) (n p : Z) (s' : malloc_heap P) : Prop :=
  ∃ g', others g' = others g ∧ intact L (mem s) (mem s') ∧
    ((p = 0 ∧ heap_inv s' g' L ∧ full s n) ∨
     (p ≠ 0 ∧ heap_inv s' g' ((p, n) :: L))).

Lemma slot_nonnull s g L b n : heap_inv s g L → (b, n) ∈ L → b ≠ 0.
Proof.
  intros Hs (_ & q & c & Hsl & _)%(c_live _ _ _ _ (hi_core _ _ _ Hs)).
  destruct (slot_span _ _ _ _ (hi_core _ _ _ Hs) (hi_separate _ _ _ Hs) _ _ _ Hsl) as (Hq & H1 & _).
  pose proof (sep_block _ (hi_separate _ _ _ Hs) _ Hq) as (_ & _ & Hb & _).
  unfold PHYS_BASE, sizeof_arena in *. lia.
Qed.

Lemma malloc_list_ok s g L i n b l :
  heap_inv s g L → (i < 7)%nat → 0 < n ≤ bsz i → fl s i = b :: l →
  ∃ s', take_block i (Heap (<[i := desc_with i (b :: l) true]> (descs s)) (page_state s)) = Ret (b, s') ∧
    allocated s g L n b s'.
Proof.
  intros Hs Hi Hn Hfl. pose proof (hi_busy _ _ _ Hs) as Hb.
  destruct (take_ok s g L g (page_state s) i b l n) as (s' & a & Hr & Hs' & Ha & Hm); try done.
  - apply (hi_holds _ _ _ Hs).
  - eapply core_ext; [|apply (hi_core _ _ _ Hs)]. intros j.
    destruct (decide (j = i)) as [->|Hne]; [by rewrite fn_lookup_insert|by rewrite fn_lookup_insert_ne].
  - intros a j Ha. right. by apply Hb.
  - exists s'. split; [done|]. exists g. split; [done|]. split.
    + by eapply (intact_header s g L (a, 1)).
    + right. split; [|done]. eapply slot_nonnull; [exact Hs'|]. apply elem_of_cons. by left.
Qed.

(** Three stores write a header. *)
Lemma store_header_run {A} s a dp cnt (k : st (malloc_heap P) A) :
  (store_word (a_magic a) ARENA_MAGIC;; store_word (a_desc a) dp;; store_word (a_free_cnt a) cnt;; k) s =
  k (Heap (descs s) (set_memory (write_header (mem s) a dp cnt)
      (page_state (with_mem (write32 (write32 (mem s) (a_magic a) ARENA_MAGIC) (a_desc a) dp)
                (with_mem (write32 (mem s) (a_magic a) ARENA_MAGIC) s))))).
Proof.
  unfold store_word. hstep. rewrite (st_bind_ret _ _ _ _ _ eq_refl). cbv beta. rewrite mem_with_mem.
  rewrite (st_bind_ret _ _ _ _ _ eq_refl). cbv beta. by rewrite mem_with_mem.
Qed.

Lemma malloc_page_ok s g L i n :
  heap_inv s g L → (i < 7)%nat → 0 < n ≤ bsz i → fl s i = [] →
  ∃ p s', (a ← on_pages (get_multiple 0 1);
    if a =? 0 then desc_lock_release i;; mret 0
    else
      store_word (a_magic a) ARENA_MAGIC;; store_word (a_desc a) (Z.of_nat i + 1);;
      store_word (a_free_cnt a) (bpa i);; add_blocks (Z.to_nat (bpa i)) i a 0;; take_block i)
    (Heap (<[i := desc_with i [] true]> (descs s)) (page_state s)) = Ret (p, s') ∧ allocated s g L n p s'.
Proof.
  intros Hs Hi Hn Hfl. pose proof (hi_len _ _ _ Hs) as Hlen. pose proof (desc_bounds i Hi) as (_ & Hbpa & _).
  destruct (get_ok 0 1 (page_state s) (held g)) as (a & p & Hr & Hcase); [apply (hi_holds _ _ _ Hs)|done|done|].
  erewrite st_bind_ret; [|unfold on_pages; cbn [page_state]; rewrite Hr; reflexivity]. cbn [descs].
  destruct Hcase as [(-> & Hh & Hm)|(Ha & Hh & Hm)].
  - cbn. erewrite st_bind_ret; [|apply (desc_lock_release_run _ i (desc_with i [] true)); [|done];
      apply list_lookup_insert_eq; lia].
    eexists 0, _. split; [reflexivity|]. exists g. split; [done|].
    unfold set_descs. cbn. rewrite list_insert_insert_eq. unfold mem at 2. cbn. rewrite Hm. split; [done|]. left.
    split_and!; [done| |right; right; exists p; unfold pages_for; pose proof (desc_bounds i Hi); by rewrite (proj2 (Z.leb_le _ _)) by lia].
    apply (heap_inv_update s g L); [done|done|done| |apply (hi_busy _ _ _ Hs)]. rewrite Hm.
    eapply core_ext; [|apply (hi_core _ _ _ Hs)]. intros j.
    destruct (decide (j = i)) as [->|Hne]; [by rewrite fn_lookup_insert|by rewrite fn_lookup_insert_ne].
  - rewrite (proj2 (Z.eqb_neq _ _) Ha), store_header_run. cbn [descs page_state].
    match goal with |- context [set_memory _ ?q] => set (p1 := set_memory _ q) end.
    set (g1 := Ghost ((a, i) :: arenas g) (bigs g) (others g)).
    assert (holds p1 (held g1)) as Hh1 by (unfold p1; by repeat apply holds_set).
    assert (memory p1 = write_header (memory p) a (Z.of_nat i + 1) (bpa i)) as Hm1 by apply memory_set.
    pose proof (holds_own _ _ Hh1) as Hsep.
    destruct (separate_cons (a, 1) (own g) Hsep) as (Hp & _ & Hap).
    erewrite st_bind_ret; [|eapply (add_blocks_run _ (Heap _ p1) a i (desc_with i [] true) (bpa i) 0);
      [|done|done|apply list_lookup_insert_eq; lia|done|lia|lia]].
    2:{ unfold mem. cbn. rewrite Hm1. apply header_written; lia. }
    unfold set_descs, desc_with, set_free_list. cbn [descs page_state d_free_list d_block_size d_blocks_per_arena d_lock app].
    rewrite list_insert_insert_eq, blocks_from_all by done.
    assert (core (<[i := arena_blocks a i]> (fl s)) (memory p1) g1 L) as Hc1.
    { rewrite Hm1. eapply (core_add_arena _ (memory p) L g a i); try done.
      eapply core_mem; [apply (hi_core _ _ _ Hs)|]. intros q x _ _. by rewrite Hm. }
    destruct (arena_blocks a i) as [|b l] eqn:Eb.
    { pose proof (arena_blocks_length a i Hi) as Hl. rewrite Eb in Hl. cbn in Hl. lia. }
    destruct (take_ok s g L g1 p1 i b l n) as (s' & a' & Hrun & Hs' & Ha' & Hmem); try done.
    { intros a'' j [[= -> ->]|Ha'']%elem_of_cons; [left; rewrite Eb; set_solver|].
      right. by apply (hi_busy _ _ _ Hs). }
    exists b, s'. split; [exact Hrun|]. exists g1. split; [done|]. split.
    + intros b0 n0 x HL Hx. transitivity (memory p1 x).
      * symmetry. eapply (intact_header s' g1 ((b, n) :: L) (a', 1)); [done|done| |by right|done].
        intros y Hy. symmetry. by apply Hmem.
      * eapply (intact_pages s g L (a, 1)); [done|by apply Hap| |done|done].
        intros y Hy. rewrite Hm1. rewrite (only_pages_write_header (a, 1)) by done. by rewrite Hm.
    + right. split; [|done]. eapply slot_nonnull; [exact Hs'|]. apply elem_of_cons. by left.
Qed.

Lemma heap_inv_pages s g L p g' L' :
  heap_inv s g L → holds p (held g') → core (fl s) (memory p) g' L' → busy g' L' →
  heap_inv (Heap (descs s) p) g' L'.
Proof. intros [H1 H2 H3 H4 H5] Hh Hc Hb. by split. Qed.

(** A request for pages, of a size that does not overflow. *)
Lemma page_count n :
  1024 < n → n + sizeof_arena < 2 ^ 32 →
  let cnt := u32 (u32 (n + sizeof_arena) + PGSIZE - 1) / PGSIZE in
  (cnt = 0 ∧ 2 ^ 32 ≤ n + sizeof_arena + PGSIZE - 1) ∨
  cnt = pages_for n ∧ 0 < cnt < 2 ^ 32 ∧ n ≤ 4096 * cnt - sizeof_arena.
Proof.
  intros Hn Hs cnt. unfold cnt, pages_for. rewrite (proj2 (Z.leb_gt _ _)) by lia. change PGSIZE with 4096. unfold sizeof_arena in *. rewrite (u32_id (n + 12)) by lia.
  unfold u32. destruct (decide (n + 12 + 4096 - 1 < 2 ^ 32)).
  - right. rewrite Z.mod_small by lia. zlia.
  - left. zlia.
Qed.

Lemma malloc_big_ok s g L n :
  heap_inv s g L → 1024 < n → n + sizeof_arena < 2 ^ 32 →
  ∃ p s', (let page_cnt := u32 (u32 (n + sizeof_arena) + PGSIZE - 1) / PGSIZE in
    a ← on_pages (get_multiple 0 page_cnt);
    if a =? 0 then mret 0
    else
      store_word (a_magic a) ARENA_MAGIC;; store_word (a_desc a) 0;; store_word (a_free_cnt a) page_cnt;;
      mret (a + sizeof_arena)) s = Ret (p, s') ∧ allocated s g L n p s'.
Proof.
  intros Hs Hn Hsz. cbv zeta. set (cnt := u32 (u32 (n + sizeof_arena) + PGSIZE - 1) / PGSIZE).
  pose proof (page_count n Hn Hsz) as Hc. cbv zeta in Hc. fold cnt in Hc. destruct Hc as [[E Hov]|(Ep & Hcnt & Hcap)].
  { exists 0, s. rewrite E. unfold on_pages.
    erewrite st_bind_ret; [|rewrite get_none; reflexivity]. split; [by destruct s|]. exists g.
    split; [done|]. split; [done|]. left. split_and!; [done|done|]. by right; left. }
  destruct (get_ok 0 cnt (page_state s) (held g)) as (a & p & Hr & Hcase); [apply (hi_holds _ _ _ Hs)|done|done|].
  erewrite st_bind_ret; [|unfold on_pages; rewrite Hr; reflexivity].
  destruct Hcase as [(-> & Hh & Hm)|(Ha & Hh & Hm)].
  - eexists 0, _. split; [reflexivity|]. exists g. split; [done|]. unfold mem at 2. cbn. rewrite Hm.
    split; [done|]. left. split_and!; [done| |right; right; exists p; by rewrite <-Ep].
    apply (heap_inv_pages s g L); [done|done| |apply (hi_busy _ _ _ Hs)]. rewrite Hm. apply (hi_core _ _ _ Hs).
  - rewrite (proj2 (Z.eqb_neq _ _) Ha), store_header_run. cbn [descs page_state].
    match goal with |- context [set_memory _ ?q] => set (p1 := set_memory _ q) end.
    set (g1 := Ghost (arenas g) ((a, cnt) :: bigs g) (others g)).
    assert (holds p1 (held g1)) as Hh1.
    { unfold p1. repeat apply holds_set. eapply holds_perm; [|exact Hh]. unfold held, own. cbn.
      rewrite <-!app_assoc. apply Permutation_middle. }
    assert (memory p1 = write_header (memory p) a 0 cnt) as Hm1 by apply memory_set.
    destruct (separate_cons (a, cnt) (own g)) as (Hp & _ & Hap).
    { eapply separate_perm; [|exact (holds_own _ _ Hh1)]. unfold own. cbn. by rewrite Permutation_middle. }
    eexists _, _. split; [reflexivity|]. exists g1. split; [done|]. split.
    + eapply (intact_pages s g L (a, cnt)); [done|by apply Hap|]. intros y Hy. unfold mem at 1. cbn [page_state].
      rewrite Hm1, (only_pages_write_header (a, cnt)) by done. by rewrite Hm.
    + right. split; [destruct Hp as (_ & _ & Hp & _); cbn in Hp; unfold PHYS_BASE, sizeof_arena in *; lia|].
      apply (heap_inv_pages s g L); [done|done| |].
      * rewrite Hm1. apply core_add_big; [|exact (holds_own _ _ Hh1)|lia|lia].
        eapply core_mem; [apply (hi_core _ _ _ Hs)|]. intros q x _ _. by rewrite Hm.
      * intros a' j Ha'. destruct (hi_busy _ _ _ Hs a' j Ha') as (b & ? & ?). exists b. split; [done|by right].
Qed.

Lemma malloc_ok s g L n :
  heap_inv s g L → 0 ≤ n → n + sizeof_arena < 2 ^ 32 →
  ∃ p s', malloc n s = Ret (p, s') ∧ allocated s g L n p s'.
Proof.
  intros Hs Hn Hsz. unfold malloc. destruct (Z.eqb_spec n 0) as [->|Hn0].
  { exists 0, s. split; [done|]. exists g. split; [done|]. split; [done|]. left. by split_and!; [..|left]. }
  hstep. pose proof (find_desc_spec s g L n Hs) as Hf. destruct (find_desc (descs s) n) as [i|].
  2:{ by apply malloc_big_ok. }
  destruct Hf as [Hi Hle]. destruct (hi_lookup s g L i Hs Hi) as (d & Hd & [Hbs Hbpa] & Hlk & Hfl).
  erewrite st_bind_ret by (by apply desc_lock_acquire_run).
  assert (set_lock true d = desc_with i (fl s i) true) as ->.
  { unfold set_lock, desc_with. by rewrite Hbs, Hbpa, Hfl. }
  erewrite st_bind_ret by (apply get_desc_run, list_lookup_insert_eq; rewrite (hi_len _ _ _ Hs); lia).
  cbn [d_free_list desc_with d_blocks_per_arena]. destruct (fl s i) as [|b l] eqn:Ef.
  - apply malloc_page_ok; try done. lia.
  - destruct (malloc_list_ok s g L i n b l) as (s' & Hr & Ha); [done..|lia|done|]. by exists b, s'.
Qed.

(** ** Freeing *)

Definition freed (s : malloc_heap P) (g : ghost) (L : list (Z * Z)) (s' : malloc_heap P) : Prop :=
  ∃ g', others g' = others g ∧ heap_inv s' g' L ∧ intact L (mem s) (mem s').

Definition filled (b n : Z) (m : Z → Z) : Z → Z := λ x, if within b n x then 0xcc else m x.

(** A change within a block and the header of its pages. *)
Lemma live_bytes s g L1 b n L2 p c m' :
  heap_inv s g (L1 ++ (b, n) :: L2) → slot g p b c →
  (∀ x, ¬ b ≤ x < b + c → ¬ p.1 ≤ x < p.1 + sizeof_arena → m' x = mem s x) →
  intact (L1 ++ L2) (mem s) m'.
Proof.
  intros Hs Hsl Hm b' n' x HL Hx. pose proof (hi_core _ _ _ Hs) as Hc. pose proof (hi_separate _ _ _ Hs) as Hsep.
  assert ((b', n') ∈ L1 ++ (b, n) :: L2) as HL' by set_solver.
  destruct (c_live _ _ _ _ Hc _ _ HL') as (_ & p' & c' & Hsl' & Hn').
  assert (b ≠ b') as Hne.
  { intros <-. pose proof (c_live_nodup _ _ _ _ Hc) as Hnd. rewrite fmap_app in Hnd. cbn in Hnd.
    rewrite <-Permutation_middle, <-fmap_app in Hnd. apply NoDup_cons in Hnd as [Hn _].
    by apply Hn, (list_elem_of_fmap_2 fst _ (b, n')). }
  pose proof (slot_apart _ _ _ _ Hc Hsep _ _ _ _ _ _ Hsl Hsl' Hne). apply Hm; [lia|].
  eapply (slot_not_header _ _ _ _ Hc Hsep _ _ _ p x Hsl'); [|lia]. by eapply slot_span.
Qed.

(** The state of [free] once the block is on the free list. *)
Lemma free_put_run s g L1 b n L2 a i :
  heap_inv s g (L1 ++ (b, n) :: L2) → (a, i) ∈ arenas g → b ∈ arena_blocks a i →
  let c := Z.of_nat (length (free_in a (fl s i))) + 1 in
  ∃ p, free b s =
    ((if bpa i <=? c then
        assertS (c =? bpa i);; remove_blocks (Z.to_nat (bpa i)) i a 0;; on_pages (free_multiple a 1)
      else mret tt);; desc_lock_release i) (Heap (<[i := desc_with i (b :: fl s i) true]> (descs s)) p) ∧
    holds p (held g) ∧ core (<[i := b :: fl s i]> (fl s)) (memory p) g (L1 ++ L2) ∧
    intact (L1 ++ L2) (mem s) (memory p).
Proof.
  intros Hs Ha Hb c. pose proof (hi_core _ _ _ Hs) as Hc. pose proof (hi_separate _ _ _ Hs) as Hsep.
  pose proof (c_index _ _ _ _ Hc _ _ Ha) as Hi. pose proof (c_arena _ _ _ _ Hc _ _ Ha) as Hh.
  destruct (hi_lookup _ _ _ i Hs Hi) as (d & Hd & [Hbs Hbpa] & Hlk & Hfl).
  pose proof (free_count _ _ _ _ Hc Hsep _ _ Ha) as Hcnt. pose proof (desc_bounds i Hi) as (Hbz & Hbp & _).
  pose proof (arena_page _ Hsep _ _ Ha) as Hpg. pose proof (slot_small g a i b Ha Hb) as Hsl.
  assert (b ≠ 0) as Hb0 by (eapply (slot_nonnull s g _ b n); [done|set_solver]).
  unfold free. rewrite (proj2 (Z.eqb_neq _ _) Hb0).
  erewrite st_bind_ret by (by eapply block_to_arena_run).
  hstep. destruct Hh as (Hh1 & Hh2 & Hh3). rewrite Hh2, (proj2 (Z.eqb_neq _ _)) by lia.
  erewrite st_bind_ret by (by apply deref_desc_run). rewrite Hbs, Hbpa.
  replace (Z.to_nat (Z.of_nat i + 1 - 1)) with i by lia.
  hstep. set (m1 := filled b (bsz i) (mem s)). change (λ x : Z, if within b (bsz i) x then 204 else mem s x) with m1.
  erewrite st_bind_ret by (by apply desc_lock_acquire_run).
  erewrite st_bind_ret; [|unfold free_list_push_front; erewrite st_bind_ret;
    [|apply get_desc_run, list_lookup_insert_eq, (lookup_lt_Some _ _ _ Hd)]; reflexivity].
  assert (core (fl s) m1 g (L1 ++ (b, n) :: L2)) as Hc1.
  { eapply core_mem; [exact Hc|]. intros q x Hq Hx. unfold m1, filled. case_match eqn:E; [|done].
    apply within_spec in E. by destruct (slot_not_header _ _ _ _ Hc Hsep _ _ _ q x Hsl Hq E). }
  hstep. match goal with |- context [read32 (mem ?x)] => change (mem x) with (memory (set_memory m1 (page_state s))) end.
  destruct (c_arena _ _ _ _ Hc1 _ _ Ha) as (_ & _ & Hh4). rewrite memory_set, Hh4, u32_id by lia.
  hstep. fold c. eexists. split_and!.
  - unfold with_mem, set_descs. cbn [descs page_state]. rewrite list_insert_insert_eq.
    replace (set_free_list _ _) with (desc_with i (b :: fl s i) true); [reflexivity|].
    unfold desc_with, set_free_list, set_lock. cbn. by rewrite Hbs, Hbpa, Hfl.
  - repeat apply holds_set. apply (hi_holds _ _ _ Hs).
  - rewrite memory_set. eapply (core_put _ m1); [exact Hc1|done|done|done|done|].
    unfold mem. cbn. by rewrite memory_set.
  - rewrite memory_set. eapply (live_bytes s g L1 b n L2); [done..|]. cbn. intros x Hx1 Hx2.
    rewrite write32_out by (apply within_false; unfold a_free_cnt, sizeof_arena in *; lia).
    unfold mem. cbn. rewrite memory_set. unfold m1, filled. by rewrite (proj2 (within_false _ _ _)).
Qed.

Lemma busy_other s g L1 b n L2 a i a' j :
  heap_inv s g (L1 ++ (b, n) :: L2) → (a, i) ∈ arenas g → b ∈ arena_blocks a i →
  (a', j) ∈ arenas g → a' ≠ a → ∃ b', b' ∈ arena_blocks a' j ∧ b' ∈ (L1 ++ L2).*1.
Proof.
  intros Hs Ha Hb Ha' Hne. destruct (hi_busy _ _ _ Hs a' j Ha') as (b' & Hb' & HL). exists b'. split; [done|].
  rewrite fmap_app in *. cbn in HL. assert (b' ≠ b); [|set_solver]. intros ->.
  by destruct (block_arena_unique _ _ _ _ (hi_core _ _ _ Hs) (hi_separate _ _ _ Hs) a i a' j b).
Qed.

(** The block that is put back is the last one of its arena in use. *)
Lemma free_drop_ok s g L1 b n L2 a i p :
  heap_inv s g (L1 ++ (b, n) :: L2) → (a, i) ∈ arenas g → b ∈ arena_blocks a i → holds p (held g) →
  core (<[i := b :: fl s i]> (fl s)) (memory p) g (L1 ++ L2) → intact (L1 ++ L2) (mem s) (memory p) →
  Z.of_nat (length (free_in a (b :: fl s i))) = bpa i →
  ∃ s', ((remove_blocks (Z.to_nat (bpa i)) i a 0;; on_pages (free_multiple a 1));; desc_lock_release i)
          (Heap (<[i := desc_with i (b :: fl s i) true]> (descs s)) p) = Ret (tt, s') ∧
    freed s g (L1 ++ L2) s'.
Proof.
  intros Hs Ha Hb Hh Hc Hint Hcnt. pose proof (hi_separate _ _ _ Hs) as Hsep. pose proof (hi_len _ _ _ Hs) as Hlen.
  pose proof (c_index _ _ _ _ Hc _ _ Ha) as Hi. pose proof (arena_page _ Hsep _ _ Ha) as Hpg.
  pose proof (desc_bounds i Hi) as (_ & Hbpa & _). pose proof (c_arena _ _ _ _ Hc _ _ Ha) as Hhd.
  assert (∀ b', b' ∈ arena_blocks a i → b' ∈ b :: fl s i) as Hall.
  { intros b' Hb'. rewrite <-(fn_lookup_insert (fl s) i (b :: fl s i)).
    eapply arena_idle; [exact Hc|done|done|by rewrite fn_lookup_insert|done]. }
  set (ds := <[i := desc_with i (b :: fl s i) true]> (descs s)).
  assert (ds !! i = Some (desc_with i (b :: fl s i) true)) as Hds by (apply list_lookup_insert_eq; lia).
  pose proof Ha as (A1 & A2 & EA)%list_elem_of_split.
  set (g' := Ghost (A1 ++ A2) (bigs g) (others g)).
  destruct (separate_cons (a, 1) (own g')) as (_ & _ & Hap).
  { eapply separate_perm; [|exact Hsep]. by apply (own_arena g A1 a i A2). }
  destruct (free_ok a 1 p (held g')) as (p' & Hr & Hh' & Hm').
  { eapply holds_perm; [|exact Hh]. unfold held. by rewrite (own_arena g A1 a i A2). }
  assert (heap_inv (Heap (<[i := desc_with i (filter (λ b', b' ∉ arena_blocks a i) (b :: fl s i)) false]> (descs s)) p')
    g' (L1 ++ L2)) as Hs'.
  { apply (heap_inv_update s g (L1 ++ (b, n) :: L2)); [done|done|done| |].
    - eapply core_ext; [|eapply (core_drop_arena _ (memory p) (L1 ++ L2) g A1 A2 a i); try done].
      + intros j. destruct (decide (j = i)) as [->|Hne]; [by rewrite !fn_lookup_insert|].
        by rewrite !fn_lookup_insert_ne.
      + intros b' Hb'%Hall HL. apply (c_free _ _ _ _ Hc i b'); [|done]. by rewrite fn_lookup_insert.
    - intros a' j Ha'. eapply (busy_other s g L1 b n L2 a i); [done..|rewrite EA; set_solver|].
      destruct (Hap (a', 1)) as [Hpp _]; [by eapply (arena_own g')|]. unfold pages_apart in Hpp. cbn in Hpp. lia. }
  eexists. split; [|exists g'; split; [done|]; split; [exact Hs'|]].
  - erewrite st_bind_ret.
    2:{ erewrite st_bind_ret; [|eapply (remove_blocks_run _ (Heap ds p) a i); try done;
        [lia|rewrite blocks_from_all by done; exact Hall]].
      rewrite blocks_from_all by done. unfold on_pages, set_descs. cbn [page_state descs]. rewrite Hr. reflexivity. }
    erewrite desc_lock_release_run; [|apply list_lookup_insert_eq; unfold ds; rewrite length_insert; lia|done].
    unfold set_descs, ds. cbn. by rewrite !list_insert_insert_eq.
  - intros b' n' x HL Hx. rewrite <-(Hint b' n' x HL Hx). symmetry.
    eapply (intact_pages _ _ _ (a, 1) (memory p) Hs'); [by apply Hap| |done|done].
    intros y Hy. symmetry. by apply Hm'.
Qed.

Lemma free_small_ok s g L1 b n L2 a i :
  heap_inv s g (L1 ++ (b, n) :: L2) → (a, i) ∈ arenas g → b ∈ arena_blocks a i →
  ∃ s', free b s = Ret (tt, s') ∧ freed s g (L1 ++ L2) s'.
Proof.
  intros Hs Ha Hb. pose proof (hi_separate _ _ _ Hs) as Hsep. pose proof (hi_len _ _ _ Hs) as Hlen.
  destruct (free_put_run s g L1 b n L2 a i Hs Ha Hb) as (p & -> & Hh & Hc & Hint).
  pose proof (c_index _ _ _ _ Hc _ _ Ha) as Hi. pose proof (arena_page _ Hsep _ _ Ha) as Hpg.
  set (c := Z.of_nat (length (free_in a (fl s i))) + 1).
  assert (Z.of_nat (length (free_in a (b :: fl s i))) = c) as Ec.
  { rewrite (free_in_cons a i) by done. cbn [length]. unfold c. lia. }
  pose proof (free_count _ _ _ _ Hc Hsep _ _ Ha) as Hcnt. rewrite fn_lookup_insert, Ec in Hcnt.
  destruct (Z.leb_spec (bpa i) c) as [Hge|Hlt].
  - destruct (free_drop_ok s g L1 b n L2 a i p) as (s' & Hr & Hf); [done..|lia|]. exists s'. split; [|done].
    rewrite (proj2 (Z.eqb_eq c (bpa i))) by lia. exact Hr.
  - eexists. split.
    + hstep. erewrite desc_lock_release_run; [|apply list_lookup_insert_eq; lia|done]. reflexivity.
    + unfold set_descs. cbn. rewrite list_insert_insert_eq. exists g. split; [done|]. split; [|done].
      apply (heap_inv_update s g (L1 ++ (b, n) :: L2)); [done..|]. intros a' j Ha'.
      destruct (decide (a' = a)) as [->|Hne]; [|by apply (busy_other s g L1 b n L2 a i)].
      pose proof (arena_desc _ _ _ _ Hc _ _ _ Ha Ha') as <-.
      eapply arena_busy; [exact Hc|done|done|]. by rewrite fn_lookup_insert, Ec.
Qed.

Lemma free_big_ok s g L1 n L2 a cnt :
  heap_inv s g (L1 ++ (a + sizeof_arena, n) :: L2) → (a, cnt) ∈ bigs g →
  ∃ s', free (a + sizeof_arena) s = Ret (tt, s') ∧ freed s g (L1 ++ L2) s'.
Proof.
  intros Hs Hb. pose proof (hi_separate _ _ _ Hs) as Hsep. pose proof (hi_core _ _ _ Hs) as Hc.
  destruct (c_big _ _ _ _ Hc _ _ Hb) as [Hh _]. pose proof (sep_block _ Hsep _ (big_own _ _ Hb)) as Hp.
  assert (a + sizeof_arena ≠ 0) as Hb0 by (eapply (slot_nonnull s g _ _ n); [done|set_solver]).
  unfold free. rewrite (proj2 (Z.eqb_neq _ _) Hb0). erewrite st_bind_ret by (by eapply block_to_arena_big).
  destruct Hh as (Hh1 & Hh2 & Hh3). hstep. rewrite Hh2. cbn [Z.eqb]. hstep. rewrite Hh3.
  pose proof Hb as (B1 & B2 & EB)%list_elem_of_split. set (g' := Ghost (arenas g) (B1 ++ B2) (others g)).
  assert (own g ≡ₚ (a, cnt) :: own g') as Eo.
  { unfold own. cbn. rewrite EB. by rewrite Permutation_middle, <-!Permutation_middle. }
  destruct (separate_cons (a, cnt) (own g')) as (_ & _ & Hap); [by eapply separate_perm|].
  destruct (free_ok a cnt (page_state s) (held g')) as (p' & Hr & Hh' & Hm').
  { eapply holds_perm; [|exact (hi_holds _ _ _ Hs)]. unfold held. by rewrite Eo. }
  assert (heap_inv (Heap (descs s) p') g' (L1 ++ L2)) as Hs'.
  { apply (heap_inv_pages s g (L1 ++ (a + sizeof_arena, n) :: L2)); [done|done| |].
    - by eapply (core_drop_big _ (mem s) _ g B1 B2 a cnt n).
    - intros a' j Ha'. destruct (hi_busy _ _ _ Hs a' j Ha') as (b' & Hb' & HL). exists b'. split; [done|].
      rewrite fmap_app in *. cbn in HL. assert (b' ≠ a + sizeof_arena); [|set_solver]. intros ->.
      destruct (slot_arena _ _ _ _ Hc Hsep a' j _ _ _ Ha' Hb' (slot_big g a cnt Hb)) as [[= -> ->] _].
      by eapply arena_not_big. }
  eexists. split; [unfold on_pages; by rewrite Hr|]. exists g'. split; [done|]. split; [done|].
  intros b' n' x HL Hx. symmetry. eapply (intact_pages _ _ _ (a, cnt) (mem s) Hs'); [by apply Hap| |done|done].
  intros y Hy. symmetry. by apply Hm'.
Qed.

Lemma free_block_ok s g L1 b n L2 :
  heap_inv s g (L1 ++ (b, n) :: L2) → ∃ s', free b s = Ret (tt, s') ∧ freed s g (L1 ++ L2) s'.
Proof.
  intros Hs. destruct (c_live _ _ _ _ (hi_core _ _ _ Hs) b n) as (_ & q & c & Hsl & _); [set_solver|].
  destruct Hsl as [a i b Ha Hb|a cnt Hb]; [by eapply free_small_ok|by eapply free_big_ok].
Qed.
End malloc_heap.
