(* ===== verification/MallocRefine.v ===== *)
(** * What the clients of [malloc] see

    A heap is a set of disjoint blocks with their contents.  The allocator
    simulates it: [malloc], [calloc], [realloc] and [free] return without a
    failed assertion, do to the blocks what their comments say and leave the
    contents of all others alone; once every block is free, so is every page.
    The sizes for which the computation of the number of pages, or of the
    product, overflows are the exception. *)

From stdpp Require Import functions.
From stdpp Require Import base tactics list numbers option sets.
From Stdlib Require Import ZArith Lia.
From S2P Require Import Prelude Vaddr PageAlloc Malloc MallocInv MallocSpec.

(** ** The specification *)

(** The blocks in use with their contents. *)
Definition blocks : Type := list (Z * list Z).

Inductive hop : Type :=
| Malloc (n : Z)
| Calloc (a b : Z)
| Realloc (p n : Z)
| Free (p : Z)
| Write (p k v : Z).

(** [full n]: there are no [n] bytes to be had. *)
Inductive hspec (full : Z → Prop) : blocks → hop → Z → blocks → Prop :=
| spec_malloc_null B n : full n → hspec full B (Malloc n) 0 B
| spec_malloc B n p bs :
    p ≠ 0 → n ≠ 0 → Z.of_nat (length bs) = n → hspec full B (Malloc n) p ((p, bs) :: B)
| spec_calloc_null B a b : full (a * b) → hspec full B (Calloc a b) 0 B
| spec_calloc B a b p :
    p ≠ 0 → hspec full B (Calloc a b) p ((p, replicate (Z.to_nat (a * b)) 0) :: B)
| spec_free_null B : hspec full B (Free 0) 0 B
| spec_free B1 p bs B2 : hspec full (B1 ++ (p, bs) :: B2) (Free p) 0 (B1 ++ B2)
| spec_realloc_malloc B n r B' : n ≠ 0 → hspec full B (Malloc n) r B' → hspec full B (Realloc 0 n) r B'
| spec_realloc_free B p B' : hspec full B (Free p) 0 B' → hspec full B (Realloc p 0) 0 B'
| spec_realloc_null B p n : full n → n ≠ 0 → hspec full B (Realloc p n) 0 B
| spec_realloc B1 p bs B2 n r bs' :
    r ≠ 0 → n ≠ 0 → Z.of_nat (length bs') = n →
    (let k := Nat.min (length bs) (length bs') in take k bs' = take k bs) →
    hspec full (B1 ++ (p, bs) :: B2) (Realloc p n) r ((r, bs') :: B1 ++ B2)
| spec_write B1 p bs B2 k v :
    hspec full (B1 ++ (p, bs) :: B2) (Write p k v) 0 (B1 ++ (p, <[Z.to_nat k := v]> bs) :: B2).

(** What a client may ask for: sizes that leave room for the header, blocks
    it has, bytes of them. *)
Definition legal (B : blocks) (o : hop) : Prop :=
  match o with
  | Malloc n => 0 ≤ n ∧ n + sizeof_arena < 2 ^ 32
  | Calloc a b => 0 ≤ a < 2 ^ 32 ∧ 0 ≤ b < 2 ^ 32 ∧ a * b + sizeof_arena < 2 ^ 32
  | Realloc p n => (p = 0 ∨ p ∈ B.*1) ∧ 0 ≤ n ∧ n + sizeof_arena < 2 ^ 32
  | Free p => p = 0 ∨ p ∈ B.*1
  | Write p k v => ∃ bs, (p, bs) ∈ B ∧ 0 ≤ k < Z.of_nat (length bs)
  end.

Section refine.
Context {P : Type} `{!PageAllocator P}.
Implicit Types s : malloc_heap P.

Definition run_hop (o : hop) : st (malloc_heap P) Z :=
  match o with
  | Malloc n => malloc n
  | Calloc a b => calloc a b
  | Realloc p n => realloc p n
  | Free p => free p;; mret 0
  | Write p k v => modifyS (λ s, with_mem (λ x, if x =? p + k then v else mem s x) s);; mret 0
  end.

Definition read_bytes (m : Z → Z) (b : Z) (n : nat) : list Z :=
  (λ k, m (b + Z.of_nat k)) <$> seq 0 n.

Definition has_contents (s : malloc_heap P) (B : blocks) : Prop :=
  ∀ b bs, (b, bs) ∈ B → read_bytes (mem s) b (length bs) = bs.

(** A relation that makes the allocator an implementation of the heap, over
    the blocks of pages [O] that others hold. *)
Record simulation (O : list (Z * Z)) (R : malloc_heap P → blocks → Prop) : Prop := Simulation {
  sim_step : ∀ s B o, R s B → legal B o →
    ∃ r s' B', run_hop o s = Ret (r, s') ∧ hspec (full s) B o r B' ∧ R s' B';
  sim_contents : ∀ s B, R s B → has_contents s B;
  sim_apart : ∀ s B1 b bs B2 b' bs', R s (B1 ++ (b, bs) :: B2) → (b', bs') ∈ B1 ++ B2 →
    b + Z.of_nat (length bs) ≤ b' ∨ b' + Z.of_nat (length bs') ≤ b;
  sim_no_leak : ∀ s, R s [] → holds (page_state s) O
}.

(** ** Contents of blocks *)

Definition sizes (B : blocks) : list (Z * Z) := (λ x, (x.1, Z.of_nat (length x.2))) <$> B.

Lemma sizes_fst B : (sizes B).*1 = B.*1.
Proof. unfold sizes. rewrite <-list_fmap_compose. done. Qed.

Lemma elem_of_sizes B b bs : (b, bs) ∈ B → (b, Z.of_nat (length bs)) ∈ sizes B.
Proof. intros H. apply list_elem_of_fmap. by exists (b, bs). Qed.

Lemma sizes_app B1 B2 : sizes (B1 ++ B2) = sizes B1 ++ sizes B2.
Proof. apply fmap_app. Qed.

Lemma read_bytes_length m b n : length (read_bytes m b n) = n.
Proof. unfold read_bytes. by rewrite length_fmap, length_seq. Qed.

Lemma read_bytes_lookup m b n k : (k < n)%nat → read_bytes m b n !! k = Some (m (b + Z.of_nat k)).
Proof. intros H. unfold read_bytes. by rewrite list_lookup_fmap, lookup_seq_lt. Qed.

Lemma read_bytes_ext m m' b n :
  (∀ x, b ≤ x < b + Z.of_nat n → m x = m' x) → read_bytes m b n = read_bytes m' b n.
Proof.
  intros H. apply list_fmap_ext. intros i k Hk. apply lookup_seq in Hk as [-> Hk]. apply H. lia.
Qed.

Lemma intact_contents s s' B B' :
  intact (sizes B') (mem s) (mem s') → (∀ x, x ∈ B' → x ∈ B) → has_contents s B → has_contents s' B'.
Proof.
  intros Hi Hsub Hc b bs Hb. rewrite <-(Hc b bs) at 2 by auto. apply read_bytes_ext.
  intros x Hx. by eapply Hi; [by apply elem_of_sizes|].
Qed.

Definition heap_rel (O : list (Z * Z)) (s : malloc_heap P) (B : blocks) : Prop :=
  has_contents s B ∧ ∃ g, others g = O ∧ heap_inv s g (sizes B).

(** A new block has the contents that memory has. *)
Lemma has_contents_cons s b n B :
  has_contents s B → has_contents s ((b, read_bytes (mem s) b n) :: B).
Proof.
  intros H b' bs [[= -> ->]|Hb]%elem_of_cons; [by rewrite read_bytes_length|by apply H].
Qed.

(** ** The operations *)

Lemma malloc_rel O s B n :
  heap_rel O s B → 0 ≤ n → n + sizeof_arena < 2 ^ 32 →
  ∃ r s', malloc n s = Ret (r, s') ∧ intact (sizes B) (mem s) (mem s') ∧
    ((r = 0 ∧ heap_rel O s' B ∧ full s n) ∨
     (r ≠ 0 ∧ n ≠ 0 ∧ heap_rel O s' ((r, read_bytes (mem s') r (Z.to_nat n)) :: B))).
Proof.
  intros [Hc (g & HO & Hs)] Hn Hsz. destruct (malloc_ok s g _ n Hs Hn Hsz) as (r & s' & Hr & g' & HO' & Hi & Hcase).
  assert (has_contents s' B) as Hc' by (by eapply intact_contents).
  exists r, s'. split; [done|]. split; [done|]. destruct Hcase as [(-> & Hs' & Hz)|[Hr0 Hs']].
  - left. split; [done|]. split; [|done]. split; [done|]. exists g'. split; [congruence|done].
  - right. destruct (c_live _ _ _ _ (hi_core _ _ _ Hs') r n) as [Hpos _]; [set_solver|].
    split; [done|]. split; [lia|]. split; [by apply has_contents_cons|]. exists g'. split; [congruence|].
    cbn. by rewrite read_bytes_length, Z2Nat.id by lia.
Qed.

Lemma free_rel O s B1 p bs B2 :
  heap_rel O s (B1 ++ (p, bs) :: B2) → ∃ s', free p s = Ret (tt, s') ∧ heap_rel O s' (B1 ++ B2).
Proof.
  intros [Hc (g & HO & Hs)]. rewrite sizes_app in Hs.
  destruct (free_block_ok s g _ _ _ _ Hs) as (s' & Hr & g' & HO' & Hs' & Hi). rewrite <-sizes_app in *.
  exists s'. split; [done|]. split; [|exists g'; split; [congruence|done]].
  eapply intact_contents; [exact Hi| |exact Hc]. set_solver.
Qed.

(** Bytes of a block that is in use may change. *)
Lemma write_rel O s B1 b bs B2 m' :
  heap_rel O s (B1 ++ (b, bs) :: B2) →
  (∀ x, ¬ b ≤ x < b + Z.of_nat (length bs) → m' x = mem s x) →
  heap_rel O (with_mem m' s) (B1 ++ (b, read_bytes m' b (length bs)) :: B2).
Proof.
  intros [Hc (g & HO & Hs)] Hm. pose proof (hi_core _ _ _ Hs) as Hco. pose proof (hi_separate _ _ _ Hs) as Hsep.
  assert (sizes (B1 ++ (b, read_bytes m' b (length bs)) :: B2) = sizes (B1 ++ (b, bs) :: B2)) as Esz.
  { rewrite !sizes_app. cbn. by rewrite read_bytes_length. }
  destruct (c_live _ _ _ _ Hco b (Z.of_nat (length bs))) as (_ & q & c & Hsl & Hlen).
  { apply elem_of_sizes. set_solver. }
  split.
  - rewrite sizes_app in Hs. intros b' bs' Hb. rewrite mem_with_mem.
    assert ((b', bs') = (b, read_bytes m' b (length bs)) ∨ (b', bs') ∈ B1 ++ B2) as [[= -> ->]|Hb'] by set_solver.
    { by rewrite read_bytes_length. }
    rewrite <-(Hc b' bs') at 2 by set_solver. apply read_bytes_ext. intros x Hx.
    eapply (live_bytes s g _ _ _ _ _ _ _ Hs Hsl); [|rewrite <-sizes_app; by apply elem_of_sizes|done].
    cbn. intros y Hy _. apply Hm. lia.
  - exists g. split; [done|]. rewrite Esz. apply (heap_inv_pages s g _ _ _ _ Hs).
    + apply holds_set, (hi_holds _ _ _ Hs).
    + rewrite memory_set. eapply core_mem; [exact Hco|]. intros p x Hp Hx. apply Hm. intros Hx'.
      eapply (slot_not_header _ _ _ _ Hco Hsep _ _ _ p x Hsl Hp); [lia|done].
    + apply (hi_busy _ _ _ Hs).
Qed.

Lemma write_step O s B1 p bs B2 k v :
  heap_rel O s (B1 ++ (p, bs) :: B2) → 0 ≤ k < Z.of_nat (length bs) →
  heap_rel O (with_mem (λ x, if x =? p + k then v else mem s x) s) (B1 ++ (p, <[Z.to_nat k := v]> bs) :: B2).
Proof.
  intros HR Hk. set (m' := λ x, if x =? p + k then v else mem s x).
  assert (read_bytes m' p (length bs) = <[Z.to_nat k := v]> bs) as <-.
  2:{ apply write_rel; [done|]. intros x Hx. unfold m'. by rewrite (proj2 (Z.eqb_neq _ _)) by lia. }
  destruct HR as [Hc _]. apply list_eq_same_length with (length bs);
    [by rewrite length_insert|by rewrite read_bytes_length|].
  intros i x y Hi Hx Hy. rewrite read_bytes_lookup in Hx by done. injection Hx as <-. unfold m'.
  destruct (decide (i = Z.to_nat k)) as [->|Hne].
  - rewrite list_lookup_insert_eq in Hy by lia. injection Hy as <-. by rewrite (proj2 (Z.eqb_eq _ _)) by lia.
  - rewrite list_lookup_insert_ne in Hy by done. rewrite (proj2 (Z.eqb_neq _ _)) by lia.
    rewrite <-(Hc p bs), read_bytes_lookup in Hy by (done || set_solver). by injection Hy.
Qed.

Lemma calloc_rel O s B a b :
  heap_rel O s B → 0 ≤ a < 2 ^ 32 → 0 ≤ b < 2 ^ 32 → a * b + sizeof_arena < 2 ^ 32 →
  ∃ r s', calloc a b s = Ret (r, s') ∧
    ((r = 0 ∧ heap_rel O s' B ∧ full s (a * b)) ∨ (r ≠ 0 ∧ heap_rel O s' ((r, replicate (Z.to_nat (a * b)) 0) :: B))).
Proof.
  intros HR Ha Hb Hsz. unfold calloc. rewrite u32_id by (unfold sizeof_arena in *; nia).
  destruct ((a * b <? a) || (a * b <? b)) eqn:Elt.
  { exists 0, s. split; [done|]. left. split_and!; [done..|left]. 
    destruct (decide (a = 0)) as [->|], (decide (b = 0)) as [->|]; [lia..|]. exfalso.
    apply orb_true_iff in Elt as [?%Z.ltb_lt|?%Z.ltb_lt]; nia. }
  destruct (malloc_rel O s B (a * b) HR ltac:(nia) Hsz) as (r & s' & Hr & _ & Hcase).
  erewrite st_bind_ret by exact Hr. destruct Hcase as [(-> & HR' & Hf)|(Hr0 & Hn & HR')].
  { exists 0, s'. by split; [|left]. }
  rewrite (proj2 (Z.eqb_neq _ _) Hr0). eexists r, _. split; [reflexivity|]. right. split; [done|].
  set (m' := λ x, if within r (a * b) x then 0 else mem s' x).
  pose proof (write_rel O s' [] r _ B m' HR') as HW. rewrite read_bytes_length in HW. cbn in HW.
  replace (replicate _ _) with (read_bytes m' r (Z.to_nat (a * b))).
  - apply HW. intros x Hx. unfold m'. rewrite (proj2 (within_false _ _ _)); [done|lia].
  - symmetry. apply replicate_as_Forall. split; [by rewrite read_bytes_length|]. apply Forall_lookup. intros i x Hi.
    pose proof (lookup_lt_Some _ _ _ Hi) as Hlt. rewrite read_bytes_length in Hlt.
    rewrite read_bytes_lookup in Hi by done. injection Hi as <-. unfold m'. by rewrite (proj2 (within_spec _ _ _)) by lia.
Qed.

Lemma block_size_run s g L b n q c :
  heap_inv s g L → (b, n) ∈ L → slot g q b c → block_size b s = Ret (c, s).
Proof.
  intros Hs HL Hsl. pose proof (hi_core _ _ _ Hs) as Hc. pose proof (hi_separate _ _ _ Hs) as Hsep. unfold block_size.
  destruct Hsl as [a i b Ha Hb|a cnt Hb].
  - pose proof (c_index _ _ _ _ Hc _ _ Ha) as Hi. pose proof (c_arena _ _ _ _ Hc _ _ Ha) as Hh.
    destruct (hi_lookup _ _ _ i Hs Hi) as (d & Hd & [Hbs ?] & _).
    erewrite st_bind_ret by (eapply block_to_arena_run; try done; by eapply arena_page).
    hstep. destruct Hh as (_ & -> & _). rewrite (proj2 (Z.eqb_neq _ _)) by lia.
    erewrite st_bind_ret by (by apply deref_desc_run). by rewrite Hbs.
  - destruct (c_big _ _ _ _ Hc _ _ Hb) as [Hh _]. pose proof (sep_block _ Hsep _ (big_own _ _ Hb)) as Hp.
    erewrite st_bind_ret by (by eapply block_to_arena_big).
    hstep. destruct Hh as (_ & -> & Hcnt). cbn [Z.eqb]. hstep. rewrite Hcnt.
    destruct Hp as (Ha & Hc0 & Hpb & Hend). cbn in *. rewrite pg_ofs_mod. change PGSIZE with 4096.
    unfold PHYS_BASE, sizeof_arena in *. rewrite (u32_id (4096 * cnt)) by lia.
    replace ((a + 12) mod 4096) with 12 by zlia. by rewrite u32_id by lia.
Qed.

Lemma realloc_rel O s B1 p bs B2 n :
  heap_rel O s (B1 ++ (p, bs) :: B2) → 0 < n → n + sizeof_arena < 2 ^ 32 →
  ∃ r s', realloc p n s = Ret (r, s') ∧
    ((r = 0 ∧ heap_rel O s' (B1 ++ (p, bs) :: B2) ∧ full s n) ∨
     (r ≠ 0 ∧ ∃ bs', Z.of_nat (length bs') = n ∧
       (let k := Nat.min (length bs) (length bs') in take k bs' = take k bs) ∧
       heap_rel O s' ((r, bs') :: B1 ++ B2))).
Proof.
  intros HR Hn Hsz. set (B := B1 ++ (p, bs) :: B2) in *. unfold realloc.
  rewrite (proj2 (Z.eqb_neq n 0)) by lia.
  destruct (malloc_rel O s B n HR ltac:(lia) Hsz) as (r & s1 & Hr & _ & Hcase).
  erewrite st_bind_ret by exact Hr. destruct Hcase as [(-> & HR1 & Hf)|(Hr0 & _ & HR1)].
  { exists 0, s1. rewrite andb_false_r. by split; [|left]. }
  pose proof HR1 as [Hc1 (g & HO & Hs1)].
  assert ((p, Z.of_nat (length bs)) ∈ sizes B) as Hp by (apply elem_of_sizes; set_solver).
  cbn in Hs1. rewrite read_bytes_length, Z2Nat.id in Hs1 by lia.
  assert (p ≠ 0) as Hp0 by (eapply slot_nonnull; [exact Hs1|by right]).
  rewrite !(proj2 (Z.eqb_neq _ _)) by done. cbn [negb andb].
  pose proof (hi_core _ _ _ Hs1) as Hco. pose proof (c_live_nodup _ _ _ _ Hco) as [Hrp _]%NoDup_cons.
  destruct (c_live _ _ _ _ Hco p (Z.of_nat (length bs))) as (_ & q & c & Hsl & Hcap); [by right|].
  destruct (c_live _ _ _ _ Hco r n) as (_ & q' & c' & Hsl' & Hcap'); [by left|].
  assert (r ≠ p) as Hne by (intros ->; apply Hrp; by apply (list_elem_of_fmap_2 fst) in Hp).
  pose proof (slot_apart _ _ _ _ Hco (hi_separate _ _ _ Hs1) _ _ _ _ _ _ Hsl' Hsl Hne) as Hap.
  set (k := if n <? c then n else c).
  assert (k ≤ n ∧ k ≤ c ∧ (k = n ∨ k = c)) as Hk by (unfold k; destruct (Z.ltb_spec n c); lia).
  set (m' := λ x, if within r k x then mem s1 (p + (x - r)) else mem s1 x).
  pose proof (write_rel O s1 [] r _ B m' HR1) as HW. rewrite read_bytes_length in HW. cbn [app] in HW.
  destruct (free_rel O (with_mem m' s1) ((r, read_bytes m' r (Z.to_nat n)) :: B1) p bs B2) as (s2 & Hr2 & HR2).
  { apply HW. intros x Hx. unfold m'. rewrite (proj2 (within_false _ _ _)); [done|lia]. }
  exists r, s2. split.
  { erewrite st_bind_ret; [reflexivity|].
    erewrite st_bind_ret by (eapply block_size_run; [exact Hs1|by right|exact Hsl]).
    erewrite st_bind_ret; [exact Hr2|]. unfold mem_copy. fold k.
    hstep_by ltac:(apply orb_true_iff; left; apply orb_true_iff; rewrite !Z.leb_le; lia). done. }
  right. split; [done|]. exists (read_bytes m' r (Z.to_nat n)).
  split; [rewrite read_bytes_length; lia|]. split; [|done].
  rewrite read_bytes_length. cbv zeta. apply list_eq. intros i.
  destruct (decide (i < Nat.min (length bs) (Z.to_nat n))%nat) as [Hi|Hi].
  2:{ rewrite !lookup_take_ge by lia. done. }
  rewrite !lookup_take_lt, read_bytes_lookup by lia. unfold m'. rewrite (proj2 (within_spec _ _ _)) by lia.
  rewrite <-(Hc1 p bs), read_bytes_lookup by (lia || set_solver). do 2 f_equal. lia.
Qed.

Lemma heap_step O s B o :
  heap_rel O s B → legal B o → ∃ r s' B', run_hop o s = Ret (r, s') ∧ hspec (full s) B o r B' ∧ heap_rel O s' B'.
Proof.
  intros HR Hl.
  assert (∀ n, legal B (Malloc n) →
    ∃ r s' B', malloc n s = Ret (r, s') ∧ hspec (full s) B (Malloc n) r B' ∧ heap_rel O s' B') as Hmalloc.
  { intros n [Hn Hsz]. destruct (malloc_rel O s B n HR Hn Hsz) as (r & s' & Hr & _ & [(-> & HR' & Hf)|(Hr0 & Hn0 & HR')]).
    - exists 0, s', B. split_and!; [done|by constructor|done].
    - eexists r, s', _. split_and!; [done| |done]. constructor; [done..|]. rewrite read_bytes_length. lia. }
  assert (∀ p, legal B (Free p) →
    ∃ s' B', free p s = Ret (tt, s') ∧ hspec (full s) B (Free p) 0 B' ∧ heap_rel O s' B') as Hfree.
  { intros p [->|([p' bs] & -> & (B1 & B2 & ->)%list_elem_of_split)%list_elem_of_fmap].
    - exists s, B. split_and!; [done|constructor|done].
    - destruct (free_rel O s B1 p' bs B2 HR) as (s' & Hr & HR'). exists s', (B1 ++ B2). split_and!; [done|constructor|done]. }
  destruct o as [n|a b|p n|p|p k v]; cbn [run_hop].
  - by apply Hmalloc.
  - destruct Hl as (Ha & Hb & Hsz). destruct (calloc_rel O s B a b HR Ha Hb Hsz) as (r & s' & Hr & [(-> & HR' & Hf)|[Hr0 HR']]).
    + exists 0, s', B. split_and!; [done|by constructor|done].
    + eexists r, s', _. split_and!; [done|by constructor|done].
  - destruct Hl as (Hp & Hn & Hsz). destruct (decide (n = 0)) as [->|Hn0].
    { destruct (Hfree p Hp) as (s' & B' & Hr & Hsp & HR'). exists 0, s', B'. split_and!; [|by constructor|done].
      unfold realloc. cbn [Z.eqb]. by erewrite st_bind_ret by exact Hr. }
    destruct Hp as [->|([p' bs] & -> & (B1 & B2 & ->)%list_elem_of_split)%list_elem_of_fmap].
    + destruct (Hmalloc n) as (r & s' & B' & Hr & Hsp & HR'); [done|]. exists r, s', B'.
      split_and!; [|by constructor|done]. unfold realloc. rewrite (proj2 (Z.eqb_neq _ _) Hn0).
      by erewrite st_bind_ret by exact Hr.
    + destruct (realloc_rel O s B1 p' bs B2 n HR) as (r & s' & Hr & [(-> & HR' & Hf)|(Hr0 & bs' & ? & ? & HR')]); [lia|done| |].
      * exists 0, s', (B1 ++ (p', bs) :: B2). split_and!; [done|by constructor|done].
      * eexists r, s', _. split_and!; [done|by constructor|done].
  - destruct (Hfree p Hl) as (s' & B' & Hr & Hsp & HR'). exists 0, s', B'. split_and!; [|done..].
    by erewrite st_bind_ret by exact Hr.
  - destruct Hl as (bs & (B1 & B2 & ->)%list_elem_of_split & Hk). eexists 0, _, _.
    split_and!; [reflexivity|constructor|by apply write_step].
Qed.

Lemma heap_rel_simulation O : simulation O (heap_rel O).
Proof.
  split.
  - apply heap_step.
  - by intros s B [Hc _].
  - intros s B1 b bs B2 b' bs' [_ (g & _ & Hs)] Hb'. pose proof (hi_core _ _ _ Hs) as Hc.
    destruct (c_live _ _ _ _ Hc b (Z.of_nat (length bs))) as (_ & q & c & Hsl & ?).
    { apply elem_of_sizes. set_solver. }
    destruct (c_live _ _ _ _ Hc b' (Z.of_nat (length bs'))) as (_ & q' & c' & Hsl' & ?).
    { apply elem_of_sizes. set_solver. }
    assert (b ≠ b') as Hne.
    { intros <-. pose proof (c_live_nodup _ _ _ _ Hc) as Hnd. rewrite sizes_fst, fmap_app in Hnd. cbn in Hnd.
      rewrite <-Permutation_middle, <-fmap_app in Hnd. apply NoDup_cons in Hnd as [Hn _].
      by apply Hn, (list_elem_of_fmap_2 fst _ (b, bs')). }
    pose proof (slot_apart _ _ _ _ Hc (hi_separate _ _ _ Hs) _ _ _ _ _ _ Hsl Hsl' Hne). lia.
  - intros s [_ (g & HO & Hs)]. pose proof (hi_holds _ _ _ Hs) as Hh. destruct g as [As Bs Os]. cbn in HO. subst Os.
    destruct As as [|[a i] As]; [|by destruct (hi_busy _ _ _ Hs a i ltac:(by left)) as (b & _ & []%elem_of_nil)].
    destruct Bs as [|[a cnt] Bs]; [done|].
    by destruct (c_big _ _ _ _ (hi_core _ _ _ Hs) a cnt ltac:(by left)) as [_ []%elem_of_nil].
Qed.

Lemma malloc_init_rel O p :
  holds p O → ∃ s, malloc_init (Heap [] p) = Ret (tt, s) ∧ page_state s = p ∧ heap_rel O s [].
Proof.
  intros Hh. eexists. split; [reflexivity|]. split; [done|]. split; [by intros b bs []%elem_of_nil|].
  exists (Ghost [] [] O). split; [done|]. split; [done|done| | |].
  - intros i d Hd. by do 7 (destruct i as [|i]; [by injection Hd as <-|]).
  - match goal with |- core (fl ?s0) _ _ _ => assert (∀ i, fl s0 i = []) as Hfl end.
    { intros i. by do 7 (destruct i as [|i]; [done|]). }
    split; cbn; try (by intros ? ? []%elem_of_nil); try (by intros ? ? ? []%elem_of_nil).
    + intros i. rewrite Hfl. constructor.
    + intros i b. rewrite Hfl. by intros []%elem_of_nil.
    + constructor.
  - by intros a i []%elem_of_nil.
Qed.

(** C7: the block allocator implements a heap.  After [malloc_init] its states
    are related to sets of blocks with contents such that every call a client
    may make returns, never failing an assertion, and does what it should:
    [malloc] returns null or a new block of the size asked for, [calloc] one
    filled with zeros, [realloc] one that starts with the old contents, and
    [free] takes the block out.  Blocks never overlap, and nothing but the
    client's own writes changes their contents.  [malloc], [calloc] and [realloc]
    return null only for a size of 0, a size within a page of 4 GB, or when the
    page allocator has no room for the pages that the size needs.  When the last
    block is freed every page has been given back. *)
Theorem malloc_refines_heap O p :
  holds p O →
  ∃ s R, malloc_init (Heap [] p) = Ret (tt, s) ∧ R s [] ∧ simulation O R.
Proof.
  intros (s & Hr & _ & HR)%malloc_init_rel. exists s, (heap_rel O).
  split; [done|]. split; [done|apply heap_rel_simulation].
Qed.

(** ** Sizes that overflow *)

Lemma overflow_page_count n :
  2 ^ 32 - sizeof_arena < n < 2 ^ 32 → u32 (u32 (n + sizeof_arena) + PGSIZE - 1) / PGSIZE = 1.
Proof.
  unfold sizeof_arena. change PGSIZE with 4096. intros Hn. unfold u32.
  replace ((n + 12) mod 2 ^ 32) with (n + 12 - 2 ^ 32) by zlia. rewrite Z.mod_small by lia. zlia.
Qed.

(** A request within 12 bytes of 4 GB wraps around when the header is
    added to it: given a free page, [malloc] returns a block of 4084 bytes for
    it.  The check of [calloc] misses products that wrap to a value above both
    factors: 65537 times 65537 bytes are a block of 131073 bytes. *)
Theorem allocation_size_overflow O s B n a q :
  heap_rel O s B → 2 ^ 32 - sizeof_arena < n < 2 ^ 32 →
  get_multiple 0 1 (page_state s) = Ret (a, q) → a ≠ 0 →
  (∃ s', malloc n s = Ret (a + sizeof_arena, s') ∧ block_size (a + sizeof_arena) s' = Ret (4084, s')) ∧
  calloc 65537 65537 s = calloc 131073 1 s.
Proof.
  intros [_ (g & _ & Hs)] Hn Hr Ha. split; [|reflexivity].
  destruct (get_ok 0 1 (page_state s) (held g)) as (a' & q' & Hr' & Hcase); [apply (hi_holds _ _ _ Hs)|done|done|].
  rewrite Hr in Hr'. injection Hr' as <- <-. destruct Hcase as [(? & _)|(_ & Hh & _)]; [done|].
  assert (page_block (a, 1)) as Hp by (eapply holds_block; [exact Hh|by left]).
  unfold malloc. rewrite (proj2 (Z.eqb_neq n 0)) by (unfold sizeof_arena in *; lia). hstep.
  pose proof (find_desc_spec s g _ n Hs) as Hf. destruct (find_desc (descs s) n) as [i|].
  { destruct Hf as [Hi ?]. pose proof (desc_bounds i Hi) as (? & _). unfold sizeof_arena in *. lia. }
  rewrite overflow_page_count by done. eexists. split.
  - erewrite st_bind_ret; [|unfold on_pages; rewrite Hr; reflexivity].
    rewrite (proj2 (Z.eqb_neq _ _) Ha), store_header_run. reflexivity.
  - set (s1 := Heap _ _). assert (header (mem s1) a 0 1) as Hh1.
    { unfold s1, mem. cbn. rewrite memory_set. apply header_written; lia. }
    unfold block_size. erewrite st_bind_ret by (by eapply block_to_arena_big).
    hstep. destruct Hh1 as (_ & -> & Hc). cbn [Z.eqb]. hstep. rewrite Hc.
    destruct Hp as (Hal & _). cbn in Hal. rewrite pg_ofs_mod. unfold sizeof_arena. change PGSIZE with 4096.
    replace ((a + 12) mod 4096) with 12 by zlia. done.
Qed.
End refine.

(** ** Over the page allocator of the kernel *)

Lemma malloc_refines_heap_witness :
  holds Palloc.ex_pools [] ∧
  ∃ s R, malloc_init (Heap [] Palloc.ex_pools) = Ret (tt, s) ∧ R s [] ∧ simulation [] R.
Proof. split; [exact ex_pools_hold|]. apply (malloc_refines_heap [] Palloc.ex_pools), ex_pools_hold. Defined.

Lemma allocation_size_overflow_witness :
  ∃ s, malloc_init (Heap [] Palloc.ex_pools) = Ret (tt, s) ∧
  (∃ s', malloc (2 ^ 32 - 1) s = Ret (0xc010000c, s') ∧ block_size 0xc010000c s' = Ret (4084, s')).
Proof.
  destruct (malloc_init_rel [] Palloc.ex_pools ex_pools_hold) as (s & Hr & Hp & HR). exists s. split; [exact Hr|].
  destruct (allocation_size_overflow [] s [] (2 ^ 32 - 1) 0xc0100000
    (match get_multiple 0 1 Palloc.ex_pools with Ret (_, q) => q | _ => Palloc.ex_pools end) HR) as [H _].
  - unfold sizeof_arena. lia.
  - rewrite Hp. vm_compute. reflexivity.
  - lia.
  - exact H.
Defined.
