(* ===== verification/Pagedir.v ===== *)
(** * Page directories: [userprog/pagedir.c]

    Page directories and page tables are words of the memory that the page
    allocator hands out; the entries are those of [threads/pte.h].  The state
    also has the page directory base register and the translations that the
    processor has cached, which activating a directory drops.  Everything is
    proved against the contract of the page allocator. *)

From stdpp Require Import functions.
From stdpp Require Import base tactics list numbers option sets gmap.
From Stdlib Require Import ZArith Lia.
From S2P Require Import Prelude Vaddr PageAlloc.

(** ** State *)

Record pgstate (P : Type) : Type := PgState {
  pgs : P;
  cr3 : Z;
  tlb : Z → option Z
}.
Arguments PgState {P}.
Arguments pgs {P}.
Arguments cr3 {P}.
Arguments tlb {P}.

(** A test such as [*pte & PTE_P]. *)
Definition has (w flag : Z) : bool := negb (Z.land w flag =? 0).

(** [~flag] as 32 bits. *)
Definition without (flag : Z) : Z := u32 (Z.lnot flag).

Section pagedir.
Context {P : Type} `{!PageAllocator P}.
Implicit Types s : pgstate P.

(** The directory with only kernel mappings, and the number of pages of RAM. *)
Context (init_page_dir init_ram_pages : Z).

Definition pmem (s : pgstate P) : Z → Z := memory (pgs s).
Definition with_pmem (m : Z → Z) (s : pgstate P) : pgstate P :=
  PgState (set_memory m (pgs s)) (cr3 s) (tlb s).

Definition rd (a : Z) : st (pgstate P) Z := gets (λ s, read32 (pmem s) a).
Definition wr (a v : Z) : st (pgstate P) unit := modifyS (λ s, with_pmem (write32 (pmem s) a v) s).

Definition alloc {A} (m : st P A) : st (pgstate P) A :=
  λ s, match m (pgs s) with
       | Ret (a, p) => Ret (a, PgState p (cr3 s) (tlb s))
       | Panic => Panic
       | Diverge => Diverge
       end.

Definition pure {A} (o : outcome A) : st (pgstate P) A := Palloc.lift o.

(** ** The base register *)

Definition pagedir_activate (pd : Z) : st (pgstate P) unit :=
  let pd := if pd =? 0 then init_page_dir else pd in
  pa ← pure (vtop pd);
  modifyS (λ s, PgState (pgs s) pa (λ _, None)).

Definition active_pd : st (pgstate P) Z := pa ← gets cr3; pure (ptov pa).

Definition invalidate_pagedir (pd : Z) : st (pgstate P) unit :=
  a ← active_pd;
  if a =? pd then pagedir_activate pd else mret tt.

(** ** Directories *)

Definition pagedir_create : st (pgstate P) Z :=
  pd ← alloc (get_multiple 0 1);
  (if pd =? 0 then mret tt
   else modifyS (λ s, with_pmem (λ x, if within pd PGSIZE x then pmem s (init_page_dir + (x - pd))
                                      else pmem s x) s));;
  mret pd.

(** The loop over the entries of a table from [pte] on, with [n] left. *)
Fixpoint destroy_entries (n : nat) (pte : Z) : st (pgstate P) unit :=
  match n with
  | O => mret tt
  | S n =>
      w ← rd pte;
      (if has w PTE_P then page ← pure (pte_get_page w); alloc (free_multiple page 1) else mret tt);;
      destroy_entries n (pte + 4)
  end.

Fixpoint destroy_tables (n : nat) (pde : Z) : st (pgstate P) unit :=
  match n with
  | O => mret tt
  | S n =>
      w ← rd pde;
      (if has w PTE_P then
         pt ← pure (pde_get_pt w);
         destroy_entries (Z.to_nat (PGSIZE / 4)) pt;;
         alloc (free_multiple pt 1)
       else mret tt);;
      destroy_tables n (pde + 4)
  end.

Definition pagedir_destroy (pd : Z) : st (pgstate P) unit :=
  if pd =? 0 then mret tt
  else
    assertS (negb (pd =? init_page_dir));;
    destroy_tables (Z.to_nat (pd_no PHYS_BASE)) pd;;
    alloc (free_multiple pd 1).

(** ** Entries *)

Definition lookup_page (pd vaddr : Z) (create : bool) : st (pgstate P) Z :=
  assertS (negb (pd =? 0));;
  assertS (negb create || is_user_vaddr vaddr);;
  let pde := pd + 4 * pd_no vaddr in
  w ← rd pde;
  ok ← (if w =? 0 then
          if create then
            pt ← alloc (get_multiple Palloc.PAL_ZERO 1);
            if pt =? 0 then mret false
            else e ← pure (pde_create pt); wr pde e;; mret true
          else mret false
        else mret true);
  if (ok : bool) then
    w ← rd pde; pt ← pure (pde_get_pt w); mret (pt + 4 * pt_no vaddr)
  else mret 0.

Definition pagedir_set_page (pd upage kpage : Z) (writable : bool) : st (pgstate P) bool :=
  assertS (pg_ofs upage =? 0);;
  assertS (pg_ofs kpage =? 0);;
  assertS (is_user_vaddr upage);;
  (pa ← pure (vtop kpage); assertS (Z.shiftr pa PTSHIFT <? init_ram_pages));;
  assertS (negb (pd =? init_page_dir));;
  pte ← lookup_page pd upage true;
  if pte =? 0 then mret false
  else
    (w ← rd pte; assertS (negb (has w PTE_P)));;
    e ← pure (pte_create_user kpage writable);
    wr pte e;;
    mret true.

Definition pagedir_get_page (pd uaddr : Z) : st (pgstate P) Z :=
  assertS (is_user_vaddr uaddr);;
  pte ← lookup_page pd uaddr false;
  if pte =? 0 then mret 0
  else
    w ← rd pte;
    if has w PTE_P then page ← pure (pte_get_page w); mret (page + pg_ofs uaddr) else mret 0.

Definition pagedir_clear_page (pd upage : Z) : st (pgstate P) unit :=
  assertS (pg_ofs upage =? 0);;
  assertS (is_user_vaddr upage);;
  pte ← lookup_page pd upage false;
  if pte =? 0 then mret tt
  else
    w ← rd pte;
    if has w PTE_P then wr pte (Z.land w (without PTE_P));; invalidate_pagedir pd else mret tt.

(** [pagedir_is_dirty] and [pagedir_is_accessed]. *)
Definition is_flag (flag pd vpage : Z) : st (pgstate P) bool :=
  pte ← lookup_page pd vpage false;
  if pte =? 0 then mret false else w ← rd pte; mret (has w flag).

(** [pagedir_set_dirty] and [pagedir_set_accessed]. *)
Definition set_flag (flag pd vpage : Z) (on : bool) : st (pgstate P) unit :=
  pte ← lookup_page pd vpage false;
  if pte =? 0 then mret tt
  else
    w ← rd pte;
    if on then wr pte (Z.lor w flag)
    else wr pte (Z.land w (without flag));; invalidate_pagedir pd.

Definition pagedir_is_dirty : Z → Z → st (pgstate P) bool := is_flag PTE_D.
Definition pagedir_set_dirty : Z → Z → bool → st (pgstate P) unit := set_flag PTE_D.
Definition pagedir_is_accessed : Z → Z → st (pgstate P) bool := is_flag PTE_A.
Definition pagedir_set_accessed : Z → Z → bool → st (pgstate P) unit := set_flag PTE_A.
End pagedir.
