(* ===== verification/PagedirSpec.v ===== *)
(** * Page directories map user pages to frames

    The entries of a page directory as a function from user page numbers, and
    the pages that it owns: itself, its page tables and the frames mapped by
    present entries.  Every operation changes exactly the entry it names. *)

From stdpp Require Import functions.
From stdpp Require Import base tactics list numbers option sets gmap fin_maps.
From Stdlib Require Import ZArith Lia.
From S2P Require Import Prelude Vaddr PageAlloc Pagedir.

(** ** Words of entries *)

Definition frame_of (w : Z) : Z := Z.land w PTE_ADDR + PHYS_BASE.
Definition pde_word (pt : Z) : Z := Z.lor (pt - PHYS_BASE) 7.
Definition user_word (k : Z) (writable : bool) : Z := Z.lor (k - PHYS_BASE) (if writable then 7 else 5).

Lemma entry_word k f :
  page_block (k, 1) → 0 ≤ f < 4096 →
  let w := Z.lor (k - PHYS_BASE) f in
  frame_of w = k ∧ Z.land w PTE_FLAGS = f ∧ 0 ≤ w < 2 ^ 32.
Proof.
  intros (Ha & _ & Hp & He) Hf. cbn in *. unfold PHYS_BASE in *.
  destruct (lor_low_high (k - 0xc0000000) f) as [H1 H2]; [zlia|lia|lia|].
  split_and!; [unfold frame_of, PHYS_BASE; lia|done|..]; apply lor_range; lia.
Qed.

(** A flag of an entry is a flag of its low bits. *)
Lemma has_flags w f : Z.land f PTE_FLAGS = f → has w f = has (Z.land w PTE_FLAGS) f.
Proof. intros Hf. unfold has. rewrite <-Z.land_assoc, (Z.land_comm PTE_FLAGS), Hf. done. Qed.

Lemma pde_word_spec pt :
  page_block (pt, 1) →
  pde_create pt = Ret (pde_word pt) ∧ pde_get_pt (pde_word pt) = Ret pt ∧
  pde_word pt ≠ 0 ∧ 0 ≤ pde_word pt < 2 ^ 32 ∧ has (pde_word pt) PTE_P = true.
Proof.
  intros Hp. destruct (entry_word pt 7 Hp) as (Hf & Hfl & Hr); [lia|]. fold (pde_word pt) in *.
  pose proof Hp as (Ha & _ & Hb & He). cbn in Ha, Hb, He.
  assert (has (pde_word pt) PTE_P = true) as Hpr by (by rewrite has_flags, Hfl).
  split_and!; [| |intros E; by rewrite E in Hpr|lia|lia|done].
  - unfold pde_create, vtop, is_kernel_vaddr. rewrite pg_ofs_mod, Ha. cbn.
    by rewrite (proj2 (Z.leb_le _ _)).
  - unfold pde_get_pt, ptov. fold (has (pde_word pt) PTE_P). rewrite Hpr. cbn.
    unfold frame_of, PHYS_BASE in *. rewrite (proj2 (Z.ltb_lt _ _)) by lia. cbn. rewrite u32_id by lia. by f_equal.
Qed.

Lemma user_word_spec k w :
  page_block (k, 1) →
  pte_create_user k w = Ret (user_word k w) ∧ has (user_word k w) PTE_P = true ∧
  frame_of (user_word k w) = k ∧ 0 ≤ user_word k w < 2 ^ 32.
Proof.
  intros Hp. destruct (entry_word k (if w then 7 else 5) Hp) as (Hf & Hfl & Hr); [by destruct w|].
  fold (user_word k w) in *. pose proof Hp as (Ha & _ & Hb & He). cbn in Ha, Hb, He. split_and!; [| |done|lia|lia].
  - unfold pte_create_user, pte_create_kernel, vtop, is_kernel_vaddr. rewrite pg_ofs_mod, Ha. cbn.
    rewrite (proj2 (Z.leb_le _ _)) by done. cbn. unfold user_word, mret, outcome_ret. rewrite <-Z.lor_assoc. by destruct w.
  - rewrite has_flags, Hfl by done. by destruct w.
Qed.

Lemma pte_get_page_spec w : page_block (frame_of w, 1) → pte_get_page w = Ret (frame_of w).
Proof.
  intros (_ & _ & Hb & He). cbn in *. unfold pte_get_page, ptov. unfold frame_of, PHYS_BASE in *.
  rewrite (proj2 (Z.ltb_lt _ _)) by lia. cbn. by rewrite u32_id by lia.
Qed.

(** Setting and clearing a flag other than the present bit. *)
Lemma flag_set w f :
  Z.land f PTE_ADDR = 0 → Z.land f PTE_P = 0 →
  frame_of (Z.lor w f) = frame_of w ∧ has (Z.lor w f) PTE_P = has w PTE_P.
Proof.
  intros Hf Hp. unfold frame_of, has. rewrite !Z.land_lor_distr_l, Hf, Hp, !Z.lor_0_r. done.
Qed.

Lemma flag_clear w f :
  Z.land (without f) PTE_ADDR = PTE_ADDR → Z.land (without f) PTE_P = PTE_P →
  frame_of (Z.land w (without f)) = frame_of w ∧ has (Z.land w (without f)) PTE_P = has w PTE_P.
Proof. intros Hf Hp. unfold frame_of, has. by rewrite <-!Z.land_assoc, Hf, Hp. Qed.

Lemma present_clear w : has (Z.land w (without PTE_P)) PTE_P = false.
Proof. unfold has. rewrite <-Z.land_assoc. by rewrite (Z.land_0_r w : Z.land w (Z.land (without PTE_P) PTE_P) = 0). Qed.

(** ** The pages of a directory *)

Definition mapped (w : Z) : option (Z * Z) := if has w PTE_P then Some (frame_of w, 1) else None.

(** The frames of the entries from [j] to [j + n] of a table. *)
Definition frames_from (m : Z → Z) (pt j n : Z) : list (Z * Z) :=
  omap (λ k, mapped (read32 m (pt + 4 * k))) (seqZ j n).

(** The frames of a whole table, sealed so that its 1024 entries are not
    enumerated by conversion. *)
Definition table_frames_def (m : Z → Z) (pt : Z) : list (Z * Z) := frames_from m pt 0 1024.
Definition table_frames_aux : seal table_frames_def.
Proof. by eexists. Qed.
Definition table_frames : (Z → Z) → Z → list (Z * Z) := table_frames_aux.(unseal).

Lemma table_frames_unfold m pt : table_frames m pt = frames_from m pt 0 1024.
Proof. unfold table_frames. by rewrite (seal_eq table_frames_aux). Qed.

Definition table_pages (T : gmap Z Z) : list (Z * Z) := (λ x, (x.2, 1)) <$> map_to_list T.

Definition frames (m : Z → Z) (T : gmap Z Z) : list (Z * Z) := map_to_list T ≫= λ x, table_frames m x.2.

Definition owned (m : Z → Z) (pd : Z) (T : gmap Z Z) : list (Z * Z) :=
  (pd, 1) :: table_pages T ++ frames m T.

(** The first 768 entries are those of user pages. *)
Record dir_inv (m : Z → Z) (pd : Z) (T : gmap Z Z) : Prop := DirInv {
  di_index : ∀ i pt, T !! i = Some pt → 0 ≤ i < 768;
  di_table : ∀ i pt, T !! i = Some pt → read32 m (pd + 4 * i) = pde_word pt;
  di_none : ∀ i, 0 ≤ i < 768 → T !! i = None → read32 m (pd + 4 * i) = 0
}.

(** The entry of user page number [v]: none without a page table. *)
Definition entry (m : Z → Z) (T : gmap Z Z) (v : Z) : option Z :=
  pt ← T !! (v / 1024); Some (read32 m (pt + 4 * (v mod 1024))).

Definition user_pages : Z := 768 * 1024.

Lemma table_in_pages (T : gmap Z Z) i pt : T !! i = Some pt → (pt, 1) ∈ table_pages T.
Proof. intros H. apply list_elem_of_fmap. exists (i, pt). split; [done|]. by apply elem_of_map_to_list. Qed.

Lemma owned_table m pd T i pt : T !! i = Some pt → (pt, 1) ∈ owned m pd T.
Proof. intros H. right. apply elem_of_app. left. by eapply table_in_pages. Qed.

(** One table and the others. *)
Lemma owned_split m pd T i pt :
  T !! i = Some pt → owned m pd T ≡ₚ (pt, 1) :: table_frames m pt ++ owned m pd (delete i T).
Proof.
  intros H. unfold owned, table_pages, frames. rewrite <-(map_to_list_delete T i pt H). rewrite fmap_cons, bind_cons.
  cbn [snd]. rewrite <-app_comm_cons, Permutation_swap. constructor.
  rewrite <-Permutation_middle. constructor. apply Permutation_app_swap_app.
Qed.

Lemma owned_insert m pd T i pt :
  T !! i = None → owned m pd (<[i := pt]> T) ≡ₚ (pt, 1) :: table_frames m pt ++ owned m pd T.
Proof.
  intros H. rewrite (owned_split _ _ _ i pt) by apply lookup_insert_eq. by rewrite delete_insert_id.
Qed.

(** The frames depend on the bytes of the tables only. *)
Lemma table_frames_ext m m' pt :
  (∀ x, pt ≤ x < pt + 4096 → m' x = m x) → table_frames m' pt = table_frames m pt.
Proof.
  intros H. rewrite !table_frames_unfold. unfold frames_from. apply list_omap_ext, Forall_Forall2_diag, Forall_forall.
  intros j Hj%elem_of_seqZ. f_equal. apply read32_ext. intros x Hx. apply H. lia.
Qed.

Lemma owned_ext m m' pd T :
  (∀ i pt x, T !! i = Some pt → pt ≤ x < pt + 4096 → m' x = m x) → owned m' pd T = owned m pd T.
Proof.
  intros H. unfold owned, frames. rewrite (Forall_bind_ext _ (λ x, table_frames m x.2)); [done|].
  apply Forall_forall. intros [i pt] Hi%elem_of_map_to_list. apply table_frames_ext. intros x. by apply (H i).
Qed.

Lemma dir_inv_ext m m' pd T :
  (∀ x, pd ≤ x < pd + 4096 → m' x = m x) → dir_inv m pd T → dir_inv m' pd T.
Proof.
  intros H [H1 H2 H3]. assert (∀ i, 0 ≤ i < 768 → read32 m' (pd + 4 * i) = read32 m (pd + 4 * i)) as E.
  { intros i Hi. apply read32_ext. intros x Hx. apply H. lia. }
  split; [done| |]; intros i; [intros pt Hi|intros Hi Hn]; rewrite E; eauto.
Qed.

(** A word of a table at index [j] changes. *)
Lemma table_frames_write m pt j w :
  0 ≤ j < 1024 → 0 ≤ w < 2 ^ 32 →
  ∃ R, table_frames m pt ≡ₚ option_list (mapped (read32 m (pt + 4 * j))) ++ R ∧
       table_frames (write32 m (pt + 4 * j) w) pt ≡ₚ option_list (mapped w) ++ R.
Proof.
  intros Hj Hw. set (f m0 := λ k, mapped (read32 m0 (pt + 4 * k))). set (m' := write32 m (pt + 4 * j) w).
  assert (seqZ 0 1024 = seqZ 0 j ++ j :: seqZ (j + 1) (1024 - j - 1)) as E.
  { replace 1024 with (j + (1024 - j)) at 1 by lia. rewrite seqZ_app by lia. f_equal.
    replace (0 + j) with j by lia. rewrite seqZ_cons by lia. f_equal. }
  assert (∀ a n, (∀ k, a ≤ k < a + n → k ≠ j) → omap (f m') (seqZ a n) = omap (f m) (seqZ a n)) as Ho.
  { intros a n Hne. apply list_omap_ext, Forall_Forall2_diag, Forall_forall. intros k Hk%elem_of_seqZ.
    specialize (Hne k). unfold f. f_equal. apply read_write_apart. lia. }
  exists (omap (f m) (seqZ 0 j) ++ omap (f m) (seqZ (j + 1) (1024 - j - 1))).
  rewrite !table_frames_unfold. unfold frames_from. fold (f m) (f m'). rewrite E, !omap_app. cbn [omap list_omap].
  split.
  - change (f m j) with (mapped (read32 m (pt + 4 * j))). destruct (mapped _); cbn; [|done].
    by rewrite <-Permutation_middle.
  - rewrite !Ho by lia. unfold f at 2. unfold m'. rewrite read_write by done.
    destruct (mapped _); cbn; [|done]. by rewrite <-Permutation_middle.
Qed.

(** ** The relation *)

Section rel.
Context {P : Type} `{!PageAllocator P}.
Implicit Types s : pgstate P.

(** The pages of the others keep their bytes. *)
Definition undisturbed (O : list (Z * Z)) (m m' : Z → Z) : Prop :=
  ∀ b x, b ∈ O → within b.1 (4096 * b.2) x = true → m' x = m x.

(** Directory [pd] with tables [T] has the entries [E]; [O] are the other
    pages that are held. *)
Record rel (s : pgstate P) (pd : Z) (T : gmap Z Z) (O : list (Z * Z)) (E : Z → option Z) : Prop := Rel {
  r_holds : holds (pgs s) (owned (pmem s) pd T ++ O);
  r_dir : dir_inv (pmem s) pd T;
  r_entry : ∀ v, 0 ≤ v < user_pages → E v = entry (pmem s) T v;
  r_range : ∀ v w, 0 ≤ v < user_pages → E v = Some w → 0 ≤ w < 2 ^ 32
}.

Lemma pmem_with_pmem m s : pmem (with_pmem m s) = m.
Proof. apply memory_set. Qed.

Lemma dir_page s pd T O E : rel s pd T O E → page_block (pd, 1).
Proof. intros [Hh _ _ _]. eapply holds_block; [exact Hh|by left]. Qed.

Lemma table_apart s pd T O E i pt :
  rel s pd T O E → T !! i = Some pt →
  page_block (pt, 1) ∧
  ∀ q, q ∈ table_frames (pmem s) pt ++ owned (pmem s) pd (delete i T) ++ O → pages_apart (pt, 1) q ∧ page_block q.
Proof.
  intros [Hh _ _ _] HT. apply holds_separate in Hh. rewrite (owned_split _ _ _ i pt HT) in Hh.
  cbn in Hh. apply separate_cons in Hh as (Hp & _ & Hq). split; [done|]. intros q H. apply Hq. by rewrite <-app_assoc.
Qed.

Lemma elem_of_table_frames m pt b :
  b ∈ table_frames m pt ↔ ∃ j, 0 ≤ j < 1024 ∧ mapped (read32 m (pt + 4 * j)) = Some b.
Proof.
  rewrite !table_frames_unfold. unfold frames_from. rewrite list_elem_of_omap. split; intros (j & Hj & Hm); exists j; (split; [|done]).
  - apply elem_of_seqZ in Hj. lia.
  - apply elem_of_seqZ. lia.
Qed.

Lemma elem_of_frames m T b :
  b ∈ frames m T ↔ ∃ i pt, T !! i = Some pt ∧ b ∈ table_frames m pt.
Proof.
  unfold frames. rewrite list_elem_of_bind. split.
  - intros ([i pt] & Hb & HT%elem_of_map_to_list). by exists i, pt.
  - intros (i & pt & HT%elem_of_map_to_list & Hb). by exists (i, pt).
Qed.

Lemma frame_owned m pd T i pt j b :
  T !! i = Some pt → 0 ≤ j < 1024 → mapped (read32 m (pt + 4 * j)) = Some b → b ∈ owned m pd T.
Proof.
  intros HT Hj Hm. right. apply elem_of_app. right. apply elem_of_frames. exists i, pt. split; [done|].
  apply elem_of_table_frames. by exists j.
Qed.

(** Writing the word of one entry. *)
Lemma entry_write s pd T O E i pt j w' :
  rel s pd T O E → T !! i = Some pt → 0 ≤ j < 1024 → 0 ≤ w' < 2 ^ 32 →
  let m := pmem s in let m' := write32 m (pt + 4 * j) w' in
  dir_inv m' pd T ∧
  (∀ v, entry m' T v = if decide (v = i * 1024 + j) then Some w' else entry m T v) ∧
  (∃ R, owned m pd T ≡ₚ option_list (mapped (read32 m (pt + 4 * j))) ++ R ∧
        owned m' pd T ≡ₚ option_list (mapped w') ++ R) ∧
  undisturbed (frames m T ++ O) m m'.
Proof.
  intros HR HT Hj Hw m m'. destruct (table_apart _ _ _ _ _ _ _ HR HT) as [Hp Hap]. fold m in Hap.
  assert (∀ x, ¬ pt ≤ x < pt + 4096 → m' x = m x) as Hm.
  { intros x Hx. apply write32_out, within_false. lia. }
  assert (∀ q x, q ∈ table_frames m pt ++ owned m pd (delete i T) ++ O → q.1 ≤ x < q.1 + 4096 * q.2 → m' x = m x) as Hq'.
  { intros q x H Hx. destruct (Hap q H) as [[?|?] (_ & ? & _)]; apply Hm; cbn in *; lia. }
  assert (∀ q x, q ∈ owned m pd (delete i T) ++ O → q.1 ≤ x < q.1 + 4096 * q.2 → m' x = m x) as Hq.
  { intros q x H. apply Hq'. apply elem_of_app. by right. }
  split_and!.
  - eapply dir_inv_ext; [|exact (r_dir _ _ _ _ _ HR)]. intros x Hx.
    apply (Hq (pd, 1)); [by left|cbn; lia].
  - intros v. unfold entry. destruct (decide (v / 1024 = i)) as [Ei|Ei].
    + rewrite Ei, HT. cbn. case_decide as Ev.
      * subst v. replace ((i * 1024 + j) mod 1024) with j by zlia. unfold m'. by rewrite read_write.
      * f_equal. apply read_write_apart. assert (v mod 1024 ≠ j) by (intros <-; zlia). zlia.
    + rewrite decide_False by (intros ->; zlia). destruct (T !! (v / 1024)) as [pt'|] eqn:HT'; [|done].
      cbn. f_equal. apply read32_ext. intros x Hx. apply (Hq (pt', 1)); [|cbn; zlia].
      apply elem_of_app. left. apply (owned_table _ _ _ (v / 1024)). by rewrite lookup_delete_ne.
  - destruct (table_frames_write m pt j w' Hj Hw) as (R & E1 & E2).
    exists ((pt, 1) :: R ++ owned m pd (delete i T)). rewrite !(owned_split _ _ _ i pt HT), E1.
    fold m' in E2. rewrite E2, (owned_ext m m').
    + by rewrite <-!app_assoc, <-!Permutation_middle.
    + intros i' pt' x HT' Hx. apply (Hq (pt', 1)); [|cbn; lia].
      apply elem_of_app. left. by eapply owned_table.
  - intros b x Hb Hx%within_spec. apply (Hq' b); [|done]. apply elem_of_app in Hb as [Hb|Hb].
    + apply elem_of_frames in Hb as (i' & pt' & HT' & Hb). destruct (decide (i' = i)) as [->|Hne].
      * apply elem_of_app. left. by replace pt with pt' by congruence.
      * rewrite !elem_of_app. right. left. right. apply elem_of_app. right. apply elem_of_frames.
        exists i', pt'. by rewrite lookup_delete_ne by congruence.
    + rewrite !elem_of_app. tauto.
Qed.

(** The frames in use, and what nobody else may see changed. *)
Definition used (E : Z → option Z) (b : Z * Z) : Prop :=
  ∃ v w, 0 ≤ v < user_pages ∧ E v = Some w ∧ mapped w = Some b.

Definition intact (E : Z → option Z) (O : list (Z * Z)) (m m' : Z → Z) : Prop :=
  ∀ b x, b ∈ O ∨ used E b → within b.1 (4096 * b.2) x = true → m' x = m x.

Lemma used_frames s pd T O E b : rel s pd T O E → used E b → b ∈ frames (pmem s) T.
Proof.
  intros HR (v & w & Hv & HE & Hm). rewrite (r_entry _ _ _ _ _ HR v Hv) in HE. unfold entry in HE.
  destruct (T !! (v / 1024)) as [pt|] eqn:HT; [|done]. injection HE as <-. apply elem_of_frames.
  exists (v / 1024), pt. split; [done|]. apply elem_of_table_frames. exists (v mod 1024). split; [zlia|done].
Qed.

Lemma undisturbed_intact s pd T O E m' :
  rel s pd T O E → undisturbed (frames (pmem s) T ++ O) (pmem s) m' → intact E O (pmem s) m'.
Proof.
  intros HR Hu b x Hb. apply Hu. apply elem_of_app. destruct Hb as [Hb|Hb]; [by right|left]. by eapply used_frames.
Qed.

(** ** Looking up an entry *)

Definition user_addr (va : Z) : Prop := 0 ≤ va < PHYS_BASE.
Definition page_no (va : Z) : Z := va / 4096.

Lemma user_addr_page va :
  user_addr va → 0 ≤ page_no va < user_pages ∧ pd_no va = page_no va / 1024 ∧ pt_no va = page_no va mod 1024 ∧
  0 ≤ page_no va / 1024 < 768 ∧ is_user_vaddr va = true.
Proof.
  unfold user_addr, page_no, user_pages, PHYS_BASE. intros Hva. rewrite pd_no_div, pt_no_div.
  change (2 ^ 22) with (4096 * 1024). change (2 ^ 12) with 4096. change (2 ^ 10) with 1024.
  rewrite <-Z.div_div by lia. split_and!; try zlia. unfold is_user_vaddr, PHYS_BASE. apply Z.ltb_lt. lia.
Qed.

(** The address of the entry of page number [v], or null. *)
Definition entry_addr (T : gmap Z Z) (v : Z) : Z :=
  match T !! (v / 1024) with Some pt => pt + 4 * (v mod 1024) | None => 0 end.

Ltac pstep := erewrite st_bind_ret; [|reflexivity].
Ltac pstep_by t := erewrite st_bind_ret; [|apply assertS_true; t].

Lemma dir_nonnull s pd T O E : rel s pd T O E → negb (pd =? 0) = true.
Proof.
  intros (_ & _ & Hp & _)%dir_page. cbn in Hp. unfold PHYS_BASE in Hp. apply negb_true_iff, Z.eqb_neq. lia.
Qed.

Lemma entry_addr_nonnull s pd T O E v pt :
  rel s pd T O E → T !! (v / 1024) = Some pt → pt + 4 * (v mod 1024) ≠ 0.
Proof.
  intros HR HT. destruct (table_apart _ _ _ _ _ _ _ HR HT) as [(_ & _ & Hp & _) _]. cbn in Hp.
  unfold PHYS_BASE in Hp. zlia.
Qed.

Lemma lookup_page_run s pd T O E va create :
  rel s pd T O E → user_addr va → (create = true → is_Some (T !! (page_no va / 1024))) →
  lookup_page pd va create s = Ret (entry_addr T (page_no va), s).
Proof.
  intros HR Hva Hcr. destruct (user_addr_page va Hva) as (Hv & Ed & Et & Hi & Hu). unfold lookup_page.
  pstep_by ltac:(by eapply dir_nonnull). pstep_by ltac:(by rewrite Hu, orb_true_r).
  pstep. rewrite Ed, Et. unfold entry_addr. destruct (T !! (page_no va / 1024)) as [pt|] eqn:HT.
  - destruct (table_apart _ _ _ _ _ _ _ HR HT) as [Hp _]. destruct (pde_word_spec pt Hp) as (_ & Hg & Hne & _).
    rewrite (di_table _ _ _ (r_dir _ _ _ _ _ HR) _ _ HT), (proj2 (Z.eqb_neq _ _) Hne).
    pstep. cbv beta iota. pstep. rewrite (di_table _ _ _ (r_dir _ _ _ _ _ HR) _ _ HT).
    erewrite st_bind_ret; [|unfold pure, Palloc.lift; rewrite Hg; reflexivity]. done.
  - rewrite (di_none _ _ _ (r_dir _ _ _ _ _ HR) _ Hi HT). cbn [Z.eqb].
    destruct create; [by destruct (Hcr eq_refl)|]. by pstep.
Qed.

(** The entries once there is a table for page number [v]. *)
Definition with_table (E : Z → option Z) (v : Z) : Z → option Z :=
  λ u, if decide (u / 1024 = v / 1024) then Some (default 0 (E u)) else E u.

Lemma used_with_table E v b : used E b → used (with_table E v) b.
Proof.
  intros (u & w & Hu & HE & Hm). exists u, w. split; [done|]. split; [|done]. unfold with_table. case_decide; [|done]. by rewrite HE.
Qed.

Lemma table_frames_zero m pt : (∀ x, pt ≤ x < pt + 4096 → m x = 0) → table_frames m pt = [].
Proof.
  intros Hz. destruct (table_frames m pt) as [|b l] eqn:E; [done|exfalso].
  assert (b ∈ table_frames m pt) as (j & Hj & Hm)%elem_of_table_frames by (rewrite E; by left).
  unfold read32 in Hm. rewrite !Hz in Hm by lia. done.
Qed.

(** A new, empty table for index [i]. *)
Lemma new_table_rel s p pd T O E i a v :
  rel s pd T O E → 0 ≤ i < 768 → T !! i = None → v / 1024 = i →
  holds p ((a, 1) :: owned (pmem s) pd T ++ O) →
  (∀ x, memory p x = if within a 4096 x then 0 else pmem s x) →
  let s' := with_pmem (write32 (memory p) (pd + 4 * i) (pde_word a)) (PgState p (cr3 s) (tlb s)) in
  rel s' pd (<[i := a]> T) O (with_table E v) ∧ intact E O (pmem s) (pmem s').
Proof.
  intros HR Hi HT Hv Hh Hm s'. destruct (separate_cons _ _ (holds_separate _ _ Hh)) as (Hp & Hsep & Hap).
  destruct (pde_word_spec a Hp) as (_ & _ & _ & Hw & _).
  assert (pmem s' = write32 (memory p) (pd + 4 * i) (pde_word a)) as Em by apply pmem_with_pmem.
  assert (∀ x, pd ≤ x < pd + 4096 → memory p x = pmem s x) as Hpd.
  { intros x Hx. rewrite Hm. rewrite (proj2 (within_false _ _ _)); [done|].
    destruct (Hap (pd, 1)) as [Ha _]; [by left|]. unfold pages_apart in Ha. cbn in Ha. lia. }
  assert (∀ q x, q ∈ table_pages T ++ frames (pmem s) T ++ O → q.1 ≤ x < q.1 + 4096 * q.2 → pmem s' x = pmem s x) as Hq.
  { intros q x H Hx. assert (q ∈ owned (pmem s) pd T ++ O) as H'.
    { unfold owned. cbn. right. by rewrite <-app_assoc. }
    destruct (Hap q H') as [Ha (_ & Hq2 & _)]. rewrite Em, write32_out, Hm.
    - rewrite (proj2 (within_false _ _ _)); [done|]. unfold pages_apart in Ha. cbn in Ha. lia.
    - assert (pages_apart (pd, 1) q) as Ha'.
      { apply (separate_cons (pd, 1) (table_pages T ++ frames (pmem s) T ++ O)); [|done]. by rewrite app_assoc. }
      apply within_false. unfold pages_apart in Ha'. cbn in Ha'. lia. }
  assert (∀ x, a ≤ x < a + 4096 → pmem s' x = 0) as Hz.
  { intros x Hx. rewrite Em, write32_out, Hm; [by rewrite (proj2 (within_spec _ _ _)) by lia|].
    destruct (Hap (pd, 1)) as [Ha _]; [by left|]. unfold pages_apart in Ha. cbn in Ha. apply within_false. lia. }
  split; [split|].
  - unfold s' at 1. cbn [pgs with_pmem]. apply holds_set. rewrite owned_insert, table_frames_zero by done.
    rewrite (owned_ext (pmem s)); [done|]. intros j pt x HT' Hx. apply (Hq (pt, 1)); [|cbn; lia].
    apply elem_of_app. left. by eapply table_in_pages.
  - assert (∀ j, 0 ≤ j < 768 → j ≠ i → read32 (pmem s') (pd + 4 * j) = read32 (pmem s) (pd + 4 * j)) as Hr.
    { intros j Hj Hne. rewrite Em, read_write_apart by lia. apply read32_ext. intros x Hx. apply Hpd. lia. }
    pose proof (r_dir _ _ _ _ _ HR) as [D1 D2 D3]. split.
    + intros j pt [[<- <-]|[_ H]]%lookup_insert_Some; [done|by eapply D1].
    + intros j pt [[<- <-]|[Hne H]]%lookup_insert_Some; [rewrite Em; by apply read_write|].
      rewrite Hr; [by apply D2|by eapply D1|done].
    + intros j Hj [H Hne]%lookup_insert_None. rewrite Hr; [by apply D3|done|done].
  - intros u Hu. unfold with_table, entry. case_decide as Eu.
    + rewrite Eu, Hv, lookup_insert_eq. cbn. rewrite (r_entry _ _ _ _ _ HR u Hu). unfold entry.
      rewrite Eu, Hv, HT. cbn. f_equal. unfold read32. rewrite !Hz by zlia. done.
    + rewrite lookup_insert_ne by congruence. rewrite (r_entry _ _ _ _ _ HR u Hu). unfold entry.
      destruct (T !! (u / 1024)) as [pt|] eqn:HT'; [|done]. cbn. f_equal. apply read32_ext.
      intros x Hx. symmetry. apply (Hq (pt, 1)); [|cbn; zlia]. apply elem_of_app. left. by eapply table_in_pages.
  - intros u w Hu Hw'. unfold with_table in Hw'. case_decide; [|by eapply (r_range _ _ _ _ _ HR)].
    injection Hw' as <-. destruct (E u) eqn:Eu; [by eapply (r_range _ _ _ _ _ HR)|done].
  - eapply undisturbed_intact; [exact HR|]. intros b x Hb Hx%within_spec. apply (Hq b); [|done].
    apply elem_of_app. by right.
Qed.

(** The allocator has no page left. *)
Definition out_of_pages (flags : Z) s : Prop := ∃ p, get_multiple flags 1 (pgs s) = Ret (0, p).

(** A missing page table is allocated; without a page for it there is no
    entry. *)
Lemma lookup_page_create s pd T O E va :
  rel s pd T O E → user_addr va →
  ∃ s' a, lookup_page pd va true s = Ret (a, s') ∧ intact E O (pmem s) (pmem s') ∧
    cr3 s' = cr3 s ∧ tlb s' = tlb s ∧
    ((a = 0 ∧ rel s' pd T O E ∧ E (page_no va) = None ∧ out_of_pages Palloc.PAL_ZERO s) ∨
     (∃ T', is_Some (T' !! (page_no va / 1024)) ∧ a = entry_addr T' (page_no va) ∧
        rel s' pd T' O (with_table E (page_no va)))).
Proof.
  intros HR Hva. destruct (user_addr_page va Hva) as (Hv & Ed & Et & Hi & Hu).
  destruct (T !! (page_no va / 1024)) as [pt|] eqn:HT.
  { exists s, (entry_addr T (page_no va)). split; [by eapply lookup_page_run|].
    split; [done|]. split; [done|]. split; [done|]. right. exists T. split; [done|]. split; [done|].
    destruct HR as [H1 H2 H3 H4].
    assert (∀ u, 0 ≤ u < user_pages → with_table E (page_no va) u = E u) as Ew.
    { intros u Hu'. unfold with_table. case_decide as Eu; [|done]. rewrite H3 by done. unfold entry. by rewrite Eu, HT. }
    split; [done|done| |]; intros u; intros; rewrite Ew in * by done; eauto. }
  unfold lookup_page. pstep_by ltac:(by eapply dir_nonnull). pstep_by ltac:(by rewrite Hu).
  pstep. rewrite Ed, Et, (di_none _ _ _ (r_dir _ _ _ _ _ HR) _ Hi HT). cbn [Z.eqb].
  destruct (get_ok Palloc.PAL_ZERO 1 (pgs s) (owned (pmem s) pd T ++ O)) as (a & p & Hr & Hcase);
    [apply (r_holds _ _ _ _ _ HR)|done|done|].
  destruct Hcase as [(-> & Hh & Hm)|(Ha & Hh & Hm)].
  - eexists _, 0. split.
    { erewrite st_bind_ret; [|unfold alloc; erewrite st_bind_ret; [|rewrite Hr; reflexivity]; reflexivity]. reflexivity. }
    unfold pmem at 2. cbn. rewrite Hm. split; [done|]. split; [done|]. split; [done|]. left. split; [done|].
    destruct HR as [H1 H2 H3 H4]. unfold pmem in *. split; [by split; unfold pmem; cbn; rewrite ?Hm|].
    split; [rewrite H3 by done; unfold entry; by rewrite HT|by exists p].
  - destruct (new_table_rel s p pd T O E (page_no va / 1024) a (page_no va) HR Hi HT eq_refl Hh) as [HR' Hund].
    { intros x. by rewrite Hm. }
    assert (page_block (a, 1)) as Hp by (eapply holds_block; [exact Hh|by left]).
    destruct (pde_word_spec a Hp) as (Hc & Hg & Hne & Hw & _).
    eexists _, _. split.
    { erewrite st_bind_ret.
      2:{ unfold alloc. erewrite st_bind_ret; [|rewrite Hr; reflexivity]. cbv beta. rewrite (proj2 (Z.eqb_neq _ _) Ha).
        unfold pure, Palloc.lift. rewrite Hc. pstep. pstep. reflexivity. }
      cbv beta iota. pstep. rewrite pmem_with_pmem, read_write by done.
      erewrite st_bind_ret; [|unfold pure, Palloc.lift; rewrite Hg; reflexivity]. reflexivity. }
    split; [exact Hund|]. split; [done|]. split; [done|]. right. exists (<[page_no va / 1024 := a]> T).
    split; [by rewrite lookup_insert_eq|]. split; [|exact HR']. unfold entry_addr. by rewrite lookup_insert_eq.
Qed.
End rel.
