(* ===== verification/PagedirRefine.v ===== *)
(** * What a page directory promises

    A page directory is a partial map from user page numbers to entries.  Each
    operation of [userprog/pagedir.c] returns, changes exactly the entry it
    names and no page of anyone else, keeps the translations cached by the
    processor consistent with the entries, and [pagedir_destroy] gives back
    every page. *)

From stdpp Require Import functions.
From stdpp Require Import base tactics list numbers option sets gmap fin_maps.
From Stdlib Require Import ZArith Lia.
From S2P Require Import Prelude Vaddr PageAlloc Pagedir PagedirSpec.

(** ** The specification *)

Inductive pdop : Type :=
| SetPage (upage kpage : Z) (writable : bool)
| GetPage (uaddr : Z)
| ClearPage (upage : Z)
| IsDirty (vpage : Z)
| IsAccessed (vpage : Z)
| SetDirty (vpage : Z) (on : bool)
| SetAccessed (vpage : Z) (on : bool).

(** Entries of user pages, and the pages held by others. *)
Definition view : Type := (Z → option Z) * list (Z * Z).

Definition flag_in (f : Z) (e : option Z) : bool :=
  match e with Some w => has w f | None => false end.

Definition put_flag (f : Z) (on : bool) (w : Z) : Z :=
  if on then Z.lor w f else Z.land w (without f).

Definition set_entry_flag (f vpage : Z) (on : bool) (E : Z → option Z) : Z → option Z :=
  let v := page_no vpage in
  match E v with Some w => <[v := Some (put_flag f on w)]> E | None => E end.

Definition present (e : option Z) : bool := flag_in PTE_P e.

Inductive pdspec : view → pdop → Z → view → Prop :=
| spec_set_fails E O up kp w : pdspec (E, O) (SetPage up kp w) 0 (E, O)
| spec_set E O O' up kp w :
    O ≡ₚ (kp, 1) :: O' →
    pdspec (E, O) (SetPage up kp w) 1
      (<[page_no up := Some (user_word kp w)]> (with_table E (page_no up)), O')
| spec_get E O ua :
    pdspec (E, O) (GetPage ua)
      (match E (page_no ua) with
       | Some w => if has w PTE_P then frame_of w + ua mod 4096 else 0
       | None => 0
       end) (E, O)
| spec_clear E O up w :
    E (page_no up) = Some w → has w PTE_P = true →
    pdspec (E, O) (ClearPage up) 0
      (<[page_no up := Some (Z.land w (without PTE_P))]> E, (frame_of w, 1) :: O)
| spec_clear_absent E O up :
    present (E (page_no up)) = false → pdspec (E, O) (ClearPage up) 0 (E, O)
| spec_is_dirty E O vp : pdspec (E, O) (IsDirty vp) (Z.b2z (flag_in PTE_D (E (page_no vp)))) (E, O)
| spec_is_accessed E O vp : pdspec (E, O) (IsAccessed vp) (Z.b2z (flag_in PTE_A (E (page_no vp)))) (E, O)
| spec_set_dirty E O vp on : pdspec (E, O) (SetDirty vp on) 0 (set_entry_flag PTE_D vp on E, O)
| spec_set_accessed E O vp on : pdspec (E, O) (SetAccessed vp on) 0 (set_entry_flag PTE_A vp on E, O).

Section refine.
Context {P : Type} `{!PageAllocator P}.
Context (init_page_dir init_ram_pages : Z).
Implicit Types s : pgstate P.

(** What callers may do: user pages only, and a frame that the caller holds
    for a page that is not mapped. *)
Definition pdlegal (pd : Z) (V : view) (o : pdop) : Prop :=
  match o with
  | SetPage up kp _ =>
      user_addr up ∧ up mod 4096 = 0 ∧ (kp, 1) ∈ V.2 ∧ (kp - PHYS_BASE) / 4096 < init_ram_pages ∧
      pd ≠ init_page_dir ∧ present (V.1 (page_no up)) = false
  | ClearPage up => user_addr up ∧ up mod 4096 = 0
  | GetPage va | IsDirty va | IsAccessed va | SetDirty va _ | SetAccessed va _ => user_addr va
  end.

Definition run_pdop (pd : Z) (o : pdop) : st (pgstate P) Z :=
  match o with
  | SetPage up kp w => b ← pagedir_set_page init_page_dir init_ram_pages pd up kp w; mret (Z.b2z b)
  | GetPage ua => pagedir_get_page pd ua
  | ClearPage up => pagedir_clear_page init_page_dir pd up;; mret 0
  | IsDirty vp => b ← pagedir_is_dirty pd vp; mret (Z.b2z b)
  | IsAccessed vp => b ← pagedir_is_accessed pd vp; mret (Z.b2z b)
  | SetDirty vp on => pagedir_set_dirty init_page_dir pd vp on;; mret 0
  | SetAccessed vp on => pagedir_set_accessed init_page_dir pd vp on;; mret 0
  end.

(** A cached translation has the frame of the entry, and none of its bits is
    clear in the entry. *)
Definition cached_ok (w : Z) (e : option Z) : Prop :=
  has w PTE_P = true ∧
  ∃ w', e = Some w' ∧ Z.land w' PTE_ADDR = Z.land w PTE_ADDR ∧ Z.land w w' = w.

Definition coherent (s : pgstate P) (pd : Z) (E : Z → option Z) : Prop :=
  cr3 s = pd - PHYS_BASE → ∀ v w, 0 ≤ v < user_pages → tlb s v = Some w → cached_ok w (E v).

Definition pd_rel (s : pgstate P) (pd : Z) (V : view) : Prop :=
  (∃ T, rel s pd T V.2 V.1) ∧ 0 ≤ cr3 s < 2 ^ 30 ∧ coherent s pd V.1.

(** What an operation on [pd] leaves alone. *)
Definition other_intact (pd : Z) (V : view) (s s' : pgstate P) : Prop :=
  intact V.1 V.2 (pmem s) (pmem s') ∧ cr3 s' = cr3 s ∧
  (cr3 s ≠ pd - PHYS_BASE → tlb s' = tlb s).

(** ** One entry *)

(** The entry of a page with a table: its word in memory. *)
Lemma entry_word_at s pd T O E v w :
  rel s pd T O E → 0 ≤ v < user_pages → E v = Some w →
  ∃ pt, T !! (v / 1024) = Some pt ∧ entry_addr T v = pt + 4 * (v mod 1024) ∧
    entry_addr T v ≠ 0 ∧ read32 (pmem s) (entry_addr T v) = w.
Proof.
  intros HR Hv HE. rewrite (r_entry _ _ _ _ _ HR v Hv) in HE. unfold entry in HE.
  destruct (T !! (v / 1024)) as [pt|] eqn:HT; [|done]. exists pt. unfold entry_addr. rewrite HT.
  split_and!; [done|done|by eapply entry_addr_nonnull|]. by injection HE.
Qed.

Lemma no_entry_addr s pd T O E v :
  rel s pd T O E → 0 ≤ v < user_pages → E v = None → entry_addr T v = 0.
Proof.
  intros HR Hv HE. rewrite (r_entry _ _ _ _ _ HR v Hv) in HE. unfold entry, entry_addr in *. by destruct (T !! (v / 1024)).
Qed.

(** Changing its word; frames move between the directory and the others. *)
Lemma rel_update s pd T O E O' v w w' :
  rel s pd T O E → 0 ≤ v < user_pages → E v = Some w → 0 ≤ w' < 2 ^ 32 →
  option_list (mapped w) ++ O ≡ₚ option_list (mapped w') ++ O' →
  let s' := with_pmem (write32 (pmem s) (entry_addr T v) w') s in
  rel s' pd T O' (<[v := Some w']> E) ∧ intact E O (pmem s) (pmem s').
Proof.
  intros HR Hv HE Hw HO s'. destruct (entry_word_at _ _ _ _ _ _ _ HR Hv HE) as (pt & HT & Ea & _ & Hrd).
  rewrite Ea in Hrd. destruct (entry_write s pd T O E (v / 1024) pt (v mod 1024) w' HR HT) as (Hd & He & (R & E1 & E2) & Hu);
    [zlia|done|]. rewrite Hrd in E1. rewrite <-Ea in *. assert (pmem s' = write32 (pmem s) (entry_addr T v) w') as Em by apply pmem_with_pmem.
  split; [split|rewrite Em; by eapply undisturbed_intact].
  - rewrite Em, E2. unfold s'. cbn [pgs with_pmem]. apply holds_set.
    rewrite <-app_assoc, (Permutation_app_comm R), app_assoc, <-HO, <-app_assoc, (Permutation_app_comm O), app_assoc, <-E1.
    apply (r_holds _ _ _ _ _ HR).
  - by rewrite Em.
  - intros u Hu'. rewrite Em, He. destruct (decide (u = v)) as [->|Hne].
    + rewrite fn_lookup_insert, decide_True by zlia. done.
    + rewrite fn_lookup_insert_ne by done. rewrite decide_False by zlia. by apply (r_entry _ _ _ _ _ HR).
  - intros u z Hu'. destruct (decide (u = v)) as [->|Hne].
    + rewrite fn_lookup_insert. by intros [= <-].
    + rewrite fn_lookup_insert_ne by done. by apply (r_range _ _ _ _ _ HR).
Qed.

Lemma frame_block s pd T O E v w :
  rel s pd T O E → 0 ≤ v < user_pages → E v = Some w → has w PTE_P = true → page_block (frame_of w, 1).
Proof.
  intros HR Hv HE Hp. destruct (entry_word_at _ _ _ _ _ _ _ HR Hv HE) as (pt & HT & Ea & _ & Hrd).
  eapply holds_block; [exact (r_holds _ _ _ _ _ HR)|]. apply elem_of_app. left.
  eapply frame_owned; [exact HT| |]; [|rewrite <-Ea, Hrd; unfold mapped; by rewrite Hp]. zlia.
Qed.

(** ** Dropping the cached translations *)

Lemma invalidate_run s pd :
  page_block (pd, 1) → 0 ≤ cr3 s < 2 ^ 30 →
  invalidate_pagedir init_page_dir pd s =
    Ret (tt, PgState (pgs s) (cr3 s) (if decide (cr3 s = pd - PHYS_BASE) then λ _, None else tlb s)).
Proof.
  intros (_ & _ & Hp & He) Hc. cbn in *. unfold invalidate_pagedir, active_pd.
  destruct (ptov_vtop (cr3 s)) as (va & H1 & H2 & ->); [lia|]. unfold pure.
  erewrite st_bind_ret; [|unfold gets, pure; erewrite st_bind_ret; [|reflexivity]; cbv beta; unfold Palloc.lift; rewrite H1; reflexivity].
  case_decide as E.
  - rewrite (proj2 (Z.eqb_eq _ _)) by lia. unfold pagedir_activate. unfold PHYS_BASE in *.
    rewrite (proj2 (Z.eqb_neq pd 0)) by lia. destruct (vtop_ptov pd) as (pa & H3 & _ & ->); [unfold PHYS_BASE; lia|].
    erewrite st_bind_ret; [|unfold pure, Palloc.lift; rewrite H3; reflexivity]. unfold modifyS, PHYS_BASE. by rewrite E.
  - rewrite (proj2 (Z.eqb_neq _ _)) by lia. by destruct s.
Qed.

(** ** The operations *)

Ltac pstep := erewrite st_bind_ret; [|reflexivity].
Ltac pstep_by t := erewrite st_bind_ret; [|apply assertS_true; t].

(** An entry gains bits. *)
Lemma cached_more w e f : Z.land f PTE_ADDR = 0 → cached_ok w (Some e) → cached_ok w (Some (Z.lor e f)).
Proof.
  intros Hf [Hp (e' & [= <-] & Ha & Hs)]. split; [done|]. exists (Z.lor e f). split_and!; [done| |].
  - by rewrite Z.land_lor_distr_l, Hf, Z.lor_0_r.
  - rewrite Z.land_lor_distr_r, Hs. apply Z.bits_inj'. intros n _. rewrite Z.lor_spec, Z.land_spec.
    by destruct (Z.testbit w n).
Qed.

(** The result of a step: related again, with nothing of others changed. *)
Definition step_ok (s : pgstate P) (pd : Z) (V : view) (o : pdop) (r : Z) (s' : pgstate P) : Prop :=
  ∃ V', pdspec V o r V' ∧ pd_rel s' pd V' ∧ other_intact pd V s s'.

Lemma is_flag_run s pd T O E vp f :
  rel s pd T O E → user_addr vp → is_flag f pd vp s = Ret (flag_in f (E (page_no vp)), s).
Proof.
  intros HR Hva. destruct (user_addr_page vp Hva) as (Hv & _). unfold is_flag.
  erewrite st_bind_ret by (by eapply lookup_page_run). destruct (E (page_no vp)) as [w|] eqn:HE.
  - destruct (entry_word_at _ _ _ _ _ _ _ HR Hv HE) as (pt & _ & _ & Hn & Hrd).
    rewrite (proj2 (Z.eqb_neq _ _) Hn). pstep. by rewrite Hrd.
  - rewrite (no_entry_addr _ _ _ _ _ _ HR Hv HE). done.
Qed.

Lemma set_flag_ok s pd V vp f on :
  pd_rel s pd V → user_addr vp → f = PTE_A ∨ f = PTE_D →
  ∃ s', set_flag init_page_dir f pd vp on s = Ret (tt, s') ∧
    pd_rel s' pd (set_entry_flag f vp on V.1, V.2) ∧ other_intact pd V s s'.
Proof.
  destruct V as [E O]. intros [[T HR] [Hc Hco]] Hva Hf. cbn [fst snd] in *.
  destruct (user_addr_page vp Hva) as (Hv & _). unfold set_flag, set_entry_flag.
  erewrite st_bind_ret by (by eapply lookup_page_run). destruct (E (page_no vp)) as [w|] eqn:HE.
  2:{ rewrite (no_entry_addr _ _ _ _ _ _ HR Hv HE). exists s. split; [done|]. split; [|done]. split; [by exists T|done]. }
  destruct (entry_word_at _ _ _ _ _ _ _ HR Hv HE) as (pt & _ & _ & Hn & Hrd). pose proof (r_range _ _ _ _ _ HR _ _ Hv HE) as Hw.
  rewrite (proj2 (Z.eqb_neq _ _) Hn). pstep. rewrite Hrd.
  assert (0 ≤ put_flag f on w < 2 ^ 32 ∧ mapped (put_flag f on w) = mapped w) as [Hr Hm].
  { unfold put_flag, mapped. destruct on.
    - split; [apply lor_range; [done|destruct Hf as [-> | ->]; done]|].
      destruct (flag_set w f) as [-> ->]; [by destruct Hf as [-> | ->]..|done].
    - split; [by apply land_range|]. destruct (flag_clear w f) as [-> ->]; [by destruct Hf as [-> | ->]..|done]. }
  destruct (rel_update s pd T O E O (page_no vp) w (put_flag f on w) HR Hv HE Hr) as [HR' Hu]; [by rewrite Hm|].
  destruct on; cbn [put_flag] in *.
  - eexists. split; [reflexivity|]. split; [|done]. split; [by exists T|]. split; [done|]. intros Hcr v w0 Hv' Ht.
    specialize (Hco Hcr v w0 Hv' Ht). cbn. destruct (decide (v = page_no vp)) as [->|Hne].
    + rewrite fn_lookup_insert. rewrite HE in Hco. apply cached_more; [by destruct Hf as [-> | ->]|done].
    + by rewrite fn_lookup_insert_ne.
  - eexists. split; [pstep; apply invalidate_run; [by eapply dir_page|done]|].
    split; [split|split_and!; [done|done|intros Hcr; cbn; by rewrite decide_False]].
    + exists T. by destruct HR'.
    + split; [done|]. intros Hcr v w0 Hv' Ht. cbn in *. by rewrite decide_True in Ht.
Qed.

Lemma get_page_run s pd T O E ua :
  rel s pd T O E → user_addr ua →
  pagedir_get_page pd ua s =
    Ret (match E (page_no ua) with
         | Some w => if has w PTE_P then frame_of w + ua mod 4096 else 0
         | None => 0
         end, s).
Proof.
  intros HR Hva. destruct (user_addr_page ua Hva) as (Hv & _ & _ & _ & Hus). unfold pagedir_get_page. pstep_by ltac:(exact Hus).
  erewrite st_bind_ret by (by eapply lookup_page_run). destruct (E (page_no ua)) as [w|] eqn:HE.
  2:{ by rewrite (no_entry_addr _ _ _ _ _ _ HR Hv HE). }
  destruct (entry_word_at _ _ _ _ _ _ _ HR Hv HE) as (pt & _ & _ & Hn & Hrd).
  rewrite (proj2 (Z.eqb_neq _ _) Hn). pstep. rewrite Hrd. destruct (has w PTE_P) eqn:Hp; [|done].
  erewrite st_bind_ret; [|unfold pure, Palloc.lift; rewrite pte_get_page_spec by (by eapply frame_block); reflexivity].
  by rewrite pg_ofs_mod.
Qed.

Lemma clear_page_ok s pd V up :
  pd_rel s pd V → user_addr up → up mod 4096 = 0 →
  ∃ s', pagedir_clear_page init_page_dir pd up s = Ret (tt, s') ∧ step_ok s pd V (ClearPage up) 0 s'.
Proof.
  destruct V as [E O]. intros [[T HR] [Hc Hco]] Hva Hal. cbn [fst snd] in *.
  destruct (user_addr_page up Hva) as (Hv & _ & _ & _ & Hus). unfold pagedir_clear_page.
  pstep_by ltac:(rewrite pg_ofs_mod, Hal; done). pstep_by ltac:(exact Hus).
  erewrite st_bind_ret by (by eapply lookup_page_run).
  assert (present (E (page_no up)) = false → step_ok s pd (E, O) (ClearPage up) 0 s) as Hno.
  { intros Hn. exists (E, O). split; [by constructor|]. split; [|done]. split; [by exists T|done]. }
  destruct (E (page_no up)) as [w|] eqn:HE.
  2:{ rewrite (no_entry_addr _ _ _ _ _ _ HR Hv HE). exists s. split; [done|]. by apply Hno. }
  destruct (entry_word_at _ _ _ _ _ _ _ HR Hv HE) as (pt & _ & _ & Hn & Hrd). pose proof (r_range _ _ _ _ _ HR _ _ Hv HE) as Hw.
  rewrite (proj2 (Z.eqb_neq _ _) Hn). pstep. rewrite Hrd. destruct (has w PTE_P) eqn:Hp.
  2:{ exists s. split; [done|]. by apply Hno. }
  destruct (rel_update s pd T O E ((frame_of w, 1) :: O) (page_no up) w (Z.land w (without PTE_P)) HR Hv HE) as [HR' Hu].
  { by apply land_range. }
  { unfold mapped. by rewrite Hp, present_clear. }
  eexists. split; [pstep; apply invalidate_run; [by eapply dir_page|done]|].
  eexists. split; [by constructor|]. split; [split|split_and!; [done|done|intros Hcr; cbn; by rewrite decide_False]].
  - exists T. by destruct HR'.
  - split; [done|]. intros Hcr v w0 Hv' Ht. cbn in *. by rewrite decide_True in Ht.
Qed.

Lemma cached_present w e : cached_ok w e → present e = true.
Proof.
  intros [Hp (w' & -> & _ & Hs)]. unfold present, flag_in, has in *. apply negb_true_iff, Z.eqb_neq. intros Hz.
  apply negb_true_iff, Z.eqb_neq in Hp. apply Hp. by rewrite <-Hs, <-Z.land_assoc, Hz, Z.land_0_r.
Qed.

Lemma coherent_set s pd E v w :
  present (E v) = false → coherent s pd E → coherent s pd (<[v := Some w]> (with_table E v)).
Proof.
  intros Hn Hco Hcr u w0 Hu Ht. specialize (Hco Hcr u w0 Hu Ht). destruct (decide (u = v)) as [->|Hne].
  - apply cached_present in Hco. by rewrite Hn in Hco.
  - rewrite fn_lookup_insert_ne by done. unfold with_table. case_decide; [|done].
    by destruct Hco as [? (w' & E' & ?)]; rewrite E'; split; [|exists w'].
Qed.

Lemma set_page_ok s pd V up kp wr :
  pd_rel s pd V → pdlegal pd V (SetPage up kp wr) →
  ∃ b s', pagedir_set_page init_page_dir init_ram_pages pd up kp wr s = Ret (b, s') ∧
    (b = false → V.1 (page_no up) = None ∧ out_of_pages Palloc.PAL_ZERO s) ∧ step_ok s pd V (SetPage up kp wr) (Z.b2z b) s'.
Proof.
  destruct V as [E O]. intros [[T HR] [Hc Hco]] (Hva & Hal & Hk & Hram & Hinit & Hnp). cbn [fst snd] in *.
  destruct (user_addr_page up Hva) as (Hv & _ & _ & _ & Hus).
  assert (page_block (kp, 1)) as Hp.
  { eapply holds_block; [exact (r_holds _ _ _ _ _ HR)|]. apply elem_of_app. by right. }
  destruct (user_word_spec kp wr Hp) as (Hcr & Hpr & Hfr & Hwr). pose proof Hp as (Hka & _ & Hkb & Hke). cbn in Hka, Hkb, Hke.
  unfold pagedir_set_page. pstep_by ltac:(rewrite pg_ofs_mod, Hal; done). pstep_by ltac:(rewrite pg_ofs_mod, Hka; done).
  pstep_by ltac:(exact Hus).
  erewrite st_bind_ret.
  2:{ unfold vtop, is_kernel_vaddr. rewrite (proj2 (Z.leb_le _ _)) by done. cbn [ASSERT mbind outcome_bind]. pstep.
    apply assertS_true, Z.ltb_lt. unfold PTSHIFT, PGBITS. rewrite Z.shiftr_div_pow2 by lia. done. }
  pstep_by ltac:(by apply negb_true_iff, Z.eqb_neq).
  destruct (lookup_page_create s pd T O E up HR Hva) as (s1 & a & Hr & Hu1 & Hc1 & Ht1 & Hcase).
  erewrite st_bind_ret by exact Hr.
  destruct Hcase as [(-> & HR1 & Hout)|(T' & HT' & -> & HR1)].
  { exists false, s1. split; [done|]. split; [done|]. exists (E, O). split; [constructor|].
    split; [split; [by exists T|]; split; [by rewrite Hc1|]|done].
    intros Hcr' v w. rewrite Ht1. apply Hco. by rewrite <-Hc1. }
  set (w := default 0 (E (page_no up))).
  assert (with_table E (page_no up) (page_no up) = Some w) as HE1 by (unfold with_table; by rewrite decide_True).
  assert (has w PTE_P = false) as Hwp by (unfold w; by destruct (E (page_no up)) as [w0|] eqn:Ew).
  destruct (entry_word_at _ _ _ _ _ _ _ HR1 Hv HE1) as (pt & _ & _ & Hn & Hrd).
  rewrite (proj2 (Z.eqb_neq _ _) Hn).
  erewrite st_bind_ret; [|pstep; apply assertS_true; by rewrite Hrd, Hwp].
  erewrite st_bind_ret; [|unfold pure, Palloc.lift; rewrite Hcr; reflexivity]. pstep.
  apply list_elem_of_split in Hk as (O1 & O2 & ->).
  destruct (rel_update s1 pd T' (O1 ++ (kp, 1) :: O2) _ (O1 ++ O2) (page_no up) w (user_word kp wr) HR1 Hv HE1 Hwr) as [HR2 Hu2].
  { unfold mapped. rewrite Hwp, Hpr, Hfr. cbn. by rewrite <-Permutation_middle. }
  eexists true, _. split; [reflexivity|]. split; [done|]. eexists. split; [apply spec_set; by rewrite <-Permutation_middle|].
  split; [split; [by exists T'|]; split; [cbn; by rewrite Hc1|]|split_and!].
  - intros Hcr' v w0. cbn in *. rewrite Ht1. rewrite Hc1 in Hcr'. by apply (coherent_set s pd).
  - intros b x Hb Hx. transitivity (pmem s1 x); [|by eapply Hu1].
    eapply Hu2; [|done]. destruct Hb; [by left|right]. by apply used_with_table.
  - done.
  - done.
Qed.

Lemma pdop_step s pd V o :
  pd_rel s pd V → pdlegal pd V o → ∃ r s', run_pdop pd o s = Ret (r, s') ∧ step_ok s pd V o r s'.
Proof.
  intros HR Hl. pose proof HR as [[T HT] Hc]. destruct V as [E O].
  destruct o as [up kp w|ua|up|vp|vp|vp on|vp on]; cbn [run_pdop].
  - destruct (set_page_ok s pd (E, O) up kp w HR Hl) as (b & s' & Hr & _ & Hs). exists (Z.b2z b), s'.
    split; [by erewrite st_bind_ret by exact Hr|done].
  - eexists _, s. split; [by apply (get_page_run s pd T O E)|]. exists (E, O). split; [constructor|done].
  - destruct Hl as [Hu Ha]. destruct (clear_page_ok s pd (E, O) up HR Hu Ha) as (s' & Hr & Hs). exists 0, s'.
    split; [by erewrite st_bind_ret by exact Hr|done].
  - eexists _, s. split; [erewrite st_bind_ret by (by apply (is_flag_run s pd T O E)); reflexivity|].
    exists (E, O). split; [constructor|done].
  - eexists _, s. split; [erewrite st_bind_ret by (by apply (is_flag_run s pd T O E)); reflexivity|].
    exists (E, O). split; [constructor|done].
  - destruct (set_flag_ok s pd (E, O) vp PTE_D on HR Hl) as (s' & Hr & Hs & Ho); [by right|]. exists 0, s'.
    split; [by erewrite st_bind_ret by exact Hr|]. eexists. split; [constructor|done].
  - destruct (set_flag_ok s pd (E, O) vp PTE_A on HR Hl) as (s' & Hr & Hs & Ho); [by left|]. exists 0, s'.
    split; [by erewrite st_bind_ret by exact Hr|]. eexists. split; [constructor|done].
Qed.

(** ** Creating and destroying *)

Lemma undisturbed_mono X Y m m' : (∀ b, b ∈ Y → b ∈ X) → undisturbed X m m' → undisturbed Y m m'.
Proof. intros H Hu b x Hb. apply Hu. auto. Qed.

(** Freeing a page leaves the pages that stay as they were. *)
Lemma free_page_run s a X m0 :
  holds (pgs s) ((a, 1) :: X) → undisturbed X m0 (pmem s) →
  ∃ p, alloc (free_multiple a 1) s = Ret (tt, PgState p (cr3 s) (tlb s)) ∧ holds p X ∧ undisturbed X m0 (memory p).
Proof.
  intros Hh Hu. destruct (separate_cons _ _ (holds_separate _ _ Hh)) as (_ & _ & Hap).
  destruct (free_ok a 1 (pgs s) X Hh) as (p & Hr & Hh' & Hm). exists p.
  split; [unfold alloc; by rewrite Hr|]. split; [done|]. intros b x Hb Hx. rewrite Hm; [by eapply Hu|].
  destruct (Hap b Hb) as [Ha _]. apply within_spec in Hx. apply within_false. unfold pages_apart in Ha. cbn in Ha. lia.
Qed.

Lemma destroy_entries_ok n : ∀ s pt j X m0,
  0 ≤ j → j + Z.of_nat n ≤ 1024 → (pt, 1) ∈ X →
  holds (pgs s) (frames_from m0 pt j (Z.of_nat n) ++ X) →
  undisturbed X m0 (pmem s) →
  ∃ p, destroy_entries n (pt + 4 * j) s = Ret (tt, PgState p (cr3 s) (tlb s)) ∧ holds p X ∧ undisturbed X m0 (memory p).
Proof.
  induction n as [|n IH]; intros s pt j X m0 Hj Hn HX Hh Hu; cbn [destroy_entries].
  { exists (pgs s). split; [by destruct s|done]. }
  assert (read32 (pmem s) (pt + 4 * j) = read32 m0 (pt + 4 * j)) as Er.
  { apply read32_ext. intros x Hx. apply (Hu (pt, 1)); [done|]. apply within_spec. cbn. lia. }
  unfold frames_from in Hh. rewrite seqZ_cons in Hh by lia. cbn [omap list_omap] in Hh.
  replace (Z.pred (Z.of_nat (S n))) with (Z.of_nat n) in Hh by lia. fold (frames_from m0 pt (Z.succ j) (Z.of_nat n)) in Hh.
  replace (pt + 4 * j + 4) with (pt + 4 * Z.succ j) by lia. pstep. rewrite Er. unfold mapped at 1 in Hh.
  destruct (has (read32 m0 (pt + 4 * j)) PTE_P) eqn:Hp; cbn [app] in Hh.
  - set (w := read32 m0 (pt + 4 * j)) in *.
    assert (page_block (frame_of w, 1)) as Hb by (eapply holds_block; [exact Hh|by left]).
    set (Y := frames_from _ _ _ _ ++ X) in Hh.
    destruct (free_ok (frame_of w) 1 (pgs s) Y Hh) as (p & Hr & Hh' & Hm).
    destruct (separate_cons _ _ (holds_separate _ _ Hh)) as (_ & _ & Hap).
    destruct (IH (PgState p (cr3 s) (tlb s)) pt (Z.succ j) X m0) as (p' & Hr' & Hp'); [lia|lia|done|done| |].
    + intros b x Hbx Hx. unfold pmem. cbn. rewrite Hm; [by eapply Hu|].
      destruct (Hap b) as [Ha _]; [apply elem_of_app; by right|]. apply within_spec in Hx. apply within_false.
      unfold pages_apart in Ha. cbn in Ha. lia.
    + exists p'. split; [|done]. erewrite st_bind_ret; [exact Hr'|].
      erewrite st_bind_ret; [|unfold pure, Palloc.lift; rewrite pte_get_page_spec by done; reflexivity].
      unfold alloc. by rewrite Hr.
  - pstep. apply IH; [lia|lia|done|done|done].
Qed.

Lemma destroy_table_ok n s pt X m0 :
  Z.of_nat n = 1024 → (pt, 1) ∈ X → holds (pgs s) (table_frames m0 pt ++ X) → undisturbed X m0 (pmem s) →
  ∃ p, destroy_entries n pt s = Ret (tt, PgState p (cr3 s) (tlb s)) ∧
    holds p X ∧ undisturbed X m0 (memory p).
Proof.
  intros En HX Hh Hu. rewrite table_frames_unfold in Hh. pose proof (destroy_entries_ok n s pt 0 X m0) as Hd.
  rewrite En, Z.mul_0_r, Z.add_0_r in Hd. apply Hd; [lia|lia|exact HX|exact Hh|exact Hu].
Qed.

Lemma destroy_tables_ok n : ∀ s pd T O m0 i,
  0 ≤ i → i + Z.of_nat n = 768 → (∀ k pt, T !! k = Some pt → i ≤ k < 768) →
  (∀ k, i ≤ k < 768 → read32 m0 (pd + 4 * k) = match T !! k with Some pt => pde_word pt | None => 0 end) →
  holds (pgs s) (owned m0 pd T ++ O) → undisturbed (owned m0 pd T ++ O) m0 (pmem s) →
  ∃ p, destroy_tables n (pd + 4 * i) s = Ret (tt, PgState p (cr3 s) (tlb s)) ∧
    holds p ((pd, 1) :: O) ∧ undisturbed ((pd, 1) :: O) m0 (memory p).
Proof.
  induction n as [|n IH]; intros s pd T O m0 i Hi Hn HT Hd Hh Hu; cbn [destroy_tables].
  { assert (T = ∅) as ->.
    { apply map_eq. intros k. rewrite lookup_empty. destruct (T !! k) as [pt|] eqn:E; [|done].
      pose proof (HT k pt E). lia. }
    unfold owned, table_pages, frames in *. rewrite map_to_list_empty in *. exists (pgs s). split; [by destruct s|done]. }
  assert (read32 (pmem s) (pd + 4 * i) = read32 m0 (pd + 4 * i)) as Er.
  { apply read32_ext. intros x Hx. apply (Hu (pd, 1)); [by left|]. apply within_spec. cbn. lia. }
  replace (pd + 4 * i + 4) with (pd + 4 * (i + 1)) by lia. pstep. rewrite Er, Hd by lia.
  destruct (T !! i) as [pt|] eqn:E.
  - rewrite (owned_split _ _ _ i pt E) in Hh.
    set (X := owned m0 pd (delete i T) ++ O).
    assert (holds (pgs s) (table_frames m0 pt ++ (pt, 1) :: X)) as Hh1.
    { eapply holds_perm; [|exact Hh]. unfold X. cbn [app]. rewrite <-!app_assoc. apply Permutation_middle. }
    assert (undisturbed ((pt, 1) :: X) m0 (pmem s)) as Hu1.
    { eapply undisturbed_mono; [|exact Hu]. intros b Hb. rewrite (owned_split _ _ _ i pt E). unfold X in Hb.
      rewrite elem_of_cons, elem_of_app in Hb. rewrite elem_of_app, elem_of_cons, elem_of_app. tauto. }
    assert (page_block (pt, 1)) as Hp by (eapply holds_block; [exact Hh|by left]).
    destruct (pde_word_spec pt Hp) as (_ & Hg & _ & _ & ->).
    destruct (destroy_table_ok (Z.to_nat (PGSIZE / 4)) s pt ((pt, 1) :: X) m0) as (p1 & Hr1 & Hh2 & Hu2);
      [done|by left|done|done|].
    destruct (free_page_run (PgState p1 (cr3 s) (tlb s)) pt X m0) as (p2 & Hr2 & Hh3 & Hu3).
    { done. }
    { eapply undisturbed_mono; [|exact Hu2]. intros b Hb. by right. }
    destruct (IH (PgState p2 (cr3 s) (tlb s)) pd (delete i T) O m0 (i + 1)) as (p3 & Hr3 & Hp3); [lia|lia| | |done|done|].
    + intros k pt' [Hne Hk]%lookup_delete_Some. pose proof (HT k pt' Hk). lia.
    + intros k Hk. rewrite lookup_delete_ne by lia. apply Hd. lia.
    + exists p3. split; [|done]. erewrite st_bind_ret; [exact Hr3|].
      erewrite st_bind_ret; [|unfold pure, Palloc.lift; rewrite Hg; reflexivity].
      erewrite st_bind_ret by exact Hr1. exact Hr2.
  - pstep. apply (IH s pd T O m0 (i + 1)); [lia|lia| |intros; apply Hd; lia|done|done].
    intros k pt Hk. pose proof (HT k pt Hk). destruct (decide (k = i)) as [->|]; [congruence|lia].
Qed.

Lemma destroy_ok s pd V :
  pd_rel s pd V → pd ≠ init_page_dir →
  ∃ s', pagedir_destroy init_page_dir pd s = Ret (tt, s') ∧ holds (pgs s') V.2 ∧
    undisturbed V.2 (pmem s) (pmem s') ∧ cr3 s' = cr3 s ∧ tlb s' = tlb s.
Proof.
  destruct V as [E O]. intros [[T HR] _] Hinit. cbn [fst snd] in *. unfold pagedir_destroy.
  pose proof (dir_nonnull _ _ _ _ _ HR) as Hn. apply negb_true_iff in Hn. rewrite Hn.
  pstep_by ltac:(by apply negb_true_iff, Z.eqb_neq).
  pose proof (r_dir _ _ _ _ _ HR) as [D1 D2 D3].
  destruct (destroy_tables_ok (Z.to_nat (pd_no PHYS_BASE)) s pd T O (pmem s) 0) as (p1 & Hr1 & Hh1 & Hu1);
    [lia|done|exact D1| |apply (r_holds _ _ _ _ _ HR)|done|].
  { intros k Hk. destruct (T !! k) as [pt|] eqn:Ek; [by apply D2|by apply D3]. }
  destruct (free_page_run (PgState p1 (cr3 s) (tlb s)) pd O (pmem s) Hh1) as (p2 & Hr2 & Hh2 & Hu2).
  { eapply undisturbed_mono; [|exact Hu1]. intros b Hb. by right. }
  rewrite Z.mul_0_r, Z.add_0_r in Hr1. erewrite st_bind_ret by exact Hr1. by eexists.
Qed.

(** What [pagedir_create] needs: a directory of the kernel without user pages,
    and an active directory, both in pages that are held. *)
Record create_pre (s : pgstate P) (O : list (Z * Z)) : Prop := CreatePre {
  cp_holds : holds (pgs s) O;
  cp_init : (init_page_dir, 1) ∈ O;
  cp_user : ∀ i, 0 ≤ i < 768 → read32 (pmem s) (init_page_dir + 4 * i) = 0;
  cp_active : (cr3 s + PHYS_BASE, 1) ∈ O
}.

Definition no_entries : Z → option Z := λ _, None.

Lemma create_ok s O :
  create_pre s O →
  ∃ r s', pagedir_create init_page_dir s = Ret (r, s') ∧ cr3 s' = cr3 s ∧ tlb s' = tlb s ∧
    undisturbed O (pmem s) (pmem s') ∧
    ((r = 0 ∧ holds (pgs s') O) ∨
     (r ≠ 0 ∧ pd_rel s' r (no_entries, O) ∧
      ∀ i, 768 ≤ i < 1024 → read32 (pmem s') (r + 4 * i) = read32 (pmem s) (init_page_dir + 4 * i))).
Proof.
  intros [Hh Hi Hus Hac]. unfold pagedir_create.
  destruct (get_ok 0 1 (pgs s) O Hh) as (a & p & Hr & Hcase); [done|done|].
  erewrite st_bind_ret; [|unfold alloc; rewrite Hr; reflexivity].
  destruct Hcase as [(-> & Hh' & Hm)|(Ha & Hh' & Hm)].
  { exists 0, (PgState p (cr3 s) (tlb s)). cbn. split; [done|]. split; [done|]. split; [done|].
    split; [intros b x _ _; unfold pmem; cbn; by rewrite Hm|]. by left. }
  rewrite (proj2 (Z.eqb_neq _ _) Ha). pstep. eexists a, _. split; [reflexivity|].
  destruct (separate_cons _ _ (holds_separate _ _ Hh')) as (Hp & _ & Hap).
  set (m' := λ x, if within a PGSIZE x then pmem (PgState p (cr3 s) (tlb s)) (init_page_dir + (x - a))
                  else pmem (PgState p (cr3 s) (tlb s)) x).
  assert (∀ x, m' x = if within a 4096 x then pmem s (init_page_dir + (x - a)) else pmem s x) as Em.
  { intros x. unfold m'. change PGSIZE with 4096. unfold pmem. cbn. by rewrite !Hm. }
  assert (∀ i, 0 ≤ i < 1024 → read32 m' (a + 4 * i) = read32 (pmem s) (init_page_dir + 4 * i)) as Hcopy.
  { intros i Hi'. unfold read32. rewrite !Em, !(proj2 (within_spec _ _ _)) by lia.
    replace (init_page_dir + (a + 4 * i - a)) with (init_page_dir + 4 * i) by lia.
    replace (init_page_dir + (a + 4 * i + 1 - a)) with (init_page_dir + 4 * i + 1) by lia.
    replace (init_page_dir + (a + 4 * i + 2 - a)) with (init_page_dir + 4 * i + 2) by lia.
    by replace (init_page_dir + (a + 4 * i + 3 - a)) with (init_page_dir + 4 * i + 3) by lia. }
  split; [done|]. split; [done|]. rewrite pmem_with_pmem. split.
  { intros b x Hb Hx. rewrite Em. rewrite (proj2 (within_false _ _ _)); [done|].
    destruct (Hap b Hb) as [Hab _]. apply within_spec in Hx. unfold pages_apart in Hab. cbn in Hab. lia. }
  right. split; [done|]. split; [|intros i Hi'; apply Hcopy; lia].
  destruct (Hap _ Hac) as [Hab (_ & _ & Hb1 & Hb2)]. cbn in Hb1, Hb2. split; [exists ∅; split|split].
  - cbn. apply holds_set. rewrite pmem_with_pmem. unfold owned, table_pages, frames. by rewrite map_to_list_empty.
  - rewrite pmem_with_pmem. split; [by intros i pt; rewrite lookup_empty..|].
    intros i Hi' _. rewrite Hcopy by lia. by apply Hus.
  - intros v Hv. unfold entry. by rewrite lookup_empty.
  - done.
  - cbn. unfold PHYS_BASE in *. lia.
  - intros Hcr. cbn in Hcr. unfold pages_apart in Hab. cbn in Hab. lia.
Qed.

(** The processor may cache a translation of the active directory. *)
Definition tlb_fill (v w : Z) (s : pgstate P) : pgstate P := PgState (pgs s) (cr3 s) (<[v := Some w]> (tlb s)).

Lemma fill_ok s pd V v w :
  pd_rel s pd V → cr3 s = pd - PHYS_BASE → V.1 v = Some w → has w PTE_P = true →
  pd_rel (tlb_fill v w s) pd V.
Proof.
  intros [[T HR] [Hc Hco]] Hcr HE Hp. split; [exists T; by destruct HR|]. split; [done|].
  intros _ u w0 Hu Ht. cbn in Ht. destruct (decide (u = v)) as [->|Hne].
  - rewrite fn_lookup_insert in Ht. injection Ht as <-. rewrite HE. split; [done|].
    exists w. split_and!; [done|done|]. apply Z.land_diag.
  - rewrite fn_lookup_insert_ne in Ht by done. by apply Hco.
Qed.

Lemma activate_ok s pd V :
  pd_rel s pd V → ∃ s', pagedir_activate init_page_dir pd s = Ret (tt, s') ∧ pd_rel s' pd V ∧ cr3 s' = pd - PHYS_BASE.
Proof.
  intros [[T HR] _]. pose proof (dir_page _ _ _ _ _ HR) as (_ & _ & Hb & He). cbn in Hb, He.
  pose proof (dir_nonnull _ _ _ _ _ HR) as Hn. apply negb_true_iff in Hn.
  destruct (vtop_ptov pd) as (pa & Hv & _ & ->); [lia|]. unfold pagedir_activate. rewrite Hn.
  eexists. split; [erewrite st_bind_ret; [|unfold pure, Palloc.lift; rewrite Hv; reflexivity]; reflexivity|].
  split; [|done]. split; [exists T; by destruct HR|]. split; [unfold PHYS_BASE in *; cbn; lia|]. done.
Qed.

(** ** The property *)

(** A relation that makes directory [pd] an implementation of its view. *)
Record pd_simulation (pd : Z) (R : pgstate P → view → Prop) : Prop := PdSimulation {
  ps_step : ∀ s V o, R s V → pdlegal pd V o →
    ∃ r s' V', run_pdop pd o s = Ret (r, s') ∧ pdspec V o r V' ∧ R s' V' ∧ other_intact pd V s s';
  ps_activate : ∀ s V, R s V →
    ∃ s', pagedir_activate init_page_dir pd s = Ret (tt, s') ∧ R s' V ∧ cr3 s' = pd - PHYS_BASE;
  ps_fill : ∀ s V v w, R s V → cr3 s = pd - PHYS_BASE → V.1 v = Some w → has w PTE_P = true →
    R (tlb_fill v w s) V;
  ps_cached : ∀ s V v w, R s V → cr3 s = pd - PHYS_BASE → 0 ≤ v < user_pages → tlb s v = Some w →
    cached_ok w (V.1 v);
  ps_destroy : ∀ s V, R s V → pd ≠ init_page_dir →
    ∃ s', pagedir_destroy init_page_dir pd s = Ret (tt, s') ∧ holds (pgs s') V.2 ∧
      undisturbed V.2 (pmem s) (pmem s')
}.

(** C14: a page directory implements a map from user pages to frames.
    [pagedir_create] returns null or a directory with the kernel's entries and
    no user page.  From then on every legal call returns and does to the map
    what its comment says, changing no other entry, no mapped frame and no page
    of anyone else;
    every translation the processor has cached agrees with the map, so that an
    access to a page that was cleared faults and the dirty and accessed bits
    are set again after they were cleared; and [pagedir_destroy] gives back the
    directory, its tables and exactly the frames that are mapped. *)
Theorem pagedir_refines_map s O :
  create_pre s O →
  ∃ r s', pagedir_create init_page_dir s = Ret (r, s') ∧ undisturbed O (pmem s) (pmem s') ∧
    ((r = 0 ∧ holds (pgs s') O) ∨
     (r ≠ 0 ∧
      (∀ i, 768 ≤ i < 1024 → read32 (pmem s') (r + 4 * i) = read32 (pmem s) (init_page_dir + 4 * i)) ∧
      ∃ R, R s' (no_entries, O) ∧ pd_simulation r R)).
Proof.
  intros (r & s' & Hr & _ & _ & Hu & Hcase)%create_ok. exists r, s'. split; [done|]. split; [done|].
  destruct Hcase as [?|(Hr0 & HR & Hk)]; [by left|]. right. split; [done|]. split; [done|].
  exists (λ s V, pd_rel s r V). split; [done|]. split.
  - intros s1 V o HV Hl. destruct (pdop_step s1 r V o HV Hl) as (x & s2 & ? & V' & ? & ? & ?). by exists x, s2, V'.
  - intros s1 V HV. by apply activate_ok.
  - intros s1 V v w HV. by apply fill_ok.
  - intros s1 V v w (_ & _ & Hco) Hcr Hv. by apply Hco.
  - intros s1 V HV Hi. destruct (destroy_ok s1 r V HV Hi) as (s2 & ? & ? & ? & _). by exists s2.
Qed.
End refine.

Lemma pagedir_refines_map_witness :
  ∃ s : pgstate Palloc.pstate, create_pre 0xc0100000 s [(0xc0100000, 1)] ∧
  ∃ r s', pagedir_create 0xc0100000 s = Ret (r, s') ∧ undisturbed [(0xc0100000, 1)] (pmem s) (pmem s') ∧
    ((r = 0 ∧ holds (pgs s') [(0xc0100000, 1)]) ∨
     (r ≠ 0 ∧
      (∀ i, 768 ≤ i < 1024 → read32 (pmem s') (r + 4 * i) = read32 (pmem s) (0xc0100000 + 4 * i)) ∧
      ∃ R, R s' (no_entries, [(0xc0100000, 1)]) ∧ pd_simulation 0xc0100000 16 r R)).
Proof.
  destruct ex_page_hold as (p & _ & Hh & Hm). exists (PgState p 0x100000 (λ _, None)).
  assert (create_pre 0xc0100000 (PgState p 0x100000 (λ _, None)) [(0xc0100000, 1)]) as Hpre.
  { split; [done|by left| |by left]. intros i _. unfold read32, pmem. cbn [pgs]. by rewrite !Hm. }
  split; [done|]. apply (pagedir_refines_map 0xc0100000 16). exact Hpre.
Defined.
