(* ===== verification/Ustar.v ===== *)
(** * Archive headers ([lib/ustar.c], [lib/ustar.h])

    A header is its 512 bytes; the fields of [struct ustar_header] are named by
    their position in [layout], the list of their sizes.  Fields are written by
    [strlcpy] of [Cstring] and [snprintf] of [Stdio], each run on the bytes of
    the field.  A string is the list of its characters up to the null byte.
    The theorems show that [ustar_parse_header] reads back what
    [ustar_make_header] wrote, that the names it returns do not start with a
    prefix that leaves the directory, and that no change of one byte outside of
    the checksum goes unnoticed. *)

From Stdlib Require Import ZArith Lia Ascii String.
From stdpp Require Import base tactics list numbers option sets.
From S2P Require Import Prelude Cstring Stdio.

Local Open Scope Z_scope.

Inductive ustar_type : Type := USTAR_REGULAR | USTAR_DIRECTORY | USTAR_EOF.

#[global] Instance ustar_type_eq_dec : EqDecision ustar_type.
Proof. solve_decision. Defined.

(** The values of the enumeration: the bytes of the file format. *)
Definition ustar_code (t : ustar_type) : Z :=
  match t with USTAR_REGULAR => chr "0" | USTAR_DIRECTORY => chr "5" | USTAR_EOF => -1 end.

Definition USTAR_HEADER_SIZE : nat := 512.

(** The sizes of the fields of [struct ustar_header], in order, and the
    positions of the fields the code uses. *)
Definition layout : list nat := [100; 8; 8; 8; 12; 12; 8; 1; 100; 6; 2; 32; 32; 8; 8; 155; 12]%nat.

Definition f_name : nat := 0.
Definition f_mode : nat := 1.
Definition f_uid : nat := 2.
Definition f_gid : nat := 3.
Definition f_size : nat := 4.
Definition f_mtime : nat := 5.
Definition f_chksum : nat := 6.
Definition f_typeflag : nat := 7.
Definition f_magic : nat := 9.
Definition f_version : nat := 10.
Definition f_uname : nat := 11.
Definition f_gname : nat := 12.
Definition f_prefix : nat := 15.

(** [sizeof h->f], [offsetof (struct ustar_header, f)] and
    [sizeof (struct ustar_header)]. *)
Definition size_of (f : nat) : nat := layout !!! f.
Definition offset_of (f : nat) : nat := sum_list (take f layout).
Definition header_size : nat := sum_list layout.

Definition get_field (f : nat) (h : list Z) : list Z := take (size_of f) (drop (offset_of f) h).
Definition set_field (f : nat) (v : list Z) (h : list Z) : list Z :=
  take (offset_of f) h ++ v ++ drop (offset_of f + size_of f) h.

Definition calculate_chksum (h : list Z) : Z :=
  foldl (λ chksum i,
    let in_chksum_field := bool_decide (offset_of f_chksum ≤ i ∧ i < offset_of f_chksum + size_of f_chksum)%nat in
    u32 (chksum + (if in_chksum_field then chr " " else h !!! i))) 0 (seq 0 USTAR_HEADER_SIZE).

(** [!memcmp (s, lit, strlen (lit))]: [memcmp] stops at the first difference,
    at the latest at the null byte of [s]. *)
Definition starts_with (s : list Z) (lit : string) : bool :=
  bool_decide (take (length (str lit)) (s ++ [0]) = str lit).

(** [strchr (s, '/') + 1] *)
Fixpoint after_slash (s : list Z) : outcome (list Z) :=
  match s with
  | [] => Panic
  | c :: s => if c =? chr "/" then Ret s else after_slash s
  end.

Definition antisocial (s : list Z) : bool :=
  starts_with s "/" || starts_with s "./" || starts_with s "../".

Fixpoint strip_loop (fuel : nat) (file_name : list Z) : outcome (list Z) :=
  match fuel with
  | O => Diverge
  | S fuel => if antisocial file_name then s ← after_slash file_name; strip_loop fuel s else Ret file_name
  end.

(** Every pass takes a character off the name. *)
Definition strip_antisocial_prefixes (file_name : list Z) : outcome (list Z) :=
  s ← strip_loop (S (length file_name)) file_name;
  Ret (if bool_decide (s = []) || bool_decide (s = str "..") then str "." else s).

(** [strlcpy (h->f, s, sizeof h->f)]: the source [s] lies outside of the header. *)
Definition strlcpy_field (f : nat) (s : list Z) (h : list Z) : outcome (list Z) :=
  let field := get_field f h in
  '(_, m) ← strlcpy 1 (1 + length field) (size_of f) (0 :: field ++ s ++ [0]);
  Ret (set_field f (take (size_of f) (tail m)) h).

(** [snprintf (h->f, size, format, arg)] for an integer: no memory is read but the format. *)
Definition snprintf_field (f : nat) (size : nat) (format : string) (arg : Z) (h : list Z) : outcome (list Z) :=
  '(field, _) ← snprintf (λ _, []) (get_field f h) (Z.of_nat size) (lit format) [arg];
  Ret (set_field f field h).

(** The address of the file name, any but the null pointer. *)
Definition file_name_ptr : Z := 0xc0020000.

(** The result: success, the header and what is printed. *)
Definition ustar_make_header (file_name : list Z) (type : ustar_type) (size : Z) (header : list Z) :
  outcome (bool * list Z * list Z) :=
  ASSERT (header_size =? USTAR_HEADER_SIZE)%nat;;
  ASSERT (bool_decide (type = USTAR_REGULAR) || bool_decide (type = USTAR_DIRECTORY));;
  file_name ← strip_antisocial_prefixes file_name;
  if 99 <? Z.of_nat (length file_name) then
    message ← __vprintf (λ _, file_name ++ [0]) (str "%s: file name too long" ++ [10; 0]) [file_name_ptr];
    Ret (false, header, message)
  else
    let h := replicate header_size 0 in
    h ← strlcpy_field f_name file_name h;
    h ← snprintf_field f_mode (size_of f_mode) "%07o" (if decide (type = USTAR_REGULAR) then 420 else 493) h;
    h ← strlcpy_field f_uid (str "0000000") h;
    h ← strlcpy_field f_gid (str "0000000") h;
    h ← snprintf_field f_size (size_of f_size) "%011o" (u32 size) h;
    h ← snprintf_field f_mtime (size_of f_size) "%011o" 1136102400 h;
    let h := set_field f_typeflag [u8 (ustar_code type)] h in
    h ← strlcpy_field f_magic (str "ustar") h;
    let h := set_field f_version [chr "0"; chr "0"] h in
    h ← strlcpy_field f_gname (str "root") h;
    h ← strlcpy_field f_uname (str "root") h;
    h ← snprintf_field f_chksum (size_of f_chksum) "%07o" (calculate_chksum h) h;
    Ret (true, h, []).

(** The value of an octal field, if it has one; [ofs] characters were read. *)
Fixpoint octal_loop (s : list Z) (ofs : nat) (value : Z) : option Z :=
  match s with
  | [] => None
  | c :: s =>
      if (chr "0" <=? c) && (c <=? chr "7") then
        if (2 ^ 32 - 1) / 8 <? value then None
        else octal_loop s (S ofs) (u32 (c - chr "0" + value * 8))
      else if (c =? chr " ") || (c =? 0) then if (0 <? ofs)%nat then Some value else None
      else None
  end.

Definition parse_octal_field (s : list Z) : option Z := octal_loop s 0 0.

Fixpoint is_all_zeros (block : list Z) : bool :=
  match block with
  | [] => true
  | c :: block => if negb (c =? 0) then false else is_all_zeros block
  end.

(** The string that starts at the first of the bytes. *)
Fixpoint c_string (bytes : list Z) : list Z :=
  match bytes with
  | [] => []
  | c :: bytes => if c =? 0 then [] else c :: c_string bytes
  end.

(** An error message, or the name ([None] for a null pointer), type and size. *)
Inductive ustar_result : Type :=
| Error (message : string)
| Parsed (file_name : option (list Z)) (type : ustar_type) (size : Z).

Definition ustar_parse_header (header : list Z) : outcome ustar_result :=
  ASSERT (header_size =? USTAR_HEADER_SIZE)%nat;;
  if is_all_zeros header then Ret (Parsed None USTAR_EOF 0)
  else if negb (bool_decide (get_field f_magic header = str "ustar" ++ [0])) then Ret (Error "not a ustar archive")
  else if negb (bool_decide (get_field f_version header = [chr "0"; chr "0"])) then Ret (Error "invalid ustar version")
  else
    match parse_octal_field (get_field f_chksum header) with
    | None => Ret (Error "corrupt chksum field")
    | Some chksum =>
        if negb (chksum =? calculate_chksum header) then Ret (Error "checksum mismatch")
        else if negb (get_field f_name header !!! (size_of f_name - 1)%nat =? 0) ||
                negb (get_field f_prefix header !!! 0%nat =? 0) then Ret (Error "file name too long")
        else
          let typeflag := get_field f_typeflag header !!! 0%nat in
          if typeflag =? ustar_code USTAR_REGULAR then
            match parse_octal_field (get_field f_size header) with
            | None => Ret (Error "corrupt file size field")
            | Some size_ul =>
                if INT_MAX <? size_ul then Ret (Error "file too large")
                else name ← strip_antisocial_prefixes (c_string header); Ret (Parsed (Some name) USTAR_REGULAR size_ul)
            end
          else if typeflag =? ustar_code USTAR_DIRECTORY then
            name ← strip_antisocial_prefixes (c_string header); Ret (Parsed (Some name) USTAR_DIRECTORY 0)
          else Ret (Error "unimplemented file type")
    end.

(** ** Prefixes *)

Definition safe_name (s : list Z) : Prop :=
  s ≠ [] ∧ s ≠ str ".." ∧ antisocial s = false.

Lemma after_slash_spec s : chr "/" ∈ s → ∃ t, after_slash s = Ret t ∧ t `suffix_of` s ∧ (length t < length s)%nat.
Proof.
  induction s as [|c s IH]; [set_solver|]. intros Hin. cbn [after_slash]. destruct (Z.eqb_spec c (chr "/")).
  - exists s. split_and!; [done|by exists [c]|cbn; lia].
  - destruct IH as (t & E & [p ->] & Hl); [set_solver|]. exists t. split_and!; [done|by exists (c :: p)|cbn; lia].
Qed.

Lemma starts_with_slash s lit : starts_with s lit = true → chr "/" ∈ str lit → (0 ∉ str lit) → chr "/" ∈ s.
Proof.
  unfold starts_with. intros E%bool_decide_eq_true Hin Hz. rewrite <- E in Hin.
  apply elem_of_take in Hin as (i & Hi & _). apply list_elem_of_lookup_2 in Hi.
  apply elem_of_app in Hi as [|Hi]; [done|]. set_solver.
Qed.

Lemma antisocial_slash s : antisocial s = true → chr "/" ∈ s.
Proof.
  unfold antisocial. intros [[H|H]%orb_true_iff|H]%orb_true_iff; eapply starts_with_slash; try exact H; by_decide.
Qed.

Lemma strip_loop_spec fuel : ∀ s, (length s < fuel)%nat →
  ∃ t, strip_loop fuel s = Ret t ∧ t `suffix_of` s ∧ antisocial t = false.
Proof.
  induction fuel as [|fuel IH]; intros s Hl; [lia|]. cbn [strip_loop]. destruct (antisocial s) eqn:E; [|by exists s].
  destruct (after_slash_spec s) as (t & -> & Hs & Ht); [by apply antisocial_slash|]. cbn [mbind outcome_bind].
  destruct (IH t) as (u & Eu & Hu & Ha); [lia|]. exists u. split_and!; [done| |done]. by trans t.
Qed.

Lemma strip_antisocial_spec s :
  ∃ t, strip_antisocial_prefixes s = Ret t ∧ safe_name t ∧ (t = str "." ∨ t `suffix_of` s).
Proof.
  unfold strip_antisocial_prefixes. destruct (strip_loop_spec (S (length s)) s) as (t & -> & Hs & Ha); [lia|].
  cbn [mbind outcome_bind]. repeat case_bool_decide; cbn [orb];
    (eexists; split; [done|]; split; [|by (by left) || right]); try done; by split_and!.
Qed.

(** The name of an entry is left as it is. *)
Lemma strip_safe s : safe_name s → strip_antisocial_prefixes s = Ret s.
Proof.
  intros (H1 & H2 & H3). unfold strip_antisocial_prefixes. cbn [strip_loop]. rewrite H3. cbn [mbind outcome_bind].
  by rewrite !bool_decide_eq_false_2 by done.
Qed.

(** ** Fields *)

(** The contents of the fields, in order. *)
Definition fields_of (fs : list (list Z)) : Prop := map length fs = layout.

Lemma concat_take {A} (fs : list (list A)) i : take (sum_list (take i (map length fs))) (concat fs) = concat (take i fs).
Proof.
  revert i. induction fs as [|x fs IH]; intros [|i]; [done..|]. cbn [map take concat].
  change (sum_list (length x :: ?l)) with (length x + sum_list l)%nat. by rewrite take_app_add, IH.
Qed.

Lemma concat_drop {A} (fs : list (list A)) i : drop (sum_list (take i (map length fs))) (concat fs) = concat (drop i fs).
Proof.
  revert i. induction fs as [|x fs IH]; intros [|i]; [done..|]. cbn [map take drop concat].
  change (sum_list (length x :: ?l)) with (length x + sum_list l)%nat. by rewrite drop_app_add, IH.
Qed.

Lemma field_split fs f v :
  fields_of fs → fs !! f = Some v → length v = size_of f ∧ drop (offset_of f) (concat fs) = v ++ concat (drop (S f) fs).
Proof.
  intros Hfs Hf. unfold offset_of, size_of. rewrite <- Hfs, concat_drop, (drop_S _ _ _ Hf). split; [|done].
  symmetry. apply list_lookup_total_correct. change (map length fs) with (length <$> fs). by rewrite list_lookup_fmap, Hf.
Qed.

Lemma get_field_concat fs f v : fields_of fs → fs !! f = Some v → get_field f (concat fs) = v.
Proof. intros Hfs Hf. destruct (field_split _ _ _ Hfs Hf) as [Hl E]. unfold get_field. by rewrite E, <- Hl, take_app_length. Qed.

Lemma set_field_concat fs f v x :
  fields_of fs → fs !! f = Some v → length x = length v →
  set_field f x (concat fs) = concat (<[f := x]> fs) ∧ fields_of (<[f := x]> fs).
Proof.
  intros Hfs Hf Hx. destruct (field_split _ _ _ Hfs Hf) as [Hl E]. split.
  - unfold set_field. rewrite <- drop_drop, E, <- Hl, drop_app_length. unfold offset_of. rewrite <- Hfs, concat_take.
    rewrite insert_take_drop by (by eapply lookup_lt_Some). by rewrite concat_app.
  - unfold fields_of. rewrite <- Hfs. change (length <$> <[f:=x]> fs = length <$> fs).
    rewrite list_fmap_insert, Hx. apply list_insert_id. by rewrite list_lookup_fmap, Hf.
Qed.

Definition no_fields : list (list Z) := map (λ n, replicate n 0) layout.

Lemma no_fields_of : fields_of no_fields ∧ replicate header_size 0 = concat no_fields.
Proof. split; reflexivity. Qed.

(** A string in a field of its own, padded with null bytes. *)
Definition padded (n : nat) (s : list Z) : list Z := s ++ replicate (n - length s) 0.

Lemma length_padded n s : (length s ≤ n)%nat → length (padded n s) = n.
Proof. intros. unfold padded. rewrite length_app, length_replicate. lia. Qed.

Lemma strlcpy_field_spec fs f n s :
  fields_of fs → fs !! f = Some (replicate n 0) → (0 ∉ s) → (length s < n)%nat →
  strlcpy_field f s (concat fs) = Ret (concat (<[f := padded n s]> fs)) ∧ fields_of (<[f := padded n s]> fs).
Proof.
  intros Hfs Hf Hz Hl. destruct (field_split _ _ _ Hfs Hf) as [Hn _]. rewrite length_replicate in Hn.
  unfold strlcpy_field. rewrite (get_field_concat _ _ _ Hfs Hf), length_replicate, <- Hn.
  set (m := 0 :: replicate n 0 ++ s ++ [0]).
  assert (length m = n + length s + 2)%nat as Hm by (cbn; rewrite !length_app, length_replicate; cbn; lia).
  destruct (strlcpy_run m 1 (1 + n) n s) as (m' & -> & Hm' & Hc & Hk); [|lia..|].
  { split_and!; [lia|done|]. exists (0 :: replicate n 0), []. split; [done|cbn; by rewrite length_replicate]. }
  cbn [mbind outcome_bind]. assert (take n (tail m') = padded n s) as ->.
  2: { destruct (set_field_concat fs f _ (padded n s) Hfs Hf) as [-> ?]; [|done].
       rewrite length_padded, length_replicate; lia. }
  rewrite Hm in Hm'. rewrite take_ge in Hc by lia. destruct Hc as (_ & _ & pre & post & -> & Hpre).
  destruct pre as [|x [|? ?]]; cbn in Hpre; try lia. cbn [app tail]. cbn in Hm'. rewrite length_app in Hm'. cbn in Hm'.
  unfold padded. rewrite take_app_ge by lia. f_equal.
  replace (n - length s)%nat with (S (n - length s - 1)) by lia. cbn [take replicate]. f_equal.
  symmetry. apply (proj2 (replicate_as_elem_of _ _ _)). rewrite length_take. split; [lia|].
  intros y (i & Hi & Hin)%elem_of_take. specialize (Hk (S (length s + S i))%nat ltac:(lia)).
  change ((s ++ 0 :: post) !! (length s + S i)%nat = (replicate n 0 ++ s ++ [0]) !! (length s + S i)%nat) in Hk.
  rewrite lookup_app_r, (lookup_app_l (replicate n 0)), lookup_replicate_2 in Hk by (rewrite ?length_replicate; lia).
  replace (length s + S i - length s)%nat with (S i) in Hk by lia. change (post !! i = Some 0) in Hk. congruence.
Qed.

Lemma snprintf_field_spec fs f n size format arg out :
  fields_of fs → fs !! f = Some (replicate n 0) → __vprintf (λ _, []) (lit format) [arg] = Ret out →
  (length out < size)%nat → (size ≤ n)%nat →
  snprintf_field f size format arg (concat fs) = Ret (concat (<[f := padded n out]> fs)) ∧
  fields_of (<[f := padded n out]> fs).
Proof.
  intros Hfs Hf E Ho Hs. destruct (field_split _ _ _ Hfs Hf) as [Hn _]. rewrite length_replicate in Hn.
  assert (n ≤ 512)%nat as Hbig.
  { apply lookup_lt_Some in Hf. pose proof (f_equal length Hfs) as Hlen. rewrite length_map in Hlen. cbn in Hlen.
    rewrite Hn. unfold size_of, layout. do 17 (destruct f as [|f]; [cbn; lia|]). lia. }
  unfold snprintf_field, snprintf. rewrite (get_field_concat _ _ _ Hfs Hf).
  rewrite (vsnprintf_spec _ _ _ _ _ out) by (try done; rewrite ?length_replicate; lia). cbn [mbind outcome_bind].
  rewrite take_ge by lia. replace (Z.to_nat (Z.of_nat size - 1) `min` length out)%nat with (length out) by lia.
  assert (out ++ [0] ++ drop (length out + 1) (replicate n 0) = padded n out) as ->.
  { unfold padded. f_equal. rewrite drop_replicate. replace (n - length out)%nat with (S (n - (length out + 1))) by lia.
    done. }
  destruct (set_field_concat fs f _ (padded n out) Hfs Hf) as [-> ?]; [|done].
  rewrite length_padded, length_replicate; lia.
Qed.

Lemma length_header fs : fields_of fs → length (concat fs) = USTAR_HEADER_SIZE.
Proof.
  intros Hfs. transitivity (sum_list (map length fs)); [|by rewrite Hfs].
  clear Hfs. induction fs as [|x fs IH]; [done|]. cbn [concat]. rewrite length_app, IH. done.
Qed.

(** ** Octal numbers *)

Definition octal (l : list Z) (v : Z) : Z := foldl (λ n c, n * 8 + (c - chr "0")) v l.
Definition octal_digits (l : list Z) : Prop := Forall (λ c, chr "0" ≤ c ≤ chr "7") l.

Lemma octal_le l : ∀ v, octal_digits l → 0 ≤ v → v ≤ octal l v.
Proof.
  induction l as [|c l IH]; intros v Hd Hv; [done|]. inversion_clear Hd as [|? ? Hc Hd'].
  change (v ≤ octal l (v * 8 + (c - chr "0"))). specialize (IH (v * 8 + (c - chr "0")) Hd'). lia.
Qed.

Lemma octal_loop_spec l rest : ∀ ofs v,
  octal_digits l → 0 ≤ v → octal l v < 2 ^ 32 → (0 < ofs + length l)%nat →
  octal_loop (l ++ 0 :: rest) ofs v = Some (octal l v).
Proof.
  induction l as [|c l IH]; intros ofs v Hd Hv Hb Hl; cbn [app octal_loop].
  - change (_ && _) with false. cbn iota. rewrite Z.eqb_refl, orb_true_r. cbn in Hl.
    by rewrite (proj2 (Nat.ltb_lt 0 ofs)) by lia.
  - inversion_clear Hd as [|? ? Hc Hd']. change (octal (c :: l) v) with (octal l (v * 8 + (c - chr "0"))) in *.
    pose proof (octal_le l (v * 8 + (c - chr "0")) Hd' ltac:(lia)).
    rewrite !(proj2 (Z.leb_le _ _)) by lia. cbn [andb].
    rewrite (proj2 (Z.ltb_ge _ v)) by (apply Z.div_le_lower_bound; lia).
    rewrite u32_id by lia. replace (c - chr "0" + v * 8) with (v * 8 + (c - chr "0")) by lia.
    apply IH; [done|lia|done|lia].
Qed.

Lemma parse_octal l :
  octal_digits l → l ≠ [] → octal l 0 < 2 ^ 32 → parse_octal_field (l ++ [0]) = Some (octal l 0).
Proof. intros Hd Hl Hb. apply octal_loop_spec; [done|lia|done|]. destruct l; [done|cbn; lia]. Qed.

Lemma octal_value ds : Forall (.∈ digits base_o) ds → octal_digits (rev ds) ∧ octal (rev ds) 0 = value_of base_o ds.
Proof.
  induction 1 as [|c ds Hc _ [IH1 IH2]]; [by split; [constructor|]|]. cbn [rev].
  assert (chr "0" ≤ c ≤ chr "7" ∧ digit_value base_o c = c - chr "0") as [Hr Hv].
  { revert c Hc. apply Forall_forall. repeat (constructor; [split; [vm_compute; split; discriminate|reflexivity]|]). constructor. }
  split; [apply Forall_app; by split; [|constructor]|].
  unfold octal in *. rewrite foldl_app. cbn [foldl value_of]. rewrite IH2. unfold digit_value in Hv. rewrite Hv.
  change (base base_o) with 8. lia.
Qed.

Lemma octal_zeros n l : octal (replicate n (chr "0") ++ l) 0 = octal l 0.
Proof. induction n as [|n IH]; [done|]. exact IH. Qed.

(** A conversion padded with zeros to the width [w]. *)
Lemma octal_format w v :
  (0 < w ≤ 21)%nat → 0 ≤ v < 8 ^ Z.of_nat w →
  ∃ out, format_integer v false false base_o (Conversion ZERO (Z.of_nat w) (-1) INT) = Ret out ∧
    length out = w ∧ octal_digits out ∧ octal out 0 = v.
Proof.
  intros Hw Hv. unfold format_integer, render_digits. cbn [flags precision width].
  destruct (digit_loop_spec base_o ZERO w 65 v 0 []) as (ds & -> & _ & Hd); [by right; left|done|lia|cbn; lia|].
  destruct (Hd eq_refl) as (Hval & Hdig & Hlen). rewrite ret_bind. cbn [app].
  set (ds' := if decide (ds = []) then [chr "0"] else ds).
  assert (zero_loop 65 1 ds = Ret ds') as E.
  { unfold ds'. case_decide; [subst; reflexivity|]. destruct ds; [done|].
    change (Pos.to_nat 1) with 1%nat. cbn [zero_loop]. by rewrite (proj2 (Z.ltb_ge _ 1)) by (cbn; lia). }
  change (-1 <? 0) with true. cbn iota. rewrite E, ret_bind.
  change (has ZERO POUND) with false. change (has ZERO (Z.lor MINUS ZERO)) with true.
  change (has ZERO ZERO) with true. change (has ZERO MINUS) with false.
  change (sign_char false false ZERO) with 0. cbn [andb]. rewrite ret_bind. cbn [Z.eqb app]. rewrite app_nil_r.
  assert (value_of base_o ds' = v ∧ Forall (.∈ digits base_o) ds' ∧ (length ds' ≤ w)%nat) as (Hv' & Hf' & Hl').
  { unfold ds'. case_decide; [|done]. subst ds. cbn in Hval. subst v.
    split_and!; [done|repeat constructor|cbn; lia]. }
  assert (s32 (s32 (s32 (Z.of_nat w - Z.of_nat (length ds')) - 0) - 0) = Z.of_nat w - Z.of_nat (length ds')) as ->.
  { rewrite !Z.sub_0_r, !(s32_id (Z.of_nat w - _)) by lia. done. }
  rewrite (proj2 (Z.ltb_ge _ 0)) by lia. unfold output_dup. rewrite u32_id by lia. eexists. split; [done|].
  destruct (octal_value ds' Hf') as [Hd1 Hd2]. split_and!.
  - rewrite length_app, length_replicate, length_rev. lia.
  - apply Forall_app. split; [|done]. apply Forall_replicate. done.
  - by rewrite octal_zeros, Hd2.
Qed.

Lemma octal_print w s v :
  (w = 7%nat ∧ s = "%07o"%string ∨ w = 11%nat ∧ s = "%011o"%string) → 0 ≤ v < 8 ^ Z.of_nat w → v < 2 ^ 32 →
  ∃ out, __vprintf (λ _, []) (lit s) [v] = Ret out ∧ length out = w ∧ octal_digits out ∧ octal out 0 = v.
Proof.
  intros Hw Hv H32. destruct (octal_format w v) as (out & E & Ho); [destruct Hw as [[-> _]|[-> _]]; lia|done|].
  exists (out ++ []). rewrite app_nil_r. split; [|done].
  assert (convert (λ _, []) (chr "o") (Conversion ZERO (Z.of_nat w) (-1) INT) [v] = Ret (Some (out, []))) as Ec.
  { unfold convert. change (is_one_of (chr "o") "di") with false. change (is_one_of (chr "o") "ouxX") with true.
    cbn iota. cbn [unsigned_arg type va_word mbind outcome_bind]. rewrite u32_id by lia.
    change (base_of (chr "o")) with base_o. by rewrite E. }
  unfold __vprintf. replace out with (out ++ []) by apply app_nil_r.
  destruct Hw as [[-> ->]|[-> ->]];
  (rewrite Nat.add_comm; cbn [Nat.add];
   erewrite vprintf_loop_step; [|reflexivity|discriminate|eapply vprintf_step_convert; [discriminate|discriminate|reflexivity|exact Ec]];
   reflexivity).
Qed.

(** ** The checksum *)

(** The byte at [i] as the checksum counts it. *)
Definition counted (h : list Z) (i : nat) : Z :=
  if bool_decide (offset_of f_chksum ≤ i ∧ i < offset_of f_chksum + size_of f_chksum)%nat then chr " " else h !!! i.
Definition total (f : nat → Z) (l : list nat) : Z := foldr (λ i s, f i + s) 0 l.

Lemma chksum_total h : calculate_chksum h = u32 (total (counted h) (seq 0 USTAR_HEADER_SIZE)).
Proof.
  unfold calculate_chksum. change 0 with (u32 0) at 1. fold (counted h).
  enough (∀ l a, foldl (λ c i, u32 (c + counted h i)) (u32 a) l = u32 (a + total (counted h) l)) as E by apply (E _ 0).
  induction l as [|i l IH]; intros a; cbn [foldl]; [by cbn; rewrite Z.add_0_r|].
  assert (u32 (u32 a + counted h i) = u32 (a + counted h i)) as -> by (unfold u32; by rewrite Zplus_mod_idemp_l).
  rewrite IH. unfold total. cbn [foldr]. f_equal. lia.
Qed.

Lemma total_ext f g l : (∀ i, i ∈ l → f i = g i) → total f l = total g l.
Proof.
  unfold total. induction l as [|i l IH]; intros He; [done|]. cbn [foldr].
  rewrite (He i), IH by set_solver. done.
Qed.

Lemma total_update f g l j :
  NoDup l → j ∈ l → (∀ i, i ≠ j → f i = g i) → total g l = total f l + (g j - f j).
Proof.
  intros Hnd (l1 & l2 & ->)%list_elem_of_split Hne. unfold total. rewrite !foldr_app. cbn [foldr].
  apply NoDup_app in Hnd as (_ & Hd & [Hj _]%NoDup_cons).
  fold (total f l2) (total g l2). rewrite (total_ext g f l2) by (intros i Hi; symmetry; apply Hne; by intros ->).
  assert (∀ i, i ∈ l1 → f i = g i) as H1 by (intros i Hi; apply Hne; intros ->; apply (Hd j Hi); set_solver).
  clear -H1. induction l1 as [|i l1 IH]; cbn [foldr]; [lia|]. rewrite (H1 i), IH by set_solver. lia.
Qed.

Definition byte (c : Z) : Prop := 0 ≤ c < 256.

Lemma counted_byte h i : Forall byte h → length h = USTAR_HEADER_SIZE → (i < USTAR_HEADER_SIZE)%nat → byte (counted h i).
Proof.
  intros Hb Hl Hi. unfold counted. case_bool_decide; [by vm_compute|].
  eapply (Forall_lookup_1 _ _ i _ Hb), list_lookup_lookup_total_lt. lia.
Qed.

Lemma total_range h k :
  Forall byte h → length h = USTAR_HEADER_SIZE → (k ≤ USTAR_HEADER_SIZE)%nat →
  0 ≤ total (counted h) (seq (USTAR_HEADER_SIZE - k) k) ≤ 255 * Z.of_nat k.
Proof.
  intros Hb Hl. unfold USTAR_HEADER_SIZE in *. induction k as [|k IH]; intros Hk; [by cbn|].
  replace (seq (512 - S k) (S k)) with ((512 - S k)%nat :: seq (512 - k) k)
    by (cbn [seq]; do 2 f_equal; lia).
  pose proof (counted_byte h (512 - S k) Hb Hl ltac:(unfold USTAR_HEADER_SIZE; lia)) as Hc. unfold byte in Hc.
  specialize (IH ltac:(lia)). unfold total in *. cbn [foldr]. lia.
Qed.

Lemma chksum_range h :
  Forall byte h → length h = USTAR_HEADER_SIZE →
  calculate_chksum h = total (counted h) (seq 0 USTAR_HEADER_SIZE) ∧ 0 ≤ calculate_chksum h < 8 ^ 7.
Proof.
  intros Hb Hl. pose proof (total_range h USTAR_HEADER_SIZE Hb Hl ltac:(done)) as Hr.
  rewrite Nat.sub_diag in Hr. rewrite chksum_total, u32_id by (unfold USTAR_HEADER_SIZE in *; lia).
  split; [done|]. change (8 ^ 7) with 2097152. unfold USTAR_HEADER_SIZE in *. lia.
Qed.

Lemma set_field_lookup f v h i :
  length v = size_of f → (offset_of f + size_of f ≤ length h)%nat →
  (i < offset_of f ∨ offset_of f + size_of f ≤ i)%nat → set_field f v h !! i = h !! i.
Proof.
  intros Hv Hh Hi. unfold set_field. destruct Hi as [Hi|Hi].
  - rewrite lookup_app_l by (rewrite length_take; lia). by apply lookup_take_lt.
  - rewrite lookup_app_r by (rewrite length_take; lia). rewrite length_take, lookup_app_r by lia.
    rewrite lookup_drop. f_equal. lia.
Qed.

(** The checksum does not depend on its field. *)
Lemma chksum_set_chksum v h :
  length v = size_of f_chksum → length h = USTAR_HEADER_SIZE → calculate_chksum (set_field f_chksum v h) = calculate_chksum h.
Proof.
  intros Hv Hh. rewrite !chksum_total. f_equal. apply total_ext. intros i _. unfold counted. case_bool_decide; [done|].
  rewrite !list_lookup_total_alt, set_field_lookup; [done|done| |lia]. rewrite Hh. vm_compute. lia.
Qed.

(** ** Composing a header *)

(** The fields of the header of a file: all of them but the checksum. *)
Record describes (fs : list (list Z)) (s : list Z) (t : ustar_type) (size : Z) : Prop := {
  d_fields : fields_of fs;
  d_bytes : Forall byte (concat fs);
  d_name : fs !! f_name = Some (padded 100 s);
  d_size : ∃ out, fs !! f_size = Some (out ++ [0]) ∧ octal_digits out ∧ out ≠ [] ∧ octal out 0 = size;
  d_type : fs !! f_typeflag = Some [ustar_code t];
  d_magic : fs !! f_magic = Some (str "ustar" ++ [0]);
  d_version : fs !! f_version = Some [chr "0"; chr "0"];
  d_prefix : fs !! f_prefix = Some (replicate 155 0)
}.

Lemma padded_bytes n s : Forall byte s → Forall byte (padded n s).
Proof. intros. apply Forall_app. split; [done|]. by apply Forall_replicate. Qed.

Lemma octal_bytes l : octal_digits l → Forall byte l.
Proof.
  intros H. eapply Forall_impl; [exact H|]. intros c. change (chr "0") with 48. change (chr "7") with 55.
  unfold byte. lia.
Qed.

Lemma concat_bytes (fs : list (list Z)) : Forall (Forall byte) fs → Forall byte (concat fs).
Proof. induction 1; cbn [concat]; [constructor|]. by apply Forall_app. Qed.

(** The checksum may be filled in last. *)
Lemma describes_chksum fs s t size out :
  describes fs s t size → octal_digits out → fields_of (<[f_chksum := padded 8 out]> fs) →
  describes (<[f_chksum := padded 8 out]> fs) s t size.
Proof.
  intros [Hf Hb H1 (os & H2 & Hos) H3 H4 H5 H6] Ho Hf'.
  split; rewrite ?list_lookup_insert_ne by done; try done; [|by exists os].
  apply concat_bytes. apply Forall_insert; [|by apply padded_bytes, octal_bytes].
  clear -Hb. induction fs as [|x fs IH]; [constructor|]. cbn [concat] in Hb. apply Forall_app in Hb as [Hx Hb].
  constructor; auto.
Qed.

(** Runs the next write to a field of [concat fs]. *)
Ltac field_step :=
  match goal with
  | Hfs : fields_of ?fs |- context [strlcpy_field ?f ?s (concat ?fs)] =>
      let n := eval vm_compute in (size_of f) in
      let E := fresh "E" in let H := fresh "H" in
      destruct (strlcpy_field_spec fs f n s Hfs) as [E H]; [reflexivity|assumption || by_decide|cbn; lia|];
      rewrite E, ret_bind; clear E Hfs; cbv zeta
  | Hfs : fields_of ?fs, Ho : __vprintf _ (lit ?s) [?arg] = Ret ?out
    |- context [snprintf_field ?f ?sz ?s ?arg (concat ?fs)] =>
      let n := eval vm_compute in (size_of f) in
      let E := fresh "E" in let H := fresh "H" in
      destruct (snprintf_field_spec fs f n sz s arg out Hfs) as [E H];
        [reflexivity|exact Ho|cbn; lia|cbn; lia|];
      rewrite E, ret_bind; clear E Hfs; cbv zeta
  | Hfs : fields_of ?fs |- context [set_field ?f ?v (concat ?fs)] =>
      let n := eval vm_compute in (size_of f) in
      let E := fresh "E" in let H := fresh "H" in
      destruct (set_field_concat fs f (replicate n 0) v Hfs) as [E H]; [reflexivity|reflexivity|];
      rewrite E; clear E Hfs
  end.

Lemma make_header_run name s t size header :
  strip_antisocial_prefixes name = Ret s → Forall byte s → (0 ∉ s) → (length s ≤ 99)%nat → t ≠ USTAR_EOF →
  ∃ fs out, ustar_make_header name t size header = Ret (true, concat fs, []) ∧
    describes fs s t (u32 size) ∧ fs !! f_chksum = Some (out ++ [0]) ∧
    octal_digits out ∧ out ≠ [] ∧ octal out 0 = calculate_chksum (concat fs).
Proof.
  intros Es Hb Hz Hl Ht.
  set (mode := if decide (t = USTAR_REGULAR) then 420 else 493).
  destruct (octal_print 7 "%07o" mode) as (om & Em & Hm1 & Hm2 & _); [by left|unfold mode; case_decide; lia..|].
  destruct (octal_print 11 "%011o" (u32 size)) as (os & Esz & Hs1 & Hs2 & Hs3);
    [by right|pose proof (u32_range size); lia..|].
  destruct (octal_print 11 "%011o" 1136102400) as (ot & Eot & Ht1 & Ht2 & _); [by right|lia..|].
  unfold ustar_make_header. change (ASSERT (header_size =? USTAR_HEADER_SIZE)%nat) with (Ret tt).
  assert (ASSERT (bool_decide (t = USTAR_REGULAR) || bool_decide (t = USTAR_DIRECTORY)) = Ret tt) as ->
    by (destruct t; [reflexivity..|contradiction]).
  rewrite !ret_bind, Es, ret_bind.
  rewrite (proj2 (Z.ltb_ge 99 _)) by lia. destruct no_fields_of as [Hf0 ->]. cbv zeta.
  fold mode. do 11 field_step.
  clear Em Esz Eot. match goal with H : fields_of ?fs |- _ => set (fs0 := fs) in *; rename H into Hfs end.
  assert (describes fs0 s t (u32 size)) as Hd.
  { split; [done| |reflexivity| |by destruct t|reflexivity..].
    - apply concat_bytes. repeat (apply Forall_cons; split; [|]); try apply Forall_nil;
        try (apply padded_bytes); try (by apply octal_bytes); try done; try by_decide.
      by destruct t; by_decide.
    - exists os. split_and!; [|done|by intros ->|done]. unfold fs0, padded. cbn. by rewrite Hs1. }
  destruct (chksum_range (concat fs0)) as [_ Hc]; [apply Hd|by apply length_header|].
  destruct (octal_print 7 "%07o" (calculate_chksum (concat fs0))) as (oc & Ec & Hc1 & Hc2 & Hc3); [by left|lia..|].
  assert (fs0 !! f_chksum = Some (replicate 8 0)) as Hf6 by reflexivity.
  destruct (snprintf_field_spec fs0 f_chksum 8 (size_of f_chksum) "%07o" _ oc Hfs Hf6 Ec) as [E H]; [cbn; lia..|].
  rewrite E, ret_bind. clear Ec.
  assert (padded 8 oc = oc ++ [0]) as Ep by (unfold padded; by rewrite Hc1).
  exists (<[f_chksum := padded 8 oc]> fs0), oc. split; [reflexivity|].
  assert (f_chksum < length fs0)%nat as Hlt by (by eapply lookup_lt_Some).
  split; [by apply describes_chksum|]. rewrite Ep in *. rewrite list_lookup_insert_eq by done.
  split; [reflexivity|]. split; [exact Hc2|]. split; [intros ->; discriminate Hc1|].
  destruct (set_field_concat fs0 f_chksum _ (oc ++ [0]) Hfs Hf6) as [<- _]; [by rewrite length_app, Hc1|].
  rewrite chksum_set_chksum; [done|by rewrite length_app, Hc1|by apply length_header].
Qed.

Lemma c_string_padded s rest : (0 ∉ s) → c_string (s ++ 0 :: rest) = s.
Proof.
  induction s as [|c s IH]; intros Hz; cbn [app c_string]; [done|].
  destruct (Z.eqb_spec c 0); [set_solver|]. by rewrite IH by set_solver.
Qed.

Lemma not_all_zeros h i c : h !! i = Some c → c ≠ 0 → is_all_zeros h = false.
Proof.
  revert i. induction h as [|x h IH]; intros [|i] Hi Hc; [done..| |]; cbn [is_all_zeros].
  - injection Hi as ->. by rewrite (proj2 (Z.eqb_neq c 0)).
  - destruct (Z.eqb_spec x 0); [|done]. by apply (IH i).
Qed.

(** The fields are read back. *)
Lemma parse_described fs s t size out :
  describes fs s t size → fs !! f_chksum = Some (out ++ [0]) → octal_digits out → out ≠ [] →
  octal out 0 = calculate_chksum (concat fs) → safe_name s → (0 ∉ s) → (length s ≤ 99)%nat → t ≠ USTAR_EOF →
  0 ≤ size < 2 ^ 31 →
  ustar_parse_header (concat fs) = Ret (Parsed (Some s) t (if decide (t = USTAR_REGULAR) then size else 0)).
Proof.
  intros Hd Hc Ho Hne Hsum Hs Hz Hl Ht Hsz. pose proof (d_fields _ _ _ _ Hd) as Hf.
  unfold ustar_parse_header. change (ASSERT (header_size =? USTAR_HEADER_SIZE)%nat) with (Ret tt).
  cbn [mbind outcome_bind]. rewrite (get_field_concat _ _ _ Hf (d_magic _ _ _ _ Hd)).
  rewrite (get_field_concat _ _ _ Hf (d_version _ _ _ _ Hd)), (get_field_concat _ _ _ Hf Hc).
  rewrite (get_field_concat _ _ _ Hf (d_name _ _ _ _ Hd)), (get_field_concat _ _ _ Hf (d_prefix _ _ _ _ Hd)).
  rewrite (get_field_concat _ _ _ Hf (d_type _ _ _ _ Hd)).
  destruct (d_size _ _ _ _ Hd) as (os & Es & Hos & Hon & Hov). rewrite (get_field_concat _ _ _ Hf Es).
  assert (is_all_zeros (concat fs) = false) as ->.
  { destruct (field_split _ _ _ Hf (d_magic _ _ _ _ Hd)) as [_ E].
    apply (not_all_zeros _ (offset_of f_magic) (chr "u")); [|done].
    rewrite <- (Nat.add_0_r (offset_of f_magic)), <- lookup_drop, E. done. }
  rewrite !bool_decide_eq_true_2 by done. cbn [negb].
  pose proof (chksum_range _ (d_bytes _ _ _ _ Hd) (length_header _ Hf)) as [_ Hr].
  rewrite (parse_octal out Ho Hne), Hsum, Z.eqb_refl by lia. cbn [negb].
  assert (padded 100 s !!! (size_of f_name - 1)%nat = 0) as ->.
  { change (size_of f_name - 1)%nat with 99%nat. unfold padded. rewrite lookup_total_app_r by lia.
    apply lookup_total_replicate_2. lia. }
  change (replicate 155 0 !!! 0%nat) with 0. cbn [Z.eqb negb orb]. change ([?c] !!! 0%nat) with c.
  assert (c_string (concat fs) = s) as ->.
  { destruct (field_split _ _ _ Hf (d_name _ _ _ _ Hd)) as [_ E]. change (offset_of f_name) with O in E.
    rewrite drop_0 in E. rewrite E. unfold padded. replace (100 - length s)%nat with (S (99 - length s)) by lia.
    cbn [replicate]. rewrite <- app_assoc. by apply c_string_padded. }
  rewrite (strip_safe s Hs). destruct t; [| |contradiction].
  - change (ustar_code USTAR_REGULAR =? ustar_code USTAR_REGULAR) with true. cbn iota.
    rewrite (parse_octal os Hos Hon), Hov by lia.
    rewrite (proj2 (Z.ltb_ge INT_MAX _)) by (unfold INT_MAX; lia). done.
  - done.
Qed.

(** ** Theorems *)

Lemma string_length_all s : 0 ∉ s → ∀ maxlen n, n + Z.of_nat (length s) ≤ maxlen →
  string_length (s ++ [0]) maxlen n = Ret (n + Z.of_nat (length s)).
Proof.
  induction s as [|c s IH]; intros Hz maxlen n Hn; cbn [app string_length length] in *; [by rewrite Z.add_0_r|].
  apply not_elem_of_cons in Hz as [Hc Hz]. rewrite (proj2 (Z.eqb_neq c 0)), (proj2 (Z.ltb_lt _ _)) by (done || lia). cbn [negb andb].
  rewrite IH by (done || lia). f_equal. lia.
Qed.

Lemma print_too_long s :
  0 ∉ s → Z.of_nat (length s) < 2 ^ 31 →
  __vprintf (λ _, s ++ [0]) (str "%s: file name too long" ++ [10; 0]) [file_name_ptr] = Ret (s ++ str ": file name too long" ++ [10]).
Proof.
  intros Hz Hl. unfold __vprintf. rewrite Nat.add_comm. cbn [Nat.add].
  assert (convert (λ _, s ++ [0]) (chr "s") (Conversion 0 0 (-1) INT) [file_name_ptr] = Ret (Some (s, []))) as Ec.
  { unfold convert. change (is_one_of (chr "s") "di") with false. change (is_one_of (chr "s") "ouxX") with false.
    change (chr "s" =? chr "c") with false. change (chr "s" =? chr "s") with true. cbn iota.
    cbn [va_word mbind outcome_bind precision]. change (u32 (-1)) with (2 ^ 32 - 1). change (u32 file_name_ptr =? 0) with false. cbn iota.
    rewrite string_length_all by (done || lia). cbn [mbind outcome_bind]. rewrite Z.add_0_l, s32_id by lia. unfold format_string. cbn [width].
    rewrite (proj2 (Z.ltb_ge _ 0)) by lia. cbn [andb app]. by rewrite Nat2Z.id, take_app_length, app_nil_r. }
  rewrite (vprintf_loop_step _ _ _ (chr "%") (str "s: file name too long" ++ [10; 0]) _ s (str ": file name too long" ++ [10; 0]) []);
    [reflexivity|reflexivity|discriminate|].
  apply (vprintf_step_convert _ _ _ _ (Conversion 0 0 (-1) INT) (chr "s") (str ": file name too long" ++ [10; 0]) [file_name_ptr]);
    [discriminate|discriminate|reflexivity|exact Ec].
Qed.

(** [ustar_parse_header] reads back what [ustar_make_header] wrote, for a
    regular file of any size up to [INT_MAX] or a directory: the type, the size
    (0 for a directory) and the name without its antisocial prefixes, which
    starts with none of them.  [ustar_make_header] fails, leaving the header as
    it was, exactly if the stripped name has more than 99 characters. *)
Theorem ustar_round_trip name t size header :
  Forall byte name → (0 ∉ name) → Z.of_nat (length name) ≤ INT_MAX → t ≠ USTAR_EOF → 0 ≤ size ≤ INT_MAX →
  ∃ s, strip_antisocial_prefixes name = Ret s ∧ safe_name s ∧
    if decide (length s ≤ 99)%nat then
      ∃ h, ustar_make_header name t size header = Ret (true, h, []) ∧ length h = USTAR_HEADER_SIZE ∧
        ustar_parse_header h = Ret (Parsed (Some s) t (if decide (t = USTAR_REGULAR) then size else 0))
    else ustar_make_header name t size header = Ret (false, header, s ++ str ": file name too long" ++ [10]).
Proof.
  intros Hb Hz Hn Ht Hs. unfold INT_MAX in *. destruct (strip_antisocial_spec name) as (s & Es & Hsafe & Hsuf).
  exists s. split_and!; [done..|]. assert (Forall byte s ∧ (0 ∉ s)) as [Hbs Hzs].
  { destruct Hsuf as [->|[p ->]]; [by split; by_decide|]. apply Forall_app in Hb as [_ Hb]. set_solver. }
  case_decide as Hl.
  - destruct (make_header_run name s t size header) as (fs & out & E & Hd & Hc & Ho & Hne & Hsum); [done..|].
    rewrite u32_id in Hd by lia. exists (concat fs). split_and!; [done|by apply length_header, (d_fields _ _ _ _ Hd)|].
    by apply (parse_described fs s t size out); try lia.
  - unfold ustar_make_header. change (ASSERT (header_size =? USTAR_HEADER_SIZE)%nat) with (Ret tt).
    assert (ASSERT (bool_decide (t = USTAR_REGULAR) || bool_decide (t = USTAR_DIRECTORY)) = Ret tt) as ->
      by (destruct t; [reflexivity..|contradiction]).
    rewrite !ret_bind, Es, ret_bind. rewrite (proj2 (Z.ltb_lt 99 _)) by lia.
    rewrite print_too_long, ret_bind; [done|done|]. destruct Hsuf as [->|[p ->]]; [done|]. rewrite length_app in Hn. lia.
Qed.

Lemma ustar_round_trip_witness :
  ∃ s, strip_antisocial_prefixes (str "/../tests/a.c") = Ret s ∧ safe_name s ∧
    if decide (length s ≤ 99)%nat then
      ∃ h, ustar_make_header (str "/../tests/a.c") USTAR_REGULAR 1234 [] = Ret (true, h, []) ∧
        length h = USTAR_HEADER_SIZE ∧
        ustar_parse_header h = Ret (Parsed (Some s) USTAR_REGULAR (if decide (USTAR_REGULAR = USTAR_REGULAR) then 1234 else 0))
    else ustar_make_header (str "/../tests/a.c") USTAR_REGULAR 1234 [] =
      Ret (false, [], s ++ str ": file name too long" ++ [10]).
Proof. apply (ustar_round_trip (str "/../tests/a.c") USTAR_REGULAR 1234 []); [by_decide..|by vm_compute|done|by vm_compute]. Defined.

(** What an accepted header has passed. *)
Lemma parse_accepted h name t size :
  ustar_parse_header h = Ret (Parsed (Some name) t size) →
  is_all_zeros h = false ∧ get_field f_magic h = str "ustar" ++ [0] ∧
  parse_octal_field (get_field f_chksum h) = Some (calculate_chksum h).
Proof.
  unfold ustar_parse_header. change (ASSERT (header_size =? USTAR_HEADER_SIZE)%nat) with (Ret tt).
  rewrite ret_bind. destruct (is_all_zeros h); [done|]. case_bool_decide; cbn [negb]; [|done].
  case_bool_decide; cbn [negb]; [|done]. destruct (parse_octal_field (get_field f_chksum h)) as [v|]; [|done].
  destruct (Z.eqb_spec v (calculate_chksum h)); cbn [negb]; [|done]. by intros _; subst.
Qed.

(** A header whose checksum field holds another sum is refused. *)
Lemma parse_mismatch h v :
  is_all_zeros h = false → parse_octal_field (get_field f_chksum h) = Some v → v ≠ calculate_chksum h →
  ∃ message, ustar_parse_header h = Ret (Error message).
Proof.
  intros Hz Hv Hne. unfold ustar_parse_header. change (ASSERT (header_size =? USTAR_HEADER_SIZE)%nat) with (Ret tt).
  rewrite ret_bind, Hz, Hv, (proj2 (Z.eqb_neq _ _) Hne). repeat case_bool_decide; cbn [negb]; eauto.
Qed.

Lemma get_field_insert f j c h :
  ¬ (offset_of f ≤ j < offset_of f + size_of f)%nat → get_field f (<[j := c]> h) = get_field f h.
Proof.
  intros Hj. unfold get_field. apply list_eq. intros i. destruct (decide (i < size_of f)%nat).
  - rewrite !lookup_take_lt, !lookup_drop by done. apply list_lookup_insert_ne. lia.
  - by rewrite !lookup_take_ge by lia.
Qed.

(** The checksum changes with any byte it counts. *)
Lemma chksum_insert h j c :
  Forall byte h → length h = USTAR_HEADER_SIZE → (j < USTAR_HEADER_SIZE)%nat →
  ¬ (offset_of f_chksum ≤ j < offset_of f_chksum + size_of f_chksum)%nat → byte c → h !! j ≠ Some c →
  calculate_chksum (<[j := c]> h) ≠ calculate_chksum h.
Proof.
  intros Hb Hl Hj Hf Hc Hne. destruct (chksum_range h) as [-> _]; [done..|].
  destruct (chksum_range (<[j := c]> h)) as [-> _]; [by apply Forall_insert|by rewrite length_insert|].
  rewrite (total_update (counted h) (counted (<[j := c]> h)) _ j).
  - unfold counted. rewrite bool_decide_eq_false_2 by tauto. rewrite list_lookup_total_insert_eq by lia.
    rewrite (list_lookup_lookup_total_lt h j) in Hne by lia. intros E. apply Hne. f_equal. lia.
  - apply NoDup_seq.
  - apply elem_of_seq. unfold USTAR_HEADER_SIZE in *. lia.
  - intros i Hi. unfold counted. case_bool_decide; [done|]. by rewrite list_lookup_total_insert_ne.
Qed.

(** A header that [ustar_parse_header] accepts is not accepted any more when
    one of its bytes outside of the checksum field is changed: the result is an
    error, not another file and not the end of the archive. *)
Theorem ustar_corruption_detected h name t size j c :
  Forall byte h → length h = USTAR_HEADER_SIZE → ustar_parse_header h = Ret (Parsed (Some name) t size) →
  (j < USTAR_HEADER_SIZE)%nat → ¬ (offset_of f_chksum ≤ j < offset_of f_chksum + size_of f_chksum)%nat →
  byte c → h !! j ≠ Some c →
  ∃ message, ustar_parse_header (<[j := c]> h) = Ret (Error message).
Proof.
  intros Hb Hl Hp Hj Hf Hc Hne. destruct (parse_accepted _ _ _ _ Hp) as (_ & Hm & Hs).
  apply (parse_mismatch _ (calculate_chksum h)); [|by rewrite get_field_insert|].
  2: { apply not_eq_sym. by apply chksum_insert. }
  assert (∀ i c, (i < 5)%nat → str "ustar" !! i = Some c → h !! (offset_of f_magic + i)%nat = Some c) as Hmi.
  { intros i d Hi Hd. rewrite <- lookup_drop, <- (lookup_take_lt _ (size_of f_magic)) by (cbn; lia).
    change (get_field f_magic h !! i = Some d). rewrite Hm. by apply lookup_app_l_Some. }
  destruct (decide (j = offset_of f_magic + 0)%nat).
  - apply (not_all_zeros _ (offset_of f_magic + 1) (chr "s")); [|done].
    rewrite list_lookup_insert_ne by lia. apply Hmi; [lia|done].
  - apply (not_all_zeros _ (offset_of f_magic + 0) (chr "u")); [|done].
    rewrite list_lookup_insert_ne by lia. apply Hmi; [lia|done].
Qed.

(** A header, as [ustar_make_header] composes it. *)
Definition ex_header : list Z :=
  match ustar_make_header (str "a.c") USTAR_REGULAR 1234 [] with Ret (_, h, _) => h | _ => [] end.

Lemma ustar_corruption_detected_witness :
  ∃ message, ustar_parse_header (<[127%nat := chr "7"]> ex_header) = Ret (Error message).
Proof.
  apply (ustar_corruption_detected ex_header (str "a.c") USTAR_REGULAR 1234 127 (chr "7"));
    [by_decide|by vm_compute|by vm_compute|by vm_compute; lia|vm_compute; lia|by vm_compute|by vm_compute].
Defined.
