(* ===== verification/Process.v ===== *)
(** * Parents and children ([process_execute], [start_process], [process_wait] and
    [process_exit] of [userprog/process.c], [struct relation] of [threads/thread.h])

    A parent and a child share a [struct relation] on the kernel heap: the parent
    waits in it for the child to load and to exit, and the last of the two to go
    frees it.  A state has the threads and the relations that are allocated; using
    one that is freed, or the [status_lock] in the [struct thread] of a thread
    whose page is freed, is a fault.  A step of a thread is what it does between
    two points where another thread may run: a section under the status lock, or
    an access outside of it.  The loader, the files, locks and pages of a process
    are not part of the state; whether a load, an allocation or the creation of a
    thread succeeds is a choice of the step.

    The theorems show, for runs in which no load fails, that no relation is used
    after it is freed or freed twice, that none is lost, and that [process_wait]
    returns the status the child exited with, once.  With a load that fails there
    are runs that use a freed relation and runs in which [process_execute] returns
    the identifier of the child instead of [TID_ERROR], and a child that outlives
    its parent takes a lock in freed memory. *)

From stdpp Require Import functions.
From stdpp Require Import base tactics list numbers option sets gmap fin_maps.
From Stdlib Require Import ZArith Lia.
From S2P Require Import Prelude.

Local Open Scope Z_scope.

Inductive process_status : Type := P_RUNNING | P_EXITED | P_LOADING.

#[global] Instance process_status_eq_dec : EqDecision process_status.
Proof. solve_decision. Defined.

Definition TID_ERROR : Z := -1.

(** [status_lock] is the [children_lock] of a thread, named by its identifier. *)
Record relation : Type := Relation {
  c_id : Z;
  p_status : process_status;
  c_status : process_status;
  w_status : Z;
  status_lock : Z
}.

(** Where a thread is in the functions above; [User] is outside of them. *)
Inductive point : Type :=
| User
| ExecCreated (rel tid : Z)      (* before [rel->c_id = tid] *)
| ExecLoop (rel tid : Z)         (* before a [lock_acquire] of the loading loop *)
| Start (rel : Z)                (* [start_process] *)
| Loaded (success : bool)        (* after [load] *)
| WaitLoop (rel child_tid : Z)   (* before a [lock_acquire] of the waiting loop *)
| WaitFree (rel child_tid status : Z)
| ExitPrint                      (* [process_exit] *)
| ExitTies
| TiesFree (rel : Z)
| ExitOrphan
| OrphanFree (rel : Z)
| ExitRest
| Dying.

Record process : Type := Process {
  children_in_r : list Z;
  parent_in_r : option Z;
  at_point : point
}.

Record state : Type := State {
  threads : gmap Z process;
  relations : gmap Z relation;
  next_tid : Z;
  next_rel : Z
}.

Inductive fault : Type :=
| NullRelation     (* [malloc] returned a null pointer *)
| NullParent       (* a null [parent_in_r] is dereferenced *)
| UseAfterFree
| DoubleFree
| DanglingLock (owner : Z).

(** What is seen from outside: the message of [process_exit], and what
    [process_execute] and [process_wait] return. *)
Inductive event : Type :=
| Exited (child status : Z)
| ExecReturns (parent tid : Z)
| WaitReturns (parent child_tid status : Z)
| NotMyChild (parent child_tid : Z).

Inductive choice : Type :=
| Exec (page heap thread : bool) (garbage : Z)
| Wait (child_tid : Z)
| Exit (status : Z)
| Kill
| BadCall
| Load (success : bool)
| Go.

Inductive result : Type :=
| Next (s : state) (ev : option event)
| Fault (f : fault).

Definition set_process (t : Z) (p : process) (s : state) : state :=
  State (<[t := p]> (threads s)) (relations s) (next_tid s) (next_rel s).
Definition set_relation (r : Z) (rel : relation) (s : state) : state :=
  State (threads s) (<[r := rel]> (relations s)) (next_tid s) (next_rel s).
Definition del_relation (r : Z) (s : state) : state :=
  State (threads s) (delete r (relations s)) (next_tid s) (next_rel s).

Definition with_c_id (v : Z) (rel : relation) : relation :=
  Relation v (p_status rel) (c_status rel) (w_status rel) (status_lock rel).
Definition with_c_status (v : process_status) (rel : relation) : relation :=
  Relation (c_id rel) (p_status rel) v (w_status rel) (status_lock rel).
Definition with_p_status (v : process_status) (rel : relation) : relation :=
  Relation (c_id rel) v (c_status rel) (w_status rel) (status_lock rel).
Definition with_w_status (v : Z) (rel : relation) : relation :=
  Relation (c_id rel) (p_status rel) (c_status rel) v (status_lock rel).

Definition at_ (k : point) (p : process) : process := Process (children_in_r p) (parent_in_r p) k.

(** [*rel], and a section under [rel->status_lock]. *)
Definition with_rel (s : state) (r : Z) (k : relation → result) : result :=
  match relations s !! r with Some rel => k rel | None => Fault UseAfterFree end.
Definition locked (s : state) (r : Z) (k : relation → result) : result :=
  with_rel s r (λ rel,
    match threads s !! status_lock rel with Some _ => k rel | None => Fault (DanglingLock (status_lock rel)) end).
(** [free (rel)] *)
Definition free_rel (s : state) (r : Z) (k : state → result) : result :=
  match relations s !! r with Some _ => k (del_relation r s) | None => Fault DoubleFree end.

(** [process_execute] up to the return of [thread_create]. *)
Definition exec_begin (t : Z) (p : process) (page heap thread : bool) (garbage : Z) (s : state) : result :=
  if negb page then Next s (Some (ExecReturns t TID_ERROR))
  else if negb heap then Fault NullRelation
  else
    let r := next_rel s in
    let rel := Relation garbage P_RUNNING P_LOADING (-1) t in
    let p := Process (children_in_r p ++ [r]) (parent_in_r p) in
    if thread then
      let tid := next_tid s in
      Next (State (<[tid := Process [] None (Start r)]> (<[t := p (ExecCreated r tid)]> (threads s)))
              (<[r := rel]> (relations s)) (tid + 1) (r + 1)) None
    else
      Next (State (<[t := p (ExecCreated r TID_ERROR)]> (threads s)) (<[r := rel]> (relations s))
              (next_tid s) (r + 1)) None.

(** [rel->c_id = tid;] *)
Definition exec_set_id (t : Z) (p : process) (r tid : Z) (s : state) : result :=
  with_rel s r (λ rel,
    Next (set_process t (at_ (ExecLoop r tid) p) (set_relation r (with_c_id tid rel) s)) None).

(** One turn of the loop that waits for the child to load, and the rest of
    [process_execute]. *)
Definition exec_loop (t : Z) (p : process) (r tid : Z) (s : state) : result :=
  locked s r (λ rel,
    if decide (c_status rel = P_LOADING) then Next s None
    else
      let tid := if decide (c_status rel = P_EXITED) then c_id rel else tid in
      Next (set_process t (at_ User p) s) (Some (ExecReturns t tid))).

(** [start_process] up to the end of [load], and its section. *)
Definition start_load (t : Z) (p : process) (r : Z) (success : bool) (s : state) : result :=
  Next (set_process t (Process (children_in_r p) (Some r) (Loaded success)) s) None.

Definition start_loaded (t : Z) (p : process) (success : bool) (s : state) : result :=
  match parent_in_r p with
  | None => Fault NullParent
  | Some r =>
      locked s r (λ rel,
        if success then
          Next (set_process t (at_ User p) (set_relation r (with_c_status P_RUNNING rel) s)) None
        else
          Next (set_process t (at_ ExitPrint p)
                  (set_relation r (with_c_id TID_ERROR (with_c_status P_EXITED rel)) s)) None)
  end.

(** The search of [process_wait]: [Some None] if no relation matches, [None] if
    one of the relations it looks at is freed. *)
Fixpoint find_child (s : state) (rels : list Z) (child_tid : Z) : option (option Z) :=
  match rels with
  | [] => Some None
  | r :: rels =>
      match relations s !! r with
      | None => None
      | Some rel => if c_id rel =? child_tid then Some (Some r) else find_child s rels child_tid
      end
  end.

Definition wait_begin (t : Z) (p : process) (child_tid : Z) (s : state) : result :=
  match find_child s (children_in_r p) child_tid with
  | None => Fault UseAfterFree
  | Some None => Next s (Some (NotMyChild t child_tid))
  | Some (Some r) => Next (set_process t (at_ (WaitLoop r child_tid) p) s) None
  end.

Definition wait_loop (t : Z) (p : process) (r child_tid : Z) (s : state) : result :=
  locked s r (λ rel,
    if decide (c_status rel = P_RUNNING) then Next s None
    else
      Next (set_process t (Process (filter (λ x, x ≠ r) (children_in_r p)) (parent_in_r p)
                             (WaitFree r child_tid (w_status rel))) s) None).

Definition wait_free (t : Z) (p : process) (r child_tid status : Z) (s : state) : result :=
  free_rel s r (λ s, Next (set_process t (at_ User p) s) (Some (WaitReturns t child_tid status))).

(** [syscall_exit] and [kill] up to [thread_exit]. *)
Definition set_w_status (t : Z) (p : process) (status : Z) (s : state) : result :=
  match parent_in_r p with
  | None => Fault NullParent
  | Some r => with_rel s r (λ rel, Next (set_process t (at_ ExitPrint p) (set_relation r (with_w_status status rel) s)) None)
  end.

(** [process_exit]: the message, [Cut ties with parent] and [Orphan all children]. *)
Definition exit_print (t : Z) (p : process) (s : state) : result :=
  match parent_in_r p with
  | None => Fault NullParent
  | Some r => with_rel s r (λ rel, Next (set_process t (at_ ExitTies p) s) (Some (Exited t (w_status rel))))
  end.

Definition exit_ties (t : Z) (p : process) (s : state) : result :=
  match parent_in_r p with
  | None => Next (set_process t (at_ ExitOrphan p) s) None
  | Some r =>
      locked s r (λ rel,
        let k := if decide (p_status rel = P_EXITED) then TiesFree r else ExitOrphan in
        Next (set_process t (at_ k p) (set_relation r (with_c_status P_EXITED rel) s)) None)
  end.

Definition ties_free (t : Z) (p : process) (r : Z) (s : state) : result :=
  free_rel s r (λ s, Next (set_process t (at_ ExitOrphan p) s) None).

Definition exit_orphan (t : Z) (p : process) (s : state) : result :=
  match children_in_r p with
  | [] => Next (set_process t (at_ ExitRest p) s) None
  | r :: rels =>
      locked s r (λ rel,
        let k := if decide (c_status rel = P_EXITED) then OrphanFree r else ExitOrphan in
        Next (set_process t (Process rels (parent_in_r p) k) (set_relation r (with_p_status P_EXITED rel) s)) None)
  end.

Definition orphan_free (t : Z) (p : process) (r : Z) (s : state) : result :=
  free_rel s r (λ s, Next (set_process t (at_ ExitOrphan p) s) None).

(** The thread that runs next frees the page of a dying thread. *)
Definition reap (t : Z) (s : state) : result :=
  Next (State (delete t (threads s)) (relations s) (next_tid s) (next_rel s)) None.

(** A step of thread [t]; [None] if the choice does not fit where it is. *)
Definition step (t : Z) (c : choice) (s : state) : option result :=
  match threads s !! t with
  | None => None
  | Some p =>
      match at_point p, c with
      | User, Exec page heap thread garbage => Some (exec_begin t p page heap thread garbage s)
      | ExecCreated r tid, Go => Some (exec_set_id t p r tid s)
      | ExecLoop r tid, Go => Some (exec_loop t p r tid s)
      | Start r, Load success => Some (start_load t p r success s)
      | Loaded success, Go => Some (start_loaded t p success s)
      | User, Wait child_tid => Some (wait_begin t p child_tid s)
      | WaitLoop r child_tid, Go => Some (wait_loop t p r child_tid s)
      | WaitFree r child_tid status, Go => Some (wait_free t p r child_tid status s)
      | User, Exit status => Some (set_w_status t p status s)
      | User, Kill => Some (set_w_status t p (-1) s)
      | User, BadCall => Some (Next (set_process t (at_ ExitPrint p) s) None)
      | ExitPrint, Go => Some (exit_print t p s)
      | ExitTies, Go => Some (exit_ties t p s)
      | TiesFree r, Go => Some (ties_free t p r s)
      | ExitOrphan, Go => Some (exit_orphan t p s)
      | OrphanFree r, Go => Some (orphan_free t p r s)
      | ExitRest, Go => Some (Next (set_process t (at_ Dying p) s) None)
      | Dying, Go => Some (reap t s)
      | _, _ => None
      end
  end.

(** The initial thread, which has no parent. *)
Definition initial_tid : Z := 1.
Definition initial : state :=
  State {[ initial_tid := Process [] None User ]} ∅ (initial_tid + 1) 1.

(** A run: its last state and its events, the latest first, or its fault. *)
Fixpoint run (steps : list (Z * choice)) (s : state) (tr : list event) : option (state * list event + fault) :=
  match steps with
  | [] => Some (inl (s, tr))
  | (t, c) :: steps =>
      match step t c s with
      | None => None
      | Some (Fault f) => Some (inr f)
      | Some (Next s ev) => run steps s (option_list ev ++ tr)
      end
  end.

(** ** Who refers to a relation *)

(** The relation a thread will still use as the child. *)
Definition child_rel (p : process) : option Z :=
  match at_point p with
  | Start r | TiesFree r => Some r
  | ExitOrphan | OrphanFree _ | ExitRest | Dying => None
  | _ => parent_in_r p
  end.

(** The relations a thread will still use as the parent. *)
Definition parent_rels (p : process) : list Z :=
  match at_point p with
  | WaitFree r _ _ | OrphanFree r => r :: children_in_r p
  | _ => children_in_r p
  end.

(** What a parent is doing with one of its relations. *)
Inductive parent_mode : Type :=
| Kept | Created (tid : Z) | Loading (tid : Z) | Waiting (child : Z) | Waited (child status : Z) | Orphaned.

#[global] Instance parent_mode_eq_dec : EqDecision parent_mode.
Proof. solve_decision. Defined.

Definition parent_mode_of (p : process) (r : Z) : parent_mode :=
  match at_point p with
  | ExecCreated r' tid => if decide (r = r') then Created tid else Kept
  | ExecLoop r' tid => if decide (r = r') then Loading tid else Kept
  | WaitLoop r' c => if decide (r = r') then Waiting c else Kept
  | WaitFree r' c v => if decide (r = r') then Waited c v else Kept
  | OrphanFree r' => if decide (r = r') then Orphaned else Kept
  | _ => Kept
  end.

(** How far a child is with its relation. *)
Inductive child_mode : Type := BeforeRun | Running | Printed | Freeing.

Definition child_mode_of (p : process) : child_mode :=
  match at_point p with
  | Start _ | Loaded _ => BeforeRun
  | ExitTies => Printed
  | TiesFree _ => Freeing
  | _ => Running
  end.

(** The parent and the child that still use a relation, and the child's
    identifier ([TID_ERROR] if its thread could not be created). *)
Record cell : Type := Cell { user_p : option Z; user_c : option Z; cid : Z }.

Definition parent_ok (m : parent_mode) (id : Z) (rel : relation) : Prop :=
  match m with
  | Kept => p_status rel = P_RUNNING ∧ c_status rel ≠ P_LOADING ∧ c_id rel = id
  | Created tid => p_status rel = P_RUNNING ∧ tid = id
  | Loading tid => p_status rel = P_RUNNING ∧ tid = id ∧ c_id rel = id
  | Waiting c => p_status rel = P_RUNNING ∧ c_status rel ≠ P_LOADING ∧ c = id ∧ c_id rel = id
  | Waited c v => p_status rel = P_RUNNING ∧ c_status rel = P_EXITED ∧ c = id ∧ v = w_status rel
  | Orphaned => p_status rel = P_EXITED ∧ c_status rel = P_EXITED
  end.

Definition child_ok (m : child_mode) (t : Z) (tr : list event) (rel : relation) (alone : Prop) : Prop :=
  match m with
  | BeforeRun => c_status rel = P_LOADING
  | Running => c_status rel = P_RUNNING
  | Printed => c_status rel = P_RUNNING ∧ Exited t (w_status rel) ∈ tr
  | Freeing => c_status rel = P_EXITED ∧ alone
  end.

(** What holds of a relation with the users [g]. *)
Definition rel_ok (th : gmap Z process) (tr : list event) (r : Z) (g : cell) (rel : relation) : Prop :=
  match user_p g with
  | Some t => status_lock rel = t ∧ ∃ p, th !! t = Some p ∧ r ∈ parent_rels p ∧ parent_ok (parent_mode_of p r) (cid g) rel
  | None => p_status rel = P_EXITED
  end ∧
  match user_c g with
  | Some t => t = cid g ∧ ∃ p, th !! t = Some p ∧ child_rel p = Some r ∧ child_ok (child_mode_of p) t tr rel (user_p g = None)
  | None => user_p g ≠ None ∧
      (c_status rel = P_EXITED ∧ cid g ≠ TID_ERROR ∧ Exited (cid g) (w_status rel) ∈ tr ∨
       c_status rel = P_LOADING ∧ cid g = TID_ERROR)
  end.

Definition process_ok (p : process) : Prop :=
  NoDup (parent_rels p) ∧
  match at_point p with
  | ExecCreated r _ | ExecLoop r _ | WaitLoop r _ => r ∈ children_in_r p
  | Loaded success => success = true
  | ExitRest | Dying => children_in_r p = []
  | _ => True
  end.

Record inv (s : state) (tr : list event) (G : gmap Z cell) : Prop := {
  v_dom r : is_Some (G !! r) ↔ is_Some (relations s !! r);
  v_par t p r : threads s !! t = Some p → r ∈ parent_rels p → ∃ g, G !! r = Some g ∧ user_p g = Some t;
  v_chi t p r : threads s !! t = Some p → child_rel p = Some r → ∃ g, G !! r = Some g ∧ user_c g = Some t;
  v_nodup t p : threads s !! t = Some p → process_ok p;
  v_rel r g rel : G !! r = Some g → relations s !! r = Some rel → rel_ok (threads s) tr r g rel;
  v_ids r r' g g' : G !! r = Some g → G !! r' = Some g' → cid g = cid g' → cid g ≠ TID_ERROR → r = r';
  v_tids t : is_Some (threads s !! t) → 0 < t < next_tid s;
  v_rels r : is_Some (relations s !! r) → r < next_rel s;
  v_cids r g : G !! r = Some g → cid g < next_tid s;
  v_self r g t : G !! r = Some g → user_p g = Some t → cid g ≠ t;
  v_waited t c v : WaitReturns t c v ∈ tr →
    Exited c v ∈ tr ∧ c < next_tid s ∧ c ≠ TID_ERROR ∧ ∀ r g, G !! r = Some g → cid g ≠ c;
  v_pos : 0 < next_tid s
}.

(** Threads and events a relation does not depend on may change. *)
Lemma rel_ok_frame th th' tr tr' r g rel t p p' :
  rel_ok th tr r g rel → tr ⊆ tr' → th !! t = Some p → th' !! t = Some p' →
  (∀ t', t' ≠ t → is_Some (th !! t') → th' !! t' = th !! t') →
  (user_p g = Some t → r ∈ parent_rels p' ∧ parent_mode_of p' r = parent_mode_of p r) →
  (user_c g = Some t → child_rel p' = Some r ∧ child_mode_of p' = child_mode_of p) →
  rel_ok th' tr' r g rel.
Proof.
  intros [Hp Hc] Htr Ht Ht' Hth Hpar Hchi. split.
  - destruct (user_p g) as [t1|]; [|done]. destruct Hp as (Hl & p1 & Hp1 & Hin & Hok). split; [done|].
    destruct (decide (t1 = t)) as [->|Hne].
    + destruct (Hpar eq_refl) as [H1 H2]. assert (p1 = p) as -> by congruence. exists p'. by rewrite H2.
    + exists p1. rewrite Hth by eauto. done.
  - destruct (user_c g) as [t1|]; [|naive_solver]. destruct Hc as (Hl & p1 & Hp1 & Hin & Hok). split; [done|].
    assert (∀ m, child_ok m t1 tr rel (user_p g = None) → child_ok m t1 tr' rel (user_p g = None)) as Hm
      by (intros []; naive_solver).
    destruct (decide (t1 = t)) as [->|Hne].
    + destruct (Hchi eq_refl) as [H1 H2]. assert (p1 = p) as -> by congruence. exists p'. rewrite H2. auto.
    + exists p1. rewrite Hth by eauto. auto.
Qed.

(** A step of thread [t] that concerns the relation [r]: what has to be checked
    is the new cell of [r], and that [t] uses the other relations as before. *)
Record concerns (s s' : state) (tr tr' : list event) (G G' : gmap Z cell) (t : Z) (p p' : process) (r : Z) : Prop := {
  n_before : threads s !! t = Some p;
  n_threads : threads s' = <[t := p']> (threads s);
  n_relations r' : r' ≠ r → relations s' !! r' = relations s !! r';
  n_cells r' : r' ≠ r → G' !! r' = G !! r';
  n_next : next_tid s' = next_tid s ∧ next_rel s' = next_rel s;
  n_trace : tr ⊆ tr';
  n_waited t c v : WaitReturns t c v ∈ tr' → WaitReturns t c v ∈ tr ∨
    Exited c v ∈ tr ∧ c < next_tid s ∧ c ≠ TID_ERROR ∧ (∃ g, G !! r = Some g ∧ cid g = c) ∧ G' !! r = None;
  n_nodup : process_ok p';
  n_parent r' : r' ≠ r → (r' ∈ parent_rels p' ↔ r' ∈ parent_rels p) ∧ parent_mode_of p' r' = parent_mode_of p r';
  n_child r' : r' ≠ r → (child_rel p' = Some r' ↔ child_rel p = Some r') ∧
    (child_rel p = Some r' → child_mode_of p' = child_mode_of p);
  n_dom : is_Some (G' !! r) ↔ is_Some (relations s' !! r);
  n_live : is_Some (G' !! r) → is_Some (G !! r);
  n_cid g g' : G !! r = Some g → G' !! r = Some g' → cid g' = cid g ∧ (user_p g' = None ∨ user_p g' = user_p g);
  n_par : r ∈ parent_rels p' → ∃ g, G' !! r = Some g ∧ user_p g = Some t;
  n_chi : child_rel p' = Some r → ∃ g, G' !! r = Some g ∧ user_c g = Some t;
  n_others g t' : t' ≠ t → G !! r = Some g →
    (user_p g = Some t' → ∃ g', G' !! r = Some g' ∧ user_p g' = Some t') ∧
    (user_c g = Some t' → ∃ g', G' !! r = Some g' ∧ user_c g' = Some t');
  n_rel g' rel' : G' !! r = Some g' → relations s' !! r = Some rel' → rel_ok (threads s') tr' r g' rel'
}.

#[local] Arguments v_dom {_ _ _}.
#[local] Arguments v_par {_ _ _}.
#[local] Arguments v_chi {_ _ _}.
#[local] Arguments v_nodup {_ _ _}.
#[local] Arguments v_rel {_ _ _}.
#[local] Arguments v_ids {_ _ _}.
#[local] Arguments v_tids {_ _ _}.
#[local] Arguments v_rels {_ _ _}.
#[local] Arguments v_cids {_ _ _}.
#[local] Arguments v_self {_ _ _}.
#[local] Arguments v_waited {_ _ _}.
#[local] Arguments v_pos {_ _ _}.

Section concerns.
Context {s s' : state} {tr tr' : list event} {G G' : gmap Z cell} {t : Z} {p p' : process} {r : Z}.
Hypothesis Hi : inv s tr G.
Hypothesis Hn : concerns s s' tr tr' G G' t p p' r.

#[local] Arguments n_before {_ _ _ _ _ _ _ _ _ _}.
#[local] Arguments n_threads {_ _ _ _ _ _ _ _ _ _}.
#[local] Arguments n_relations {_ _ _ _ _ _ _ _ _ _}.
#[local] Arguments n_cells {_ _ _ _ _ _ _ _ _ _}.
#[local] Arguments n_next {_ _ _ _ _ _ _ _ _ _}.
#[local] Arguments n_trace {_ _ _ _ _ _ _ _ _ _}.
#[local] Arguments n_waited {_ _ _ _ _ _ _ _ _ _}.
#[local] Arguments n_nodup {_ _ _ _ _ _ _ _ _ _}.
#[local] Arguments n_parent {_ _ _ _ _ _ _ _ _ _}.
#[local] Arguments n_child {_ _ _ _ _ _ _ _ _ _}.
#[local] Arguments n_dom {_ _ _ _ _ _ _ _ _ _}.
#[local] Arguments n_live {_ _ _ _ _ _ _ _ _ _}.
#[local] Arguments n_cid {_ _ _ _ _ _ _ _ _ _}.
#[local] Arguments n_par {_ _ _ _ _ _ _ _ _ _}.
#[local] Arguments n_chi {_ _ _ _ _ _ _ _ _ _}.
#[local] Arguments n_others {_ _ _ _ _ _ _ _ _ _}.
#[local] Arguments n_rel {_ _ _ _ _ _ _ _ _ _}.

Lemma concerns_back r' g :
  G' !! r' = Some g → ∃ g0, G !! r' = Some g0 ∧ cid g = cid g0 ∧ (user_p g = None ∨ user_p g = user_p g0).
Proof.
  intros Hg. destruct (decide (r' = r)) as [->|Hne]; [|rewrite (n_cells Hn) in Hg by done; eauto].
  destruct (n_live Hn) as [g0 Hg0]; [eauto|]. exists g0. split; [done|]. by apply (n_cid Hn).
Qed.

Lemma concerns_par t' p1 r' :
  threads s' !! t' = Some p1 → r' ∈ parent_rels p1 → ∃ g, G' !! r' = Some g ∧ user_p g = Some t'.
Proof.
  rewrite (n_threads Hn). intros [[<- <-]|[Hne Hp]]%lookup_insert_Some Hr; destruct (decide (r' = r)) as [->|Hner].
  - by apply (n_par Hn).
  - apply (n_parent Hn) in Hr; [|done]. rewrite (n_cells Hn) by done. apply (v_par Hi t p); [apply (n_before Hn)|done].
  - destruct (v_par Hi t' p1 r Hp Hr) as (g & Hg & Hu). by apply (n_others Hn g t').
  - rewrite (n_cells Hn) by done. by apply (v_par Hi t' p1).
Qed.

Lemma concerns_chi t' p1 r' :
  threads s' !! t' = Some p1 → child_rel p1 = Some r' → ∃ g, G' !! r' = Some g ∧ user_c g = Some t'.
Proof.
  rewrite (n_threads Hn). intros [[<- <-]|[Hne Hp]]%lookup_insert_Some Hr; destruct (decide (r' = r)) as [->|Hner].
  - by apply (n_chi Hn).
  - apply (n_child Hn) in Hr; [|done]. rewrite (n_cells Hn) by done. apply (v_chi Hi t p); [apply (n_before Hn)|done].
  - destruct (v_chi Hi t' p1 r Hp Hr) as (g & Hg & Hu). by apply (n_others Hn g t').
  - rewrite (n_cells Hn) by done. by apply (v_chi Hi t' p1).
Qed.

Lemma concerns_rel r' g rel :
  G' !! r' = Some g → relations s' !! r' = Some rel → rel_ok (threads s') tr' r' g rel.
Proof.
  intros Hg Hr. destruct (decide (r' = r)) as [->|Hne]; [by apply (n_rel Hn)|].
  rewrite (n_cells Hn) in Hg by done. rewrite (n_relations Hn) in Hr by done.
  pose proof (v_rel Hi r' g rel Hg Hr) as Hok. rewrite (n_threads Hn). pose proof (n_before Hn) as Ht.
  apply (rel_ok_frame _ _ _ _ _ _ _ t p p' Hok); [apply (n_trace Hn)|done|apply lookup_insert_eq| | |].
  - intros t' Ht' _. by apply lookup_insert_ne.
  - intros Hu. destruct Hok as [Hp _]. rewrite Hu in Hp. destruct Hp as (_ & p1 & Hp1 & Hin & _).
    assert (p1 = p) as -> by congruence. split; by apply (n_parent Hn).
  - intros Hu. destruct Hok as [_ Hc]. rewrite Hu in Hc. destruct Hc as (_ & p1 & Hp1 & Hin & _).
    assert (p1 = p) as -> by congruence. split; by apply (n_child Hn r').
Qed.

Lemma concerns_waited t' c v :
  WaitReturns t' c v ∈ tr' →
  Exited c v ∈ tr' ∧ c < next_tid s' ∧ c ≠ TID_ERROR ∧ ∀ r g, G' !! r = Some g → cid g ≠ c.
Proof.
  rewrite (proj1 (n_next Hn)). intros [Hw|(He & Hc & Hne & (g & Hg & Hgc) & Hd)]%(n_waited Hn).
  - destruct (v_waited Hi _ _ _ Hw) as (H1 & H2 & H3 & H4).
    split_and!; [by apply (n_trace Hn)|done|done|]. intros r' g Hg. destruct (concerns_back _ _ Hg) as (g0 & Hg0 & -> & _). eauto.
  - split_and!; [by apply (n_trace Hn)|done|done|]. intros r' g' Hg' E.
    destruct (decide (r' = r)) as [->|Hner]; [congruence|]. rewrite (n_cells Hn) in Hg' by done.
    apply Hner. apply (v_ids Hi r' r g' g); congruence.
Qed.

Lemma concerns_inv : inv s' tr' G'.
Proof.
  destruct (n_next Hn) as [En1 En2].
  split; [|exact concerns_par|exact concerns_chi| |exact concerns_rel| | | | | |exact concerns_waited|].
  - intros r'. destruct (decide (r' = r)) as [->|Hne]; [apply (n_dom Hn)|].
    rewrite (n_cells Hn), (n_relations Hn) by done. apply (v_dom Hi).
  - rewrite (n_threads Hn). intros t' p1 [[<- <-]|[Hne Hp]]%lookup_insert_Some; [apply (n_nodup Hn)|by apply (v_nodup Hi t')].
  - intros r1 r2 g1 g2 H1 H2 He Hne. destruct (concerns_back _ _ H1) as (h1 & E1 & C1 & _).
    destruct (concerns_back _ _ H2) as (h2 & E2 & C2 & _). apply (v_ids Hi r1 r2 h1 h2); congruence.
  - intros t' Ht'. rewrite En1. apply (v_tids Hi). rewrite (n_threads Hn) in Ht'.
    destruct (decide (t' = t)) as [->|]; [exists p; apply (n_before Hn)|]. by rewrite lookup_insert_ne in Ht' by done.
  - intros r' Hr'. rewrite En2. apply (v_rels Hi). destruct (decide (r' = r)) as [->|Hne].
    + by apply (v_dom Hi), (n_live Hn), (n_dom Hn).
    + by rewrite (n_relations Hn) in Hr' by done.
  - intros r' g Hg. rewrite En1. destruct (concerns_back _ _ Hg) as (g0 & Hg0 & -> & _). by apply (v_cids Hi r').
  - intros r' g t' Hg Hu. destruct (concerns_back _ _ Hg) as (g0 & Hg0 & -> & [E|E]); [congruence|].
    apply (v_self Hi r' g0); congruence.
  - rewrite En1. apply (v_pos Hi).
Qed.
End concerns.

(** ** Steps on one relation *)

Section steps.
Context {s : state} {tr : list event} {G : gmap Z cell} {t : Z} {p : process}.
Hypothesis Hi : inv s tr G.
Hypothesis Ht : threads s !! t = Some p.

(** The relation of a child, and one of a parent. *)
Lemma child_cell r :
  child_rel p = Some r →
  ∃ g rel, G !! r = Some g ∧ relations s !! r = Some rel ∧ rel_ok (threads s) tr r g rel ∧
    user_c g = Some t ∧ cid g = t ∧ user_p g ≠ Some t ∧ child_ok (child_mode_of p) t tr rel (user_p g = None).
Proof.
  intros Hc. destruct (v_chi Hi _ _ _ Ht Hc) as (g & Hg & Hu).
  destruct (proj1 (v_dom Hi r) ltac:(eauto)) as [rel Hr]. pose proof (v_rel Hi _ _ _ Hg Hr) as Hok.
  pose proof Hok as [_ H]. rewrite Hu in H. destruct H as (E & p1 & Hp1 & _ & H). assert (p1 = p) as -> by congruence.
  exists g, rel. split_and!; [done..| |done]. intros Hp. by apply (v_self Hi r g t Hg Hp).
Qed.

Lemma parent_cell r :
  r ∈ parent_rels p →
  ∃ g rel, G !! r = Some g ∧ relations s !! r = Some rel ∧ rel_ok (threads s) tr r g rel ∧
    user_p g = Some t ∧ user_c g ≠ Some t ∧ status_lock rel = t ∧ parent_ok (parent_mode_of p r) (cid g) rel.
Proof.
  intros Hin. destruct (v_par Hi _ _ _ Ht Hin) as (g & Hg & Hu).
  destruct (proj1 (v_dom Hi r) ltac:(eauto)) as [rel Hr]. pose proof (v_rel Hi _ _ _ Hg Hr) as Hok.
  pose proof Hok as [H Hc]. rewrite Hu in H. destruct H as (E & p1 & Hp1 & _ & H). assert (p1 = p) as -> by congruence.
  exists g, rel. split_and!; [done..| |done|done]. intros Huc. rewrite Huc in Hc. destruct Hc as [-> _].
  by apply (v_self Hi r g (cid g) Hg Hu).
Qed.

(** The thread goes on to [p'], and the relation [r] it uses becomes [rel']. *)
Lemma step_update s' r g g' rel' p' ev :
  G !! r = Some g → cid g' = cid g → user_p g' = None ∨ user_p g' = user_p g →
  (user_c g' = user_c g ∨ user_c g = Some t) → (user_p g' = user_p g ∨ user_p g = Some t) →
  threads s' = <[t := p']> (threads s) → relations s' = <[r := rel']> (relations s) →
  next_tid s' = next_tid s ∧ next_rel s' = next_rel s → (∀ t c v, ev ≠ Some (WaitReturns t c v)) →
  process_ok p' →
  (∀ r', r' ≠ r → (r' ∈ parent_rels p' ↔ r' ∈ parent_rels p) ∧ parent_mode_of p' r' = parent_mode_of p r') →
  (∀ r', r' ≠ r → (child_rel p' = Some r' ↔ child_rel p = Some r') ∧ (child_rel p = Some r' → child_mode_of p' = child_mode_of p)) →
  (r ∈ parent_rels p' → user_p g' = Some t) → (child_rel p' = Some r → user_c g' = Some t) →
  rel_ok (<[t := p']> (threads s)) (option_list ev ++ tr) r g' rel' →
  inv s' (option_list ev ++ tr) (<[r := g']> G).
Proof.
  intros Hg Hcid Hup Huc' Hup' E1 E2 E3 Hev Hnd Hpar Hchi Hp Hc Hok.
  refine (concerns_inv (t := t) (p := p) (p' := p') (r := r) Hi _). split; rewrite ?E1, ?E2; try done.
  - intros r' Hne. by rewrite lookup_insert_ne by congruence.
  - intros r' Hne. by rewrite lookup_insert_ne by congruence.
  - set_solver.
  - intros t' c v Hin. left. apply elem_of_app in Hin as [Hin|]; [|done]. destruct ev; [|set_solver].
    cbn in Hin. apply list_elem_of_singleton in Hin. subst. by destruct (Hev t' c v).
  - rewrite !lookup_insert_eq. split; eauto.
  - intros g0 g1. rewrite lookup_insert_eq. intros. by simplify_eq.
  - intros Hin. exists g'. rewrite lookup_insert_eq. auto.
  - intros Hin. exists g'. rewrite lookup_insert_eq. auto.
  - intros g0 t' Hne Hg0. simplify_eq. rewrite lookup_insert_eq. split; intros Hu; exists g'; (split; [done|]).
    + destruct Hup' as [->|]; congruence.
    + destruct Huc' as [->|]; congruence.
  - intros g0 rel0. rewrite !lookup_insert_eq. intros. by simplify_eq.
Qed.

(** The thread goes on to [p'] after freeing a relation nobody else uses. *)
Lemma step_free s' r g p' ev :
  G !! r = Some g → (user_p g = None ∨ user_p g = Some t) → (user_c g = None ∨ user_c g = Some t) →
  threads s' = <[t := p']> (threads s) → relations s' = delete r (relations s) →
  next_tid s' = next_tid s ∧ next_rel s' = next_rel s →
  (∀ t c v, ev = Some (WaitReturns t c v) → Exited c v ∈ tr ∧ c = cid g ∧ c ≠ TID_ERROR) →
  process_ok p' →
  (∀ r', r' ≠ r → (r' ∈ parent_rels p' ↔ r' ∈ parent_rels p) ∧ parent_mode_of p' r' = parent_mode_of p r') →
  (∀ r', r' ≠ r → (child_rel p' = Some r' ↔ child_rel p = Some r') ∧ (child_rel p = Some r' → child_mode_of p' = child_mode_of p)) →
  (r ∉ parent_rels p') → child_rel p' ≠ Some r →
  inv s' (option_list ev ++ tr) (delete r G).
Proof.
  intros Hg Hup Huc E1 E2 E3 Hev Hnd Hpar Hchi Hp Hc.
  refine (concerns_inv (t := t) (p := p) (p' := p') (r := r) Hi _). split; rewrite ?E1, ?E2; try done.
  - intros r' Hne. by rewrite lookup_delete_ne by congruence.
  - intros r' Hne. by rewrite lookup_delete_ne by congruence.
  - set_solver.
  - intros t' c v Hin. apply elem_of_app in Hin as [Hin|]; [|by left]. right. destruct ev; [|set_solver].
    cbn in Hin. apply list_elem_of_singleton in Hin. subst. destruct (Hev t' c v eq_refl) as (? & -> & ?).
    rewrite lookup_delete_eq. split_and!; [done|by apply (v_cids Hi r)|done|eauto|done].
  - rewrite !lookup_delete_eq. split; by intros [].
  - rewrite lookup_delete_eq. by intros [].
  - intros g0 t' Hne Hg0. simplify_eq. split; intros Hu; destruct Hup, Huc; congruence.
  - intros g0 rel0. by rewrite lookup_delete_eq.
Qed.

(** The thread goes on without touching a relation. *)
Lemma step_local s' p' ev :
  threads s' = <[t := p']> (threads s) → relations s' = relations s →
  next_tid s' = next_tid s ∧ next_rel s' = next_rel s → (∀ t c v, ev ≠ Some (WaitReturns t c v)) →
  process_ok p' → parent_rels p' = parent_rels p → (∀ r, parent_mode_of p' r = parent_mode_of p r) →
  child_rel p' = child_rel p → (child_rel p ≠ None → child_mode_of p' = child_mode_of p) →
  inv s' (option_list ev ++ tr) G.
Proof.
  intros E1 E2 E3 Hev Hat Hpr Hpm Hcr Hcm. assert (G !! next_rel s = None) as Hf.
  { apply eq_None_not_Some. intros Hs%(v_dom Hi)%(v_rels Hi). lia. }
  assert (∀ g, G !! next_rel s ≠ Some g) as Hf' by congruence.
  refine (concerns_inv (t := t) (p := p) (p' := p') (r := next_rel s) Hi _).
  split; rewrite ?E1, ?E2, ?Hpr, ?Hcr; try done; try (intros; exfalso; by eapply Hf').
  - set_solver.
  - intros t' c v Hin. left. apply elem_of_app in Hin as [Hin|]; [|done]. destruct ev; [|set_solver].
    cbn in Hin. apply list_elem_of_singleton in Hin. subst. by destruct (Hev t' c v).
  - intros r' _. split; [done|]. intros Hc. apply Hcm. by rewrite Hc.
  - rewrite (v_dom Hi). done.
  - intros Hin. destruct (v_par Hi _ _ _ Ht Hin) as (g & Hg & _). by destruct (Hf' g).
  - intros Hc. destruct (v_chi Hi _ _ _ Ht Hc) as (g & Hg & _). by destruct (Hf' g).
Qed.

(** A child goes on, keeping its relation. *)
Lemma child_keeps s' r rel rel' p' ev :
  child_rel p = Some r → relations s !! r = Some rel →
  threads s' = <[t := p']> (threads s) → relations s' = <[r := rel']> (relations s) →
  next_tid s' = next_tid s ∧ next_rel s' = next_rel s → (∀ t c v, ev ≠ Some (WaitReturns t c v)) →
  process_ok p' → parent_rels p' = parent_rels p → (∀ r, parent_mode_of p' r = parent_mode_of p r) →
  child_rel p' = Some r →
  p_status rel' = p_status rel → c_id rel' = c_id rel → status_lock rel' = status_lock rel →
  c_status rel ≠ P_EXITED → (c_status rel' ≠ P_LOADING ∨ c_status rel' = c_status rel) →
  (p_status rel = P_EXITED ∨ child_mode_of p' ≠ Freeing) →
  child_ok (child_mode_of p') t (option_list ev ++ tr) rel' True →
  ∃ G', inv s' (option_list ev ++ tr) G'.
Proof.
  intros Hc Hr E1 E2 E3 Hev Hat Hpr Hpm Hc' Hps Hci Hsl Hce Hcl Hfr Hok.
  destruct (child_cell r Hc) as (g & rel0 & Hg & Hr0 & [Hp _] & Huc & Hcid & Hup & _).
  assert (rel0 = rel) as -> by congruence. clear Hr0.
  exists (<[r := g]> G). eapply step_update; try done; [by right|by left|by left| | | |].
  - intros r' _. by rewrite Hpr.
  - intros r' Hne. rewrite Hc', Hc. naive_solver.
  - rewrite Hpr. intros Hin. destruct (v_par Hi _ _ _ Ht Hin) as (g0 & Hg0 & ?). congruence.
  - split.
    + destruct (user_p g) as [t1|] eqn:Hu; [|by rewrite Hps]. destruct Hp as (Hl & p1 & Hp1 & Hin & Hpo).
      split; [by rewrite Hsl|]. exists p1. rewrite lookup_insert_ne by congruence. split_and!; [done..|].
      assert (c_status rel ≠ P_LOADING → c_status rel' ≠ P_LOADING) by (destruct Hcl; congruence).
      destruct (parent_mode_of p1 r); cbn in *; rewrite ?Hps, ?Hci; intuition congruence.
    + rewrite Huc. split; [done|]. exists p'. rewrite lookup_insert_eq. split_and!; [done..|].
      destruct (child_mode_of p'); cbn in *; try done. destruct Hok as [? _]. split; [done|].
      destruct Hfr as [Hex|]; [|done]. destruct (user_p g) as [t1|]; [|done]. destruct Hp as (_ & p1 & _ & _ & Hpo).
      destruct (parent_mode_of p1 r); cbn in Hpo; intuition congruence.
Qed.

(** A parent goes on, keeping its relation. *)
Lemma parent_keeps s' r rel rel' p' ev :
  r ∈ parent_rels p → relations s !! r = Some rel →
  threads s' = <[t := p']> (threads s) → relations s' = <[r := rel']> (relations s) →
  next_tid s' = next_tid s ∧ next_rel s' = next_rel s → (∀ t c v, ev ≠ Some (WaitReturns t c v)) →
  process_ok p' → parent_rels p' ≡ₚ parent_rels p →
  (∀ r', r' ≠ r → parent_mode_of p' r' = parent_mode_of p r') →
  child_rel p' = child_rel p → (child_rel p ≠ None → child_mode_of p' = child_mode_of p) →
  c_status rel' = c_status rel → w_status rel' = w_status rel → status_lock rel' = status_lock rel →
  (∀ id, parent_ok (parent_mode_of p r) id rel → parent_ok (parent_mode_of p' r) id rel') →
  ∃ G', inv s' (option_list ev ++ tr) G'.
Proof.
  intros Hin Hr E1 E2 E3 Hev Hat Hpr Hpm Hc Hcm Hcs Hws Hsl Hok.
  destruct (parent_cell r Hin) as (g & rel0 & Hg & Hr0 & [_ Hch] & Hup & Huc & Hl & Hpo).
  assert (rel0 = rel) as -> by congruence. clear Hr0.
  exists (<[r := g]> G). eapply step_update; try done; [by right|by left|by left| | | |].
  - intros r' Hne. rewrite Hpr. auto.
  - intros r' Hne. rewrite Hc. split; [done|]. intros E. apply Hcm. by rewrite E.
  - rewrite Hc. intros E. destruct (v_chi Hi _ _ _ Ht E) as (g0 & Hg0 & ?). congruence.
  - split.
    + rewrite Hup. split; [congruence|]. exists p'. rewrite lookup_insert_eq, Hpr. auto.
    + destruct (user_c g) as [t1|] eqn:Hu; [|rewrite Hcs, Hws; set_solver]. destruct Hch as (E & p1 & Hp1 & Hcr & Hco).
      split; [done|]. exists p1. rewrite lookup_insert_ne by congruence. split_and!; [done..|].
      destruct (child_mode_of p1); cbn in *; rewrite ?Hcs, ?Hws; set_solver.
Qed.

(** ** Every step *)

(** What a step may lead to: a state that keeps the invariant, or a fault that
    is not a misuse of a relation. *)
Definition good (res : result) : Prop :=
  match res with
  | Next s' ev => ∃ G', inv s' (option_list ev ++ tr) G'
  | Fault f => f = NullRelation ∨ f = NullParent ∨ ∃ o, f = DanglingLock o ∧ threads s !! o = None
  end.

Lemma locked_good r rel k :
  relations s !! r = Some rel → (is_Some (threads s !! status_lock rel) → good (k rel)) → good (locked s r k).
Proof.
  intros Hr Hk. unfold locked, with_rel. rewrite Hr. destruct (threads s !! status_lock rel) eqn:E; [by apply Hk|].
  right; right. eauto.
Qed.

Lemma with_rel_good r rel k : relations s !! r = Some rel → good (k rel) → good (with_rel s r k).
Proof. intros Hr Hk. unfold with_rel. by rewrite Hr. Qed.

Lemma same_relation r rel : relations s !! r = Some rel → relations s = <[r := rel]> (relations s).
Proof. intros. symmetry. by apply insert_id. Qed.

Lemma same_thread : threads s = <[t := p]> (threads s).
Proof. symmetry. by apply insert_id. Qed.

(** Nothing changes but the events. *)
Lemma stay_good ev : (∀ t c v, ev ≠ Some (WaitReturns t c v)) → good (Next s ev).
Proof.
  intros Hev. exists G. apply (step_local s p ev); try done; [apply same_thread|]. by apply (v_nodup Hi t p).
Qed.

Lemma process_keeps k :
  parent_rels (at_ k p) ≡ₚ parent_rels p →
  match k with
  | ExecCreated r _ | ExecLoop r _ | WaitLoop r _ => r ∈ children_in_r p
  | Loaded success => success = true
  | ExitRest | Dying => children_in_r p = []
  | _ => True
  end → process_ok (at_ k p).
Proof. intros Hp Hk. split; [|done]. rewrite Hp. by apply (v_nodup Hi t p). Qed.

(** The views of a process whose point is known. *)
Ltac views Hp :=
  unfold parent_rels, child_rel, parent_mode_of, child_mode_of in *; rewrite ?Hp in *; cbn in *.

Lemma exec_set_id_good r tid : at_point p = ExecCreated r tid → good (exec_set_id t p r tid s).
Proof.
  intros Hp. pose proof (v_nodup Hi t p Ht) as [_ Hin]. rewrite Hp in Hin.
  destruct (parent_cell r) as (g & rel & Hg & Hr & _); [by views Hp|].
  eapply with_rel_good; [done|]. apply (parent_keeps _ r rel (with_c_id tid rel) (at_ (ExecLoop r tid) p)); try done.
  - by views Hp.
  - apply process_keeps; by views Hp.
  - by views Hp.
  - intros r' Hne. views Hp. by rewrite !decide_False.
  - by views Hp.
  - by views Hp.
  - intros id. views Hp. rewrite !decide_True by done. naive_solver.
Qed.

Lemma exec_loop_good r tid : at_point p = ExecLoop r tid → good (exec_loop t p r tid s).
Proof.
  intros Hp. pose proof (v_nodup Hi t p Ht) as [_ Hin]. rewrite Hp in Hin.
  destruct (parent_cell r) as (g & rel & Hg & Hr & _); [by views Hp|].
  eapply locked_good; [done|]. intros _. case_decide as Hl; [by apply stay_good|].
  apply (parent_keeps _ r rel rel (at_ User p)); try done.
  - by views Hp.
  - by apply same_relation.
  - apply process_keeps; by views Hp.
  - by views Hp.
  - intros r' Hne. views Hp. by rewrite decide_False.
  - by views Hp.
  - by views Hp.
  - intros id. views Hp. rewrite decide_True by done. naive_solver.
Qed.

Lemma start_load_good r : at_point p = Start r → good (start_load t p r true s).
Proof.
  intros Hp. destruct (child_cell r) as (g & rel & Hg & Hr & _ & _ & _ & _ & Hok); [by views Hp|].
  apply (child_keeps _ r rel rel (Process (children_in_r p) (Some r) (Loaded true))); try done; views Hp; try done.
  - by apply same_relation.
  - split; [|done]. pose proof (v_nodup Hi t p Ht) as [H _]. by views Hp.
  - by rewrite Hok.
  - by right.
  - by right.
Qed.

Lemma start_loaded_good success : at_point p = Loaded success → good (start_loaded t p success s).
Proof.
  intros Hp. pose proof (v_nodup Hi t p Ht) as [_ Hs]. rewrite Hp in Hs. subst success. unfold start_loaded.
  destruct (parent_in_r p) as [r|] eqn:Er; [|by right; left].
  destruct (child_cell r) as (g & rel & Hg & Hr & _ & _ & _ & _ & Hok); [by views Hp|].
  eapply locked_good; [done|]. intros _.
  apply (child_keeps _ r rel (with_c_status P_RUNNING rel) (at_ User p)); try done; views Hp; try done.
  - apply process_keeps; by views Hp.
  - by rewrite Hok.
  - by left.
  - by right.
Qed.

Lemma find_child_spec rels c :
  (∀ r, r ∈ rels → is_Some (relations s !! r)) →
  find_child s rels c = Some None ∨
  ∃ r rel, find_child s rels c = Some (Some r) ∧ r ∈ rels ∧ relations s !! r = Some rel ∧ c_id rel = c.
Proof.
  induction rels as [|r rels IH]; intros Hl; cbn [find_child]; [by left|].
  destruct (Hl r) as [rel Hr]; [set_solver|]. rewrite Hr. destruct (Z.eqb_spec (c_id rel) c).
  - right. exists r, rel. set_solver.
  - destruct IH as [H|(r' & rel' & ? & ? & ?)]; [set_solver|by left|right]. exists r', rel'. set_solver.
Qed.

Lemma children_live r : r ∈ children_in_r p → is_Some (relations s !! r).
Proof.
  intros Hin. destruct (parent_cell r) as (g & rel & _ & Hr & _); [|eauto].
  unfold parent_rels. destruct (at_point p); set_solver.
Qed.

Lemma wait_begin_good c : at_point p = User → good (wait_begin t p c s).
Proof.
  intros Hp. unfold wait_begin. destruct (find_child_spec (children_in_r p) c children_live) as [E|(r & rel & E & Hin & Hr & Hc)];
    rewrite E; [by apply stay_good|].
  apply (parent_keeps _ r rel rel (at_ (WaitLoop r c) p)); try done.
  - by views Hp.
  - by apply same_relation.
  - apply process_keeps; by views Hp.
  - by views Hp.
  - intros r' Hne. views Hp. by rewrite decide_False.
  - by views Hp.
  - by views Hp.
  - intros id. views Hp. rewrite decide_True by done. cbn. naive_solver.
Qed.

Lemma wait_loop_good r c : at_point p = WaitLoop r c → good (wait_loop t p r c s).
Proof.
  intros Hp. pose proof (v_nodup Hi t p Ht) as [Hnd Hin]. rewrite Hp in Hin. views Hp.
  destruct (parent_cell r) as (g & rel & Hg & Hr & _); [by views Hp|].
  eapply locked_good; [done|]. intros _. case_decide as Hl; [by apply stay_good|].
  assert (children_in_r p ≡ₚ r :: filter (λ x, x ≠ r) (children_in_r p)) as Hperm by by apply filter_remove.
  eapply (parent_keeps _ r rel rel); try done; cbn.
  - by views Hp.
  - by apply same_relation.
  - split; [|done]. cbn. by rewrite <- Hperm.
  - views Hp. by rewrite <- Hperm.
  - intros r' Hne. views Hp. by rewrite !decide_False.
  - by views Hp.
  - by views Hp.
  - intros id. views Hp. rewrite !decide_True by done. cbn. destruct (c_status rel); naive_solver.
Qed.

(** When the child of a relation its parent still uses has exited, it does not
    use the relation any more. *)
Lemma child_gone th r g rel :
  rel_ok th tr r g rel → user_p g = Some t → c_status rel = P_EXITED →
  user_c g = None ∧ cid g ≠ TID_ERROR ∧ Exited (cid g) (w_status rel) ∈ tr.
Proof.
  intros [_ Hc] Hu Hs. destruct (user_c g) as [t1|]; [|intuition congruence].
  destruct Hc as (_ & p1 & _ & _ & Hc). destruct (child_mode_of p1); cbn in Hc; intuition congruence.
Qed.

Lemma wait_free_good r c v : at_point p = WaitFree r c v → good (wait_free t p r c v s).
Proof.
  intros Hp. destruct (parent_cell r) as (g & rel & Hg & Hr & Hok & Hu & _ & _ & Hpo); [views Hp; set_solver|].
  views Hp. rewrite decide_True in Hpo by done. destruct Hpo as (Hps & Hcs & -> & ->).
  destruct (child_gone _ _ _ _ Hok Hu Hcs) as (Hc & Hne & Hin).
  pose proof (v_nodup Hi t p Ht) as [Hnd _]. views Hp. apply NoDup_cons in Hnd as [Hni Hnd].
  unfold wait_free, free_rel. rewrite Hr. exists (delete r G).
  eapply (step_free _ _ _ _ (Some (WaitReturns t (cid g) (w_status rel)))); try done; views Hp; try done.
  - by right.
  - by left.
  - intros. by simplify_eq.
  - intros r' Hne'. rewrite decide_False by done. split; [set_solver|done].
  - intros E. destruct (v_chi Hi t p r Ht) as (g0 & Hg0 & ?); [by views Hp|]. congruence.
Qed.

Lemma set_w_status_good v : at_point p = User → good (set_w_status t p v s).
Proof.
  intros Hp. unfold set_w_status. destruct (parent_in_r p) as [r|] eqn:Er; [|by right; left].
  destruct (child_cell r) as (g & rel & Hg & Hr & _ & _ & _ & _ & Hok); [by views Hp|].
  eapply with_rel_good; [done|].
  apply (child_keeps _ r rel (with_w_status v rel) (at_ ExitPrint p)); try done; views Hp; try done.
  - apply process_keeps; by views Hp.
  - by rewrite Hok.
  - by right.
  - by right.
Qed.

Lemma bad_call_good : at_point p = User → good (Next (set_process t (at_ ExitPrint p) s) None).
Proof.
  intros Hp. exists G. apply (step_local _ (at_ ExitPrint p) None); try done; [|by views Hp..].
  apply process_keeps; by views Hp.
Qed.

Lemma exit_print_good : at_point p = ExitPrint → good (exit_print t p s).
Proof.
  intros Hp. unfold exit_print. destruct (parent_in_r p) as [r|] eqn:Er; [|by right; left].
  destruct (child_cell r) as (g & rel & Hg & Hr & _ & _ & _ & _ & Hok); [by views Hp|].
  eapply with_rel_good; [done|].
  apply (child_keeps _ r rel rel (at_ ExitTies p)); try done; views Hp; try done.
  - by apply same_relation.
  - apply process_keeps; by views Hp.
  - by rewrite Hok.
  - by right.
  - by right.
  - set_solver.
Qed.

Lemma parent_ok_exit m id rel :
  c_status rel = P_RUNNING → parent_ok m id rel → parent_ok m id (with_c_status P_EXITED rel).
Proof. intros Hc. destruct m; cbn; intuition congruence. Qed.

Lemma exit_ties_good : at_point p = ExitTies → good (exit_ties t p s).
Proof.
  intros Hp. unfold exit_ties. destruct (parent_in_r p) as [r|] eqn:Er.
  2: { exists G. apply (step_local _ (at_ ExitOrphan p) None); try done; [|by views Hp..]. apply process_keeps; by views Hp. }
  destruct (child_cell r) as (g & rel & Hg & Hr & Hrel & Huc & Hcid & Hup & Hok); [by views Hp|].
  eapply locked_good; [done|]. intros _. views Hp. destruct Hok as [Hcs Hex]. case_decide as Hps.
  - apply (child_keeps _ r rel (with_c_status P_EXITED rel) (at_ (TiesFree r) p) None); try done; views Hp; try done.
    + apply process_keeps; by views Hp.
    + by rewrite Hcs.
    + by left.
    + by left.
  - destruct Hrel as [Hpar _]. destruct (user_p g) as [t1|] eqn:Hu; [|done].
    destruct Hpar as (Hl & p1 & Hp1 & Hin & Hpo). apply (parent_ok_exit _ _ _ Hcs) in Hpo.
    exists (<[r := Cell (Some t1) None (cid g)]> G). eapply (step_update _ _ g _ _ _ None); try done; views Hp; try done.
    + by rewrite Hu; right.
    + by right.
    + by left.
    + apply process_keeps; by views Hp.
    + naive_solver.
    + intros Hin'. destruct (v_par Hi t p r Ht) as (g0 & Hg0 & ?); [by views Hp|]. congruence.
    + split; cbn.
      * split; [done|]. exists p1. by rewrite lookup_insert_ne by congruence.
      * split; [done|]. left. assert (0 < t) by by apply (v_tids Hi t). rewrite Hcid. unfold TID_ERROR. split_and!; [done|lia|done].
Qed.

Lemma ties_free_good r : at_point p = TiesFree r → good (ties_free t p r s).
Proof.
  intros Hp. destruct (child_cell r) as (g & rel & Hg & Hr & _ & Huc & _ & _ & Hok); [by views Hp|].
  views Hp. destruct Hok as [Hcs Hu]. pose proof (v_nodup Hi t p Ht) as [Hnd _].
  unfold ties_free, free_rel. rewrite Hr. exists (delete r G). eapply (step_free _ _ _ _ None); try done; views Hp; try done.
  - by left.
  - by right.
  - naive_solver.
  - intros Hin. destruct (v_par Hi t p r Ht) as (g0 & Hg0 & ?); [by views Hp|]. congruence.
Qed.

Lemma exit_orphan_good : at_point p = ExitOrphan → good (exit_orphan t p s).
Proof.
  intros Hp. pose proof (v_nodup Hi t p Ht) as [Hnd _]. views Hp.
  unfold exit_orphan. destruct (children_in_r p) as [|r rels] eqn:Ec.
  { exists G. apply (step_local _ (at_ ExitRest p) None); try done; [|by views Hp..].
    split; cbn; [|done]. unfold parent_rels. cbn. by rewrite Ec. }
  destruct (parent_cell r) as (g & rel & Hg & Hr & Hrel & Hu & Huc & _ & Hpo); [views Hp; rewrite Ec; set_solver|].
  eapply locked_good; [done|]. intros _. views Hp. destruct Hpo as (Hps & Hl & Hid). case_decide as Hcs.
  - apply (parent_keeps _ r rel (with_p_status P_EXITED rel) (Process rels (parent_in_r p) (OrphanFree r)) None); try done.
    + views Hp. rewrite Ec. set_solver.
    + views Hp. by rewrite Ec.
    + intros r' Hne. views Hp. by rewrite decide_False.
    + by views Hp.
    + by views Hp.
    + intros id. views Hp. by rewrite decide_True.
  - destruct Hrel as [_ Hc]. apply NoDup_cons in Hnd as [Hni Hnd].
    assert (∃ t1, user_c g = Some t1) as [t1 Huc1] by (destruct (user_c g); [eauto|]; intuition congruence).
    rewrite Huc1 in Hc. destruct Hc as (Hcid & p1 & Hp1 & Hcr & Hco).
    assert (child_ok (child_mode_of p1) t1 tr (with_p_status P_EXITED rel) (@None Z = None)) as Hco'
      by (destruct (child_mode_of p1); cbn in *; intuition).
    exists (<[r := Cell None (user_c g) (cid g)]> G). eapply (step_update _ _ g _ _ _ None); try done; cbn; try done.
    + by left.
    + by left.
    + by right.
    + intros r' Hne. views Hp. rewrite Ec. split; [set_solver|done].
    + intros r' Hne. by views Hp.
    + split; cbn; [done|]. rewrite Huc1. split; [done|]. exists p1. by rewrite lookup_insert_ne by congruence.
Qed.

Lemma orphan_free_good r : at_point p = OrphanFree r → good (orphan_free t p r s).
Proof.
  intros Hp. destruct (parent_cell r) as (g & rel & Hg & Hr & Hok & Hu & _ & _ & Hpo); [views Hp; set_solver|].
  views Hp. rewrite decide_True in Hpo by done. destruct Hpo as (Hps & Hcs).
  destruct (child_gone _ _ _ _ Hok Hu Hcs) as (Hc & Hne & Hin).
  pose proof (v_nodup Hi t p Ht) as [Hnd _]. views Hp. apply NoDup_cons in Hnd as [Hni Hnd].
  unfold orphan_free, free_rel. rewrite Hr. exists (delete r G). eapply (step_free _ _ _ _ None); try done; views Hp; try done.
  - by right.
  - by left.
  - intros r' Hne'. rewrite decide_False by done. split; [set_solver|done].
Qed.

Lemma exit_rest_good : at_point p = ExitRest → good (Next (set_process t (at_ Dying p) s) None).
Proof.
  intros Hp. pose proof (v_nodup Hi t p Ht) as [_ Hc]. rewrite Hp in Hc.
  exists G. apply (step_local _ (at_ Dying p) None); try done; [|by views Hp..]. apply process_keeps; by views Hp.
Qed.

Lemma reap_good : at_point p = Dying → good (reap t s).
Proof.
  intros Hp. pose proof (v_nodup Hi t p Ht) as [_ Hc]. rewrite Hp in Hc. exists G.
  assert (∀ t1 p1, delete t (threads s) !! t1 = Some p1 → threads s !! t1 = Some p1) as Hback
    by (intros t1 p1 [_ ?]%lookup_delete_Some; done).
  split; cbn; [exact (v_dom Hi)| | | | |exact (v_ids Hi)| |exact (v_rels Hi)|exact (v_cids Hi)|exact (v_self Hi)|
    exact (v_waited Hi)|exact (v_pos Hi)].
  - intros t1 p1 r H1. apply (v_par Hi t1 p1 r); auto.
  - intros t1 p1 r H1. apply (v_chi Hi t1 p1 r); auto.
  - intros t1 p1 H1. apply (v_nodup Hi t1 p1); auto.
  - intros r g rel Hg Hr. pose proof (v_rel Hi r g rel Hg Hr) as [Hpa Hch]. split.
    + destruct (user_p g) as [t1|]; [|done]. destruct Hpa as (Hl & p1 & Hp1 & Hin & Hok). split; [done|]. exists p1.
      rewrite lookup_delete_ne; [done|]. intros ->. assert (p1 = p) as -> by congruence. views Hp. rewrite Hc in Hin. set_solver.
    + destruct (user_c g) as [t1|]; [|done]. destruct Hch as (E & p1 & Hp1 & Hcr & Hok). split; [done|]. exists p1.
      rewrite lookup_delete_ne; [done|]. intros ->. assert (p1 = p) as -> by congruence. by views Hp.
  - intros t1 [p1 H1]. apply (v_tids Hi t1). eauto.
Qed.

(** [process_execute] creates a relation and, if it succeeds, a thread. *)
Section create.
Context (thread : bool) (garbage : Z) (s' : state).
Let r : Z := next_rel s.
Let tid : Z := if thread then next_tid s else TID_ERROR.
Let p' : process := Process (children_in_r p ++ [r]) (parent_in_r p) (ExecCreated r tid).
Let child : process := Process [] None (Start r).
Let rel : relation := Relation garbage P_RUNNING P_LOADING (-1) t.
Let g : cell := Cell (Some t) (if thread then Some tid else None) tid.
Hypothesis Hp : at_point p = User.
Hypothesis E1 : threads s' = if thread then <[tid := child]> (<[t := p']> (threads s)) else <[t := p']> (threads s).
Hypothesis E2 : relations s' = <[r := rel]> (relations s).
Hypothesis E3 : next_tid s' = if thread then tid + 1 else next_tid s.
Hypothesis E4 : next_rel s' = r + 1.

Lemma created_fresh : G !! r = None ∧ threads s !! next_tid s = None.
Proof.
  split; apply eq_None_not_Some; [intros Hs%(v_dom Hi)%(v_rels Hi)|intros Hs%(v_tids Hi)]; unfold r in *; lia.
Qed.

Lemma created_tid : 0 < t < next_tid s ∧ tid ≠ t ∧ tid < next_tid s' ∧ next_tid s ≤ next_tid s' ∧ 0 < next_tid s.
Proof.
  pose proof (v_tids Hi t ltac:(eauto)). pose proof (v_pos Hi). unfold tid, TID_ERROR in *. rewrite E3. destruct thread; lia.
Qed.

Lemma created_thread t1 p1 :
  threads s' !! t1 = Some p1 →
  (thread = true ∧ t1 = tid ∧ p1 = child) ∨ (t1 = t ∧ p1 = p') ∨ (t1 ≠ t ∧ threads s !! t1 = Some p1).
Proof. rewrite E1. destruct thread; rewrite ?lookup_insert_Some; naive_solver. Qed.

Lemma created_self : threads s' !! t = Some p'.
Proof.
  destruct created_tid as (_ & Hne & _). rewrite E1.
  destruct thread; [rewrite lookup_insert_ne by done|]; apply lookup_insert_eq.
Qed.

Lemma created_other t1 : t1 ≠ t → is_Some (threads s !! t1) → threads s' !! t1 = threads s !! t1.
Proof.
  intros Hne [p1 Hs]. destruct created_fresh as [_ Hf]. assert (next_tid s ≠ t1) by congruence.
  rewrite E1. unfold tid. destruct thread; by rewrite !lookup_insert_ne by done.
Qed.

Lemma created_cell r' g' : G !! r' = Some g' → <[r := g]> G !! r' = Some g'.
Proof. intros Hg. destruct created_fresh. by rewrite lookup_insert_ne by congruence. Qed.

Lemma created_par t1 p1 r' :
  threads s' !! t1 = Some p1 → r' ∈ parent_rels p1 → ∃ g', <[r := g]> G !! r' = Some g' ∧ user_p g' = Some t1.
Proof.
  intros [(_ & -> & ->)|[[-> ->]|[Hne H1]]]%created_thread Hin; [set_solver| |].
  - change (parent_rels p') with (children_in_r p ++ [r]) in Hin. apply elem_of_app in Hin as [Hin|Hin].
    + destruct (v_par Hi t p r' Ht) as (g' & Hg & Hu); [by views Hp|]. eauto using created_cell.
    + apply list_elem_of_singleton in Hin. subst r'. exists g. by rewrite lookup_insert_eq.
  - destruct (v_par Hi t1 p1 r' H1 Hin) as (g' & Hg & Hu). eauto using created_cell.
Qed.

Lemma created_chi t1 p1 r' :
  threads s' !! t1 = Some p1 → child_rel p1 = Some r' → ∃ g', <[r := g]> G !! r' = Some g' ∧ user_c g' = Some t1.
Proof.
  intros [(Hth & -> & ->)|[[-> ->]|[Hne H1]]]%created_thread Hin.
  - injection Hin as <-. exists g. rewrite lookup_insert_eq. unfold g. by rewrite Hth.
  - destruct (v_chi Hi t p r' Ht) as (g' & Hg & Hu); [by views Hp|]. eauto using created_cell.
  - destruct (v_chi Hi t1 p1 r' H1 Hin) as (g' & Hg & Hu). eauto using created_cell.
Qed.

Lemma created_new : rel_ok (threads s') tr r g rel.
Proof.
  split; unfold g; cbn.
  - split; [done|]. exists p'. rewrite created_self. split_and!; [done|cbn; set_solver|].
    unfold parent_mode_of. cbn. by rewrite decide_True.
  - rewrite E1. destruct thread; [|by split; [|right]]. split; [done|]. exists child. by rewrite lookup_insert_eq.
Qed.

Lemma created_rel r' g' rel' :
  <[r := g]> G !! r' = Some g' → relations s' !! r' = Some rel' → rel_ok (threads s') tr r' g' rel'.
Proof.
  rewrite E2, !lookup_insert_Some. intros [[<- <-]|[Hne Hg]] [[? <-]|[? Hr]]; try done; [apply created_new|].
  pose proof (v_rel Hi r' g' rel' Hg Hr) as Hok.
  apply (rel_ok_frame _ _ _ _ _ _ _ t p p' Hok); [done|done|apply created_self|exact created_other| |].
  - intros Hu. destruct Hok as [Hx _]. rewrite Hu in Hx. destruct Hx as (_ & p1 & H1 & Hin & _).
    assert (p1 = p) as -> by congruence. views Hp. rewrite decide_False by congruence. set_solver.
  - intros Hu. destruct Hok as [_ Hx]. rewrite Hu in Hx. destruct Hx as (_ & p1 & H1 & Hin & _).
    assert (p1 = p) as -> by congruence. by views Hp.
Qed.

Lemma create_inv : inv s' tr (<[r := g]> G).
Proof.
  destruct created_tid as (H0 & H1 & H2 & H3 & H4). destruct created_fresh as [HG _].
  split; [|exact created_par|exact created_chi| |exact created_rel| | | | | | |lia].
  - intros r'. rewrite E2. destruct (decide (r' = r)) as [->|].
    + rewrite !lookup_insert_eq. split; eauto.
    + rewrite !lookup_insert_ne by done. apply (v_dom Hi).
  - intros t1 p1 [(_ & -> & ->)|[[-> ->]|[Hne Hp1]]]%created_thread; [by split; [constructor|]| |by apply (v_nodup Hi t1)].
    split; cbn; [|set_solver]. unfold parent_rels. cbn. pose proof (v_nodup Hi t p Ht) as [Hnd _]. views Hp.
    apply NoDup_app. split_and!; [done| |apply NoDup_singleton]. intros x Hx ->%list_elem_of_singleton.
    destruct (v_par Hi t p r Ht) as (g' & Hg & _); [by views Hp|]. congruence.
  - assert (∀ r' g', G !! r' = Some g' → cid g' = tid → tid = TID_ERROR) as Hnew.
    { intros r' g' Hg%(v_cids Hi). unfold tid in *. destruct thread; [lia|done]. }
    intros r1 r2 g1 g2. rewrite !lookup_insert_Some. intros [[<- <-]|[? Hg1]] [[<- <-]|[? Hg2]] He Hne; [done| | |].
    + destruct Hne. by eapply Hnew.
    + destruct Hne. rewrite He. by eapply Hnew.
    + by apply (v_ids Hi r1 r2 g1 g2).
  - intros t1 [p1 [(Hth & -> & _)|[[-> _]|[_ Hp1]]]%created_thread]; [|lia|].
    + split; [|lia]. unfold tid. rewrite Hth. lia.
    + pose proof (v_tids Hi t1 ltac:(eauto)). lia.
  - intros r' Hr'. rewrite E4. rewrite E2 in Hr'. destruct (decide (r' = r)) as [->|]; [lia|].
    rewrite lookup_insert_ne in Hr' by done. apply (v_rels Hi) in Hr'. unfold r. lia.
  - intros r' g'. rewrite lookup_insert_Some. intros [[<- <-]|[_ Hg]]; [done|]. apply (v_cids Hi) in Hg. lia.
  - intros r' g' t'. rewrite lookup_insert_Some. intros [[<- <-]|[_ Hg]]; [by intros [= <-]|]. by apply (v_self Hi r').
  - intros t1 c v Hw. destruct (v_waited Hi t1 c v Hw) as (Ha & Hb & Hc & Hd). split_and!; [done|lia|done|].
    intros r' g'. rewrite lookup_insert_Some. intros [[<- <-]|[_ Hg]]; [|by eauto].
    cbn. unfold tid. destruct thread; [lia|done].
Qed.
End create.

Lemma exec_begin_good page heap thread garbage : at_point p = User → good (exec_begin t p page heap thread garbage s).
Proof.
  intros Hp. unfold exec_begin. destruct page; cbn [negb]; [|by apply stay_good].
  destruct heap; cbn [negb]; [|by left].
  destruct thread; eexists; [apply (create_inv true garbage)|apply (create_inv false garbage)]; done.
Qed.

Lemma step_good c res : step t c s = Some res → c ≠ Load false → good res.
Proof.
  unfold step. rewrite Ht. intros H Hc.
  destruct (at_point p) eqn:Hp, c as [| | | | |[]|]; simplify_eq;
    eauto using exec_begin_good, exec_set_id_good, exec_loop_good, start_load_good, start_loaded_good, wait_begin_good,
      wait_loop_good, wait_free_good, set_w_status_good, bad_call_good, exit_print_good, exit_ties_good, ties_free_good,
      exit_orphan_good, orphan_free_good, exit_rest_good, reap_good.
Qed.
End steps.

(** ** Runs *)

Definition loads_succeed (steps : list (Z * choice)) : Prop := Forall (λ tc, tc.2 ≠ Load false) steps.

Lemma initial_inv : inv initial [] ∅.
Proof.
  assert (∀ t p, threads initial !! t = Some p → t = 1 ∧ p = Process [] None User) as Hth
    by (unfold initial; cbn; intros t p [<- <-]%lookup_singleton_Some; done).
  split; try set_solver; cbn.
  - intros r. rewrite !lookup_empty. split; by intros [].
  - intros t p r [-> ->]%Hth. set_solver.
  - intros t p [-> ->]%Hth. by split; [constructor|].
  - intros t [p [-> _]%Hth]. done.
  - intros r. rewrite lookup_empty. by intros [].
Qed.

(** After its message a process only goes on with [process_exit]. *)
Definition past_print (p : process) : Prop :=
  match at_point p with ExitTies | TiesFree _ | ExitOrphan | OrphanFree _ | ExitRest | Dying => True | _ => False end.

(** Only the initial thread has no parent, and a process prints one status. *)
Record history (s : state) (tr : list event) : Prop := {
  h_next : initial_tid < next_tid s;
  h_parent t p : threads s !! t = Some p → t ≠ initial_tid → (∃ r, at_point p = Start r) ∨ parent_in_r p ≠ None;
  h_tids t : is_Some (threads s !! t) → t < next_tid s;
  h_exited c v : Exited c v ∈ tr → c < next_tid s ∧ ∀ p, threads s !! c = Some p → past_print p;
  h_once c v v' : Exited c v ∈ tr → Exited c v' ∈ tr → v = v'
}.

Section history.
Context {s : state} {tr : list event} {t : Z} {p : process}.
Hypothesis Hh : history s tr.
Hypothesis Ht : threads s !! t = Some p.

Lemma history_update s' p' ev :
  threads s' = <[t := p']> (threads s) → next_tid s' = next_tid s →
  ((∃ r, at_point p = Start r) ∨ parent_in_r p ≠ None → (∃ r, at_point p' = Start r) ∨ parent_in_r p' ≠ None) →
  (past_print p → past_print p') →
  (∀ c v, ev = Some (Exited c v) → c = t ∧ ¬ past_print p ∧ past_print p') →
  history s' (option_list ev ++ tr).
Proof.
  intros E1 E2 Hpar Hpast Hev. destruct Hh as [H1 H2 H3 H4 H5].
  assert (∀ c v, Exited c v ∈ option_list ev ++ tr → Exited c v ∈ tr ∨ ev = Some (Exited c v)) as Hin.
  { intros c v [Hin|Hin]%elem_of_app; [|by left]. right. destruct ev; cbn in Hin; [|set_solver].
    by apply list_elem_of_singleton in Hin as ->. }
  assert (∀ v, Exited t v ∈ tr → past_print p) as Hex by (intros v [_ Hv]%H4; auto).
  split; rewrite ?E1, ?E2; [done| | | |].
  - intros t1 p1 [[<- <-]|[Hne H]]%lookup_insert_Some Hr; eauto.
  - intros t1 [p1 [[<- _]|[_ H]]%lookup_insert_Some]; eauto.
  - intros c v [Hc|Hc]%Hin.
    + destruct (H4 c v Hc) as [Hlt Hp]. split; [done|]. intros p1 [[<- <-]|[_ H]]%lookup_insert_Some; eauto.
    + destruct (Hev c v Hc) as (-> & Hn & Hp'). split; [eauto|]. intros p1 [[_ <-]|[? _]]%lookup_insert_Some; done.
  - intros c v v' [Hc|Hc]%Hin [Hc'|Hc']%Hin; [eauto| | |congruence].
    + destruct (Hev c v' Hc') as (-> & Hn & _). by destruct Hn; eapply Hex.
    + destruct (Hev c v Hc) as (-> & Hn & _). by destruct Hn; eapply Hex.
Qed.

Lemma history_create s' p' r :
  threads s' = <[next_tid s := Process [] None (Start r)]> (<[t := p']> (threads s)) → next_tid s' = next_tid s + 1 →
  parent_in_r p' = parent_in_r p → at_point p = User → history s' tr.
Proof.
  intros E1 E2 Hpar Hp. destruct Hh as [H1 H2 H3 H4 H5].
  assert (∀ v, Exited t v ∉ tr) as Hex by (intros v [_ Hv]%H4; specialize (Hv p Ht); unfold past_print in Hv; by rewrite Hp in Hv).
  split; rewrite ?E1, ?E2; [lia| | | |done].
  - intros t1 p1 [[<- <-]|[_ [[<- <-]|[_ H]]%lookup_insert_Some]]%lookup_insert_Some Hr; [by left; exists r| |eauto].
    right. rewrite Hpar. destruct (H2 t p Ht Hr) as [[r' E]|]; [congruence|done].
  - intros t1 [p1 [[<- _]|[_ [[<- _]|[_ H]]%lookup_insert_Some]]%lookup_insert_Some]; [lia|..].
    + specialize (H3 t ltac:(eauto)). lia.
    + specialize (H3 t1 ltac:(eauto)). lia.
  - intros c v Hc. destruct (H4 c v Hc) as [Hlt Hp1]. split; [lia|].
    intros p1 [[<- <-]|[_ [[<- <-]|[_ H]]%lookup_insert_Some]]%lookup_insert_Some; [lia| |eauto]. by destruct (Hex v).
Qed.

Lemma history_step c s' ev : step t c s = Some (Next s' ev) → history s' (option_list ev ++ tr).
Proof.
  unfold step. rewrite Ht. intros Hs.
  assert (∀ ev, (∀ c v, ev ≠ Some (Exited c v)) → history s (option_list ev ++ tr)) as Hstay.
  { intros ev0 Hev. apply (history_update s p); [by rewrite insert_id|done|done|done|]. intros c0 v0 E. by destruct (Hev c0 v0). }
  unfold exec_begin, exec_set_id, exec_loop, start_load, start_loaded, wait_begin, wait_loop, wait_free, set_w_status,
    exit_print, exit_ties, ties_free, exit_orphan, orphan_free, reap, locked, with_rel, free_rel in Hs.
  destruct (at_point p) eqn:Hp, c; simplify_eq; repeat (case_match; simplify_eq); try (by apply Hstay).
  all: try (eapply history_update; [reflexivity|reflexivity|cbn; rewrite ?Hp; naive_solver|unfold past_print; rewrite ?Hp; done|]; unfold past_print; rewrite ?Hp; naive_solver).
  - by eapply history_create.
  - destruct Hh as [H1 H2 H3 H4 H5]. split; cbn; [done| | | |done].
    + intros t1 p1 [_ Hd]%lookup_delete_Some. eauto.
    + intros t1 [p1 [_ Hd]%lookup_delete_Some]. eauto.
    + intros c v Hc. destruct (H4 c v Hc) as [? Hp1]. split; [done|]. intros p1 [_ Hd]%lookup_delete_Some. eauto.
Qed.
End history.

Lemma initial_history : history initial [].
Proof.
  split; [done| | |set_solver|set_solver]; unfold initial; cbn.
  - intros t p [<- <-]%lookup_singleton_Some. done.
  - intros t [p [<- <-]%lookup_singleton_Some]. done.
Qed.

(** The fault of a step is not a misuse of a relation, and only the initial
    thread dereferences a null parent. *)
Definition harmless (f : fault) : Prop :=
  match f with UseAfterFree | DoubleFree => False | _ => True end.

Lemma run_inv steps : ∀ s tr G,
  loads_succeed steps → inv s tr G → history s tr →
  match run steps s tr with
  | Some (inl (s', tr')) => (∃ G', inv s' tr' G') ∧ history s' tr'
  | Some (inr f) => harmless f
  | None => True
  end.
Proof.
  induction steps as [|[t c] steps IH]; intros s tr G Hl Hi Hh; cbn [run]; [eauto|].
  inversion_clear Hl as [|? ? Hc Hl']. destruct (step t c s) as [[s' ev|f]|] eqn:Hs; [| |done].
  - assert (∃ p, threads s !! t = Some p) as [p Ht]
      by (unfold step in Hs; destruct (threads s !! t); [eauto|done]).
    destruct (step_good Hi Ht c _ Hs Hc) as [G' Hi']. apply (IH _ _ G'); [done..|]. by eapply history_step.
  - assert (∃ p, threads s !! t = Some p) as [p Ht]
      by (unfold step in Hs; destruct (threads s !! t); [eauto|done]).
    pose proof (step_good Hi Ht c _ Hs Hc) as Hg. cbn in Hg. destruct Hg as [->|[->|(o & -> & _)]]; done.
Qed.

(** ** Theorems *)

(** C9: In every run in which no load fails, whatever the order of the steps of
    parents and children, no relation is used after it is freed or freed twice.
    In the state it leads to, every relation a thread will still use is
    allocated, and every relation that is allocated will still be used, and so
    freed, by its parent or its child: none is lost. *)
Theorem relations_safe steps :
  loads_succeed steps →
  match run steps initial [] with
  | Some (inr f) => f ≠ UseAfterFree ∧ f ≠ DoubleFree
  | Some (inl (s, tr)) => ∀ r, is_Some (relations s !! r) ↔
      ∃ t p, threads s !! t = Some p ∧ (r ∈ parent_rels p ∨ child_rel p = Some r)
  | None => True
  end.
Proof.
  intros Hl. pose proof (run_inv steps initial [] ∅ Hl initial_inv initial_history) as H.
  destruct (run steps initial []) as [[[s tr]|f]|]; [|by destruct f|done]. destruct H as [[G Hi] _]. intros r. split.
  - intros [rel Hr]. destruct (proj2 (v_dom Hi r) ltac:(eauto)) as [g Hg].
    destruct (v_rel Hi r g rel Hg Hr) as [Hp Hc]. destruct (user_p g) as [t|].
    + destruct Hp as (_ & p & Ht & Hin & _). eauto.
    + destruct (user_c g) as [t|]; [|by destruct Hc]. destruct Hc as (_ & p & Ht & Hin & _). eauto.
  - intros (t & p & Ht & [Hin|Hc]).
    + destruct (v_par Hi t p r Ht Hin) as (g & Hg & _). apply (v_dom Hi). eauto.
    + destruct (v_chi Hi t p r Ht Hc) as (g & Hg & _). apply (v_dom Hi). eauto.
Qed.

(** A run of the initial thread and a child that exits and is waited for. *)
Definition ex_run : list (Z * choice) :=
  [(1, Exec true true true 0); (2, Load true); (1, Go); (2, Go); (1, Go); (1, Wait 2); (1, Go); (2, Exit 7);
   (2, Go); (2, Go); (1, Go); (2, Go)].

Lemma relations_safe_witness :
  loads_succeed ex_run ∧
  match run ex_run initial [] with
  | Some (inr f) => f ≠ UseAfterFree ∧ f ≠ DoubleFree
  | Some (inl (s, tr)) => ∀ r, is_Some (relations s !! r) ↔
      ∃ t p, threads s !! t = Some p ∧ (r ∈ parent_rels p ∨ child_rel p = Some r)
  | None => True
  end.
Proof.
  assert (loads_succeed ex_run) as Hl by (repeat constructor; discriminate).
  split; [exact Hl|]. exact (relations_safe ex_run Hl).
Defined.

(** C10: In runs in which no load fails, [process_wait] returns the status its
    child exited with: when it returns [v] for the child [c], [c] has exited
    with [v], this is the only status [c] exits with, and nobody has waited for
    [c] before. *)
Theorem wait_returns_exit_status steps s tr t s' c v :
  loads_succeed steps → run steps initial [] = Some (inl (s, tr)) →
  step t Go s = Some (Next s' (Some (WaitReturns t c v))) →
  Exited c v ∈ tr ∧ (∀ v', Exited c v' ∈ tr → v' = v) ∧ (∀ t' v', WaitReturns t' c v' ∉ tr).
Proof.
  intros Hl Hr Hs. pose proof (run_inv steps initial [] ∅ Hl initial_inv initial_history) as H. rewrite Hr in H.
  destruct H as [[G Hi] Hh]. unfold step in Hs. destruct (threads s !! t) as [p|] eqn:Ht; [|done].
  assert (∃ r, at_point p = WaitFree r c v) as [r Hp].
  { unfold exec_set_id, exec_loop, start_loaded, wait_loop, wait_free, exit_print, exit_ties, ties_free, exit_orphan,
      orphan_free, reap, locked, with_rel, free_rel in Hs.
    destruct (at_point p) eqn:Hp; simplify_eq; repeat (case_match; simplify_eq). eauto. }
  destruct (parent_cell Hi Ht r) as (g & rel & Hg & Hrel & Hok & Hu & _ & _ & Hpo).
  { unfold parent_rels. rewrite Hp. set_solver. }
  unfold parent_mode_of in Hpo. rewrite Hp, decide_True in Hpo by done. destruct Hpo as (_ & Hcs & -> & ->).
  destruct (child_gone _ _ _ _ Hok Hu Hcs) as (_ & _ & Hex). split_and!; [done| |].
  - intros v' Hv'. by apply (h_once _ _ Hh (cid g)).
  - intros t' v' Hw. destruct (v_waited Hi _ _ _ Hw) as (_ & _ & _ & Hno). by apply (Hno r g).
Qed.

(** The state and the events a run leads to. *)
Definition after (steps : list (Z * choice)) : state * list event :=
  match run steps initial [] with Some (inl r) => r | _ => (initial, []) end.

Lemma wait_returns_exit_status_witness :
  let '(s, tr) := after ex_run in
  Exited 2 7 ∈ tr ∧ (∀ v', Exited 2 v' ∈ tr → v' = 7) ∧ (∀ t' v', WaitReturns t' 2 v' ∉ tr).
Proof.
  destruct (step 1 Go (after ex_run).1) as [[s' ev|]|] eqn:E; [|vm_compute in E; discriminate E..].
  apply (wait_returns_exit_status ex_run (after ex_run).1 (after ex_run).2 1 s' 2 7);
    [repeat constructor; discriminate|vm_compute; reflexivity|].
  rewrite E. do 2 f_equal. vm_compute in E. by injection E.
Defined.

(** Thread 2, a process, executes a program that does not load. *)
Definition ex_failed_load : list (Z * choice) :=
  [(1, Exec true true true 0); (2, Load true); (1, Go); (2, Go); (1, Go);
   (2, Exec true true true 0); (2, Go); (3, Load false); (3, Go)].

(** Runs that go wrong.  The child of a failed load announces its exit before
    it has finished with the relation, so that a parent that exits at that point
    frees it and the child uses freed memory.  When the child fails to load
    before its parent has stored its identifier, the parent overwrites
    [TID_ERROR] and [process_execute] returns the child as if it ran.  A child
    that exits after its parent takes the status lock in the page of the
    parent, which is free.  When its thread cannot be created, the parent waits
    for the child forever: no step leads out of the state. *)
Theorem process_faults :
  run (ex_failed_load ++ [(2, Go); (2, Exit 0); (2, Go); (2, Go); (2, Go); (2, Go); (3, Go)]) initial [] =
    Some (inr UseAfterFree) ∧
  (after [(1, Exec true true true 0); (2, Load false); (2, Go); (1, Go); (1, Go)]).2 = [ExecReturns 1 2] ∧
  run [(1, Exec true true true 0); (2, Load true); (1, Go); (2, Go); (1, Go);
       (2, Exec true true true 0); (2, Go); (3, Load true); (3, Go); (2, Go);
       (2, Exit 0); (2, Go); (2, Go); (2, Go); (2, Go); (2, Go); (2, Go); (3, Exit 0); (3, Go); (3, Go)] initial [] =
    Some (inr (DanglingLock 2)) ∧
  (let s := (after [(1, Exec true true false 0); (1, Go)]).1 in
   ∀ t c res, step t c s = Some res → res = Next s None).
Proof.
  split_and!; [vm_compute; reflexivity..|]. intros s t c res Hs.
  assert (threads s = {[ 1 := Process [1] None (ExecLoop 1 (-1)) ]}) as Eth by (vm_compute; reflexivity).
  unfold step in Hs. rewrite Eth in Hs. destruct (decide (t = 1)) as [->|Hne].
  - rewrite lookup_singleton_eq in Hs. cbn in Hs. destruct c; simplify_eq. vm_compute. reflexivity.
  - by rewrite lookup_singleton_ne in Hs by done.
Qed.
