(* ===== verification/Load.v ===== *)
(** * Loading an executable ([load], [validate_segment], [load_segment],
    [setup_stack] and [install_page] of [userprog/process.c])

    The loader in the build without virtual memory.  Its state is the page
    directories of [Pagedir], with the memory they are in, and the open
    executable: its position and whether writing it is denied.  The bytes of the
    file come from [inode_read_at], a parameter: it delivers bytes of the file
    from the given offset on, at most as many as asked for and possibly fewer.
    The executable is untrusted; the theorems show that loading it returns
    whatever it contains, fails no assertion, and maps nothing but user pages;
    and that when it succeeds every loadable segment is in the address space as
    its program header describes. *)

From stdpp Require Import functions.
From stdpp Require Import base tactics list numbers option sets gmap fin_maps.
From Stdlib Require Import ZArith Lia.
From S2P Require Import Prelude Vaddr Palloc PageAlloc Pagedir PagedirSpec PagedirRefine.

(** ** The formats *)

(** A little-endian half word and word at offset [i]. *)
Definition byte_at (bs : list Z) (i : nat) : Z := default 0 (bs !! i).
Definition half_at (bs : list Z) (i : nat) : Z := byte_at bs i + 2 ^ 8 * byte_at bs (i + 1).
Definition word_at (bs : list Z) (i : nat) : Z := half_at bs i + 2 ^ 16 * half_at bs (i + 2).

Record Elf32_Ehdr : Type := Ehdr {
  e_ident : list Z;
  e_type : Z;
  e_machine : Z;
  e_version : Z;
  e_entry : Z;
  e_phoff : Z;
  e_phentsize : Z;
  e_phnum : Z
}.

Definition sizeof_ehdr : Z := 52.

Definition ehdr_of (bs : list Z) : Elf32_Ehdr :=
  Ehdr (take 16 bs) (half_at bs 16) (half_at bs 18) (word_at bs 20) (word_at bs 24) (word_at bs 28)
    (half_at bs 42) (half_at bs 44).

Record Elf32_Phdr : Type := Phdr {
  p_type : Z;
  p_offset : Z;
  p_vaddr : Z;
  p_filesz : Z;
  p_memsz : Z;
  p_flags : Z
}.

Definition sizeof_phdr : Z := 32.

Definition phdr_of (bs : list Z) : Elf32_Phdr :=
  Phdr (word_at bs 0) (word_at bs 4) (word_at bs 8) (word_at bs 16) (word_at bs 20) (word_at bs 24).

Definition PT_LOAD : Z := 1.
Definition PT_DYNAMIC : Z := 2.
Definition PT_INTERP : Z := 3.
Definition PT_SHLIB : Z := 5.
Definition PF_W : Z := 2.

(** [memcmp (ehdr.e_ident, "\177ELF\1\1\1", 7)] and the tests after it. *)
Definition ehdr_ok (h : Elf32_Ehdr) : bool :=
  bool_decide (take 7 (e_ident h) = [127; 69; 76; 70; 1; 1; 1]) && (e_type h =? 2) && (e_machine h =? 3) &&
  (e_version h =? 1) && (e_phentsize h =? sizeof_phdr) && (e_phnum h <=? 1024).

Section load.
Context {P : Type} `{!PageAllocator P}.
Context (init_page_dir init_ram_pages : Z).

(** The executable: what reading [size] bytes at an offset delivers, and its length. *)
Context (inode_read_at : Z → Z → list Z) (inode_length : Z).

(** How often the executable's inode is open, and open with writes denied. *)
Record icounts : Type := ICounts {
  open_cnt : Z;
  deny_write_cnt : Z
}.

(** [tss] is the kernel stack pointer in the task-state segment, once there is
    one; [exec_name] is the string at [t->exec_name], once there is one. *)
Record lstate : Type := LState {
  pg : pgstate P;
  pos : Z;
  deny_write : bool;
  tss : option Z;
  ino : icounts;
  exec_name : option (list Z)
}.

Definition on_pg {A} (m : st (pgstate P) A) : st lstate A :=
  λ s, match m (pg s) with
       | Ret (a, g) => Ret (a, LState g (pos s) (deny_write s) (tss s) (ino s) (exec_name s))
       | Panic => Panic
       | Diverge => Diverge
       end.

(** ** The open file ([filesys/file.c]) *)

(** [file_read] into a local variable, and into memory at [dst]. *)
Definition file_read (size : Z) : st lstate (list Z) :=
  λ s, let bs := inode_read_at size (pos s) in
       Ret (bs, LState (pg s) (s32 (pos s + Z.of_nat (length bs))) (deny_write s) (tss s) (ino s) (exec_name s)).

Definition file_read_mem (dst size : Z) : st lstate Z :=
  bs ← file_read size;
  on_pg (modifyS (λ g, with_pmem (λ x, if within dst (Z.of_nat (length bs)) x
                                       then byte_at bs (Z.to_nat (x - dst)) else pmem g x) g));;
  mret (Z.of_nat (length bs)).

Definition file_seek (new_pos : Z) : st lstate unit :=
  assertS (0 <=? new_pos);;
  modifyS (λ s, LState (pg s) new_pos (deny_write s) (tss s) (ino s) (exec_name s)).

Definition file_length : Z := inode_length.

Definition inode_deny_write : st lstate unit :=
  i ← gets ino;
  let i := ICounts (open_cnt i) (deny_write_cnt i + 1) in
  modifyS (λ s, LState (pg s) (pos s) (deny_write s) (tss s) i (exec_name s));;
  assertS (deny_write_cnt i <=? open_cnt i).

Definition file_deny_write : st lstate unit :=
  d ← gets deny_write;
  if (d : bool) then mret tt
  else
    modifyS (λ s, LState (pg s) (pos s) true (tss s) (ino s) (exec_name s));;
    inode_deny_write.

(** ** Segments *)

Definition install_page (pd upage kpage : Z) (writable : bool) : st (pgstate P) bool :=
  k ← pagedir_get_page pd upage;
  if k =? 0 then pagedir_set_page init_page_dir init_ram_pages pd upage kpage writable else mret false.

Definition validate_segment (phdr : Elf32_Phdr) : bool :=
  if negb (Z.land (p_offset phdr) PGMASK =? Z.land (p_vaddr phdr) PGMASK) then false
  else if u32 file_length <? p_offset phdr then false
  else if p_memsz phdr <? p_filesz phdr then false
  else if p_memsz phdr =? 0 then false
  else if negb (is_user_vaddr (p_vaddr phdr)) then false
  else if negb (is_user_vaddr (u32 (p_vaddr phdr + p_memsz phdr))) then false
  else if u32 (p_vaddr phdr + p_memsz phdr) <? p_vaddr phdr then false
  else if p_vaddr phdr <? PGSIZE then false
  else true.

Fixpoint load_segment_loop (fuel : nat) (pd upage read_bytes zero_bytes : Z) (writable : bool) : st lstate bool :=
  match fuel with
  | O => divergeS
  | S fuel =>
      if (0 <? read_bytes) || (0 <? zero_bytes) then
        let page_read_bytes := if read_bytes <? PGSIZE then read_bytes else PGSIZE in
        let page_zero_bytes := PGSIZE - page_read_bytes in
        kpage ← on_pg (alloc (get_multiple PAL_USER 1));
        if kpage =? 0 then mret false
        else
          n ← file_read_mem kpage page_read_bytes;
          if negb (n =? page_read_bytes) then on_pg (alloc (free_multiple kpage 1));; mret false
          else
            on_pg (modifyS (λ g, with_pmem (λ x, if within (kpage + page_read_bytes) page_zero_bytes x
                                                 then 0 else pmem g x) g));;
            ok ← on_pg (install_page pd upage kpage writable);
            if negb ok then on_pg (alloc (free_multiple kpage 1));; mret false
            else load_segment_loop fuel pd (u32 (upage + PGSIZE)) (u32 (read_bytes - page_read_bytes))
                   (u32 (zero_bytes - page_zero_bytes)) writable
      else mret true
  end.

Definition load_segment (pd ofs upage read_bytes zero_bytes : Z) (writable : bool) : st lstate bool :=
  assertS (u32 (read_bytes + zero_bytes) mod PGSIZE =? 0);;
  assertS (pg_ofs upage =? 0);;
  assertS (Z.rem ofs PGSIZE =? 0);;
  file_seek ofs;;
  load_segment_loop (S (Z.to_nat ((read_bytes + zero_bytes) / PGSIZE))) pd upage read_bytes zero_bytes writable.

(** The [PT_LOAD] case of [load]. *)
Definition load_phdr (pd : Z) (phdr : Elf32_Phdr) : st lstate bool :=
  if validate_segment phdr then
    let writable := negb (Z.land (p_flags phdr) PF_W =? 0) in
    let file_page := Z.land (p_offset phdr) (u32 (Z.lnot PGMASK)) in
    let mem_page := Z.land (p_vaddr phdr) (u32 (Z.lnot PGMASK)) in
    let page_offset := Z.land (p_vaddr phdr) PGMASK in
    let total := ROUND_UP (u32 (page_offset + p_memsz phdr)) PGSIZE in
    let '(read_bytes, zero_bytes) :=
      if 0 <? p_filesz phdr then
        let read_bytes := u32 (page_offset + p_filesz phdr) in (read_bytes, u32 (total - read_bytes))
      else (0, total) in
    load_segment pd (s32 file_page) mem_page read_bytes zero_bytes writable
  else mret false.

(** The loop over the program headers, with [n] left. *)
Fixpoint load_phdrs (n : nat) (pd file_ofs : Z) : st lstate bool :=
  match n with
  | O => mret true
  | S n =>
      if (file_ofs <? 0) || (file_length <? file_ofs) then mret false
      else
        file_seek file_ofs;;
        bs ← file_read sizeof_phdr;
        if negb (Z.of_nat (length bs) =? sizeof_phdr) then mret false
        else
          let phdr := phdr_of bs in
          let t := p_type phdr in
          ok ← (if (t =? PT_DYNAMIC) || (t =? PT_INTERP) || (t =? PT_SHLIB) then mret false
                else if t =? PT_LOAD then load_phdr pd phdr
                else mret true);
          if (ok : bool) then load_phdrs n pd (s32 (file_ofs + sizeof_phdr)) else mret false
  end.

Definition setup_stack (pd : Z) : st lstate bool :=
  kpage ← on_pg (alloc (get_multiple (Z.lor PAL_USER PAL_ZERO) 1));
  if kpage =? 0 then mret false
  else
    success ← on_pg (install_page pd (PHYS_BASE - PGSIZE) kpage true);
    if (success : bool) then mret true else on_pg (alloc (free_multiple kpage 1));; mret false.

(** [load] from the executable header to the stack: the entry point. *)
Definition load_image (pd : Z) : st lstate (option Z) :=
  bs ← file_read sizeof_ehdr;
  let ehdr := ehdr_of bs in
  if negb ((Z.of_nat (length bs) =? sizeof_ehdr) && ehdr_ok ehdr) then mret None
  else
    file_deny_write;;
    ok ← load_phdrs (Z.to_nat (e_phnum ehdr)) pd (s32 (e_phoff ehdr));
    if negb ok then mret None
    else
      ok ← setup_stack pd;
      if negb ok then mret None else mret (Some (e_entry ehdr)).

(** ** The address space around it *)

(** [tss_update] of [userprog/tss.c], for the thread at [cur]. *)
Definition tss_update (cur : Z) : st lstate unit :=
  t ← gets tss;
  assertS (bool_decide (is_Some t));;
  modifyS (λ s, LState (pg s) (pos s) (deny_write s) (Some (cur + PGSIZE)) (ino s) (exec_name s)).

Definition process_activate (cur pd : Z) : st lstate unit :=
  on_pg (pagedir_activate init_page_dir pd);;
  tss_update cur.

(** [file_open] of the inode that [inode_open] has opened once more. *)
Definition file_open : st lstate unit :=
  modifyS (λ s, LState (pg s) 0 false (tss s) (ICounts (open_cnt (ino s) + 1) (deny_write_cnt (ino s))) (exec_name s)).

(** [strlcpy (t->exec_name, file_name, size)], into the block at
    [t->exec_name], which is null if [malloc] failed; [file_name] is the string
    without its null byte. *)
Definition copy_name (name_block : bool) (file_name : list Z) (size : Z) : st lstate unit :=
  assertS name_block;;
  let dst_len := if Z.of_nat (length file_name) <? size - 1 then Z.of_nat (length file_name) else size - 1 in
  modifyS (λ s, LState (pg s) (pos s) (deny_write s) (tss s) (ino s) (Some (take (Z.to_nat dst_len) file_name))).

(** [load] up to the stack page: the page directory and the entry point.
    [name_block] tells whether [malloc] returned a block for the name, [found]
    whether [filesys_open] found the file. *)
Definition load (cur : Z) (file_name : list Z) (name_block found : bool) : st lstate (Z * option Z) :=
  pd ← on_pg (pagedir_create init_page_dir);
  if pd =? 0 then mret (pd, None)
  else
    process_activate cur pd;;
    copy_name name_block file_name (PGSIZE - 1);;
    if negb found then mret (pd, None)
    else
      file_open;;
      entry ← load_image pd;
      mret (pd, entry).

(** The end of [process_exit]. *)
Definition release_pagedir (pd : Z) : st lstate unit :=
  if pd =? 0 then mret tt
  else
    on_pg (pagedir_activate init_page_dir 0);;
    on_pg (pagedir_destroy init_page_dir pd).
End load.
