(* ===== verification/LoadSpec.v ===== *)
(** * What loading an executable guarantees

    The proofs about [Load]: pages that are taken from the allocator, filled and
    mapped, one at a time, and the segments and the image made of them. *)

From stdpp Require Import functions.
From stdpp Require Import base tactics list numbers option sets gmap fin_maps.
From Stdlib Require Import ZArith Lia.
From S2P Require Import Prelude Vaddr Palloc PageAlloc Pagedir PagedirSpec PagedirRefine Load.

Section pages.
Context {P : Type} `{!PageAllocator P}.
Implicit Types s : pgstate P.

(** ** A page of one's own beside a directory *)

(** The pages of the others and the memory outside of the directory and its
    tables may change. *)
Lemma rel_memory s s' pd T O O' E :
  rel s pd T O E → holds (pgs s') (owned (pmem s) pd T ++ O') →
  (∀ b x, b ∈ (pd, 1) :: table_pages T → within b.1 (4096 * b.2) x = true → pmem s' x = pmem s x) →
  rel s' pd T O' E.
Proof.
  intros [Hh Hd He Hr] Hh' Hm.
  assert (∀ i pt x, T !! i = Some pt → pt ≤ x < pt + 4096 → pmem s' x = pmem s x) as Ht.
  { intros i pt x HT Hx. apply (Hm (pt, 1)); [right; by eapply table_in_pages|]. apply within_spec. cbn. lia. }
  split.
  - by rewrite (owned_ext (pmem s)).
  - eapply dir_inv_ext; [|done]. intros x Hx. apply (Hm (pd, 1)); [by left|]. apply within_spec. cbn. lia.
  - intros v Hv. rewrite He by done. unfold entry. destruct (T !! (v / 1024)) as [pt|] eqn:HT; [|done]. cbn. f_equal.
    apply read32_ext. intros x Hx. symmetry. apply (Ht _ _ _ HT). zlia.
  - done.
Qed.

(** Changing the bytes of a page beside the directory. *)
Definition only_page (k : Z) (m m' : Z → Z) : Prop := ∀ x, within k 4096 x = false → m' x = m x.

Lemma beside_apart s pd T O E k b :
  rel s pd T ((k, 1) :: O) E → b ∈ (pd, 1) :: table_pages T ∨ b ∈ O ∨ used E b → pages_apart (k, 1) b ∧ page_block b.
Proof.
  intros HR Hb. pose proof (holds_separate _ _ (r_holds _ _ _ _ _ HR)) as Hs.
  rewrite <-Permutation_middle in Hs. apply separate_cons in Hs as (_ & _ & Hq). apply Hq.
  unfold owned. destruct Hb as [Hb|[Hb|Hb]].
  - apply elem_of_app. left. apply elem_of_cons in Hb as [->|Hb]; [by left|]. right. apply elem_of_app. by left.
  - apply elem_of_app. by right.
  - apply elem_of_app. left. right. apply elem_of_app. right. by eapply used_frames.
Qed.

Lemma only_page_apart k b x m m' :
  only_page k m m' → pages_apart (k, 1) b → within b.1 (4096 * b.2) x = true → m' x = m x.
Proof. intros Hm Ha Hx%within_spec. apply Hm, within_false. unfold pages_apart in Ha. cbn in Ha. lia. Qed.

Lemma only_page_intact s pd T O E k m m' :
  rel s pd T ((k, 1) :: O) E → only_page k m m' → intact E O m m'.
Proof. intros HR Hm b x Hb Hx. eapply only_page_apart; [done| |done]. eapply beside_apart; [done|]. tauto. Qed.

Lemma only_page_trans k m1 m2 m3 : only_page k m1 m2 → only_page k m2 m3 → only_page k m1 m3.
Proof. intros H1 H2 x Hx. by rewrite H2, H1. Qed.

Lemma write_page s pd T O E k m' :
  rel s pd T ((k, 1) :: O) E → only_page k (pmem s) m' → rel (with_pmem m' s) pd T ((k, 1) :: O) E.
Proof.
  intros HR Hm. eapply rel_memory; [done|apply holds_set, (r_holds _ _ _ _ _ HR)|].
  intros b x Hb Hx. rewrite pmem_with_pmem. eapply only_page_apart; [done| |done]. eapply beside_apart; [done|]. tauto.
Qed.

(** Taking a page from the allocator and giving it back. *)
Lemma take_page s pd T O E flags :
  rel s pd T O E → flag flags PAL_ASSERT = false →
  ∃ k s1, alloc (get_multiple flags 1) s = Ret (k, s1) ∧ (∃ p, get_multiple flags 1 (pgs s) = Ret (k, p)) ∧ cr3 s1 = cr3 s ∧ tlb s1 = tlb s ∧
    ((k = 0 ∧ rel s1 pd T O E ∧ pmem s1 = pmem s) ∨
     (k ≠ 0 ∧ rel s1 pd T ((k, 1) :: O) E ∧ only_page k (pmem s) (pmem s1) ∧
      (flag flags PAL_ZERO = true → ∀ x, within k 4096 x = true → pmem s1 x = 0))).
Proof.
  intros HR Hf. destruct (get_ok flags 1 (pgs s) _ (r_holds _ _ _ _ _ HR)) as (k & p & Hr & Hcase); [done|done|].
  exists k, (PgState p (cr3 s) (tlb s)). unfold alloc. rewrite Hr. split; [done|]. split; [by exists p|]. split; [done|]. split; [done|].
  destruct Hcase as [(-> & Hh & Hm)|(Hk & Hh & Hm)].
  - left. split; [done|]. split; [|exact Hm]. eapply rel_memory; [done|exact Hh|]. intros b x _ _. unfold pmem. cbn. by rewrite Hm.
  - right. split; [done|]. assert (only_page k (pmem s) (pmem (PgState p (cr3 s) (tlb s)))) as Ho.
    { intros x Hx. unfold pmem. cbn. rewrite Hm. change (4096 * 1) with 4096. by rewrite Hx, andb_false_r. }
    split_and!; [|done|].
    + eapply rel_memory; [done|cbn [pgs]; rewrite <-Permutation_middle; exact Hh|].
      intros b x Hb Hx. eapply only_page_apart; [done| |done].
      apply (separate_cons (k, 1) (owned (pmem s) pd T ++ O)); [by eapply holds_separate|]. apply elem_of_app. left.
      apply elem_of_cons in Hb as [->|Hb]; [by left|]. right. apply elem_of_app. by left.
    + intros Hz x Hx. unfold pmem. cbn. rewrite Hm. change (4096 * 1) with 4096. by rewrite Hz, Hx.
Qed.

Lemma give_page s pd T O E k :
  rel s pd T ((k, 1) :: O) E →
  ∃ s1, alloc (free_multiple k 1) s = Ret (tt, s1) ∧ cr3 s1 = cr3 s ∧ tlb s1 = tlb s ∧
    rel s1 pd T O E ∧ only_page k (pmem s) (pmem s1).
Proof.
  intros HR. pose proof (r_holds _ _ _ _ _ HR) as Hh. rewrite <-Permutation_middle in Hh.
  destruct (free_ok k 1 (pgs s) _ Hh) as (p & Hr & Hp & Hm). exists (PgState p (cr3 s) (tlb s)).
  unfold alloc. rewrite Hr. split; [done|]. split; [done|]. split; [done|].
  assert (only_page k (pmem s) (pmem (PgState p (cr3 s) (tlb s)))) as Ho by (intros x Hx; apply Hm; done).
  split; [|done]. eapply rel_memory; [done|exact Hp|]. intros b x Hb Hx.
  eapply only_page_apart; [done| |done]. eapply beside_apart; [done|]. tauto.
Qed.
End pages.

(** ** Mapping it *)

(** Every mapped page stays mapped, and only pages of [lo] to [hi] are new. *)
Definition maps_more (lo hi : Z) (E E' : Z → option Z) : Prop :=
  (∀ v w, 0 ≤ v < user_pages → E v = Some w → has w PTE_P = true → E' v = Some w) ∧
  (∀ v, 0 ≤ v < user_pages → present (E v) = false → ¬ (lo ≤ v < hi) → present (E' v) = false).

Lemma maps_more_refl lo hi E : maps_more lo hi E E.
Proof. by split. Qed.

Lemma maps_more_trans lo hi E1 E2 E3 : maps_more lo hi E1 E2 → maps_more lo hi E2 E3 → maps_more lo hi E1 E3.
Proof. intros [H1 H2] [H3 H4]. split; eauto. Qed.

Lemma maps_more_weaken lo hi lo' hi' E E' : maps_more lo hi E E' → lo' ≤ lo → hi ≤ hi' → maps_more lo' hi' E E'.
Proof. intros [H1 H2] ? ?. split; [done|]. intros v Hv Hp Hn. apply H2; [done..|lia]. Qed.

Lemma maps_more_used lo hi E E' b : maps_more lo hi E E' → used E b → used E' b.
Proof.
  intros [H _] (v & w & Hv & HE & Hm). exists v, w. split; [done|]. split; [|done]. apply H; [done..|].
  unfold mapped in Hm. by destruct (has w PTE_P).
Qed.

Lemma intact_trans lo hi E E' O m1 m2 m3 :
  intact E O m1 m2 → maps_more lo hi E E' → intact E' O m2 m3 → intact E O m1 m3.
Proof.
  intros H1 Hm H2 b x Hb Hx. rewrite (H2 b x); [by apply (H1 b)| |done].
  destruct Hb as [Hb|Hb]; [by left|right]. by eapply maps_more_used.
Qed.

Lemma maps_more_insert E v w :
  present (E v) = false → maps_more v (v + 1) E (<[v := Some w]> (with_table E v)).
Proof.
  intros Hn. split.
  - intros u x Hu HE Hp. destruct (decide (u = v)) as [->|Hne]; [unfold present, flag_in in Hn; rewrite HE in Hn; congruence|].
    rewrite fn_lookup_insert_ne by done. unfold with_table. case_decide; [|done]. by rewrite HE.
  - intros u Hu Hp Hr. rewrite fn_lookup_insert_ne by lia. unfold with_table. case_decide; [|done].
    unfold present, flag_in in *. by destruct (E u).
Qed.

Section install.
Context {P : Type} `{!PageAllocator P}.
Context (init_page_dir init_ram_pages : Z).
Implicit Types s : pgstate P.

Lemma pd_rel_perm s pd E O O' : O ≡ₚ O' → pd_rel s pd (E, O) → pd_rel s pd (E, O').
Proof.
  intros Ho [[T HR] Hc]. split; [|done]. exists T. destruct HR as [H1 H2 H3 H4]. split; try done. cbn in *. by rewrite <-Ho.
Qed.

Lemma install_page_ok s pd E O k up wr :
  pd_rel s pd (E, (k, 1) :: O) → user_addr up → up mod 4096 = 0 → (k - PHYS_BASE) / 4096 < init_ram_pages →
  pd ≠ init_page_dir →
  ∃ b s', install_page init_page_dir init_ram_pages pd up k wr s = Ret (b, s') ∧
    intact E ((k, 1) :: O) (pmem s) (pmem s') ∧
    ((b = false ∧ pd_rel s' pd (E, (k, 1) :: O) ∧
      (present (E (page_no up)) = true ∨ E (page_no up) = None ∧ out_of_pages Palloc.PAL_ZERO s)) ∨
     (b = true ∧ present (E (page_no up)) = false ∧
      pd_rel s' pd (<[page_no up := Some (user_word k wr)]> (with_table E (page_no up)), O))).
Proof.
  intros HR Hu Ha Hram Hne. pose proof HR as [[T HT] _]. cbn in HT. unfold install_page.
  destruct (user_addr_page up Hu) as (Hv & _).
  erewrite st_bind_ret by (by apply (get_page_run s pd T ((k, 1) :: O) E)). destruct (present (E (page_no up))) eqn:Hp.
  - assert (present (E (page_no up)) = true) as Hpr by done. unfold present, flag_in in Hp. destruct (E (page_no up)) as [w|] eqn:HE; [|done]. rewrite Hp.
    pose proof (frame_block _ _ _ _ _ _ _ HT Hv HE Hp) as (_ & _ & Hb & _). cbn in Hb.
    rewrite (proj2 (Z.eqb_neq _ _)) by (unfold PHYS_BASE in Hb; zlia). exists false, s.
    split; [done|]. split; [by intros ? ? _ _|]. left. split; [done|]. split; [done|]. by left.
  - replace (match E (page_no up) with Some w => if has w PTE_P then frame_of w + up mod 4096 else 0 | None => 0 end)
      with 0 by (unfold present, flag_in in Hp; destruct (E (page_no up)); [by rewrite Hp|done]).
    destruct (set_page_ok init_page_dir init_ram_pages s pd (E, (k, 1) :: O) up k wr HR) as (b & s' & Hr & Hout & V' & Hs & HV & Hi).
    { cbn. split; [done|]. split; [done|]. split; [by left|]. done. }
    exists b, s'. split; [done|]. split; [apply Hi|]. destruct b; inversion Hs; subst; [right|left; split; [done|]; split; [done|]; right; by apply Hout].
    split; [done|]. split; [done|]. eapply pd_rel_perm; [|done]. by apply (Permutation_cons_inv (a := (k, 1))).
Qed.
End install.

(** ** Segments *)

(** What [inode_read_at] is relied on for: it delivers a prefix of what was
    asked for; a file is smaller than 2 GB and made of bytes. *)
Record file_contract (contents : list Z) (inode_read_at : Z → Z → list Z) : Prop := {
  fc_read size ofs : 0 ≤ size → 0 ≤ ofs →
    inode_read_at size ofs `prefix_of` take (Z.to_nat size) (drop (Z.to_nat ofs) contents);
  fc_small : Z.of_nat (length contents) < 2 ^ 31;
  fc_bytes : Forall (λ b, 0 ≤ b < 256) contents
}.

Definition file_byte (contents : list Z) (i : Z) : Z := byte_at contents (Z.to_nat i).

(** The [len] bytes of user memory from [upage] on. *)
Definition user_bytes (m : Z → Z) (E : Z → option Z) (upage len : Z) (writable : bool) (byte : Z → Z) : Prop :=
  ∀ j, 0 ≤ j < len → ∃ w, E (page_no (upage + j)) = Some w ∧ has w PTE_P = true ∧ has w PTE_W = writable ∧
    m (frame_of w + (upage + j) mod 4096) = byte j.

Lemma user_bytes_later lo hi m m' E E' O upage len wr byte :
  user_bytes m E upage len wr byte → maps_more lo hi E E' → intact E O m m' → 0 ≤ upage → upage + len ≤ PHYS_BASE →
  user_bytes m' E' upage len wr byte.
Proof.
  intros Hb Hm Hi Hu Hl j Hj. destruct (Hb j Hj) as (w & HE & Hp & Hw & Hv). exists w.
  assert (0 ≤ page_no (upage + j) < user_pages) as Hpn by (apply user_addr_page; unfold user_addr; lia).
  split; [by apply Hm|]. split_and!; [done..|]. rewrite <-Hv. apply (Hi (frame_of w, 1)).
  - right. exists (page_no (upage + j)), w. unfold mapped. rewrite Hp. done.
  - apply within_spec. cbn. pose proof (Z.mod_pos_bound (upage + j) 4096). lia.
Qed.

Lemma user_word_flags k wr : page_block (k, 1) → has (user_word k wr) PTE_W = wr.
Proof.
  intros Hp. destruct (entry_word k (if wr then 7 else 5) Hp) as (_ & Hf & _); [by destruct wr|].
  unfold user_word. rewrite has_flags, Hf by done. by destruct wr.
Qed.

Section segment.
Context {P : Type} `{!PageAllocator P}.
Context (init_page_dir init_ram_pages : Z).
Context (contents : list Z) (inode_read_at : Z → Z → list Z) (pd : Z) (O : list (Z * Z)).
Hypothesis Hfile : file_contract contents inode_read_at.
Hypothesis Hram : ∀ p A b, holds (P := P) p A → b ∈ A → (b.1 - PHYS_BASE) / 4096 < init_ram_pages.
Hypothesis Hinit : pd ≠ init_page_dir.
Implicit Types s : lstate (P := P).

(** What every part of loading keeps: the directory, the pages of the others and
    what is mapped. *)
Definition keeps (lo hi : Z) (E E' : Z → option Z) s s' : Prop :=
  pd_rel (pg s') pd (E', O) ∧ maps_more lo hi E E' ∧ intact E O (pmem (pg s)) (pmem (pg s')).

Lemma read_prefix size ofs bs :
  bs = inode_read_at size ofs → 0 ≤ size → 0 ≤ ofs →
  Z.of_nat (length bs) ≤ size ∧ (bs ≠ [] → ofs + Z.of_nat (length bs) ≤ Z.of_nat (length contents)) ∧
  ∀ j, 0 ≤ j < Z.of_nat (length bs) → byte_at bs (Z.to_nat j) = file_byte contents (ofs + j).
Proof.
  intros -> Hs Ho. destruct (fc_read _ _ Hfile size ofs Hs Ho) as [r Hr]. set (bs := inode_read_at size ofs) in *.
  pose proof (f_equal length Hr) as Hl. rewrite length_take, length_app, length_drop in Hl. split_and!.
  - lia.
  - intros Hne. destruct bs; [done|]. cbn in *. lia.
  - intros j Hj. unfold file_byte, byte_at. f_equal.
    assert (bs !! Z.to_nat j = (bs ++ r) !! Z.to_nat j) as -> by (rewrite lookup_app_l by lia; done).
    rewrite <-Hr, lookup_take_lt, lookup_drop by lia. f_equal. lia.
Qed.

Lemma on_pg_run {A} (m : st (pgstate P) A) s a g :
  m (pg s) = Ret (a, g) → on_pg m s = Ret (a, LState g (pos s) (deny_write s) (tss s) (ino s) (exec_name s)).
Proof. intros E. unfold on_pg. by rewrite E. Qed.

Lemma pd_rel_same (g g' : pgstate P) T E O1 O2 :
  pd_rel g pd (E, O1) → rel g' pd T O2 E → cr3 g' = cr3 g → tlb g' = tlb g → pd_rel g' pd (E, O2).
Proof. intros (_ & Hc & Hco) HR E1 E2. split; [by exists T|]. split; [by rewrite E1|]. intros Hcr. rewrite E2. apply Hco. by rewrite <-E1. Qed.

(** A page that cannot be used is given back. *)
Lemma give_back s s1 E k lo hi :
  pd_rel (pg s1) pd (E, (k, 1) :: O) → intact E O (pmem (pg s)) (pmem (pg s1)) →
  ∃ s', (on_pg (alloc (free_multiple k 1));; mret false) s1 = Ret (false, s') ∧ keeps lo hi E E s s'.
Proof.
  intros HR Hi. pose proof HR as [[T HT] _]. cbn in HT.
  destruct (give_page _ _ _ _ _ _ HT) as (g & Hr & E1 & E2 & HT' & Ho).
  eexists. split; [erewrite st_bind_ret by (by apply on_pg_run); reflexivity|].
  split; [by eapply pd_rel_same|]. split; [apply maps_more_refl|].
  eapply intact_trans; [exact Hi|apply (maps_more_refl lo hi)|]. by eapply only_page_intact.
Qed.

(** The bytes of a page after reading [bs] into it and clearing the rest. *)
Definition filled (k : Z) (bs : list Z) (m : Z → Z) : Z → Z :=
  λ x, if within (k + Z.of_nat (length bs)) (4096 - Z.of_nat (length bs)) x then 0
       else if within k (Z.of_nat (length bs)) x then byte_at bs (Z.to_nat (x - k)) else m x.

Lemma filled_page k bs m : Z.of_nat (length bs) ≤ 4096 → only_page k m (filled k bs m).
Proof.
  intros Hl x Hx%within_false. unfold filled. rewrite !(proj2 (within_false _ _ _)); [done|lia..].
Qed.

Lemma filled_byte k bs m j :
  0 ≤ j < 4096 → filled k bs m (k + j) = if j <? Z.of_nat (length bs) then byte_at bs (Z.to_nat j) else 0.
Proof.
  intros Hj. unfold filled. destruct (Z.ltb_spec j (Z.of_nat (length bs))).
  - rewrite (proj2 (within_false _ _ _)) by lia. rewrite (proj2 (within_spec _ _ _)) by lia. do 2 f_equal. lia.
  - by rewrite (proj2 (within_spec _ _ _)) by lia.
Qed.

(** A page that is mapped has the bytes it was filled with. *)
Lemma mapped_page (g g' : pgstate P) E k upage wr byte E' :
  page_block (k, 1) → upage mod 4096 = 0 → E' = <[page_no upage := Some (user_word k wr)]> (with_table E (page_no upage)) →
  intact E ((k, 1) :: O) (pmem g) (pmem g') → (∀ j, 0 ≤ j < 4096 → pmem g (k + j) = byte j) →
  user_bytes (pmem g') E' upage 4096 wr byte.
Proof.
  intros Hp Ha -> Hi Hb j Hj. destruct (user_word_spec k wr Hp) as (_ & Hpr & Hf & _). exists (user_word k wr).
  replace (page_no (upage + j)) with (page_no upage) by (unfold page_no; zlia).
  rewrite fn_lookup_insert. split_and!; [done|done|by apply user_word_flags|]. rewrite Hf.
  replace ((upage + j) mod 4096) with j by zlia. rewrite <-Hb by done. apply (Hi (k, 1)); [left; by left|].
  apply within_spec. cbn. lia.
Qed.

(** Mapping a page that is ready, or giving it back. *)
Lemma map_page_ok s s1 E k upage wr byte (K : st lstate bool) :
  pd_rel (pg s1) pd (E, (k, 1) :: O) → intact E O (pmem (pg s)) (pmem (pg s1)) →
  (∀ j, 0 ≤ j < 4096 → pmem (pg s1) (k + j) = byte j) → user_addr upage → upage mod 4096 = 0 →
  let v := page_no upage in
  let m := (ok ← on_pg (install_page init_page_dir init_ram_pages pd upage k wr);
            if negb ok then on_pg (alloc (free_multiple k 1));; mret false else K) in
  (∃ s', m s1 = Ret (false, s') ∧ keeps v (v + 1) E E s s') ∨
  (∃ s' E', m s1 = K s' ∧ keeps v (v + 1) E E' s s' ∧ pos s' = pos s1 ∧
     user_bytes (pmem (pg s')) E' upage 4096 wr byte).
Proof.
  intros HR Hi Hb Hu Ha v m. pose proof HR as [[T HT] _]. cbn in HT.
  assert ((k, 1) ∈ owned (pmem (pg s1)) pd T ++ (k, 1) :: O) as Hin by (apply elem_of_app; right; by left).
  assert (page_block (k, 1)) as Hp by (by eapply holds_block; [exact (r_holds _ _ _ _ _ HT)|]).
  destruct (install_page_ok init_page_dir init_ram_pages (pg s1) pd E O k upage wr HR Hu Ha) as (b & g & Hg & Hi1 & Hcase);
    [by apply (Hram _ _ (k, 1) (r_holds _ _ _ _ _ HT))|done|].
  unfold m. erewrite st_bind_ret by (by apply on_pg_run).
  assert (intact E O (pmem (pg s)) (pmem g)) as Hi2.
  { eapply intact_trans; [exact Hi|apply (maps_more_refl 0 0)|]. intros c x Hc. apply Hi1. destruct Hc; [left; by right|by right]. }
  destruct Hcase as [(-> & HR2 & _)|(-> & Hnp & HR2)]; cbn [negb].
  - left. by apply give_back.
  - right. eexists _, _. split; [reflexivity|]. split; [split; [exact HR2|split; [by apply maps_more_insert|done]]|].
    split; [done|]. by eapply mapped_page.
Qed.

Lemma file_read_mem_run dst size s :
  let bs := inode_read_at size (pos s) in
  file_read_mem inode_read_at dst size s =
    Ret (Z.of_nat (length bs),
      LState (with_pmem (λ x, if within dst (Z.of_nat (length bs)) x then byte_at bs (Z.to_nat (x - dst))
                              else pmem (pg s) x) (pg s)) (s32 (pos s + Z.of_nat (length bs))) (deny_write s) (tss s) (ino s) (exec_name s)).
Proof. done. Qed.

(** Reading [r] bytes into a page and clearing the rest of it. *)
Lemma fill_page_ok s s1 E k r lo hi (K : st lstate bool) :
  pd_rel (pg s1) pd (E, (k, 1) :: O) → intact E O (pmem (pg s)) (pmem (pg s1)) → 0 ≤ r ≤ 4096 → 0 ≤ pos s1 < 2 ^ 31 →
  let m := (n ← file_read_mem inode_read_at k r;
            if negb (n =? r) then on_pg (alloc (free_multiple k 1));; mret false
            else on_pg (modifyS (λ g, with_pmem (λ x, if within (k + r) (4096 - r) x then 0 else pmem g x) g));; K) in
  (∃ s', m s1 = Ret (false, s') ∧ keeps lo hi E E s s') ∨
  (∃ s', m s1 = K s' ∧ pd_rel (pg s') pd (E, (k, 1) :: O) ∧ intact E O (pmem (pg s)) (pmem (pg s')) ∧
     pos s' = pos s1 + r ∧ pos s' < 2 ^ 31 ∧
     ∀ j, 0 ≤ j < 4096 → pmem (pg s') (k + j) = if j <? r then file_byte contents (pos s1 + j) else 0).
Proof.
  intros HR Hi Hr Hps m. pose proof HR as [[T HT1] _]. cbn in HT1. unfold m. clear m. set (g := pg s1) in *.
  set (bs := inode_read_at r (pos s1)). destruct (read_prefix r (pos s1) bs eq_refl) as (Hl & Hlc & Hby); [lia..|].
  assert (s32 (pos s1 + Z.of_nat (length bs)) = pos s1 + Z.of_nat (length bs) ∧ pos s1 + Z.of_nat (length bs) < 2 ^ 31) as [Es Hlt].
  { pose proof (fc_small _ _ Hfile). assert (pos s1 + Z.of_nat (length bs) < 2 ^ 31); [|by rewrite s32_id by lia].
    destruct bs; [cbn; lia|]. specialize (Hlc ltac:(done)). lia. }
  rewrite (st_bind_ret _ _ _ _ _ (file_read_mem_run k r _)). fold bs g. rewrite Es.
  match goal with |- context [with_pmem ?m g] => set (m1 := m) in * end. set (g1 := with_pmem m1 g) in *.
  assert (only_page k (pmem g) m1) as Ho1.
  { intros x Hx%within_false. unfold m1. rewrite (proj2 (within_false _ _ _)); [done|lia]. }
  pose proof (write_page _ _ _ _ _ _ _ HT1 Ho1) as HT2. fold g1 in HT2.
  assert (pmem g1 = m1) as Em1 by apply pmem_with_pmem.
  assert (∀ m', only_page k (pmem g) m' → intact E O (pmem (pg s)) m') as Hint.
  { intros m' Hm'. eapply intact_trans; [exact Hi|apply (maps_more_refl 0 0)|]. by eapply only_page_intact. }
  destruct (Z.eqb_spec (Z.of_nat (length bs)) r) as [El|El]; cbn [negb].
  2: { left. apply (give_back s (LState g1 _ _ _ _ _) E k); [by eapply pd_rel_same|]. cbn [pg]. rewrite Em1. by apply Hint. }
  right. erewrite st_bind_ret by reflexivity. cbn [pos pg deny_write tss ino]. fold g1. rewrite Em1.
  match goal with |- context [with_pmem ?m g1] => assert (m = filled k bs (pmem g)) as -> by (unfold filled, m1; by rewrite El) end.
  assert (only_page k m1 (filled k bs (pmem g))) as Ho2.
  { intros x Hx. rewrite filled_page by (lia || done). symmetry. by apply Ho1. }
  rewrite <-Em1 in Ho2. pose proof (write_page _ _ _ _ _ _ _ HT2 Ho2) as HT3. rewrite El in *.
  eexists. split; [reflexivity|]. cbn [pg pos]. rewrite pmem_with_pmem. split; [by eapply pd_rel_same|].
  split; [apply Hint, filled_page; lia|]. split; [done|]. split; [done|].
  intros j Hj. rewrite filled_byte, El by done. destruct (Z.ltb_spec j r); [apply Hby; lia|done].
Qed.

(** One page of a segment: the loop ends without success, or the page is
    mapped with its bytes and the loop goes on. *)
Lemma load_page_ok fuel s E upage read zero wr :
  pd_rel (pg s) pd (E, O) → 0 ≤ upage → upage mod 4096 = 0 → upage + 4096 ≤ PHYS_BASE →
  0 ≤ read < 2 ^ 32 → 0 ≤ zero < 2 ^ 32 → 0 < read + zero → (read + zero) mod 4096 = 0 → 0 ≤ pos s < 2 ^ 31 →
  let loop := λ fuel, load_segment_loop init_page_dir init_ram_pages inode_read_at fuel pd in
  let r := if read <? PGSIZE then read else PGSIZE in
  let v := page_no upage in
  (∃ s', loop (S fuel) upage read zero wr s = Ret (false, s') ∧ keeps v (v + 1) E E s s') ∨
  (∃ s' E', loop (S fuel) upage read zero wr s = loop fuel (upage + 4096) (read - r) (zero - (4096 - r)) wr s' ∧
     keeps v (v + 1) E E' s s' ∧ pos s' = pos s + r ∧ pos s' < 2 ^ 31 ∧
     user_bytes (pmem (pg s')) E' upage 4096 wr (λ j, if j <? read then file_byte contents (pos s + j) else 0)).
Proof.
  intros HR Hu Ha Hend Hrd Hz Hpos Hmod Hps loop r v. change PGSIZE with 4096 in r.
  assert (0 ≤ r ≤ 4096 ∧ 4096 - r ≤ zero ∧ r ≤ read ∧ (r = read ∨ r = 4096)) as (Hr & Hrz & Hrr & Hrc).
  { unfold r. destruct (Z.ltb_spec read 4096); zlia. }
  assert ((0 <? read) || (0 <? zero) = true) as Hgo by (apply orb_true_iff; rewrite !Z.ltb_lt; lia).
  unfold loop. cbn [load_segment_loop]. rewrite Hgo. change PGSIZE with 4096. fold r.
  pose proof HR as [[T HT] _]. cbn in HT.
  destruct (take_page _ _ _ _ _ PAL_USER HT) as (k & g & Hk & _ & E1 & E2 & Hcase); [done|].
  erewrite st_bind_ret by (by apply on_pg_run).
  destruct Hcase as [(-> & HT1 & Hm)|(Hk0 & HT1 & Ho & _)].
  { left. eexists. split; [reflexivity|]. split; [by eapply pd_rel_same|]. split; [apply maps_more_refl|].
    intros b x _ _. cbn. by rewrite Hm. }
  rewrite (proj2 (Z.eqb_neq k 0) Hk0). pose proof (pd_rel_same _ _ _ _ _ _ HR HT1 E1 E2) as HR1.
  edestruct (fill_page_ok s (LState g (pos s) (deny_write s) (tss s) (ino s) (exec_name s)) E k r v (v + 1)) as [Hf|(s2 & Hs2 & HR2 & Hi2 & Hp2 & Hlt2 & Hby)];
    [exact HR1|by eapply only_page_intact|done|done|left; exact Hf|].
  rewrite Hs2. rewrite !u32_id by (unfold PHYS_BASE in *; lia).
  destruct (map_page_ok s s2 E k upage wr (λ j, if j <? read then file_byte contents (pos s + j) else 0)
    (load_segment_loop init_page_dir init_ram_pages inode_read_at fuel pd (upage + 4096) (read - r) (zero - (4096 - r)) wr))
    as [Hf|(s' & E' & Hs & Hkeep & Hp & Hub)]; [done|done| |unfold user_addr; lia|done|by left|].
  - intros j Hj. rewrite Hby by done. destruct (Z.ltb_spec j r); [by rewrite (proj2 (Z.ltb_lt j read)) by lia|].
    by rewrite (proj2 (Z.ltb_ge j read)) by lia.
  - right. exists s', E'. rewrite Hp. by split_and!.
Qed.
Lemma keeps_refl lo hi E s : pd_rel (pg s) pd (E, O) → keeps lo hi E E s s.
Proof. intros HR. split; [done|]. split; [apply maps_more_refl|]. by intros b x _ _. Qed.

Lemma keeps_trans lo hi E1 E2 E3 s1 s2 s3 : keeps lo hi E1 E2 s1 s2 → keeps lo hi E2 E3 s2 s3 → keeps lo hi E1 E3 s1 s3.
Proof.
  intros (_ & Hm1 & Hi1) (HR & Hm2 & Hi2). split; [done|]. split; [by eapply maps_more_trans|]. by eapply intact_trans.
Qed.

Lemma keeps_weaken lo hi lo' hi' E E' s s' : keeps lo hi E E' s s' → lo' ≤ lo → hi ≤ hi' → keeps lo' hi' E E' s s'.
Proof. intros (HR & Hm & Hi) ? ?. split; [done|]. split; [by eapply maps_more_weaken|done]. Qed.

(** The bytes of a segment: [read] bytes of the file from [ofs] on, then zeros. *)
Definition segment_byte (read ofs j : Z) : Z := if j <? read then file_byte contents (ofs + j) else 0.

(** The loop over the pages of a segment ends, with all of them mapped if it
    answers [true]. *)
Lemma load_segment_loop_ok n : ∀ s E upage read zero wr,
  pd_rel (pg s) pd (E, O) → 0 ≤ upage → upage mod 4096 = 0 → upage + (read + zero) ≤ PHYS_BASE →
  0 ≤ read < 2 ^ 32 → 0 ≤ zero < 2 ^ 32 → read + zero = 4096 * Z.of_nat n → 0 ≤ pos s < 2 ^ 31 →
  let v := page_no upage in
  ∃ b s' E', load_segment_loop init_page_dir init_ram_pages inode_read_at (S n) pd upage read zero wr s = Ret (b, s') ∧
    keeps v (v + Z.of_nat n) E E' s s' ∧
    (b = true → user_bytes (pmem (pg s')) E' upage (read + zero) wr (segment_byte read (pos s))).
Proof.
  induction n as [|n IH]; intros s E upage read zero wr HR Hu Ha Hend Hrd Hz Hsum Hps v.
  - assert (read = 0 ∧ zero = 0) as [-> ->] by lia. exists true, s, E. split; [done|]. split; [by apply keeps_refl|].
    intros _ j Hj. lia.
  - destruct (load_page_ok (S n) s E upage read zero wr HR Hu Ha) as [(s' & Hs & Hk)|(s1 & E1 & Hs & Hk & Hp & Hp31 & Hub)];
      [lia|done|done|lia|zlia|done|exists false, s', E; split; [done|]; split; [eapply keeps_weaken; [exact Hk|lia..]|done]|].
    set (r := if read <? PGSIZE then read else PGSIZE) in *. change PGSIZE with 4096 in r.
    assert (0 ≤ r ≤ 4096 ∧ 4096 - r ≤ zero ∧ r ≤ read ∧ (r = read ∨ r = 4096)) as (Hr & Hrz & Hrr & Hrc).
    { unfold r. destruct (Z.ltb_spec read 4096); lia. }
    rewrite Hs. destruct (IH s1 E1 (upage + 4096) (read - r) (zero - (4096 - r)) wr) as (b & s' & E' & Hr' & Hk' & Hb);
      [apply Hk|lia|zlia|lia|lia|lia|lia|lia|].
    exists b, s', E'. assert (page_no (upage + 4096) = v + 1) as Hv by (unfold v, page_no; zlia). rewrite Hv in Hk'.
    split; [done|]. split.
    { eapply keeps_trans; eapply keeps_weaken; [done|lia|lia|done|lia|lia]. }
    intros Hbt j Hj. destruct (Z.ltb_spec j 4096).
    + destruct Hk' as (_ & Hm & Hi). apply (user_bytes_later _ _ _ _ _ _ _ _ _ _ _ Hub Hm Hi); lia.
    + destruct (Hb Hbt (j - 4096)) as (w & HE & Hpr & Hw & Hby); [lia|].
      replace (upage + 4096 + (j - 4096)) with (upage + j) in * by lia. exists w. split_and!; [done..|].
      rewrite Hby. unfold segment_byte. destruct Hrc as [->| ->].
      * rewrite !(proj2 (Z.ltb_ge _ _)) by lia. done.
      * rewrite Hp. destruct (Z.ltb_spec (j - 4096) (read - 4096)); destruct (Z.ltb_spec j read); try lia; f_equal; lia.
Qed.

(** ** The segment a program header describes *)

(** [read] bytes of the file and zeros, as a whole number of pages. *)
Lemma load_segment_ok s E ofs upage read zero wr :
  pd_rel (pg s) pd (E, O) → 0 ≤ upage → upage mod 4096 = 0 → upage + (read + zero) ≤ PHYS_BASE →
  0 ≤ read → 0 ≤ zero → (read + zero) mod 4096 = 0 → 0 ≤ ofs < 2 ^ 31 → ofs mod 4096 = 0 →
  ∃ b s' E', load_segment init_page_dir init_ram_pages inode_read_at pd ofs upage read zero wr s = Ret (b, s') ∧
    keeps (page_no upage) (page_no upage + (read + zero) / 4096) E E' s s' ∧
    (b = true → user_bytes (pmem (pg s')) E' upage (read + zero) wr (segment_byte read ofs)).
Proof.
  intros HR Hu Ha Hend Hrd Hz Hsum Hof Hoa. unfold load_segment, file_seek, pg_ofs, PHYS_BASE in *.
  change PGSIZE with 4096. rewrite u32_id by lia. change PGMASK with (Z.ones 12).
  rewrite Z.land_ones, Z.rem_mod_nonneg by lia. change (2 ^ 12) with 4096.
  rewrite Hsum, Ha, Hoa. rewrite (proj2 (Z.leb_le 0 ofs)) by lia. cbn [Z.eqb]. do 4 (erewrite st_bind_ret by reflexivity).
  set (s0 := LState (pg s) ofs (deny_write s) (tss s) (ino s) (exec_name s)).
  destruct (load_segment_loop_ok (Z.to_nat ((read + zero) / 4096)) s0 E upage read zero wr)
    as (b & s' & E' & Hr & Hk & Hb); [done|done|done|done|lia|lia|zlia|done|].
  exists b, s', E'. rewrite Z2Nat.id in Hk by zlia. done.
Qed.

Definition phdr_writable (phdr : Elf32_Phdr) : bool := negb (Z.land (p_flags phdr) PF_W =? 0).

(** The segment is in memory: [p_filesz] bytes of the file, then zeros. *)
Definition segment_loaded (m : Z → Z) (E : Z → option Z) (phdr : Elf32_Phdr) : Prop :=
  user_bytes m E (p_vaddr phdr) (p_memsz phdr) (phdr_writable phdr) (segment_byte (p_filesz phdr) (p_offset phdr)).

(** A segment that may be loaded. *)
Definition segment_valid (phdr : Elf32_Phdr) : Prop :=
  p_offset phdr mod 4096 = p_vaddr phdr mod 4096 ∧ 0 ≤ p_offset phdr ≤ Z.of_nat (length contents) ∧
  0 ≤ p_filesz phdr ≤ p_memsz phdr ∧ 0 < p_memsz phdr ∧ 4096 ≤ p_vaddr phdr ∧
  p_vaddr phdr + p_memsz phdr < PHYS_BASE.

Definition phdr_range (phdr : Elf32_Phdr) : Prop :=
  0 ≤ p_offset phdr < 2 ^ 32 ∧ 0 ≤ p_vaddr phdr < 2 ^ 32 ∧ 0 ≤ p_filesz phdr < 2 ^ 32 ∧ 0 ≤ p_memsz phdr < 2 ^ 32.

Lemma validate_segment_spec phdr :
  phdr_range phdr →
  validate_segment (Z.of_nat (length contents)) phdr = true ↔ segment_valid phdr.
Proof.
  intros (H1 & H2 & H3 & H4). pose proof (fc_small _ _ Hfile).
  unfold validate_segment, segment_valid, file_length, is_user_vaddr. change PGMASK with (Z.ones 12).
  rewrite !Z.land_ones by lia. change (2 ^ 12) with 4096. rewrite (u32_id (Z.of_nat _)) by lia.
  change PGSIZE with 4096. unfold PHYS_BASE.
  assert (u32 (p_vaddr phdr + p_memsz phdr) = p_vaddr phdr + p_memsz phdr ∨
    u32 (p_vaddr phdr + p_memsz phdr) = p_vaddr phdr + p_memsz phdr - 2 ^ 32 ∧ 2 ^ 32 ≤ p_vaddr phdr + p_memsz phdr) as Hw
    by (unfold u32; zlia).
  repeat match goal with
  | |- context [?a =? ?b] => destruct (Z.eqb_spec a b)
  | |- context [?a <? ?b] => destruct (Z.ltb_spec a b)
  end; cbn [negb]; split; intros; try done; try lia.
Qed.

(** Part of a run of bytes. *)
Lemma user_bytes_sub m E upage len wr byte d len' byte' :
  user_bytes m E upage len wr byte → 0 ≤ d → d + len' ≤ len → (∀ j, 0 ≤ j < len' → byte (d + j) = byte' j) →
  user_bytes m E (upage + d) len' wr byte'.
Proof.
  intros Hb Hd Hl He j Hj. destruct (Hb (d + j)) as (w & HE & Hp & Hw & Hv); [lia|]. exists w.
  rewrite Z.add_assoc in HE, Hv. rewrite <-He by done. done.
Qed.

Lemma segment_loaded_later lo hi m m' E E' phdr :
  segment_loaded m E phdr → segment_valid phdr → maps_more lo hi E E' → intact E O m m' → segment_loaded m' E' phdr.
Proof.
  intros Hs (_ & _ & _ & _ & Hv1 & Hv2) Hm Hi. eapply user_bytes_later; [done|done|done|lia|lia].
Qed.

Lemma page_part x : Z.land x PGMASK = x mod 4096 ∧ (0 ≤ x < 2 ^ 32 → Z.land x (u32 (Z.lnot PGMASK)) = x - x mod 4096).
Proof.
  split; [change PGMASK with (Z.ones 12); by rewrite Z.land_ones by lia|].
  intros Hx. change (u32 (Z.lnot PGMASK)) with (Z.shiftl (Z.ones 20) 12).
  transitivity (Z.ldiff x (Z.ones 12)).
  - apply Z.bits_inj'. intros n Hn. rewrite Z.land_spec, Z.ldiff_spec, Z.shiftl_spec, !Z.testbit_ones by lia.
    destruct (decide (n < 32)) as [Hlt|Hge].
    + destruct (Z.ltb_spec (n - 12) 20); destruct (Z.leb_spec 0 (n - 12)); destruct (Z.ltb_spec n 12);
        destruct (Z.leb_spec 0 n); cbn; try lia; by rewrite ?andb_true_r, ?andb_false_r.
    + rewrite (Z.bits_above_log2 x n); [done|lia|]. destruct (decide (x = 0)) as [->|]; [cbn; lia|].
      apply Z.log2_lt_pow2; [lia|]. eapply Z.lt_le_trans; [apply Hx|]. apply Z.pow_le_mono_r; lia.
  - rewrite Z.ldiff_ones_r, Z.shiftr_div_pow2, Z.shiftl_mul_pow2 by lia. change (2 ^ 12) with 4096. zlia.
Qed.

Lemma load_phdr_ok s E phdr :
  pd_rel (pg s) pd (E, O) → phdr_range phdr →
  ∃ b s' E', load_phdr init_page_dir init_ram_pages inode_read_at (Z.of_nat (length contents)) pd phdr s = Ret (b, s') ∧
    keeps 1 user_pages E E' s s' ∧ (b = true → segment_valid phdr ∧ segment_loaded (pmem (pg s')) E' phdr).
Proof.
  intros HR Hrg. unfold load_phdr. destruct (validate_segment _ phdr) eqn:Hval.
  2: { exists false, s, E. split; [done|]. split; [by apply keeps_refl|done]. }
  apply (validate_segment_spec phdr Hrg) in Hval. pose proof Hval as (Hmod & Hof & Hfs & Hms & Hlo & Hhi).
  pose proof (fc_small _ _ Hfile). unfold PHYS_BASE in Hhi.
  rewrite (proj2 (page_part (p_offset phdr))), (proj2 (page_part (p_vaddr phdr))), (proj1 (page_part _)) by lia. set (po := p_vaddr phdr mod 4096) in *.
  assert (0 ≤ po < 4096 ∧ po ≤ p_vaddr phdr) as [Hpo Hpv] by (unfold po; zlia).
  rewrite !(u32_id (po + _)) by lia. set (total := ROUND_UP _ _). change PGSIZE with 4096 in total.
  assert (po + p_memsz phdr ≤ total < po + p_memsz phdr + 4096 ∧ total mod 4096 = 0) as [Ht Htm].
  { unfold total, ROUND_UP, DIV_ROUND_UP. zlia. }
  set (rd := if 0 <? p_filesz phdr then po + p_filesz phdr else 0).
  assert (0 ≤ rd ≤ total) as Hrd by (unfold rd; destruct (Z.ltb_spec 0 (p_filesz phdr)); lia).
  assert ((if 0 <? p_filesz phdr then (po + p_filesz phdr, u32 (total - (po + p_filesz phdr))) else (0, total)) = (rd, total - rd)) as ->.
  { unfold rd. destruct (0 <? p_filesz phdr) eqn:Hf; [|f_equal; lia]. by rewrite u32_id by (apply Z.ltb_lt in Hf; lia). }
  assert (p_vaddr phdr - po = 4096 * page_no (p_vaddr phdr - po)) as Hpn by (unfold page_no, po; zlia).
  rewrite (s32_id (p_offset phdr - _)) by zlia.
  destruct (load_segment_ok s E (p_offset phdr - p_offset phdr mod 4096) (p_vaddr phdr - po) rd (total - rd) (phdr_writable phdr))
    as (b & s' & E' & Hr & Hk & Hb); [done|unfold PHYS_BASE, po in *; zlia..|].
  exists b, s', E'. split; [done|]. replace (rd + (total - rd)) with total in * by lia. split.
  - eapply keeps_weaken; [done|lia|]. unfold user_pages, po in *. zlia.
  - intros Hbt. split; [done|]. unfold segment_loaded. replace (p_vaddr phdr) with (p_vaddr phdr - po + po) by lia.
    eapply user_bytes_sub; [by apply Hb|lia|lia|]. intros j Hj. unfold segment_byte, rd. rewrite Hmod.
    destruct (Z.ltb_spec 0 (p_filesz phdr)); destruct (Z.ltb_spec j (p_filesz phdr));
      repeat case_match; try lia; rewrite ?Z.ltb_lt, ?Z.ltb_ge in *; try lia; [f_equal; lia|done..].
Qed.

(** ** The image *)

(** The [size] bytes of the file at [ofs], all of them in the file. *)
Definition file_bytes (ofs size : Z) : list Z := take (Z.to_nat size) (drop (Z.to_nat ofs) contents).

Lemma read_all size ofs :
  0 ≤ size → 0 ≤ ofs → Z.of_nat (length (inode_read_at size ofs)) = size → inode_read_at size ofs = file_bytes ofs size.
Proof.
  intros Hs Ho Hl. destruct (fc_read _ _ Hfile size ofs Hs Ho) as [r Hr]. fold (file_bytes ofs size) in Hr.
  assert (r = []) as ->; [|by rewrite app_nil_r in Hr]. apply nil_length_inv.
  pose proof (f_equal length Hr) as Hle. rewrite length_app in Hle. unfold file_bytes in Hle. rewrite length_take in Hle. lia.
Qed.

Lemma byte_at_range ofs size i : 0 ≤ byte_at (file_bytes ofs size) i < 256.
Proof.
  unfold byte_at. destruct (_ !! i) as [b|] eqn:Hb; [|cbn; lia]. cbn.
  apply (Forall_lookup_1 _ _ i b (Forall_take _ _ _ (Forall_drop _ _ _ (fc_bytes _ _ Hfile))) Hb).
Qed.

Lemma half_at_range ofs size i : 0 ≤ half_at (file_bytes ofs size) i < 2 ^ 16.
Proof. unfold half_at. pose proof (byte_at_range ofs size i). pose proof (byte_at_range ofs size (i + 1)). lia. Qed.

Lemma word_at_range ofs size i : 0 ≤ word_at (file_bytes ofs size) i < 2 ^ 32.
Proof.
  unfold word_at. pose proof (half_at_range ofs size i). pose proof (half_at_range ofs size (i + 2)). lia.
Qed.

(** The program headers from [ofs] on. *)
Definition file_phdr (ofs i : Z) : Elf32_Phdr := phdr_of (file_bytes (ofs + sizeof_phdr * i) sizeof_phdr).

Lemma file_phdr_range ofs i : phdr_range (file_phdr ofs i).
Proof. by split_and!; apply word_at_range. Qed.

Definition segments_loaded (m : Z → Z) (E : Z → option Z) (ofs n : Z) : Prop :=
  ∀ i, 0 ≤ i < n →
    let phdr := file_phdr ofs i in
    (p_type phdr ∉ [PT_DYNAMIC; PT_INTERP; PT_SHLIB]) ∧
    (p_type phdr = PT_LOAD → segment_valid phdr ∧ segment_loaded m E phdr).

Lemma segments_loaded_later lo hi m m' E E' ofs n :
  segments_loaded m E ofs n → maps_more lo hi E E' → intact E O m m' → segments_loaded m' E' ofs n.
Proof.
  intros Hs Hm Hi i Hn. destruct (Hs i Hn) as [Ht Hl]. split; [done|]. intros Hp. destruct (Hl Hp).
  split; [done|]. by eapply segment_loaded_later.
Qed.

(** One program header, whatever its type. *)
Definition load_one (phdr : Elf32_Phdr) : st lstate bool :=
  let t := p_type phdr in
  if (t =? PT_DYNAMIC) || (t =? PT_INTERP) || (t =? PT_SHLIB) then mret false
  else if t =? PT_LOAD
       then load_phdr init_page_dir init_ram_pages inode_read_at (Z.of_nat (length contents)) pd phdr
       else mret true.

Lemma load_one_ok s E phdr :
  pd_rel (pg s) pd (E, O) → phdr_range phdr →
  ∃ b s' E', load_one phdr s = Ret (b, s') ∧ keeps 1 user_pages E E' s s' ∧
    (b = true → (p_type phdr ∉ [PT_DYNAMIC; PT_INTERP; PT_SHLIB]) ∧
       (p_type phdr = PT_LOAD → segment_valid phdr ∧ segment_loaded (pmem (pg s')) E' phdr)).
Proof.
  intros HR Hrg. unfold load_one. destruct (_ || _ || _) eqn:Hb.
  { exists false, s, E. split; [done|]. split; [by apply keeps_refl|done]. }
  rewrite !orb_false_iff, !Z.eqb_neq in Hb. destruct Hb as [[H1 H2] H3].
  assert (p_type phdr ∉ [PT_DYNAMIC; PT_INTERP; PT_SHLIB]) as Hn.
  { by rewrite !not_elem_of_cons; split_and!; [..|apply not_elem_of_nil]. }
  destruct (Z.eqb_spec (p_type phdr) PT_LOAD).
  - destruct (load_phdr_ok s E phdr HR Hrg) as (b & s' & E' & Hr & Hk & Hl). exists b, s', E'. by split_and!; auto.
  - exists true, s, E. split; [done|]. split; [by apply keeps_refl|done].
Qed.

Lemma load_phdrs_ok n : ∀ s E ofs,
  pd_rel (pg s) pd (E, O) → ofs < 2 ^ 31 →
  ∃ b s' E', load_phdrs init_page_dir init_ram_pages inode_read_at (Z.of_nat (length contents)) n pd ofs s = Ret (b, s') ∧
    keeps 1 user_pages E E' s s' ∧ (b = true → segments_loaded (pmem (pg s')) E' ofs (Z.of_nat n)).
Proof.
  induction n as [|n IH]; intros s E ofs HR Ho.
  { exists true, s, E. split; [done|]. split; [by apply keeps_refl|]. intros _ i Hi. lia. }
  cbn [load_phdrs]. unfold file_length. destruct (Z.ltb_spec ofs 0); [|destruct (Z.ltb_spec (Z.of_nat (length contents)) ofs)]; cbn [orb].
  1,2: exists false, s, E; split; [done|]; split; [by apply keeps_refl|done].
  unfold file_seek. rewrite (proj2 (Z.leb_le 0 ofs)) by lia. do 2 (erewrite st_bind_ret by reflexivity).
  cbn [pos pg deny_write tss ino]. set (bs := inode_read_at sizeof_phdr ofs). set (s1 := LState _ _ _ _ _ _).
  destruct (Z.eqb_spec (Z.of_nat (length bs)) sizeof_phdr) as [Hl|]; cbn [negb].
  2: { exists false, s1, E. split; [done|]. split; [by apply (keeps_refl 1 user_pages E s1)|done]. }
  assert (bs = file_bytes ofs sizeof_phdr) as Hbs by (by apply read_all).
  assert (phdr_of bs = file_phdr ofs 0) as -> by (unfold file_phdr; rewrite Hbs; do 2 f_equal; lia).
  match goal with |- context [mbind _ ?m s1] => change m with (load_one (file_phdr ofs 0)) end.
  destruct (load_one_ok s1 E (file_phdr ofs 0) HR (file_phdr_range _ _)) as (b & s2 & E2 & Hr & Hk & Hb).
  rewrite (st_bind_ret _ _ _ _ _ Hr). destruct b; [|exists false, s2, E2; by split_and!].
  destruct (read_prefix sizeof_phdr ofs bs eq_refl) as (_ & Hend & _); [done|lia|].
  assert (ofs + sizeof_phdr < 2 ^ 31) as Hofs.
  { pose proof (fc_small _ _ Hfile). rewrite Hl in Hend. enough (bs ≠ []) by (specialize (Hend ltac:(done)); lia). by intros ->. }
  rewrite s32_id by (unfold sizeof_phdr in *; lia).
  destruct (IH s2 E2 (ofs + sizeof_phdr)) as (b & s' & E' & Hr' & Hk' & Hb'); [apply Hk|done|].
  exists b, s', E'. split; [done|]. split; [by eapply keeps_trans|]. intros Hbt i Hi.
  destruct (decide (i = 0)) as [->|Hi0].
  - destruct (Hb eq_refl) as [Ht Hs]. split; [done|]. intros Hp. destruct (Hs Hp). split; [done|].
    destruct Hk' as (_ & Hm & Hin). by eapply segment_loaded_later.
  - specialize (Hb' Hbt (i - 1) ltac:(lia)). unfold file_phdr in *.
    replace (ofs + sizeof_phdr + sizeof_phdr * (i - 1)) with (ofs + sizeof_phdr * i) in Hb' by lia. done.
Qed.

(** A stack page, of zeros, below [PHYS_BASE]. *)
Definition stack_page : Z := PHYS_BASE - PGSIZE.

Lemma setup_stack_ok s E :
  pd_rel (pg s) pd (E, O) →
  ∃ b s' E', setup_stack init_page_dir init_ram_pages pd s = Ret (b, s') ∧ keeps 1 user_pages E E' s s' ∧
    (b = true → user_bytes (pmem (pg s')) E' stack_page PGSIZE true (λ _, 0)).
Proof.
  intros HR. unfold setup_stack. pose proof HR as [[T HT] _]. cbn in HT.
  destruct (take_page _ _ _ _ _ (Z.lor PAL_USER PAL_ZERO) HT) as (k & g & Hk & _ & E1 & E2 & Hcase); [done|].
  erewrite st_bind_ret by (by apply on_pg_run).
  destruct Hcase as [(-> & HT1 & Hm)|(Hk0 & HT1 & Ho & Hz)].
  { exists false. eexists _, E. split; [reflexivity|]. split; [|done]. split; [by eapply pd_rel_same|].
    split; [apply maps_more_refl|]. intros b x _ _. cbn. by rewrite Hm. }
  rewrite (proj2 (Z.eqb_neq k 0) Hk0). pose proof (pd_rel_same _ _ _ _ _ _ HR HT1 E1 E2) as HR1.
  set (s1 := LState g (pos s) (deny_write s) (tss s) (ino s) (exec_name s)).
  destruct (map_page_ok s s1 E k stack_page true (λ _, 0) (mret true)) as [(s' & Hs & Hkeep)|(s' & E' & Hs & Hkeep & _ & Hub)];
    [done|by eapply only_page_intact| |by unfold user_addr|done| |].
  - intros j Hj. apply Hz; [done|]. apply within_spec. lia.
  - exists false, s', E. split; [|split; [by eapply keeps_weaken|done]]. rewrite <-Hs.
    by apply st_bind_ext; intros [].
  - exists true, s', E'. split; [|split; [by eapply keeps_weaken|done]]. transitivity ((mret true : st lstate bool) s'); [|done].
    rewrite <-Hs.
    by apply st_bind_ext; intros [].
Qed.

(** What a successful [load_image] has put into the address space. *)
Definition image_loaded (m : Z → Z) (E : Z → option Z) (entry : Z) : Prop :=
  let ehdr := ehdr_of (file_bytes 0 sizeof_ehdr) in
  ehdr_ok ehdr = true ∧ entry = e_entry ehdr ∧ segments_loaded m E (s32 (e_phoff ehdr)) (e_phnum ehdr) ∧
  user_bytes m E stack_page PGSIZE true (λ _, 0).

Lemma s32_small x : s32 x < 2 ^ 31.
Proof. unfold s32. zlia. Qed.

(** The file was opened and not denied yet, so that its inode may be denied. *)
Definition may_deny (i : icounts) : Prop := deny_write_cnt i < open_cnt i.

Lemma file_deny_write_ok s : may_deny (ino s) → ∃ s', file_deny_write s = Ret (tt, s') ∧ pg s' = pg s.
Proof.
  intros Hd. unfold may_deny in Hd. unfold file_deny_write. erewrite st_bind_ret by reflexivity.
  destruct (deny_write s); [by eexists|]. erewrite st_bind_ret by reflexivity. unfold inode_deny_write.
  do 2 (erewrite st_bind_ret by reflexivity). cbn [deny_write_cnt open_cnt ino].
  rewrite (proj2 (Z.leb_le _ _)) by lia. by eexists.
Qed.

Lemma load_image_ok s E :
  pd_rel (pg s) pd (E, O) → pos s = 0 → may_deny (ino s) →
  ∃ r s' E', load_image init_page_dir init_ram_pages inode_read_at (Z.of_nat (length contents)) pd s = Ret (r, s') ∧
    keeps 1 user_pages E E' s s' ∧ ∀ entry, r = Some entry → image_loaded (pmem (pg s')) E' entry.
Proof.
  intros HR Hp Hdeny. unfold load_image. erewrite st_bind_ret by reflexivity. rewrite Hp. set (bs := inode_read_at sizeof_ehdr 0).
  set (s1 := LState _ _ _ _ _ _). destruct (_ && _) eqn:Hok; cbn [negb].
  2: { exists None, s1, E. split; [done|]. split; [by apply (keeps_refl 1 user_pages E s1)|done]. }
  apply andb_true_iff in Hok as [Hl%Z.eqb_eq Hok].
  destruct (file_deny_write_ok s1) as (s2 & Hr2 & Hpg2); [done|]. rewrite (st_bind_ret _ _ _ _ _ Hr2). cbn [pg s1] in Hpg2.
  assert (bs = file_bytes 0 sizeof_ehdr) as Hbs by (by apply read_all). clearbody bs. subst bs. set (ehdr := ehdr_of _) in *.
  edestruct (load_phdrs_ok (Z.to_nat (e_phnum ehdr)) s2 E) as (b & s3 & E3 & Hr3 & Hk3 & Hb3);
    [rewrite Hpg2; exact HR|apply (s32_small (e_phoff ehdr))|].
  assert (keeps 1 user_pages E E3 s s3) as Hk3' by (unfold keeps in *; rewrite <-Hpg2; exact Hk3). clear Hk3. rename Hk3' into Hk3.
  rewrite (st_bind_ret _ _ _ _ _ Hr3). destruct b; cbn [negb]; [|exists None, s3, E3; by split_and!].
  destruct (setup_stack_ok s3 E3) as (b & s4 & E4 & Hr4 & Hk4 & Hb4); [apply Hk3|].
  rewrite (st_bind_ret _ _ _ _ _ Hr4).
  assert (keeps 1 user_pages E E4 s s4) as Hk by (eapply keeps_trans; [exact Hk3|exact Hk4]).
  destruct b; cbn [negb]; [|exists None, s4, E4; by split_and!].
  exists (Some (e_entry ehdr)), s4, E4. split; [done|]. split; [done|]. intros entry [= <-]. split; [done|]. split; [done|].
  split; [|by apply Hb4]. rewrite Z2Nat.id in Hb3 by apply half_at_range.
  destruct Hk4 as (_ & Hm & Hi). eapply segments_loaded_later; [by apply Hb3|done|done].
Qed.
End segment.

(** ** Loading and exiting *)

Section load_exit.
Context {P : Type} `{!PageAllocator P}.
Context (init_page_dir init_ram_pages : Z).
Context (contents : list Z) (inode_read_at : Z → Z → list Z) (O : list (Z * Z)).
Hypothesis Hfile : file_contract contents inode_read_at.
Hypothesis Hram : ∀ p A b, holds (P := P) p A → b ∈ A → (b.1 - PHYS_BASE) / 4096 < init_ram_pages.
Implicit Types s : lstate (P := P).

(** A directory is not in a page of anyone else. *)
Lemma dir_fresh (g : pgstate P) pd E a : pd_rel g pd (E, O) → (a, 1) ∈ O → pd ≠ a.
Proof.
  intros [[T HT] _] Ha ->. cbn in HT. pose proof (holds_separate _ _ (r_holds _ _ _ _ _ HT)) as Hs. unfold owned in Hs.
  cbn in Hs. apply separate_cons in Hs as (_ & _ & Hq). destruct (Hq (a, 1)) as [Hap _].
  { apply elem_of_app. by right. }
  unfold pages_apart in Hap. cbn in Hap. lia.
Qed.

Lemma process_activate_ok s pd E cur :
  pd_rel (pg s) pd (E, O) → is_Some (tss s) →
  ∃ s', process_activate init_page_dir cur pd s = Ret (tt, s') ∧ pd_rel (pg s') pd (E, O) ∧
    pmem (pg s') = pmem (pg s) ∧ tss s' = Some (cur + PGSIZE) ∧ ino s' = ino s.
Proof.
  intros HR Ht. destruct (activate_ok init_page_dir (pg s) pd _ HR) as (g & Hr & HR' & _).
  assert (pmem g = pmem (pg s)) as Hm.
  { unfold pagedir_activate in Hr. apply st_bind_inv in Hr as (pa & g1 & H1 & H2). unfold pure, Palloc.lift in H1.
    destruct (vtop _); [|done..]. injection H1 as _ <-. by injection H2 as <-. }
  exists (LState g (pos s) (deny_write s) (Some (cur + PGSIZE)) (ino s) (exec_name s)). split; [|done].
  unfold process_activate. erewrite st_bind_ret by (by apply on_pg_run). unfold tss_update.
  erewrite st_bind_ret by reflexivity. cbn [tss]. by rewrite bool_decide_eq_true_2.
Qed.

(** [load] returns, with a page directory that is as it should be if there is one. *)
Lemma load_ok s cur name found :
  create_pre init_page_dir (pg s) O → is_Some (tss s) → deny_write_cnt (ino s) ≤ open_cnt (ino s) →
  ∃ pd r s', load init_page_dir init_ram_pages inode_read_at (Z.of_nat (length contents)) cur name true found s = Ret ((pd, r), s') ∧
    undisturbed O (pmem (pg s)) (pmem (pg s')) ∧
    ((pd = 0 ∧ r = None ∧ holds (pgs (pg s')) O) ∨
     (pd ≠ init_page_dir ∧ ∃ E, pd_rel (pg s') pd (E, O) ∧ present (E 0) = false ∧
        ∀ entry, r = Some entry → found = true ∧ image_loaded contents (pmem (pg s')) E entry)).
Proof.
  intros Hpre Ht Hd. destruct (create_ok init_page_dir (pg s) O Hpre) as (pd & g & Hr & _ & _ & Hu & Hcase).
  unfold load. erewrite st_bind_ret by (by apply on_pg_run). destruct Hcase as [[-> Hh]|(Hn & HR & _)].
  { eexists 0, None, _. split; [reflexivity|]. split; [done|]. by left. }
  rewrite (proj2 (Z.eqb_neq _ _) Hn).
  assert (pd ≠ init_page_dir) as Hpd by (eapply dir_fresh; [done|apply Hpre]).
  destruct (process_activate_ok (LState g (pos s) (deny_write s) (tss s) (ino s) (exec_name s)) pd no_entries cur HR Ht) as (s1 & Hr1 & HR1 & Hm1 & _ & Hi1).
  erewrite st_bind_ret by exact Hr1. cbn [pg] in Hm1. unfold copy_name. erewrite st_bind_ret by reflexivity.
  destruct found; cbn [negb].
  2: { eexists pd, None, _. split; [reflexivity|]. cbn [pg]. rewrite Hm1. split; [done|]. right. split; [done|]. by exists no_entries. }
  erewrite st_bind_ret by reflexivity. set (s2 := LState _ 0 _ _ _ _).
  destruct (load_image_ok init_page_dir init_ram_pages contents inode_read_at pd O Hfile Hram Hpd s2 no_entries HR1)
    as (r & s3 & E & Hr3 & (HR3 & Hmm & Hi3) & Him); [done|unfold may_deny; cbn; rewrite Hi1; cbn; lia|].
  eexists pd, r, s3. split; [by erewrite st_bind_ret by exact Hr3|]. cbn [pg s2] in Hi3. rewrite Hm1 in Hi3. split.
  { intros b x Hb Hx. rewrite (Hi3 b x) by (by left || done). by apply (Hu b). }
  right. split; [done|]. exists E. split; [done|]. split; [apply Hmm; [by unfold user_pages|done|lia]|].
  intros entry He. split; [done|]. by apply Him.
Qed.

(** Without a block for the name, [load] gets no further than its copy. *)
Lemma load_no_name s cur name found :
  create_pre init_page_dir (pg s) O → is_Some (tss s) →
  load init_page_dir init_ram_pages inode_read_at (Z.of_nat (length contents)) cur name false found s = Panic ∨
  ∃ s', load init_page_dir init_ram_pages inode_read_at (Z.of_nat (length contents)) cur name false found s =
      Ret ((0, None), s') ∧ holds (pgs (pg s')) O ∧ undisturbed O (pmem (pg s)) (pmem (pg s')).
Proof.
  intros Hpre Ht. destruct (create_ok init_page_dir (pg s) O Hpre) as (pd & g & Hr & _ & _ & Hu & Hcase).
  unfold load. erewrite st_bind_ret by (by apply on_pg_run). destruct Hcase as [[-> Hh]|(Hn & HR & _)].
  { right. eexists. split; [reflexivity|]. done. }
  left. rewrite (proj2 (Z.eqb_neq _ _) Hn).
  destruct (process_activate_ok (LState g (pos s) (deny_write s) (tss s) (ino s) (exec_name s)) pd no_entries cur HR Ht) as (s1 & Hr1 & _).
  erewrite st_bind_ret by exact Hr1. done.
Qed.

(** C12: loading is safe for every executable, well formed or not.  If there is
    memory for the copy of its name, [load] returns and fails no assertion; it
    changes no page of the kernel or of another process and never maps page 0;
    and when the process exits, after a load that succeeded or failed at any
    point, every page that was taken for the page directory, its tables, the
    segments and the stack is given back.  If there is none, and there is a
    page directory, the kernel panics in [strlcpy]. *)
Theorem load_safe s cur name name_block found :
  create_pre init_page_dir (pg s) O → is_Some (tss s) → deny_write_cnt (ino s) ≤ open_cnt (ino s) →
  let run := load init_page_dir init_ram_pages inode_read_at (Z.of_nat (length contents)) cur name name_block found s in
  if name_block then
    ∃ pd r s', run = Ret ((pd, r), s') ∧
      undisturbed O (pmem (pg s)) (pmem (pg s')) ∧
      (pd ≠ 0 → ∃ E, pd_rel (pg s') pd (E, O) ∧ present (E 0) = false) ∧
      ∃ s'', release_pagedir init_page_dir pd s' = Ret (tt, s'') ∧ holds (pgs (pg s'')) O ∧
        undisturbed O (pmem (pg s)) (pmem (pg s''))
  else
    run = Panic ∨
    ∃ s', run = Ret ((0, None), s') ∧ holds (pgs (pg s')) O ∧ undisturbed O (pmem (pg s)) (pmem (pg s')).
Proof.
  intros Hpre Ht Hd run. unfold run. clear run. destruct name_block; [|by apply load_no_name].
  destruct (load_ok s cur name found Hpre Ht Hd) as (pd & r & s' & Hr & Hu & Hcase).
  exists pd, r, s'. split; [done|]. split; [done|]. unfold release_pagedir.
  destruct Hcase as [(-> & _ & Hh)|(Hpd & E & HR & HE0 & _)].
  { split; [done|]. eexists. split; [reflexivity|]. done. }
  split; [intros _; by exists E|]. pose proof HR as [[T HT] _]. cbn in HT.
  pose proof (dir_nonnull _ _ _ _ _ HT) as Hn. apply negb_true_iff in Hn. rewrite Hn.
  pose proof (holds_block _ _ _ (cp_holds _ _ _ Hpre) (cp_init _ _ _ Hpre)) as (_ & _ & Hb1 & Hb2). cbn in Hb1, Hb2.
  destruct (vtop_ptov init_page_dir) as (pa & Hv & Hpa & Hpa'); [lia|].
  erewrite st_bind_ret by (apply on_pg_run; unfold pagedir_activate; cbn [Z.eqb];
    erewrite st_bind_ret by (unfold pure, Palloc.lift; rewrite Hv; reflexivity); reflexivity).
  set (s1 := LState _ _ _ _ _ _).
  destruct (destroy_ok init_page_dir (pg s1) pd (E, O)) as (g & Hg & Hh & Hu2 & _); [|done|].
  { split; [exists T; by destruct HT|]. split; [cbn; unfold PHYS_BASE in *; lia|]. intros _ v w _ Hw. done. }
  eexists. split; [by apply on_pg_run|]. split; [done|]. intros b x Hb Hx. etransitivity; [apply (Hu2 b x Hb Hx)|by apply (Hu b)].
Qed.

(** C13: a successful [load] builds the process the executable describes.  The
    header is that of an executable for this machine and the entry point is
    the header's; every program header of type [PT_LOAD] is valid, and its
    [p_memsz] bytes at [p_vaddr] are mapped, writable exactly if it says so, with
    [p_filesz] bytes of the file at [p_offset] followed by zeros; no segment
    asks for dynamic linking; and below [PHYS_BASE] there is a page of zeros
    for the stack. *)
Theorem load_correct s cur name name_block found pd entry s' :
  create_pre init_page_dir (pg s) O → is_Some (tss s) → deny_write_cnt (ino s) ≤ open_cnt (ino s) →
  load init_page_dir init_ram_pages inode_read_at (Z.of_nat (length contents)) cur name name_block found s = Ret ((pd, Some entry), s') →
  found = true ∧ ∃ E, pd_rel (pg s') pd (E, O) ∧ image_loaded contents (pmem (pg s')) E entry.
Proof.
  intros Hpre Ht Hd Hl. destruct name_block.
  2: { destruct (load_no_name s cur name found Hpre Ht) as [Hp|(s2 & Hp & _)]; rewrite Hl in Hp; discriminate. }
  destruct (load_ok s cur name found Hpre Ht Hd) as (pd' & r & s2 & Hr & Hu & Hcase).
  rewrite Hl in Hr. injection Hr as <- <- <-. destruct Hcase as [(_ & ? & _)|(_ & E & HR & _ & Him)]; [done|].
  destruct (Him entry eq_refl) as [-> ?]. split; [done|]. by exists E.
Qed.
End load_exit.

(** A small executable: a header and one segment that maps the file. *)
Definition ex_exec : list Z :=
  [127; 69; 76; 70; 1; 1; 1; 0; 0; 0; 0; 0; 0; 0; 0; 0; 2; 0; 3; 0; 1; 0; 0; 0; 0x54; 0x80; 0x04; 0x08; 52; 0; 0; 0;
   0; 0; 0; 0; 0; 0; 0; 0; 52; 0; 32; 0; 1; 0; 0; 0; 0; 0; 0; 0;
   1; 0; 0; 0; 0; 0; 0; 0; 0; 0x80; 0x04; 0x08; 0; 0x80; 0x04; 0x08; 84; 0; 0; 0; 100; 0; 0; 0; 5; 0; 0; 0; 0; 16; 0; 0].

Definition ex_read (size ofs : Z) : list Z := take (Z.to_nat size) (drop (Z.to_nat ofs) ex_exec).

Lemma ex_file : file_contract ex_exec ex_read.
Proof. split; [done|done|by_decide]. Qed.

Lemma ex_ram p A b : holds (P := Palloc.pstate) p A → b ∈ A → (b.1 - PHYS_BASE) / 4096 < 2 ^ 18.
Proof. intros Hh Hb. destruct (holds_block _ _ _ Hh Hb) as (_ & ? & ? & ?). unfold PHYS_BASE in *. zlia. Qed.

Definition ex_lstate : lstate :=
  LState (PgState (match get_multiple 0 1 ex_pools with Ret (_, p) => p | _ => ex_pools end) 0x100000 (λ _, None)) 0 false (Some 0) (ICounts 0 0) None.

Lemma ex_create_pre : create_pre 0xc0100000 (pg ex_lstate) [(0xc0100000, 1)].
Proof.
  destruct ex_page_hold as (p & Hr & Hh & Hm). unfold ex_lstate. rewrite Hr.
  split; [done|by left| |by left]. intros i _. unfold read32, pmem. cbn [pg pgs]. by rewrite !Hm.
Qed.

Lemma load_safe_witness :
  ∃ pd r s', load 0xc0100000 (2 ^ 18) ex_read 84 0xc0101000 [97] true true ex_lstate = Ret ((pd, r), s') ∧
    undisturbed [(0xc0100000, 1)] (pmem (pg ex_lstate)) (pmem (pg s')) ∧
    (pd ≠ 0 → ∃ E, pd_rel (pg s') pd (E, [(0xc0100000, 1)]) ∧ present (E 0) = false) ∧
    ∃ s'', release_pagedir 0xc0100000 pd s' = Ret (tt, s'') ∧ holds (pgs (pg s'')) [(0xc0100000, 1)] ∧
      undisturbed [(0xc0100000, 1)] (pmem (pg ex_lstate)) (pmem (pg s'')).
Proof.
  apply (load_safe 0xc0100000 (2 ^ 18) ex_exec ex_read [(0xc0100000, 1)] ex_file ex_ram ex_lstate 0xc0101000 [97] true true);
    [exact ex_create_pre|by eexists|done].
Defined.

Lemma load_correct_witness :
  ∃ pd s', load 0xc0100000 (2 ^ 18) ex_read 84 0xc0101000 [97] true true ex_lstate = Ret ((pd, Some 0x08048054), s') ∧
    true = true ∧ ∃ E, pd_rel (pg s') pd (E, [(0xc0100000, 1)]) ∧ image_loaded ex_exec (pmem (pg s')) E 0x08048054.
Proof.
  assert (match load 0xc0100000 (2 ^ 18) ex_read 84 0xc0101000 [97] true true ex_lstate with
          | Ret ((_, Some e), _) => e | _ => 0 end = 0x08048054) as He by (vm_compute; reflexivity).
  destruct (load 0xc0100000 (2 ^ 18) ex_read 84 0xc0101000 [97] true true ex_lstate) as [[[pd [e|]] s']| |] eqn:Hl; [|done..].
  subst e. exists pd, s'. split; [done|].
  apply (load_correct 0xc0100000 (2 ^ 18) ex_exec ex_read [(0xc0100000, 1)] ex_file ex_ram ex_lstate 0xc0101000 [97] true);
    [exact ex_create_pre|by eexists|done|exact Hl].
Defined.
