(* ===== verification/InodeStore.v ===== *)
(** * What an inode promises ([filesys/inode.h])

    The interface between the file system's upper half (directories, free maps,
    files, [filesys.c]) and [filesys/inode.c], as the comments of [inode.c] and
    [directory.c] state it: reading delivers the bytes of the file and is short
    only at the end of the file; writing may stop early and then has written a
    prefix; an inode that was removed disappears when it is closed for the last
    time.  [simple_store] is a store in memory that keeps the promises. *)

From stdpp Require Import functions.
From stdpp Require Import base tactics list numbers option sets gmap fin_maps.
From Stdlib Require Import ZArith Lia.
From S2P Require Import Prelude.

(** A file: its bytes, how often it is open, and whether it is to be deleted. *)
Record ifile : Type := IFile {
  data : list Z;
  opens : Z;
  removed : bool
}.

Definition with_data (d : list Z) (f : ifile) : ifile := IFile d (opens f) (removed f).
Definition with_opens (n : Z) (f : ifile) : ifile := IFile (data f) n (removed f).
Definition with_removed (f : ifile) : ifile := IFile (data f) (opens f) true.

(** The bytes [bs] over those from [ofs] on. *)
Definition overwrite (ofs : Z) (bs l : list Z) : list Z :=
  take (Z.to_nat ofs) l ++ bs ++ drop (Z.to_nat ofs + length bs) l.

(** The file after one of its openers has closed it. *)
Definition closed (i : Z) (f : ifile) (V : gmap Z ifile) : gmap Z ifile :=
  if (opens f =? 1) && removed f then delete i V else <[i := with_opens (opens f - 1) f]> V.

(** The pointer to an open inode is its number, the null pointer is [None]. *)
Class InodeStore (S : Type) : Type := {
  inode_init : st S unit;
  inode_create : Z → Z → bool → st S bool;
  inode_open : Z → st S (option Z);
  inode_reopen : Z → st S (option Z);
  inode_close : Z → st S unit;
  inode_remove : Z → st S unit;
  inode_read_at : Z → Z → Z → st S (list Z);
  inode_write_at : Z → list Z → Z → st S Z;
  inode_length : Z → st S Z;
  inodes : S → gmap Z ifile;
  init_ok s :
    (∀ i f, inodes s !! i = Some f → opens f = 0) → ∃ s', inode_init s = Ret (tt, s') ∧ inodes s' = inodes s;
  create_ok i len d s :
    0 ≤ len → (∀ f, inodes s !! i = Some f → opens f = 0) →
    ∃ b s', inode_create i len d s = Ret (b, s') ∧
      delete i (inodes s') = delete i (inodes s) ∧
      (∀ f, inodes s' !! i = Some f → opens f = 0 ∧ removed f = false) ∧
      (b = true → inodes s' !! i = Some (IFile (replicate (Z.to_nat len) 0) 0 false));
  open_ok i f s :
    inodes s !! i = Some f →
    ∃ r s', inode_open i s = Ret (r, s') ∧
      ((r = None ∧ inodes s' = inodes s) ∨ (r = Some i ∧ inodes s' = <[i := with_opens (opens f + 1) f]> (inodes s)));
  reopen_ok i f s :
    inodes s !! i = Some f → 0 < opens f →
    ∃ s', inode_reopen i s = Ret (Some i, s') ∧ inodes s' = <[i := with_opens (opens f + 1) f]> (inodes s);
  close_ok i f s :
    inodes s !! i = Some f → 0 < opens f →
    ∃ s', inode_close i s = Ret (tt, s') ∧ inodes s' = closed i f (inodes s);
  remove_ok i f s :
    inodes s !! i = Some f → 0 < opens f →
    ∃ s', inode_remove i s = Ret (tt, s') ∧ inodes s' = <[i := with_removed f]> (inodes s);
  read_ok i f size ofs s :
    inodes s !! i = Some f → 0 < opens f → 0 ≤ size → 0 ≤ ofs →
    ∃ s', inode_read_at i size ofs s = Ret (take (Z.to_nat size) (drop (Z.to_nat ofs) (data f)), s') ∧
      inodes s' = inodes s;
  write_ok i f bs ofs s :
    inodes s !! i = Some f → 0 < opens f → 0 ≤ ofs ≤ Z.of_nat (length (data f)) →
    ∃ n s', inode_write_at i bs ofs s = Ret (n, s') ∧ 0 ≤ n ≤ Z.of_nat (length bs) ∧
      inodes s' = <[i := with_data (overwrite ofs (take (Z.to_nat n) bs) (data f)) f]> (inodes s);
  length_ok i f s :
    inodes s !! i = Some f → 0 < opens f → inode_length i s = Ret (Z.of_nat (length (data f)), s)
}.

(** ** Overwriting *)

Lemma overwrite_length ofs bs l :
  0 ≤ ofs ≤ Z.of_nat (length l) →
  Z.of_nat (length (overwrite ofs bs l)) = Z.max (Z.of_nat (length l)) (ofs + Z.of_nat (length bs)).
Proof. intros Ho. unfold overwrite. rewrite !length_app, length_take, length_drop. lia. Qed.

Lemma overwrite_lookup ofs bs l (i : nat) :
  0 ≤ ofs ≤ Z.of_nat (length l) →
  overwrite ofs bs l !! i =
    if decide (Z.to_nat ofs ≤ i < Z.to_nat ofs + length bs)%nat then bs !! (i - Z.to_nat ofs)%nat else l !! i.
Proof.
  intros Ho. unfold overwrite. destruct (decide (i < Z.to_nat ofs)%nat) as [Hi|Hi].
  - rewrite decide_False by lia. rewrite lookup_app_l by (rewrite length_take; lia). by rewrite lookup_take_lt.
  - rewrite lookup_app_r by (rewrite length_take; lia). rewrite length_take, Nat.min_l by lia. case_decide.
    + by rewrite lookup_app_l by lia.
    + rewrite lookup_app_r by lia. rewrite lookup_drop. f_equal. lia.
Qed.

(** ** Closing *)

Lemma closed_insert i (f g : ifile) (V : gmap Z ifile) : closed i f (<[i := g]> V) = closed i f V.
Proof. unfold closed. destruct (_ && _); [by rewrite delete_insert_eq|by rewrite insert_insert_eq]. Qed.

(** An inode that may be opened and closed again without being deleted. *)
Definition settled (g : ifile) : Prop := 0 ≤ opens g ∧ (opens g = 0 → removed g = false).

Lemma closed_again i g (V : gmap Z ifile) :
  V !! i = Some g → settled g → closed i (with_opens (opens g + 1) g) (<[i := with_opens (opens g + 1) g]> V) = V.
Proof.
  intros Hi [Hs Hr]. rewrite closed_insert. unfold closed. cbn. destruct (Z.eqb_spec (opens g + 1) 1); cbn [andb].
  - rewrite Hr by lia. apply insert_id. rewrite Hi. f_equal. destruct g. unfold with_opens. cbn. f_equal. lia.
  - apply insert_id. rewrite Hi. f_equal. destruct g. unfold with_opens. cbn. f_equal. lia.
Qed.

(** ** A store in memory *)

Definition update_file (i : Z) (g : ifile → ifile) : st (gmap Z ifile) unit := modifyS (alter g i).

Lemma alter_present (g : ifile → ifile) (i : Z) f (s : gmap Z ifile) : s !! i = Some f → alter g i s = <[i := g f]> s.
Proof.
  intros Hi. apply map_eq. intros j. destruct (decide (i = j)) as [<-|Hj].
  - by rewrite lookup_alter_eq, lookup_insert_eq, Hi.
  - by rewrite lookup_alter_ne, lookup_insert_ne.
Qed.

#[refine] Instance simple_store : InodeStore (gmap Z ifile) := {|
  inode_init := mret tt;
  inode_create i len d := λ s, Ret (true, <[i := IFile (replicate (Z.to_nat len) 0) 0 false]> s);
  inode_open i := λ s,
    match s !! i with
    | Some f => Ret (Some i, <[i := with_opens (opens f + 1) f]> s)
    | None => Ret (None, s)
    end;
  inode_reopen i := update_file i (λ f, with_opens (opens f + 1) f);; mret (Some i);
  inode_close i := λ s, match s !! i with Some f => Ret (tt, closed i f s) | None => Panic end;
  inode_remove i := update_file i with_removed;
  inode_read_at i size ofs := λ s,
    match s !! i with
    | Some f => Ret (take (Z.to_nat size) (drop (Z.to_nat ofs) (data f)), s)
    | None => Panic
    end;
  inode_write_at i bs ofs := update_file i (λ f, with_data (overwrite ofs bs (data f)) f);; mret (Z.of_nat (length bs));
  inode_length i := λ s, match s !! i with Some f => Ret (Z.of_nat (length (data f)), s) | None => Panic end;
  inodes s := s
|}.
Proof.
  - intros s _. by eexists.
  - intros i len d s Hl Hf. eexists _, _. split; [done|]. rewrite delete_insert_eq. split; [done|].
    rewrite lookup_insert_eq. split; [by intros f [= <-]|done].
  - intros i f s Hi. rewrite Hi. eexists _, _. split; [done|]. by right.
  - intros i f s Hi _. eexists. split; [done|]. by rewrite (alter_present _ _ f).
  - intros i f s Hi _. rewrite Hi. by eexists.
  - intros i f s Hi _. eexists. split; [done|]. by rewrite (alter_present _ _ f).
  - intros i f size ofs s Hi _ _ _. rewrite Hi. by eexists.
  - intros i f bs ofs s Hi _ Ho. eexists _, _. split; [done|]. split; [lia|].
    rewrite Nat2Z.id, take_ge by done. by rewrite (alter_present _ _ f).
  - intros i f s Hi _. by rewrite Hi.
Defined.
