(* ===== verification/DirectorySpec.v ===== *)
(** * A directory is a map from names to inodes

    The slots of a directory file, what overwriting one of them does to the
    others, and the refinement of a map by the operations of [Directory]. *)

From stdpp Require Import functions.
From stdpp Require Import base tactics list numbers option sets gmap fin_maps.
From Stdlib Require Import ZArith Lia.
From S2P Require Import Prelude InodeStore Directory.

(** ** Slots *)

Definition slot (bs : list Z) (k : nat) : dir_entry := take 20 (drop (20 * k) bs).

(** Slot [k] is an entry that is in use. *)
Definition used_slot (bs : list Z) (k : nat) : Prop := (20 * k + 20 ≤ length bs)%nat ∧ ent_in_use (slot bs k) = true.

Lemma slot_lookup bs k m : (m < 20)%nat → slot bs k !! m = bs !! (20 * k + m)%nat.
Proof. intros Hm. unfold slot. by rewrite lookup_take_lt, lookup_drop. Qed.

Lemma slot_length bs k : (20 * k + 20 ≤ length bs)%nat → length (slot bs k) = 20%nat.
Proof. intros Hk. unfold slot. rewrite length_take, length_drop. lia. Qed.

Lemma slot_eq bs bs' k k' :
  (∀ m, (m < 20)%nat → bs !! (20 * k + m)%nat = bs' !! (20 * k' + m)%nat) → slot bs k = slot bs' k'.
Proof.
  intros H. apply list_eq. intros m. destruct (decide (m < 20)%nat) as [Hm|Hm]; [by rewrite !slot_lookup, H|].
  rewrite !lookup_ge_None_2; [done|unfold slot; rewrite length_take; lia..].
Qed.

(** Writing [ws] at slot [k]. *)
Lemma slot_other bs ws k j :
  (20 * k ≤ length bs)%nat → (length ws ≤ 20)%nat → j ≠ k → slot (overwrite (20 * Z.of_nat k) ws bs) j = slot bs j.
Proof.
  intros Hk Hw Hj. apply slot_eq. intros m Hm. rewrite overwrite_lookup by lia. rewrite decide_False; [done|lia].
Qed.

Lemma slot_same bs ws k :
  (20 * k ≤ length bs)%nat → length ws = 20%nat → slot (overwrite (20 * Z.of_nat k) ws bs) k = ws.
Proof.
  intros Hk Hw. apply list_eq. intros m. destruct (decide (m < 20)%nat) as [Hm|Hm].
  - rewrite slot_lookup, overwrite_lookup by lia. rewrite decide_True by lia. f_equal. lia.
  - rewrite !lookup_ge_None_2; [done|lia|unfold slot; rewrite length_take; lia].
Qed.

(** A write that stops early leaves the byte that tells whether the slot is in use. *)
Lemma slot_short bs ws k :
  (20 * k ≤ length bs)%nat → (length ws < 20)%nat → ent_in_use (slot (overwrite (20 * Z.of_nat k) ws bs) k) = ent_in_use (slot bs k).
Proof.
  intros Hk Hw. unfold ent_in_use, ent_byte. rewrite !slot_lookup, overwrite_lookup by lia. rewrite decide_False; [done|lia].
Qed.

Lemma overwrite_fits bs ws k j :
  (20 * k ≤ length bs)%nat → (length ws ≤ 20)%nat → j ≠ k →
  (20 * j + 20 ≤ length (overwrite (20 * Z.of_nat k) ws bs))%nat ↔ (20 * j + 20 ≤ length bs)%nat.
Proof. intros Hk Hw Hj. pose proof (overwrite_length (20 * Z.of_nat k) ws bs). lia. Qed.

Lemma used_other bs ws k j :
  (20 * k ≤ length bs)%nat → (length ws ≤ 20)%nat → j ≠ k →
  used_slot (overwrite (20 * Z.of_nat k) ws bs) j ↔ used_slot bs j.
Proof. intros Hk Hw Hj. unfold used_slot. by rewrite overwrite_fits, slot_other. Qed.

(** ** The members of an entry *)

(** A string without null bytes. *)
Definition file_name (name : list Z) : Prop := Forall (λ c, 0 < c < 256) name.

Lemma c_string_app s rest : file_name s → c_string (s ++ 0 :: rest) = s.
Proof.
  intros Hs. induction Hs as [|c s Hc _ IH]; [done|]. cbn. rewrite (proj2 (Z.eqb_neq c 0)) by lia. by rewrite IH.
Qed.

Lemma new_entry_ok name sector e :
  length e = 20%nat → file_name name → (length name ≤ 14)%nat → 0 ≤ sector < 2 ^ 32 →
  let e' := set_sector sector (set_name name (set_in_use true e)) in
  length e' = 20%nat ∧ ent_in_use e' = true ∧ ent_name e' = name ∧ ent_sector e' = sector.
Proof.
  intros He Hn Hl Hs e'. unfold e', set_name. rewrite (take_ge name 14) by lia.
  assert (length (set_in_use true e) = 20%nat) as Hu by (unfold set_in_use; rewrite length_app, length_take; cbn [length]; lia).
  set (u := set_in_use true e) in *. set (d := drop (4 + length (name ++ [0])) u).
  assert (length d = 15 - length name)%nat as Hd by (unfold d; rewrite length_drop, length_app; cbn [length]; lia).
  assert (set_sector sector (take 4 u ++ (name ++ [0]) ++ d) =
    [sector mod 256; sector / 2 ^ 8 mod 256; sector / 2 ^ 16 mod 256; sector / 2 ^ 24 mod 256] ++ name ++ 0 :: d) as ->.
  { unfold set_sector. rewrite drop_app_length' by (rewrite length_take; lia). by rewrite <-app_assoc. }
  split_and!.
  - rewrite !length_app. cbn [length]. rewrite Hd. lia.
  - unfold ent_in_use, ent_byte. rewrite lookup_app_r by (cbn; lia). cbn [length]. rewrite lookup_app_r by lia.
    assert (d !! (14 - length name)%nat = Some 1).
    { unfold d. rewrite lookup_drop, length_app. cbn [length]. unfold u, set_in_use.
      rewrite lookup_app_r by (rewrite length_take; lia). rewrite length_take.
      by replace (4 + (length name + 1) + (14 - length name) - 19 `min` length e)%nat with 0%nat by lia. }
    replace (19 - 4 - length name)%nat with (Datatypes.S (14 - length name)) by lia. by rewrite lookup_cons_ne_0, Nat.pred_succ, H.
  - unfold ent_name. rewrite drop_app_length' by done. by apply c_string_app.
  - unfold ent_sector, ent_byte. cbn. zlia.
Qed.

(** ** Loops over the slots *)

(** A directory file that offsets of type [off_t] can address. *)
Definition dir_small (bs : list Z) : Prop := Z.of_nat (length bs) + 40 < 2 ^ 31.

Lemma ent_read_full bs e : length bs = 20%nat → length e = 20%nat → ent_read bs e = bs.
Proof. intros Hb He. unfold ent_read. rewrite drop_ge by lia. by rewrite app_nil_r. Qed.

Lemma ent_read_length bs e : length e = 20%nat → (length bs ≤ 20)%nat → length (ent_read bs e) = 20%nat.
Proof. intros He Hb. unfold ent_read. rewrite length_app, length_drop. lia. Qed.

Section loops.
Context {S : Type} `{!InodeStore S}.
Context (i : Z) (f : ifile) (p : Z).
Hypothesis Hopen : 0 < opens f.
Hypothesis Hsmall : dir_small (data f).
Implicit Types s : S.

Lemma read_slot s k :
  inodes s !! i = Some f →
  ∃ s', inode_read_at i sizeof_dir_entry (20 * Z.of_nat k) s = Ret (slot (data f) k, s') ∧ inodes s' = inodes s.
Proof.
  intros Hi. destruct (read_ok i f sizeof_dir_entry (20 * Z.of_nat k) s Hi Hopen) as (s' & Hr & Hs); [done|lia|].
  exists s'. split; [|done]. rewrite Hr. unfold slot, sizeof_dir_entry. do 4 f_equal. lia.
Qed.

Lemma slot_full k :
  (Z.of_nat (length (slot (data f) k)) =? sizeof_dir_entry) = bool_decide (20 * k + 20 ≤ length (data f))%nat.
Proof.
  unfold slot, sizeof_dir_entry. rewrite length_take, length_drop. case_bool_decide; [apply Z.eqb_eq|apply Z.eqb_neq]; lia.
Qed.

(** Slots before [k] do not have what the loop looks for. *)
Lemma lookup_loop_ok name fuel : ∀ k e s,
  inodes s !! i = Some f → length e = 20%nat → (length (data f) < 20 * (k + fuel))%nat → (20 * k ≤ length (data f))%nat →
  (∀ j, (j < k)%nat → used_slot (data f) j → ent_name (slot (data f) j) ≠ name) →
  ∃ r s', lookup_loop fuel (Dir i p) name e (20 * Z.of_nat k) s = Ret (r, s') ∧ inodes s' = inodes s ∧
    match r with
    | Some (e, ofs) => ∃ j, used_slot (data f) j ∧ ent_name (slot (data f) j) = name ∧ e = slot (data f) j ∧ ofs = 20 * Z.of_nat j
    | None => ∀ j, used_slot (data f) j → ent_name (slot (data f) j) ≠ name
    end.
Proof.
  unfold dir_small in Hsmall. induction fuel as [|fuel IH]; intros k e s Hi He Hf Hk Hno; [lia|].
  cbn [lookup_loop dir_inode]. rewrite s32_id by lia. destruct (read_slot s k Hi) as (s1 & Hr & Hs1).
  rewrite (st_bind_ret _ _ _ _ _ Hr). rewrite slot_full. case_bool_decide as Hfull.
  2: { exists None, s1. split; [done|]. split; [done|]. intros j Hj. apply Hno; [|done]. destruct Hj as [Hj _]. lia. }
  rewrite ent_read_full by (done || by apply slot_length).
  destruct (ent_in_use (slot (data f) k)) eqn:Hu; cbn [andb]; [case_bool_decide as Hn|].
  - eexists _, s1. split; [reflexivity|]. split; [done|]. by exists k.
  - rewrite u32_id by (unfold sizeof_dir_entry; lia).
    replace (20 * Z.of_nat k + sizeof_dir_entry) with (20 * Z.of_nat (Datatypes.S k)) by (unfold sizeof_dir_entry; lia).
    rewrite <-Hs1. apply IH; [by rewrite Hs1|by apply slot_length|lia|lia|].
    intros j Hj. destruct (decide (j = k)) as [->|]; [intros _ Hx; congruence|]. apply Hno. lia.
  - rewrite u32_id by (unfold sizeof_dir_entry; lia).
    replace (20 * Z.of_nat k + sizeof_dir_entry) with (20 * Z.of_nat (Datatypes.S k)) by (unfold sizeof_dir_entry; lia).
    rewrite <-Hs1. apply IH; [by rewrite Hs1|by apply slot_length|lia|lia|].
    intros j Hj. destruct (decide (j = k)) as [->|]; [intros [_ Hx]; congruence|]. apply Hno. lia.
Qed.

(** The first free slot, or the end of the file. *)
Lemma free_slot_loop_ok fuel : ∀ k e s,
  inodes s !! i = Some f → length e = 20%nat → (length (data f) < 20 * (k + fuel))%nat → (20 * k ≤ length (data f))%nat →
  ∃ e' j s', free_slot_loop fuel (Dir i p) e (20 * Z.of_nat k) s = Ret ((e', 20 * Z.of_nat j), s') ∧ inodes s' = inodes s ∧
    length e' = 20%nat ∧ (20 * j ≤ length (data f))%nat ∧ ¬ used_slot (data f) j.
Proof.
  unfold dir_small in Hsmall. induction fuel as [|fuel IH]; intros k e s Hi He Hf Hk; [lia|].
  cbn [free_slot_loop dir_inode]. destruct (read_slot s k Hi) as (s1 & Hr & Hs1).
  rewrite (st_bind_ret _ _ _ _ _ Hr). rewrite slot_full.
  assert (length (slot (data f) k) ≤ 20)%nat as Hle by (unfold slot; rewrite length_take; lia).
  case_bool_decide as Hfull.
  2: { eexists _, k, s1. split; [reflexivity|]. split; [done|]. split; [by apply ent_read_length|]. split; [done|].
       intros [Hj _]. lia. }
  rewrite ent_read_full by (done || by apply slot_length). destruct (ent_in_use (slot (data f) k)) eqn:Hu.
  - rewrite s32_id by (unfold sizeof_dir_entry; lia).
    replace (20 * Z.of_nat k + sizeof_dir_entry) with (20 * Z.of_nat (Datatypes.S k)) by (unfold sizeof_dir_entry; lia).
    rewrite <-Hs1. apply IH; [by rewrite Hs1|by apply slot_length|lia|lia].
  - eexists _, k, s1. split; [reflexivity|]. split; [done|]. split; [by apply slot_length|]. split; [done|].
    intros [_ Hx]. congruence.
Qed.
End loops.

(** ** The map *)

(** The slots of [bs] that are in use are the entries of [M]. *)
Record dir_rel (bs : list Z) (M : gmap (list Z) Z) : Prop := DirRel {
  dr_name k : used_slot bs k → (0 < length (ent_name (slot bs k)) ≤ 14)%nat;
  dr_unique j k : used_slot bs j → used_slot bs k → ent_name (slot bs j) = ent_name (slot bs k) → j = k;
  dr_map nm sec : M !! nm = Some sec ↔ ∃ k, used_slot bs k ∧ ent_name (slot bs k) = nm ∧ ent_sector (slot bs k) = sec
}.

Lemma dir_rel_none bs M nm : dir_rel bs M → (M !! nm = None ↔ ∀ k, used_slot bs k → ent_name (slot bs k) ≠ nm).
Proof.
  intros HR. rewrite eq_None_not_Some. split.
  - intros Hn k Hk He. apply Hn. exists (ent_sector (slot bs k)). apply (dr_map _ _ HR). by exists k.
  - intros Hn [sec (k & Hk & He & _)%(dr_map _ _ HR)]. by eapply Hn.
Qed.

(** A map depends on the slots in use only. *)
Lemma dir_rel_ext bs bs' M :
  dir_rel bs M → (∀ k, used_slot bs' k ↔ used_slot bs k) → (∀ k, used_slot bs k → slot bs' k = slot bs k) → dir_rel bs' M.
Proof.
  intros HR Hu Hs. split.
  - intros k Hk%Hu. rewrite Hs by done. by apply (dr_name _ _ HR).
  - intros j k Hj%Hu Hk%Hu. rewrite !Hs by done. by apply (dr_unique _ _ HR).
  - intros nm sec. rewrite (dr_map _ _ HR). split; intros (k & Hk & He); exists k.
    + rewrite Hs by done. by rewrite Hu.
    + apply Hu in Hk. by rewrite Hs in He.
Qed.

Lemma dir_rel_short bs M ws k :
  dir_rel bs M → (20 * k ≤ length bs)%nat → ¬ used_slot bs k → (length ws < 20)%nat →
  dir_rel (overwrite (20 * Z.of_nat k) ws bs) M.
Proof.
  intros HR Hk Hn Hw. assert (¬ used_slot (overwrite (20 * Z.of_nat k) ws bs) k) as Hn'.
  { intros [Hl Hu]. rewrite slot_short in Hu by done. pose proof (overwrite_length (20 * Z.of_nat k) ws bs). apply Hn. split; [lia|done]. }
  eapply dir_rel_ext; [done|..].
  - intros j. destruct (decide (j = k)) as [->|]; [tauto|]. apply used_other; [done|lia|done].
  - intros j Hj. destruct (decide (j = k)) as [->|]; [tauto|]. apply slot_other; [done|lia|done].
Qed.

Lemma dir_rel_add bs M e k :
  dir_rel bs M → (20 * k ≤ length bs)%nat → ¬ used_slot bs k → length e = 20%nat → ent_in_use e = true →
  (0 < length (ent_name e) ≤ 14)%nat → M !! ent_name e = None →
  dir_rel (overwrite (20 * Z.of_nat k) e bs) (<[ent_name e := ent_sector e]> M).
Proof.
  intros HR Hk Hn He Hu Hl HM. set (bs' := overwrite _ e bs).
  assert (slot bs' k = e) as Hsk by (by apply slot_same).
  assert (∀ j, j ≠ k → slot bs' j = slot bs j) as Hso by (intros j Hj; apply slot_other; [done|lia|done]).
  assert (used_slot bs' k) as Huk.
  { split; [|by rewrite Hsk]. pose proof (overwrite_length (20 * Z.of_nat k) e bs). unfold bs'. lia. }
  assert (∀ j, j ≠ k → used_slot bs' j ↔ used_slot bs j) as Huo by (intros j Hj; apply used_other; [done|lia|done]).
  pose proof (proj1 (dir_rel_none _ _ _ HR) HM) as Hnew. split.
  - intros j Hj. destruct (decide (j = k)) as [->|Hjk]; [by rewrite Hsk|]. rewrite Hso by done. apply (dr_name _ _ HR). by apply Huo.
  - intros j l Hj Hl'. destruct (decide (j = k)) as [->|Hjk]; destruct (decide (l = k)) as [->|Hlk]; [done|..].
    + rewrite Hsk, Hso by done. intros Hx. exfalso. eapply (Hnew l); [by apply Huo|done].
    + rewrite Hsk, Hso by done. intros Hx. exfalso. eapply (Hnew j); [by apply Huo|done].
    + rewrite !Hso by done. apply (dr_unique _ _ HR); by apply Huo.
  - intros nm sec. rewrite lookup_insert_Some, (dr_map _ _ HR). split.
    + intros [[<- <-]|(Hne & j & Hj & Hnm & Hsec)]; [exists k; by rewrite Hsk|].
      assert (j ≠ k) by (by intros ->). exists j. rewrite Huo, Hso by done. done.
    + intros (j & Hj & Hnm & Hsec). destruct (decide (j = k)) as [->|Hjk]; [rewrite Hsk in Hnm, Hsec; by left|].
      apply Huo in Hj; [|done]. rewrite Hso in Hnm, Hsec by done. right. split; [|by exists j].
      intros Hx. eapply (Hnew j); [done|congruence].
Qed.

Lemma dir_rel_remove bs M e k :
  dir_rel bs M → used_slot bs k → length e = 20%nat → ent_in_use e = false →
  dir_rel (overwrite (20 * Z.of_nat k) e bs) (delete (ent_name (slot bs k)) M).
Proof.
  intros HR Huse He Hu. pose proof Huse as [Hk _]. set (bs' := overwrite _ e bs).
  assert (slot bs' k = e) as Hsk by (apply slot_same; [lia|done]).
  assert (∀ j, j ≠ k → slot bs' j = slot bs j) as Hso by (intros j Hj; apply slot_other; [lia|lia|done]).
  assert (∀ j, used_slot bs' j ↔ used_slot bs j ∧ j ≠ k) as Huo.
  { intros j. destruct (decide (j = k)) as [->|Hj]; [|unfold bs'; rewrite (used_other bs e k j) by (lia || done); tauto].
    split; [|tauto]. intros [_ Hx]. rewrite Hsk in Hx. congruence. }
  split.
  - intros j [Hj Hjk]%Huo. rewrite Hso by done. by apply (dr_name _ _ HR).
  - intros j l [Hj Hjk]%Huo [Hl Hlk]%Huo. rewrite !Hso by done. by apply (dr_unique _ _ HR).
  - intros nm sec. rewrite lookup_delete_Some, (dr_map _ _ HR). split.
    + intros (Hne & j & Hj & Hnm & Hsec). assert (j ≠ k) by (by intros ->). exists j. rewrite Huo, Hso by done. done.
    + intros (j & [Hj Hjk]%Huo & Hnm & Hsec). rewrite Hso in Hnm, Hsec by done. split; [|by exists j].
      intros Hx. apply Hjk, (dr_unique _ _ HR); [done|done|congruence].
Qed.

(** Writing a prefix of what is there already. *)
Lemma overwrite_id bs ofs ws :
  0 ≤ ofs ≤ Z.of_nat (length bs) → (∀ m, (m < length ws)%nat → ws !! m = bs !! (Z.to_nat ofs + m)%nat) → overwrite ofs ws bs = bs.
Proof.
  intros Ho Hw. apply list_eq. intros m. rewrite overwrite_lookup by done. case_decide; [|done].
  rewrite Hw by lia. f_equal. lia.
Qed.

Lemma unused_entry_ok e : length e = 20%nat → length (set_in_use false e) = 20%nat ∧ ent_in_use (set_in_use false e) = false.
Proof.
  intros He. unfold set_in_use, ent_in_use, ent_byte. rewrite length_app, length_take. split; [cbn [length]; lia|].
  rewrite lookup_app_r by (rewrite length_take; lia). rewrite length_take. by replace (19 - 19 `min` length e)%nat with 0%nat by lia.
Qed.

Lemma unused_entry_short bs k n :
  used_slot bs k → 0 ≤ n < 20 → overwrite (20 * Z.of_nat k) (take (Z.to_nat n) (set_in_use false (slot bs k))) bs = bs.
Proof.
  intros [Hk _] Hn. apply overwrite_id; [lia|]. intros m Hm. unfold set_in_use in *. rewrite length_take in Hm.
  rewrite lookup_take_lt by lia. rewrite lookup_app_l, lookup_take_lt by (rewrite ?length_take, ?slot_length by lia; lia).
  rewrite slot_lookup by lia. f_equal. lia.
Qed.

(** The names of the used slots from [k] on, with [n] slots left. *)
Fixpoint names_from (bs : list Z) (k n : nat) : list (list Z) :=
  match n with
  | O => []
  | Datatypes.S n => (if ent_in_use (slot bs k) then [ent_name (slot bs k)] else []) ++ names_from bs (k + 1) n
  end.

Lemma names_from_spec bs n : ∀ k nm,
  (20 * (k + n) ≤ length bs)%nat →
  nm ∈ names_from bs k n ↔ ∃ j, (k ≤ j < k + n)%nat ∧ used_slot bs j ∧ ent_name (slot bs j) = nm.
Proof.
  induction n as [|n IH]; intros k nm Hl; cbn [names_from].
  { split; [by intros ?%elem_of_nil|intros (j & ? & _); lia]. }
  rewrite elem_of_app, IH by lia. split.
  - intros [Hx|(j & Hj & Hu & Hn)]; [|exists j; split; [lia|done]].
    destruct (ent_in_use (slot bs k)) eqn:Hu; [|by apply elem_of_nil in Hx]. apply list_elem_of_singleton in Hx as ->.
    exists k. split; [lia|]. split; [|done]. split; [lia|done].
  - intros (j & Hj & Hu & Hn). destruct (decide (j = k)) as [->|]; [|right; exists j; split; [lia|done]].
    left. destruct Hu as [_ ->]. by apply list_elem_of_singleton.
Qed.

Lemma names_from_NoDup bs M n : ∀ k, dir_rel bs M → (20 * (k + n) ≤ length bs)%nat → NoDup (names_from bs k n).
Proof.
  induction n as [|n IH]; intros k HR Hl; cbn [names_from]; [constructor|].
  apply NoDup_app. split; [destruct (ent_in_use _); [apply NoDup_singleton|constructor]|].
  split; [|apply IH; [done|lia]]. intros nm Hx (j & Hj & Hu & Hn)%names_from_spec; [|lia].
  destruct (ent_in_use (slot bs k)) eqn:Hk; [|by apply elem_of_nil in Hx]. apply list_elem_of_singleton in Hx as ->.
  assert (j = k); [|lia]. apply (dr_unique _ _ HR); [done| |done]. split; [lia|done].
Qed.

Lemma names_from_skip bs k n m : (m ≤ n)%nat → (∀ j, (k ≤ j < k + m)%nat → ent_in_use (slot bs j) = false) →
  names_from bs k n = names_from bs (k + m) (n - m).
Proof.
  revert k n. induction m as [|m IH]; intros k n Hm Hf; [by rewrite Nat.add_0_r, Nat.sub_0_r|].
  destruct n as [|n]; [lia|]. cbn [names_from]. rewrite Hf by lia. cbn [app].
  rewrite IH; [f_equal; lia|lia|]. intros j Hj. apply Hf. lia.
Qed.

(** ** The operations *)

Section operations.
Context {S : Type} `{!InodeStore S}.
Context (junk : dir_entry) (fuel : nat).
Hypothesis Hjunk : length junk = 20%nat.
Implicit Types s : S.

(** An open directory file with the entries of [M]. *)
Record dir_at (V : gmap Z ifile) (i : Z) (f : ifile) (M : gmap (list Z) Z) : Prop := DirAt {
  da_file : V !! i = Some f;
  da_open : 0 < opens f;
  da_small : dir_small (data f);
  da_fuel : (length (data f) < 20 * fuel)%nat;
  da_rel : dir_rel (data f) M
}.

Lemma lookup_ok s i f M p name :
  dir_at (inodes s) i f M →
  ∃ r s', lookup junk fuel (Dir i p) name s = Ret (r, s') ∧ inodes s' = inodes s ∧
    match r with
    | Some (e, ofs) => ∃ k, used_slot (data f) k ∧ ent_name (slot (data f) k) = name ∧ e = slot (data f) k ∧
        ofs = 20 * Z.of_nat k ∧ M !! name = Some (ent_sector e)
    | None => M !! name = None
    end.
Proof.
  intros [Hi Ho Hs Hf HR].
  destruct (lookup_loop_ok i f p Ho Hs name fuel 0 junk s Hi Hjunk) as (r & s' & Hr & Hs' & Hcase); [lia|lia|intros j Hj; lia|].
  exists r, s'. split; [done|]. split; [done|]. destruct r as [[e ofs]|].
  - destruct Hcase as (j & Hj & Hn & -> & ->). exists j. split_and!; [done..|]. apply (dr_map _ _ HR). by exists j.
  - by apply (dir_rel_none _ _ _ HR).
Qed.

(** The store does not open inode [sec], for want of memory. *)
Definition open_failed (sec : Z) (s s' : S) : Prop :=
  ∃ s1, inodes s1 = inodes s ∧ inode_open sec s1 = Ret (None, s').

(** A write to inode [i] stops early. *)
Definition write_stopped (i : Z) (s s' : S) : Prop :=
  ∃ bs ofs n, inode_write_at i bs ofs s = Ret (n, s') ∧ n < Z.of_nat (length bs).

Lemma dir_lookup_ok s i f M p name :
  dir_at (inodes s) i f M → (∀ sec, M !! name = Some sec → is_Some (inodes s !! sec)) →
  ∃ r s', dir_lookup junk fuel (Dir i p) name s = Ret (r, s') ∧
    match M !! name with
    | None => r = None ∧ inodes s' = inodes s
    | Some sec => (r = None ∧ inodes s' = inodes s ∧ open_failed sec s s') ∨
        (r = Some sec ∧ ∃ g, inodes s !! sec = Some g ∧ inodes s' = <[sec := with_opens (opens g + 1) g]> (inodes s))
    end.
Proof.
  intros Hd Hex. destruct (lookup_ok s i f M p name Hd) as (r & s1 & Hr & Hs1 & Hcase).
  unfold dir_lookup. rewrite (st_bind_ret _ _ _ _ _ Hr). destruct r as [[e ofs]|].
  2: { rewrite Hcase. by eexists _, s1. }
  destruct Hcase as (k & _ & _ & _ & _ & HM). destruct (Hex _ HM) as [g Hg]. rewrite HM.
  destruct (open_ok (ent_sector e) g s1) as (r & s' & Hr' & Ho); [by rewrite Hs1|]. exists r, s'. split; [done|].
  rewrite Hs1 in Ho. destruct Ho as [[-> ?]|[-> ?]]; [left; split_and!; [done..|by exists s1]|]. right. split; [done|]. by exists g.
Qed.

(** A name that [dir_add] accepts. *)
Definition valid_name (name : list Z) : Prop := (0 < length name ≤ 14)%nat.

Lemma dir_add_ok s i f M p name sec :
  dir_at (inodes s) i f M → file_name name → 0 ≤ sec < 2 ^ 32 →
  ∃ b s' bs', dir_add junk fuel (Dir i p) name sec s = Ret (b, s') ∧
    inodes s' = <[i := with_data bs' f]> (inodes s) ∧ (length bs' ≤ length (data f) + 20)%nat ∧
    dir_rel bs' (if b then <[name := sec]> M else M) ∧
    (b = true → valid_name name ∧ M !! name = None) ∧
    (b = false → valid_name name → M !! name = None → ∃ s1, inodes s1 = inodes s ∧ write_stopped i s1 s').
Proof.
  intros Hd Hn Hsec. pose proof Hd as [Hi Ho Hsm Hf HR]. unfold dir_add, valid_name.
  assert (inodes s = <[i := with_data (data f) f]> (inodes s)) as Hsame by (symmetry; apply insert_id; by destruct f).
  destruct (_ || _) eqn:Hbad.
  { exists false, s, (data f). split; [done|]. split; [done|]. split; [lia|]. split; [done|]. split; [done|].
    intros _ Hv. apply orb_true_iff in Hbad as [Hb%bool_decide_eq_true|Hb%Z.ltb_lt]; [destruct name; [cbn in *; lia|done]|unfold NAME_MAX in *; lia]. }
  apply orb_false_iff in Hbad as [Hb1%bool_decide_eq_false Hb2%Z.ltb_ge]. unfold NAME_MAX in Hb2.
  assert (0 < length name ≤ 14)%nat as Hv by (destruct name; [done|cbn in *; lia]).
  destruct (lookup_ok s i f M p name Hd) as (r & s1 & Hr & Hs1 & Hcase). rewrite (st_bind_ret _ _ _ _ _ Hr).
  destruct r as [[e ofs]|].
  { destruct Hcase as (k & _ & _ & _ & _ & HM). exists false, s1, (data f). rewrite Hs1.
    split; [done|]. split; [done|]. split; [lia|]. split; [done|]. split; [done|]. intros _ _. congruence. }
  destruct (free_slot_loop_ok i f p Ho Hsm fuel 0 junk s1) as (e & k & s2 & Hr2 & Hs2 & He & Hk & Hfree); [by rewrite Hs1|done|lia|lia|].
  change (20 * Z.of_nat 0) with 0 in Hr2. rewrite (st_bind_ret _ _ _ _ _ Hr2). cbn [fst snd].
  destruct (new_entry_ok name sec e He Hn ltac:(lia) Hsec) as (Hl & Hu & Hnm & Hse). set (e' := set_sector _ _) in *.
  destruct (write_ok i f e' (20 * Z.of_nat k) s2) as (n & s3 & Hr3 & Hn3 & Hs3); [by rewrite Hs2, Hs1|done|lia|].
  rewrite (st_bind_ret _ _ _ _ _ Hr3). rewrite Hs2, Hs1 in Hs3. eexists _, s3, _. split; [reflexivity|]. split; [exact Hs3|].
  assert (length (take (Z.to_nat n) e') = Z.to_nat n) as Hlw by (rewrite length_take; lia).
  pose proof (overwrite_length (20 * Z.of_nat k) (take (Z.to_nat n) e') (data f)) as Hol. split; [lia|].
  split; [|split; [done|intros ?%Z.eqb_neq _ _; exists s2; split; [congruence|]; eexists _, _, n; split; [exact Hr3|];
    unfold sizeof_dir_entry in *; lia]].
  destruct (Z.eqb_spec n sizeof_dir_entry) as [->|Hne]; unfold sizeof_dir_entry in *.
  - rewrite take_ge by lia. pose proof (dir_rel_add (data f) M e' k HR Hk Hfree Hl Hu) as Hadd.
    rewrite Hnm, Hse in Hadd. by apply Hadd.
  - apply dir_rel_short; [done|done|done|lia].
Qed.

(** Why [dir_remove] does not remove the name of inode [sec]. *)
Definition remove_failed (i sec : Z) (s s' : S) : Prop :=
  open_failed sec s s' ∨
  ∃ g s1 s2, inodes s !! sec = Some g ∧ inodes s1 = <[sec := with_opens (opens g + 1) g]> (inodes s) ∧
    write_stopped i s1 s2 ∧ inode_close sec s2 = Ret (tt, s').

Lemma dir_remove_ok s i f M p name :
  dir_at (inodes s) i f M → (∀ sec, M !! name = Some sec → sec ≠ i ∧ ∃ g, inodes s !! sec = Some g ∧ settled g) →
  ∃ b s', dir_remove junk fuel (Dir i p) name s = Ret (b, s') ∧
    if b : bool then
      ∃ sec g bs', M !! name = Some sec ∧ inodes s !! sec = Some g ∧ length bs' = length (data f) ∧
        dir_rel bs' (delete name M) ∧
        inodes s' = closed sec (with_removed (with_opens (opens g + 1) g)) (<[i := with_data bs' f]> (inodes s))
    else inodes s' = inodes s ∧ ∀ sec, M !! name = Some sec → remove_failed i sec s s'.
Proof.
  intros Hd Hex. pose proof Hd as [Hi Ho Hsm Hf HR]. unfold dir_remove.
  destruct (lookup_ok s i f M p name Hd) as (r & s1 & Hr & Hs1 & Hcase). rewrite (st_bind_ret _ _ _ _ _ Hr).
  destruct r as [[e ofs]|]; [|exists false, s1; split; [done|]; split; [done|]; congruence].
  destruct Hcase as (k & Hk & Hnm & -> & -> & HM). set (sec := ent_sector _) in *. destruct (Hex _ HM) as (Hne & g & Hg & Hset).
  destruct (open_ok sec g s1) as (r & s2 & Hr2 & Ho2); [by rewrite Hs1|]. rewrite (st_bind_ret _ _ _ _ _ Hr2).
  rewrite Hs1 in Ho2. destruct Ho2 as [[-> Hs2]|[-> Hs2]].
  { exists false, s2. split; [done|]. split; [done|]. intros sec'. rewrite HM. intros [= <-]. left. by exists s1. }
  pose proof Hk as [Hlen _].
  set (g1 := with_opens (opens g + 1) g) in *. assert (inodes s2 !! i = Some f) as Hi2 by (rewrite Hs2; by rewrite lookup_insert_ne).
  destruct (unused_entry_ok _ (slot_length _ _ Hlen)) as [Hel Heu].
  destruct (write_ok i f (set_in_use false (slot (data f) k)) (20 * Z.of_nat k) s2 Hi2 Ho) as (n & s3 & Hr3 & Hn & Hs3); [lia|].
  rewrite (st_bind_ret _ _ _ _ _ Hr3).
  assert (∀ f', (<[i := f']> (inodes s2)) !! sec = Some g1) as Hsec.
  { intros f'. rewrite lookup_insert_ne, Hs2 by done. apply lookup_insert_eq. }
  assert (0 < opens g1) as Hog by (destruct Hset; cbn; lia).
  destruct (Z.eqb_spec n sizeof_dir_entry) as [->|Hn20]; cbn [negb]; unfold sizeof_dir_entry in *.
  - rewrite take_ge in Hs3 by lia. set (bs' := overwrite _ _ _) in *.
    destruct (remove_ok sec g1 s3) as (s4 & Hr4 & Hs4); [by rewrite Hs3|done|]. rewrite (st_bind_ret _ _ _ _ _ Hr4).
    destruct (close_ok sec (with_removed g1) s4) as (s5 & Hr5 & Hs5); [rewrite Hs4; apply lookup_insert_eq|done|].
    rewrite (st_bind_ret _ _ _ _ _ Hr5). exists true, s5. split; [done|]. exists sec, g, bs'. split; [done|]. split; [done|].
    split; [pose proof (overwrite_length (20 * Z.of_nat k) (set_in_use false (slot (data f) k)) (data f)); unfold bs'; lia|].
    split; [rewrite <-Hnm; by apply dir_rel_remove|].
    rewrite Hs5, Hs4, closed_insert, Hs3, Hs2, insert_insert_ne, closed_insert by done. done.
  - rewrite unused_entry_short in Hs3 by (done || lia).
    assert (inodes s3 = inodes s2) as Hs32 by (rewrite Hs3; apply insert_id; rewrite Hi2; by destruct f).
    destruct (close_ok sec g1 s3) as (s4 & Hr4 & Hs4); [by rewrite Hs3|done|]. rewrite (st_bind_ret _ _ _ _ _ Hr4).
    exists false, s4. split; [done|]. split; [rewrite Hs4, Hs32, Hs2; by apply closed_again|].
    intros sec'. rewrite HM. intros [= <-]. right. exists g, s2, s3. split; [done|]. split; [done|].
    split; [|done]. eexists _, _, n. split; [exact Hr3|lia].
Qed.

(** ** Enumerating *)

Section reading.
Context (i : Z) (f : ifile) (M : gmap (list Z) Z).
Hypothesis Hopen : 0 < opens f.
Hypothesis Hsmall : dir_small (data f).
Hypothesis Hrel : dir_rel (data f) M.

(** The number of slots. *)
Definition slots : nat := (length (data f) / 20)%nat.

Lemma slots_spec k : (20 * k + 20 ≤ length (data f))%nat ↔ (k < slots)%nat.
Proof.
  clear. unfold slots. pose proof (Nat.div_mod (length (data f)) 20). pose proof (Nat.mod_upper_bound (length (data f)) 20). lia.
Qed.

Lemma readdir_loop_ok n : ∀ k e s,
  inodes s !! i = Some f → length e = 20%nat → (slots < k + n)%nat → (k ≤ slots)%nat →
  ∃ r j s', readdir_loop n (Dir i (20 * Z.of_nat k)) e s = Ret ((r, Dir i (20 * Z.of_nat j)), s') ∧ inodes s' = inodes s ∧
    (k ≤ j ≤ slots)%nat ∧
    match r with
    | Some nm => (k < j)%nat ∧ names_from (data f) k (slots - k) = nm :: names_from (data f) j (slots - j)
    | None => names_from (data f) k (slots - k) = []
    end.
Proof.
  unfold dir_small in Hsmall. induction n as [|n IH]; intros k e s Hi He Hn Hk; [lia|].
  cbn [readdir_loop dir_inode dir_pos]. destruct (read_slot i f Hopen s k Hi) as (s1 & Hr & Hs1).
  rewrite (st_bind_ret _ _ _ _ _ Hr). rewrite slot_full. case_bool_decide as Hfull; rewrite slots_spec in Hfull.
  2: { eexists None, k, s1. split; [reflexivity|]. split; [done|]. split; [lia|]. by replace (slots - k)%nat with 0%nat by lia. }
  pose proof (proj2 (slots_spec k) Hfull) as Hlen. rewrite ent_read_full by (done || by apply slot_length).
  rewrite s32_id by (unfold sizeof_dir_entry; lia).
  replace (20 * Z.of_nat k + sizeof_dir_entry) with (20 * Z.of_nat (k + 1)) by (unfold sizeof_dir_entry; lia).
  replace (slots - k)%nat with (Datatypes.S (slots - (k + 1))) by lia. cbn [names_from].
  destruct (ent_in_use (slot (data f) k)) eqn:Hu.
  - eexists _, (k + 1)%nat, s1. split; [reflexivity|]. split; [done|]. split; [lia|]. split; [lia|].
    rewrite take_ge; [done|]. apply (dr_name _ _ Hrel). by split.
  - destruct (IH (k + 1)%nat (slot (data f) k) s1) as (r & j & s2 & Hr2 & Hs2 & Hj & Hcase); [by rewrite Hs1|by apply slot_length|lia|lia|].
    exists r, j, s2. split; [done|]. split; [by rewrite Hs2|]. split; [lia|].
    destruct r; [destruct Hcase; split; [lia|done]|done].
Qed.

Lemma ls_loop_ok n : ∀ k s,
  inodes s !! i = Some f → (slots < fuel)%nat → (slots < k + n)%nat → (k ≤ slots)%nat →
  ∃ j s', ls_loop junk fuel n (Dir i (20 * Z.of_nat k)) s = Ret ((names_from (data f) k (slots - k), Dir i (20 * Z.of_nat j)), s') ∧
    inodes s' = inodes s.
Proof.
  induction n as [|n IH]; intros k s Hi Hf Hn Hk; [lia|]. cbn [ls_loop]. unfold dir_readdir.
  destruct (readdir_loop_ok fuel k junk s Hi Hjunk) as (r & j & s1 & Hr & Hs1 & Hj & Hcase); [lia|done|].
  rewrite (st_bind_ret _ _ _ _ _ Hr). destruct r as [nm|]; [|rewrite Hcase; by exists j, s1].
  destruct Hcase as [Hlt Hcase]. destruct (IH j s1) as (l & s2 & Hr2 & Hs2); [by rewrite Hs1|done|lia|lia|].
  rewrite (st_bind_ret _ _ _ _ _ Hr2), Hcase. exists l, s2. split; [done|]. by rewrite Hs2.
Qed.
End reading.

(** ** The properties *)

(** C15: a directory implements a map from names to inodes.  [dir_lookup] opens
    the inode of the name if there is one, unless the store cannot open it.
    [dir_add] adds the name if it is valid and new, unless the write of the
    entry stops early, and otherwise leaves the map as it was; [dir_remove]
    removes the name if it is there and marks its inode for removal, unless the
    store cannot open the inode or the write of the entry stops early, and
    otherwise changes no inode at all.  When a write stops early, at any byte,
    the map is what it was.  The name may be that of any file of the store
    but the directory itself. *)
Theorem directory_refines_map s i f M p name sec :
  dir_at (inodes s) i f M → file_name name → 0 ≤ sec < 2 ^ 32 →
  (∀ sec, M !! name = Some sec → sec ≠ i ∧ ∃ g, inodes s !! sec = Some g ∧ settled g) →
  (∃ r s', dir_lookup junk fuel (Dir i p) name s = Ret (r, s') ∧
    match M !! name with
    | None => r = None ∧ inodes s' = inodes s
    | Some sec => (r = None ∧ inodes s' = inodes s ∧ open_failed sec s s') ∨
        (r = Some sec ∧ ∃ g, inodes s !! sec = Some g ∧ inodes s' = <[sec := with_opens (opens g + 1) g]> (inodes s))
    end) ∧
  (∃ b s' bs', dir_add junk fuel (Dir i p) name sec s = Ret (b, s') ∧
    inodes s' = <[i := with_data bs' f]> (inodes s) ∧ (length bs' ≤ length (data f) + 20)%nat ∧
    dir_rel bs' (if b then <[name := sec]> M else M) ∧
    (b = true → valid_name name ∧ M !! name = None) ∧
    (b = false → valid_name name → M !! name = None → ∃ s1, inodes s1 = inodes s ∧ write_stopped i s1 s')) ∧
  (∃ b s', dir_remove junk fuel (Dir i p) name s = Ret (b, s') ∧
    if b : bool then
      ∃ sec g bs', M !! name = Some sec ∧ inodes s !! sec = Some g ∧ length bs' = length (data f) ∧
        dir_rel bs' (delete name M) ∧
        inodes s' = closed sec (with_removed (with_opens (opens g + 1) g)) (<[i := with_data bs' f]> (inodes s))
    else inodes s' = inodes s ∧ ∀ sec, M !! name = Some sec → remove_failed i sec s s').
Proof.
  intros Hd Hn Hs Hex. split; [|split].
  - apply (dir_lookup_ok s i f); [done|]. intros sec' (_ & g & Hg & _)%Hex. by exists g.
  - by apply dir_add_ok.
  - by apply (dir_remove_ok s i f).
Qed.

(** [fsutil_ls] lists every name in the root directory exactly once and
    nothing else, and leaves the root directory as often open as it was. *)
Theorem fsutil_ls_complete s f M :
  inodes s !! ROOT_DIR_INODE = Some f → settled f → dir_small (data f) → (length (data f) < 20 * fuel)%nat →
  dir_rel (data f) M →
  fsutil_ls junk fuel true s = Panic ∨
  ∃ names s', fsutil_ls junk fuel true s = Ret (names, s') ∧ inodes s' = inodes s ∧ NoDup names ∧
    ∀ nm, nm ∈ names ↔ is_Some (M !! nm).
Proof.
  intros Hi Hset Hsm Hf HR. unfold fsutil_ls, dir_open_root.
  destruct (open_ok _ _ _ Hi) as (r & s1 & Hr & Hcase). set (f1 := with_opens (opens f + 1) f) in *.
  destruct Hcase as [[-> Hs1]|[-> Hs1]].
  { left. erewrite st_bind_ret by (rewrite (st_bind_ret _ _ _ _ _ Hr); reflexivity). done. }
  right. erewrite st_bind_ret by (rewrite (st_bind_ret _ _ _ _ _ Hr); reflexivity).
  assert (0 < opens f1) as Ho by (destruct Hset; cbn; lia).
  assert (slots f1 < fuel)%nat as Hsl.
  { unfold slots. change (data f1) with (data f). pose proof (Nat.div_mod (length (data f)) 20). lia. }
  destruct (ls_loop_ok ROOT_DIR_INODE f1 M Ho Hsm HR fuel 0 s1) as (j & s2 & Hr2 & Hs2); [rewrite Hs1; apply lookup_insert_eq|done|lia|lia|].
  rewrite Nat.sub_0_r in Hr2. change (20 * Z.of_nat 0) with 0 in Hr2. rewrite (st_bind_ret _ _ _ _ _ Hr2). cbn [dir_close dir_inode].
  destruct (close_ok ROOT_DIR_INODE f1 s2) as (s3 & Hr3 & Hs3); [rewrite Hs2, Hs1; apply lookup_insert_eq|done|].
  rewrite (st_bind_ret _ _ _ _ _ Hr3). eexists _, s3. split; [reflexivity|]. split; [rewrite Hs3, Hs2, Hs1; by apply closed_again|].
  assert (20 * (0 + slots f1) ≤ length (data f))%nat as Hle.
  { unfold slots. change (data f1) with (data f). pose proof (Nat.div_mod (length (data f)) 20). lia. }
  split; [by eapply names_from_NoDup|]. intros nm. rewrite names_from_spec by done. split.
  - intros (k & _ & Hu & Hn). exists (ent_sector (slot (data f) k)). apply (dr_map _ _ HR). by exists k.
  - intros [sec (k & Hu & Hn & _)%(dr_map _ _ HR)]. exists k. split; [|done]. destruct Hu as [Hk _].
    split; [lia|]. by apply (slots_spec f1).
Qed.
End operations.

(** A root directory with the entry [a], of a file of three bytes. *)
Definition ex_dir_data : list Z := [7; 0; 0; 0; 97; 0; 0; 0; 0; 0; 0; 0; 0; 0; 0; 0; 0; 0; 0; 1].
Definition ex_store : gmap Z ifile :=
  {[ 1 := IFile ex_dir_data 1 false; 7 := IFile [1; 2; 3] 0 false ]}.

Lemma ex_used k : used_slot ex_dir_data k → k = 0%nat.
Proof. intros [H _]. cbn in H. lia. Qed.

Lemma ex_dir_rel : dir_rel ex_dir_data {[ [97] := 7 ]}.
Proof.
  split.
  - intros k ->%ex_used. cbn. lia.
  - by intros j k ->%ex_used ->%ex_used.
  - intros nm sec. rewrite lookup_singleton_Some. split.
    + intros [<- <-]. exists 0%nat. split; [|done]. split; [cbn; lia|done].
    + intros (k & ->%ex_used & <- & <-). done.
Qed.

Lemma directory_refines_map_witness :
  dir_lookup (replicate 20 0) 5 (Dir 1 0) [97] ex_store = Ret (Some 7, <[7 := IFile [1; 2; 3] 1 false]> ex_store) ∧
  dir_add (replicate 20 0) 5 (Dir 1 0) [98] 9 ex_store =
    Ret (true, <[1 := IFile (ex_dir_data ++ [9; 0; 0; 0; 98; 0; 0; 0; 0; 0; 0; 0; 0; 0; 0; 0; 0; 0; 0; 1]) 1 false]> ex_store) ∧
  ∃ b s', dir_remove (replicate 20 0) 5 (Dir 1 0) [97] ex_store = Ret (b, s') ∧ b = true ∧ s' !! 7 = None ∧
    ∃ bs, s' !! 1 = Some (IFile bs 1 false) ∧ dir_rel bs ∅.
Proof.
  assert (dir_at 5 (inodes ex_store) 1 (IFile ex_dir_data 1 false) {[ [97] := 7 ]}) as Hd.
  { split; [done|done|done|cbn; lia|exact ex_dir_rel]. }
  destruct (directory_refines_map (S := gmap Z ifile) (replicate 20 0) 5 eq_refl ex_store 1 (IFile ex_dir_data 1 false) {[ [97] := 7 ]} 0 [97] 9 Hd)
    as (_ & _ & b & s' & Hr & Hcase); [by repeat constructor|done| |].
  { intros sec [_ <-]%lookup_singleton_Some. split; [done|]. exists (IFile [1; 2; 3] 0 false). done. }
  split; [vm_compute; reflexivity|]. split; [vm_compute; reflexivity|]. exists b, s'. split; [exact Hr|].
  assert (match dir_remove (replicate 20 0) 5 (Dir 1 0) [97] ex_store with Ret (b, _) => b | _ => false end = true) as Hb
    by (vm_compute; reflexivity).
  rewrite Hr in Hb. subst b. split; [reflexivity|]. destruct Hcase as (sec & g & bs & HM & Hg & _ & Hrel & Hx).
  apply lookup_singleton_Some in HM as [_ <-]. injection Hg as <-. cbn in Hx. subst s'. split; [reflexivity|].
  exists bs. split; [reflexivity|]. rewrite delete_singleton_eq in Hrel. exact Hrel.
Defined.

Lemma fsutil_ls_complete_witness :
  fsutil_ls (replicate 20 0) 5 true ex_store = Ret ([[97]], ex_store) ∧
  (fsutil_ls (replicate 20 0) 5 true ex_store = Panic ∨
   ∃ names s', fsutil_ls (replicate 20 0) 5 true ex_store = Ret (names, s') ∧ inodes s' = inodes ex_store ∧ NoDup names ∧
     ∀ nm, nm ∈ names ↔ is_Some (({[ [97] := 7 ]} : gmap (list Z) Z) !! nm)).
Proof.
  split; [vm_compute; reflexivity|].
  apply (fsutil_ls_complete (S := gmap Z ifile) (replicate 20 0) 5 eq_refl ex_store (IFile ex_dir_data 1 false));
    [done|done|done|cbn; lia|exact ex_dir_rel].
Defined.
