(* ===== verification/FreeMap.v ===== *)
(** * Free maps ([filesys/free-map.c])

    A free map is a bitmap, one bit per sector, that is kept in memory and in a
    file.  It runs over [Bitmap] and any [InodeStore]; the lock around the bitmap
    is part of the model.  The theorems show that allocating and releasing do
    to the set of used sectors what they should, also when the file cannot be
    written, and that a map that was written is the map that is read back. *)

From stdpp Require Import functions.
From stdpp Require Import base tactics list numbers option sets gmap fin_maps.
From Stdlib Require Import ZArith Lia.
From S2P Require Import Prelude Bitmap InodeStore.

Record free_map : Type := FreeMap {
  free_map_file : option Z;
  free_sectors : bitmap;
  reserved_inode : Z;
  bitmap_lock : bool
}.

Definition set_file (f : option Z) (m : free_map) : free_map :=
  FreeMap f (free_sectors m) (reserved_inode m) (bitmap_lock m).
Definition set_sectors (b : bitmap) (m : free_map) : free_map :=
  FreeMap (free_map_file m) b (reserved_inode m) (bitmap_lock m).
Definition set_lock (l : bool) (m : free_map) : free_map :=
  FreeMap (free_map_file m) (free_sectors m) (reserved_inode m) l.

Section free_map.
Context {S : Type} `{!InodeStore S}.

(** [lock_acquire] and [lock_release] of the map's lock. *)
Definition acquire (m : free_map) : st S free_map :=
  assertS (negb (bitmap_lock m));;
  mret (set_lock true m).

Definition release (m : free_map) : st S free_map :=
  assertS (bitmap_lock m);;
  mret (set_lock false m).

(** [bitmap_write] and [bitmap_read] on the file of inode [i]. *)
Definition write_map (b : bitmap) (i : Z) : st S bool :=
  let '(bs, _) := bitmap_write b 0 in
  n ← inode_write_at i bs 0;
  mret (bitmap_write b n).2.

Definition read_map (b : bitmap) (i : Z) : st S (bool * bitmap) :=
  if 0 <? bit_cnt b then
    bs ← inode_read_at i (byte_cnt (bit_cnt b)) 0;
    liftS (bitmap_read b bs)
  else liftS (bitmap_read b []).

(** [b_block] and [bits_block] are what [malloc] returns to [bitmap_create]. *)
Definition free_map_init (b_block : bool) (bits_block : option (list Z)) (size inode : Z) : st S free_map :=
  b ← liftS (bitmap_create b_block bits_block size);
  match b with
  | None => panicS
  | Some b => mret (FreeMap None b inode false)
  end.

Definition free_map_allocate (m : free_map) (start cnt : Z) : st S (option Z * free_map) :=
  m ← acquire m;
  '(sector, b) ← liftS (bitmap_scan_and_flip (free_sectors m) start cnt false);
  m ← release (set_sectors b m);
  '(sector, m) ←
    match free_map_file m with
    | Some f =>
        if negb (sector =? BITMAP_ERROR) then
          ok ← write_map (free_sectors m) f;
          if (ok : bool) then mret (sector, m)
          else
            m ← acquire m;
            b ← liftS (bitmap_set_multiple (free_sectors m) sector cnt false);
            m ← release (set_sectors b m);
            mret (BITMAP_ERROR, m)
        else mret (sector, m)
    | None => mret (sector, m)
    end;
  mret (if negb (sector =? BITMAP_ERROR) then Some sector else None, m).

Definition free_map_set_multiple (m : free_map) (start cnt : Z) : st S free_map :=
  m ← acquire m;
  b ← liftS (bitmap_set_multiple (free_sectors m) start cnt true);
  m ← release (set_sectors b m);
  match free_map_file m with
  | Some f =>
      ok ← write_map (free_sectors m) f;
      assertS ok;;
      mret m
  | None => panicS
  end.

Definition free_map_release (m : free_map) (sector cnt : Z) : st S free_map :=
  m ← acquire m;
  all ← liftS (bitmap_all (free_sectors m) sector cnt);
  assertS all;;
  b ← liftS (bitmap_set_multiple (free_sectors m) sector cnt false);
  m ← release (set_sectors b m);
  match free_map_file m with
  | Some f => write_map (free_sectors m) f;; mret m
  | None => panicS
  end.

(** [file_open (inode_open (free_map->reserved_inode))]; [mem] tells whether
    [file_open] gets memory. *)
Definition open_map (mem : bool) (m : free_map) : st S free_map :=
  i ← inode_open (reserved_inode m);
  match i with
  | Some i => if mem then mret (set_file (Some i) m) else inode_close i;; panicS
  | None => panicS
  end.

Definition free_map_open (mem : bool) (m : free_map) : st S free_map :=
  m ← open_map mem m;
  match free_map_file m with
  | Some f =>
      '(ok, b) ← read_map (free_sectors m) f;
      if (ok : bool) then mret (set_sectors b m) else panicS
  | None => panicS
  end.

Definition free_map_close (m : free_map) : st S free_map :=
  match free_map_file m with
  | Some f => inode_close f;; mret m
  | None => mret m
  end.

(** The size of the new file is that of the pointer [free_map->free_sectors]. *)
Definition free_map_create (mem : bool) (m : free_map) : st S free_map :=
  ok ← inode_create (reserved_inode m) 4 false;
  if (ok : bool) then
    m ← open_map mem m;
    match free_map_file m with
    | Some f =>
        ok ← write_map (free_sectors m) f;
        if (ok : bool) then mret m else panicS
    | None => panicS
    end
  else panicS.
End free_map.

(** ** The map and its file *)

Section spec.
Context {S : Type} `{!InodeStore S}.
Implicit Types s : S.

(** A free map whose lock is free and whose file is open. *)
Record map_ok (V : gmap Z ifile) (m : free_map) (i : Z) (f : ifile) : Prop := MapOk {
  mo_wf : wf (free_sectors m);
  mo_lock : bitmap_lock m = false;
  mo_file : free_map_file m = Some i;
  mo_inode : V !! i = Some f;
  mo_open : 0 < opens f
}.

(** The file begins with the bytes of the map. *)
Definition stored (b : bitmap) (bs : list Z) : Prop := take (length (bits_bytes (bits b))) bs = bits_bytes (bits b).

Lemma bitmap_bytes b n : wf b → bitmap_write b n = (bits_bytes (bits b), n =? byte_cnt (bit_cnt b)).
Proof.
  intros Hw. unfold bitmap_write. f_equal. apply take_ge. rewrite byte_cnt_eq, bits_bytes_length by done. lia.
Qed.

Lemma bytes_cnt b : wf b → byte_cnt (bit_cnt b) = Z.of_nat (length (bits_bytes (bits b))).
Proof. intros Hw. rewrite byte_cnt_eq, bits_bytes_length by done. lia. Qed.

Lemma write_map_ok s b i f :
  wf b → inodes s !! i = Some f → 0 < opens f →
  ∃ ok s' bs, write_map b i s = Ret (ok, s') ∧ inodes s' = <[i := with_data bs f]> (inodes s) ∧ (ok = true → stored b bs) ∧
    (ok = false → ∃ n s', inode_write_at i (bits_bytes (bits b)) 0 s = Ret (n, s') ∧ n < Z.of_nat (length (bits_bytes (bits b)))).
Proof.
  intros Hw Hi Ho. unfold write_map. rewrite bitmap_bytes by done.
  destruct (write_ok i f (bits_bytes (bits b)) 0 s Hi Ho) as (n & s' & Hr & Hn & Hs); [lia|].
  rewrite (st_bind_ret _ _ _ _ _ Hr), bitmap_bytes by done. cbn [snd]. eexists _, s', _. split; [reflexivity|]. split; [exact Hs|].
  rewrite bytes_cnt by done. split.
  - intros ->%Z.eqb_eq. unfold stored, overwrite. rewrite Nat2Z.id, (take_ge (bits_bytes _)) by done.
    change (take (Z.to_nat 0) (data f)) with (@nil Z). cbn [app]. apply take_app_length.
  - intros Hne%Z.eqb_neq. exists n, s'. split; [done|]. lia.
Qed.

(** What an operation does to the bits: those of a range become [v]. *)
Definition bits_set (b b' : bitmap) (start cnt : Z) (v : bool) : Prop :=
  wf b' ∧ bit_cnt b' = bit_cnt b ∧ ∀ j, 0 ≤ j → bit b' j = if in_range start cnt j then v else bit b j.

Definition bits_same (b b' : bitmap) : Prop := wf b' ∧ bit_cnt b' = bit_cnt b ∧ ∀ j, 0 ≤ j → bit b' j = bit b j.

(** Setting a free range and clearing it again. *)
Lemma bits_set_clear b b' b'' start cnt :
  bits_set b b' start cnt true → bits_set b' b'' start cnt false → group_is b start cnt false → bits_same b b''.
Proof.
  intros (H1 & H2 & H3) (H4 & H5 & H6) Hg. split; [done|]. split; [by rewrite H5|]. intros j Hj. rewrite H6, H3 by done.
  unfold in_range. destruct (Z.leb_spec start j), (Z.ltb_spec j (start + cnt)); cbn; try done. symmetry. apply Hg. lia.
Qed.

Lemma lock_pass (m : free_map) s : bitmap_lock m = false → acquire m s = Ret (set_lock true m, s).
Proof. intros Hl. unfold acquire. by rewrite Hl. Qed.

Lemma unlock_pass (m : free_map) s : bitmap_lock m = true → release m s = Ret (set_lock false m, s).
Proof. intros Hl. unfold release. by rewrite Hl. Qed.

Lemma allocate_ok s m i f start cnt :
  map_ok (inodes s) m i f → 0 ≤ start ≤ bit_cnt (free_sectors m) → 0 ≤ cnt →
  ∃ r m' s' bs, free_map_allocate m start cnt s = Ret ((r, m'), s') ∧
    inodes s' = <[i := with_data bs f]> (inodes s) ∧ map_ok (inodes s') m' i (with_data bs f) ∧
    reserved_inode m' = reserved_inode m ∧
    match r with
    | Some sec => start ≤ sec ∧ sec + cnt ≤ bit_cnt (free_sectors m) ∧ group_is (free_sectors m) sec cnt false ∧
        bits_set (free_sectors m) (free_sectors m') sec cnt true ∧ stored (free_sectors m') bs
    | None => bits_same (free_sectors m) (free_sectors m') ∧
        ((∀ j, start ≤ j → j + cnt ≤ bit_cnt (free_sectors m) → ¬ group_is (free_sectors m) j cnt false) ∨
         ∃ ws n s', inode_write_at i ws 0 s = Ret (n, s') ∧ n < Z.of_nat (length ws))
    end.
Proof.
  intros [Hw Hl Hf Hi Ho] Hst Hc. unfold free_map_allocate. rewrite (st_bind_ret _ _ _ _ _ (lock_pass m s Hl)).
  change (free_sectors (set_lock true m)) with (free_sectors m).
  destruct (bitmap_scan_and_flip_ok _ start cnt false Hw Hst Hc) as (sec & b & Hr & Hres & Hwb & Hcb & Hb).
  rewrite (liftS_bind_ret _ _ _ _ Hr). erewrite st_bind_ret by (by apply unlock_pass). cbn [free_map_file set_lock set_sectors free_sectors].
  rewrite Hf. pose proof (wf_cnt _ Hw).
  assert (inodes s = <[i := with_data (data f) f]> (inodes s)) as Hsame by (symmetry; apply insert_id; by destruct f).
  destruct (Z.eqb_spec sec BITMAP_ERROR) as [->|Hne]; cbn [negb andb] in Hb |- *.
  { erewrite st_bind_ret by reflexivity. cbn [negb Z.eqb]. rewrite Z.eqb_refl. eexists None, _, s, (data f).
    split; [reflexivity|]. split; [done|]. split; [split; [done|done|done|rewrite Hi; by destruct f|done]|]. split; [done|].
    split; [by split_and!|]. left. destruct Hres as [(? & ? & _)|[_ Hnone]]; [unfold BITMAP_ERROR, SIZE_MAX in *; lia|done]. }
  destruct Hres as [(Hlo & Hhi & Hg & _)|[? _]]; [|done].
  destruct (write_map_ok s b i f Hwb Hi Ho) as (ok & s1 & bs & Hr1 & Hs1 & Hst1 & Hfail).
  destruct ok.
  - erewrite st_bind_ret; [|rewrite (st_bind_ret _ _ _ _ _ Hr1); reflexivity]. cbv beta iota. rewrite (proj2 (Z.eqb_neq _ _) Hne). cbn [negb].
    eexists (Some sec), _, s1, bs. split; [reflexivity|]. split; [done|].
    split; [split; [done|done|done|rewrite Hs1; apply lookup_insert_eq|done]|]. split; [done|]. split_and!; try done. by apply Hst1.
  - destruct (bitmap_set_multiple_ok b sec cnt false) as (b2 & Hr2 & Hw2 & Hc2 & Hb2); [done|lia|lia|lia|].
    erewrite st_bind_ret; [|rewrite (st_bind_ret _ _ _ _ _ Hr1);
      erewrite st_bind_ret by (by apply lock_pass); erewrite liftS_bind_ret by exact Hr2;
      erewrite st_bind_ret by (by apply unlock_pass); reflexivity]. cbv beta iota. rewrite Z.eqb_refl. cbn [negb].
    eexists None, _, s1, bs. split; [reflexivity|]. split; [done|].
    split; [split; [done|done|done|rewrite Hs1; apply lookup_insert_eq|done]|]. split; [done|]. split.
    + eapply (bits_set_clear _ b); [by split_and!|by split_and!|exact Hg].
    + right. destruct (Hfail eq_refl) as (n & s' & ? & ?). by eexists _, n, s'.
Qed.

Lemma bitmap_all_ok b start cnt :
  wf b → 0 ≤ start → 0 ≤ cnt → start + cnt ≤ bit_cnt b →
  ∃ r, bitmap_all b start cnt = Ret r ∧ (r = true ↔ group_is b start cnt true).
Proof.
  intros Hw Hs Hc Hn. destruct (bitmap_contains_ok b start cnt false Hw) as (r & Hr & Hspec); [lia..|].
  exists (negb r). split; [unfold bitmap_all; by rewrite Hr|]. rewrite negb_true_iff. split.
  - intros -> j Hj. destruct (bit b j) eqn:Ej; [done|]. assert (false = true) by (apply Hspec; by exists j). done.
  - intros Hg. destruct r; [|done]. destruct (proj1 Hspec eq_refl) as (j & Hj & Ej). by rewrite (Hg j Hj) in Ej.
Qed.

Lemma release_ok s m i f sec cnt :
  map_ok (inodes s) m i f → 0 ≤ sec → 0 ≤ cnt → sec + cnt ≤ bit_cnt (free_sectors m) →
  (¬ group_is (free_sectors m) sec cnt true ∧ free_map_release m sec cnt s = Panic) ∨
  (group_is (free_sectors m) sec cnt true ∧
   ∃ m' s' bs, free_map_release m sec cnt s = Ret (m', s') ∧ inodes s' = <[i := with_data bs f]> (inodes s) ∧
     map_ok (inodes s') m' i (with_data bs f) ∧ reserved_inode m' = reserved_inode m ∧
     bits_set (free_sectors m) (free_sectors m') sec cnt false ∧
     (stored (free_sectors m') bs ∨ ∃ ws n s', inode_write_at i ws 0 s = Ret (n, s') ∧ n < Z.of_nat (length ws))).
Proof.
  intros [Hw Hl Hf Hi Ho] Hs Hc Hn. unfold free_map_release. rewrite (st_bind_ret _ _ _ _ _ (lock_pass m s Hl)).
  change (free_sectors (set_lock true m)) with (free_sectors m).
  destruct (bitmap_all_ok _ sec cnt Hw Hs Hc Hn) as (r & Hr & Hspec). rewrite (liftS_bind_ret _ _ _ _ Hr).
  destruct r; [right; split; [by apply Hspec|]|left; split; [by intros ?%Hspec|done]]. st_assert.
  destruct (bitmap_set_multiple_ok (free_sectors m) sec cnt false Hw Hs Hc Hn) as (b & Hrb & Hwb & Hcb & Hb).
  rewrite (liftS_bind_ret _ _ _ _ Hrb). erewrite st_bind_ret by (by apply unlock_pass).
  cbn [free_map_file set_lock set_sectors free_sectors]. rewrite Hf.
  destruct (write_map_ok s b i f Hwb Hi Ho) as (ok & s1 & bs & Hr1 & Hs1 & Hst1 & Hfail). rewrite (st_bind_ret _ _ _ _ _ Hr1).
  eexists _, s1, bs. split; [reflexivity|]. split; [done|].
  split; [split; [done|done|done|rewrite Hs1; apply lookup_insert_eq|done]|]. split; [done|]. split; [by split_and!|].
  destruct ok; [left; by apply Hst1|right]. destruct (Hfail eq_refl) as (n & s' & ? & ?). by eexists _, n, s'.
Qed.

(** Reading a map that was stored. *)
Lemma read_map_ok s b b0 i f :
  inodes s !! i = Some f → 0 < opens f → wf b → wf b0 → bit_cnt b0 = bit_cnt b → stored b (data f) →
  ∃ b' s', read_map b0 i s = Ret ((true, b'), s') ∧ inodes s' = inodes s ∧ wf b' ∧ bit_cnt b' = bit_cnt b ∧
    ∀ j, 0 ≤ j < bit_cnt b → bit b' j = bit b j.
Proof.
  intros Hi Ho Hw Hw0 Hc Hst. pose proof (bitmap_file_round_trip b b0 Hw Hw0 Hc) as Hrt. rewrite bitmap_bytes in Hrt by done.
  destruct Hrt as (_ & b' & Hb' & Hb). unfold read_map. rewrite Hc. destruct (Z.ltb_spec 0 (bit_cnt b)).
  - pose proof (wf_cnt _ Hw). destruct (read_ok i f (byte_cnt (bit_cnt b)) 0 s Hi Ho) as (s' & Hr & Hs); [rewrite bytes_cnt by done; lia|lia|].
    rewrite (st_bind_ret _ _ _ _ _ Hr). rewrite bytes_cnt, Nat2Z.id by done. change (drop (Z.to_nat 0) (data f)) with (data f).
    rewrite Hst. unfold liftS. rewrite Hb'. by exists b', s'.
  - exists b', s. assert (bits_bytes (bits b) = []) as Hnil.
    { apply nil_length_inv. pose proof (bytes_cnt _ Hw) as Hbc. pose proof (wf_cnt _ Hw). replace (bit_cnt b) with 0 in Hbc by lia.
      change (byte_cnt 0) with 0 in Hbc. lia. }
    rewrite Hnil in Hb'. unfold liftS. by rewrite Hb'.
Qed.

Lemma free_map_open_ok s b m f :
  inodes s !! reserved_inode m = Some f → 0 ≤ opens f → wf b → wf (free_sectors m) →
  bit_cnt (free_sectors m) = bit_cnt b → stored b (data f) →
  (free_map_open true m s = Panic ∧ ∃ s', inode_open (reserved_inode m) s = Ret (None, s')) ∨
  ∃ m' s', free_map_open true m s = Ret (m', s') ∧ free_map_file m' = Some (reserved_inode m) ∧
    wf (free_sectors m') ∧ bit_cnt (free_sectors m') = bit_cnt b ∧
    ∀ j, 0 ≤ j < bit_cnt b → bit (free_sectors m') j = bit b j.
Proof.
  intros Hi Ho Hw Hwm Hc Hst. unfold free_map_open, open_map. destruct (open_ok _ _ _ Hi) as (r & s1 & Hr & Hcase).
  destruct Hcase as [[-> Hs1]|[-> Hs1]].
  { left. split; [|by exists s1]. apply st_bind_panic. by rewrite (st_bind_ret _ _ _ _ _ Hr). }
  right. erewrite st_bind_ret by (rewrite (st_bind_ret _ _ _ _ _ Hr); reflexivity). cbn [free_map_file set_file free_sectors].
  destruct (read_map_ok s1 b (free_sectors m) (reserved_inode m) (with_opens (opens f + 1) f)) as (b' & s2 & Hr2 & _ & Hb);
    [rewrite Hs1; apply lookup_insert_eq|cbn; lia|done..|].
  rewrite (st_bind_ret _ _ _ _ _ Hr2). eexists _, s2. split; [reflexivity|]. by split.
Qed.

(** ** The properties *)

(** [free_map_allocate] finds consecutive free sectors at or after the
    given one and marks exactly these as used, in memory and in the file; if
    there are none, or if the file cannot be written, it returns false and no
    bit has changed.  [free_map_release] marks exactly the given sectors as free
    and stops the kernel if one of them is free already.  The lock is free
    afterwards. *)
Theorem free_map_correct s m i f start cnt sec :
  map_ok (inodes s) m i f → 0 ≤ start ≤ bit_cnt (free_sectors m) → 0 ≤ cnt →
  0 ≤ sec → sec + cnt ≤ bit_cnt (free_sectors m) →
  (∃ r m' s' bs, free_map_allocate m start cnt s = Ret ((r, m'), s') ∧
    inodes s' = <[i := with_data bs f]> (inodes s) ∧ map_ok (inodes s') m' i (with_data bs f) ∧
    match r with
    | Some sec => start ≤ sec ∧ sec + cnt ≤ bit_cnt (free_sectors m) ∧ group_is (free_sectors m) sec cnt false ∧
        bits_set (free_sectors m) (free_sectors m') sec cnt true ∧ stored (free_sectors m') bs
    | None => bits_same (free_sectors m) (free_sectors m') ∧
        ((∀ j, start ≤ j → j + cnt ≤ bit_cnt (free_sectors m) → ¬ group_is (free_sectors m) j cnt false) ∨
         ∃ ws n s', inode_write_at i ws 0 s = Ret (n, s') ∧ n < Z.of_nat (length ws))
    end) ∧
  ((¬ group_is (free_sectors m) sec cnt true ∧ free_map_release m sec cnt s = Panic) ∨
   (group_is (free_sectors m) sec cnt true ∧
    ∃ m' s' bs, free_map_release m sec cnt s = Ret (m', s') ∧ inodes s' = <[i := with_data bs f]> (inodes s) ∧
      map_ok (inodes s') m' i (with_data bs f) ∧ bits_set (free_sectors m) (free_sectors m') sec cnt false)).
Proof.
  intros Hm Hst Hc Hs Hn. split.
  - destruct (allocate_ok s m i f start cnt Hm Hst Hc) as (r & m' & s' & bs & Hr & Hs' & Hm' & _ & Hcase).
    by exists r, m', s', bs.
  - destruct (release_ok s m i f sec cnt Hm Hs Hc Hn) as [?|(Hg & m' & s' & bs & Hr & Hs' & Hm' & _ & Hb & _)]; [by left|].
    right. split; [done|]. by exists m', s', bs.
Qed.

(** What [free_map_allocate] has handed out survives a restart: a map of
    the same size that [free_map_open] reads from the file afterwards has the
    same bits, or the kernel stops because the inode could not be opened. *)
Theorem free_map_persistent s m f start cnt sec m' s' m0 :
  map_ok (inodes s) m (reserved_inode m) f → 0 ≤ start ≤ bit_cnt (free_sectors m) → 0 ≤ cnt →
  free_map_allocate m start cnt s = Ret ((Some sec, m'), s') →
  reserved_inode m0 = reserved_inode m → wf (free_sectors m0) → bit_cnt (free_sectors m0) = bit_cnt (free_sectors m) →
  (free_map_open true m0 s' = Panic ∧ ∃ s'', inode_open (reserved_inode m0) s' = Ret (None, s'')) ∨
  ∃ m1 s'', free_map_open true m0 s' = Ret (m1, s'') ∧
    ∀ j, 0 ≤ j < bit_cnt (free_sectors m) →
      bit (free_sectors m1) j = if in_range sec cnt j then true else bit (free_sectors m) j.
Proof.
  intros Hm Hst Hc Ha Hres Hw0 Hc0.
  destruct (allocate_ok s m (reserved_inode m) f start cnt Hm Hst Hc) as (r & m2 & s2 & bs & Hr & Hs2 & Hm2 & _ & Hcase).
  rewrite Ha in Hr. injection Hr as <- <- <-. destruct Hcase as (_ & _ & _ & (Hw & Hcnt & Hbits) & Hsto).
  destruct (free_map_open_ok s' (free_sectors m') m0 (with_data bs f)) as [?|(m1 & s'' & Hr1 & _ & _ & _ & Hb)];
    [rewrite Hres; apply Hm2|pose proof (mo_open _ _ _ _ Hm); cbn; lia|done|done|by rewrite Hcnt|done|by left|].
  right. exists m1, s''. split; [done|]. intros j Hj. rewrite Hb by (rewrite Hcnt; lia). apply Hbits. lia.
Qed.
End spec.

(** A map of 40 sectors in an empty file. *)
Definition ex_map : free_map := FreeMap (Some 0) (Bitmap 40 [7; 0]) 0 false.
Definition ex_map_store : gmap Z ifile := {[ 0 := IFile [] 1 false ]}.

Lemma ex_map_ok : map_ok (inodes ex_map_store) ex_map 0 (IFile [] 1 false).
Proof. split; [split; [done|done|repeat constructor; done]|done..]. Qed.

Lemma ex_map_alloc : free_map_allocate ex_map 3 2 ex_map_store =
  Ret ((Some 3, FreeMap (Some 0) (Bitmap 40 [31; 0]) 0 false), {[ 0 := IFile [31; 0; 0; 0; 0; 0; 0; 0] 1 false ]}).
Proof. vm_compute. reflexivity. Qed.

Lemma free_map_correct_witness :
  ∃ r m' s' bs, free_map_allocate ex_map 3 2 ex_map_store = Ret ((r, m'), s') ∧
    inodes s' = <[0 := with_data bs (IFile [] 1 false)]> (inodes ex_map_store) ∧
    map_ok (inodes s') m' 0 (with_data bs (IFile [] 1 false)) ∧ r = Some 3.
Proof.
  destruct (free_map_correct ex_map_store ex_map 0 (IFile [] 1 false) 3 2 0 ex_map_ok)
    as ((r & m' & s' & bs & Hr & Hs & Hm & _) & _); [done|done|done|done|].
  exists r, m', s', bs. split_and!; [done..|]. rewrite ex_map_alloc in Hr. by injection Hr as <-.
Defined.

Lemma free_map_persistent_witness :
  ∃ m' s', free_map_allocate ex_map 3 2 ex_map_store = Ret ((Some 3, m'), s') ∧
  ((free_map_open true (FreeMap None (Bitmap 40 [0; 0]) 0 false) s' = Panic ∧ ∃ s'', inode_open 0 s' = Ret (None, s'')) ∨
   ∃ m1 s'', free_map_open true (FreeMap None (Bitmap 40 [0; 0]) 0 false) s' = Ret (m1, s'') ∧
    ∀ j, 0 ≤ j < 40 → bit (free_sectors m1) j = if in_range 3 2 j then true else bit (Bitmap 40 [7; 0]) j).
Proof.
  eexists _, _. split; [exact ex_map_alloc|].
  apply (free_map_persistent ex_map_store ex_map (IFile [] 1 false) 3 2 3 (FreeMap (Some 0) (Bitmap 40 [31; 0]) 0 false) _
    (FreeMap None (Bitmap 40 [0; 0]) 0 false) ex_map_ok); [done|done|exact ex_map_alloc|done| |done].
  split; [done|done|repeat constructor; done].
Defined.
