(* ===== verification/FilesysSpec.v ===== *)
(** * The file system is a map from names to files

    The invariant that ties the root directory, the map of inode numbers and
    the inodes together, how it survives each change of the store, and the
    refinement by the operations of [Filesys]. *)

From stdpp Require Import functions.
From stdpp Require Import base tactics list numbers option sets gmap fin_maps.
From Stdlib Require Import ZArith Lia.
From S2P Require Import Prelude Bitmap InodeStore Directory DirectorySpec FreeMap Filesys.

(** ** The invariant *)

(** An inode number that is marked as used. *)
Definition marked (m : free_map) (i : Z) : Prop :=
  RESERVED_INODES ≤ i < bit_cnt (free_sectors m) ∧ bit (free_sectors m) i = true.

Record fs_inv (V : gmap Z ifile) (m : free_map) (M : gmap (list Z) Z) : Prop := FsInv {
  fi_root : ∃ f, V !! ROOT_DIR_INODE = Some f ∧ removed f = false ∧ dir_rel (data f) M;
  fi_map : ∃ f, map_ok V m INODE_MAP_INODE f;
  fi_size : RESERVED_INODES ≤ bit_cnt (free_sectors m);
  fi_settled i g : V !! i = Some g → settled g;
  fi_names nm i : M !! nm = Some i → marked m i ∧ ∃ g, V !! i = Some g ∧ removed g = false;
  fi_inj nm nm' i : M !! nm = Some i → M !! nm' = Some i → nm = nm';
  fi_open i g : V !! i = Some g → RESERVED_INODES ≤ i → 0 < opens g → marked m i
}.

Lemma marked_reserved m i : marked m i → i ≠ ROOT_DIR_INODE ∧ i ≠ INODE_MAP_INODE.
Proof. intros [Hi _]. unfold RESERVED_INODES, ROOT_DIR_INODE, INODE_MAP_INODE in *. lia. Qed.

(** Opening and closing. *)
Lemma fs_inv_opens V m M i g n :
  fs_inv V m M → V !! i = Some g → settled (with_opens n g) → (RESERVED_INODES ≤ i → 0 < n → marked m i) →
  (i = INODE_MAP_INODE → 0 < n) → fs_inv (<[i := with_opens n g]> V) m M.
Proof.
  intros [(f & Hf & Hr & Hd) [fm Hfm] Hs Hset Hn Hinj Hop] Hi Hsg Hm Him. split.
  - destruct (decide (i = ROOT_DIR_INODE)) as [->|Hne].
    + exists (with_opens n g). rewrite lookup_insert_eq. rewrite Hf in Hi. by injection Hi as <-.
    + exists f. by rewrite lookup_insert_ne.
  - destruct Hfm as [H1 H2 H3 H4 H5]. destruct (decide (i = INODE_MAP_INODE)) as [->|Hne].
    + exists (with_opens n g). split; [done|done|done|by rewrite lookup_insert_eq|by apply Him].
    + exists fm. split; [done|done|done|by rewrite lookup_insert_ne|done].
  - done.
  - intros j x. rewrite lookup_insert_Some. intros [[<- <-]|[_ Hj]]; [done|by eapply Hset].
  - intros nm j Hnm. destruct (Hn nm j Hnm) as (Hmj & x & Hx & Hxr). split; [done|].
    destruct (decide (i = j)) as [<-|Hne]; [|exists x; by rewrite lookup_insert_ne].
    exists (with_opens n g). rewrite lookup_insert_eq. rewrite Hx in Hi. by injection Hi as <-.
  - done.
  - intros j x. rewrite lookup_insert_Some. intros [[<- <-]|[_ Hj]] Hr3 Ho; [by apply Hm|by eapply Hop].
Qed.

(** Writing to a file that is not part of the file system's own data. *)
Lemma fs_inv_data V m M i g bs :
  fs_inv V m M → V !! i = Some g → RESERVED_INODES ≤ i → fs_inv (<[i := with_data bs g]> V) m M.
Proof.
  intros [(f & Hf & Hr & Hd) [fm [H1 H2 H3 H4 H5]] Hs Hset Hn Hinj Hop] Hi Hres.
  assert (i ≠ ROOT_DIR_INODE ∧ i ≠ INODE_MAP_INODE) as [Hi1 Hi2] by (unfold RESERVED_INODES, ROOT_DIR_INODE, INODE_MAP_INODE in *; lia).
  split; [|..|done|].
  - exists f. by rewrite lookup_insert_ne.
  - exists fm. split; [done|done|done|by rewrite lookup_insert_ne|done].
  - done.
  - intros j x. rewrite lookup_insert_Some. intros [[<- <-]|[_ Hj]]; [exact (Hset i g Hi)|by eapply Hset].
  - intros nm j Hnm. destruct (Hn nm j Hnm) as (Hmj & x & Hx & Hxr). split; [done|].
    destruct (decide (i = j)) as [<-|Hne]; [|exists x; by rewrite lookup_insert_ne].
    exists (with_data bs g). rewrite lookup_insert_eq. rewrite Hx in Hi. by injection Hi as <-.
  - intros j x. rewrite lookup_insert_Some. intros [[<- <-]|[_ Hj]] Hr3 Ho; [by apply (Hop i g)|by eapply Hop].
Qed.

(** Closing an inode that has a name or was removed. *)
Lemma fs_inv_closed V m M i g :
  fs_inv V m M → V !! i = Some g → 0 < opens g → (i = INODE_MAP_INODE → 1 < opens g) → fs_inv (closed i g V) m M.
Proof.
  intros HI Hi Ho Him. unfold closed. destruct (_ && _) eqn:Hc.
  2: { apply fs_inv_opens; [done|done| |intros H3 Hn; by apply (fi_open _ _ _ HI i g)|intros ->; specialize (Him eq_refl); lia].
       split; [cbn; lia|]. cbn. intros Hz. apply andb_false_iff in Hc as [Hc%Z.eqb_neq|Hc]; [lia|done]. }
  apply andb_true_iff in Hc as [Hc%Z.eqb_eq Hrem]. destruct HI as [(f & Hf & Hr & Hd) [fm Hfm] Hs Hset Hn Hinj Hop].
  assert (i ≠ ROOT_DIR_INODE) by (intros ->; rewrite Hf in Hi; injection Hi as <-; congruence).
  assert (i ≠ INODE_MAP_INODE) by (intros ->; specialize (Him eq_refl); lia). split.
  - exists f. by rewrite lookup_delete_ne.
  - destruct Hfm as [H1 H2 H3 H4 H5]. exists fm. split; [done|done|done|by rewrite lookup_delete_ne|done].
  - done.
  - intros j x [_ Hj]%lookup_delete_Some. by eapply Hset.
  - intros nm j Hnm. destruct (Hn nm j Hnm) as (Hmj & x & Hx & Hxr). split; [done|]. exists x.
    rewrite lookup_delete_ne; [done|]. intros ->. rewrite Hx in Hi. injection Hi as <-. congruence.
  - done.
  - intros j x [_ Hj]%lookup_delete_Some. by eapply Hop.
Qed.

(** A new free map and its file, that mark every number in use. *)
Lemma fs_inv_map V m M f m' bs :
  fs_inv V m M → map_ok V m INODE_MAP_INODE f →
  map_ok (<[INODE_MAP_INODE := with_data bs f]> V) m' INODE_MAP_INODE (with_data bs f) →
  bit_cnt (free_sectors m') = bit_cnt (free_sectors m) →
  (∀ nm i, M !! nm = Some i → bit (free_sectors m') i = true) →
  (∀ i g, V !! i = Some g → 0 < opens g → RESERVED_INODES ≤ i → bit (free_sectors m') i = true) →
  fs_inv (<[INODE_MAP_INODE := with_data bs f]> V) m' M.
Proof.
  intros [(r & Hr & Hrr & Hd) _ Hs Hset Hn Hinj Hop] Hok Hok' Hc Hb1 Hb2. pose proof (mo_inode _ _ _ _ Hok) as Hf. split.
  - exists r. by rewrite lookup_insert_ne.
  - by eexists.
  - by rewrite Hc.
  - intros j x. rewrite lookup_insert_Some. intros [[<- <-]|[_ Hj]]; [|by eapply Hset]. by apply (Hset _ _ Hf).
  - intros nm j Hnm. destruct (Hn nm j Hnm) as (Hmj & x & Hx & Hxr).
    split; [split; [rewrite Hc; apply Hmj|by eapply Hb1]|]. exists x.
    rewrite lookup_insert_ne; [done|]. symmetry. by apply (marked_reserved m).
  - done.
  - intros j x. rewrite lookup_insert_Some. intros [[<- _]|[_ Hj]] H3 Ho; [by unfold INODE_MAP_INODE, RESERVED_INODES in H3|].
    split; [rewrite Hc; by eapply Hop|by eapply Hb2].
Qed.

(** Any change of an inode whose number is used by no name. *)
Lemma fs_inv_unnamed V m M i V' :
  fs_inv V m M → RESERVED_INODES ≤ i → (∀ nm, M !! nm ≠ Some i) → delete i V' = delete i V →
  (∀ g, V' !! i = Some g → settled g ∧ (0 < opens g → marked m i)) → fs_inv V' m M.
Proof.
  intros [(r & Hr & Hrr & Hd) [fm Hfm] Hs Hset Hn Hinj Hop] Hi Hfree Hdel Hnew.
  assert (∀ j, j ≠ i → V' !! j = V !! j) as Hsame.
  { intros j Hj. rewrite <-(lookup_delete_ne V' i j), Hdel by done. by rewrite lookup_delete_ne. }
  assert (ROOT_DIR_INODE ≠ i ∧ INODE_MAP_INODE ≠ i) as [Hi1 Hi2].
  { unfold RESERVED_INODES, ROOT_DIR_INODE, INODE_MAP_INODE in *. lia. }
  split.
  - exists r. by rewrite Hsame.
  - destruct Hfm as [H1 H2 H3 H4 H5]. exists fm. split; [done|done|done|by rewrite Hsame|done].
  - done.
  - intros j x Hj. destruct (decide (j = i)) as [->|Hne]; [|rewrite Hsame in Hj by done; by eapply Hset].
    by apply Hnew.
  - intros nm j Hnm. destruct (Hn nm j Hnm) as (Hmj & x & Hx). split; [done|]. exists x. rewrite Hsame; [done|].
    intros ->. by apply (Hfree nm).
  - done.
  - intros j x Hj H3 Ho. destruct (decide (j = i)) as [->|Hne]; [|rewrite Hsame in Hj by done; by eapply Hop].
    by apply (Hnew x).
Qed.

(** New contents of the root directory. *)
Lemma fs_inv_dir V m M M' f bs :
  fs_inv V m M → V !! ROOT_DIR_INODE = Some f → dir_rel bs M' →
  (∀ nm i, M' !! nm = Some i → marked m i ∧ ∃ g, V !! i = Some g ∧ removed g = false) →
  (∀ nm nm' i, M' !! nm = Some i → M' !! nm' = Some i → nm = nm') →
  fs_inv (<[ROOT_DIR_INODE := with_data bs f]> V) m M'.
Proof.
  intros [(r & Hr & Hrr & Hd) [fm Hfm] Hs Hset Hn Hinj Hop] Hf Hd' Hn' Hinj'.
  rewrite Hf in Hr. injection Hr as <-. split.
  - exists (with_data bs f). by rewrite lookup_insert_eq.
  - destruct Hfm as [H1 H2 H3 H4 H5]. exists fm. split; [done|done|done|by rewrite lookup_insert_ne|done].
  - done.
  - intros j x. rewrite lookup_insert_Some. intros [[<- <-]|[_ Hj]]; [|by eapply Hset]. by apply (Hset _ _ Hf).
  - intros nm j Hnm. destruct (Hn' nm j Hnm) as (Hmj & x & Hx). split; [done|]. exists x.
    rewrite lookup_insert_ne; [done|]. symmetry. by apply (marked_reserved m).
  - done.
  - intros j x. rewrite lookup_insert_Some. intros [[<- _]|[_ Hj]] H3 Ho; [by unfold ROOT_DIR_INODE, RESERVED_INODES in H3|].
    by eapply Hop.
Qed.

Lemma empty_dir n : dir_rel (replicate n 0) ∅.
Proof.
  assert (∀ k, ¬ used_slot (replicate n 0) k) as Hno.
  { intros k [Hk Hu]. unfold ent_in_use, ent_byte in Hu. rewrite slot_lookup, lookup_replicate_2 in Hu; [done|rewrite length_replicate in Hk; lia|lia]. }
  split; [intros k Hk; by exfalso; eapply Hno|intros j k Hj; by exfalso; eapply Hno|].
  intros nm sec. rewrite lookup_empty. split; [done|]. intros (k & Hk & _). by exfalso; eapply Hno.
Qed.

(** What the invariant needs when there is no name. *)
Lemma fs_inv_empty V m f :
  V !! ROOT_DIR_INODE = Some (IFile (replicate 320 0) 0 false) → map_ok V m INODE_MAP_INODE f → settled f →
  RESERVED_INODES ≤ bit_cnt (free_sectors m) → (∀ i g, V !! i = Some g → settled g) →
  (∀ i g, RESERVED_INODES ≤ i → V !! i = Some g → opens g = 0) → fs_inv V m ∅.
Proof.
  intros Hr Hm Hs Hsz Hset Hcl. split.
  - eexists. split; [exact Hr|]. split; [done|]. apply empty_dir.
  - by exists f.
  - done.
  - done.
  - intros nm i. by rewrite lookup_empty.
  - intros nm nm' i. by rewrite lookup_empty.
  - intros i g Hg H3 Ho. specialize (Hcl i g H3 Hg). lia.
Qed.

(** What is left of an inode that was removed. *)
Lemma removed_lookup i g (V : gmap Z ifile) :
  closed i (with_removed (with_opens (opens g + 1) g)) V !! i = if opens g =? 0 then None else Some (with_removed g).
Proof.
  unfold closed. cbn. destruct (Z.eqb_spec (opens g + 1) 1), (Z.eqb_spec (opens g) 0); try lia; cbn [andb].
  - apply lookup_delete_eq.
  - rewrite lookup_insert_eq. f_equal. destruct g. unfold with_opens, with_removed. cbn. f_equal. lia.
Qed.

(** ** The operations *)

Section operations.
Context {S : Type} `{!InodeStore S}.
Context (junk : dir_entry) (fuel : nat).
Hypothesis Hjunk : length junk = 20%nat.
Implicit Types s : fs (S := S).

Definition files s : gmap Z ifile := inodes (store s).

Definition fs_rel s (M : gmap (list Z) Z) : Prop := fs_inv (files s) (inode_map s) M.

(** The root directory can be searched and can grow. *)
Definition room (V : gmap Z ifile) : Prop :=
  ∀ f, V !! ROOT_DIR_INODE = Some f → dir_small (data f) ∧ (length (data f) < 20 * fuel)%nat.

(** All files but one are as they were. *)
Definition other_files (V V' : gmap Z ifile) (x : option Z) : Prop :=
  ∀ i, RESERVED_INODES ≤ i → Some i ≠ x → V' !! i = V !! i.

Lemma other_refl V x : other_files V V x.
Proof. done. Qed.

Lemma other_trans V1 V2 V3 x : other_files V1 V2 x → other_files V2 V3 x → other_files V1 V3 x.
Proof. intros H1 H2 i Hi Hx. by rewrite H2, H1. Qed.

Lemma other_insert V i f x : i < RESERVED_INODES → other_files V (<[i := f]> V) x.
Proof. intros Hi j Hj _. rewrite lookup_insert_ne; [done|lia]. Qed.

Lemma on_store_run {A} (m : st S A) s a x :
  m (store s) = Ret (a, x) → on_store m s = Ret (a, Fs x (inode_map s) (fs_map s)).
Proof. intros H. unfold on_store. by rewrite H. Qed.

Lemma on_inode_map_run {A} (g : free_map → st S (A * free_map)) s a m x :
  g (inode_map s) (store s) = Ret ((a, m), x) → on_inode_map g s = Ret (a, Fs x m (fs_map s)).
Proof. intros H. unfold on_inode_map. by rewrite H. Qed.

(** Calls of the store that fail, in a store whose files, [o] excepted, are
    those of [s]: opening inode [i], writing to it, creating it. *)
Definition no_open s (o : option Z) (i : Z) : Prop :=
  ∃ x x', other_files (files s) (inodes x) o ∧ inode_open i x = Ret (None, x').
Definition no_write s (o : option Z) (i : Z) : Prop :=
  ∃ x x', other_files (files s) (inodes x) o ∧ write_stopped i x x'.
Definition no_create s (i size : Z) : Prop :=
  ∃ x x', other_files (files s) (inodes x) (Some i) ∧ inode_create i size false x = Ret (false, x').

(** Why a file cannot be created, opened, removed. *)
Definition create_blocked s (M : gmap (list Z) Z) (mem : bool) (name : list Z) (size : Z) : Prop :=
  mem = false ∨ no_open s None ROOT_DIR_INODE ∨ ¬ valid_name name ∨ is_Some (M !! name) ∨
  (∀ j, RESERVED_INODES ≤ j < bit_cnt (free_sectors (inode_map s)) → marked (inode_map s) j) ∨
  no_write s None INODE_MAP_INODE ∨
  ∃ i, ¬ marked (inode_map s) i ∧ (no_create s i size ∨ no_write s (Some i) ROOT_DIR_INODE).
Definition open_blocked s (M : gmap (list Z) Z) (mem fmem : bool) (name : list Z) : Prop :=
  mem = false ∨ fmem = false ∨ no_open s None ROOT_DIR_INODE ∨ M !! name = None ∨
  ∃ i, M !! name = Some i ∧ no_open s None i.
Definition remove_blocked s (M : gmap (list Z) Z) (mem : bool) (name : list Z) : Prop :=
  mem = false ∨ no_open s None ROOT_DIR_INODE ∨ M !! name = None ∨
  ∃ i, M !! name = Some i ∧ (no_open s None i ∨ no_write s (Some i) ROOT_DIR_INODE).

Lemma other_weaken V V' x : other_files V V' None → other_files V V' x.
Proof. intros H i Hi _. by apply H. Qed.

Lemma create_blocked_at s s1 M name size :
  other_files (files s) (files s1) None → inode_map s1 = inode_map s → create_blocked s1 M true name size →
  ∀ mem, create_blocked s M mem name size.
Proof.
  unfold create_blocked, no_open, no_write, no_create. intros Ho -> H mem.
  pose proof (λ x, other_weaken _ _ x Ho) as Hw.
  assert (∀ V y, other_files (files s1) V y → other_files (files s) V y) as Ht by (intros; by eapply other_trans).
  naive_solver eauto.
Qed.

(** The root directory, open. *)
Definition root_open (V : gmap Z ifile) (d : option dir) : Prop :=
  d = None ∨ (d = Some (Dir ROOT_DIR_INODE 0) ∧ ∃ f, V !! ROOT_DIR_INODE = Some f ∧ 0 < opens f).

Lemma open_root_ok s M mem :
  fs_rel s M → room (files s) →
  ∃ d s', on_store (dir_open_root mem) s = Ret (d, s') ∧ fs_rel s' M ∧ room (files s') ∧ inode_map s' = inode_map s ∧
    other_files (files s) (files s') None ∧ root_open (files s') d ∧
    (d = None → mem = false ∨ no_open s None ROOT_DIR_INODE).
Proof.
  intros HI Hroom. destruct (fi_root _ _ _ HI) as (f & Hf & Hr & Hd). pose proof (fi_settled _ _ _ HI _ _ Hf) as Hset.
  pose proof (proj1 Hset) as Hge.
  unfold dir_open_root. destruct (open_ok _ _ _ Hf) as (r & x & Hr1 & Hcase). set (f1 := with_opens (opens f + 1) f) in *.
  destruct Hcase as [[-> Hx]|[-> Hx]].
  { eexists _, _. split; [apply on_store_run; rewrite (st_bind_ret _ _ _ _ _ Hr1); reflexivity|].
    unfold fs_rel, files in *. cbn [store inode_map]. rewrite Hx. split_and!; [done..|by left|]. intros _. right. by eexists _, x. }
  assert (inodes x !! ROOT_DIR_INODE = Some f1) as Hf1 by (rewrite Hx; apply lookup_insert_eq).
  assert (0 < opens f1) as Ho by (cbn; lia). destruct mem.
  - eexists _, _. split; [apply on_store_run; rewrite (st_bind_ret _ _ _ _ _ Hr1); reflexivity|].
    unfold fs_rel, files in *. cbn [store inode_map]. split_and!; [| |done| |right; split; [done|]; by exists f1|done].
    + rewrite Hx. apply fs_inv_opens; [done|done|split; [cbn; lia|cbn; lia]|done|done].
    + intros f' Hf'. rewrite Hf1 in Hf'. injection Hf' as <-. apply (Hroom f Hf).
    + rewrite Hx. by apply other_insert.
  - destruct (close_ok _ _ _ Hf1 Ho) as (y & Hr2 & Hy). rewrite Hx in Hy. unfold f1 in Hy. rewrite closed_again in Hy by done.
    eexists _, _. split; [apply on_store_run; rewrite (st_bind_ret _ _ _ _ _ Hr1); cbn [dir_open];
      rewrite (st_bind_ret _ _ _ _ _ Hr2); reflexivity|].
    unfold fs_rel, files in *. cbn [store inode_map]. rewrite Hy. split_and!; [done..|by left|]. by left.
Qed.

Lemma close_root_ok s M d :
  fs_rel s M → root_open (files s) d →
  ∃ s', on_store (dir_close d) s = Ret (tt, s') ∧ fs_rel s' M ∧ inode_map s' = inode_map s ∧
    other_files (files s) (files s') None.
Proof.
  intros HI [->|(-> & f & Hf & Ho)].
  { eexists. split; [by apply on_store_run|]. done. }
  destruct (close_ok _ _ _ Hf Ho) as (x & Hr & Hx). eexists. split; [by apply on_store_run|].
  destruct (fi_root _ _ _ HI) as (f' & Hf' & Hrem & _). unfold files in *. rewrite Hf in Hf'. injection Hf' as <-.
  unfold fs_rel, files. cbn [store inode_map]. rewrite Hx. split_and!; [by apply fs_inv_closed|done|].
  unfold closed. rewrite Hrem, andb_false_r. by apply other_insert.
Qed.

(** Marking one more number keeps the invariant. *)
Lemma allocate_number_ok s M :
  fs_rel s M →
  ∃ r s', on_inode_map (λ m, free_map_allocate m RESERVED_INODES 1) s = Ret (r, s') ∧ fs_rel s' M ∧
    other_files (files s) (files s') None ∧ files s' !! ROOT_DIR_INODE = files s !! ROOT_DIR_INODE ∧
    match r with
    | Some i => ¬ marked (inode_map s) i ∧ marked (inode_map s') i ∧ (∀ nm, M !! nm ≠ Some i) ∧
        (∀ g, files s' !! i = Some g → opens g = 0)
    | None => (∀ j, RESERVED_INODES ≤ j < bit_cnt (free_sectors (inode_map s)) → marked (inode_map s) j) ∨
        no_write s None INODE_MAP_INODE
    end.
Proof.
  intros HI. destruct (fi_map _ _ _ HI) as [f Hm]. pose proof (fi_size _ _ _ HI) as Hsz.
  destruct (allocate_ok (store s) (inode_map s) _ f RESERVED_INODES 1 Hm) as (r & m' & x & bs & Hr & Hx & Hm' & _ & Hcase);
    [unfold RESERVED_INODES in *; lia|lia|].
  eexists r, _. split; [apply on_inode_map_run, Hr|]. unfold fs_rel, files in *. cbn [store inode_map] in *. rewrite Hx in *.
  split; [|split; [by apply other_insert|split; [by rewrite lookup_insert_ne|]]].
  - assert (bit_cnt (free_sectors m') = bit_cnt (free_sectors (inode_map s)) ∧
            ∀ j, marked (inode_map s) j → bit (free_sectors m') j = true) as [Hc Hmono].
    { destruct r as [i|]; [destruct Hcase as (_ & _ & _ & (_ & Hc & Hb) & _)|destruct Hcase as [(_ & Hc & Hb) _]]; (split; [done|]);
        intros j [Hj Hbit]; unfold RESERVED_INODES in Hj; rewrite Hb, Hbit by lia; [by destruct (in_range _ _ _)|done]. }
    eapply fs_inv_map; [done..| |].
    + intros nm j Hj. by apply Hmono, (fi_names _ _ _ HI nm j).
    + intros j g Hj Ho H3. by apply Hmono, (fi_open _ _ _ HI j g).
  - destruct r as [i|].
    2: { destruct Hcase as [_ [Hfull|(ws & n & y & Hw & Hn)]]; [left|right; exists (store s), y; split; [done|]; by eexists _, _, n].
         intros j Hj. split; [done|]. apply not_false_iff_true. intros Hfree. apply (Hfull j); [lia|lia|].
         intros k Hk. by replace k with j by lia. }
    destruct Hcase as (Hlo & Hhi & Hg & (Hw & Hc & Hb) & _).
    assert (¬ marked (inode_map s) i) as Hnm by (intros [_ Hbit]; rewrite (Hg i) in Hbit by lia; done). split_and!.
    + done.
    + split; [rewrite Hc; lia|]. unfold RESERVED_INODES in *. rewrite Hb by lia. unfold in_range.
      by rewrite (proj2 (Z.leb_le i i)), (proj2 (Z.ltb_lt i (i + 1))) by lia.
    + intros nm Hj. by apply Hnm, (fi_names _ _ _ HI nm i).
    + intros g. rewrite lookup_insert_ne by (unfold INODE_MAP_INODE, RESERVED_INODES in *; lia). intros Hgi.
      destruct (fi_settled _ _ _ HI _ _ Hgi) as [Hge _]. destruct (decide (0 < opens g)); [|lia].
      exfalso. by apply Hnm, (fi_open _ _ _ HI i g).
Qed.

(** Unmarking a number that neither a name nor an open file has. *)
Lemma release_number_ok s M i :
  fs_rel s M → marked (inode_map s) i → (∀ nm, M !! nm ≠ Some i) → (∀ g, files s !! i = Some g → opens g = 0) →
  ∃ s', on_inode_map (no_result (λ m, free_map_release m i 1)) s = Ret (tt, s') ∧ fs_rel s' M ∧
    other_files (files s) (files s') None ∧ files s' !! ROOT_DIR_INODE = files s !! ROOT_DIR_INODE.
Proof.
  intros HI [Hi Hbit] Hno Hcl. destruct (fi_map _ _ _ HI) as [f Hm]. unfold RESERVED_INODES in Hi.
  assert (group_is (free_sectors (inode_map s)) i 1 true) as Hg.
  { intros j Hj. by replace j with i by lia. }
  destruct (release_ok (store s) (inode_map s) _ f i 1 Hm) as [[Hx _]|(_ & m' & x & bs & Hr & Hx & Hm' & _ & (Hw & Hc & Hb) & _)];
    [lia..|by exfalso|]. eexists. split; [apply on_inode_map_run; unfold no_result; rewrite (st_bind_ret _ _ _ _ _ Hr); reflexivity|].
  unfold fs_rel, files in *. cbn [store inode_map]. rewrite Hx in *.
  split; [|split; [by apply other_insert|by rewrite lookup_insert_ne]].
  assert (∀ j, marked (inode_map s) j → j ≠ i → bit (free_sectors m') j = true) as Hkeep.
  { intros j [Hj Hjb] Hne. unfold RESERVED_INODES in Hj. rewrite Hb, Hjb by lia. unfold in_range.
    destruct (Z.leb_spec i j), (Z.ltb_spec j (i + 1)); done || lia. }
  eapply fs_inv_map; [done..| |].
  - intros nm j Hj. apply Hkeep; [by apply (fi_names _ _ _ HI nm j)|]. intros ->. by apply (Hno nm).
  - intros j g Hj Ho H3. apply Hkeep; [by apply (fi_open _ _ _ HI j g)|]. intros ->. specialize (Hcl g Hj). lia.
Qed.

(** A new name. *)
Lemma fs_inv_named V m M i f bs name :
  fs_inv V m M → V !! ROOT_DIR_INODE = Some f → (∀ nm, M !! nm ≠ Some i) → marked m i →
  (∃ g, V !! i = Some g ∧ removed g = false) → dir_rel bs (<[name := i]> M) →
  fs_inv (<[ROOT_DIR_INODE := with_data bs f]> V) m (<[name := i]> M).
Proof.
  intros HI Hf Hno Hm Hg Hrel. eapply fs_inv_dir; [exact HI|done|done|..].
  - intros nm j. rewrite lookup_insert_Some. intros [[<- <-]|[_ Hj]]; [done|by apply (fi_names _ _ _ HI nm j)].
  - intros nm nm' j. rewrite !lookup_insert_Some. intros [[<- <-]|[Hne Hj]] [[<- Hx]|[Hne' Hj']]; [done| | |by apply (fi_inj _ _ _ HI nm nm' j)].
    + by exfalso; apply (Hno nm').
    + subst j. by exfalso; apply (Hno nm).
Qed.

(** The new file and its entry. *)
Definition created s s' (d : option dir) (M : gmap (list Z) Z) (name : list Z) (size : Z) (b : bool) (x : option Z) : Prop :=
  other_files (files s) (files s') x ∧
  (b = true → ∃ i, x = Some i ∧ valid_name name ∧ M !! name = None ∧ ¬ marked (inode_map s) i ∧ fs_rel s' (<[name := i]> M) ∧
     files s' !! i = Some (IFile (replicate (Z.to_nat size) 0) 0 false)) ∧
  (b = false → fs_rel s' M ∧ (d = None ∨ create_blocked s M true name size) ∧ ∀ i, x = Some i →
     ¬ marked (inode_map s) i ∧ marked (inode_map s') i ∧ (∀ nm, M !! nm ≠ Some i) ∧ ∀ g, files s' !! i = Some g → opens g = 0).

Lemma create_file_ok s M d name size :
  fs_rel s M → room (files s) → root_open (files s) d → file_name name → 0 ≤ size →
  ∃ b x s', create_file junk fuel d name size s = Ret ((b, x), s') ∧ created s s' d M name size b x ∧ root_open (files s') d.
Proof.
  intros HI Hroom Hopen Hn Hsz. unfold create_file. pose proof Hopen as [->|(-> & f & Hf & Ho)].
  { eexists _, _, s. split; [reflexivity|]. split; [split_and!; [done..|]|done]. intros _. split; [done|]. split; [by left|done]. }
  destruct (allocate_number_ok s M HI) as (r & s1 & Hr1 & HI1 & Ho1 & Hroot1 & Hcase). rewrite (st_bind_ret _ _ _ _ _ Hr1).
  rewrite Hf in Hroot1. assert (root_open (files s1) (Some (Dir ROOT_DIR_INODE 0))) as Hopen1 by (right; split; [done|by exists f]).
  destruct r as [i|].
  2: { exists false, None, s1. split; [done|]. split; [split_and!; [done..|]|done]. intros _. split; [done|]. split; [right|done].
       unfold create_blocked. destruct Hcase; tauto. }
  destruct Hcase as (Hnm & Hmk & Hno & Hcl). pose proof (proj1 Hmk) as Hi. destruct (fi_map _ _ _ HI1) as [fm Hfm].
  pose proof (wf_cnt _ (mo_wf _ _ _ _ Hfm)) as Hcnt. unfold RESERVED_INODES in Hi.
  destruct (create_ok i size false (store s1) Hsz Hcl) as (b1 & x1 & Hr2 & Hdel & Hnew & Hdata).
  erewrite st_bind_ret by (apply on_store_run, Hr2). set (s2 := Fs x1 _ _).
  assert (∀ j, j ≠ i → files s2 !! j = files s1 !! j) as Hsame.
  { intros j Hj. unfold files. cbn [store s2]. rewrite <-(lookup_delete_ne (inodes x1) i j), Hdel by done. by rewrite lookup_delete_ne. }
  assert (fs_rel s2 M) as HI2 by (eapply fs_inv_unnamed; [exact HI1|apply Hi|done|done|];
    intros g Hg; destruct (Hnew g Hg) as [Hz Hz']; split; [split; [lia|done]|lia]).
  assert (other_files (files s) (files s2) (Some i)) as Ho2.
  { intros j H3 Hj. rewrite Hsame, Ho1 by congruence. done. }
  assert (files s2 !! ROOT_DIR_INODE = Some f) as Hroot2 by (rewrite Hsame; [done|unfold ROOT_DIR_INODE; lia]).
  assert (∀ g, files s2 !! i = Some g → opens g = 0) as Hcl2 by (intros g Hg; by apply Hnew).
  destruct b1.
  2: { exists false, (Some i), s2. split; [done|]. split; [split_and!; [done|done|]|right; split; [done|by exists f]].
       intros _. split; [done|]. split; [|by intros ? [= <-]]. right. do 6 right. exists i. split; [done|]. left.
       exists (store s1), x1. split; [|done]. intros j H3 _. by apply Ho1. }
  destruct (dir_add_ok junk fuel Hjunk x1 ROOT_DIR_INODE f M 0 name i) as (b2 & x2 & bs & Hr3 & Hx2 & _ & Hrel & Hb2 & Hb2');
    [|done|unfold SIZE_MAX in *; lia|].
  { destruct (Hroom f Hf). destruct (fi_root _ _ _ HI) as (f' & Hf' & _ & Hd). rewrite Hf in Hf'. injection Hf' as <-. by split. }
  erewrite st_bind_ret by (apply on_store_run, Hr3). set (s3 := Fs x2 _ _).
  assert (files s3 = <[ROOT_DIR_INODE := with_data bs f]> (files s2)) as Hs3 by exact Hx2.
  eexists b2, (Some i), s3. split; [reflexivity|]. unfold created, fs_rel. rewrite Hs3.
  split; [|right; split; [done|]; exists (with_data bs f); by rewrite lookup_insert_eq].
  assert (other_files (files s) (<[ROOT_DIR_INODE:=with_data bs f]> (files s2)) (Some i)) as Ho3.
  { eapply other_trans; [exact Ho2|by apply other_insert]. }
  assert ((<[ROOT_DIR_INODE:=with_data bs f]> (files s2)) !! i = files s2 !! i) as Hat
    by (apply lookup_insert_ne; unfold ROOT_DIR_INODE; lia).
  split; [done|]. split; intros ->.
  - destruct (Hb2 eq_refl) as [Hv HM]. exists i. rewrite Hat. split_and!; [done..| |by apply Hdata].
    eapply fs_inv_named; [exact HI2|done|done|done| |done]. eexists. split; [by apply Hdata|done].
  - assert (create_blocked s M true name size) as Hwhy.
    { destruct (decide (valid_name name)) as [Hv|]; [|unfold create_blocked; tauto].
      destruct (M !! name) eqn:HM; [do 3 right; left; by eexists|]. do 6 right. exists i. split; [done|]. right.
      destruct (Hb2' eq_refl Hv eq_refl) as (y & Hy & Hst). exists y, x2. split; [|done]. rewrite Hy. exact Ho2. }
    split; [|split; [by right|intros ? [= <-]; rewrite Hat; done]]. eapply fs_inv_dir; [exact HI2|done|done|apply (fi_names _ _ _ HI2)|apply (fi_inj _ _ _ HI2)].
Qed.

Lemma filesys_create_ok s M mem name size :
  fs_rel s M → room (files s) → file_name name → 0 ≤ size →
  ∃ b s', filesys_create junk fuel mem name size s = Ret (b, s') ∧
    if b : bool then
      ∃ i, valid_name name ∧ M !! name = None ∧ ¬ marked (inode_map s) i ∧ fs_rel s' (<[name := i]> M) ∧
        files s' !! i = Some (IFile (replicate (Z.to_nat size) 0) 0 false) ∧ other_files (files s) (files s') (Some i)
    else fs_rel s' M ∧ create_blocked s M mem name size ∧
      ∃ x, (∀ i, x = Some i → ¬ marked (inode_map s) i) ∧ other_files (files s) (files s') x.
Proof.
  intros HI Hroom Hn Hsz. unfold filesys_create.
  destruct (open_root_ok s M mem HI Hroom) as (d & s1 & Hr1 & HI1 & Hroom1 & Hm1 & Ho1 & Hopen1 & Hnoroot). rewrite (st_bind_ret _ _ _ _ _ Hr1).
  destruct (create_file_ok s1 M d name size HI1 Hroom1 Hopen1 Hn Hsz) as (b & x & s2 & Hr2 & (Ho2 & Hyes & Hno) & Hopen2).
  rewrite (st_bind_ret _ _ _ _ _ Hr2). cbv beta iota.
  pose proof (create_blocked_at s s1 M name size Ho1 Hm1) as Hblk. rewrite Hm1 in *.
  assert (∀ y V, other_files (files s1) V y → other_files (files s) V y) as Hother.
  { intros y V HV. eapply other_trans; [|exact HV]. intros j H3 _. by apply Ho1. }
  destruct b.
  - destruct (Hyes eq_refl) as (i & -> & Hv & HM & Hnm & HI2 & Hfile). cbn [negb]. erewrite st_bind_ret by reflexivity.
    destruct (close_root_ok s2 _ d HI2 Hopen2) as (s3 & Hr3 & HI3 & _ & Ho3). rewrite (st_bind_ret _ _ _ _ _ Hr3).
    exists true, s3. split; [done|]. exists i. split_and!; [done..| |].
    + rewrite Ho3; [done| |done]. assert (marked (inode_map s2) i) as [Hi _]; [|lia].
      by apply (fi_names _ _ _ HI2 name i), lookup_insert_eq.
    + apply Hother. eapply other_trans; [exact Ho2|]. intros j H3 _. by apply Ho3.
  - destruct (Hno eq_refl) as (HI2 & Hwhy & Hx). cbn [negb].
    assert (create_blocked s M mem name size) as Hblocked.
    { destruct Hwhy as [Hd|Hd]; [|by apply Hblk]. unfold create_blocked. destruct (Hnoroot Hd); tauto. }
    assert (∃ s3, (match x with Some i => on_inode_map (no_result (λ m, free_map_release m i 1)) | None => mret tt end) s2 = Ret (tt, s3) ∧
      fs_rel s3 M ∧ other_files (files s2) (files s3) None ∧ root_open (files s3) d) as (s3 & Hr3 & HI3 & Ho3 & Hopen3).
    { destruct x as [i|]; [|by exists s2]. destruct (Hx i eq_refl) as (_ & Hmk & Hnn & Hcl).
      destruct (release_number_ok s2 M i HI2 Hmk Hnn Hcl) as (s3 & Hr3 & HI3 & Ho3 & Hroot). exists s3. split_and!; [done..|].
      destruct Hopen2 as [->|(-> & f & Hf & Ho)]; [by left|right]. split; [done|]. exists f. by rewrite Hroot. }
    rewrite (st_bind_ret _ _ _ _ _ Hr3).
    destruct (close_root_ok s3 _ d HI3 Hopen3) as (s4 & Hr4 & HI4 & _ & Ho4). rewrite (st_bind_ret _ _ _ _ _ Hr4).
    exists false, s4. split; [done|]. split; [done|]. split; [done|]. exists x. split; [intros i Hi; by apply Hx|]. apply Hother.
    eapply other_trans; [exact Ho2|]. intros j H3 _. by rewrite Ho4, Ho3.
Qed.

(** Closing a file gives back what opening it took. *)
Lemma file_open_ok s M fmem i g :
  fs_rel s M → files s !! i = Some g → 0 < opens g → RESERVED_INODES ≤ i → removed g = false →
  ∃ r s', on_store (file_open fmem (Some i)) s = Ret (r, s') ∧ fs_rel s' M ∧
    ((r = Some (File i 0 false) ∧ fmem = true ∧ files s' = files s) ∨
     (r = None ∧ fmem = false ∧ files s' = <[i := with_opens (opens g - 1) g]> (files s))).
Proof.
  intros HI Hg Ho Hi Hrem. destruct fmem; cbn [file_open].
  { eexists _, _. split; [by apply on_store_run|]. split; [done|]. left. by split_and!. }
  destruct (close_ok i g (store s) Hg Ho) as (x & Hr & Hx). eexists None, _.
  split; [apply on_store_run; by rewrite (st_bind_ret _ _ _ _ _ Hr)|]. unfold fs_rel, files in *. cbn [store inode_map]. rewrite Hx. split.
  - apply fs_inv_closed; [done|done|done|]. unfold INODE_MAP_INODE, RESERVED_INODES in *. lia.
  - right. split; [done|]. split; [done|]. unfold closed. by rewrite Hrem, andb_false_r.
Qed.

(** The directory file behind an open root. *)
Lemma root_dir_at s M f :
  fs_rel s M → room (files s) → files s !! ROOT_DIR_INODE = Some f → 0 < opens f →
  dir_at fuel (inodes (store s)) ROOT_DIR_INODE f M.
Proof.
  intros HI Hroom Hf Ho. destruct (Hroom f Hf). destruct (fi_root _ _ _ HI) as (f' & Hf' & _ & Hd).
  rewrite Hf in Hf'. injection Hf' as <-. by split.
Qed.

Lemma filesys_open_ok s M mem fmem name :
  fs_rel s M → room (files s) →
  ∃ r s', filesys_open junk fuel mem fmem name s = Ret (r, s') ∧ fs_rel s' M ∧
    match r with
    | Some fl => fmem = true ∧ M !! name = Some (f_inode fl) ∧ f_pos fl = 0 ∧ f_deny_write fl = false ∧
        (∃ g, files s !! f_inode fl = Some g ∧ files s' !! f_inode fl = Some (with_opens (opens g + 1) g)) ∧
        other_files (files s) (files s') (Some (f_inode fl))
    | None => other_files (files s) (files s') None ∧ open_blocked s M mem fmem name
    end.
Proof.
  intros HI Hroom. unfold filesys_open.
  destruct (open_root_ok s M mem HI Hroom) as (d & s1 & Hr1 & HI1 & Hroom1 & _ & Ho1 & Hopen1 & Hnoroot). rewrite (st_bind_ret _ _ _ _ _ Hr1).
  pose proof Hopen1 as [->|(-> & f & Hf & Ho)].
  { eexists None, s1. split; [by destruct s1|]. split; [done|]. split; [done|]. unfold open_blocked. destruct (Hnoroot eq_refl); tauto. }
  destruct (dir_lookup_ok junk fuel Hjunk (store s1) ROOT_DIR_INODE f M 0 name) as (r & x & Hr2 & Hcase);
    [by apply root_dir_at|intros i Hi; destruct (fi_names _ _ _ HI1 name i Hi) as (_ & g & Hg & _); by exists g|].
  erewrite st_bind_ret by (apply on_store_run, Hr2). set (s2 := Fs x _ _).
  assert ((r = None ∧ files s2 = files s1 ∧ open_blocked s M mem fmem name) ∨ ∃ i g, r = Some i ∧ M !! name = Some i ∧ files s1 !! i = Some g ∧
            files s2 = <[i := with_opens (opens g + 1) g]> (files s1)) as Hc.
  { unfold open_blocked. destruct (M !! name) as [i|]; [|left; destruct Hcase; tauto].
    destruct Hcase as [(-> & Hx & y & Hy & Hn)|(-> & g & Hg & Hx)]; [left|right; by exists i, g]. split_and!; [done..|].
    do 4 right. exists i. split; [done|]. exists y, x. split; [|done]. rewrite Hy. exact Ho1. }
  destruct Hc as [(-> & Hs2 & Hblk)|(i & g & -> & HM & Hg & Hs2)].
  { destruct (close_root_ok s2 M (Some (Dir ROOT_DIR_INODE 0))) as (s3 & Hr3 & HI3 & _ & Ho3);
      [unfold fs_rel; by rewrite Hs2|by rewrite Hs2|]. rewrite (st_bind_ret _ _ _ _ _ Hr3).
    eexists None, s3. split; [by destruct s3|]. split; [done|]. split; [|done]. intros j H3 _. rewrite Ho3, Hs2, Ho1 by done. done. }
  destruct (fi_names _ _ _ HI1 name i HM) as (Hmk & g' & Hg' & Hrem). unfold files in Hg, Hg'. rewrite Hg in Hg'. injection Hg' as <-.
  destruct (marked_reserved _ _ Hmk) as [Hi1 Hi2]. pose proof (proj1 (fi_settled _ _ _ HI1 _ _ Hg)) as Hge.
  assert (fs_rel s2 M) as HI2.
  { unfold fs_rel. rewrite Hs2. apply fs_inv_opens; [done|done|split; cbn; lia|done|done]. }
  destruct (close_root_ok s2 M (Some (Dir ROOT_DIR_INODE 0))) as (s3 & Hr3 & HI3 & _ & Ho3);
    [done|right; split; [done|]; exists f; rewrite Hs2; by rewrite lookup_insert_ne|]. rewrite (st_bind_ret _ _ _ _ _ Hr3).
  assert (RESERVED_INODES ≤ i) as H3i by apply Hmk.
  assert (files s3 !! i = Some (with_opens (opens g + 1) g)) as Hg3 by (rewrite Ho3, Hs2 by done; apply lookup_insert_eq).
  destruct (file_open_ok s3 M fmem i _ HI3 Hg3) as (r & s4 & Hr4 & HI4 & Hcase4); [cbn; lia|done|done|].
  exists r, s4. split; [done|]. split; [done|].
  assert (∀ j, RESERVED_INODES ≤ j → j ≠ i → files s3 !! j = files s !! j) as Hother.
  { intros j H3 Hj. rewrite Ho3, Hs2, lookup_insert_ne, Ho1 by done. done. }
  destruct Hcase4 as [(-> & Hfm & Hs4)|(-> & Hfm & Hs4)].
  - cbn [f_inode f_pos f_deny_write]. split_and!; [done..| |].
    + exists g. rewrite Hs4. split; [|done]. rewrite <-Ho1 by done. done.
    + intros j H3 Hj. rewrite Hs4. apply Hother; congruence.
  - split; [|by right; left]. intros j H3 _. rewrite Hs4. destruct (decide (i = j)) as [<-|Hne]; [|rewrite lookup_insert_ne by done; by apply Hother].
    rewrite lookup_insert_eq, <-Ho1 by done. unfold files. rewrite Hg. f_equal. destruct g. unfold with_opens. cbn. f_equal. lia.
Qed.

Lemma filesys_remove_ok s M mem name :
  fs_rel s M → room (files s) →
  ∃ b s', filesys_remove junk fuel mem name s = Ret (b, s') ∧
    if b : bool then
      ∃ i g, M !! name = Some i ∧ files s !! i = Some g ∧ fs_rel s' (delete name M) ∧ other_files (files s) (files s') (Some i) ∧
        files s' !! i = if opens g =? 0 then None else Some (with_removed g)
    else fs_rel s' M ∧ other_files (files s) (files s') None ∧ remove_blocked s M mem name.
Proof.
  intros HI Hroom. unfold filesys_remove.
  destruct (open_root_ok s M mem HI Hroom) as (d & s1 & Hr1 & HI1 & Hroom1 & _ & Ho1 & Hopen1 & Hnoroot). rewrite (st_bind_ret _ _ _ _ _ Hr1).
  pose proof Hopen1 as [->|(-> & f & Hf & Ho)].
  { eexists false, s1. split; [by destruct s1|]. split; [done|]. split; [done|]. unfold remove_blocked. destruct (Hnoroot eq_refl); tauto. }
  destruct (dir_remove_ok junk fuel Hjunk (store s1) ROOT_DIR_INODE f M 0 name) as (b & x & Hr2 & Hcase); [by apply root_dir_at|..].
  { intros i Hi. destruct (fi_names _ _ _ HI1 name i Hi) as (Hmk & g & Hg & _). split; [by apply (marked_reserved _ _ Hmk)|].
    exists g. split; [done|]. by apply (fi_settled _ _ _ HI1 i). }
  erewrite st_bind_ret by (apply on_store_run, Hr2). set (s2 := Fs x _ _). destruct b.
  2: { destruct Hcase as [Hs2 Hwhy]. change (files s2 = files s1) in Hs2.
       assert (remove_blocked s M mem name) as Hblk.
       { destruct (M !! name) as [i|] eqn:HM; [|do 2 right; by left]. do 3 right. exists i. split; [done|].
         destruct (Hwhy i eq_refl) as [(y & Hy & Hn)|(g & y & z & Hg & Hy & Hst & _)].
         - left. exists y, x. split; [|done]. rewrite Hy. exact Ho1.
         - right. exists y, z. split; [|done]. rewrite Hy. intros j H3 Hj. rewrite lookup_insert_ne by congruence. by apply Ho1. }
       destruct (close_root_ok s2 M (Some (Dir ROOT_DIR_INODE 0))) as (s3 & Hr3 & HI3 & _ & Ho3);
         [unfold fs_rel; by rewrite Hs2|by rewrite Hs2|]. rewrite (st_bind_ret _ _ _ _ _ Hr3).
       exists false, s3. split; [done|]. split; [done|]. split; [|done]. intros j H3 _. rewrite Ho3, Hs2, Ho1 by done. done. }
  destruct Hcase as (i & g & bs & HM & Hg & _ & Hrel & Hx). destruct (fi_names _ _ _ HI1 name i HM) as (Hmk & _).
  destruct (marked_reserved _ _ Hmk) as [Hi1 Hi2]. assert (RESERVED_INODES ≤ i) as H3i by apply Hmk.
  pose proof (proj1 (fi_settled _ _ _ HI1 _ _ Hg)) as Hge.
  assert (files s2 !! i = if opens g =? 0 then None else Some (with_removed g)) as Hat.
  { unfold files. cbn [store s2]. rewrite Hx. apply removed_lookup. }
  assert (fs_rel s2 (delete name M)) as HI2.
  { unfold fs_rel, files. cbn [store inode_map s2]. eapply (fs_inv_unnamed (<[ROOT_DIR_INODE := with_data bs f]> (files s1)) _ _ i); [|done|..].
    - eapply fs_inv_dir; [exact HI1|done|done|..].
      + intros nm j [_ Hj]%lookup_delete_Some. by apply (fi_names _ _ _ HI1 nm j).
      + intros nm nm' j [_ Hj]%lookup_delete_Some [_ Hj']%lookup_delete_Some. by apply (fi_inj _ _ _ HI1 nm nm' j).
    - intros nm [Hne Hj]%lookup_delete_Some. apply Hne. by apply (fi_inj _ _ _ HI1 name nm i).
    - rewrite Hx. unfold closed. destruct (_ && _); [by rewrite delete_delete_eq|by rewrite delete_insert_eq].
    - intros g'. unfold files in Hat. cbn [store s2] in Hat. rewrite Hat. destruct (Z.eqb_spec (opens g) 0); [done|]. intros [= <-].
      split; [split; [done|done]|done]. }
  destruct (close_root_ok s2 (delete name M) (Some (Dir ROOT_DIR_INODE 0))) as (s3 & Hr3 & HI3 & _ & Ho3); [done|..].
  { right. split; [done|]. exists (with_data bs f). split; [|done]. unfold files. cbn [store s2]. rewrite Hx. unfold closed.
    destruct (_ && _); [rewrite lookup_delete_ne by done|rewrite lookup_insert_ne by done]; apply lookup_insert_eq. }
  rewrite (st_bind_ret _ _ _ _ _ Hr3). exists true, s3. split; [done|]. exists i, g. split_and!; [done|by rewrite <-Ho1|done|..].
  - intros j H3 Hj. rewrite Ho3, <-Ho1 by done. unfold files at 1. cbn [store s2]. rewrite Hx. unfold closed.
    assert (ROOT_DIR_INODE ≠ j) by (unfold ROOT_DIR_INODE, RESERVED_INODES in *; lia).
    destruct (_ && _); [rewrite lookup_delete_ne by congruence|rewrite lookup_insert_ne by congruence]; by rewrite lookup_insert_ne.
  - by rewrite Ho3.
Qed.

(** Closing an open file. *)
Lemma file_close_ok s M i g :
  fs_rel s M → files s !! i = Some g → RESERVED_INODES ≤ i → 0 < opens g →
  ∃ s', on_store (inode_close i) s = Ret (tt, s') ∧ fs_rel s' M ∧ other_files (files s) (files s') (Some i).
Proof.
  intros HI Hg H3 Ho. destruct (close_ok i g (store s) Hg Ho) as (x & Hr & Hx). eexists. split; [by apply on_store_run|].
  unfold fs_rel, files in *. cbn [store inode_map]. rewrite Hx. split.
  - apply fs_inv_closed; [done|done|done|]. unfold INODE_MAP_INODE, RESERVED_INODES in *. lia.
  - intros j _ Hj. unfold closed. destruct (_ && _); [rewrite lookup_delete_ne by congruence|rewrite lookup_insert_ne by congruence]; done.
Qed.

(** ** The property *)

End operations.

(** An empty file system. *)
Definition ex_empty_fs : fs :=
  Fs ({[ ROOT_DIR_INODE := IFile (replicate 320 0) 0 false; INODE_MAP_INODE := IFile [] 1 false ]} : gmap Z ifile)
    (FreeMap (Some INODE_MAP_INODE) (Bitmap 40 [7; 0]) INODE_MAP_INODE false) (FreeMap None (Bitmap 0 []) 0 false).

Lemma ex_empty_rel : fs_rel ex_empty_fs ∅.
Proof.
  assert (∀ i g, files ex_empty_fs !! i = Some g →
    (i = ROOT_DIR_INODE ∧ opens g = 0 ∧ removed g = false) ∨ (i = INODE_MAP_INODE ∧ opens g = 1 ∧ removed g = false)) as Hall.
  { intros i g. unfold files, ex_empty_fs. cbn [store inodes simple_store]. rewrite lookup_insert_Some, lookup_singleton_Some.
    intros [[<- <-]|[_ [<- <-]]]; [by left|by right]. }
  eapply (fs_inv_empty _ _ (IFile [] 1 false)).
  - done.
  - split; [split; [done|done|repeat constructor; done]|done..].
  - split; cbn; lia.
  - done.
  - intros i g Hg. destruct (Hall i g Hg) as [(_ & Ho & Hr)|(_ & Ho & Hr)]; (split; [lia|done]).
  - intros i g H3 Hg. unfold RESERVED_INODES, ROOT_DIR_INODE, INODE_MAP_INODE in *. destruct (Hall i g Hg) as [[? _]|[? _]]; lia.
Qed.

(** The same with a file [a] of five bytes. *)
Definition ex_one_fs : fs (S := gmap Z ifile) :=
  match filesys_create (replicate 20 0) 40 true [97] 5 ex_empty_fs with Ret (_, s) => s | _ => ex_empty_fs end.

Lemma ex_create : filesys_create (replicate 20 0) 40 true [97] 5 ex_empty_fs = Ret (true, ex_one_fs).
Proof. vm_compute. reflexivity. Qed.

Lemma ex_room (s : fs (S := gmap Z ifile)) :
  match files s !! ROOT_DIR_INODE with Some f => (length (data f) =? 320)%nat | None => false end = true → room 40 (files s).
Proof.
  intros H f Hf. rewrite Hf in H. apply Nat.eqb_eq in H. rewrite <-Nat2Z.inj_iff in H.
  split; [unfold dir_small|apply Nat2Z.inj_lt]; rewrite ?H; lia.
Qed.

