(* ===== verification/FilesysInit.v ===== *)
(** * Formatting establishes the file system's invariant

    [filesys_init] with a request to format, on any device: the free maps are
    created, written, closed, opened and read back, and the root directory is
    empty.  The kernel stops if an inode cannot be opened or a write stops
    early; otherwise the invariant of [FilesysSpec] holds with an empty map. *)

From stdpp Require Import functions.
From stdpp Require Import base tactics list numbers option sets gmap fin_maps.
From Stdlib Require Import ZArith Lia.
From S2P Require Import Prelude Bitmap InodeStore Directory DirectorySpec FreeMap Filesys FilesysSpec.

Section maps.
Context {S : Type} `{!InodeStore S}.
Implicit Types s : S.

(** A map as [free_map_init] leaves it: no bit is set. *)
Record new_map (m : free_map) (size inode : Z) : Prop := NewMap {
  nm_wf : wf (free_sectors m);
  nm_size : bit_cnt (free_sectors m) = size;
  nm_bits j : 0 ≤ j < size → bit (free_sectors m) j = false;
  nm_lock : bitmap_lock m = false;
  nm_inode : reserved_inode m = inode
}.

Lemma free_map_init_ok s block size inode :
  wf (Bitmap size block) → ∃ m, free_map_init true (Some block) size inode s = Ret (m, s) ∧ new_map m size inode.
Proof.
  intros Hw. destruct (bitmap_set_all_ok size block false Hw) as (b & Hr & Hwb & Hc & Hb).
  exists (FreeMap None b inode false). split; [|by split]. unfold free_map_init. unfold bitmap_create. rewrite Hr. done.
Qed.

(** A file that nobody has open. *)
Definition idle (g : ifile) : Prop := opens g = 0 ∧ removed g = false.

Definition only_at (i : Z) (V V' : gmap Z ifile) : Prop := ∀ j, j ≠ i → V' !! j = V !! j.

Lemma only_at_insert i f V : only_at i V (<[i := f]> V).
Proof. intros j Hj. by rewrite lookup_insert_ne. Qed.

Lemma only_at_trans i V1 V2 V3 : only_at i V1 V2 → only_at i V2 V3 → only_at i V1 V3.
Proof. intros H1 H2 j Hj. by rewrite H2, H1. Qed.

Lemma open_map_ok s mem m f :
  inodes s !! reserved_inode m = Some f → 0 ≤ opens f →
  or_panic (open_map mem m) s (λ m' s', m' = set_file (Some (reserved_inode m)) m ∧
    inodes s' = <[reserved_inode m := with_opens (opens f + 1) f]> (inodes s)).
Proof.
  intros Hf Hge. unfold open_map. destruct (open_ok _ _ _ Hf) as (r & s1 & Hr & Hcase).
  eapply or_panic_step; [exact Hr|].
  destruct Hcase as [[-> _]|[-> Hs1]]; [done|]. destruct mem; [by eapply or_panic_ret|].
  destruct (close_ok (reserved_inode m) (with_opens (opens f + 1) f) s1) as (s2 & Hr2 & _); [rewrite Hs1; apply lookup_insert_eq|cbn; lia|].
  unfold or_panic. by rewrite (st_bind_ret _ _ _ _ _ Hr2).
Qed.

Lemma free_map_create_ok s mem m size inode :
  new_map m size inode → (∀ f, inodes s !! inode = Some f → idle f) →
  or_panic (free_map_create mem m) s (λ m' s', m' = set_file (Some inode) m ∧ only_at inode (inodes s) (inodes s') ∧
    ∃ bs, inodes s' !! inode = Some (IFile bs 1 false) ∧ stored (free_sectors m) bs).
Proof.
  intros [Hw Hc Hb Hl Hi] Hidle. unfold free_map_create. rewrite Hi.
  destruct (create_ok inode 4 false s) as (b & s1 & Hr1 & Hdel & _ & Hdata); [lia|intros f Hf; by apply Hidle|].
  eapply or_panic_step; [exact Hr1|]. destruct b; [|done]. specialize (Hdata eq_refl).
  eapply or_panic_bind; [eapply (open_map_ok s1 mem m); [by rewrite Hi|done]|]. cbn beta. rewrite Hi. intros m2 s2 [-> Hs2].
  cbn [free_map_file set_file free_sectors]. cbn [opens with_opens] in Hs2. set (f2 := with_opens _ _) in Hs2.
  destruct (write_map_ok s2 (free_sectors m) inode f2 Hw) as (ok & s3 & bs & Hr3 & Hs3 & Hst & _);
    [rewrite Hs2; apply lookup_insert_eq|done|]. eapply or_panic_step; [exact Hr3|]. destruct ok; [|done].
  eapply or_panic_ret; [reflexivity|]. split; [done|]. rewrite Hs3, Hs2. split.
  - intros j Hj. rewrite !lookup_insert_ne by done. rewrite <-(lookup_delete_ne (inodes s1) inode j), Hdel by done.
    by rewrite lookup_delete_ne.
  - exists bs. rewrite lookup_insert_eq. split; [done|]. by apply Hst.
Qed.

Lemma free_map_close_ok s m i bs :
  free_map_file m = Some i → inodes s !! i = Some (IFile bs 1 false) →
  ∃ s', free_map_close m s = Ret (m, s') ∧ inodes s' = <[i := IFile bs 0 false]> (inodes s).
Proof.
  intros Hf Hi. unfold free_map_close. rewrite Hf. destruct (close_ok _ _ _ Hi) as (s' & Hr & Hs); [done|].
  exists s'. split; [by rewrite (st_bind_ret _ _ _ _ _ Hr)|]. done.
Qed.

(** The map that is read back. *)
Lemma free_map_reopen_ok s mem m b bs :
  inodes s !! reserved_inode m = Some (IFile bs 0 false) → wf b → wf (free_sectors m) →
  bit_cnt (free_sectors m) = bit_cnt b → stored b bs → bitmap_lock m = false →
  or_panic (free_map_open mem m) s (λ m' s', map_ok (inodes s') m' (reserved_inode m) (IFile bs 1 false) ∧
    only_at (reserved_inode m) (inodes s) (inodes s') ∧ reserved_inode m' = reserved_inode m ∧
    bit_cnt (free_sectors m') = bit_cnt b ∧ ∀ j, 0 ≤ j < bit_cnt b → bit (free_sectors m') j = bit b j).
Proof.
  intros Hi Hw Hwm Hc Hst Hl. unfold free_map_open. eapply or_panic_bind; [by eapply open_map_ok|].
  intros m2 s2 [-> Hs2]. cbn [free_map_file set_file free_sectors]. cbn [opens with_opens] in Hs2. set (f2 := with_opens _ _) in Hs2.
  destruct (read_map_ok s2 b (free_sectors m) (reserved_inode m) f2) as (b' & s3 & Hr3 & Hs3 & Hw' & Hc' & Hb);
    [rewrite Hs2; apply lookup_insert_eq|done..|]. eapply or_panic_step; [exact Hr3|].
  eapply or_panic_ret; [reflexivity|]. rewrite Hs3, Hs2. cbn [free_sectors set_sectors set_file reserved_inode]. split_and!; [|by apply only_at_insert|done..].
  split; [done|done|done|by rewrite lookup_insert_eq|done].
Qed.

Lemma free_map_set_multiple_ok s m i f start cnt :
  map_ok (inodes s) m i f → 0 ≤ start → 0 ≤ cnt → start + cnt ≤ bit_cnt (free_sectors m) →
  or_panic (free_map_set_multiple m start cnt) s (λ m' s', ∃ bs, inodes s' = <[i := with_data bs f]> (inodes s) ∧
    map_ok (inodes s') m' i (with_data bs f) ∧ bits_set (free_sectors m) (free_sectors m') start cnt true).
Proof.
  intros [Hw Hl Hf Hi Ho] Hs Hc Hn. unfold free_map_set_multiple. eapply or_panic_step; [by apply lock_pass|].
  change (free_sectors (set_lock true m)) with (free_sectors m).
  destruct (bitmap_set_multiple_ok (free_sectors m) start cnt true Hw Hs Hc Hn) as (b & Hr & Hwb & Hcb & Hb).
  eapply or_panic_step; [unfold liftS; by rewrite Hr|]. eapply or_panic_step; [by apply unlock_pass|].
  cbn [free_map_file set_lock set_sectors free_sectors]. rewrite Hf.
  destruct (write_map_ok s b i f Hwb Hi Ho) as (ok & s1 & bs & Hr1 & Hs1 & _ & _). eapply or_panic_step; [exact Hr1|].
  destruct ok; [|done]. eapply or_panic_step; [reflexivity|]. eapply or_panic_ret; [reflexivity|]. exists bs.
  split; [done|]. split; [|by split_and!]. split; [done|done|done|rewrite Hs1; apply lookup_insert_eq|done].
Qed.
End maps.

Section init.
Context {S : Type} `{!InodeStore S}.
Implicit Types s : fs (S := S).

(** A call on one of the maps, followed by [K]. *)
Lemma inode_map_step (g : free_map → st S free_map) (K : st fs unit) s Q (R : unit → fs → Prop) :
  or_panic (g (inode_map s)) (store s) Q → (∀ m x, Q m x → or_panic K (Fs x m (fs_map s)) R) →
  or_panic (on_inode_map (no_result g);; K) s R.
Proof.
  unfold or_panic, on_inode_map, no_result, mbind, st_bind. destruct (g (inode_map s) (store s)) as [[m x]| |]; [|done..].
  intros HQ HK. by apply HK.
Qed.

Lemma fs_map_step (g : free_map → st S free_map) (K : st fs unit) s Q (R : unit → fs → Prop) :
  or_panic (g (fs_map s)) (store s) Q → (∀ m x, Q m x → or_panic K (Fs x (inode_map s) m) R) →
  or_panic (on_fs_map (no_result g);; K) s R.
Proof.
  unfold or_panic, on_fs_map, no_result, mbind, st_bind. destruct (g (fs_map s) (store s)) as [[m x]| |]; [|done..].
  intros HQ HK. by apply HK.
Qed.

Lemma fs_map_last (g : free_map → st S free_map) s Q (R : unit → fs → Prop) :
  or_panic (g (fs_map s)) (store s) Q → (∀ m x, Q m x → R tt (Fs x (inode_map s) m)) →
  or_panic (on_fs_map (no_result g)) s R.
Proof.
  unfold or_panic, on_fs_map, no_result, mbind, st_bind. destruct (g (fs_map s) (store s)) as [[m x]| |]; [|done..].
  intros HQ HK. by apply HK.
Qed.

Definition all_idle (V : gmap Z ifile) : Prop := ∀ i g, V !! i = Some g → idle g.

(** The device after formatting, with every file closed. *)
Definition formatted s (bi bf : bitmap) : Prop :=
  all_idle (files s) ∧
  (∃ bs, files s !! INODE_MAP_INODE = Some (IFile bs 0 false) ∧ stored bi bs) ∧
  (∃ bs, files s !! FREE_MAP_INODE = Some (IFile bs 0 false) ∧ stored bf bs) ∧
  files s !! ROOT_DIR_INODE = Some (IFile (replicate 320 0) 0 false).

Lemma do_format_ok s mem n size :
  new_map (inode_map s) n INODE_MAP_INODE → new_map (fs_map s) size FREE_MAP_INODE → all_idle (files s) →
  or_panic (do_format mem) s (λ _ s', formatted s' (free_sectors (inode_map s)) (free_sectors (fs_map s)) ∧
    inode_map s' = set_file (Some INODE_MAP_INODE) (inode_map s) ∧ fs_map s' = set_file (Some FREE_MAP_INODE) (fs_map s)).
Proof.
  intros Hi Hf Hidle. unfold do_format.
  eapply inode_map_step; [eapply free_map_create_ok; [exact Hi|apply Hidle]|]. intros m1 x1 (-> & Ho1 & bs2 & H2 & Hst2).
  eapply fs_map_step; [eapply free_map_create_ok; [exact Hf|cbn [store]; rewrite Ho1 by done; apply Hidle]|].
  cbn [store fs_map inode_map]. intros m2 x2 (-> & Ho2 & bs0 & H0 & Hst0).
  destruct (create_ok ROOT_DIR_INODE 320 true x2) as (b & x3 & Hr3 & Hdel & _ & Hdata);
    [lia|rewrite Ho2, Ho1 by done; intros f Hfi; by apply (Hidle ROOT_DIR_INODE f)|].
  eapply or_panic_step; [by apply on_store_run|]. destruct b; [|done]. eapply or_panic_step; [reflexivity|].
  assert (only_at ROOT_DIR_INODE (inodes x2) (inodes x3)) as Ho3.
  { intros j Hj. rewrite <-(lookup_delete_ne (inodes x3) ROOT_DIR_INODE j), Hdel by done. by rewrite lookup_delete_ne. }
  destruct (free_map_close_ok x3 (set_file (Some INODE_MAP_INODE) (inode_map s)) INODE_MAP_INODE bs2) as (x4 & Hr4 & Hx4);
    [done|by rewrite Ho3, Ho2|].
  eapply inode_map_step; [eapply (or_panic_ret _ _ _ _ (λ m x, m = _ ∧ x = x4)); [exact Hr4|done]|]. intros ? ? [-> ->].
  destruct (free_map_close_ok x4 (set_file (Some FREE_MAP_INODE) (fs_map s)) FREE_MAP_INODE bs0) as (x5 & Hr5 & Hx5);
    [done|by rewrite Hx4, lookup_insert_ne, Ho3|].
  eapply fs_map_last; [eapply (or_panic_ret _ _ _ _ (λ m x, m = _ ∧ x = x5)); [exact Hr5|done]|]. intros ? ? [-> ->].
  split; [|done]. unfold formatted, files. cbn [store]. rewrite Hx5, Hx4. split_and!.
  - intros j g. rewrite !lookup_insert_Some. intros [[<- <-]|[Hj0 [[<- <-]|[Hj2 Hg]]]]; [done..|].
    destruct (decide (j = ROOT_DIR_INODE)) as [->|Hj1].
    + rewrite Hdata in Hg by done. by injection Hg as <-.
    + rewrite Ho3, Ho2, Ho1 in Hg by done. by apply (Hidle j g).
  - exists bs2. by rewrite lookup_insert_ne, lookup_insert_eq.
  - exists bs0. by rewrite lookup_insert_eq.
  - rewrite !lookup_insert_ne by done. by apply Hdata.
Qed.

Lemma map_ok_only_at V V' m i f j : map_ok V m i f → only_at j V V' → i ≠ j → map_ok V' m i f.
Proof. intros [H1 H2 H3 H4 H5] Ho Hij. split; [done|done|done|by rewrite Ho|done]. Qed.

(** The rest of [filesys_init] after formatting. *)
Lemma open_maps_ok s mem mi mf n size :
  formatted s (free_sectors mi) (free_sectors mf) → new_map mi n INODE_MAP_INODE → new_map mf size FREE_MAP_INODE →
  inode_map s = set_file (Some INODE_MAP_INODE) mi → fs_map s = set_file (Some FREE_MAP_INODE) mf →
  RESERVED_INODES ≤ n ≤ size →
  or_panic (on_inode_map (no_result (free_map_open mem));; on_fs_map (no_result (free_map_open mem));;
            on_inode_map (no_result (λ m, free_map_set_multiple m 0 RESERVED_INODES));;
            on_fs_map (no_result (λ m, free_map_set_multiple m 0 n))) s (λ _ s',
    fs_rel s' ∅ ∧ (∀ j, 0 ≤ j < n → bit (free_sectors (inode_map s')) j = (j <? RESERVED_INODES)) ∧
    (∀ j, 0 ≤ j < size → bit (free_sectors (fs_map s')) j = (j <? n))).
Proof.
  intros (Hid & (bs2 & H2 & Hst2) & (bs0 & H0 & Hst0) & H1) [Wi Ci Bi Li Ri] [Wf Cf Bf Lf Rf] Ei Ef Hn. unfold RESERVED_INODES in Hn.
  eapply inode_map_step; [rewrite Ei; eapply (free_map_reopen_ok _ _ _ (free_sectors mi)); cbn; by rewrite ?Ri|]. cbn [reserved_inode set_file].
  rewrite Ri. intros m1 x1 (Hm1 & Ho1 & _ & Hc1 & Hb1). cbn [fs_map].
  eapply fs_map_step; [cbn [fs_map store]; rewrite Ef; eapply (free_map_reopen_ok _ _ _ (free_sectors mf)); cbn; try done; rewrite Rf; by rewrite Ho1|].
  cbn [reserved_inode set_file store fs_map inode_map]. rewrite Rf. intros m2 x2 (Hm2 & Ho2 & _ & Hc2 & Hb2).
  apply (map_ok_only_at _ _ _ _ _ _ Hm1) in Ho2 as Hm1'; [|done].
  eapply inode_map_step; [eapply free_map_set_multiple_ok; [exact Hm1'|cbn [inode_map]; unfold RESERVED_INODES; lia..]|].
  cbn [store fs_map inode_map]. intros m3 x3 (bs3 & Hx3 & Hm3 & (Hw3 & Hc3 & Hb3)).
  assert (map_ok (inodes x3) m2 FREE_MAP_INODE (IFile bs0 1 false)) as Hm2'.
  { eapply map_ok_only_at; [exact Hm2|rewrite Hx3; apply only_at_insert|done]. }
  eapply fs_map_last; [eapply free_map_set_multiple_ok; [exact Hm2'|cbn [fs_map]; lia..]|].
  cbn [store fs_map inode_map]. intros m4 x4 (bs4 & Hx4 & Hm4 & (Hw4 & Hc4 & Hb4)). split_and!.
  - eapply fs_inv_empty.
    + unfold files. cbn [store]. rewrite Hx4, Hx3, !lookup_insert_ne by done. rewrite Ho2, Ho1 by done. done.
    + eapply map_ok_only_at; [exact Hm3|unfold files; cbn [store]; rewrite Hx4; apply only_at_insert|done].
    + split; cbn; lia.
    + cbn [inode_map]. unfold RESERVED_INODES. lia.
    + unfold files. cbn [store]. rewrite Hx4, Hx3. intros i g. rewrite !lookup_insert_Some.
      intros [[<- <-]|[Hi0 [[<- <-]|[Hi2 Hg]]]]; [split; cbn; lia..|]. rewrite Ho2, Ho1 in Hg by done.
      destruct (Hid i g Hg) as [Hz Hz']. split; [lia|done].
    + unfold files. cbn [store]. rewrite Hx4, Hx3. intros i g H3. unfold RESERVED_INODES, FREE_MAP_INODE, INODE_MAP_INODE in *.
      rewrite !lookup_insert_ne by lia. rewrite Ho2, Ho1 by lia. intros Hg. by apply (Hid i g).
  - intros j Hj. cbn [inode_map]. rewrite Hb3, Hb1, Bi by lia. unfold in_range, RESERVED_INODES.
    destruct (Z.leb_spec 0 j); [|lia]. rewrite Z.add_0_l. cbn [andb]. by destruct (j <? 3).
  - intros j Hj. cbn [fs_map]. rewrite Hb4, Hb2, Bf by lia. unfold in_range. destruct (Z.leb_spec 0 j); [|lia].
    rewrite Z.add_0_l. cbn [andb]. by destruct (j <? n).
Qed.

(** The blocks that [malloc] returns are large enough. *)
Definition blocks_ok (size : Z) (bi bf : list Z) : Prop := wf (Bitmap (size * 1 / 100) bi) ∧ wf (Bitmap size bf).

(** C34: formatting a device of at least 300 sectors gives an empty file system.
    [filesys_init] stops the kernel or returns with the invariant of the file
    system: no name, the reserved inodes marked as used, the root directory
    empty; and in the map of the sectors exactly those before the first file
    block are used. *)
Theorem filesys_format_correct s size bi bf mem :
  300 ≤ size → blocks_ok size bi bf → all_idle (files s) →
  or_panic (filesys_init (Some size) (Some bi, Some bf) mem true) s (λ _ s',
    fs_rel s' ∅ ∧ (∀ j, 0 ≤ j < size * 1 / 100 → bit (free_sectors (inode_map s')) j = (j <? RESERVED_INODES)) ∧
    (∀ j, 0 ≤ j < size → bit (free_sectors (fs_map s')) j = (j <? size * 1 / 100))).
Proof.
  intros Hsize [Hwi Hwf] Hidle. unfold filesys_init. eapply or_panic_step; [reflexivity|]. set (n := size * 1 / 100) in *.
  destruct (init_ok (store s)) as (x & Hx & Hi); [intros i f Hf; by apply (Hidle i f)|].
  eapply or_panic_step; [by apply on_store_run|]. set (s0 := Fs x _ _).
  assert (all_idle (files s0)) as Hidle0 by (unfold files; cbn; by rewrite Hi). clearbody s0. clear s Hidle x Hx Hi.
  rename s0 into s. rename Hidle0 into Hidle.
  destruct (free_map_init_ok (store s) bi n INODE_MAP_INODE Hwi) as (mi & Hri & Hmi).
  eapply inode_map_step; [eapply (or_panic_ret _ _ _ _ (λ m x, m = mi ∧ x = store s)); [exact Hri|done]|]. intros ? ? [-> ->].
  destruct (free_map_init_ok (store s) bf size FREE_MAP_INODE Hwf) as (mf & Hrf & Hmf).
  eapply fs_map_step; [eapply (or_panic_ret _ _ _ _ (λ m x, m = mf ∧ x = store s)); [exact Hrf|done]|]. intros ? ? [-> ->].
  cbn [store inode_map fs_map]. eapply or_panic_bind; [eapply do_format_ok; [exact Hmi|exact Hmf|exact Hidle]|].
  cbn [inode_map fs_map]. intros [] s3 [(Hid3 & (bs2 & H2 & Hst2) & (bs0 & H0 & Hst0) & H1) [Ei Ef]].
  eapply (open_maps_ok s3 mem mi mf n size); [|done..|unfold RESERVED_INODES, n; zlia].
  split; [done|]. split; [by exists bs2|]. split; [by exists bs0|done].
Qed.
End init.

(** A device of 320 sectors. *)
Definition ex_fs : fs := Fs (∅ : gmap Z ifile) (FreeMap None (Bitmap 0 []) 0 false) (FreeMap None (Bitmap 0 []) 0 false).

Lemma ex_blocks : blocks_ok 320 [0] (replicate 10 0).
Proof. split; (split; [done|done|repeat constructor; done]). Qed.

Lemma filesys_format_correct_witness :
  ∃ s', filesys_init (Some 320) (Some [0], Some (replicate 10 0)) true true ex_fs = Ret (tt, s') ∧
    fs_rel s' ∅ ∧ (∀ j, 0 ≤ j < 3 → bit (free_sectors (inode_map s')) j = (j <? RESERVED_INODES)) ∧
    (∀ j, 0 ≤ j < 320 → bit (free_sectors (fs_map s')) j = (j <? 3)).
Proof.
  pose proof (filesys_format_correct ex_fs 320 [0] (replicate 10 0) true ltac:(lia) ex_blocks) as H.
  assert (is_Some (match filesys_init (Some 320) (Some [0], Some (replicate 10 0)) true true ex_fs with Ret (_, s') => Some s' | _ => None end))
    as [s' Hs'] by (vm_compute; by eexists).
  unfold or_panic in H. destruct (filesys_init _ _ _ _ _) as [[[] s'']| |]; [|done..]. injection Hs' as ->.
  exists s'. split; [done|]. apply H. intros i g. unfold files. cbn. by rewrite lookup_empty.
Defined.
