(* ===== verification/UserMem.v ===== *)
(** * User memory in system calls ([userprog/exception.c], [is_valid_ptr] of
    [userprog/syscall.c])

    The kernel runs on the page directory of the process and uses the user's
    pointers directly.  [translate] is the processor's walk of the page tables,
    with write protection on in kernel mode; an access it does not translate
    is a page fault in the kernel, which [kill] turns into a panic.  The build
    is the one without virtual memory; the accessed and dirty bits that the
    processor sets are left out.

    The theorems show what the test of a pointer guarantees: it looks at the
    first byte's page and at the end of the region, so that a word or a buffer
    whose other pages are mapped, as when it has none, can be read safely, and
    any other can stop the kernel. *)

From stdpp Require Import functions.
From stdpp Require Import base tactics list numbers option sets gmap fin_maps.
From Stdlib Require Import ZArith Lia.
From S2P Require Import Prelude Vaddr Palloc PageAlloc Pagedir PagedirSpec PagedirRefine Load LoadSpec.

(** ** Exceptions *)

Definition SEL_UCSEG : Z := 0x1B.
Definition SEL_KCSEG : Z := 0x08.

(** What becomes of the thread: its process exits, with status -1 or without
    one being set. *)
Inductive fate : Type :=
  | Dies
  | Exits.

Definition kill (cs : Z) : outcome fate :=
  if cs =? SEL_UCSEG then Ret Dies
  else if cs =? SEL_KCSEG then Panic
  else Ret Exits.

(** [page_fault_cnt] and the interrupt frame's code segment. *)
Definition page_fault (page_fault_cnt cs : Z) : outcome fate * Z := (kill cs, page_fault_cnt + 1).

Section user_memory.
Context {P : Type} `{!PageAllocator P}.
Implicit Types s : pgstate P.

(** ** Accesses *)

(** The physical memory behind a user address, if the access is allowed. *)
Definition translate (m : Z → Z) (pd va : Z) (write : bool) : option Z :=
  let pde := read32 m (pd + 4 * pd_no va) in
  if has pde PTE_P then
    let pte := read32 m (Z.land pde PTE_ADDR + PHYS_BASE + 4 * pt_no va) in
    if has pte PTE_P && (negb write || (has pte PTE_W && has pde PTE_W))
    then Some (Z.land pte PTE_ADDR + PHYS_BASE + pg_ofs va) else None
  else None.

(** A fault in kernel mode. *)
Definition kernel_fault {A} : st (pgstate P) A := λ _,
  match kill SEL_KCSEG with Ret _ => Diverge | Panic => Panic | Diverge => Diverge end.

Definition load8 (pd va : Z) : st (pgstate P) Z := λ s,
  match translate (pmem s) pd va false with Some a => Ret (pmem s a, s) | None => kernel_fault s end.

Definition store8 (pd va v : Z) : st (pgstate P) unit := λ s,
  match translate (pmem s) pd va true with
  | Some a => Ret (tt, with_pmem (λ x, if x =? a then v else pmem s x) s)
  | None => kernel_fault s
  end.

(** [n] bytes from [va] on, and storing bytes there. *)
Fixpoint copy_in (pd va : Z) (n : nat) : st (pgstate P) (list Z) :=
  match n with
  | O => mret []
  | S n => b ← load8 pd va; bs ← copy_in pd (va + 1) n; mret (b :: bs)
  end.

Fixpoint copy_out (pd va : Z) (bs : list Z) : st (pgstate P) unit :=
  match bs with
  | [] => mret tt
  | b :: bs => store8 pd va b;; copy_out pd (va + 1) bs
  end.

(** The string at [va]. *)
Fixpoint user_string (fuel : nat) (pd va : Z) : st (pgstate P) (list Z) :=
  match fuel with
  | O => divergeS
  | S fuel =>
      b ← load8 pd va;
      if b =? 0 then mret [] else bs ← user_string fuel pd (va + 1); mret (b :: bs)
  end.

(** The 32-bit word at [va]. *)
Definition load32 (pd va : Z) : st (pgstate P) Z :=
  bs ← copy_in pd va 4;
  mret (word_at bs 0).

(** ** Tests of pointers *)

Definition is_valid_ptr (pd ptr len : Z) : st (pgstate P) bool :=
  if negb (is_user_vaddr ptr) then mret false
  else if negb (is_user_vaddr (u32 (ptr + len))) then mret false
  else if u32 (ptr + len) <? ptr then mret false
  else if ptr <? PGSIZE then mret false
  else
    k ← pagedir_get_page pd ptr;
    mret (negb (k =? 0)).

Definition STACK_LIMIT : Z := 0x00800000.

(** [validate_esp]: true if the process is to exit. *)
Definition validate_esp (pd esp : Z) : st (pgstate P) bool :=
  k ← pagedir_get_page pd esp;
  mret ((k =? 0) && (STACK_LIMIT <? s32 (PHYS_BASE - esp))).

(** ** What the processor sees *)

(** An entry that allows an access. *)
Definition allows (e : option Z) (write : bool) : bool :=
  match e with Some w => has w PTE_P && (negb write || has w PTE_W) | None => false end.

Lemma pde_flags pt : page_block (pt, 1) → has (pde_word pt) PTE_W = true ∧ Z.land (pde_word pt) PTE_ADDR + PHYS_BASE = pt.
Proof.
  intros Hp. destruct (entry_word pt 7 Hp) as (Hf & Hfl & _); [lia|]. split; [by rewrite has_flags by done; unfold pde_word; rewrite Hfl|].
  exact Hf.
Qed.

Lemma translate_rel s pd T O E va write :
  rel s pd T O E → user_addr va →
  translate (pmem s) pd va write =
    if allows (E (page_no va)) write then (λ w, frame_of w + va mod 4096) <$> E (page_no va) else None.
Proof.
  intros HR Hva. destruct (user_addr_page va Hva) as (Hv & Hpd & Hpt & Hi & _). unfold translate. rewrite Hpd, Hpt, pg_ofs_mod.
  rewrite (r_entry _ _ _ _ _ HR _ Hv). unfold entry. destruct (T !! (page_no va / 1024)) as [pt|] eqn:HT.
  - destruct (table_apart _ _ _ _ _ _ _ HR HT) as [Hp _]. destruct (pde_flags pt Hp) as [Hw Ha].
    destruct (pde_word_spec pt Hp) as (_ & _ & _ & _ & Hpr).
    rewrite (di_table _ _ _ (r_dir _ _ _ _ _ HR) _ _ HT), Hpr, Ha, Hw. cbn. by rewrite andb_true_r.
  - by rewrite (di_none _ _ _ (r_dir _ _ _ _ _ HR) _ Hi HT).
Qed.

(** ** Writing to a mapped page *)

(** The frame of a page is apart from everything else. *)
Lemma frame_apart s pd T O E v w b :
  rel s pd T O E → 0 ≤ v < user_pages → E v = Some w → has w PTE_P = true →
  b ∈ (pd, 1) :: table_pages T ∨ b ∈ O ∨
    (∃ v' w', v' ≠ v ∧ 0 ≤ v' < user_pages ∧ E v' = Some w' ∧ has w' PTE_P = true ∧ b = (frame_of w', 1)) →
  pages_apart (frame_of w, 1) b.
Proof.
  intros HR Hv HE Hp Hb. set (w0 := Z.land w (without PTE_P)).
  destruct (rel_update s pd T O E ((frame_of w, 1) :: O) v w w0 HR Hv HE) as [HR' _].
  - apply land_range. by apply (r_range _ _ _ _ _ HR v).
  - unfold mapped. unfold w0. by rewrite Hp, present_clear.
  - eapply beside_apart; [exact HR'|]. destruct Hb as [Hb|[Hb|(v' & w' & Hne & Hv' & HE' & Hp' & ->)]]; [by left|by right; left|].
    right; right. exists v', w'. rewrite fn_lookup_insert_ne by done. unfold mapped. by rewrite Hp'.
Qed.

Lemma write_frame s pd E O v w m' :
  pd_rel s pd (E, O) → 0 ≤ v < user_pages → E v = Some w → has w PTE_P = true → only_page (frame_of w) (pmem s) m' →
  pd_rel (with_pmem m' s) pd (E, O) ∧ undisturbed O (pmem s) m'.
Proof.
  intros [[T HR] [Hc Hco]] Hv HE Hp Hm. cbn [fst snd] in *. split; [split; [exists T|done]|].
  - eapply rel_memory; [exact HR|apply holds_set, (r_holds _ _ _ _ _ HR)|]. intros b x Hb Hx. rewrite pmem_with_pmem.
    eapply only_page_apart; [done| |done]. eapply frame_apart; [done..|by left].
  - intros b x Hb Hx. eapply only_page_apart; [done| |done]. eapply frame_apart; [done..|by right; left].
Qed.

(** The byte a process sees. *)
Definition ubyte (m : Z → Z) (E : Z → option Z) (va : Z) : Z :=
  match E (page_no va) with Some w => m (frame_of w + va mod 4096) | None => 0 end.

Lemma load8_ok s pd E O va :
  pd_rel s pd (E, O) → user_addr va → allows (E (page_no va)) false = true → load8 pd va s = Ret (ubyte (pmem s) E va, s).
Proof.
  intros [[T HR] _] Hva Ha. cbn in HR. unfold load8, ubyte. rewrite (translate_rel _ _ _ _ _ _ _ HR Hva), Ha.
  destruct (E (page_no va)); done.
Qed.

Lemma store8_ok s pd E O va v :
  pd_rel s pd (E, O) → user_addr va → allows (E (page_no va)) true = true →
  ∃ s', store8 pd va v s = Ret (tt, s') ∧ pd_rel s' pd (E, O) ∧ undisturbed O (pmem s) (pmem s') ∧
    ∀ a, user_addr a → present (E (page_no a)) = true → ubyte (pmem s') E a = if a =? va then v else ubyte (pmem s) E a.
Proof.
  intros HR Hva Ha. pose proof HR as [[T HT] _]. cbn in HT. unfold store8. rewrite (translate_rel _ _ _ _ _ _ _ HT Hva), Ha.
  destruct (E (page_no va)) as [w|] eqn:HE; [|done]. cbn [fmap option_fmap option_map]. eexists. split; [reflexivity|].
  cbn in Ha. apply andb_true_iff in Ha as [Hp _]. destruct (user_addr_page va Hva) as (Hv & _).
  set (m' := λ x, _). assert (only_page (frame_of w) (pmem s) m') as Ho.
  { intros x Hx%within_false. unfold m'. pose proof (Z.mod_pos_bound va 4096).
    rewrite (proj2 (Z.eqb_neq x _)) by lia. done. }
  destruct (write_frame s pd E O _ w m' HR Hv HE Hp Ho) as [HR' Hu]. rewrite pmem_with_pmem. split; [done|]. split; [done|].
  intros a Hua Hpr. destruct (user_addr_page a Hua) as (Hv' & _). unfold ubyte. unfold present, flag_in in Hpr.
  destruct (decide (page_no a = page_no va)) as [Heq|Hne].
  - rewrite Heq, HE. unfold m'. unfold page_no in Heq. destruct (Z.eqb_spec a va) as [->|Hav]; [by rewrite Z.eqb_refl|].
    rewrite (proj2 (Z.eqb_neq _ _)); [done|]. zlia.
  - destruct (E (page_no a)) as [w'|] eqn:HE'; [|done]. rewrite (proj2 (Z.eqb_neq a va)) by (by intros ->).
    apply Ho, within_false. pose proof (Z.mod_pos_bound a 4096).
    assert (pages_apart (frame_of w, 1) (frame_of w', 1)) as Hap; [|unfold pages_apart in Hap; cbn in Hap; lia].
    eapply frame_apart; [exact HT|exact Hv|done|done|]. right; right. exists (page_no a), w'. done.
Qed.

(** ** Buffers *)

(** The [n] bytes from [va] on may be accessed. *)
Definition accessible (E : Z → option Z) (va n : Z) (write : bool) : Prop :=
  ∀ a, va ≤ a < va + n → user_addr a ∧ allows (E (page_no a)) write = true.

Definition ubytes (m : Z → Z) (E : Z → option Z) (va : Z) (n : nat) : list Z :=
  (λ j, ubyte m E (va + Z.of_nat j)) <$> seq 0 n.

Lemma ubytes_cons m E va n : ubytes m E va (S n) = ubyte m E va :: ubytes m E (va + 1) n.
Proof.
  unfold ubytes. cbn [seq fmap list_fmap]. rewrite Z.add_0_r. f_equal. rewrite <-seq_shift, <-list_fmap_compose.
  apply list_fmap_ext. intros _ j _. cbn. f_equal. lia.
Qed.

Lemma copy_in_ok s pd E O n : ∀ va,
  pd_rel s pd (E, O) → accessible E va (Z.of_nat n) false → copy_in pd va n s = Ret (ubytes (pmem s) E va n, s).
Proof.
  induction n as [|n IH]; intros va HR Ha; [done|]. cbn [copy_in]. destruct (Ha va) as [Hu Hal]; [lia|].
  rewrite (st_bind_ret _ _ _ _ _ (load8_ok s pd E O va HR Hu Hal)).
  rewrite (st_bind_ret _ _ _ _ _ (IH (va + 1) HR ltac:(intros a Hr; apply Ha; lia))). by rewrite ubytes_cons.
Qed.

Lemma copy_out_ok pd E O bs : ∀ s va,
  pd_rel s pd (E, O) → accessible E va (Z.of_nat (length bs)) true →
  ∃ s', copy_out pd va bs s = Ret (tt, s') ∧ pd_rel s' pd (E, O) ∧ undisturbed O (pmem s) (pmem s') ∧
    ∀ a, user_addr a → present (E (page_no a)) = true →
      ubyte (pmem s') E a = if within va (Z.of_nat (length bs)) a then byte_at bs (Z.to_nat (a - va)) else ubyte (pmem s) E a.
Proof.
  induction bs as [|b bs IH]; intros s va HR Ha.
  { exists s. split; [done|]. split; [done|]. split; [by intros ? ? _ _|]. intros a _ _. by rewrite (proj2 (within_false _ _ _)) by (cbn; lia). }
  cbn [copy_out]. cbn [length] in Ha. destruct (Ha va) as [Hu Hal]; [lia|].
  destruct (store8_ok s pd E O va b HR Hu Hal) as (s1 & Hr1 & HR1 & Hu1 & Hb1). rewrite (st_bind_ret _ _ _ _ _ Hr1).
  destruct (IH s1 (va + 1) HR1) as (s2 & Hr2 & HR2 & Hu2 & Hb2); [intros a Hr; apply Ha; lia|].
  exists s2. split; [done|]. split; [done|]. split; [intros c x Hc Hx; rewrite (Hu2 c x Hc Hx); by apply (Hu1 c)|].
  intros a Hua Hpr. rewrite Hb2, Hb1 by done. cbn [length]. unfold within.
  destruct (Z.eqb_spec a va) as [->|Hne].
  - rewrite (proj2 (Z.leb_gt (va + 1) va)) by lia. cbn [andb]. rewrite (proj2 (Z.leb_le va va)), (proj2 (Z.ltb_lt va _)) by lia.
    by rewrite Z.sub_diag.
  - destruct (Z.leb_spec (va + 1) a), (Z.leb_spec va a), (Z.ltb_spec a (va + 1 + Z.of_nat (length bs))), (Z.ltb_spec a (va + Z.of_nat (S (length bs))));
      try lia; try done. unfold byte_at. replace (Z.to_nat (a - va)) with (S (Z.to_nat (a - (va + 1)))) by lia. done.
Qed.

(** An address that may not be accessed stops the kernel. *)
Lemma copy_in_panic s pd E O n a : ∀ va,
  pd_rel s pd (E, O) → 0 ≤ va → va + Z.of_nat n ≤ PHYS_BASE → va ≤ a < va + Z.of_nat n →
  allows (E (page_no a)) false = false → copy_in pd va n s = Panic.
Proof.
  induction n as [|n IH]; intros va HR H0 Hn Ha Hno; [lia|]. cbn [copy_in].
  assert (user_addr va) as Hu by (unfold user_addr; lia). destruct (allows (E (page_no va)) false) eqn:Hal.
  - rewrite (st_bind_ret _ _ _ _ _ (load8_ok s pd E O va HR Hu Hal)). apply st_bind_panic, IH; [done|lia|lia| |done].
    assert (a ≠ va) by (intros ->; congruence). lia.
  - apply st_bind_panic. destruct HR as [[T HR] _]. cbn in HR. unfold load8. by rewrite (translate_rel _ _ _ _ _ _ _ HR Hu), Hal.
Qed.

Lemma copy_out_panic pd E O bs a : ∀ s va,
  pd_rel s pd (E, O) → 0 ≤ va → va + Z.of_nat (length bs) ≤ PHYS_BASE → va ≤ a < va + Z.of_nat (length bs) →
  allows (E (page_no a)) true = false → copy_out pd va bs s = Panic.
Proof.
  induction bs as [|b bs IH]; intros s va HR H0 Hn Ha Hno; cbn [length] in *; [lia|]. cbn [copy_out].
  assert (user_addr va) as Hu by (unfold user_addr; lia). destruct (allows (E (page_no va)) true) eqn:Hal.
  - destruct (store8_ok s pd E O va b HR Hu Hal) as (s1 & Hr1 & HR1 & _). rewrite (st_bind_ret _ _ _ _ _ Hr1).
    apply IH; [done|lia|lia| |done]. assert (a ≠ va) by (intros ->; congruence). lia.
  - apply st_bind_panic. destruct HR as [[T HR] _]. cbn in HR. unfold store8. by rewrite (translate_rel _ _ _ _ _ _ _ HR Hu), Hal.
Qed.

(** ** What the test of a pointer means *)

Lemma is_valid_ptr_ok s pd E O ptr len :
  pd_rel s pd (E, O) → 0 ≤ ptr < 2 ^ 32 → 0 ≤ len < 2 ^ 32 →
  ∃ b, is_valid_ptr pd ptr len s = Ret (b, s) ∧
    (b = true ↔ 4096 ≤ ptr ∧ ptr + len < PHYS_BASE ∧ present (E (page_no ptr)) = true).
Proof.
  intros [[T HR] _] Hp Hl. cbn in HR. unfold is_valid_ptr, is_user_vaddr, u32. change PGSIZE with 4096.
  assert (∀ Q : Prop, ¬ Q → false = true ↔ Q) as Hno by (intros Q HQ; split; [done|tauto]).
  destruct (Z.ltb_spec ptr PHYS_BASE) as [H1|H1]; cbn [negb]; [|exists false; split; [done|apply Hno; lia]].
  destruct (Z.ltb_spec ((ptr + len) mod 2 ^ 32) PHYS_BASE) as [H2|H2]; cbn [negb];
    [|exists false; split; [done|apply Hno; unfold PHYS_BASE in *; zlia]].
  destruct (Z.ltb_spec ((ptr + len) mod 2 ^ 32) ptr) as [H3|H3]; [exists false; split; [done|apply Hno; unfold PHYS_BASE in *; zlia]|].
  destruct (Z.ltb_spec ptr 4096); [exists false; split; [done|apply Hno; lia]|].
  assert (user_addr ptr) as Hu by (unfold user_addr; lia).
  rewrite (st_bind_ret _ _ _ _ _ (get_page_run _ _ _ _ _ _ HR Hu)). eexists. split; [reflexivity|].
  assert (ptr + len < PHYS_BASE) by (unfold PHYS_BASE in *; zlia). unfold present, flag_in.
  destruct (E (page_no ptr)) as [w|]; [|cbn; split; [done|tauto]]. destruct (has w PTE_P); [|cbn; split; [done|tauto]].
  rewrite (proj2 (Z.eqb_neq _ _)); [by cbn|]. unfold frame_of, PHYS_BASE. pose proof (Z.mod_pos_bound ptr 4096).
  assert (0 ≤ Z.land w PTE_ADDR) by (apply Z.land_nonneg; right; unfold PTE_ADDR; lia). lia.
Qed.

Lemma present_allows e : present e = true → allows e false = true.
Proof. unfold present, flag_in, allows. destruct e; [intros ->; done|done]. Qed.

Lemma region_accessible E ptr len write :
  0 ≤ ptr → 0 ≤ len → ptr + len < PHYS_BASE → (∀ a, ptr ≤ a ≤ ptr + len → allows (E (page_no a)) write = true) →
  accessible E ptr (len + 1) write.
Proof. intros Hp Hl Hu Ha a Hr. split; [unfold user_addr; lia|apply Ha; lia]. Qed.

Lemma accessible_le E va n n' write : accessible E va n write → n' ≤ n → accessible E va n' write.
Proof. intros Ha Hn a Hr. apply Ha. lia. Qed.

(** ** The properties *)

(** C23: the test of a pointer accepts exactly the regions that start in a page
    that is mapped, not the first one, and end below the kernel, in numbers
    that do not wrap around.  A region that it accepts and that only has more
    pages that are mapped, so one within the page of its first byte, is safe:
    the kernel reads the bytes of the process there, without changing anything;
    and if its pages are writable, it can store bytes there, which changes these
    bytes of the process and nothing else of it, and no page that is held by
    anybody else. *)
Theorem valid_pointer_safe s pd E O ptr len :
  pd_rel s pd (E, O) → 0 ≤ ptr < 2 ^ 32 → 0 ≤ len < 2 ^ 32 →
  ∃ b, is_valid_ptr pd ptr len s = Ret (b, s) ∧
    (b = true ↔ 4096 ≤ ptr ∧ ptr + len < PHYS_BASE ∧ present (E (page_no ptr)) = true) ∧
    (b = true →
       ((∀ a, ptr ≤ a ≤ ptr + len → page_no a = page_no ptr ∨ present (E (page_no a)) = true) →
          copy_in pd ptr (Z.to_nat (len + 1)) s = Ret (ubytes (pmem s) E ptr (Z.to_nat (len + 1)), s)) ∧
       ((∀ a, ptr ≤ a ≤ ptr + len → allows (E (page_no a)) true = true) →
          ∀ bs, Z.of_nat (length bs) ≤ len + 1 →
          ∃ s', copy_out pd ptr bs s = Ret (tt, s') ∧ pd_rel s' pd (E, O) ∧ undisturbed O (pmem s) (pmem s') ∧
            ∀ a, user_addr a → present (E (page_no a)) = true →
              ubyte (pmem s') E a =
                if within ptr (Z.of_nat (length bs)) a then byte_at bs (Z.to_nat (a - ptr)) else ubyte (pmem s) E a)).
Proof.
  intros HR Hp Hl. destruct (is_valid_ptr_ok s pd E O ptr len HR Hp Hl) as (b & Hr & Hb). exists b. split; [done|].
  split; [done|]. intros (H4 & Hu & Hpr)%Hb. split.
  - intros Hpg. apply (copy_in_ok s pd E O); [done|]. rewrite Z2Nat.id by lia. apply region_accessible; [lia..|].
    intros a Ha. apply present_allows. destruct (Hpg a Ha) as [->|?]; done.
  - intros Hw bs Hbs. apply (copy_out_ok pd E O bs s ptr HR). apply (accessible_le E ptr (len + 1)); [|done].
    apply region_accessible; [lia..|done].
Qed.

(** C27: a region that passes the test can still stop the kernel: if a byte of it
    is not mapped, as when it runs into the next page, reading the region
    panics, and if a byte is not writable, storing there panics.  Any process
    can do this with the buffer of a [read] or [write], with a string, or with
    a stack pointer near the end of a page. *)
Theorem valid_pointer_can_panic s pd E O ptr len a :
  pd_rel s pd (E, O) → 0 ≤ ptr < 2 ^ 32 → 0 ≤ len < 2 ^ 32 → is_valid_ptr pd ptr len s = Ret (true, s) → ptr ≤ a ≤ ptr + len →
  (allows (E (page_no a)) false = false → copy_in pd ptr (Z.to_nat (len + 1)) s = Panic) ∧
  (allows (E (page_no a)) true = false → ∀ bs, Z.of_nat (length bs) = len + 1 → copy_out pd ptr bs s = Panic).
Proof.
  intros HR Hp Hl Hv Ha. destruct (is_valid_ptr_ok s pd E O ptr len HR Hp Hl) as (b & Hr & Hb). rewrite Hv in Hr.
  injection Hr as <-. destruct (proj1 Hb eq_refl) as (H4 & Hu & _). split.
  - intros Hno. apply (copy_in_panic s pd E O _ a); [done|lia|lia|lia|done].
  - intros Hno bs Hbs. apply (copy_out_panic pd E O _ a); [done|lia|lia|lia|done].
Qed.

Lemma allows_translate s pd E O va write :
  pd_rel s pd (E, O) → user_addr va → allows (E (page_no va)) write = bool_decide (is_Some (translate (pmem s) pd va write)).
Proof.
  intros [[T HR] _] Hu. cbn in HR. rewrite (translate_rel _ _ _ _ _ _ _ HR Hu).
  destruct (allows (E (page_no va)) write) eqn:Ha; [|done]. destruct (E (page_no va)); [done|by cbn in Ha].
Qed.
End user_memory.

(** The process of a small executable, whose only code page is read-only. *)
Definition process_of (r : outcome (Z * option Z * lstate)) : Z * pgstate Palloc.pstate :=
  match r with
  | Ret ((pd, _), s) => (pd, pg s)
  | _ => (0, pg ex_lstate)
  end.

Definition ex_process : Z * pgstate Palloc.pstate :=
  process_of (load 0xc0100000 (2 ^ 18) ex_read (Z.of_nat (length ex_exec)) 0xc0101000 [97] true true ex_lstate).

#[local] Strategy 1000 [process_of load].

Lemma process_of_rel r (A B : lstate → Prop) (C : Z → lstate → (Z → option Z) → option Z → Prop) :
  (process_of r).1 ≠ 0 →
  (∃ pd x s', r = Ret ((pd, x), s') ∧ A s' ∧
    ((pd = 0 ∧ x = None ∧ B s') ∨
     (pd ≠ 0xc0100000 ∧ ∃ E, pd_rel (pg s') pd (E, [(0xc0100000, 1)]) ∧ C pd s' E x))) →
  ∃ E, pd_rel (process_of r).2 (process_of r).1 (E, [(0xc0100000, 1)]).
Proof.
  intros Hn (pd & x & s' & -> & _ & [(-> & _)|(_ & E & HR & _)]); [by destruct Hn|]. by exists E.
Qed.

Lemma ex_process_loaded : (ex_process.1 =? 0) = false.
Proof. vm_compute. reflexivity. Qed.

Lemma ex_process_rel : ∃ E, pd_rel ex_process.2 ex_process.1 (E, [(0xc0100000, 1)]).
Proof.
  pose proof (proj1 (Z.eqb_neq _ _) ex_process_loaded) as Hn.
  refine (process_of_rel _ _ _ (λ pd s' E x, _) Hn
    (load_ok 0xc0100000 (2 ^ 18) ex_exec ex_read [(0xc0100000, 1)] ex_file ex_ram ex_lstate 0xc0101000 [97] true ex_create_pre _ _)).
  - by eexists.
  - done.
Qed.

(** Which accesses to the code page and to the page after it are allowed. *)
Lemma ex_process_allows E :
  pd_rel ex_process.2 ex_process.1 (E, [(0xc0100000, 1)]) →
  allows (E (page_no 0x08048050)) false = true ∧ ∀ w, allows (E (page_no 0x08049000)) w = false.
Proof.
  assert (user_addr 0x08048050 ∧ user_addr 0x08049000) as [H1 H2] by (unfold user_addr, PHYS_BASE; lia).
  intros HR. rewrite (allows_translate _ _ E _ _ false HR H1). split; [vm_compute; reflexivity|].
  intros w. rewrite (allows_translate _ _ E _ _ w HR H2). destruct w; vm_compute; reflexivity.
Qed.

Lemma valid_pointer_safe_witness :
  ∃ E, pd_rel ex_process.2 ex_process.1 (E, [(0xc0100000, 1)]) ∧
    copy_in ex_process.1 0x08048050 4 ex_process.2 = Ret (ubytes (pmem ex_process.2) E 0x08048050 4, ex_process.2) ∧
    is_valid_ptr ex_process.1 0x08048050 0xb7fb7fb0 ex_process.2 = Ret (false, ex_process.2).
Proof.
  destruct ex_process_rel as [E HR]. exists E. split; [exact HR|]. destruct (ex_process_allows E HR) as [Ha _].
  destruct (valid_pointer_safe ex_process.2 ex_process.1 E _ 0x08048050 3 HR) as (b & Hr & Hb & Hok); [lia|lia|].
  destruct (valid_pointer_safe ex_process.2 ex_process.1 E _ 0x08048050 0xb7fb7fb0 HR) as (b' & Hr' & Hb' & _); [lia|lia|].
  split; [|destruct b'; [|exact Hr']; destruct (proj1 Hb' eq_refl) as (_ & Hend & _); unfold PHYS_BASE in Hend; lia].
  apply Hok; [|intros a Hr2; left; unfold page_no; zlia]. apply Hb. split; [lia|]. split; [reflexivity|]. clear - Ha.
  unfold allows in Ha. unfold present, flag_in. destruct (E (page_no 0x08048050)); [|discriminate].
  by apply andb_true_iff in Ha as [? _].
Defined.

Lemma ex_process_valid : match is_valid_ptr ex_process.1 0x08048ffc 7 ex_process.2 with Ret (b, _) => b | _ => false end = true.
Proof. vm_compute. reflexivity. Qed.

(** A buffer of 8 bytes at the end of the code page cannot be read or written. *)
Lemma valid_pointer_can_panic_witness :
  is_valid_ptr ex_process.1 0x08048ffc 7 ex_process.2 = Ret (true, ex_process.2) ∧
  copy_in ex_process.1 0x08048ffc 8 ex_process.2 = Panic ∧
  copy_out ex_process.1 0x08048ffc (replicate 8 0) ex_process.2 = Panic.
Proof.
  destruct ex_process_rel as [E HR]. destruct (ex_process_allows E HR) as [_ Ha].
  destruct (is_valid_ptr_ok ex_process.2 ex_process.1 E _ 0x08048ffc 7 HR) as (b & Hr & _); [lia|lia|].
  pose proof ex_process_valid as Hb. rewrite Hr in Hb. subst b.
  destruct (valid_pointer_can_panic ex_process.2 ex_process.1 E _ 0x08048ffc 7 0x08049000 HR) as [Hin Hout]; [lia|lia|exact Hr|lia|].
  split; [exact Hr|]. split; [apply Hin, Ha|]. apply Hout; [apply Ha|reflexivity].
Defined.
