(* ===== verification/FileOps.v ===== *)
(** * Open files ([filesys/file.c])

    An open file is an inode with a position.  A null [struct file] pointer is
    [None] and an operation that changes the structure returns it.  Buffers are
    lists of bytes here; [Syscall] copies them from and to the process. *)

From stdpp Require Import functions.
From stdpp Require Import base tactics list numbers option sets gmap fin_maps.
From Stdlib Require Import ZArith Lia.
From S2P Require Import Prelude InodeStore Filesys.

Section files.
Context {S : Type} `{!InodeStore S}.
Context (inode_deny_write inode_allow_write : Z → st S unit).

Definition with_pos (p : Z) (f : file) : file := File (f_inode f) p (f_deny_write f).
Definition with_deny_write (b : bool) (f : file) : file := File (f_inode f) (f_pos f) b.

Definition file_reopen (mem : bool) (f : file) : st S (option file) :=
  i ← inode_reopen (f_inode f);
  file_open mem i.

Definition file_get_inode (f : file) : Z := f_inode f.

Definition file_deny_write (f : option file) : st S file :=
  match f with
  | None => panicS
  | Some f =>
      if negb (f_deny_write f) then inode_deny_write (f_inode f);; mret (with_deny_write true f)
      else mret f
  end.

Definition file_allow_write (f : option file) : st S file :=
  match f with
  | None => panicS
  | Some f =>
      if f_deny_write f then inode_allow_write (f_inode f);; mret (with_deny_write false f)
      else mret f
  end.

Definition file_close (f : option file) : st S unit :=
  match f with
  | None => mret tt
  | Some f => f ← file_allow_write (Some f); inode_close (f_inode f)
  end.

Definition file_read_at (f : file) (size file_ofs : Z) : st S (list Z) := inode_read_at (f_inode f) size file_ofs.

Definition file_read (f : file) (size : Z) : st S (list Z * file) :=
  bs ← inode_read_at (f_inode f) size (f_pos f);
  mret (bs, with_pos (s32 (f_pos f + Z.of_nat (length bs))) f).

Definition file_write_at (f : file) (buffer : list Z) (file_ofs : Z) : st S Z := inode_write_at (f_inode f) buffer file_ofs.

Definition file_write (f : file) (buffer : list Z) : st S (Z * file) :=
  n ← inode_write_at (f_inode f) buffer (f_pos f);
  mret (n, with_pos (s32 (f_pos f + n)) f).

Definition file_length (f : option file) : st S Z :=
  match f with
  | None => panicS
  | Some f => inode_length (f_inode f)
  end.

Definition file_seek (f : option file) (new_pos : Z) : outcome file :=
  match f with
  | None => Panic
  | Some f => if 0 <=? new_pos then Ret (with_pos new_pos f) else Panic
  end.

Definition file_tell (f : option file) : outcome Z :=
  match f with
  | None => Panic
  | Some f => Ret (f_pos f)
  end.
End files.
