(* ===== verification/Syscall.v ===== *)
(** * System calls ([userprog/syscall.c])

    The handler of interrupt 0x30 and the calls it dispatches to, for the build
    without virtual memory and subdirectories.  The state is that of the
    calling process: its memory, its descriptor table, the [struct file]s it
    has open by address, the file system, the lock around it and the console.
    A call returns to the process, perhaps with a value in [eax], or the process
    exits; [thread_exit] does not return, so that a call that exits ends there.

    A call that waits for [fs_lock] does so before it looks at the file system:
    the state of a call is the one in which it gets the lock.  Strings are read
    when the lock is held, before the file system uses them, and the buffer of a
    [write] is read as a whole; for a string or buffer that can be read this is
    what the code sees.  [process_execute] and [process_wait], modelled in
    [Process] on the state of all threads, are parameters here. *)

From stdpp Require Import functions.
From stdpp Require Import base tactics list numbers option sets gmap fin_maps.
From Stdlib Require Import ZArith Lia.
From S2P Require Import Prelude Vaddr Hash Fdt PageAlloc Pagedir UserMem InodeStore Directory Filesys FileOps.

Definition SYS_HALT : Z := 0.
Definition SYS_EXIT : Z := 1.
Definition SYS_EXEC : Z := 2.
Definition SYS_WAIT : Z := 3.
Definition SYS_CREATE : Z := 4.
Definition SYS_REMOVE : Z := 5.
Definition SYS_OPEN : Z := 6.
Definition SYS_FILESIZE : Z := 7.
Definition SYS_READ : Z := 8.
Definition SYS_WRITE : Z := 9.
Definition SYS_SEEK : Z := 10.
Definition SYS_TELL : Z := 11.
Definition SYS_CLOSE : Z := 12.

Definition STDIN_FILENO : Z := 0.
Definition STDOUT_FILENO : Z := 1.
Definition TID_ERROR : Z := -1.

(** How a call ends: it returns, with [eax] set or not; the process exits with
    a status; its thread exits without one; or the machine is off. *)
Inductive sysres : Type :=
  | Returns (eax : option Z)
  | Exits_with (status : Z)
  | Thread_exits
  | Power_off.

(** What the allocators answer during a call: the [struct dir], the addresses
    of the [struct file] and of the descriptor, the bucket arrays. *)
Record answers : Type := Answers {
  dir_mem : bool;
  file_mem : option Z;
  fd_mem : option Z;
  hash_mem : Z → bool * bool
}.

(** The line [system call!] that is printed for an unknown number. *)
Definition unknown_call : list Z := [115; 121; 115; 116; 101; 109; 32; 99; 97; 108; 108; 33; 10].

Section syscalls.
Context {P : Type} `{!PageAllocator P} {S : Type} `{!InodeStore S}.

Record sysst : Type := Sys {
  um : pgstate P;
  fsys : fs (S := S);
  fheap : gmap Z file;
  fd_hash : hash file_descriptor;
  fs_lock : bool;
  console : list Z;
  keys : nat → Z
}.

(** The [pagedir] of the process, the contents of the uninitialised directory
    entry on the stack of [filesys], the fuel of the loops, and the functions
    of other parts of the kernel. *)
Context (pd : Z) (junk : dir_entry) (fuel : nat).
Context (inode_allow_write : Z → st S unit).
Context (process_execute process_wait : Z → st sysst Z).
Context (ans : answers).

Definition with_um (x : pgstate P) (s : sysst) : sysst :=
  Sys x (fsys s) (fheap s) (fd_hash s) (fs_lock s) (console s) (keys s).
Definition with_fsys (x : fs) (s : sysst) : sysst :=
  Sys (um s) x (fheap s) (fd_hash s) (fs_lock s) (console s) (keys s).
Definition with_fheap (x : gmap Z file) (s : sysst) : sysst :=
  Sys (um s) (fsys s) x (fd_hash s) (fs_lock s) (console s) (keys s).
Definition with_fd_hash (x : hash file_descriptor) (s : sysst) : sysst :=
  Sys (um s) (fsys s) (fheap s) x (fs_lock s) (console s) (keys s).
Definition with_fs_lock (x : bool) (s : sysst) : sysst :=
  Sys (um s) (fsys s) (fheap s) (fd_hash s) x (console s) (keys s).
Definition with_console (x : list Z) (s : sysst) : sysst :=
  Sys (um s) (fsys s) (fheap s) (fd_hash s) (fs_lock s) x (keys s).
Definition with_keys (x : nat → Z) (s : sysst) : sysst :=
  Sys (um s) (fsys s) (fheap s) (fd_hash s) (fs_lock s) (console s) x.

(** Calls on the parts of the state. *)
Definition part {X A} (get : sysst → X) (set : X → sysst → sysst) (m : st X A) : st sysst A :=
  λ s, match m (get s) with
       | Ret (a, x) => Ret (a, set x s)
       | Panic => Panic
       | Diverge => Diverge
       end.

Definition on_um {A} (m : st (pgstate P) A) : st sysst A := part um with_um m.
Definition on_fsys {A} (m : st fs A) : st sysst A := part fsys with_fsys m.
Definition on_fdt {A} (m : hash file_descriptor → outcome (A * hash file_descriptor)) : st sysst A :=
  part fd_hash with_fd_hash m.

(** [lock_acquire] and [lock_release] on [fs_lock], with their assertions. *)
Definition acquire_fs : st sysst unit :=
  λ s, if fs_lock s then Panic else Ret (tt, with_fs_lock true s).
Definition release_fs : st sysst unit :=
  λ s, if fs_lock s then Ret (tt, with_fs_lock false s) else Panic.

(** The [struct file] at an address. *)
Definition get_file (a : Z) : st sysst file := λ s,
  match fheap s !! a with Some f => Ret (f, s) | None => Panic end.
Definition set_file (a : Z) (f : file) : st sysst unit := modifyS (λ s, with_fheap (<[a := f]> (fheap s)) s).
Definition free_file (a : Z) : st sysst unit := modifyS (λ s, with_fheap (delete a (fheap s)) s).

(** [if (!is_valid_ptr (ptr, len)) syscall_exit (-1);] and the rest. *)
Definition valid_or_exit (ptr len : Z) (rest : st sysst sysres) : st sysst sysres :=
  ok ← on_um (is_valid_ptr pd ptr len);
  if (ok : bool) then rest else mret (Exits_with (-1)).

Definition eax (r : Z) : sysres := Returns (Some (u32 r)).

Definition syscall_halt : st sysst sysres := mret Power_off.
Definition syscall_exit (status : Z) : st sysst sysres := mret (Exits_with status).

Definition syscall_exec (cmd_line : Z) : st sysst sysres :=
  valid_or_exit cmd_line 0 (p ← process_execute cmd_line; mret (eax p)).

Definition syscall_wait (pid : Z) : st sysst sysres :=
  if pid =? TID_ERROR then mret (eax (-1))
  else status ← process_wait pid; mret (eax status).

Definition syscall_create (file initial_size : Z) : st sysst sysres :=
  valid_or_exit file 0 (
    acquire_fs;;
    name ← on_um (user_string fuel pd file);
    success ← on_fsys (filesys_create junk fuel (dir_mem ans) name (s32 initial_size));
    release_fs;;
    mret (eax (Z.b2z success))).

Definition syscall_remove (file : Z) : st sysst sysres :=
  valid_or_exit file 0 (
    acquire_fs;;
    name ← on_um (user_string fuel pd file);
    success ← on_fsys (filesys_remove junk fuel (dir_mem ans) name);
    release_fs;;
    mret (eax (Z.b2z success))).

(** [file_close] of the structure at an address. *)
Definition close_file (a : Z) : st sysst unit :=
  f ← get_file a;
  on_fsys (on_store (file_close inode_allow_write (Some f)));;
  free_file a.

Definition syscall_open (file : Z) : st sysst sysres :=
  valid_or_exit file 0 (
    acquire_fs;;
    name ← on_um (user_string fuel pd file);
    open_file ← on_fsys (filesys_open junk fuel (dir_mem ans) (bool_decide (is_Some (file_mem ans))) name);
    release_fs;;
    match open_file, file_mem ans with
    | Some f, Some a =>
        set_file a f;;
        match fd_mem ans with
        | None => mret (eax (-1))
        | Some e =>
            r ← on_fdt (λ t, fdt_insert fuel (hash_mem ans) t (FD e 0 a));
            match r with
            | None => acquire_fs;; close_file a;; release_fs;; mret (eax (-1))
            | Some e => mret (eax (fd e))
            end
        end
    | _, _ => mret (eax (-1))
    end).

(** [fdt_search (&t->fd_hash, fd)] *)
Definition search (n : Z) : st sysst (option file_descriptor) := on_fdt (λ t, fdt_search (hash_mem ans 0) t n).

Definition syscall_filesize (n : Z) : st sysst sysres :=
  r ← search n;
  match r with
  | None => mret (eax (-1))
  | Some e =>
      acquire_fs;;
      f ← get_file (file_ e);
      size ← on_fsys (on_store (file_length (Some f)));
      release_fs;;
      mret (eax size)
  end.

Definition input_getc : st sysst Z := λ s, Ret (u8 (keys s 0%nat), with_keys (λ i, keys s (Datatypes.S i)) s).

(** [for (ch = 0; ch < size; ch++)] with [k] iterations to go. *)
Fixpoint read_keys (k : nat) (buffer ch bytes_read : Z) : st sysst Z :=
  match k with
  | O => mret bytes_read
  | Datatypes.S k =>
      c ← input_getc;
      on_um (store8 pd (buffer + ch) c);;
      read_keys k buffer (ch + 1) (bytes_read + 1)
  end.

Definition syscall_read (n buf size : Z) : st sysst sysres :=
  if size =? 0 then mret (eax 0)
  else valid_or_exit buf (size - 1) (
    if n =? STDIN_FILENO then
      acquire_fs;;
      bytes_read ← read_keys (Z.to_nat size) buf 0 0;
      release_fs;;
      mret (eax bytes_read)
    else
      r ← search n;
      match r with
      | None => mret (eax (-1))
      | Some e =>
          acquire_fs;;
          f ← get_file (file_ e);
          '(bs, f) ← on_fsys (on_store (file_read f (s32 size)));
          on_um (copy_out pd buf bs);;
          set_file (file_ e) f;;
          release_fs;;
          mret (eax (Z.of_nat (length bs)))
      end).

Definition putbuf (bs : list Z) : st sysst unit := modifyS (λ s, with_console (console s ++ bs) s).

Definition syscall_write (n buf size : Z) : st sysst sysres :=
  if size =? 0 then mret (eax 0)
  else valid_or_exit buf (size - 1) (
    if n =? STDOUT_FILENO then
      acquire_fs;;
      bs ← on_um (copy_in pd buf (Z.to_nat size));
      putbuf bs;;
      release_fs;;
      mret (eax size)
    else
      r ← search n;
      match r with
      | None => mret (eax 0)
      | Some e =>
          acquire_fs;;
          f ← get_file (file_ e);
          bs ← on_um (copy_in pd buf (Z.to_nat (s32 size)));
          '(bytes_written, f) ← on_fsys (on_store (file_write f bs));
          set_file (file_ e) f;;
          release_fs;;
          mret (eax bytes_written)
      end).

Definition syscall_seek (n position : Z) : st sysst sysres :=
  r ← search n;
  match r with
  | None => mret (Returns None)
  | Some e =>
      acquire_fs;;
      f ← get_file (file_ e);
      f ← liftS (file_seek (Some f) (s32 position));
      set_file (file_ e) f;;
      release_fs;;
      mret (Returns None)
  end.

Definition syscall_tell (n : Z) : st sysst sysres :=
  r ← search n;
  match r with
  | None => mret (eax 0)
  | Some e =>
      acquire_fs;;
      f ← get_file (file_ e);
      pos ← liftS (file_tell (Some f));
      release_fs;;
      mret (eax pos)
  end.

Definition syscall_close (n : Z) : st sysst sysres :=
  r ← search n;
  match r with
  | None => mret (Returns None)
  | Some e =>
      acquire_fs;;
      a ← on_fdt (λ t, '(t, a) ← fdt_close (hash_mem ans 1).1 t e; mret (a, t));
      close_file a;;
      release_fs;;
      mret (Returns None)
  end.

(** The word [syscall_arg] points to, for the rest of the call. *)
Definition syscall_arg (esp index : Z) (rest : Z → st sysst sysres) : st sysst sysres :=
  let ret_arg := u32 (esp + 4 * index) in
  valid_or_exit ret_arg 0 (w ← on_um (load32 pd ret_arg); rest w).

(** The [switch] over the number of the call. *)
Definition dispatch (syscall esp : Z) : st sysst sysres :=
  let arg := syscall_arg esp in
  if syscall =? SYS_HALT then syscall_halt
  else if syscall =? SYS_EXIT then arg 1 (λ w, syscall_exit (s32 w))
  else if syscall =? SYS_EXEC then arg 1 syscall_exec
  else if syscall =? SYS_WAIT then arg 1 (λ w, syscall_wait (s32 w))
  else if syscall =? SYS_CREATE then arg 1 (λ f, arg 2 (λ n, syscall_create f n))
  else if syscall =? SYS_REMOVE then arg 1 syscall_remove
  else if syscall =? SYS_OPEN then arg 1 syscall_open
  else if syscall =? SYS_FILESIZE then arg 1 (λ w, syscall_filesize (s32 w))
  else if syscall =? SYS_READ then arg 1 (λ n, arg 2 (λ b, arg 3 (λ k, syscall_read (s32 n) b k)))
  else if syscall =? SYS_WRITE then arg 1 (λ n, arg 2 (λ b, arg 3 (λ k, syscall_write (s32 n) b k)))
  else if syscall =? SYS_SEEK then arg 1 (λ n, arg 2 (λ k, syscall_seek (s32 n) k))
  else if syscall =? SYS_TELL then arg 1 (λ w, syscall_tell (s32 w))
  else if syscall =? SYS_CLOSE then arg 1 (λ w, syscall_close (s32 w))
  else (putbuf unknown_call;; mret Thread_exits).

Definition syscall_handler (esp : Z) : st sysst sysres :=
  valid_or_exit esp 0 (
    stop ← on_um (validate_esp pd esp);
    if (stop : bool) then mret (Exits_with (-1)) else
    syscall ← on_um (load32 pd esp);
    dispatch (s32 syscall) esp).
End syscalls.
