(* ===== verification/SyscallSpec.v ===== *)
(** * What the file system calls promise

    [spec] says what each call does to the names, the files, the descriptors,
    the memory and the console of a process, and the theorem is that
    [syscall_handler] does it.  [limits] says when calls may fail.  [pre] lists
    what the calls rely on: readable strings and buffers, sizes and positions
    that fit into [off_t]. *)

From stdpp Require Import functions.
From stdpp Require Import base tactics list numbers option sets gmap fin_maps.
From Stdlib Require Import ZArith Lia.
From S2P Require Import Prelude Vaddr Hash Fdt PageAlloc Pagedir PagedirSpec PagedirRefine Load UserMem.
From S2P Require Import InodeStore Directory DirectorySpec FreeMap Filesys FilesysSpec FileOps Syscall.

(** ** The process as a user sees it *)

(** Names and their inodes, the files, the descriptors with the inode and the
    position of each, the bytes of memory, what was printed and what will be
    typed. *)
Record astate : Type := AState {
  a_names : gmap (list Z) Z;
  a_files : gmap Z ifile;
  a_fds : gmap Z (Z * Z);
  a_mem : Z → Z;
  a_console : list Z;
  a_keys : nat → Z
}.

Inductive call : Type :=
  | Create (file size : Z)
  | Remove (file : Z)
  | Open (file : Z)
  | Filesize (n : Z)
  | Read (n buf size : Z)
  | Write (n buf size : Z)
  | Seek (n position : Z)
  | Tell (n : Z)
  | Close (n : Z).

(** The string at an address, and [n] bytes. *)
Definition string_at (m : Z → Z) (ptr : Z) (name : list Z) : Prop :=
  file_name name ∧ (∀ (i : nat) c, name !! i = Some c → m (ptr + Z.of_nat i) = c) ∧ m (ptr + Z.of_nat (length name)) = 0.

Definition bytes_at (m : Z → Z) (ptr : Z) (n : nat) : list Z := (λ j, m (ptr + Z.of_nat j)) <$> seq 0 n.

Definition put_bytes (m : Z → Z) (ptr : Z) (bs : list Z) : Z → Z :=
  λ a, if within ptr (Z.of_nat (length bs)) a then byte_at bs (Z.to_nat (a - ptr)) else m a.

(** How many descriptors have inode [i] open. *)
Definition users (D : gmap Z (Z * Z)) (i : Z) : Z := Z.of_nat (size (filter (λ kv, kv.2.1 = i) D)).

Definition unused (M : gmap (list Z) Z) (D : gmap Z (Z * Z)) (i : Z) : Prop :=
  (∀ name, M !! name ≠ Some i) ∧ users D i = 0.

(** The pointer that a call tests, with the length. *)
Definition pointer (c : call) : option (Z * Z) :=
  match c with
  | Create p _ | Remove p | Open p => Some (p, 0)
  | Read _ p n | Write _ p n => if n =? 0 then None else Some (p, n - 1)
  | _ => None
  end.

(** The descriptor of a call and the answer when it is not open. *)
Definition bad_fd (c : call) : option (Z * sysres) :=
  match c with
  | Filesize n => Some (n, eax (-1))
  | Read n _ size => if (size =? 0) || (n =? STDIN_FILENO) then None else Some (n, eax (-1))
  | Write n _ size => if (size =? 0) || (n =? STDOUT_FILENO) then None else Some (n, eax 0)
  | Seek n _ => Some (n, Returns None)
  | Tell n => Some (n, eax 0)
  | Close n => Some (n, Returns None)
  | _ => None
  end.

Definition valid (E : Z → option Z) (p : Z * Z) : Prop :=
  4096 ≤ p.1 ∧ p.1 + p.2 < PHYS_BASE ∧ present (E (page_no p.1)) = true.

(** When a file cannot be created, removed, opened, when there is no memory for
    a descriptor, and when not all bytes can be written to an inode. *)
Record limits : Type := Limits {
  l_create : list Z → Z → Prop;
  l_remove : list Z → Prop;
  l_open : list Z → Prop;
  l_fd : Prop;
  l_write : Z → Prop
}.

(** What a call does, for a process with the pages [E]. *)
Inductive spec (E : Z → option Z) (L : limits) : astate → call → sysres → astate → Prop :=
| spec_bad_pointer a c p : pointer c = Some p → ¬ valid E p → spec E L a c (Exits_with (-1)) a
| spec_create M V V' D m o k p size name i :
    string_at m p name → valid_name name → M !! name = None → unused M D i →
    V' !! i = Some (IFile (replicate (Z.to_nat size) 0) 0 false) → other_files V V' (Some i) →
    spec E L (AState M V D m o k) (Create p size) (eax 1) (AState (<[name := i]> M) V' D m o k)
| spec_create_fails M V V' D m o k p size name x :
    string_at m p name → l_create L name size → (∀ i, x = Some i → unused M D i) → other_files V V' x →
    spec E L (AState M V D m o k) (Create p size) (eax 0) (AState M V' D m o k)
| spec_remove M V V' D m o k p name i g :
    string_at m p name → M !! name = Some i → V !! i = Some g →
    V' !! i = (if opens g =? 0 then None else Some (with_removed g)) → other_files V V' (Some i) →
    spec E L (AState M V D m o k) (Remove p) (eax 1) (AState (delete name M) V' D m o k)
| spec_remove_fails M V V' D m o k p name :
    string_at m p name → l_remove L name → other_files V V' None →
    spec E L (AState M V D m o k) (Remove p) (eax 0) (AState M V' D m o k)
| spec_open M V V' D m o k p name i g n :
    string_at m p name → M !! name = Some i → V !! i = Some g → V' !! i = Some (with_opens (opens g + 1) g) →
    other_files V V' (Some i) → 2 ≤ n < 2 ^ 31 → D !! n = None → (∀ j, 2 ≤ j < n → is_Some (D !! j)) →
    spec E L (AState M V D m o k) (Open p) (eax n) (AState M V' (<[n := (i, 0)]> D) m o k)
| spec_open_fails M V V' D m o k p name :
    string_at m p name → l_open L name → other_files V V' None →
    spec E L (AState M V D m o k) (Open p) (eax (-1)) (AState M V' D m o k)
| spec_open_leaks M V V' D m o k p name i g :
    l_fd L → string_at m p name → M !! name = Some i → V !! i = Some g → V' !! i = Some (with_opens (opens g + 1) g) →
    other_files V V' (Some i) → spec E L (AState M V D m o k) (Open p) (eax (-1)) (AState M V' D m o k)
| spec_bad_fd a c n r : bad_fd c = Some (n, r) → a_fds a !! n = None → spec E L a c r a
| spec_filesize M V D m o k n i p g :
    D !! n = Some (i, p) → V !! i = Some g →
    spec E L (AState M V D m o k) (Filesize n) (eax (Z.of_nat (length (data g)))) (AState M V D m o k)
| spec_nothing a c : (∃ n b, c = Read n b 0 ∨ c = Write n b 0) → spec E L a c (eax 0) a
| spec_keys M V D m o k b size :
    0 < size → spec E L (AState M V D m o k) (Read STDIN_FILENO b size) (eax size)
      (AState M V D (put_bytes m b ((λ j, u8 (k j)) <$> seq 0 (Z.to_nat size))) o (λ j, k (Z.to_nat size + j)%nat))
| spec_read M V D m o k n b size i p g bs :
    D !! n = Some (i, p) → V !! i = Some g → bs = take (Z.to_nat size) (drop (Z.to_nat p) (data g)) → 0 < size →
    spec E L (AState M V D m o k) (Read n b size) (eax (Z.of_nat (length bs)))
      (AState M V (<[n := (i, p + Z.of_nat (length bs))]> D) (put_bytes m b bs) o k)
| spec_console M V D m o k b size :
    0 < size → spec E L (AState M V D m o k) (Write STDOUT_FILENO b size) (eax size)
      (AState M V D m (o ++ bytes_at m b (Z.to_nat size)) k)
| spec_write M V D m o k n b size i p g w :
    D !! n = Some (i, p) → V !! i = Some g → 0 ≤ w ≤ size → 0 < size → (w < size → l_write L i) →
    spec E L (AState M V D m o k) (Write n b size) (eax w)
      (AState M (<[i := with_data (overwrite p (bytes_at m b (Z.to_nat w)) (data g)) g]> V) (<[n := (i, p + w)]> D) m o k)
| spec_seek M V D m o k n i p p' :
    D !! n = Some (i, p) →
    spec E L (AState M V D m o k) (Seek n p') (Returns None) (AState M V (<[n := (i, p')]> D) m o k)
| spec_tell M V D m o k n i p :
    D !! n = Some (i, p) → spec E L (AState M V D m o k) (Tell n) (eax p) (AState M V D m o k)
| spec_close M V D m o k n i p g :
    D !! n = Some (i, p) → V !! i = Some g →
    spec E L (AState M V D m o k) (Close n) (Returns None) (AState M (closed i g V) (delete n D) m o k).

(** What a call relies on. *)
Definition pre (E : Z → option Z) (fuel : nat) (a : astate) (c : call) : Prop :=
  let readable p := ∃ name, string_at (a_mem a) p name ∧ (length name < fuel)%nat ∧
                      accessible E p (Z.of_nat (length name) + 1) false in
  match c with
  | Create p size => 0 ≤ p < 2 ^ 32 ∧ 0 ≤ size < 2 ^ 31 ∧ (valid E (p, 0) → readable p)
  | Remove p | Open p => 0 ≤ p < 2 ^ 32 ∧ (valid E (p, 0) → readable p)
  | Read n b size => 0 ≤ b < 2 ^ 32 ∧ 0 ≤ size < 2 ^ 31 ∧ (valid E (b, size - 1) → accessible E b size true) ∧
      ∀ i p, a_fds a !! n = Some (i, p) → p + size < 2 ^ 31
  | Write n b size => 0 ≤ b < 2 ^ 32 ∧ 0 ≤ size < 2 ^ 31 ∧ (valid E (b, size - 1) → accessible E b size false) ∧
      ∀ i p, a_fds a !! n = Some (i, p) → p + size < 2 ^ 31 ∧ ∀ g, a_files a !! i = Some g → p ≤ Z.of_nat (length (data g))
  | Seek _ p => 0 ≤ p < 2 ^ 31
  | _ => True
  end.

(** ** Counting users *)

Lemma users_insert D n j p i : D !! n = None → users (<[n := (j, p)]> D) i = users D i + if decide (j = i) then 1 else 0.
Proof.
  intros Hn. unfold users. rewrite map_filter_insert. cbn. case_decide.
  - rewrite map_size_insert_None by (apply map_lookup_filter_None; by left). lia.
  - rewrite delete_id by done. lia.
Qed.

Lemma users_delete D n j p i : D !! n = Some (j, p) → users D i = users (delete n D) i + if decide (j = i) then 1 else 0.
Proof. intros Hn. rewrite <-(insert_delete_id D n (j, p) Hn) at 1. apply users_insert, lookup_delete_eq. Qed.

Lemma users_move D n j p p' i : D !! n = Some (j, p) → users (<[n := (j, p')]> D) i = users D i.
Proof.
  intros Hn. rewrite (users_delete D n j p i Hn). rewrite <-insert_delete_eq. apply users_insert, lookup_delete_eq.
Qed.

Lemma users_pos D n j p : D !! n = Some (j, p) → 0 < users D j.
Proof. intros Hn. rewrite (users_delete D n j p j Hn), decide_True by done. unfold users. lia. Qed.

Lemma users_inv D j : 0 < users D j → ∃ n p, D !! n = Some (j, p).
Proof.
  unfold users. intros Hs. destruct (map_choose (filter (λ kv, kv.2.1 = j) D)) as (n & [i p] & Hx).
  { intros He. rewrite He, map_size_empty in Hs. lia. }
  apply map_lookup_filter_Some in Hx as [Hx Hj]. cbn in Hj. subst i. by exists n, p.
Qed.

(** ** Strings *)

Lemma string_at_cons m p c name : string_at m p (c :: name) → m p = c ∧ 0 < c < 256 ∧ string_at m (p + 1) name.
Proof.
  intros ((Hc & Hn)%Forall_cons & Hl & Hz). split; [rewrite <-(Hl 0%nat c eq_refl); f_equal; lia|]. split; [done|].
  split; [done|]. cbn [length] in Hz. split.
  - intros i d Hi. rewrite <-(Hl (S i) d Hi). f_equal. lia.
  - rewrite <-Hz. f_equal. lia.
Qed.

(** ** The relation *)

Section calls.
Context {P : Type} `{!PageAllocator P} {S : Type} `{!InodeStore S}.
Context (pd : Z) (junk : dir_entry) (fuel : nat).
Context (inode_allow_write : Z → st S unit).
Context (ans : answers).
Context (E : Z → option Z) (O : list (Z * Z)).
Implicit Types (s : sysst (P := P) (S := S)) (a : astate) (D : gmap Z (Z * Z)) (t : hash file_descriptor) (h : gmap Z file).

Definition entry_of h (e : file_descriptor) : option (Z * Z) :=
  f ← h !! file_ e;
  if f_deny_write f then None else Some (f_inode f, f_pos f).

(** The table and the [struct file]s hold the descriptors [D]. *)
Record fds_rel h t D : Prop := FdsRel {
  fr_ok : fdt_ok t;
  fr_small : Z.of_nat (length (elements t)) < 2 ^ 31 - 4;
  fr_fds n x : D !! n = Some x ↔ ∃ e, e ∈ elements t ∧ fd e = n ∧ entry_of h e = Some x;
  fr_all e : e ∈ elements t → is_Some (entry_of h e);
  fr_inj e e' : e ∈ elements t → e' ∈ elements t → file_ e = file_ e' → e = e';
  fr_fd n x : D !! n = Some x → 2 ≤ n < 2 ^ 31 ∧ RESERVED_INODES ≤ x.1 ∧ 0 ≤ x.2 < 2 ^ 31
}.

(** Every descriptor holds its file open. *)
Definition held (V : gmap Z ifile) D : Prop :=
  ∀ i, 0 < users D i → ∃ g, V !! i = Some g ∧ users D i ≤ opens g.

Definition mem_rel (u : pgstate P) (m : Z → Z) : Prop :=
  pd_rel u pd (E, O) ∧ ∀ x, user_addr x → present (E (page_no x)) = true → ubyte (pmem u) E x = m x.

Record sys_rel s a : Prop := SysRel {
  sr_fs : fs_rel (fsys s) (a_names a);
  sr_files : files (fsys s) = a_files a;
  sr_fds : fds_rel (fheap s) (fd_hash s) (a_fds a);
  sr_held : held (a_files a) (a_fds a);
  sr_mem : mem_rel (um s) (a_mem a);
  sr_console : console s = a_console a;
  sr_keys : keys s = a_keys a;
  sr_lock : fs_lock s = false
}.

(** ** Descriptors *)

Lemma entry_of_file h e i p : entry_of h e = Some (i, p) ↔ h !! file_ e = Some (File i p false).
Proof.
  unfold entry_of. destruct (h !! file_ e) as [[i' p' d]|]; cbn; [|done]. destruct d; [by split|]. split; intros [= -> ->]; done.
Qed.

Lemma fds_rel_perm h t t' D : fds_rel h t D → fdt_ok t' → elements t' ≡ₚ elements t → fds_rel h t' D.
Proof.
  intros [_ Hs Hf Ha Hi Hr] Hok He. split; [done|by rewrite He|..|done].
  - intros n x. rewrite Hf. by setoid_rewrite He.
  - intros e. rewrite He. apply Ha.
  - intros e e'. rewrite !He. apply Hi.
Qed.

(** Moving the position of a descriptor. *)
Lemma fds_rel_move h t D e i p p' :
  fds_rel h t D → e ∈ elements t → h !! file_ e = Some (File i p false) → 0 ≤ p' < 2 ^ 31 →
  fds_rel (<[file_ e := File i p' false]> h) t (<[fd e := (i, p')]> D).
Proof.
  intros [Hok Hs Hf Ha Hi Hr] He Hh Hp. assert (entry_of (<[file_ e := File i p' false]> h) e = Some (i, p')) as Hee.
  { apply entry_of_file, lookup_insert_eq. }
  assert (∀ e', e' ∈ elements t → e' ≠ e → entry_of (<[file_ e := File i p' false]> h) e' = entry_of h e') as Hne.
  { intros e' He' Hn. unfold entry_of. rewrite lookup_insert_ne; [done|]. intros Hfe. by apply Hn, Hi. }
  assert (D !! fd e = Some (i, p)) as HD by (apply Hf; exists e; by rewrite entry_of_file).
  split; [done|done|..|done|].
  - intros n x. rewrite lookup_insert_Some. split.
    + intros [[<- <-]|[Hn Hx]]; [by exists e|]. apply Hf in Hx as (e' & He' & <- & Hx). exists e'. rewrite Hne; [done..|congruence].
    + intros (e' & He' & <- & Hx). destruct (decide (e' = e)) as [->|Hn]; [left; by rewrite Hee in Hx; injection Hx as <-|right].
      split; [intros Hfd; by apply Hn, (fd_unique t)|]. apply Hf. exists e'. by rewrite Hne in Hx.
  - intros e' He'. destruct (decide (e' = e)) as [->|Hn]; [by rewrite Hee|]. rewrite Hne by done. by apply Ha.
  - intros n x. rewrite lookup_insert_Some. intros [[<- <-]|[_ Hx]]; [|by apply Hr]. destruct (Hr _ _ HD) as (? & ? & _). done.
Qed.

(** A new descriptor. *)
Lemma fds_rel_open h t t' D e i n :
  fds_rel h t D → fdt_ok t' → Z.of_nat (length (elements t)) + 1 < 2 ^ 31 - 4 → elements t' ≡ₚ e :: elements t → h !! file_ e = None →
  fd e = n → (∀ x, x ∈ elements t → fd x ≠ n) → 2 ≤ n < 2 ^ 31 → RESERVED_INODES ≤ i →
  D !! n = None ∧ fds_rel (<[file_ e := File i 0 false]> h) t' (<[n := (i, 0)]> D).
Proof.
  intros [_ Hs Hf Ha Hi Hr] Hok Hlt He Hh <- Hn H2 H3.
  assert (entry_of (<[file_ e := File i 0 false]> h) e = Some (i, 0)) as Hee by apply entry_of_file, lookup_insert_eq.
  assert (∀ e', e' ∈ elements t → file_ e' ≠ file_ e) as Hfe.
  { intros e' He' Hfe. destruct (Ha e' He') as [x Hx]. unfold entry_of in Hx. by rewrite Hfe, Hh in Hx. }
  assert (∀ e', e' ∈ elements t → entry_of (<[file_ e := File i 0 false]> h) e' = entry_of h e') as Hne.
  { intros e' He'. unfold entry_of. rewrite lookup_insert_ne; [done|]. intros Heq. by apply (Hfe e'). }
  split; [|split; [done|rewrite He; cbn [length]; lia|..]].
  - destruct (D !! fd e) as [x|] eqn:HD; [|done]. apply Hf in HD as (e' & He' & Hfd & _). by destruct (Hn e').
  - intros n x. rewrite lookup_insert_Some. setoid_rewrite He. setoid_rewrite elem_of_cons. split.
    + intros [[<- <-]|[Hx Hd]]; [exists e; split; [by left|done]|]. apply Hf in Hd as (e' & He' & <- & Hd). exists e'.
      split; [by right|]. split; [done|]. by rewrite Hne.
    + intros (e' & [->|He'] & <- & Hx); [left; split; congruence|]. right. split; [intros Heq; by apply (Hn e')|].
      apply Hf. exists e'. by rewrite Hne in Hx.
  - intros e'. rewrite He, elem_of_cons. intros [->|He']; [by rewrite Hee|]. rewrite Hne by done. by apply Ha.
  - intros e1 e2. rewrite He, !elem_of_cons. intros [->|H1] [->|H2'] Heq; [done| | |by apply Hi].
    + by destruct (Hfe e2).
    + by destruct (Hfe e1).
  - intros n x. rewrite lookup_insert_Some. intros [[<- <-]|[_ Hx]]; [|by apply Hr]. split; [done|]. split; [done|]. cbn. lia.
Qed.

(** A descriptor less. *)
Lemma fds_rel_close h t t' D e :
  fds_rel h t D → fdt_ok t' → elements t ≡ₚ e :: elements t' → (∀ x, x ∈ elements t' → fd x ≠ fd e) →
  fds_rel (delete (file_ e) h) t' (delete (fd e) D).
Proof.
  intros [Hok0 Hs Hf Ha Hi Hr] Hok He Hn.
  assert (∀ e', e' ∈ elements t' → e' ∈ elements t) as Hin by (intros e' He'; rewrite He; by right).
  assert (e ∈ elements t) as Hie by (rewrite He; by left).
  assert (∀ e', e' ∈ elements t' → entry_of (delete (file_ e) h) e' = entry_of h e') as Hne.
  { intros e' He'. unfold entry_of. rewrite lookup_delete_ne; [done|]. intros Heq.
    assert (e = e') as <- by (apply Hi; [done|by apply Hin|done]). by apply (Hn e). }
  split; [done|rewrite He in Hs; cbn [length] in Hs; lia|..].
  - intros n x. rewrite lookup_delete_Some, Hf. split.
    + intros (Hx & e' & He' & <- & Hd). rewrite He, elem_of_cons in He'. destruct He' as [->|He']; [done|]. exists e'. by rewrite Hne.
    + intros (e' & He' & <- & Hx). rewrite Hne in Hx by done. split; [intros Heq; by apply (Hn e')|]. exists e'. split; [by apply Hin|done].
  - intros e' He'. rewrite Hne by done. by apply Ha, Hin.
  - intros e1 e2 H1 H2. apply Hi; by apply Hin.
  - intros n x [_ Hx]%lookup_delete_Some. by apply Hr.
Qed.

(** ** Memory *)

Lemma valid_or_exit_run s m p len rest :
  mem_rel (um s) m → 0 ≤ p < 2 ^ 32 → 0 ≤ len < 2 ^ 32 →
  (valid E (p, len) ∧ valid_or_exit pd p len rest s = rest s) ∨
  (¬ valid E (p, len) ∧ valid_or_exit pd p len rest s = Ret (Exits_with (-1), s)).
Proof.
  intros [HR _] Hp Hl. destruct (is_valid_ptr_ok _ _ _ _ p len HR Hp Hl) as (b & Hr & Hb).
  assert (on_um (is_valid_ptr pd p len) s = Ret (b, s)) as Hu.
  { unfold on_um, part. rewrite Hr. by destruct s. }
  unfold valid_or_exit. rewrite (st_bind_ret _ _ _ _ _ Hu). destruct b; [left|right]; (split; [|done]).
  - by apply Hb.
  - intros Hv. by apply Hb in Hv.
Qed.

Lemma readable_byte u m x : mem_rel u m → user_addr x → allows (E (page_no x)) false = true → load8 pd x u = Ret (m x, u).
Proof.
  intros [HR Hm] Hu Ha. rewrite (load8_ok _ _ _ _ _ HR Hu Ha). rewrite Hm; [done|done|].
  unfold allows in Ha. unfold present, flag_in. destruct (E (page_no x)); [|done]. by apply andb_true_iff in Ha as [? _].
Qed.

Lemma user_string_ok u m name : ∀ fuel p,
  mem_rel u m → string_at m p name → (length name < fuel)%nat → accessible E p (Z.of_nat (length name) + 1) false →
  user_string fuel pd p u = Ret (name, u).
Proof.
  induction name as [|c name IH]; intros [|f] p Hm Hs Hf Ha; cbn [length] in *; try lia; cbn [user_string].
  all: destruct (Ha p) as [Hu Hal]; [lia|]; rewrite (st_bind_ret _ _ _ _ _ (readable_byte u m p Hm Hu Hal)).
  - destruct Hs as (_ & _ & Hz). cbn in Hz. by rewrite Z.add_0_r in Hz; rewrite Hz.
  - apply string_at_cons in Hs as (-> & Hc & Hs). rewrite (proj2 (Z.eqb_neq c 0)) by lia.
    rewrite (st_bind_ret _ _ _ _ _ (IH f (p + 1) Hm Hs ltac:(lia) ltac:(intros x Hx; apply Ha; lia))). done.
Qed.

Lemma copy_in_mem u m p n :
  mem_rel u m → accessible E p (Z.of_nat n) false → copy_in pd p n u = Ret (bytes_at m p n, u).
Proof.
  intros [HR Hm] Ha. rewrite (copy_in_ok u pd E O n p HR Ha). do 2 f_equal. unfold ubytes, bytes_at.
  apply list_fmap_ext. intros j x Hj. apply lookup_seq in Hj as [-> Hj]. destruct (Ha (p + Z.of_nat j)) as [Hu Hal]; [lia|].
  apply Hm; [done|]. cbn. unfold allows in Hal. unfold present, flag_in. destruct (E (page_no (p + Z.of_nat j))); [|done].
  by apply andb_true_iff in Hal as [? _].
Qed.

Lemma copy_out_mem u m p bs :
  mem_rel u m → accessible E p (Z.of_nat (length bs)) true →
  ∃ u', copy_out pd p bs u = Ret (tt, u') ∧ mem_rel u' (put_bytes m p bs).
Proof.
  intros [HR Hm] Ha. destruct (copy_out_ok pd E O bs u p HR Ha) as (u' & Hr & HR' & _ & Hb). exists u'. split; [done|].
  split; [done|]. intros x Hx Hp. rewrite Hb by done. unfold put_bytes. by rewrite Hm.
Qed.

(** Keys that are typed. *)
Lemma put_bytes_step m p c bs x : put_bytes (put_bytes m p [c]) (p + 1) bs x = put_bytes m p (c :: bs) x.
Proof.
  unfold put_bytes, within. cbn [length]. destruct (Z.leb_spec p x), (Z.leb_spec (p + 1) x); cbn [andb]; try lia.
  - destruct (Z.ltb_spec x (p + 1 + Z.of_nat (length bs))), (Z.ltb_spec x (p + Z.of_nat (Datatypes.S (length bs)))); try lia.
    + unfold byte_at. replace (Z.to_nat (x - p)) with (Datatypes.S (Z.to_nat (x - (p + 1)))) by lia. done.
    + by rewrite (proj2 (Z.ltb_ge x _)) by lia.
  - assert (x = p) as -> by lia. rewrite !(proj2 (Z.ltb_lt p _)) by lia. by rewrite Z.sub_diag.
Qed.

Lemma mem_rel_ext u m m' : (∀ x, m x = m' x) → mem_rel u m → mem_rel u m'.
Proof. intros He [HR Hm]. split; [done|]. intros x Hx Hp. by rewrite <-He, Hm. Qed.

Lemma read_keys_ok n : ∀ s m b ch r,
  mem_rel (um s) m → accessible E (b + ch) (Z.of_nat n) true →
  ∃ u', read_keys pd n b ch r s = Ret (r + Z.of_nat n, with_keys (λ j, keys s (n + j)%nat) (with_um u' s)) ∧
    mem_rel u' (put_bytes m (b + ch) ((λ j, u8 (keys s j)) <$> seq 0 n)).
Proof.
  induction n as [|n IH]; intros s m b ch r Hm Ha.
  { exists (um s). split; [destruct s; by rewrite Z.add_0_r|]. eapply mem_rel_ext; [|exact Hm]. intros x. unfold put_bytes.
    by rewrite (proj2 (within_false _ _ _)) by (cbn [length fmap list_fmap seq]; lia). }
  cbn [read_keys]. rewrite (st_bind_ret _ _ _ _ _ eq_refl).
  destruct (copy_out_mem (um s) m (b + ch) [u8 (keys s 0%nat)] Hm) as (u1 & Hr1 & Hm1); [intros x Hx; apply Ha; cbn in Hx; lia|].
  cbn [copy_out] in Hr1. apply st_bind_inv in Hr1 as ([] & u0 & Hr1 & Hr0). injection Hr0 as ->.
  set (s1 := with_keys _ s). assert (on_um (store8 pd (b + ch) (u8 (keys s 0%nat))) s1 = Ret (tt, with_um u1 s1)) as Hr2.
  { unfold on_um, part. change (um s1) with (um s). by rewrite Hr1. }
  rewrite (st_bind_ret _ _ _ _ _ Hr2).
  destruct (IH (with_um u1 s1) _ b (ch + 1) (r + 1) Hm1) as (u2 & -> & Hm2); [intros x Hx; apply Ha; lia|].
  exists u2. split; [by replace (r + 1 + Z.of_nat n) with (r + Z.of_nat (Datatypes.S n)) by lia|]. eapply mem_rel_ext; [|exact Hm2]. intros x. rewrite Z.add_assoc.
  rewrite put_bytes_step. f_equal. cbn [seq fmap list_fmap]. f_equal. rewrite <-seq_shift, <-list_fmap_compose. done.
Qed.

(** ** Steps of the calls *)

Lemma part_run {X A} (get : sysst → X) set (m : st X A) s x y : m (get s) = Ret (x, y) → part get set m s = Ret (x, set y s).
Proof. intros Hr. unfold part. by rewrite Hr. Qed.

Lemma on_files_run {A} (m : st S A) s x y :
  m (store (fsys s)) = Ret (x, y) →
  on_fsys (on_store m) s = Ret (x, with_fsys (Fs y (inode_map (fsys s)) (fs_map (fsys s))) s).
Proof. intros Hr. apply part_run. by apply on_store_run. Qed.

Lemma acquire_run s : fs_lock s = false → acquire_fs s = Ret (tt, with_fs_lock true s).
Proof. intros Hl. unfold acquire_fs. by rewrite Hl. Qed.

Lemma release_run s : fs_lock s = true → release_fs s = Ret (tt, with_fs_lock false s).
Proof. intros Hl. unfold release_fs. by rewrite Hl. Qed.

Lemma get_file_run s x f : fheap s !! x = Some f → get_file x s = Ret (f, s).
Proof. intros Hx. unfold get_file. by rewrite Hx. Qed.

Definition run_call (c : call) : st sysst sysres :=
  match c with
  | Create p size => syscall_create pd junk fuel ans p size
  | Remove p => syscall_remove pd junk fuel ans p
  | Open p => syscall_open pd junk fuel inode_allow_write ans p
  | Filesize n => syscall_filesize ans n
  | Read n b size => syscall_read pd ans n b size
  | Write n b size => syscall_write pd ans n b size
  | Seek n p => syscall_seek ans n p
  | Tell n => syscall_tell ans n
  | Close n => syscall_close inode_allow_write ans n
  end.

(** What keeps files from being created, removed and opened in a state. *)
Definition limits_of s a : limits := {|
  l_create := create_blocked (fsys s) (a_names a) (dir_mem ans);
  l_remove := remove_blocked (fsys s) (a_names a) (dir_mem ans);
  l_open := open_blocked (fsys s) (a_names a) (dir_mem ans) (bool_decide (is_Some (file_mem ans)));
  l_fd := fd_mem ans = None;
  l_write := no_write (fsys s) None
|}.

Definition does (m : st sysst sysres) s a (c : call) : Prop :=
  ∃ r s' a', m s = Ret (r, s') ∧ spec E (limits_of s a) a c r a' ∧ sys_rel s' a'.

(** The test of the pointer of a call. *)
Lemma does_pointer s a c p len rest :
  sys_rel s a → pointer c = Some (p, len) → 0 ≤ p < 2 ^ 32 → 0 ≤ len < 2 ^ 32 →
  (valid E (p, len) → does rest s a c) → does (valid_or_exit pd p len rest) s a c.
Proof.
  intros HR Hc Hp Hl Hrest. destruct (valid_or_exit_run s (a_mem a) p len rest (sr_mem _ _ HR) Hp Hl) as [[Hv Hr]|[Hv Hr]].
  - destruct (Hrest Hv) as (r & s' & a' & Hr' & ?). exists r, s', a'. by rewrite Hr.
  - exists (Exits_with (-1)), s, a. split; [done|]. split; [|done]. by eapply spec_bad_pointer.
Qed.

Lemma held_at V D n i p : held V D → D !! n = Some (i, p) → ∃ g, V !! i = Some g ∧ 0 < opens g.
Proof. intros Hh Hn. pose proof (users_pos D n i p Hn) as Hu. destruct (Hh i Hu) as (g & Hg & ?). exists g. split; [done|lia]. Qed.

(** The descriptor that a call is for. *)
Lemma search_does s a c n res k :
  sys_rel s a → bad_fd c = Some (n, res) →
  (∀ s' e i p g, sys_rel s' a → e ∈ elements (fd_hash s') → fd e = n → a_fds a !! n = Some (i, p) →
     fheap s' !! file_ e = Some (File i p false) → a_files a !! i = Some g → 0 < opens g → 0 ≤ p < 2 ^ 31 → RESERVED_INODES ≤ i →
     does (k (Some e)) s' a c) →
  (∀ s', k None s' = Ret (res, s')) →
  does (r ← search ans n; k r) s a c.
Proof.
  intros [H1 H2 H3 H4 H5 H6 H7 H8] Hc Hsome Hnone. pose proof (fr_small _ _ _ H3).
  destruct (fdt_search_ok (hash_mem ans 0) (fd_hash s) n (fr_ok _ _ _ H3)) as (r & t & Hr & Hok & He & Hres); [lia|].
  pose proof (fds_rel_perm _ _ t _ H3 Hok He) as H3'. set (s1 := with_fd_hash t s).
  assert (search ans n s = Ret (r, s1)) as Hs by (by apply part_run). assert (sys_rel s1 a) as HR by done.
  unfold does. setoid_rewrite (st_bind_ret _ _ _ _ _ Hs). destruct r as [e|].
  - destruct Hres as [Hin <-]. assert (e ∈ elements t) as Hin' by (by rewrite He).
    destruct (fr_all _ _ _ H3' e Hin') as [[i p] Hx]. pose proof (proj1 (entry_of_file _ _ _ _) Hx) as Hh.
    assert (a_fds a !! fd e = Some (i, p)) as HD by (apply (fr_fds _ _ _ H3'); by exists e).
    destruct (held_at _ _ _ _ _ H4 HD) as (g & Hg & Ho). destruct (fr_fd _ _ _ H3' _ _ HD) as (_ & ? & ?).
    by apply (Hsome s1 e i p g).
  - exists res, s1, a. split; [by apply Hnone|]. split; [|done]. eapply spec_bad_fd; [done|].
    destruct (a_fds a !! n) as [x|] eqn:HD; [|done]. apply (fr_fds _ _ _ H3) in HD as (e & Hin & Hfd & _). by destruct (Hres e Hin).
Qed.

Lemma filesize_does s a n : sys_rel s a → does (syscall_filesize ans n) s a (Filesize n).
Proof.
  intros HR. eapply search_does; [done|done| |done]. clear s HR. intros s e i p g HR He <- HD Hh Hg Ho Hp Hi.
  destruct HR as [H1 H2 H3 H4 H5 H6 H7 H8]. unfold does.
  setoid_rewrite (st_bind_ret _ _ _ _ _ (acquire_run s H8)). erewrite st_bind_ret by (by apply get_file_run).
  erewrite st_bind_ret by (apply on_files_run, (length_ok i g); [by rewrite <-H2 in Hg|done]).
  erewrite st_bind_ret by (by apply release_run). eexists _, _, a. split; [reflexivity|]. split.
  - destruct a. by eapply spec_filesize.
  - split; cbn; try done.
Qed.

Lemma tell_does s a n : sys_rel s a → does (syscall_tell ans n) s a (Tell n).
Proof.
  intros HR. eapply search_does; [done|done| |done]. clear s HR. intros s e i p g HR He <- HD Hh Hg Ho Hp Hi.
  destruct HR as [H1 H2 H3 H4 H5 H6 H7 H8]. unfold does.
  setoid_rewrite (st_bind_ret _ _ _ _ _ (acquire_run s H8)). erewrite st_bind_ret by (by apply get_file_run).
  erewrite st_bind_ret by reflexivity. erewrite st_bind_ret by (by apply release_run).
  eexists _, _, a. split; [reflexivity|]. split; [destruct a; by eapply spec_tell|]. split; cbn; try done.
Qed.

(** The relation after a descriptor has moved. *)
Lemma held_move V D n i p p' : held V D → D !! n = Some (i, p) → held V (<[n := (i, p')]> D).
Proof. intros Hh Hn j. rewrite (users_move D n i p p' j Hn). apply Hh. Qed.

Lemma seek_does s a n p' : sys_rel s a → pre E fuel a (Seek n p') → does (syscall_seek ans n p') s a (Seek n p').
Proof.
  intros HR Hpre. cbn in Hpre. eapply search_does; [done|done| |done]. clear s HR. intros s e i p g HR He <- HD Hh Hg Ho Hp Hi.
  destruct HR as [H1 H2 H3 H4 H5 H6 H7 H8]. unfold does.
  setoid_rewrite (st_bind_ret _ _ _ _ _ (acquire_run s H8)). erewrite st_bind_ret by (by apply get_file_run).
  rewrite (s32_id p') by lia. unfold file_seek. rewrite (proj2 (Z.leb_le 0 p')) by lia.
  erewrite st_bind_ret by reflexivity. erewrite st_bind_ret by reflexivity. erewrite st_bind_ret by (by apply release_run).
  destruct a as [M V D m o k]. cbn in *. eexists _, _, _. split; [reflexivity|]. split; [by eapply spec_seek|].
  split; cbn; try done; [by eapply fds_rel_move|by eapply held_move].
Qed.

Lemma read_does s a n b size : sys_rel s a → pre E fuel a (Read n b size) → does (syscall_read pd ans n b size) s a (Read n b size).
Proof.
  intros HR (Hb & Hsz & Hacc & Hpos). unfold syscall_read. destruct (Z.eqb_spec size 0) as [->|Hne].
  { exists (eax 0), s, a. split; [done|]. split; [|done]. apply spec_nothing. eauto. }
  eapply does_pointer; [done|cbn; by rewrite (proj2 (Z.eqb_neq size 0))|done|lia|]. intros Hv. specialize (Hacc Hv).
  destruct (Z.eqb_spec n STDIN_FILENO) as [->|Hn].
  - destruct HR as [H1 H2 H3 H4 H5 H6 H7 H8]. unfold does. setoid_rewrite (st_bind_ret _ _ _ _ _ (acquire_run s H8)).
    destruct (read_keys_ok (Z.to_nat size) (with_fs_lock true s) (a_mem a) b 0 0 H5) as (u & Hr & Hm);
      [rewrite Z.add_0_r, Z2Nat.id by lia; done|].
    rewrite (st_bind_ret _ _ _ _ _ Hr). rewrite Z2Nat.id, Z.add_0_l by lia. erewrite st_bind_ret by (by apply release_run).
    destruct a as [M V D m o k]. cbn in *. subst k. eexists _, _, _. split; [reflexivity|]. split; [apply spec_keys; lia|].
    rewrite Z.add_0_r in Hm. split; cbn; try done.
  - eapply search_does; [done| | |done].
    { cbn. by rewrite (proj2 (Z.eqb_neq size 0)), (proj2 (Z.eqb_neq n STDIN_FILENO)). }
    clear s HR. intros s e i p g HR He <- HD Hh Hg Ho Hp Hi. specialize (Hpos i p HD).
    destruct HR as [H1 H2 H3 H4 H5 H6 H7 H8]. unfold does.
    setoid_rewrite (st_bind_ret _ _ _ _ _ (acquire_run s H8)). erewrite st_bind_ret by (by apply get_file_run).
    rewrite (s32_id size) by lia. set (bs := take (Z.to_nat size) (drop (Z.to_nat p) (data g))).
    destruct (InodeStore.read_ok i g size p (store (fsys s))) as (y & Hy & HV); [by rewrite <-H2 in Hg|done|lia|lia|].
    assert (Z.of_nat (length bs) ≤ size) as Hlen by (unfold bs; rewrite length_take; lia).
    erewrite st_bind_ret.
    2: { apply on_files_run. unfold file_read. cbn [f_inode f_pos with_pos]. rewrite (st_bind_ret _ _ _ _ _ Hy). reflexivity. }
    cbv beta iota. fold bs. rewrite (s32_id (p + _)) by lia.
    destruct (copy_out_mem (um s) (a_mem a) b bs H5) as (u & Hu & Hm); [by apply (accessible_le E b size)|].
    erewrite st_bind_ret by (by apply part_run). erewrite st_bind_ret by reflexivity. erewrite st_bind_ret by (by apply release_run).
    destruct a as [M V D m o k]. cbn in *. eexists _, _, _. split; [reflexivity|]. split; [eapply spec_read; [done|done|done|lia]|].
    assert (files (Fs y (inode_map (fsys s)) (fs_map (fsys s))) = V) as HV' by (by rewrite <-H2).
    split; cbn; try done; [unfold fs_rel; by rewrite HV', <-H2|eapply fds_rel_move; [done..|lia]|by eapply held_move].
Qed.

Lemma bytes_at_take m b n w : (w ≤ n)%nat → take w (bytes_at m b n) = bytes_at m b w.
Proof. intros Hw. unfold bytes_at. rewrite <-fmap_take, take_seq. by rewrite Nat.min_l. Qed.

Lemma write_does s a n b size : sys_rel s a → pre E fuel a (Write n b size) → does (syscall_write pd ans n b size) s a (Write n b size).
Proof.
  intros HR (Hb & Hsz & Hacc & Hpos). unfold syscall_write. destruct (Z.eqb_spec size 0) as [->|Hne].
  { exists (eax 0), s, a. split; [done|]. split; [|done]. apply spec_nothing. eauto. }
  eapply does_pointer; [done|cbn; by rewrite (proj2 (Z.eqb_neq size 0))|done|lia|]. intros Hv. specialize (Hacc Hv).
  rewrite <-(Z2Nat.id size) in Hacc by lia. destruct (Z.eqb_spec n STDOUT_FILENO) as [->|Hn].
  - destruct HR as [H1 H2 H3 H4 H5 H6 H7 H8]. unfold does. setoid_rewrite (st_bind_ret _ _ _ _ _ (acquire_run s H8)).
    erewrite st_bind_ret by (by apply part_run, copy_in_mem). erewrite st_bind_ret by reflexivity.
    erewrite st_bind_ret by (by apply release_run).
    destruct a as [M V D m o k]. cbn in *. subst o. eexists _, _, _. split; [reflexivity|]. split; [apply spec_console; lia|].
    split; cbn; try done.
  - eapply search_does; [done| | |done].
    { cbn. by rewrite (proj2 (Z.eqb_neq size 0)), (proj2 (Z.eqb_neq n STDOUT_FILENO)). }
    clear s HR. intros s e i p g HR He <- HD Hh Hg Ho Hp Hi. destruct (Hpos i p HD) as [Hps Hend]. specialize (Hend g Hg).
    destruct HR as [H1 H2 H3 H4 H5 H6 H7 H8]. unfold does.
    setoid_rewrite (st_bind_ret _ _ _ _ _ (acquire_run s H8)). erewrite st_bind_ret by (by apply get_file_run).
    rewrite (s32_id size) by lia. erewrite st_bind_ret by (by apply part_run, copy_in_mem).
    set (bs := bytes_at (a_mem a) b (Z.to_nat size)). assert (length bs = Z.to_nat size) as Hlen
      by (unfold bs, bytes_at; by rewrite length_fmap, length_seq).
    destruct (InodeStore.write_ok i g bs p (store (fsys s))) as (w & y & Hy & Hw & HV); [by rewrite <-H2 in Hg|done|lia|].
    rewrite Hlen, Z2Nat.id in Hw by lia. unfold bs in HV. rewrite bytes_at_take in HV by lia.
    erewrite st_bind_ret.
    2: { apply on_files_run. unfold file_write. cbn [f_inode f_pos with_pos]. rewrite (st_bind_ret _ _ _ _ _ Hy). reflexivity. }
    cbv beta iota. rewrite (s32_id (p + _)) by lia.
    erewrite st_bind_ret by reflexivity. erewrite st_bind_ret by (by apply release_run).
    destruct a as [M V D m o k]. cbn in *. eexists _, _, _. split; [reflexivity|]. split; [eapply spec_write; [done|done|lia|lia|]|].
    { intros Hlt. exists (store (fsys s)), y. split; [done|]. eexists _, _, w. split; [exact Hy|lia]. }
    set (V' := <[i := _]> V). assert (files (Fs y (inode_map (fsys s)) (fs_map (fsys s))) = V') as HV' by (unfold V'; by rewrite <-H2).
    split; cbn; try done.
    + unfold fs_rel. rewrite HV'. apply fs_inv_data; [by rewrite <-H2|done|done].
    + eapply fds_rel_move; [done..|lia].
    + eapply held_move; [|done]. intros j Hj. destruct (H4 j Hj) as (g' & Hg' & Hu). unfold V'.
      destruct (decide (i = j)) as [<-|Hij]; [|exists g'; by rewrite lookup_insert_ne].
      rewrite lookup_insert_eq. eexists. split; [done|]. rewrite Hg in Hg'. by injection Hg' as <-.
Qed.

Lemma held_closed V D n i p g : held V D → D !! n = Some (i, p) → V !! i = Some g → held (closed i g V) (delete n D).
Proof.
  intros Hh HD Hg j Hj. pose proof (users_delete D n i p j HD) as Hu. destruct (Hh j) as (g' & Hg' & Hle); [case_decide; lia|].
  unfold closed. destruct (decide (i = j)) as [<-|Hij].
  - rewrite Hg in Hg'. injection Hg' as <-. rewrite (proj2 (Z.eqb_neq (opens g) 1)) by lia. cbn [andb].
    rewrite lookup_insert_eq. eexists. split; [done|]. cbn. lia.
  - exists g'. split; [|lia]. destruct (_ && _); [by rewrite lookup_delete_ne|by rewrite lookup_insert_ne].
Qed.

Lemma close_does s a n : sys_rel s a → does (syscall_close inode_allow_write ans n) s a (Close n).
Proof.
  intros HR. eapply search_does; [done|done| |done]. clear s HR. intros s e i p g HR He <- HD Hh Hg Ho Hp Hi.
  destruct HR as [H1 H2 H3 H4 H5 H6 H7 H8]. pose proof (fr_small _ _ _ H3). unfold does.
  setoid_rewrite (st_bind_ret _ _ _ _ _ (acquire_run s H8)).
  destruct (fdt_close_ok (hash_mem ans 1).1 (fd_hash s) e (fr_ok _ _ _ H3)) as (t & Ht & Hok & Hel & Hno); [lia|done|].
  erewrite st_bind_ret; [|apply part_run; cbn [fd_hash with_fs_lock]; rewrite Ht; reflexivity].
  destruct (InodeStore.close_ok i g (store (fsys s))) as (y & Hy & HV); [by rewrite <-H2 in Hg|done|].
  erewrite st_bind_ret; [|unfold close_file; erewrite st_bind_ret by (by apply get_file_run);
    erewrite st_bind_ret by (apply on_files_run; exact Hy); reflexivity].
  erewrite st_bind_ret by (by apply release_run).
  destruct a as [M V D m o k]. cbn in *. eexists _, _, _. split; [reflexivity|]. split; [by eapply spec_close|].
  assert (files (Fs y (inode_map (fsys s)) (fs_map (fsys s))) = closed i g V) as HV' by (by rewrite <-H2).
  split; cbn; try done.
  - unfold fs_rel. rewrite HV'. apply fs_inv_closed; [by rewrite <-H2|done|done|].
    unfold INODE_MAP_INODE, RESERVED_INODES in *. lia.
  - by eapply fds_rel_close.
  - by eapply held_closed.
Qed.

(** ** Calls on one descriptor *)

(** A [seek] to a position of 2^31 or more on an open descriptor stops the
    kernel: the position becomes negative as an [off_t] and [file_seek] asserts
    that it is not. *)
Theorem seek_far_panics s a n position x :
  sys_rel s a → a_fds a !! n = Some x → 2 ^ 31 ≤ position < 2 ^ 32 → syscall_seek ans n position s = Panic.
Proof.
  intros [H1 H2 H3 H4 H5 H6 H7 H8] HD Hp. pose proof (fr_small _ _ _ H3). unfold syscall_seek.
  destruct (fdt_search_ok (hash_mem ans 0) (fd_hash s) n (fr_ok _ _ _ H3)) as (r & t & Hr & Hok & He & Hres); [lia|].
  assert (search ans n s = Ret (r, with_fd_hash t s)) as Hs by (by apply part_run). rewrite (st_bind_ret _ _ _ _ _ Hs).
  apply (fr_fds _ _ _ H3) in HD as (e & Hin & Hfd & Hx). destruct r as [e'|]; [|by destruct (Hres e Hin)].
  destruct Hres as [Hin' Hfd']. assert (e' = e) as -> by (apply (fd_unique (fd_hash s)); [apply H3|done|done|congruence]).
  destruct x as [i p]. apply entry_of_file in Hx.
  rewrite (st_bind_ret _ _ _ _ _ (acquire_run (with_fd_hash t s) H8)). erewrite st_bind_ret by (by apply get_file_run).
  assert (s32 position < 0) as Hneg by (unfold s32; zlia). unfold file_seek. rewrite (proj2 (Z.leb_gt 0 _)) by lia. done.
Qed.

(** ** Calls with names *)

Lemma unmarked_unused V m M h t D i :
  fs_inv V m M → held V D → fds_rel h t D → ¬ marked m i → unused M D i.
Proof.
  intros HI Hh HD Hm. split; [intros name Hn; apply Hm, (fi_names _ _ _ HI name i Hn)|].
  destruct (decide (0 < users D i)) as [Hu|]; [|unfold users in *; lia]. destruct (Hh i Hu) as (g & Hg & Ho).
  destruct (users_inv D i Hu) as (n & p & Hn). destruct (fr_fd _ _ _ HD n _ Hn) as (_ & Hi & _).
  destruct Hm. eapply fi_open; [done..|lia].
Qed.

(** Files that are open stay. *)
Lemma held_other V V' h t D x :
  held V D → fds_rel h t D → other_files V V' x →
  (∀ i, x = Some i → 0 < users D i → ∃ g g', V !! i = Some g ∧ V' !! i = Some g' ∧ opens g ≤ opens g') → held V' D.
Proof.
  intros Hh HD Ho Hx i Hu. destruct (Hh i Hu) as (g & Hg & Hle). destruct (decide (x = Some i)) as [->|Hne].
  - destruct (Hx i eq_refl Hu) as (g0 & g' & Hg0 & Hg' & ?). exists g'. split; [done|]. rewrite Hg in Hg0. injection Hg0 as <-. lia.
  - destruct (users_inv D i Hu) as (n & p & Hn). destruct (fr_fd _ _ _ HD n _ Hn) as (_ & Hi & _).
    exists g. rewrite Ho; [done|done|congruence].
Qed.

Context (Hjunk : length junk = 20%nat).

Lemma create_does s a p size :
  sys_rel s a → room fuel (a_files a) → pre E fuel a (Create p size) → does (syscall_create pd junk fuel ans p size) s a (Create p size).
Proof.
  intros HR Hroom (Hp & Hsz & Hstr). eapply does_pointer; [done|done|done|lia|]. intros Hv.
  destruct (Hstr Hv) as (name & Hat & Hf & Hacc). destruct HR as [H1 H2 H3 H4 H5 H6 H7 H8]. unfold does.
  setoid_rewrite (st_bind_ret _ _ _ _ _ (acquire_run s H8)). erewrite st_bind_ret by (by apply part_run, user_string_ok with (m := a_mem a)).
  rewrite (s32_id size) by lia.
  destruct (filesys_create_ok junk fuel Hjunk (fsys s) (a_names a) (dir_mem ans) name size H1) as (b & y & Hr & Hc);
    [by rewrite H2|apply Hat|lia|].
  erewrite st_bind_ret by (by apply part_run). erewrite st_bind_ret by (by apply release_run).
  destruct a as [M V D m o k]. cbn in *. rewrite H2 in *.
  assert (∀ i, ¬ marked (inode_map (fsys s)) i → unused M D i) as Hun.
  { intros i. eapply unmarked_unused; [|done|done]. unfold fs_rel in H1. by rewrite H2 in H1. }
  destruct b; cbn [Z.b2z].
  - destruct Hc as (i & Hvn & HM & Hi & HI & Hfile & Ho). eexists _, _, _. split; [reflexivity|].
    split; [by eapply spec_create; eauto|]. split; cbn; try done.
    eapply held_other; [done|done|done|]. intros j [= <-] Hu. destruct (Hun i Hi). lia.
  - destruct Hc as (HI & Hblk & x & Hx & Ho). eexists _, _, _. split; [reflexivity|].
    split; [eapply spec_create_fails; [exact Hat|exact Hblk| |exact Ho]; intros i Hi; by apply Hun, Hx|].
    split; cbn; try done. eapply held_other; [done|done|done|]. intros j Hj Hu. destruct (Hun j); [by apply Hx|lia].
Qed.

Lemma remove_does s a p :
  sys_rel s a → room fuel (a_files a) → pre E fuel a (Remove p) → does (syscall_remove pd junk fuel ans p) s a (Remove p).
Proof.
  intros HR Hroom (Hp & Hstr). eapply does_pointer; [done|done|done|lia|]. intros Hv.
  destruct (Hstr Hv) as (name & Hat & Hf & Hacc). destruct HR as [H1 H2 H3 H4 H5 H6 H7 H8]. unfold does.
  setoid_rewrite (st_bind_ret _ _ _ _ _ (acquire_run s H8)). erewrite st_bind_ret by (by apply part_run, user_string_ok with (m := a_mem a)).
  destruct (filesys_remove_ok junk fuel Hjunk (fsys s) (a_names a) (dir_mem ans) name H1) as (b & y & Hr & Hc); [by rewrite H2|].
  erewrite st_bind_ret by (by apply part_run). erewrite st_bind_ret by (by apply release_run).
  destruct a as [M V D m o k]. cbn in *. rewrite H2 in *. destruct b; cbn [Z.b2z].
  - destruct Hc as (i & g & HM & Hg & HI & Ho & Hat'). eexists _, _, _. split; [reflexivity|]. split; [by eapply spec_remove|]. split; cbn; try done.
    eapply held_other; [done|done|done|]. intros j [= <-] Hu. destruct (H4 i Hu) as (g0 & Hg0 & Hle). rewrite Hg in Hg0.
    injection Hg0 as <-. exists g, (with_removed g). rewrite Hat', (proj2 (Z.eqb_neq _ _)) by lia. done.
  - destruct Hc as (HI & Ho & Hblk). eexists _, _, _. split; [reflexivity|]. split; [by eapply spec_remove_fails|]. split; cbn; try done.
    eapply held_other; [done|done|done|by intros ? [=]].
Qed.

(** What the allocators answer for an [open]. *)
Definition answers_ok s : Prop :=
  (∀ x, file_mem ans = Some x → fheap s !! x = None) ∧ (∀ e, fd_mem ans = Some e → e ≠ on_stack) ∧
  (length (elements (fd_hash s)) < fuel)%nat ∧ Z.of_nat (length (elements (fd_hash s))) + 1 < 2 ^ 31 - 4.

Lemma fds_rel_heap h t D x f : fds_rel h t D → h !! x = None → fds_rel (<[x := f]> h) t D.
Proof.
  intros [Hok Hs Hf Ha Hi Hr] Hx. assert (∀ e, e ∈ elements t → entry_of (<[x := f]> h) e = entry_of h e) as He.
  { intros e He. unfold entry_of. destruct (decide (x = file_ e)) as [->|Hne]; [|by rewrite lookup_insert_ne].
    destruct (Ha e He) as [y Hy]. unfold entry_of in Hy. by rewrite Hx in Hy. }
  split; try done.
  - intros n y. rewrite Hf. split; intros (e & Hin & Hfd & Hy); exists e; rewrite He in * by done; done.
  - intros e Hin. rewrite He by done. by apply Ha.
Qed.

Lemma open_does s a p :
  sys_rel s a → room fuel (a_files a) → answers_ok s → pre E fuel a (Open p) →
  does (syscall_open pd junk fuel inode_allow_write ans p) s a (Open p).
Proof.
  intros HR Hroom (Hfr1 & Hfr2 & Hfuel & Hmax) (Hp & Hstr). eapply does_pointer; [done|done|done|lia|]. intros Hv.
  destruct (Hstr Hv) as (name & Hat & Hf & Hacc). destruct HR as [H1 H2 H3 H4 H5 H6 H7 H8]. unfold does.
  setoid_rewrite (st_bind_ret _ _ _ _ _ (acquire_run s H8)). erewrite st_bind_ret by (by apply part_run, user_string_ok with (m := a_mem a)).
  destruct (filesys_open_ok junk fuel Hjunk (fsys s) (a_names a) (dir_mem ans) (bool_decide (is_Some (file_mem ans))) name H1)
    as (r & y & Hr & HI & Hc); [by rewrite H2|].
  erewrite st_bind_ret by (by apply part_run). erewrite st_bind_ret by (by apply release_run).
  rewrite H2 in *. destruct a as [M V D m o k]. cbn in H1, H2, H3, H4, H5, H6, H7, HI, Hat, Hroom, Hc |- *.
  assert (∀ x, other_files V (files y) x → (∀ i, x = Some i → 0 < users D i → ∃ g g', V !! i = Some g ∧ files y !! i = Some g' ∧ opens g ≤ opens g') →
    held (files y) D) as Hheld by (intros x; by eapply held_other).
  destruct r as [[i q d]|].
  2: { destruct Hc as [Hc Hblk]. eexists _, _, _. split; [reflexivity|]. split; [by eapply spec_open_fails|]. split; cbn; try done.
       eapply Hheld; [exact Hc|by intros ? [=]]. }
  cbn [f_inode f_pos f_deny_write] in Hc. destruct Hc as (Hfm & HM & -> & -> & (g & Hg & Hg') & Ho).
  assert (held (files y) D) as Hheld'.
  { eapply Hheld; [done|]. intros j [= <-] Hu. eexists _, _. split; [done|]. split; [done|]. cbn. lia. }
  destruct (file_mem ans) as [x|] eqn:Hmem.
  2: { by apply bool_decide_eq_true in Hfm as [? [=]]. }
  specialize (Hfr1 x eq_refl). erewrite st_bind_ret by reflexivity. destruct (fd_mem ans) as [e|] eqn:Hfdm.
  2: { eexists _, _, _. split; [reflexivity|]. split; [by eapply spec_open_leaks|]. split; cbn; try done. by apply fds_rel_heap. }
  destruct (fdt_insert_ok (hash_mem ans) (fd_hash s) (FD e 0 x) fuel (fr_ok _ _ _ H3)) as (n & t & Ht & Hok & Hel & Hn & Hnew & Hlow);
    [by apply Hfr2|lia|done|].
  erewrite st_bind_ret by (apply part_run; exact Ht). eexists _, _, _. split; [reflexivity|]. cbn [fd file_ fd_addr] in *.
  assert (RESERVED_INODES ≤ i) as Hi by apply (fi_names _ _ _ HI name i HM). unfold INT32_MAX in Hn.
  destruct (fds_rel_open _ _ t D (FD e n x) i n H3 Hok Hmax Hel Hfr1 eq_refl Hnew) as [HD Hrel]; [lia|done|].
  split; [eapply spec_open; try done; [lia|]|].
  - intros j Hj. destruct (Hlow j Hj) as (e' & He' & <-). destruct (fr_all _ _ _ H3 e' He') as [z Hz]. exists z.
    apply (fr_fds _ _ _ H3). by exists e'.
  - split; cbn; try done. intros j. rewrite users_insert by done. case_decide as Hij; [subst j|rewrite Z.add_0_r; apply Hheld'].
    intros _. exists (with_opens (opens g + 1) g). split; [done|]. cbn. destruct (decide (0 < users D i)) as [Hu|Hu].
    + destruct (H4 i Hu) as (g0 & Hg0 & ?). rewrite Hg in Hg0. injection Hg0 as <-. lia.
    + pose proof (proj1 (fi_settled _ _ _ H1 i g ltac:(by rewrite H2))). lia.
Qed.

(** ** The handler *)

Lemma run_call_does s a c :
  sys_rel s a → room fuel (a_files a) → answers_ok s → pre E fuel a c → does (run_call c) s a c.
Proof.
  intros HR Hroom Hans Hpre. destruct c; cbn [run_call].
  - by apply create_does.
  - by apply remove_does.
  - by apply open_does.
  - by apply filesize_does.
  - by apply read_does.
  - by apply write_does.
  - by apply seek_does.
  - by apply tell_does.
  - by apply close_does.
Qed.

(** The word at an address, and the call whose number and arguments are on the
    stack. *)
Definition word (m : Z → Z) (p : Z) : Z := word_at (bytes_at m p 4) 0.

Definition call_at (m : Z → Z) (esp : Z) : option call :=
  let nr := s32 (word m esp) in
  let w i := word m (esp + 4 * i) in
  if nr =? SYS_CREATE then Some (Create (w 1) (w 2))
  else if nr =? SYS_REMOVE then Some (Remove (w 1))
  else if nr =? SYS_OPEN then Some (Open (w 1))
  else if nr =? SYS_FILESIZE then Some (Filesize (s32 (w 1)))
  else if nr =? SYS_READ then Some (Read (s32 (w 1)) (w 2) (w 3))
  else if nr =? SYS_WRITE then Some (Write (s32 (w 1)) (w 2) (w 3))
  else if nr =? SYS_SEEK then Some (Seek (s32 (w 1)) (w 2))
  else if nr =? SYS_TELL then Some (Tell (s32 (w 1)))
  else if nr =? SYS_CLOSE then Some (Close (s32 (w 1)))
  else None.

Definition nargs (c : call) : Z :=
  match c with
  | Read _ _ _ | Write _ _ _ => 3
  | Create _ _ | Seek _ _ => 2
  | _ => 1
  end.

Lemma load32_mem u m p : mem_rel u m → accessible E p 4 false → load32 pd p u = Ret (word m p, u).
Proof. intros Hm Ha. unfold load32. by rewrite (st_bind_ret _ _ _ _ _ (copy_in_mem u m p 4 Hm Ha)). Qed.

Lemma on_um_same {A} (m : st (pgstate P) A) s x : m (um s) = Ret (x, um s) → on_um m s = Ret (x, s).
Proof. intros Hr. unfold on_um. rewrite (part_run _ _ _ _ _ _ Hr). by destruct s. Qed.

Lemma allows_present e : allows e false = true → present e = true.
Proof. unfold allows, present, flag_in. destruct e; [|done]. by intros [? _]%andb_true_iff. Qed.

Lemma syscall_arg_run s m esp i rest :
  mem_rel (um s) m → accessible E (esp + 4 * i) 4 false → 4096 ≤ esp + 4 * i →
  syscall_arg pd esp i rest s = rest (word m (esp + 4 * i)) s.
Proof.
  intros Hm Ha Hp. destruct (Ha (esp + 4 * i)) as [Hu Hal]; [lia|]. unfold user_addr, PHYS_BASE in Hu. unfold syscall_arg, u32.
  rewrite Z.mod_small by lia.
  destruct (valid_or_exit_run s m (esp + 4 * i) 0 (w ← on_um (load32 pd (esp + 4 * i)); rest w) Hm) as [[_ ->]|[Hv _]]; [lia|lia| |].
  - by rewrite (st_bind_ret _ _ _ _ _ (on_um_same _ _ _ (load32_mem _ _ _ Hm Ha))).
  - destruct Hv. split; [done|]. split; [cbn; unfold PHYS_BASE; lia|]. by apply allows_present.
Qed.

Context (process_execute process_wait : Z → st (sysst (P := P) (S := S)) Z).

(** The handler finds the call on the stack. *)
Lemma handler_run s m esp c :
  mem_rel (um s) m → 4096 ≤ esp → call_at m esp = Some c → accessible E esp (4 * (1 + nargs c)) false →
  syscall_handler pd junk fuel inode_allow_write process_execute process_wait ans esp s = run_call c s.
Proof.
  intros Hm Hesp Hc Ha. assert (1 ≤ nargs c ≤ 3) as Hn by (destruct c; cbn; lia).
  assert (∀ i, 0 ≤ i ≤ nargs c → accessible E (esp + 4 * i) 4 false) as Hacc by (intros i Hi x Hx; apply Ha; lia).
  assert (∀ i rest s', 0 ≤ i ≤ nargs c → um s' = um s → syscall_arg pd esp i rest s' = rest (word m (esp + 4 * i)) s') as Harg
    by (intros i rest s' Hi Hs; apply syscall_arg_run; [by rewrite Hs|by apply Hacc|lia]).
  pose proof (Hacc 0 ltac:(lia)) as Ha0. rewrite Z.add_0_r in Ha0. destruct (Ha0 esp) as [Hu Hal]; [lia|].
  pose proof Hu as Hu'. unfold user_addr, PHYS_BASE in Hu'. unfold syscall_handler.
  edestruct (valid_or_exit_run s m esp 0) as [[_ ->]|[Hv _]]; [exact Hm|lia|lia| |].
  2: { destruct Hv. split; [done|]. split; [cbn; unfold PHYS_BASE; lia|]. by apply allows_present. }
  assert (on_um (validate_esp pd esp) s = Ret (false, s)) as Hve.
  { apply on_um_same. destruct Hm as [[[T HR] _] _]. cbn in HR. unfold validate_esp.
    rewrite (st_bind_ret _ _ _ _ _ (get_page_run _ _ _ _ _ _ HR Hu)). unfold allows in Hal. destruct (E (page_no esp)) as [w|]; [|done].
    apply andb_true_iff in Hal as [-> _]. rewrite (proj2 (Z.eqb_neq _ 0)); [done|]. unfold frame_of, PHYS_BASE.
    pose proof (Z.mod_pos_bound esp 4096). assert (0 ≤ Z.land w PTE_ADDR) by (apply Z.land_nonneg; right; unfold PTE_ADDR; lia). lia. }
  rewrite (st_bind_ret _ _ _ _ _ Hve). cbv iota.
  rewrite (st_bind_ret _ _ _ _ _ (on_um_same _ _ _ (load32_mem _ _ _ Hm Ha0))).
  unfold call_at in Hc. destruct (s32 (word m esp)) as [|nr|nr] eqn:Hnr; [done| |done].
  unfold dispatch, SYS_HALT, SYS_EXIT, SYS_EXEC, SYS_WAIT, SYS_CREATE, SYS_REMOVE, SYS_OPEN, SYS_FILESIZE, SYS_READ, SYS_WRITE,
    SYS_SEEK, SYS_TELL, SYS_CLOSE in *.
  repeat match type of Hc with
         | (if ?b then _ else _) = _ =>
             let H := fresh in destruct b eqn:H;
               [apply Z.eqb_eq in H; rewrite H; injection Hc as <-; cbn [Z.eqb Pos.eqb nargs] in *;
                rewrite ?Harg by (lia || done); done|]
         end. done.
Qed.

(** ** The properties *)


End calls.

(** ** A process with an open file *)

(** The process of [UserMem] with the call [write (2, 0xbffff010, 4)] on its
    stack; descriptor 2 is an empty file that was removed while open. *)
Definition ex_stack : list Z := [9; 0; 0; 0; 2; 0; 0; 0; 0x10; 0xf0; 0xff; 0xbf; 4; 0; 0; 0; 97; 98; 99; 100].

Definition ex_files : gmap Z ifile :=
  {[ ROOT_DIR_INODE := IFile (replicate 320 0) 0 false; INODE_MAP_INODE := IFile [] 1 false; 3 := IFile [] 1 true ]}.

Definition ex_fs : fs :=
  Fs ex_files (FreeMap (Some INODE_MAP_INODE) (Bitmap.Bitmap 40 [15; 0]) INODE_MAP_INODE false)
    (FreeMap None (Bitmap.Bitmap 0 []) 0 false).

Definition ex_heap : gmap Z file := {[ 100 := File 3 0 false ]}.
Definition ex_fds : gmap Z (Z * Z) := {[ 2 := (3, 0) ]}.

Lemma ex_fs_rel : fs_rel ex_fs ∅.
Proof.
  assert (∀ i g, ex_files !! i = Some g → (i < RESERVED_INODES ∨ i = 3) ∧ settled g) as Hall.
  { intros i g. unfold ex_files. rewrite !lookup_insert_Some, lookup_singleton_Some.
    intros [[<- <-]|[_ [[<- <-]|[_ [<- <-]]]]]; (split; [by (left + right)|split; cbn; [lia|done]]). }
  split.
  - eexists. split; [reflexivity|]. split; [done|]. apply empty_dir.
  - exists (IFile [] 1 false). split; [split; [done|done|repeat constructor; done]|done..].
  - done.
  - intros i g Hg. by apply (Hall i g).
  - intros nm i. by rewrite lookup_empty.
  - intros nm nm' i. by rewrite lookup_empty.
  - intros i g Hg Hi Ho. destruct (Hall i g Hg) as [[? | ->] _]; [lia|]. split; [done|]. vm_compute. reflexivity.
Qed.

Lemma ex_fds_rel : ∃ t, fds_rel ex_heap t ex_fds ∧ (length (elements t) < 40)%nat.
Proof.
  destruct (hash_init_wf fdt_hash fdt_cmp _ eq_refl) as [Hw0 He0].
  destruct (hash_insert_ok fdt_hash fdt_cmp true _ (FD 200 2 100) Hw0) as (t & _ & Hw & He); [cbn; lia|].
  cbn in He. exists t. assert (∀ e, e ∈ elements t ↔ e = FD 200 2 100) as Hin.
  { intros e. by rewrite He, list_elem_of_singleton. }
  split; [|rewrite He; cbn; lia]. split.
  - split; [done|]. intros e He'%Hin. by subst e.
  - rewrite He. cbn. lia.
  - intros n x. unfold ex_fds. rewrite lookup_singleton_Some. setoid_rewrite Hin. split.
    + intros [<- <-]. eexists. split; [done|]. split; [done|]. reflexivity.
    + intros (e & -> & <- & Hx). split; [done|]. destruct x as [i p]. apply entry_of_file in Hx. by injection Hx as <- <-.
  - intros e ->%Hin. by eexists.
  - by intros e e' ->%Hin ->%Hin.
  - intros n x. unfold ex_fds. rewrite lookup_singleton_Some. intros [<- <-]. unfold RESERVED_INODES. cbn. lia.
Qed.

Lemma ex_stack_page E w : pd_rel ex_process.2 ex_process.1 (E, [(0xc0100000, 1)]) → accessible E 0xbffff000 (4095 + 1) w.
Proof.
  intros HR. apply region_accessible; [lia|lia|reflexivity|]. intros a Ha.
  replace (page_no a) with (page_no 0xbffff000) by (unfold page_no; zlia).
  rewrite (allows_translate _ _ E _ _ w HR) by (unfold user_addr, PHYS_BASE; lia). destruct w; vm_compute; reflexivity.
Qed.

Lemma ex_sys_rel :
  ∃ E m s, sys_rel ex_process.1 E [(0xc0100000, 1)] s (AState ∅ ex_files ex_fds (put_bytes m 0xbffff000 ex_stack) [] (λ _, 0)) ∧
    (∀ w, accessible E 0xbffff000 4096 w) ∧ (length (elements (fd_hash s)) < 40)%nat ∧ fheap s = ex_heap.
Proof.
  destruct ex_process_rel as [E HR]. exists E, (ubyte (pmem ex_process.2) E).
  assert (∀ w, accessible E 0xbffff000 4096 w) as Ha by (intros w; exact (ex_stack_page E w HR)).
  destruct (copy_out_mem ex_process.1 E [(0xc0100000, 1)] ex_process.2 (ubyte (pmem ex_process.2) E) 0xbffff000 ex_stack) as (u & _ & Hm).
  { split; [exact HR|]. reflexivity. }
  { apply (accessible_le E 0xbffff000 4096); [apply Ha|cbn; lia]. }
  destruct ex_fds_rel as (t & Ht & Hlen). exists (Sys u ex_fs ex_heap t false [] (λ _, 0)).
  split; [|split; [exact Ha|split; [exact Hlen|reflexivity]]]. split; cbn; [exact ex_fs_rel|reflexivity|exact Ht| |exact Hm|reflexivity..].
  intros i Hu. destruct (users_inv _ _ Hu) as (n & p & Hn). unfold ex_fds in Hn. apply lookup_singleton_Some in Hn as [<- [= <- <-]].
  exists (IFile [] 1 true). split; [reflexivity|]. vm_compute. discriminate.
Qed.

Lemma ex_write_pre E m :
  accessible E 0xbffff000 4096 false →
  pre E 40 (AState ∅ ex_files ex_fds (put_bytes m 0xbffff000 ex_stack) [] (λ _, 0)) (Write 2 0xbffff010 4).
Proof.
  intros Ha. split; [lia|]. split; [lia|]. split; [intros _ x Hx; apply Ha; lia|].
  cbn [a_fds a_files]. intros i p Hp. unfold ex_fds in Hp. apply lookup_singleton_Some in Hp as [_ [= <- <-]]. split; [lia|].
  intros g _. lia.
Qed.

Definition ex_answers : answers := Answers true (Some 104) (Some 204) (λ _, (true, true)).


Lemma seek_far_panics_witness :
  ∃ s : sysst (P := Palloc.pstate) (S := gmap Z ifile),
    syscall_seek (Answers true None None (λ _, (true, true))) 2 0x80000000 s = Panic.
Proof.
  destruct ex_sys_rel as (E & m & s & HR & _). exists s.
  apply (seek_far_panics ex_process.1 (λ _, mret tt) (Answers true None None (λ _, (true, true))) E _ s _ 2 0x80000000 (3, 0) HR); [reflexivity|lia].
Defined.
