(* ===== verification/InodeIndex.v ===== *)
(** * The index of an inode ([filesys/inode.c]: [inode_lookup] and the functions
    it calls)

    A small file has the numbers of its six sectors in its inode.  In a large
    file the first five of these are sectors with 128 numbers each and the
    sixth is a sector of 128 such sectors.  The buffer cache is seen through the
    contents it presents for each sector.  The theorem shows that looking a
    block up is indexing the list of the sectors of the file, which the code
    never builds. *)

From stdpp Require Import functions.
From stdpp Require Import base tactics list numbers option.
From Stdlib Require Import ZArith Lia.
From S2P Require Import Prelude Load.

Definition DIRECT_SECTORS : Z := 6.
Definition DOUBIND_SECTOR : Z := 5.
Definition BLOCKNUMS_PER_IND : Z := 128.
Definition INODES_PER_SECTOR : Z := 16.
Definition INODE_SIZE : Z := 32.
Definition BLOCK_SECTOR_SIZE : Z := 512.
Definition INODE_ERROR : Z := 2 ^ 32 - 1.

Definition bytes_to_sectors (size : Z) : Z := u32 (Z.quot (s32 (size + BLOCK_SECTOR_SIZE - 1)) BLOCK_SECTOR_SIZE).
Definition byte_ofs_inode_sector (inumber : Z) : Z := (inumber mod INODES_PER_SECTOR) * INODE_SIZE.

Definition inode_sector_from_inumber (num_inodes inumber : Z) : Z :=
  if num_inodes <=? inumber then INODE_ERROR else inumber / INODES_PER_SECTOR.

(** The members of [struct inode] that a lookup uses. *)
Record inode : Type := Inode {
  inumber : Z;
  sector : Z;
  large : bool
}.

Section index.
(** The contents of each sector, as the cache presents them. *)
Context (cached : Z → list Z).

(** [i_sectors[block_idx]] of the inode's entry in its sector. *)
Definition direct_lookup (i : inode) (block_idx : Z) : outcome Z :=
  if (0 <=? block_idx) && (block_idx <? DIRECT_SECTORS) then
    let inode_ofs := inumber i mod INODES_PER_SECTOR in
    Ret (word_at (cached (sector i)) (Z.to_nat (inode_ofs * INODE_SIZE + 4 * block_idx)))
  else Panic.

(** An offset outside of the sector, which the code does not test for, counts
    as a failure. *)
Definition lookup_in_sector (file_data_sector sector_ofs : Z) : outcome Z :=
  if 4 * sector_ofs + 4 <=? BLOCK_SECTOR_SIZE then Ret (word_at (cached file_data_sector) (Z.to_nat (4 * sector_ofs)))
  else Panic.

Definition indirect_lookup (indirect_sector block_idx : Z) : outcome Z :=
  let indirect_idx := block_idx / BLOCKNUMS_PER_IND in
  if indirect_idx <? DOUBIND_SECTOR then lookup_in_sector indirect_sector (block_idx mod BLOCKNUMS_PER_IND)
  else lookup_in_sector indirect_sector (indirect_idx - DOUBIND_SECTOR).

Definition dindirect_lookup (dindirect_sector block_idx : Z) : outcome Z :=
  lookup_in_sector dindirect_sector (block_idx mod BLOCKNUMS_PER_IND).

Definition inode_lookup (i : inode) (block_idx : Z) : outcome Z :=
  if large i then
    let direct_idx := u32 (Z.quot block_idx BLOCKNUMS_PER_IND) in
    if direct_idx <? DOUBIND_SECTOR then
      indirect_sector ← direct_lookup i direct_idx;
      indirect_lookup indirect_sector (u32 block_idx)
    else
      indirect_sector ← direct_lookup i DOUBIND_SECTOR;
      dindirect_sector ← indirect_lookup indirect_sector (u32 block_idx);
      dindirect_lookup dindirect_sector (u32 block_idx)
  else direct_lookup i (u32 block_idx).

(** ** The sectors of a file *)

(** The numbers in an inode and in a sector. *)
Definition i_sectors (i : inode) : list Z :=
  (λ k, word_at (cached (sector i)) (Z.to_nat ((inumber i mod 16) * 32) + 4 * k)) <$> seq 0 6.

Definition numbers_in (s : Z) : list Z := (λ k, word_at (cached s) (4 * k)) <$> seq 0 128.

(** All sectors of the file, in order. *)
Definition file_sectors (i : inode) : list Z :=
  if large i then
    mjoin (numbers_in <$> take 5 (i_sectors i)) ++ mjoin (numbers_in <$> (drop 5 (i_sectors i) ≫= numbers_in))
  else i_sectors i.

Lemma mjoin_lookup {A} (n : nat) (ls : list (list A)) (i j : nat) :
  (∀ l, l ∈ ls → length l = n) → (j < n)%nat → mjoin ls !! (i * n + j)%nat = ls !! i ≫= (λ l, l !! j).
Proof.
  revert i. induction ls as [|l ls IH]; intros i Hl Hj; [done|]. pose proof (Hl l ltac:(by left)) as Hn. destruct i as [|i]; cbn.
  - by rewrite lookup_app_l by lia.
  - rewrite lookup_app_r by lia. replace (n + i * n + j - length l)%nat with (i * n + j)%nat by lia. apply IH; [|done].
    intros l' Hl'. apply Hl. by right.
Qed.

Lemma mjoin_length {A} (n : nat) (ls : list (list A)) : (∀ l, l ∈ ls → length l = n) → length (mjoin ls) = (length ls * n)%nat.
Proof.
  induction ls as [|l ls IH]; intros Hl; [done|]. change (length (l ++ mjoin ls) = (n + length ls * n)%nat).
  rewrite length_app, IH; [|intros ? ?; apply Hl; by right].
  rewrite (Hl l) by (by left). lia.
Qed.

Lemma numbers_length (ls : list Z) (l : list Z) : l ∈ numbers_in <$> ls → length l = 128%nat.
Proof. intros (x & -> & _)%list_elem_of_fmap. unfold numbers_in. by rewrite length_fmap, length_seq. Qed.

Lemma numbers_lookup s (k : nat) : (k < 128)%nat → numbers_in s !! k = Some (word_at (cached s) (4 * k)).
Proof. intros Hk. unfold numbers_in. by rewrite list_lookup_fmap, lookup_seq_lt. Qed.

Lemma i_sectors_lookup i (k : nat) :
  (k < 6)%nat → i_sectors i !! k = Some (word_at (cached (sector i)) (Z.to_nat ((inumber i mod 16) * 32) + 4 * k)).
Proof. intros Hk. unfold i_sectors. by rewrite list_lookup_fmap, lookup_seq_lt. Qed.

Lemma lookup_in_sector_ok s o : 0 ≤ o < 128 → lookup_in_sector s o = Ret (word_at (cached s) (4 * Z.to_nat o)).
Proof.
  intros Ho. unfold lookup_in_sector, BLOCK_SECTOR_SIZE. rewrite (proj2 (Z.leb_le _ _)) by lia. by rewrite Z2Nat.inj_mul by lia.
Qed.

Lemma direct_lookup_ok i k :
  0 ≤ k < 6 → ∃ x, direct_lookup i k = Ret x ∧ i_sectors i !! Z.to_nat k = Some x.
Proof.
  intros Hk. eexists. split; [|by apply i_sectors_lookup; lia]. unfold direct_lookup, DIRECT_SECTORS, INODES_PER_SECTOR, INODE_SIZE.
  rewrite (proj2 (Z.leb_le _ _)), (proj2 (Z.ltb_lt _ _)) by lia. cbn [andb]. pose proof (Z.mod_pos_bound (inumber i) 16).
  do 2 f_equal. lia.
Qed.

(** The two levels of a large file. *)
Lemma file_sectors_single i (k j : nat) x :
  large i = true → (k < 5)%nat → (j < 128)%nat → i_sectors i !! k = Some x →
  file_sectors i !! (k * 128 + j)%nat = numbers_in x !! j.
Proof.
  intros Hl Hk Hj Hx. unfold file_sectors. rewrite Hl. assert (length (take 5 (i_sectors i)) = 5%nat) as H5 by done.
  rewrite lookup_app_l.
  - rewrite (mjoin_lookup 128); [|apply numbers_length|done]. by rewrite list_lookup_fmap, lookup_take_lt, Hx by done.
  - rewrite (mjoin_length 128); [|apply numbers_length]. rewrite length_fmap, H5. lia.
Qed.

Lemma file_sectors_double i (k j : nat) x y :
  large i = true → (k < 128)%nat → (j < 128)%nat → i_sectors i !! 5%nat = Some x → numbers_in x !! k = Some y →
  file_sectors i !! (640 + (k * 128 + j))%nat = numbers_in y !! j.
Proof.
  intros Hl Hk Hj Hx Hy. unfold file_sectors. rewrite Hl. assert (length (take 5 (i_sectors i)) = 5%nat) as H5 by done.
  assert (length (mjoin (numbers_in <$> take 5 (i_sectors i))) = 640%nat) as Hlen.
  { rewrite (mjoin_length 128); [|apply numbers_length]. by rewrite length_fmap, H5. }
  rewrite lookup_app_r by lia. rewrite Hlen. replace (640 + (k * 128 + j) - 640)%nat with (k * 128 + j)%nat by lia.
  rewrite (mjoin_lookup 128); [|apply numbers_length|done]. rewrite list_lookup_fmap.
  assert ([x] ≫= numbers_in = numbers_in x) as Hone by apply app_nil_r.
  assert (drop 5 (i_sectors i) = [x]) as ->; [|by rewrite Hone, Hy].
  apply (drop_S _ _ _) in Hx. rewrite Hx. by rewrite drop_ge.
Qed.

(** ** The property *)

(** The largest number of sectors of a file. *)
Definition max_blocks (i : inode) : Z := if large i then 5 * 128 + 128 * 128 else 6.

(** C37: [inode_lookup] finds every sector of a file: for a block within the
    largest size of a file of its kind it returns the number at this index in
    the list of all sectors of the file, it never reads outside of a sector, and
    the list has exactly that many sectors. *)
Theorem inode_lookup_correct i block_idx :
  0 ≤ block_idx < max_blocks i →
  Z.of_nat (length (file_sectors i)) = max_blocks i ∧
  ∃ s, inode_lookup i block_idx = Ret s ∧ file_sectors i !! Z.to_nat block_idx = Some s.
Proof.
  intros Hb. unfold max_blocks in *. split.
  { unfold file_sectors. destruct (large i); [|done]. rewrite length_app, !(mjoin_length 128); [|apply numbers_length..].
    rewrite !length_fmap. assert (length (take 5 (i_sectors i)) = 5%nat) as -> by done.
    assert (drop 5 (i_sectors i) ≫= numbers_in = numbers_in (default 0 (i_sectors i !! 5%nat))) as -> by apply app_nil_r.
    unfold numbers_in. rewrite length_fmap, length_seq. lia. }
  unfold inode_lookup, u32, BLOCKNUMS_PER_IND, DOUBIND_SECTOR. destruct (large i) eqn:Hl.
  - rewrite Z.quot_div_nonneg by lia. rewrite !(Z.mod_small _ (2 ^ 32)) by zlia. destruct (Z.ltb_spec (block_idx / 128) 5) as [H5|H5].
    + destruct (direct_lookup_ok i (block_idx / 128)) as (x & -> & Hx); [zlia|]. cbn [mbind outcome_bind].
      unfold indirect_lookup, BLOCKNUMS_PER_IND, DOUBIND_SECTOR. rewrite (proj2 (Z.ltb_lt _ _) H5).
      rewrite lookup_in_sector_ok by zlia. eexists. split; [reflexivity|].
      replace (Z.to_nat block_idx) with (Z.to_nat (block_idx / 128) * 128 + Z.to_nat (block_idx mod 128))%nat by zlia.
      rewrite (file_sectors_single i _ _ x) by (done || zlia). apply numbers_lookup. zlia.
    + destruct (direct_lookup_ok i 5) as (x & -> & Hx); [lia|]. cbn [mbind outcome_bind].
      unfold indirect_lookup, dindirect_lookup, BLOCKNUMS_PER_IND, DOUBIND_SECTOR. rewrite (proj2 (Z.ltb_ge _ _) H5).
      rewrite lookup_in_sector_ok by zlia. cbn [mbind outcome_bind]. rewrite lookup_in_sector_ok by zlia.
      eexists. split; [reflexivity|].
      replace (Z.to_nat block_idx) with (640 + (Z.to_nat (block_idx / 128 - 5) * 128 + Z.to_nat (block_idx mod 128)))%nat by zlia.
      erewrite file_sectors_double; [apply numbers_lookup; zlia|done|zlia|zlia|exact Hx|apply numbers_lookup; zlia].
  - rewrite Z.mod_small by lia. destruct (direct_lookup_ok i block_idx) as (x & Hx & Hs); [lia|]. exists x.
    unfold file_sectors. by rewrite Hl.
Qed.
End index.

(** A large file whose sector 7 holds the numbers of further sectors. *)
Definition ex_cached (s : Z) : list Z := replicate 512 (s mod 256).

Lemma inode_lookup_correct_witness :
  Z.of_nat (length (file_sectors ex_cached (Inode 3 7 true))) = 17024 ∧
  ∃ s, inode_lookup ex_cached (Inode 3 7 true) 10000 = Ret s ∧
    file_sectors ex_cached (Inode 3 7 true) !! Z.to_nat 10000 = Some s.
Proof. apply (inode_lookup_correct ex_cached (Inode 3 7 true) 10000). split; [lia|reflexivity]. Defined.
