(* ===== verification/Block.v ===== *)
(** * Block devices and partitions ([devices/block.c], [devices/partition.c])

    A block device is a disk or a partition of a device that was registered
    before it; devices are known by their place in [all_blocks].  A disk is
    seen through the contents of its sectors, which the driver reads and writes.
    What is printed is left out, and [mem] tells whether [malloc] returns memory.

    The theorems show that reading and writing devices is reading and writing
    one memory of sectors, in which a device can reach only its own sectors;
    that scanning a disk registers exactly the partitions of its table that fit;
    and that the scan never ends on a disk with an extended partition. *)

From stdpp Require Import functions.
From stdpp Require Import base tactics list numbers option.
From Stdlib Require Import ZArith Lia.
From S2P Require Import Prelude Load.

Inductive block_type : Type :=
  | BLOCK_KERNEL
  | BLOCK_FILESYS
  | BLOCK_SCRATCH
  | BLOCK_SWAP
  | BLOCK_RAW
  | BLOCK_FOREIGN.

#[global] Instance block_type_eq : EqDecision block_type.
Proof. solve_decision. Defined.

Definition is_role (t : block_type) : bool :=
  match t with BLOCK_RAW | BLOCK_FOREIGN => false | _ => true end.

(** The operations of a device and their [aux]: a disk, or a [struct partition]. *)
Inductive block_operations : Type :=
  | Disk (d : nat)
  | Partition (parent : nat) (start : Z).

Record block : Type := Block {
  b_name : list Z;
  b_type : block_type;
  b_size : Z;
  b_ops : block_operations;
  read_cnt : Z;
  write_cnt : Z
}.

Record bstate : Type := BState {
  all_blocks : list block;
  block_by_role : block_type → option nat;
  disks : nat → Z → list Z
}.

(** ** [block.c] *)

Definition block_get_role (role : block_type) : st bstate (option nat) :=
  assertS (is_role role);; gets (λ s, block_by_role s role).

Definition block_set_role (role : block_type) (b : option nat) : st bstate unit :=
  assertS (is_role role);;
  modifyS (λ s, BState (all_blocks s) (λ r, if decide (r = role) then b else block_by_role s r) (disks s)).

Definition block_first : st bstate (option nat) :=
  gets (λ s, match all_blocks s with [] => None | _ => Some 0%nat end).

Definition block_next (b : nat) : st bstate (option nat) :=
  gets (λ s, if decide (S b < length (all_blocks s))%nat then Some (S b) else None).

(** The loop of [block_get_by_name] from device [i] on. *)
Fixpoint find_name (name : list Z) (i : nat) (l : list block) : option nat :=
  match l with
  | [] => None
  | b :: l => if decide (name = b_name b) then Some i else find_name name (S i) l
  end.

Definition block_get_by_name (name : list Z) : st bstate (option nat) := gets (λ s, find_name name 0 (all_blocks s)).

Definition get_block (b : nat) : st bstate block := λ s,
  match all_blocks s !! b with Some x => Ret (x, s) | None => Panic end.

Definition check_sector (x : block) (sector : Z) : st bstate unit :=
  if b_size x <=? sector then panicS else mret tt.

Definition count_read (x : block) : block :=
  Block (b_name x) (b_type x) (b_size x) (b_ops x) (u64 (read_cnt x + 1)) (write_cnt x).
Definition count_write (x : block) : block :=
  Block (b_name x) (b_type x) (b_size x) (b_ops x) (read_cnt x) (u64 (write_cnt x + 1)).

Definition on_block (b : nat) (f : block → block) : st bstate unit :=
  modifyS (λ s, BState (alter f b (all_blocks s)) (block_by_role s) (disks s)).

(** [block_read] and [block_write], with [partition_read] and [partition_write]
    as the operations of a partition. *)
Fixpoint block_read (fuel : nat) (b : nat) (sector : Z) : st bstate (list Z) :=
  match fuel with
  | O => divergeS
  | S fuel =>
      x ← get_block b;
      check_sector x sector;;
      data ← match b_ops x with
             | Disk d => gets (λ s, disks s d sector)
             | Partition p start => block_read fuel p (u32 (start + sector))
             end;
      on_block b count_read;;
      mret data
  end.

Definition disk_write (d : nat) (sector : Z) (data : list Z) : st bstate unit :=
  modifyS (λ s, BState (all_blocks s) (block_by_role s)
                  (λ d' k, if decide (d' = d ∧ k = sector) then data else disks s d' k)).

Fixpoint block_write (fuel : nat) (b : nat) (sector : Z) (data : list Z) : st bstate unit :=
  match fuel with
  | O => divergeS
  | S fuel =>
      x ← get_block b;
      check_sector x sector;;
      assertS (bool_decide (b_type x ≠ BLOCK_FOREIGN));;
      match b_ops x with
      | Disk d => disk_write d sector data
      | Partition p start => block_write fuel p (u32 (start + sector)) data
      end;;
      on_block b count_write
  end.

Definition block_register (mem : bool) (name : list Z) (type : block_type) (size : Z) (ops : block_operations) : st bstate nat :=
  (if mem then mret tt else panicS);;
  n ← gets (λ s, length (all_blocks s));
  modifyS (λ s, BState (all_blocks s ++ [Block (take 15 name) type size ops 0 0]) (block_by_role s) (disks s));;
  mret n.

(** ** [partition.c] *)

Record partition_table_entry : Type := Entry {
  e_type : Z;
  e_offset : Z;
  e_size : Z
}.

Definition entry_at (pt : list Z) (i : nat) : partition_table_entry :=
  Entry (byte_at pt (446 + 16 * i + 4)) (word_at pt (446 + 16 * i + 8)) (word_at pt (446 + 16 * i + 12)).

Definition partitions (pt : list Z) : list partition_table_entry := entry_at pt <$> [0; 1; 2; 3]%nat.
Definition signature (pt : list Z) : Z := half_at pt 510.

Definition type_of (part_type : Z) : block_type :=
  if part_type =? 0x20 then BLOCK_KERNEL
  else if part_type =? 0x21 then BLOCK_FILESYS
  else if part_type =? 0x22 then BLOCK_SCRATCH
  else if part_type =? 0x23 then BLOCK_SWAP
  else BLOCK_FOREIGN.

(** [%d] of a number that is not negative. *)
Fixpoint decimal (fuel : nat) (n : Z) : list Z :=
  match fuel with
  | O => []
  | S fuel => (if n <? 10 then [] else decimal fuel (n / 10)) ++ [48 + n mod 10]
  end.

(** [snprintf (name, sizeof name, ...)] *)
Definition partition_name (name : list Z) (part_nr : Z) : list Z := take 15 (name ++ decimal 10 part_nr).

Definition found_partition (mem : bool) (b : nat) (part_type start size part_nr : Z) : st bstate unit :=
  x ← get_block b;
  if b_size x <=? start then mret tt
  else if (u32 (start + size) <? start) || (b_size x <? u32 (start + size)) then mret tt
  else
    (if mem then mret tt else panicS);;
    block_register mem (partition_name (b_name x) part_nr) (type_of part_type) size (Partition b start);;
    mret tt.

Definition is_extended (e : partition_table_entry) : bool :=
  (e_type e =? 0x05) || (e_type e =? 0x0f) || (e_type e =? 0x85) || (e_type e =? 0xc5).

(** The loop over the entries; [rec] reads the table of an extended partition. *)
Fixpoint parse_partitions (mem : bool) (b : nat) (rec : Z → Z → Z → st bstate Z) (sector primary part_nr : Z)
    (es : list partition_table_entry) : st bstate Z :=
  match es with
  | [] => mret part_nr
  | e :: es =>
      n ← (if (e_size e =? 0) || (e_type e =? 0) then mret part_nr
           else if is_extended e then
             if sector =? 0 then rec (e_offset e) (e_offset e) part_nr
             else rec (u32 (e_offset e + primary)) primary part_nr
           else
             found_partition mem b (e_type e) (u32 (e_offset e + sector)) (e_size e) (part_nr + 1);;
             mret (part_nr + 1));
      parse_partitions mem b rec sector primary n es
  end.

Fixpoint read_partition_table (fuel : nat) (mem : bool) (b : nat) (sector primary part_nr : Z) : st bstate Z :=
  match fuel with
  | O => divergeS
  | S fuel =>
      x ← get_block b;
      if b_size x <=? sector then mret part_nr
      else
        (if mem then mret tt else panicS);;
        pt ← block_read (S b) b 0;
        if negb (signature pt =? 0xaa55) then mret part_nr
        else parse_partitions mem b (read_partition_table fuel mem b) sector primary part_nr (partitions pt)
  end.

Definition partition_scan (fuel : nat) (mem : bool) (b : nat) : st bstate unit :=
  read_partition_table fuel mem b 0 0 0;;
  mret tt.

(** ** Devices and sectors *)

(** A device without its statistics. *)
Definition dev (x : block) : list Z * block_type * Z * block_operations := (b_name x, b_type x, b_size x, b_ops x).

Definition fits (l : list block) (i : nat) (x : block) : Prop :=
  0 ≤ b_size x < 2 ^ 32 ∧
  match b_ops x with
  | Disk _ => True
  | Partition p start => (p < i)%nat ∧ 0 ≤ start ∧ ∃ y, l !! p = Some y ∧ start + b_size x ≤ b_size y ∧ b_type y ≠ BLOCK_FOREIGN
  end.

(** Every partition lies within the device it belongs to. *)
Definition devs_ok (l : list block) : Prop := ∀ i x, l !! i = Some x → fits l i x.

(** The disk and the sector of it that sector [k] of a device is. *)
Fixpoint resolve (fuel : nat) (l : list block) (b : nat) (k : Z) : option (nat * Z) :=
  match fuel, l !! b with
  | S fuel, Some x =>
      match b_ops x with
      | Disk d => Some (d, k)
      | Partition p start => resolve fuel l p (start + k)
      end
  | _, _ => None
  end.

Lemma same_dev (l l' : list block) (i : nat) x : dev <$> l = dev <$> l' → l !! i = Some x → ∃ x', l' !! i = Some x' ∧ dev x' = dev x.
Proof.
  intros Hd Hi. assert ((dev <$> l') !! i = Some (dev x)) as H by (rewrite <-Hd, list_lookup_fmap, Hi; done).
  rewrite list_lookup_fmap in H. destruct (l' !! i) as [x'|]; [|done]. exists x'. split; [done|]. cbn in H. congruence.
Qed.

Lemma devs_ok_same (l l' : list block) : dev <$> l = dev <$> l' → devs_ok l → devs_ok l'.
Proof.
  intros Hd Hok i x' Hi. destruct (same_dev l' l i x' (eq_sym Hd) Hi) as (x & Hx & [= _ _ Es Eo]). destruct (Hok i x Hx) as [Hs Hp].
  split; [congruence|]. rewrite <-Eo. destruct (b_ops x) as [|p start]; [done|]. destruct Hp as (? & ? & y & Hy & Hle & Hty).
  destruct (same_dev l l' p y Hd Hy) as (y' & Hy' & [= _ Et Es' _]). split; [done|]. split; [done|]. exists y'. split; [done|].
  split; [lia|congruence].
Qed.

Lemma resolve_same (l l' : list block) fuel : dev <$> l = dev <$> l' → ∀ b k, resolve fuel l b k = resolve fuel l' b k.
Proof.
  intros Hd. induction fuel as [|fuel IH]; intros b k; [done|]. cbn. destruct (l !! b) as [x|] eqn:Hb.
  - destruct (same_dev l l' b x Hd Hb) as (x' & -> & [= _ _ _ ->]). destruct (b_ops x); [done|]. apply IH.
  - destruct (l' !! b) as [x'|] eqn:Hb'; [|done]. destruct (same_dev l' l b x' (eq_sym Hd) Hb') as (x & ? & _). congruence.
Qed.

Lemma dev_alter f (b : nat) (l : list block) : (∀ x, dev (f x) = dev x) → dev <$> alter f b l = dev <$> l.
Proof.
  intros Hf. apply list_eq. intros i. rewrite !list_lookup_fmap. destruct (decide (i = b)) as [->|Hn].
  - rewrite list_lookup_alter_eq. destruct (l !! b); cbn; [by rewrite Hf|done].
  - by rewrite list_lookup_alter_ne.
Qed.

(** The result of a read and the state after a write. *)
Lemma block_read_ok fuel : ∀ s b x k,
  devs_ok (all_blocks s) → all_blocks s !! b = Some x → 0 ≤ k < b_size x → (b < fuel)%nat →
  ∃ d a s', resolve fuel (all_blocks s) b k = Some (d, a) ∧ block_read fuel b k s = Ret (disks s d a, s') ∧
    dev <$> all_blocks s' = dev <$> all_blocks s ∧ disks s' = disks s.
Proof.
  induction fuel as [|fuel IH]; intros s b x k Hok Hb Hk Hf; [lia|]. destruct (Hok b x Hb) as [Hs Hp]. cbn [resolve block_read].
  rewrite Hb. erewrite st_bind_ret by (unfold get_block; by rewrite Hb). unfold check_sector. rewrite (proj2 (Z.leb_gt _ _)) by lia.
  erewrite st_bind_ret by reflexivity. destruct (b_ops x) as [d|p start].
  - erewrite st_bind_ret by reflexivity. erewrite st_bind_ret by reflexivity. eexists d, k, _. split; [done|].
    split; [reflexivity|]. split; [by apply dev_alter|done].
  - destruct Hp as (Hpb & Hst & y & Hy & Hle & _). destruct (Hok p y Hy) as [Hys _].
    destruct (IH s p y (start + k) Hok Hy ltac:(lia) ltac:(lia)) as (d & a & s1 & Hr & Hrd & Hd & Hc).
    unfold u32. rewrite Z.mod_small by lia. rewrite (st_bind_ret _ _ _ _ _ Hrd). erewrite st_bind_ret by reflexivity.
    eexists d, a, _. split; [done|]. split; [reflexivity|]. split; [|done]. cbn. rewrite dev_alter by done. done.
Qed.

Lemma block_write_ok fuel : ∀ s b x k data,
  devs_ok (all_blocks s) → all_blocks s !! b = Some x → b_type x ≠ BLOCK_FOREIGN → 0 ≤ k < b_size x → (b < fuel)%nat →
  ∃ d a s', resolve fuel (all_blocks s) b k = Some (d, a) ∧ block_write fuel b k data s = Ret (tt, s') ∧
    dev <$> all_blocks s' = dev <$> all_blocks s ∧
    ∀ d' a', disks s' d' a' = if decide (d' = d ∧ a' = a) then data else disks s d' a'.
Proof.
  induction fuel as [|fuel IH]; intros s b x k data Hok Hb Ht Hk Hf; [lia|]. destruct (Hok b x Hb) as [Hs Hp]. cbn [resolve block_write].
  rewrite Hb. erewrite st_bind_ret by (unfold get_block; by rewrite Hb). unfold check_sector. rewrite (proj2 (Z.leb_gt _ _)) by lia.
  erewrite st_bind_ret by reflexivity. rewrite bool_decide_true by done. erewrite st_bind_ret by reflexivity. destruct (b_ops x) as [d|p start].
  - erewrite st_bind_ret by reflexivity. eexists d, k, _. split; [done|].
    split; [reflexivity|]. split; [by apply dev_alter|done].
  - destruct Hp as (Hpb & Hst & y & Hy & Hle & Hty). destruct (Hok p y Hy) as [Hys _].
    destruct (IH s p y (start + k) data Hok Hy Hty ltac:(lia) ltac:(lia)) as (d & a & s1 & Hr & Hrd & Hd & Hc).
    unfold u32. rewrite Z.mod_small by lia. rewrite (st_bind_ret _ _ _ _ _ Hrd).
    eexists d, a, _. split; [done|]. split; [reflexivity|]. split; [|done]. cbn. rewrite dev_alter by done. done.
Qed.

(** ** Scanning *)

(** The partitions that the entries [es] of a table in sector 0 of device [b]
    describe and that lie within the device. *)
Definition in_device (size : Z) (e : partition_table_entry) : bool :=
  (e_offset e <? size) && (e_offset e + e_size e <=? size).

Definition is_empty (e : partition_table_entry) : bool := (e_size e =? 0) || (e_type e =? 0).

Fixpoint described (b : nat) (name : list Z) (size part_nr : Z) (es : list partition_table_entry) : list block :=
  match es with
  | [] => []
  | e :: es =>
      if is_empty e then described b name size part_nr es
      else
        (if in_device size e
         then [Block (take 15 (partition_name name (part_nr + 1))) (type_of (e_type e)) (e_size e) (Partition b (e_offset e)) 0 0]
         else []) ++ described b name size (part_nr + 1) es
  end.

Definition entry_ok (e : partition_table_entry) : Prop := 0 ≤ e_offset e < 2 ^ 32 ∧ 0 ≤ e_size e < 2 ^ 32.

Lemma found_partition_ok s b x e nr :
  all_blocks s !! b = Some x → 0 ≤ b_size x < 2 ^ 32 → entry_ok e →
  found_partition true b (e_type e) (e_offset e) (e_size e) nr s =
    Ret (tt, BState (all_blocks s ++ if in_device (b_size x) e
      then [Block (take 15 (partition_name (b_name x) nr)) (type_of (e_type e)) (e_size e) (Partition b (e_offset e)) 0 0]
      else []) (block_by_role s) (disks s)).
Proof.
  intros Hb Hs [Ho He]. unfold found_partition. erewrite st_bind_ret by (unfold get_block; by rewrite Hb).
  assert (Ret (tt, s) = Ret (tt, BState (all_blocks s ++ []) (block_by_role s) (disks s))) as Hsame by (rewrite app_nil_r; by destruct s).
  unfold in_device, u32. destruct (Z.leb_spec (b_size x) (e_offset e)) as [H1|H1].
  { by rewrite (proj2 (Z.ltb_ge (e_offset e) _)) by lia. }
  rewrite (proj2 (Z.ltb_lt (e_offset e) _)) by lia. cbn [andb].
  destruct (Z.leb_spec (e_offset e + e_size e) (b_size x)) as [H2|H2].
  - rewrite Z.mod_small by lia. rewrite !(proj2 (Z.ltb_ge _ _)) by lia. done.
  - destruct (Z.ltb_spec ((e_offset e + e_size e) mod 2 ^ 32) (e_offset e)), (Z.ltb_spec (b_size x) ((e_offset e + e_size e) mod 2 ^ 32));
      cbn [orb]; try done. zlia.
Qed.

Lemma parse_ok b x rec es : ∀ s nr,
  all_blocks s !! b = Some x → 0 ≤ b_size x < 2 ^ 32 → Forall entry_ok es →
  Forall (λ e, is_empty e = true ∨ is_extended e = false) es →
  ∃ n, parse_partitions true b rec 0 0 nr es s =
    Ret (n, BState (all_blocks s ++ described b (b_name x) (b_size x) nr es) (block_by_role s) (disks s)).
Proof.
  induction es as [|e es IH]; intros s nr Hb Hs Hes Hex.
  { exists nr. cbn. rewrite app_nil_r. by destruct s. }
  inversion_clear Hes as [|? ? He Hes']. inversion_clear Hex as [|? ? Hx Hex']. cbn [parse_partitions described].
  unfold is_empty in *. destruct ((e_size e =? 0) || (e_type e =? 0)); [by erewrite st_bind_ret by reflexivity; apply IH|].
  destruct Hx as [?| ->]; [done|]. rewrite Z.add_0_r. unfold u32. rewrite Z.mod_small by apply He.
  erewrite st_bind_ret; [|erewrite st_bind_ret by (by apply found_partition_ok); reflexivity].
  edestruct IH as (n & Hr); [| |exact Hes'|exact Hex'|exists n; rewrite Hr; cbn [all_blocks block_by_role disks]; by rewrite app_assoc]; [|done].
  cbn [all_blocks]. apply (lookup_app_l_Some _ _ _ _ Hb).
Qed.

(** New partitions of a disk fit. *)
Lemma described_fits l b x nr es :
  devs_ok l → l !! b = Some x → b_type x ≠ BLOCK_FOREIGN → Forall entry_ok es →
  ∀ l', devs_ok (l ++ l') → devs_ok ((l ++ l') ++ described b (b_name x) (b_size x) nr es).
Proof.
  intros Hok Hb Ht Hes. revert nr. induction Hes as [|e es He Hes IH]; intros nr l' Hok'; cbn [described]; [by rewrite app_nil_r|].
  destruct (is_empty e); [by apply IH|]. rewrite app_assoc. rewrite <-(app_assoc l l'). apply IH. rewrite app_assoc.
  destruct (in_device (b_size x) e) eqn:Hin; [|by rewrite app_nil_r]. apply andb_true_iff in Hin as [H1%Z.ltb_lt H2%Z.leb_le].
  destruct He as [Ho Hsz]. destruct (Hok b x Hb) as [Hbs _]. assert (b < length l)%nat by (by eapply lookup_lt_Some).
  intros i y Hi. apply lookup_app_Some in Hi as [Hi|[Hge Hi]].
  - destruct (Hok' i y Hi) as [Hs Hp]. split; [done|]. destruct (b_ops y); [done|]. destruct Hp as (? & ? & z & Hz & ?).
    split; [done|]. split; [done|]. exists z. split; [by apply lookup_app_l_Some|done].
  - apply list_lookup_singleton_Some in Hi as [Hi <-]. split; [cbn; lia|]. cbn. rewrite length_app in Hge. split; [lia|]. split; [lia|].
    exists x. split; [|done]. apply lookup_app_l_Some. by apply lookup_app_l_Some.
Qed.

(** ** The properties *)

Lemma resolve_fuel l b : devs_ok l → ∀ f f' k, (b < f)%nat → (b < f')%nat → resolve f l b k = resolve f' l b k.
Proof.
  intros Hok f. revert b. induction f as [|f IH]; intros b f' k Hf Hf'; [lia|]. destruct f' as [|f']; [lia|]. cbn.
  destruct (l !! b) as [x|] eqn:Hb; [|done]. destruct (Hok b x Hb) as [_ Hp]. destruct (b_ops x); [done|]. apply IH; lia.
Qed.

(** Different sectors of a device are different sectors of the disk. *)
Lemma resolve_inj l b f k k' d a : resolve f l b k = Some (d, a) → resolve f l b k' = Some (d, a) → k = k'.
Proof.
  revert b k k'. induction f as [|f IH]; intros b k k'; cbn; [done|]. destruct (l !! b) as [x|]; [|done].
  destruct (b_ops x) as [d'|p start]; [congruence|]. intros H1 H2. specialize (IH _ _ _ H1 H2). lia.
Qed.

(** C30: block devices are views of one memory of disk sectors.  Writing a sector
    of a device and then reading a sector of any device returns the data
    written if both are the same sector of the same disk and what the sector
    held before if not; different sectors of one device are never the same;
    and a sector beyond the end of the device stops the kernel. *)
Theorem block_devices_share_memory s b1 x1 k1 data b2 x2 k2 :
  devs_ok (all_blocks s) → all_blocks s !! b1 = Some x1 → all_blocks s !! b2 = Some x2 →
  b_type x1 ≠ BLOCK_FOREIGN → 0 ≤ k1 < b_size x1 → 0 ≤ k2 →
  ∃ d1 a1 s1, resolve (S b1) (all_blocks s) b1 k1 = Some (d1, a1) ∧ block_write (S b1) b1 k1 data s = Ret (tt, s1) ∧
    devs_ok (all_blocks s1) ∧
    if b_size x2 <=? k2 then block_read (S b2) b2 k2 s1 = Panic
    else ∃ d2 a2 s2, resolve (S b2) (all_blocks s) b2 k2 = Some (d2, a2) ∧ disks s2 = disks s1 ∧
      block_read (S b2) b2 k2 s1 = Ret (if decide (d2 = d1 ∧ a2 = a1) then data else disks s d2 a2, s2) ∧
      (b1 = b2 → (d2, a2) = (d1, a1) → k1 = k2).
Proof.
  intros Hok H1 H2 Ht Hk1 Hk2. destruct (block_write_ok (S b1) s b1 x1 k1 data Hok H1 Ht Hk1) as (d1 & a1 & s1 & Hr1 & Hw & Hd & Hc); [lia|].
  exists d1, a1, s1. split; [done|]. split; [done|]. pose proof (devs_ok_same _ _ (eq_sym Hd) Hok) as Hok1. split; [done|].
  destruct (same_dev _ (all_blocks s1) b2 x2 (eq_sym Hd) H2) as (x2' & H2' & [= _ _ Es _]).
  destruct (Z.leb_spec (b_size x2) k2) as [Hge|Hlt].
  - cbn [block_read]. erewrite st_bind_ret by (unfold get_block; by rewrite H2'). unfold check_sector.
    by rewrite (proj2 (Z.leb_le _ _)) by lia.
  - destruct (block_read_ok (S b2) s1 b2 x2' k2 Hok1 H2') as (d2 & a2 & s2 & Hr2 & Hrd & _ & Hc2); [lia|lia|].
    rewrite (resolve_same (all_blocks s1) (all_blocks s) _ Hd) in Hr2. exists d2, a2, s2. split; [done|]. split; [done|].
    rewrite Hc in Hrd. split; [done|]. intros -> [= -> ->]. by eapply resolve_inj.
Qed.

(** Scanning a disk whose table has no extended partition registers one
    device for each entry that is not empty and lies within the disk, in the
    order of the table, numbered by the entries that are not empty, with the
    type and the sectors of the entry; it changes no sector, and every device
    still lies within the one it belongs to. *)
Theorem partition_scan_correct fuel s b x d :
  devs_ok (all_blocks s) → all_blocks s !! b = Some x → b_ops x = Disk d → b_type x ≠ BLOCK_FOREIGN → 0 < b_size x →
  signature (disks s d 0) = 0xaa55 → Forall entry_ok (partitions (disks s d 0)) →
  Forall (λ e, is_empty e = true ∨ is_extended e = false) (partitions (disks s d 0)) →
  ∃ s', partition_scan (S fuel) true b s = Ret (tt, s') ∧ disks s' = disks s ∧ devs_ok (all_blocks s') ∧
    dev <$> all_blocks s' = dev <$> (all_blocks s ++ described b (b_name x) (b_size x) 0 (partitions (disks s d 0))).
Proof.
  intros Hok Hb Hops Ht Hsz Hsig Hes Hex. destruct (Hok b x Hb) as [Hbs _]. unfold partition_scan. cbn [read_partition_table].
  destruct (block_read_ok (S b) s b x 0 Hok Hb) as (d0 & a0 & s1 & Hr & Hrd & Hd & Hc); [lia|lia|].
  cbn [resolve] in Hr. rewrite Hb, Hops in Hr. injection Hr as <- <-.
  destruct (same_dev _ (all_blocks s1) b x (eq_sym Hd) Hb) as (x1 & Hb1 & [= En Et Es Eo]).
  destruct (parse_ok b x1 (read_partition_table fuel true b) (partitions (disks s d 0)) s1 0 Hb1) as (n & Hp); [lia|done|done|].
  erewrite st_bind_ret.
  2: { erewrite st_bind_ret by (unfold get_block; by rewrite Hb). rewrite (proj2 (Z.leb_gt _ _)) by lia.
       erewrite st_bind_ret by reflexivity. rewrite (st_bind_ret _ _ _ _ _ Hrd). rewrite Hsig. exact Hp. }
  eexists. split; [reflexivity|]. cbn [all_blocks disks]. split; [done|]. rewrite En, Es.
  assert (devs_ok (all_blocks s ++ described b (b_name x) (b_size x) 0 (partitions (disks s d 0)))) as Hok2.
  { rewrite <-(app_nil_r (all_blocks s)) at 1. apply described_fits; [done..|]. by rewrite app_nil_r. }
  assert (dev <$> (all_blocks s1 ++ described b (b_name x) (b_size x) 0 (partitions (disks s d 0))) =
          dev <$> (all_blocks s ++ described b (b_name x) (b_size x) 0 (partitions (disks s d 0)))) as Hd2 by (by rewrite !fmap_app, Hd).
  split; [by eapply devs_ok_same|done].
Qed.

(** The recursion on a table whose first entry is an extended partition. *)
Lemma extended_diverges fuel b d e : ∀ s x sector nr,
  devs_ok (all_blocks s) → all_blocks s !! b = Some x → b_ops x = Disk d →
  signature (disks s d 0) = 0xaa55 → entry_at (disks s d 0) 0 = e →
  is_empty e = false → is_extended e = true → 0 < e_offset e → 2 * e_offset e < b_size x →
  sector = e_offset e ∨ sector = 2 * e_offset e → read_partition_table fuel true b sector (e_offset e) nr s = Diverge.
Proof.
  induction fuel as [|fuel IH]; intros s x sector nr Hok Hb Hops Hsig He Hne Hx Ho Hsz Hsec; [done|]. destruct (Hok b x Hb) as [Hbs _].
  cbn [read_partition_table]. erewrite st_bind_ret by (unfold get_block; by rewrite Hb). rewrite (proj2 (Z.leb_gt _ _)) by lia.
  erewrite st_bind_ret by reflexivity.
  destruct (block_read_ok (S b) s b x 0 Hok Hb) as (d0 & a0 & s1 & Hr & Hrd & Hd & Hc); [lia|lia|].
  cbn [resolve] in Hr. rewrite Hb, Hops in Hr. injection Hr as <- <-. rewrite (st_bind_ret _ _ _ _ _ Hrd). rewrite Hsig. cbn [negb Z.eqb].
  unfold partitions. cbn [fmap list_fmap parse_partitions]. rewrite He. unfold is_empty in Hne. rewrite Hne, Hx.
  rewrite (proj2 (Z.eqb_neq sector 0)) by lia. destruct (same_dev _ (all_blocks s1) b x (eq_sym Hd) Hb) as (x1 & Hb1 & [= En Et Es Eo]).
  assert (u32 (e_offset e + e_offset e) = e_offset e + e_offset e) as -> by (apply Z.mod_small; lia). apply st_bind_diverge, (IH s1 x1); [|done|congruence|by rewrite Hc|by rewrite Hc|done|done|done|lia|lia].
  by eapply devs_ok_same.
Qed.

(** On a disk whose partition table begins with an extended partition the
    scan never ends, if twice the offset of the partition is within the disk:
    the table of the extended partition is read from sector 0 again, and so on
    without end. *)
Theorem extended_partition_never_ends fuel s b x d :
  devs_ok (all_blocks s) → all_blocks s !! b = Some x → b_ops x = Disk d →
  signature (disks s d 0) = 0xaa55 → is_empty (entry_at (disks s d 0) 0) = false → is_extended (entry_at (disks s d 0) 0) = true →
  0 < e_offset (entry_at (disks s d 0) 0) → 2 * e_offset (entry_at (disks s d 0) 0) < b_size x →
  partition_scan fuel true b s = Diverge.
Proof.
  intros Hok Hb Hops Hsig Hne Hx Ho Hsz. destruct (Hok b x Hb) as [Hbs _]. unfold partition_scan. apply st_bind_diverge.
  destruct fuel as [|fuel]; [done|]. cbn [read_partition_table]. erewrite st_bind_ret by (unfold get_block; by rewrite Hb).
  rewrite (proj2 (Z.leb_gt _ _)) by lia. erewrite st_bind_ret by reflexivity.
  destruct (block_read_ok (S b) s b x 0 Hok Hb) as (d0 & a0 & s1 & Hr & Hrd & Hd & Hc); [lia|lia|].
  cbn [resolve] in Hr. rewrite Hb, Hops in Hr. injection Hr as <- <-. rewrite (st_bind_ret _ _ _ _ _ Hrd). rewrite Hsig. cbn [negb Z.eqb].
  unfold partitions. cbn [fmap list_fmap parse_partitions]. unfold is_empty in Hne. rewrite Hne, Hx.
  destruct (same_dev _ (all_blocks s1) b x (eq_sym Hd) Hb) as (x1 & Hb1 & [= En Et Es Eo]).
  apply st_bind_diverge, (extended_diverges fuel b d _ s1 x1); [|done|congruence|by rewrite Hc|by rewrite Hc|done|done|done|lia|by left].
  by eapply devs_ok_same.
Qed.

(** A disk of 1000 sectors whose table has one entry, of 50 sectors from 100 on,
    and the same disk with that partition registered. *)
Definition ex_mbr (t : Z) : list Z :=
  replicate 446 0 ++ [0; 0; 0; 0; t; 0; 0; 0; 100; 0; 0; 0; 50; 0; 0; 0] ++ replicate 48 0 ++ [0x55; 0xaa].

Definition ex_disk : block := Block [104; 100; 97] BLOCK_RAW 1000 (Disk 0) 0 0.
Definition ex_part : block := Block [104; 100; 97; 49] BLOCK_FILESYS 50 (Partition 0 100) 0 0.

Definition ex_devs (t : Z) (l : list block) : bstate :=
  BState l (λ _, None) (λ _ k, if k =? 0 then ex_mbr t else replicate 512 0).

Lemma ex_devs_ok l : l = [ex_disk] ∨ l = [ex_disk; ex_part] → devs_ok l.
Proof.
  intros [-> | ->] [|[|i]] x Hx; cbn in Hx; try (by destruct i); simplify_eq; (split; [cbn; lia|]); cbn; try done.
  split; [lia|]. split; [lia|]. exists ex_disk. split; [done|]. cbn. by split; [lia|].
Qed.

Lemma block_devices_share_memory_witness :
  ∃ s1 s2, block_write 2 1 3 [7; 7] (ex_devs 0x21 [ex_disk; ex_part]) = Ret (tt, s1) ∧ block_read 1 0 103 s1 = Ret ([7; 7], s2).
Proof.
  destruct (block_devices_share_memory (ex_devs 0x21 [ex_disk; ex_part]) 1 ex_part 3 [7; 7] 0 ex_disk 103)
    as (d1 & a1 & s1 & [= <- <-] & Hw & _ & d2 & a2 & s2 & [= <- <-] & _ & Hr & _);
    [by apply ex_devs_ok; right|done|done|done|cbn; lia|lia|]. exists s1, s2. split; [exact Hw|exact Hr].
Defined.

Lemma partition_scan_correct_witness :
  ∃ s', partition_scan 1 true 0 (ex_devs 0x21 [ex_disk]) = Ret (tt, s') ∧ dev <$> all_blocks s' = dev <$> [ex_disk; ex_part].
Proof.
  destruct (partition_scan_correct 0 (ex_devs 0x21 [ex_disk]) 0 ex_disk 0) as (s' & Hr & _ & _ & Hd).
  - apply ex_devs_ok. by left.
  - done.
  - done.
  - done.
  - cbn. lia.
  - vm_compute. reflexivity.
  - repeat constructor; vm_compute; discriminate.
  - repeat constructor; vm_compute; by (left + right).
  - exists s'. split; [exact Hr|]. etransitivity; [exact Hd|]. vm_compute. reflexivity.
Defined.

Lemma extended_partition_never_ends_witness : partition_scan 1000 true 0 (ex_devs 0x05 [ex_disk]) = Diverge.
Proof.
  apply (extended_partition_never_ends 1000 (ex_devs 0x05 [ex_disk]) 0 ex_disk 0).
  - apply ex_devs_ok. by left.
  - done.
  - done.
  - vm_compute. reflexivity.
  - vm_compute. reflexivity.
  - vm_compute. reflexivity.
  - vm_compute. reflexivity.
  - vm_compute. reflexivity.
Defined.
