(* ===== verification/Input.v ===== *)
(** * Keyboard input ([devices/intq.c], [devices/input.c], [devices/kbd.c])

    Keys travel from the keyboard's interrupt handler through a circular buffer
    to the threads that read them.  The operations of the buffer run with
    interrupts off, so that a thread runs from one place where it may lose the
    processor to the next as one step: a call that has to wait sleeps on the
    lock or in the buffer, or gives up the lock, which is a result of the
    step here, and goes on from that [point] when the thread runs again.  Telling
    the serial port about the buffer is left out.

    The theorems show that the buffer is a first-in first-out queue of 63 bytes
    that wakes a sleeping thread as soon as its condition holds; that a single
    reader gets every key that was stored, and that a second one can stop the
    kernel, because it waits for the lock and then asserts that the queue is still
    empty; and that every character of the keyboard can be typed. *)

From Stdlib Require Import Ascii String.
From stdpp Require Import functions.
From stdpp Require Import base tactics list numbers option.
From Stdlib Require Import ZArith Lia.
From S2P Require Import Prelude Cstring.

Local Open Scope Z_scope.

(** ** [intq.c] *)

Definition INTQ_BUFSIZE : Z := 64.

Record intq : Type := Intq {
  lock : option Z;
  not_full : option Z;
  not_empty : option Z;
  buf : list Z;
  head : Z;
  tail : Z
}.

(** The contents of the buffer are arbitrary at first. *)
Definition intq_init (garbage : list Z) : intq := Intq None None None garbage 0 0.

Definition next (pos : Z) : Z := Z.rem (pos + 1) INTQ_BUFSIZE.

Definition intq_empty (q : intq) : bool := head q =? tail q.
Definition intq_full (q : intq) : bool := next (head q) =? tail q.

(** What a step of an operation does: it finishes it and has woken a thread or
    none; the thread sleeps until its condition holds; it sleeps until another
    thread has given up the lock; or it has given up the lock itself, and tests
    its condition again next. *)
Inductive qres (A : Type) : Type :=
  | Finished (a : A) (woken : option Z)
  | Sleeps
  | Waits_for_lock
  | Released.
Arguments Finished {A}.
Arguments Sleeps {A}.
Arguments Waits_for_lock {A}.
Arguments Released {A}.

(** Where the operation is: at the test of the loop, in [lock_acquire], or
    woken in [wait]. *)
Inductive point : Type := Testing | Locking | Woken.

Definition with_lock (l : option Z) (q : intq) : intq := Intq l (not_full q) (not_empty q) (buf q) (head q) (tail q).

(** [lock_acquire (&q->lock)], followed by [k]. *)
Definition queue_acquire {A} (t : Z) (k : st intq (qres A)) : st intq (qres A) := λ q,
  match lock q with
  | Some u => if u =? t then Panic else Ret (Waits_for_lock, q)
  | None => k (with_lock (Some t) q)
  end.

(** [lock_release (&q->lock)]. *)
Definition queue_release {A} (t : Z) : st intq (qres A) := λ q,
  if decide (lock q = Some t) then Ret (Released, with_lock None q) else Panic.

(** [wait (q, &q->not_empty)] and [wait (q, &q->not_full)]. *)
Definition wait_not_empty {A} (t : Z) : st intq (qres A) := λ q,
  if intq_empty q then Ret (Sleeps, Intq (lock q) (not_full q) (Some t) (buf q) (head q) (tail q)) else Panic.

Definition wait_not_full {A} (t : Z) : st intq (qres A) := λ q,
  if intq_full q then Ret (Sleeps, Intq (lock q) (Some t) (not_empty q) (buf q) (head q) (tail q)) else Panic.

(** [context] tells whether an interrupt is being handled, [t] is the thread. *)
Definition intq_getc (context : bool) (t : Z) (at_ : point) : st intq (qres Z) := λ q,
  match at_ with
  | Woken => queue_release t q
  | Locking => queue_acquire t (wait_not_empty t) q
  | Testing =>
      if intq_empty q then
        if context then Panic else queue_acquire t (wait_not_empty t) q
      else
        match buf q !! Z.to_nat (tail q) with
        | None => Panic
        | Some byte =>
            let q' := Intq (lock q) None (not_empty q) (buf q) (head q) (next (tail q)) in
            if intq_full q' then Panic else Ret (Finished byte (not_full q), q')
        end
  end.

Definition intq_putc (context : bool) (t : Z) (byte : Z) (at_ : point) : st intq (qres unit) := λ q,
  match at_ with
  | Woken => queue_release t q
  | Locking => queue_acquire t (wait_not_full t) q
  | Testing =>
      if intq_full q then
        if context then Panic else queue_acquire t (wait_not_full t) q
      else
        let q' := Intq (lock q) (not_full q) None (<[Z.to_nat (head q) := byte]> (buf q)) (next (head q)) (tail q) in
        if intq_empty q' then Panic else Ret (Finished tt (not_empty q), q')
  end.

(** ** The queue *)

(** The buffer holds the bytes [l]; a thread that waits for a condition waits
    because it does not hold, and has the lock. *)
Record queue (q : intq) (l : list Z) : Prop := Queue {
  q_buf : length (buf q) = 64%nat;
  q_tail : 0 ≤ tail q < 64;
  q_head : head q = (tail q + Z.of_nat (length l)) mod 64;
  q_room : (length l < 64)%nat;
  q_bytes (i : nat) b : l !! i = Some b → buf q !! Z.to_nat ((tail q + Z.of_nat i) mod 64) = Some b;
  q_empty t : not_empty q = Some t → l = [] ∧ lock q = Some t;
  q_full t : not_full q = Some t → length l = 63%nat ∧ lock q = Some t
}.

Lemma next_mod p : 0 ≤ p → next p = (p + 1) mod 64.
Proof. intros Hp. unfold next, INTQ_BUFSIZE. apply Z.rem_mod_nonneg; lia. Qed.

Lemma queue_empty q l : queue q l → intq_empty q = bool_decide (l = []).
Proof.
  intros [Hb Ht Hh Hr _ _ _]. unfold intq_empty. rewrite Hh. destruct l as [|b l]; cbn [length].
  - rewrite Z.add_0_r, Z.mod_small, Z.eqb_refl by lia. by rewrite bool_decide_true.
  - rewrite bool_decide_false by done. apply Z.eqb_neq. cbn [length] in Hr. zlia.
Qed.

Lemma queue_full q l : queue q l → intq_full q = bool_decide (length l = 63%nat).
Proof.
  intros [Hb Ht Hh Hr _ _ _]. unfold intq_full. rewrite next_mod by zlia. rewrite Hh.
  destruct (decide (length l = 63%nat)) as [E|E].
  - rewrite bool_decide_true by done. apply Z.eqb_eq. rewrite E. zlia.
  - rewrite bool_decide_false by done. apply Z.eqb_neq. zlia.
Qed.

Lemma queue_lock q l t : queue q l → not_empty q ≠ Some t → not_full q ≠ Some t → lock q = Some t → queue (with_lock None q) l.
Proof.
  intros [H1 H2 H3 H4 H5 H6 H7] He Hf Hl. split; try done; cbn; intros u Hu; exfalso.
  - destruct (H6 u Hu) as [_ Hu']. congruence.
  - destruct (H7 u Hu) as [_ Hu']. congruence.
Qed.

(** Waiting for the queue to be not empty, with the lock. *)
Lemma queue_acquire_not_empty q l t : queue q l → lock q ≠ Some t →
  match lock q with
  | Some _ => queue_acquire t (wait_not_empty (A := Z) t) q = Ret (Waits_for_lock, q)
  | None =>
      if decide (l = []) then ∃ q', queue_acquire t (wait_not_empty (A := Z) t) q = Ret (Sleeps, q') ∧ queue q' [] ∧ not_empty q' = Some t
      else queue_acquire t (wait_not_empty (A := Z) t) q = Panic
  end.
Proof.
  intros HQ Hl. unfold queue_acquire. destruct (lock q) as [u|] eqn:Hlk; [by rewrite (proj2 (Z.eqb_neq u t)) by congruence|].
  unfold wait_not_empty. change (intq_empty (with_lock (Some t) q)) with (intq_empty q). rewrite (queue_empty q l HQ).
  case_decide as He; [|by rewrite bool_decide_false]. subst l. rewrite bool_decide_true by done. eexists. split; [done|].
  split; [|done]. destruct HQ as [H1 H2 H3 H4 H5 H6 H7]. split; try done. cbn. intros u Hu.
  destruct (H7 u Hu). congruence.
Qed.

Lemma queue_acquire_not_full q l t : queue q l → lock q ≠ Some t →
  match lock q with
  | Some _ => queue_acquire t (wait_not_full (A := unit) t) q = Ret (Waits_for_lock, q)
  | None =>
      if decide (length l = 63%nat) then ∃ q', queue_acquire t (wait_not_full (A := unit) t) q = Ret (Sleeps, q') ∧ queue q' l ∧ not_full q' = Some t
      else queue_acquire t (wait_not_full (A := unit) t) q = Panic
  end.
Proof.
  intros HQ Hl. unfold queue_acquire. destruct (lock q) as [u|] eqn:Hlk; [by rewrite (proj2 (Z.eqb_neq u t)) by congruence|].
  unfold wait_not_full. change (intq_full (with_lock (Some t) q)) with (intq_full q). rewrite (queue_full q l HQ).
  case_decide as He; [|by rewrite bool_decide_false]. rewrite bool_decide_true by done. eexists. split; [done|].
  split; [|done]. destruct HQ as [H1 H2 H3 H4 H5 H6 H7]. split; try done. cbn. intros u Hu.
  destruct (H6 u Hu). congruence.
Qed.

Lemma getc_empty q t context : queue q [] →
  intq_getc context t Testing q = if context then Panic else intq_getc context t Locking q.
Proof. intros HQ. unfold intq_getc. by rewrite (queue_empty q [] HQ), bool_decide_true by done. Qed.

Lemma getc_some q b l context t : queue q (b :: l) →
  ∃ q', intq_getc context t Testing q = Ret (Finished b (not_full q), q') ∧ queue q' l ∧ not_full q' = None ∧
    not_empty q' = not_empty q ∧ lock q' = lock q.
Proof.
  intros HQ. pose proof (queue_empty q _ HQ) as He. rewrite bool_decide_false in He by done. unfold intq_getc. rewrite He.
  destruct HQ as [H1 H2 H3 H4 H5 H6 H7]. cbn [length] in *. pose proof (H5 0%nat b eq_refl) as Hb.
  rewrite Z.add_0_r, Z.mod_small in Hb by lia. rewrite Hb. set (q' := Intq _ _ _ _ _ _).
  assert (queue q' l) as HQ'.
  { split; cbn; [done| | |lia| |intros u Hu; by destruct (H6 u Hu)|done].
    - rewrite next_mod by lia. zlia.
    - rewrite H3, next_mod by lia. zlia.
    - intros i c Hi. rewrite next_mod by lia. rewrite <-(H5 (S i) c Hi). do 2 f_equal. zlia. }
  rewrite (queue_full q' l HQ'), bool_decide_false by lia. by exists q'.
Qed.

Lemma putc_full q l t byte context : queue q l → length l = 63%nat →
  intq_putc context t byte Testing q = if context then Panic else intq_putc context t byte Locking q.
Proof. intros HQ Hl. unfold intq_putc. by rewrite (queue_full q l HQ), bool_decide_true by done. Qed.

Lemma putc_room q l context t byte : queue q l → length l ≠ 63%nat →
  ∃ q', intq_putc context t byte Testing q = Ret (Finished tt (not_empty q), q') ∧ queue q' (l ++ [byte]) ∧
    not_empty q' = None ∧ not_full q' = not_full q ∧ lock q' = lock q.
Proof.
  intros HQ Hl. pose proof (queue_full q l HQ) as Hf. rewrite bool_decide_false in Hf by done. unfold intq_putc. rewrite Hf.
  destruct HQ as [H1 H2 H3 H4 H5 H6 H7]. set (q' := Intq _ _ _ _ _ _). assert (0 ≤ head q < 64) as Hh by zlia.
  assert (queue q' (l ++ [byte])) as HQ'.
  { split; cbn; rewrite ?length_app; cbn [length]; [by rewrite length_insert|done| |lia| |done|].
    - rewrite next_mod by lia. rewrite H3. zlia.
    - intros i c Hi. apply lookup_app_Some in Hi as [Hi|[Hge Hi]].
      + rewrite list_lookup_insert_ne; [by apply H5|]. pose proof (lookup_lt_Some _ _ _ Hi). rewrite H3. zlia.
      + apply list_lookup_singleton_Some in Hi as [Hi <-]. replace (tail q + Z.of_nat i) with (tail q + Z.of_nat (length l)) by lia.
        rewrite <-H3. apply list_lookup_insert_eq. lia.
    - intros u Hu. destruct (H7 u Hu). lia. }
  rewrite (queue_empty q' _ HQ'), bool_decide_false by (by destruct l). by exists q'.
Qed.

(** C36: the buffer is a first-in first-out queue of at most 63 bytes.  A byte is
    taken from the front and added to the back, and the thread that slept because
    the queue was empty or full is woken by the first operation after which it
    is not.  At the test of an empty or full queue an interrupt handler stops
    the kernel, and a thread goes on to the lock: it sleeps for the lock if another
    thread has it, and for the queue if that is still empty or full; if
    not, which only a thread that slept for the lock can find, the kernel
    stops.  A thread that is woken gives up the lock and tests again. *)
Theorem intq_is_queue q l t byte :
  queue q l →
  match l with
  | [] => ∀ context, intq_getc context t Testing q = if context then Panic else intq_getc context t Locking q
  | b :: l' => ∀ context, ∃ q', intq_getc context t Testing q = Ret (Finished b (not_full q), q') ∧ queue q' l' ∧
      not_full q' = None ∧ not_empty q' = not_empty q ∧ lock q' = lock q
  end ∧
  (if decide (length l = 63%nat) then
     ∀ context, intq_putc context t byte Testing q = if context then Panic else intq_putc context t byte Locking q
   else ∀ context, ∃ q', intq_putc context t byte Testing q = Ret (Finished tt (not_empty q), q') ∧ queue q' (l ++ [byte]) ∧
     not_empty q' = None ∧ not_full q' = not_full q ∧ lock q' = lock q) ∧
  (lock q ≠ Some t →
   match lock q with
   | Some _ => intq_getc false t Locking q = Ret (Waits_for_lock, q) ∧ intq_putc false t byte Locking q = Ret (Waits_for_lock, q)
   | None =>
       (if decide (l = []) then ∃ q', intq_getc false t Locking q = Ret (Sleeps, q') ∧ queue q' [] ∧ not_empty q' = Some t
        else intq_getc false t Locking q = Panic) ∧
       (if decide (length l = 63%nat) then ∃ q', intq_putc false t byte Locking q = Ret (Sleeps, q') ∧ queue q' l ∧ not_full q' = Some t
        else intq_putc false t byte Locking q = Panic)
   end) ∧
  (lock q = Some t → not_empty q ≠ Some t → not_full q ≠ Some t →
   ∃ q', intq_getc false t Woken q = Ret (Released, q') ∧ intq_putc false t byte Woken q = Ret (Released, q') ∧
     queue q' l ∧ lock q' = None ∧ not_empty q' = not_empty q ∧ not_full q' = not_full q).
Proof.
  intros HQ. split_and!.
  - destruct l as [|b l]; intros context; [by apply getc_empty|by apply getc_some].
  - case_decide; intros context; [by apply (putc_full q l)|by apply putc_room].
  - intros Hl. pose proof (queue_acquire_not_empty q l t HQ Hl) as He. pose proof (queue_acquire_not_full q l t HQ Hl) as Hf.
    by destruct (lock q).
  - intros Hl He Hf. exists (with_lock None q). pose proof (queue_lock q l t HQ He Hf Hl). unfold intq_getc, intq_putc, queue_release.
    by rewrite !decide_True by done.
Qed.

Lemma intq_init_queue garbage : length garbage = 64%nat → queue (intq_init garbage) [].
Proof. intros Hg. split; cbn; (done || lia). Qed.

Lemma intq_is_queue_witness :
  ∃ q q', intq_putc true 1 97 Testing (intq_init (replicate 64 0)) = Ret (Finished tt None, q) ∧
    intq_getc false 1 Locking q = Panic ∧ intq_getc false 1 Testing q = Ret (Finished 97 None, q') ∧ queue q' [].
Proof.
  destruct (proj1 (proj2 (intq_is_queue _ [] 1 97 (intq_init_queue (replicate 64 0) eq_refl))) true) as (q & Hp & HQ & _ & _ & Hl).
  destruct (intq_is_queue q [97] 1 0 HQ) as (Hg & _ & Hw & _). destruct (Hg false) as (q' & Hg' & HQ' & _). exists q, q'. split; [exact Hp|].
  split; [|split; [|exact HQ']].
  - rewrite Hl in Hw. by destruct (Hw ltac:(done)).
  - rewrite Hg'. injection Hp as <-. reflexivity.
Defined.

(** ** [input.c] *)

Definition input_init (garbage : list Z) : intq := intq_init garbage.

Definition input_full (q : intq) : bool := intq_full q.

Definition input_putc (key : Z) : st intq (qres unit) := λ q,
  if intq_full q then Panic else intq_putc true 0 key Testing q.

Definition input_getc (t : Z) (at_ : point) : st intq (qres Z) := intq_getc false t at_.

(** ** Readers *)

(** Threads that read one key after the other, while interrupts bring keys: where
    each is, or [None] if it sleeps in the buffer; the keys that were stored and
    those that were read. *)
Record readers : Type := Readers {
  buffer : intq;
  points : Z → option point;
  stored : list Z;
  got : list Z
}.

(** A key arrives, which is dropped if the buffer is full, or a thread runs
    until it loses the processor. *)
Inductive event : Type :=
  | Key (key : Z)
  | Runs (t : Z).

Definition reader_step (e : event) : st readers unit := λ '(Readers q p st gt),
  match e with
  | Key key =>
      if input_full q then Ret (tt, Readers q p st gt)
      else
        match input_putc key q with
        | Ret (Finished _ (Some u), q) => Ret (tt, Readers q (<[u := Some Woken]> p) (st ++ [key]) gt)
        | Ret (_, q) => Ret (tt, Readers q p (st ++ [key]) gt)
        | Panic => Panic
        | Diverge => Diverge
        end
  | Runs t =>
      match p t with
      | None => Ret (tt, Readers q p st gt)
      | Some at_ =>
          match input_getc t at_ q with
          | Ret (Finished key _, q) => Ret (tt, Readers q (<[t := Some Testing]> p) st (gt ++ [key]))
          | Ret (Sleeps, q) => Ret (tt, Readers q (<[t := None]> p) st gt)
          | Ret (Waits_for_lock, q) => Ret (tt, Readers q (<[t := Some Locking]> p) st gt)
          | Ret (Released, q) => Ret (tt, Readers q (<[t := Some Testing]> p) st gt)
          | Panic => Panic
          | Diverge => Diverge
          end
      end
  end.

Fixpoint reader_steps (l : list event) : st readers unit :=
  match l with [] => mret tt | e :: l => reader_step e;; reader_steps l end.

Definition no_keys (garbage : list Z) : readers := Readers (input_init garbage) (λ _, Some Testing) [] [].

(** The only reader [t] sleeps with the lock while there is nothing to read, is
    woken with the lock, or does not have it. *)
Record reading (t : Z) (s : readers) (l : list Z) : Prop := Reading {
  rd_queue : queue (buffer s) l;
  rd_keys : stored s = got s ++ l;
  rd_full : not_full (buffer s) = None;
  rd_point :
    match points s t with
    | None => not_empty (buffer s) = Some t
    | Some Woken => not_empty (buffer s) = None ∧ lock (buffer s) = Some t
    | Some Testing => not_empty (buffer s) = None ∧ lock (buffer s) = None
    | Some Locking => False
    end
}.

Lemma key_arrives t s l key : reading t s l → ∃ s' l', reader_step (Key key) s = Ret (tt, s') ∧ reading t s' l'.
Proof.
  destruct s as [q p st gt]. intros [HQ Hk Hf Hp]. cbn in *. unfold input_full. rewrite (queue_full q l HQ).
  destruct (decide (length l = 63%nat)) as [Hl|Hl]; [rewrite bool_decide_true by done; by exists (Readers q p st gt), l|].
  rewrite bool_decide_false by done. destruct (putc_room q l true 0 key HQ Hl) as (q' & Hr & HQ' & He' & Hf' & Hl').
  unfold input_putc. rewrite (queue_full q l HQ), bool_decide_false, Hr by done.
  destruct (not_empty q) as [u|] eqn:He; (eexists _, (l ++ [key]); split; [reflexivity|]; split; cbn; [done|by rewrite Hk, app_assoc|congruence|]).
  - destruct (q_empty _ _ HQ u He) as [-> Hlk].
    destruct (p t) as [[]|] eqn:Ep; [by destruct Hp as [? _]|done|by destruct Hp as [? _]|].
    injection Hp as ->. rewrite fn_lookup_insert. by rewrite Hl'.
  - destruct (p t) as [[]|]; [|done| |done]; destruct Hp as [_ Hp]; split; congruence.
Qed.

Lemma reader_runs t s l : reading t s l → ∃ s' l', reader_step (Runs t) s = Ret (tt, s') ∧ reading t s' l'.
Proof.
  destruct s as [q p st gt]. intros HR. pose proof HR as [HQ Hk Hf Hp]. cbn in *. destruct (p t) as [[]|] eqn:Ep; [|done| |by eexists _, l].
  - destruct Hp as [He Hlk]. unfold input_getc. destruct l as [|b l].
    + rewrite (getc_empty q t false HQ). pose proof (queue_acquire_not_empty q [] t HQ ltac:(by rewrite Hlk)) as Hw. rewrite Hlk, decide_True in Hw by done.
      destruct Hw as (q' & Hr & HQ' & He'). cbn [intq_getc]. rewrite Hr. eexists _, []. split; [reflexivity|]. split; cbn; [done|done| |].
      * unfold queue_acquire, wait_not_empty in Hr. rewrite Hlk in Hr. destruct (intq_empty _); [|done]. by injection Hr as <-.
      * by rewrite fn_lookup_insert.
    + destruct (getc_some q b l false t HQ) as (q' & Hr & HQ' & Hf' & He' & Hl'). rewrite Hr. eexists _, l. split; [reflexivity|].
      split; cbn; [done|by rewrite Hk, <-app_assoc|done|]. rewrite fn_lookup_insert. split; congruence.
  - destruct Hp as [He Hlk]. unfold input_getc, intq_getc, queue_release. rewrite decide_True by done. eexists _, l. split; [reflexivity|].
    split; cbn; [by apply (queue_lock q l t); rewrite ?He, ?Hf|done|done|]. by rewrite fn_lookup_insert.
Qed.

(** A single reader never stops the kernel, whenever keys arrive and
    whenever it runs: what it has read are the keys that were stored, in
    order, up to those still in the buffer, and it only sleeps in the buffer
    while there are none.  Two readers can stop the kernel with two keys. *)
Theorem one_reader_safe garbage t l :
  length garbage = 64%nat → Forall (λ e, ∀ u, e = Runs u → u = t) l →
  (∃ s rest, reader_steps l (no_keys garbage) = Ret (tt, s) ∧ stored s = got s ++ rest ∧ (points s t = None → rest = [])) ∧
  reader_steps [Runs 1; Runs 2; Key 97; Key 98; Runs 1; Runs 1; Runs 2] (no_keys (replicate 64 0)) = Panic.
Proof.
  intros Hg Hl. split; [|vm_compute; reflexivity].
  assert (∀ s k, reading t s k → ∃ s' k', reader_steps l s = Ret (tt, s') ∧ reading t s' k') as Hsteps.
  { induction Hl as [|e l He Hl IH]; intros s k HR; [by exists s, k|]. cbn [reader_steps].
    assert (∃ s' k', reader_step e s = Ret (tt, s') ∧ reading t s' k') as (s1 & k1 & H1 & HR1).
    { destruct e as [key|u]; [by apply (key_arrives t s k)|]. rewrite (He u eq_refl). by apply (reader_runs t s k). }
    rewrite (st_bind_ret _ _ _ _ _ H1). by apply (IH s1 k1). }
  destruct (Hsteps (no_keys garbage) []) as (s & k & Hr & [HQ Hk _ Hp]); [split; cbn; [by apply intq_init_queue|done|done|done]|].
  exists s, k. split; [done|]. split; [done|]. intros Ep. rewrite Ep in Hp. apply (q_empty _ _ HQ t Hp).
Qed.

Lemma one_reader_safe_witness :
  ∃ s rest, reader_steps [Runs 1; Key 97; Key 98; Runs 1; Runs 1] (no_keys (replicate 64 0)) = Ret (tt, s) ∧ stored s = got s ++ rest ∧
    (points s 1 = None → rest = []).
Proof.
  apply (one_reader_safe (replicate 64 0) 1 [Runs 1; Key 97; Key 98; Runs 1; Runs 1]); [reflexivity|].
  repeat constructor; intros u [= <-]; reflexivity.
Defined.

(** ** [kbd.c] *)

Record kbd : Type := Kbd {
  left_shift : bool;
  right_shift : bool;
  left_alt : bool;
  right_alt : bool;
  left_ctrl : bool;
  right_ctrl : bool;
  caps_lock : bool;
  key_cnt : Z
}.

(** A [struct keymap]: the first scancode and the characters from it on. *)
Definition keymap : Type := list (Z * list Z).

Definition invariant_keymap : keymap :=
  [(0x01, [27]); (0x0e, [8]); (0x0f, 9 :: str "QWERTYUIOP"); (0x1c, [13]); (0x1e, str "ASDFGHJKL"); (0x2c, str "ZXCVBNM");
   (0x37, str "*"); (0x39, str " "); (0x53, [127])].

Definition unshifted_keymap : keymap :=
  [(0x02, str "1234567890-="); (0x1a, str "[]"); (0x27, str ";'`"); (0x2b, [92]); (0x33, str ",./")].

Definition shifted_keymap : keymap :=
  [(0x02, str "!@#$%^&*()_+"); (0x1a, str "{}"); (0x27, [58; 34; 126]); (0x2b, str "|"); (0x33, str "<>?")].

Fixpoint map_key (k : keymap) (scancode : Z) : option Z :=
  match k with
  | [] => None
  | (first_scancode, chars) :: k =>
      if (first_scancode <=? scancode) && (scancode <? first_scancode + Z.of_nat (length chars))
      then chars !! Z.to_nat (scancode - first_scancode)
      else map_key k scancode
  end.

Definition tolower (c : Z) : Z := if isupper c then c - 65 + 97 else c.

(** The three calls of [map_key] in [keyboard_interrupt]. *)
Definition find_key (shift : bool) (code : Z) : option Z :=
  match map_key invariant_keymap code with
  | Some c => Some c
  | None => if negb shift then map_key unshifted_keymap code else map_key shifted_keymap code
  end.

(** The character that is appended to the buffer. *)
Definition key_char (shift alt ctrl caps : bool) (c : Z) : Z :=
  let c := if ctrl && (0x40 <=? c) && (c <? 0x60) then u8 (c - 0x40)
           else if Bool.eqb shift caps then u8 (tolower c) else c in
  if alt then u8 (c + 0x80) else c.

(** The table of shift keys. *)
Definition set_shift_key (code : Z) (down : bool) (k : kbd) : kbd :=
  let '(Kbd ls rs la ra lc rc caps n) := k in
  if code =? 0x2a then Kbd down rs la ra lc rc caps n
  else if code =? 0x36 then Kbd ls down la ra lc rc caps n
  else if code =? 0x38 then Kbd ls rs down ra lc rc caps n
  else if code =? 0xe038 then Kbd ls rs la down lc rc caps n
  else if code =? 0x1d then Kbd ls rs la ra down rc caps n
  else if code =? 0xe01d then Kbd ls rs la ra lc down caps n
  else k.

(** The reader that was woken, or [None] if the machine restarts. *)
Definition keyboard_interrupt (port : Z * Z) : st (kbd * intq) (option (option Z)) := λ '(k, q),
  let shift := left_shift k || right_shift k in
  let alt := left_alt k || right_alt k in
  let ctrl := left_ctrl k || right_ctrl k in
  let code := if port.1 =? 0xe0 then Z.lor (Z.shiftl port.1 8) port.2 else port.1 in
  let release := negb (Z.land code 0x80 =? 0) in
  let code := Z.land code (2 ^ 32 - 1 - 0x80) in
  if code =? 0x3a then
    let caps := if release then caps_lock k else negb (caps_lock k) in
    Ret (Some None, (Kbd (left_shift k) (right_shift k) (left_alt k) (right_alt k) (left_ctrl k) (right_ctrl k) caps (key_cnt k), q))
  else
    match find_key shift code with
    | Some c =>
        if release then Ret (Some None, (k, q))
        else if (c =? 0x7f) && ctrl && alt then Ret (None, (k, q))
        else if input_full q then Ret (Some None, (k, q))
        else
          let k := Kbd (left_shift k) (right_shift k) (left_alt k) (right_alt k) (left_ctrl k) (right_ctrl k) (caps_lock k)
                     (key_cnt k + 1) in
          match input_putc (key_char shift alt ctrl (caps_lock k) c) q with
          | Ret (Finished _ woken, q) => Ret (Some woken, (k, q))
          | Ret (_, q) => Ret (Some None, (k, q))
          | Panic => Panic
          | Diverge => Diverge
          end
    | None => Ret (Some None, (set_shift_key code (negb release) k, q))
    end.

(** ** Typing *)

(** The key of a character: a scancode of one byte, and whether a shift key is
    needed. *)
Definition types (c : Z) (x : Z * bool) : bool :=
  match find_key x.2 x.1 with
  | Some d => negb (d =? 0x7f) && (key_char x.2 false false false d =? c) && negb (x.1 =? 0x3a)
  | None => false
  end.

Definition all_keys : list (Z * bool) := ((λ i, (Z.of_nat i, false)) <$> seq 1 88) ++ ((λ i, (Z.of_nat i, true)) <$> seq 1 88).

Definition key_of (c : Z) : option (Z * bool) := snd <$> list_find (types c) all_keys.

(** Pressing and releasing the keys for a character. *)
Definition key_events (c : Z) : list Z :=
  match key_of c with
  | Some (code, true) => [0x2a; code; code + 0x80; 0x2a + 0x80]
  | Some (code, false) => [code; code + 0x80]
  | None => []
  end.

(** The interrupts for a sequence of scancodes of one byte. *)
Fixpoint interrupts (codes : list Z) : st (kbd * intq) unit :=
  match codes with
  | [] => mret tt
  | code :: codes =>
      r ← keyboard_interrupt (code, 0);
      match r with Some _ => interrupts codes | None => panicS end
  end.

Lemma interrupts_app l1 l2 s s1 : interrupts l1 s = Ret (tt, s1) → interrupts (l1 ++ l2) s = interrupts l2 s1.
Proof.
  revert s. induction l1 as [|c l1 IH]; intros s; cbn; [by intros [= ->]|]. intros H. apply st_bind_inv in H as ([w|] & s2 & H1 & H2); [|done].
  rewrite (st_bind_ret _ _ _ _ _ H1). by apply IH.
Qed.

(** No modifier is down. *)
Definition neutral (n : Z) : kbd := Kbd false false false false false false false n.

(** What the tables say of a key, as far as the handler depends on it. *)
Definition key_ok (c : Z) : bool :=
  match key_of c with
  | Some (code, shift) =>
      negb (code =? 0xe0) && negb (code + 0x80 =? 0xe0) && (Z.land code 0x80 =? 0) && negb (Z.land (code + 0x80) 0x80 =? 0) &&
      (Z.land code (2 ^ 32 - 1 - 0x80) =? code) && (Z.land (code + 0x80) (2 ^ 32 - 1 - 0x80) =? code) && types c (code, shift)
  | None => false
  end.

Lemma all_keys_ok : forallb (λ i, key_ok (Z.of_nat i)) (seq 32 95) = true.
Proof. vm_compute. reflexivity. Qed.

Lemma key_ok_printable c : 32 ≤ c < 127 → key_ok c = true.
Proof.
  intros Hc. rewrite <-(Z2Nat.id c) by lia. apply (proj1 (forallb_forall _ _) all_keys_ok), in_seq. lia.
Qed.

(** Pressing a key with the left shift key in some position. *)
Lemma press_key c code shift n q l :
  key_of c = Some (code, shift) → key_ok c = true → queue q l → (length l < 63)%nat →
  ∃ q', keyboard_interrupt (code, 0) (Kbd shift false false false false false false n, q) =
      Ret (Some (not_empty q), (Kbd shift false false false false false false (n + 1), q')) ∧ queue q' (l ++ [c]).
Proof.
  intros Hk Hok HQ Hl. unfold key_ok in Hok. rewrite Hk in Hok.
  apply andb_true_iff in Hok as [(((((H1 & H2)%andb_true_iff & H3)%andb_true_iff & H4)%andb_true_iff & H5)%andb_true_iff & H6)%andb_true_iff Ht].
  apply negb_true_iff in H1. apply Z.eqb_eq in H3, H5. unfold types in Ht. cbn [fst snd] in Ht.
  destruct (putc_room q l true 0 c HQ) as (q' & Hp & HQ' & _); [lia|]. exists q'. split; [|done].
  unfold keyboard_interrupt. cbn [fst snd left_shift right_shift left_alt right_alt left_ctrl right_ctrl caps_lock key_cnt orb].
  rewrite H1, H3, H5, orb_false_r. destruct (find_key shift code) as [d|]; [|done].
  apply andb_true_iff in Ht as [(Hd & Hc)%andb_true_iff Hcaps]. apply negb_true_iff in Hcaps. rewrite Hcaps.
  cbn [negb Z.eqb]. rewrite andb_false_r. unfold input_full, input_putc. rewrite (queue_full q l HQ), bool_decide_false by lia.
  apply Z.eqb_eq in Hc. rewrite Hc, Hp. done.
Qed.

Lemma release_key c code shift n q :
  key_of c = Some (code, shift) → key_ok c = true →
  keyboard_interrupt (code + 0x80, 0) (Kbd shift false false false false false false n, q) =
    Ret (Some None, (Kbd shift false false false false false false n, q)).
Proof.
  intros Hk Hok. unfold key_ok in Hok. rewrite Hk in Hok.
  apply andb_true_iff in Hok as [(((((H1 & H2)%andb_true_iff & H3)%andb_true_iff & H4)%andb_true_iff & H5)%andb_true_iff & H6)%andb_true_iff Ht].
  apply negb_true_iff in H2, H4. apply Z.eqb_eq in H6. unfold types in Ht. cbn [fst snd] in Ht.
  unfold keyboard_interrupt. cbn [fst snd left_shift right_shift left_alt right_alt left_ctrl right_ctrl caps_lock key_cnt orb].
  rewrite H2, H4, H6, orb_false_r. destruct (find_key shift code) as [d|]; [|done].
  apply andb_true_iff in Ht as [(Hd & Hc)%andb_true_iff Hcaps]. apply negb_true_iff in Hcaps. by rewrite Hcaps.
Qed.

Lemma type_character c n q l :
  32 ≤ c < 127 → queue q l → (length l < 63)%nat →
  ∃ q', interrupts (key_events c) (neutral n, q) = Ret (tt, (neutral (n + 1), q')) ∧ queue q' (l ++ [c]).
Proof.
  intros Hc HQ Hl. pose proof (key_ok_printable c Hc) as Hok. unfold key_events.
  destruct (key_of c) as [[code shift]|] eqn:Hk; [|by unfold key_ok in Hok; rewrite Hk in Hok].
  destruct (press_key c code shift n q l Hk Hok HQ Hl) as (q' & Hp & HQ'). pose proof (release_key c code shift (n + 1) q' Hk Hok) as Hr.
  exists q'. split; [|done]. destruct shift; cbn [interrupts].
  - assert (keyboard_interrupt (0x2a, 0) (neutral n, q) = Ret (Some None, (Kbd true false false false false false false n, q))) as Hs by done.
    rewrite (st_bind_ret _ _ _ _ _ Hs), (st_bind_ret _ _ _ _ _ Hp), (st_bind_ret _ _ _ _ _ Hr). done.
  - rewrite (st_bind_ret _ _ _ _ _ Hp). rewrite (st_bind_ret _ _ _ _ _ Hr). done.
Qed.

(** Every text of printable characters can be typed.  Pressing and releasing
    the keys of its characters, with the shift key where it is needed, appends
    exactly the text to the bytes that wait to be read, as long as they fit into
    the buffer, and leaves no modifier down. *)
Theorem text_can_be_typed text n q l :
  Forall (λ c, 32 ≤ c < 127) text → queue q l → (length l + length text ≤ 63)%nat →
  ∃ q', interrupts (text ≫= key_events) (neutral n, q) = Ret (tt, (neutral (n + Z.of_nat (length text)), q')) ∧ queue q' (l ++ text).
Proof.
  intros Ht. revert n q l. induction Ht as [|c text Hc Ht IH]; intros n q l HQ Hl.
  { exists q. rewrite app_nil_r. cbn. by rewrite Z.add_0_r. }
  cbn [length] in Hl. destruct (type_character c n q l Hc HQ) as (q1 & H1 & HQ1); [lia|].
  destruct (IH (n + 1) q1 _ HQ1) as (q' & H2 & HQ2); [rewrite length_app; cbn; lia|]. exists q'.
  cbn [mbind list_bind]. rewrite (interrupts_app _ _ _ _ H1). change (list_bind _ _ key_events text) with (text ≫= key_events). rewrite H2.
  rewrite <-app_assoc in HQ2. split; [|done]. do 4 f_equal. cbn [length]. lia.
Qed.

Lemma text_can_be_typed_witness :
  ∃ q', interrupts (str "Hi!" ≫= key_events) (neutral 0, intq_init (replicate 64 0)) = Ret (tt, (neutral 3, q')) ∧ queue q' (str "Hi!").
Proof.
  apply (text_can_be_typed (str "Hi!") 0 (intq_init (replicate 64 0)) []).
  - repeat constructor; discriminate.
  - by apply intq_init_queue.
  - cbn. lia.
Defined.
