(* ===== verification/Paging.v ===== *)
(** * The kernel's page directory ([paging_init] of [threads/init.c])

    At startup the kernel builds the page directory that maps all of physical
    memory above [PHYS_BASE], with the pages of its own text read-only.  The
    theorem shows that this is what the tables say afterwards, and that the
    directory is one from which [pagedir_create] may start. *)

From stdpp Require Import functions.
From stdpp Require Import base tactics list numbers option sets gmap.
From Stdlib Require Import ZArith Lia.
From S2P Require Import Prelude Vaddr Palloc PageAlloc Pagedir PagedirSpec PagedirRefine.

Section paging.
Context {P : Type} `{!PageAllocator P}.
Implicit Types s : pgstate P.

(** The addresses [&_start] and [&_end_kernel_text], and the pages of RAM. *)
Context (start end_kernel_text init_ram_pages : Z).

Definition get_page_or_panic : st (pgstate P) Z := alloc (get_multiple (Z.lor PAL_ASSERT PAL_ZERO) 1).

(** The loop over the pages from [page] on, with [n] left; [pt] is the table of
    the iteration before. *)
Fixpoint paging_loop (n : nat) (pd pt page : Z) : st (pgstate P) unit :=
  match n with
  | O => mret tt
  | S n =>
      vaddr ← pure (ptov (page * PGSIZE));
      let in_kernel_text := (start <=? vaddr) && (vaddr <? end_kernel_text) in
      w ← rd (pd + 4 * pd_no vaddr);
      pt ← (if w =? 0 then
              pt ← get_page_or_panic;
              e ← pure (pde_create pt);
              wr (pd + 4 * pd_no vaddr) e;;
              mret pt
            else mret pt);
      e ← pure (pte_create_kernel vaddr (negb in_kernel_text));
      wr (pt + 4 * pt_no vaddr) e;;
      paging_loop n pd pt (page + 1)
  end.

(** Returns [init_page_dir]. *)
Definition paging_init : st (pgstate P) Z :=
  pd ← get_page_or_panic;
  paging_loop (Z.to_nat init_ram_pages) pd 0 0;;
  pa ← pure (vtop pd);
  modifyS (λ s, PgState (pgs s) pa (λ _, None));;
  mret pd.

(** ** The tables *)

Definition text_page (page : Z) : bool :=
  (start <=? page * 4096 + PHYS_BASE) && (page * 4096 + PHYS_BASE <? end_kernel_text).

(** The entry of a page of physical memory. *)
Definition kernel_word (page : Z) : Z := Z.lor (page * 4096) (if text_page page then 1 else 3).

(** The pages below [k] are mapped, by the tables [T]; the memory was [m0] and
    the pages [A] of others are what they were. *)
Record kernel_map (m0 : Z → Z) (s : pgstate P) (pd : Z) (T : list Z) (A : list (Z * Z)) (k : Z) : Prop := KernelMap {
  km_holds : holds (pgs s) ((pd, 1) :: ((λ t, (t, 1)) <$> T) ++ A);
  km_undisturbed : undisturbed A m0 (pmem s);
  km_size : (length T ≤ 256)%nat;
  km_pde (i : nat) t : T !! i = Some t → read32 (pmem s) (pd + 4 * (768 + Z.of_nat i)) = pde_word t;
  km_rest j : 0 ≤ j < 768 ∨ 768 + Z.of_nat (length T) ≤ j < 1024 → read32 (pmem s) (pd + 4 * j) = 0;
  km_pte p : 0 ≤ p < k → ∃ t, T !! Z.to_nat (p / 1024) = Some t ∧ read32 (pmem s) (t + 4 * (p mod 1024)) = kernel_word p
}.

Lemma map_apart m0 s pd T A k : kernel_map m0 s pd T A k → separate ((pd, 1) :: ((λ t, (t, 1)) <$> T) ++ A).
Proof. intros HK. eapply holds_separate, HK. Qed.

Lemma table_elem (T : list Z) A (pd : Z) (i : nat) t : T !! i = Some t → (t, 1) ∈ (pd, 1) :: ((λ t, (t, 1)) <$> T) ++ A.
Proof. intros Hi. right. apply elem_of_app. left. apply list_elem_of_fmap. exists t. split; [done|]. by eapply list_elem_of_lookup_2. Qed.

(** The directory and the tables do not overlap. *)
Lemma tables_apart m0 s pd T A k (i j : nat) t u :
  kernel_map m0 s pd T A k → T !! i = Some t → T !! j = Some u → i ≠ j → pages_apart (t, 1) (u, 1).
Proof.
  intros HK Hi Hj Hne. pose proof (map_apart _ _ _ _ _ _ HK) as [_ Hs Hnd]. apply Hs; [by eapply table_elem..|].
  intros [= ->]. apply NoDup_cons in Hnd as [_ Hnd]. apply NoDup_app in Hnd as [Hnd _].
  apply Hne. eapply (NoDup_lookup _ i j (u, 1) Hnd); by rewrite list_lookup_fmap, ?Hi, ?Hj.
Qed.

Lemma dir_table_apart m0 s pd T A k (i : nat) t :
  kernel_map m0 s pd T A k → T !! i = Some t → pages_apart (pd, 1) (t, 1) ∧ page_block (t, 1).
Proof.
  intros HK Hi. pose proof (map_apart _ _ _ _ _ _ HK) as Hs. apply separate_cons in Hs as (_ & _ & Hs). apply Hs.
  pose proof (table_elem T A pd i t Hi) as Hin. apply elem_of_cons in Hin as [Hin|Hin]; [|done].
  pose proof (map_apart _ _ _ _ _ _ HK) as [_ _ Hnd]. apply NoDup_cons in Hnd as [Hnd _]. destruct Hnd. rewrite <-Hin.
  apply elem_of_app. left. apply list_elem_of_fmap. exists t. split; [done|]. by eapply list_elem_of_lookup_2.
Qed.

(** A write into one page that is held leaves the others as they are. *)
Lemma write_other m a v b c x :
  page_block b → b.2 = 1 → b.1 ≤ a → a + 4 ≤ b.1 + 4096 → pages_apart b c → c.1 ≤ x < c.1 + 4096 * c.2 → write32 m a v x = m x.
Proof. intros (_ & ? & _) Hb Ha Ha' Hap Hx. apply write32_out, within_false. unfold pages_apart in Hap. lia. Qed.

(** A new table. *)
Lemma map_add_table m0 s pd T A k :
  kernel_map m0 s pd T A k → (length T < 256)%nat →
  let make := (pt ← get_page_or_panic; e ← pure (pde_create pt); wr (pd + 4 * (768 + Z.of_nat (length T))) e;; mret pt) in
  make s = Panic ∨ ∃ t s', make s = Ret (t, s') ∧ kernel_map m0 s' pd (T ++ [t]) A k.
Proof.
  intros HK Hlen make. destruct (get_assert (Z.lor PAL_ASSERT PAL_ZERO) 1 (pgs s) _ (km_holds _ _ _ _ _ _ HK)) as [Hp|(t & p & Hr & Hh & Hm)];
    [lia|done| |].
  { left. apply st_bind_panic. unfold get_page_or_panic, alloc. by rewrite Hp. }
  right. pose proof (holds_separate _ _ Hh) as Hsep. apply separate_cons in Hsep as (Htb & Hsep' & Hap).
  apply separate_cons in Hsep' as (Hpb & _ & Hapd). destruct (pde_word_spec t Htb) as (He & _ & _ & Hwr & _).
  assert (get_page_or_panic s = Ret (t, PgState p (cr3 s) (tlb s))) as Hg by (unfold get_page_or_panic, alloc; by rewrite Hr).
  set (w := pd + 4 * (768 + Z.of_nat (length T))). set (m1 := memory p). set (m2 := write32 m1 w (pde_word t)).
  exists t, (with_pmem m2 (PgState p (cr3 s) (tlb s))). split.
  { unfold make. rewrite (st_bind_ret _ _ _ _ _ Hg). erewrite st_bind_ret by (unfold pure, Palloc.lift; rewrite He; reflexivity). reflexivity. }
  assert (∀ c x, c ∈ (pd, 1) :: ((λ t, (t, 1)) <$> T) ++ A → c.1 ≤ x < c.1 + 4096 * c.2 → m1 x = pmem s x) as Hold.
  { intros c x Hc Hx. unfold m1. rewrite Hm. destruct (Hap c Hc) as [Hac _]. unfold pages_apart in Hac. cbn [fst snd] in Hac.
    rewrite (proj2 (within_false _ _ _)) by lia. by rewrite andb_false_r. }
  assert (∀ c x, c ∈ ((λ t, (t, 1)) <$> T) ++ A → c.1 ≤ x < c.1 + 4096 * c.2 → m2 x = pmem s x) as Hold2.
  { intros c x Hc Hx. unfold m2. rewrite (write_other _ _ _ (pd, 1) c); [|done|done|unfold w; cbn; lia|unfold w; cbn; lia|by apply Hapd|done].
    apply (Hold c); [by right|done]. }
  assert (∀ j, 0 ≤ j < 1024 → j ≠ 768 + Z.of_nat (length T) → read32 m2 (pd + 4 * j) = read32 (pmem s) (pd + 4 * j)) as Hdir.
  { intros j Hj Hne. unfold m2. rewrite read_write_apart by (unfold w; lia). apply read32_ext. intros x Hx.
    apply (Hold (pd, 1)); [by left|cbn; lia]. }
  split; rewrite ?pmem_with_pmem; cbn [pgs with_pmem].
  - apply holds_set. eapply holds_perm; [|exact Hh]. rewrite fmap_app, <-app_assoc. cbn. rewrite <-Permutation_middle. apply Permutation_swap.
  - intros b x Hb Hx. rewrite (Hold2 b x); [by apply (km_undisturbed _ _ _ _ _ _ HK b)|by apply elem_of_app; right|by apply within_spec].
  - rewrite length_app. cbn. lia.
  - intros i u Hi. apply lookup_app_Some in Hi as [Hi|[Hge Hi]].
    + pose proof (lookup_lt_Some _ _ _ Hi). rewrite Hdir by lia. by apply (km_pde _ _ _ _ _ _ HK).
    + apply list_lookup_singleton_Some in Hi as [Hi <-]. replace (Z.of_nat i) with (Z.of_nat (length T)) by lia. by apply read_write.
  - intros j Hj. rewrite length_app in Hj. cbn [length] in Hj. rewrite Hdir by lia. apply (km_rest _ _ _ _ _ _ HK). lia.
  - intros q Hq. destruct (km_pte _ _ _ _ _ _ HK q Hq) as (u & Hu & Hrd). exists u. split; [by apply lookup_app_l_Some|]. rewrite <-Hrd.
    apply read32_ext. intros x Hx. apply (Hold2 (u, 1)); [|cbn; zlia]. apply elem_of_app. left. apply list_elem_of_fmap. exists u.
    split; [done|]. by eapply list_elem_of_lookup_2.
Qed.

Lemma kernel_word_range page : 0 ≤ page < 2 ^ 18 → 0 ≤ kernel_word page < 2 ^ 32.
Proof. intros Hp. unfold kernel_word. apply lor_range; [lia|]. by destruct (text_page page). Qed.

Lemma table_other_apart m0 s pd T A k (i : nat) t c :
  kernel_map m0 s pd T A k → T !! i = Some t → c ∈ A → pages_apart (t, 1) c.
Proof.
  intros HK Ht Hc. apply list_elem_of_lookup_2 in Ht. apply list_elem_of_split in Ht as (T1 & T2 & ->).
  pose proof (km_holds _ _ _ _ _ _ HK) as Hh. rewrite fmap_app, fmap_cons, <-app_assoc in Hh.
  apply (holds_pairwise (pgs s) ((pd, 1) :: ((λ t, (t, 1)) <$> T1)) (t, 1) (((λ t, (t, 1)) <$> T2) ++ A) c Hh).
  apply elem_of_app. right. apply elem_of_app. by right.
Qed.

(** The entry of the next page. *)
Lemma map_set_entry m0 s pd T A k t :
  kernel_map m0 s pd T A k → 0 ≤ k < 2 ^ 18 → T !! Z.to_nat (k / 1024) = Some t →
  kernel_map m0 (with_pmem (write32 (pmem s) (t + 4 * (k mod 1024)) (kernel_word k)) s) pd T A (k + 1).
Proof.
  intros HK Hk Ht. destruct (dir_table_apart _ _ _ _ _ _ _ _ HK Ht) as [Hdt Htb]. set (m' := write32 _ _ _).
  assert (∀ c x, pages_apart (t, 1) c → c.1 ≤ x < c.1 + 4096 * c.2 → m' x = pmem s x) as Hold.
  { intros c x Hc Hx. apply (write_other _ _ _ (t, 1) c); [done|done|cbn; zlia|cbn; zlia|done|done]. }
  assert (∀ j, 0 ≤ j < 1024 → read32 m' (pd + 4 * j) = read32 (pmem s) (pd + 4 * j)) as Hdir.
  { intros j Hj. apply read32_ext. intros x Hx. apply (Hold (pd, 1)); [unfold pages_apart in *; cbn in *; lia|cbn; lia]. }
  split; rewrite ?pmem_with_pmem; cbn [pgs with_pmem].
  - apply holds_set, HK.
  - intros b x Hb Hx. rewrite (Hold b x); [by apply (km_undisturbed _ _ _ _ _ _ HK b)| |by apply within_spec].
    by eapply table_other_apart.
  - exact (km_size _ _ _ _ _ _ HK).
  - intros i u Hi. pose proof (lookup_lt_Some _ _ _ Hi). pose proof (km_size _ _ _ _ _ _ HK). rewrite Hdir by lia. by apply (km_pde _ _ _ _ _ _ HK).
  - intros j Hj. rewrite Hdir by lia. apply (km_rest _ _ _ _ _ _ HK). lia.
  - intros q Hq. destruct (decide (q = k)) as [->|Hne]; [exists t; split; [done|]; by apply read_write, kernel_word_range|].
    destruct (km_pte _ _ _ _ _ _ HK q) as (u & Hu & Hrd); [lia|]. exists u. split; [done|]. rewrite <-Hrd.
    destruct (decide (q / 1024 = k / 1024)) as [E|E].
    + assert (u = t) as -> by (rewrite E in Hu; congruence). apply read_write_apart. zlia.
    + apply read32_ext. intros x Hx. apply (Hold (u, 1)); [|cbn; zlia]. eapply tables_apart; [done..|]. zlia.
Qed.

Lemma kernel_page_addr page :
  0 ≤ page < 2 ^ 18 →
  let va := page * 4096 + PHYS_BASE in
  ptov (page * PGSIZE) = Ret va ∧ pd_no va = 768 + page / 1024 ∧ pt_no va = page mod 1024 ∧
  pte_create_kernel va (negb (text_page page)) = Ret (kernel_word page).
Proof.
  intros Hp va. change PGSIZE with 4096. destruct (ptov_vtop (page * 4096)) as (va' & H1 & H2 & ->); [lia|]. fold va in H1, H2.
  split; [done|]. rewrite pd_no_div, pt_no_div. unfold va, PHYS_BASE. change (2 ^ 22) with (4096 * 1024). change (2 ^ 12) with 4096.
  change (2 ^ 10) with 1024. rewrite <-Z.div_div by lia. split; [zlia|]. split; [zlia|].
  unfold pte_create_kernel. rewrite pg_ofs_mod. replace ((page * 4096 + 0xc0000000) mod 4096) with 0 by zlia. cbn [ASSERT Z.eqb mbind outcome_bind].
  change (page * 4096 + 0xc0000000) with va. rewrite H2. cbn. unfold kernel_word. by destruct (text_page page).
Qed.

Lemma paging_loop_ok m0 pd A n : ∀ s T pt k,
  kernel_map m0 s pd T A k → 0 ≤ k → k + Z.of_nat n ≤ 2 ^ 18 → Z.of_nat (length T) = (k + 1023) / 1024 →
  (k mod 1024 ≠ 0 → T !! Z.to_nat (k / 1024) = Some pt) →
  paging_loop n pd pt k s = Panic ∨
  ∃ s' T', paging_loop n pd pt k s = Ret (tt, s') ∧ kernel_map m0 s' pd T' A (k + Z.of_nat n).
Proof.
  induction n as [|n IH]; intros s T pt k HK H0 Hn HT Hpt.
  { right. exists s, T. split; [done|]. by rewrite Z.add_0_r. }
  cbn [paging_loop]. destruct (kernel_page_addr k) as (Hva & Hpd & Hpt' & Hpte); [lia|]. set (va := k * 4096 + PHYS_BASE) in *.
  erewrite st_bind_ret by (unfold pure, Palloc.lift; rewrite Hva; reflexivity). erewrite st_bind_ret by reflexivity. rewrite Hpd, Hpt'.
  change ((start <=? va) && (va <? end_kernel_text)) with (text_page k).
  assert (∀ s1 T1 t, kernel_map m0 s1 pd T1 A k → T1 !! Z.to_nat (k / 1024) = Some t → Z.of_nat (length T1) = k / 1024 + 1 →
    let rest := (e ← pure (pte_create_kernel va (negb (text_page k))); wr (t + 4 * (k mod 1024)) e;; paging_loop n pd t (k + 1)) in
    rest s1 = Panic ∨ ∃ s' T', rest s1 = Ret (tt, s') ∧ kernel_map m0 s' pd T' A (k + Z.of_nat (S n))) as Hrest.
  { intros s1 T1 t HK1 Ht Hlen rest. unfold rest. erewrite !st_bind_ret by (unfold pure, Palloc.lift; rewrite Hpte; reflexivity).
    erewrite st_bind_ret by reflexivity. destruct (IH _ T1 t (k + 1) (map_set_entry _ _ _ _ _ _ _ HK1 ltac:(lia) Ht)) as [Hp|(s' & T' & Hr & HK')];
      [lia|lia|zlia|intros Hm; by replace ((k + 1) / 1024) with (k / 1024) by zlia|by left|right].
    exists s', T'. split; [exact Hr|]. replace (k + Z.of_nat (S n)) with (k + 1 + Z.of_nat n) by lia. done. }
  destruct (decide (k mod 1024 = 0)) as [Hm|Hm].
  - assert (Z.of_nat (length T) = k / 1024) as Hlen by zlia. rewrite (km_rest _ _ _ _ _ _ HK) by zlia. cbn [Z.eqb].
    destruct (map_add_table m0 s pd T A k HK) as [Hp|(t & s1 & Hr & HK1)]; [zlia|left|].
    + apply st_bind_panic. by rewrite <-Hlen.
    + rewrite Hlen in Hr. rewrite (st_bind_ret _ _ _ _ _ Hr). apply (Hrest s1 (T ++ [t]) t); [done| |rewrite length_app; cbn; lia].
      rewrite <-Hlen, Nat2Z.id. by rewrite lookup_app_r, Nat.sub_diag.
  - specialize (Hpt Hm). pose proof (km_pde _ _ _ _ _ _ HK _ _ Hpt) as Hw. rewrite Z2Nat.id in Hw by zlia. rewrite Hw.
    destruct (dir_table_apart _ _ _ _ _ _ _ _ HK Hpt) as [_ Htb]. destruct (pde_word_spec pt Htb) as (_ & _ & Hne & _).
    rewrite (proj2 (Z.eqb_neq _ _) Hne). erewrite st_bind_ret by reflexivity. apply (Hrest s T pt); [done|done|zlia].
Qed.

(** ** The property *)

(** C31: [paging_init] stops the kernel for lack of memory or makes the page
    directory of the kernel active: every page of physical memory is mapped at
    its kernel address, present, not for the user, and writable exactly if it
    is not kernel text; all other entries of the directory are zero, so that
    it is a directory from which those of processes can be created; and no
    page that was held before has changed. *)
Theorem paging_init_correct s A :
  holds (pgs s) A → 0 ≤ init_ram_pages ≤ 2 ^ 18 →
  paging_init s = Panic ∨
  ∃ pd T s', paging_init s = Ret (pd, s') ∧ undisturbed A (pmem s) (pmem s') ∧ cr3 s' = pd - PHYS_BASE ∧
    create_pre pd s' ((pd, 1) :: ((λ t, (t, 1)) <$> T) ++ A) ∧
    (∀ page, 0 ≤ page < init_ram_pages →
       ∃ t, T !! Z.to_nat (page / 1024) = Some t ∧
         read32 (pmem s') (pd + 4 * pd_no (page * 4096 + PHYS_BASE)) = pde_word t ∧
         let w := read32 (pmem s') (t + 4 * pt_no (page * 4096 + PHYS_BASE)) in
         frame_of w = page * 4096 + PHYS_BASE ∧ Z.land w PTE_FLAGS = if text_page page then PTE_P else PTE_P + PTE_W).
Proof.
  intros Hh Hn. unfold paging_init.
  destruct (get_assert (Z.lor PAL_ASSERT PAL_ZERO) 1 (pgs s) A Hh) as [Hp|(pd & p & Hr & Hh1 & Hm)]; [lia|done|left|].
  { apply st_bind_panic. unfold get_page_or_panic, alloc. by rewrite Hp. }
  set (s1 := PgState p (cr3 s) (tlb s)). assert (get_page_or_panic s = Ret (pd, s1)) as Hg by (unfold get_page_or_panic, alloc; by rewrite Hr).
  rewrite (st_bind_ret _ _ _ _ _ Hg). pose proof (holds_separate _ _ Hh1) as Hsep. apply separate_cons in Hsep as (Hpb & _ & Hap).
  assert (undisturbed A (pmem s) (pmem s1)) as Hu.
  { intros b x Hb Hx%within_spec. unfold pmem, s1. cbn [pgs]. rewrite Hm. destruct (Hap b Hb) as [Hab _]. unfold pages_apart in Hab. cbn in Hab.
    rewrite (proj2 (within_false _ _ _)) by lia. by rewrite andb_false_r. }
  assert (kernel_map (pmem s) s1 pd [] A 0) as HK.
  { split; [done|done|cbn; lia|done| |lia]. intros j Hj. cbn [length] in Hj. unfold read32.
    unfold pmem, s1. cbn [pgs]. rewrite !Hm, !(proj2 (within_spec _ _ _)) by lia. done. }
  destruct (paging_loop_ok (pmem s) pd A (Z.to_nat init_ram_pages) s1 [] 0 0 HK) as [Hp|(s2 & T & Hr2 & HK2)]; [lia|lia|done|done|left|right].
  { by apply st_bind_panic. }
  rewrite Z2Nat.id, Z.add_0_l in HK2 by lia. pose proof Hpb as (_ & _ & Hpb1 & Hpb2). cbn in Hpb1, Hpb2.
  destruct (vtop_ptov pd) as (pa & Hv & _ & ->); [unfold PHYS_BASE in *; lia|].
  exists pd, T. eexists. split.
  { rewrite (st_bind_ret _ _ _ _ _ Hr2). erewrite st_bind_ret by (unfold pure, Palloc.lift; rewrite Hv; reflexivity). reflexivity. }
  split; [exact (km_undisturbed _ _ _ _ _ _ HK2)|]. split; [done|]. split.
  { split; cbn [pgs cr3]; [exact (km_holds _ _ _ _ _ _ HK2)|by left|intros i Hi; apply (km_rest _ _ _ _ _ _ HK2); by left|].
    replace (pd - PHYS_BASE + PHYS_BASE) with pd by lia. by left. }
  intros page Hpg. destruct (km_pte _ _ _ _ _ _ HK2 page Hpg) as (t & Ht & Hw). exists t. split; [done|].
  destruct (kernel_page_addr page) as (_ & -> & -> & _); [lia|]. pose proof (km_pde _ _ _ _ _ _ HK2 _ _ Ht) as Hd. rewrite Z2Nat.id in Hd by zlia.
  split; [exact Hd|]. change (pmem (PgState (pgs s2) _ _)) with (pmem s2). rewrite Hw. unfold kernel_word.
  destruct (entry_word (page * 4096 + PHYS_BASE) (if text_page page then 1 else 3)) as (Hf & Hfl & _).
  { unfold page_block, PHYS_BASE. cbn. split; [zlia|]. lia. }
  { by destruct (text_page page). }
  replace (page * 4096 + PHYS_BASE - PHYS_BASE) with (page * 4096) in Hf, Hfl by lia. split; [done|]. rewrite Hfl. by destruct (text_page page).
Qed.
End paging.

(** A machine with 600 pages and a kernel text of 20 pages. *)
Definition ex_boot : pgstate pstate := PgState ex_pools 0 (λ _, None).

Lemma ex_boot_memory : match paging_init 0xc0020000 0xc0034000 600 ex_boot with Panic => false | _ => true end = true.
Proof. vm_compute. reflexivity. Qed.

Lemma paging_init_correct_witness :
  ∃ pd T s', paging_init 0xc0020000 0xc0034000 600 ex_boot = Ret (pd, s') ∧
    create_pre pd s' ((pd, 1) :: ((λ t, (t, 1)) <$> T) ++ []).
Proof.
  assert (0 ≤ 600 ≤ 2 ^ 18) as Hn by lia.
  destruct (paging_init_correct 0xc0020000 0xc0034000 600 ex_boot [] ex_pools_hold Hn) as [Hp|(pd & T & s' & Hr & _ & _ & Hc & _)].
  - exfalso. pose proof ex_boot_memory as H. rewrite Hp in H. discriminate.
  - exists pd, T, s'. exact (conj Hr Hc).
Defined.
