(* ===== verification/Random.v ===== *)
(** * Random numbers and the clock ([lib/random.c], [devices/rtc.c])

    The generator is RC4: the theorem shows that its table always is a
    permutation of the bytes and that seeding it again forgets the seed before,
    so that the seed of the option [-rs], which the kernel sets before it seeds
    the generator from the clock, has no effect.  For the clock it shows how far
    the time it returns is from the time of the registers. *)

From stdpp Require Import functions.
From stdpp Require Import base tactics list numbers option.
From Stdlib Require Import ZArith Lia.
From S2P Require Import Prelude.

(** ** [random.c] *)

Record rc4 : Type := Rc4 {
  s : list Z;
  s_i : Z;
  s_j : Z;
  inited : bool
}.

(** [s[i]]; every index is a byte. *)
Definition at_ (l : list Z) (i : Z) : Z := default 0 (l !! Z.to_nat i).

Definition swap_byte (a b : Z) (l : list Z) : list Z := <[Z.to_nat a := at_ l b]> (<[Z.to_nat b := at_ l a]> l).

(** Byte [k] of the seed, the low byte first. *)
Definition seedp (seed k : Z) : Z := u8 (seed / 2 ^ (8 * k)).

(** The second loop of [random_init] from [i] on, with [n] left. *)
Fixpoint mix (n : nat) (seed i j : Z) (l : list Z) : list Z :=
  match n with
  | O => l
  | S n =>
      let j := u8 (j + (at_ l i + seedp seed (i mod 4))) in
      mix n seed (i + 1) j (swap_byte i j l)
  end.

Definition identity : list Z := Z.of_nat <$> seq 0 256.

Definition random_init (seed : Z) (r : rc4) : rc4 := Rc4 (mix 256 seed 0 0 identity) 0 0 true.

Fixpoint random_bytes_loop (size : nat) (r : rc4) : list Z * rc4 :=
  match size with
  | O => ([], r)
  | S size =>
      let i := u8 (s_i r + 1) in
      let j := u8 (s_j r + at_ (s r) i) in
      let l := swap_byte i j (s r) in
      let k := u8 (at_ l i + at_ l j) in
      let '(bs, r) := random_bytes_loop size (Rc4 l i j (inited r)) in
      (at_ l k :: bs, r)
  end.

Definition random_bytes (size : nat) (r : rc4) : list Z * rc4 :=
  random_bytes_loop size (if inited r then r else random_init 0 r).

Definition random_ulong (r : rc4) : Z * rc4 :=
  let '(bs, r) := random_bytes 4 r in
  (at_ bs 0 + 2 ^ 8 * at_ bs 1 + 2 ^ 16 * at_ bs 2 + 2 ^ 24 * at_ bs 3, r).

(** ** The table *)

(** Every byte has exactly one place. *)
Definition table_ok (l : list Z) : Prop :=
  length l = 256%nat ∧ NoDup l ∧ ∀ x, x ∈ l → 0 ≤ x < 256.

Lemma at_lookup l i : 0 ≤ i < Z.of_nat (length l) → l !! Z.to_nat i = Some (at_ l i).
Proof. intros Hi. unfold at_. destruct (l !! Z.to_nat i) eqn:E; [done|]. apply lookup_ge_None in E. lia. Qed.

Lemma at_byte l i : table_ok l → 0 ≤ i < 256 → 0 ≤ at_ l i < 256.
Proof. intros (Hl & _ & Hb) Hi. apply Hb. eapply list_elem_of_lookup_2, at_lookup. lia. Qed.

(** Where the byte at [k] comes from. *)
Definition moved (a b : Z) (k : nat) : nat :=
  if decide (k = Z.to_nat a) then Z.to_nat b else if decide (k = Z.to_nat b) then Z.to_nat a else k.

Lemma swap_lookup l a b (k : nat) :
  0 ≤ a < Z.of_nat (length l) → 0 ≤ b < Z.of_nat (length l) → swap_byte a b l !! k = l !! moved a b k.
Proof.
  intros Ha Hb. unfold swap_byte, moved. case_decide as H1.
  - subst k. rewrite (at_lookup l b) by lia. apply list_lookup_insert_eq. rewrite length_insert. lia.
  - rewrite list_lookup_insert_ne by done. case_decide as H2; [subst k; rewrite (at_lookup l a) by lia; apply list_lookup_insert_eq; lia|].
    by rewrite list_lookup_insert_ne.
Qed.

Lemma swap_ok l a b : table_ok l → 0 ≤ a < 256 → 0 ≤ b < 256 → table_ok (swap_byte a b l).
Proof.
  intros (Hl & Hn & Hr) Ha Hb. split; [unfold swap_byte; by rewrite !length_insert|]. split.
  - apply NoDup_alt. intros i j x. rewrite !swap_lookup by lia. intros Hi Hj. pose proof (proj1 (NoDup_alt l) Hn _ _ _ Hi Hj) as He.
    unfold moved in He. repeat case_decide; lia.
  - intros x (k & Hk)%list_elem_of_lookup. rewrite swap_lookup in Hk by lia. by eapply Hr, list_elem_of_lookup_2.
Qed.

Lemma identity_ok : table_ok identity.
Proof.
  split; [done|]. split; [apply NoDup_fmap_2; [intros ??; lia|apply NoDup_seq]|]. intros x (k & -> & Hk%elem_of_seq)%list_elem_of_fmap. lia.
Qed.

Lemma mix_ok n seed : ∀ i j l, table_ok l → 0 ≤ i → i + Z.of_nat n ≤ 256 → table_ok (mix n seed i j l).
Proof.
  induction n as [|n IH]; intros i j l Hl Hi Hn; [done|]. cbn [mix]. apply IH; [|lia|lia]. apply swap_ok; [done|lia|apply u8_range].
Qed.

Lemma random_bytes_ok size : ∀ r bs r', table_ok (s r) → random_bytes_loop size r = (bs, r') →
  table_ok (s r') ∧ length bs = size ∧ (∀ b, b ∈ bs → 0 ≤ b < 256) ∧ inited r' = inited r.
Proof.
  induction size as [|size IH]; intros r bs r' Hr; cbn [random_bytes_loop]; [intros [= <- <-]; split_and!; [done..|by intros b []%elem_of_nil|done]|].
  set (l := swap_byte _ _ _). assert (table_ok l) as Hl by (apply swap_ok; [done|apply u8_range..]).
  destruct (random_bytes_loop size _) as [bs1 r1] eqn:E. intros [= <- <-]. apply IH in E as (H1 & H2 & H3 & H4); [|exact Hl].
  split_and!; [done|cbn; by rewrite H2| |done]. intros b [->|Hb]%elem_of_cons; [|by apply H3]. apply at_byte; [done|apply u8_range].
Qed.

(** The generator is always ready: [random_bytes] returns as many bytes as
    asked for, with a table in which every byte has exactly one place before and
    after; it seeds itself if that has not been done; and seeding it makes the
    bytes depend on that seed alone, so that a seed given before, as with the
    option [-rs], is lost. *)
Theorem random_correct seed seed' size r :
  (inited r = true → table_ok (s r)) →
  random_init seed' (random_init seed r) = random_init seed' r ∧
  (table_ok (s (random_init seed r)) ∧ inited (random_init seed r) = true) ∧
  ∃ bs r', random_bytes size r = (bs, r') ∧ length bs = size ∧ (∀ b, b ∈ bs → 0 ≤ b < 256) ∧ table_ok (s r') ∧ inited r' = true.
Proof.
  intros Hr. split; [done|]. split; [split; [apply mix_ok; [apply identity_ok|lia|lia]|done]|]. unfold random_bytes.
  set (r0 := if inited r then r else random_init 0 r).
  assert (table_ok (s r0) ∧ inited r0 = true) as [Ht Hi].
  { unfold r0. destruct (inited r) eqn:E; [by split; [apply Hr|]|]. split; [apply mix_ok; [apply identity_ok|lia|lia]|done]. }
  destruct (random_bytes_loop size r0) as [bs r'] eqn:E. destruct (random_bytes_ok _ _ _ _ Ht E) as (H1 & H2 & H3 & H4).
  exists bs, r'. split_and!; [done..|congruence].
Qed.

Lemma random_correct_witness :
  ∃ bs r', random_bytes 4 (Rc4 [] 0 0 false) = (bs, r') ∧ length bs = 4%nat ∧ (∀ b, b ∈ bs → 0 ≤ b < 256) ∧ table_ok (s r') ∧ inited r' = true.
Proof. apply (random_correct 1 2 4 (Rc4 [] 0 0 false)). discriminate. Defined.

(** ** [rtc.c] *)

Definition bcd_to_bin (x : Z) : Z := Z.land x 0x0f + Z.shiftr x 4 * 10.

Definition days_per_month : list Z := [31; 28; 31; 30; 31; 30; 31; 31; 30; 31; 30; 31].

Fixpoint month_seconds (n : nat) (i : Z) (time : Z) : Z :=
  match n with
  | O => time
  | S n => month_seconds n (i + 1) (u32 (time + at_ days_per_month (i - 1) * 24 * 60 * 60))
  end.

(** The seconds for what the registers held, with [year] counted from 1900. *)
Definition rtc_seconds (sec min hour mday mon year : Z) : Z :=
  let year := if year <? 70 then year + 100 else year in
  let year := year - 70 in
  let time := u32 (s32 ((year * 365 + Z.quot (year - 1) 4) * 24 * 60 * 60)) in
  let time := month_seconds (Z.to_nat mon) 1 time in
  let time := if (2 <? mon) && (Z.rem year 4 =? 0) then u32 (time + 24 * 60 * 60) else time in
  u32 (time + (mday - 1) * 24 * 60 * 60 + hour * 60 * 60 + min * 60 + sec).

(** [cmos i] are the registers at the [i]th read; the loop reads until the
    seconds have not changed. *)
Fixpoint rtc_get_time (fuel : nat) (cmos : nat → Z → Z) (i : nat) : outcome Z :=
  match fuel with
  | O => Diverge
  | S fuel =>
      let read k r := bcd_to_bin (cmos (i + k)%nat r) in
      let sec := read 0%nat 0 in
      let min := read 1%nat 2 in
      let hour := read 2%nat 4 in
      let mday := read 3%nat 7 in
      let mon := read 4%nat 8 in
      let year := read 5%nat 9 in
      if sec =? read 6%nat 0 then Ret (rtc_seconds sec min hour mday mon year)
      else rtc_get_time fuel cmos (i + 7)
  end.

(** ** The time *)

(** The days before the year [1970 + y], and the seconds since the epoch at a
    point of that year. *)
Definition days_before (y : Z) : Z := 365 * y + (y + 1) / 4.
Definition leap (y : Z) : bool := y mod 4 =? 2.

Definition days_of_months (y mon : Z) : Z :=
  foldr Z.add 0 (take (Z.to_nat (mon - 1)) days_per_month) + if (2 <? mon) && leap y then 1 else 0.

Definition epoch_seconds (sec min hour mday mon y : Z) : Z :=
  (days_before y + days_of_months y mon + mday - 1) * 86400 + hour * 3600 + min * 60 + sec.

Lemma bcd_round_trip x : 0 ≤ x < 100 → bcd_to_bin (16 * (x / 10) + x mod 10) = x.
Proof.
  intros Hx. unfold bcd_to_bin. change 0x0f with (Z.ones 4). rewrite Z.land_ones, Z.shiftr_div_pow2 by lia. change (2 ^ 4) with 16. zlia.
Qed.

Lemma u32_add a b : u32 (u32 a + b) = u32 (a + b).
Proof. apply Z.add_mod_idemp_l. lia. Qed.

Lemma u32_s32 a : u32 (s32 a) = u32 a.
Proof. unfold u32, s32. zlia. Qed.

Lemma month_seconds_sum n : ∀ i t, 1 ≤ i →
  u32 (month_seconds n i t) = u32 (t + 86400 * foldr Z.add 0 (take n (drop (Z.to_nat (i - 1)) days_per_month))).
Proof.
  induction n as [|n IH]; intros i t Hi; cbn [month_seconds]; [by rewrite take_0, Z.add_0_r|].
  rewrite IH, u32_add by lia. replace (Z.to_nat (i + 1 - 1)) with (S (Z.to_nat (i - 1))) by lia. unfold at_.
  destruct (days_per_month !! Z.to_nat (i - 1)) as [d|] eqn:E.
  - rewrite (drop_S _ _ _ E). cbn [take foldr default]. f_equal. unfold id. lia.
  - apply lookup_ge_None in E. rewrite !drop_ge by lia. rewrite !take_nil. cbn. f_equal. lia.
Qed.

Definition bcd (x : Z) : Z := 16 * (x / 10) + x mod 10.

Lemma months_before mon : 1 ≤ mon ≤ 12 →
  foldr Z.add 0 (take (Z.to_nat mon) days_per_month) =
  foldr Z.add 0 (take (Z.to_nat (mon - 1)) days_per_month) + at_ days_per_month (mon - 1).
Proof.
  intros Hm. assert (mon ∈ [1; 2; 3; 4; 5; 6; 7; 8; 9; 10; 11; 12]) as Hin.
  { rewrite !elem_of_cons. lia. }
  rewrite !elem_of_cons, elem_of_nil in Hin. destruct_or?; subst; done.
Qed.

Lemma rtc_seconds_sum sec min hour mday mon yy : let y := if yy <? 70 then yy + 30 else yy - 70 in
  rtc_seconds sec min hour mday mon yy =
  u32 ((y * 365 + Z.quot (y - 1) 4 + (if (2 <? mon) && (Z.rem y 4 =? 0) then 1 else 0) + mday - 1 +
    foldr Z.add 0 (take (Z.to_nat mon) days_per_month)) * 86400 + hour * 3600 + min * 60 + sec).
Proof.
  intros y. unfold rtc_seconds. replace ((if yy <? 70 then yy + 100 else yy) - 70) with y by (unfold y; destruct (yy <? 70); lia).
  set (t := month_seconds _ _ _). set (b := (2 <? mon) && (Z.rem y 4 =? 0)).
  assert (u32 t = u32 ((y * 365 + Z.quot (y - 1) 4) * 86400 + 86400 * foldr Z.add 0 (take (Z.to_nat mon) days_per_month))) as Ht.
  { unfold t. rewrite month_seconds_sum by lia. rewrite u32_s32, u32_add, drop_0. f_equal. lia. }
  transitivity (u32 (u32 t + ((if b then 1 else 0) * 86400 + (mday - 1) * 86400 + hour * 3600 + min * 60 + sec))).
  - destruct b; rewrite ?u32_add; [rewrite <-!Z.add_assoc; rewrite u32_add|]; f_equal; lia.
  - rewrite Ht, u32_add. f_equal. lia.
Qed.

(** On registers that hold a date and do not change while they are read, the
    clock is read at the first try and the time is that date's, ahead of it by the
    days of its whole month, give or take one day. *)
Theorem rtc_time_ahead cmos fuel sec min hour mday mon yy :
  0 ≤ sec < 60 → 0 ≤ min < 60 → 0 ≤ hour < 24 → 1 ≤ mday ≤ 31 → 1 ≤ mon ≤ 12 → 0 ≤ yy < 100 →
  (∀ i, cmos i 0 = bcd sec ∧ cmos i 2 = bcd min ∧ cmos i 4 = bcd hour ∧
        cmos i 7 = bcd mday ∧ cmos i 8 = bcd mon ∧ cmos i 9 = bcd yy) →
  ∃ days, at_ days_per_month (mon - 1) - 1 ≤ days ≤ at_ days_per_month (mon - 1) + 1 ∧
    rtc_get_time (S fuel) cmos 0 =
    Ret (u32 (epoch_seconds sec min hour mday mon (if yy <? 70 then yy + 30 else yy - 70) + days * 86400)).
Proof.
  intros Hs Hm Hh Hd Hmo Hy Hc. cbn [rtc_get_time].
  destruct (Hc 0%nat) as (H0 & _), (Hc 1%nat) as (_ & H1 & _), (Hc 2%nat) as (_ & _ & H2 & _), (Hc 3%nat) as (_ & _ & _ & H3 & _),
    (Hc 4%nat) as (_ & _ & _ & _ & H4 & _), (Hc 5%nat) as (_ & _ & _ & _ & _ & H5), (Hc 6%nat) as (H6 & _).
  cbn [Nat.add]. rewrite H0, H1, H2, H3, H4, H5, H6. unfold bcd. rewrite !bcd_round_trip, Z.eqb_refl by lia.
  rewrite rtc_seconds_sum, months_before by done. set (y := if yy <? 70 then _ else _).
  assert (0 ≤ y) by (unfold y; destruct (Z.ltb_spec yy 70); lia).
  eexists (at_ days_per_month (mon - 1) + (Z.quot (y - 1) 4 + (if (2 <? mon) && (Z.rem y 4 =? 0) then 1 else 0)
    - ((y + 1) / 4 + if (2 <? mon) && leap y then 1 else 0))).
  split; [|do 2 f_equal; unfold epoch_seconds, days_before, days_of_months; lia].
  unfold leap. rewrite Z.rem_mod_nonneg by lia. destruct (2 <? mon), (Z.eqb_spec (y mod 4) 0), (Z.eqb_spec (y mod 4) 2); cbn [andb]; zlia.
Qed.

Lemma rtc_time_ahead_witness :
  let cmos (_ : nat) r := default 0 ([0x30; 0; 0x59; 0; 0x23; 0; 0; 0x28; 0x02; 0x15] !! Z.to_nat r) in
  rtc_get_time 1 cmos 0 = Ret (u32 (epoch_seconds 30 59 23 28 2 45 + 28 * 86400)) ∧
  ∃ days, 27 ≤ days ≤ 29 ∧ rtc_get_time 1 cmos 0 = Ret (u32 (epoch_seconds 30 59 23 28 2 45 + days * 86400)).
Proof.
  intros cmos. split; [vm_compute; reflexivity|].
  apply (rtc_time_ahead cmos 0 30 59 23 28 2 15); [lia..|]. intros i. vm_compute. split_and!; reflexivity.
Defined.
