(* ===== verification/Startup.v ===== *)
(** * The command line ([threads/init.c])

    What [main] does with the command line the loader left in memory:
    [read_command_line] finds the arguments, [parse_options] obeys the options,
    [locate_block_devices] gives devices their roles and [run_actions] runs the
    rest.  Arguments are pointers into the memory of [Cstring], in which
    [parse_options] cuts the options with [strtok_r]; the array of pointers is
    part of the kernel's words of memory, with whatever is behind it.  The
    theorems state what a command line means as a list of strings ([reads],
    [meaning], [obeyed]), independently of the functions, which they are shown
    to follow, with every way to stop the kernel, and show what [run_actions]
    runs and which device gets a role.  What becomes of the variables that
    a command line of too many arguments overwrites is not modelled. *)

From Stdlib Require Import ZArith Lia Ascii String.
From stdpp Require Import functions.
From stdpp Require Import base tactics list numbers option sets.
From S2P Require Import Prelude Cstring Stdio Random Block.

Local Open Scope nat_scope.

(** ** [read_command_line] *)

Definition LOADER_ARGS_LEN : nat := 128.
Definition ARGV_LEN : nat := LOADER_ARGS_LEN / 2 + 1.

(** The string a pointer points to. *)
Definition cstr (p : nat) : mem (list Z) := n ← strlen p; gets (λ m, take n (drop p m)).

(** The array [argv] and the words of memory around it: element [i] is at [i],
    numbers are modulo the size of the address space, and nothing checks them.  [mapped]
    are the words where there is memory that the kernel may write, of whatever
    variable; an access anywhere else is a fault that stops the kernel. *)
Definition word_no (i : Z) : Z := (i mod 2 ^ 30)%Z.

Section argv.
Context (mapped : Z → bool).

Definition get_argv (i : Z) (w : Z → nat) : mem nat :=
  assertS (mapped (word_no i));;
  mret (w (word_no i)).

Definition set_argv (i : Z) (p : nat) (w : Z → nat) : mem (Z → nat) :=
  assertS (mapped (word_no i));;
  mret (<[word_no i := p]> w).

Fixpoint read_args (n i p end_ : nat) (w : Z → nat) : mem (Z → nat) :=
  match n with
  | 0 => mret w
  | S n =>
      if end_ <=? p then panicS
      else
        w ← set_argv (Z.of_nat i) p w;
        len ← strnlen p (Z.of_nat (end_ - p));
        read_args n (S i) (p + len + 1) end_ w
  end.

(** The line the kernel prints. *)
Fixpoint echo_args (n i : nat) (w : Z → nat) : mem (list Z) :=
  match n with
  | 0 => mret []
  | S n =>
      p ← get_argv (Z.of_nat i) w;
      q ← strchr p (chr " ");
      s ← cstr p;
      line ← echo_args n (S i) w;
      mret ((if q =? 0 then str " " ++ s else str " '" ++ s ++ str "'") ++ line)
  end.

(** [args] is [ptov (LOADER_ARGS)], [count] the word at [LOADER_ARG_CNT].  The
    result are the words of the array and of the memory around it, and the
    line. *)
Definition read_command_line (args : nat) (count : Z) (w : Z → nat) : mem ((Z → nat) * list Z) :=
  let argc := s32 count in
  w ← read_args (Z.to_nat argc) 0 args (args + LOADER_ARGS_LEN) w;
  w ← set_argv argc 0 w;
  line ← echo_args (Z.to_nat argc) 0 w;
  mret (w, str "Kernel command line:" ++ line ++ [10%Z]).
End argv.

(** ** [parse_options] *)

Inductive shutdown_type : Type := SHUTDOWN_NONE | SHUTDOWN_POWER_OFF | SHUTDOWN_REBOOT.

(** The variables the options set; a name of a device is an [N], a pointer in
    the program. *)
Record options (N : Type) : Type := Options {
  how : shutdown_type;
  format_filesys : bool;
  filesys_bdev_name : N;
  scratch_bdev_name : N;
  swap_bdev_name : N;
  thread_mlfqs : bool;
  user_page_limit : Z;
  generator : rc4
}.
#[global] Arguments Options {N}.
#[global] Arguments how {N}.
#[global] Arguments format_filesys {N}.
#[global] Arguments filesys_bdev_name {N}.
#[global] Arguments scratch_bdev_name {N}.
#[global] Arguments swap_bdev_name {N}.
#[global] Arguments thread_mlfqs {N}.
#[global] Arguments user_page_limit {N}.
#[global] Arguments generator {N}.

(** What the kernel does with one option, whose name is [name] and whose value
    is [value], with the integer [number] if it is there.  The kernel is built
    with [USERPROG] and [FILESYS], and with [VM] or without it. *)
Definition obey {N} (VM : bool) (name : list Z) (value : N) (number : option Z) (o : options N) : outcome (options N) :=
  let '(Options h f fn sn wn mlfqs ul g) := o in
  if decide (name = str "-h") then Diverge
  else if decide (name = str "-q") then Ret (Options SHUTDOWN_POWER_OFF f fn sn wn mlfqs ul g)
  else if decide (name = str "-r") then Ret (Options SHUTDOWN_REBOOT f fn sn wn mlfqs ul g)
  else if decide (name = str "-f") then Ret (Options h true fn sn wn mlfqs ul g)
  else if decide (name = str "-filesys") then Ret (Options h f value sn wn mlfqs ul g)
  else if decide (name = str "-scratch") then Ret (Options h f fn value wn mlfqs ul g)
  else if decide (VM = true ∧ name = str "-swap") then Ret (Options h f fn sn value mlfqs ul g)
  else if decide (name = str "-rs") then
    match number with Some n => Ret (Options h f fn sn wn mlfqs ul (random_init (u32 n) g)) | None => Panic end
  else if decide (name = str "-mlfqs") then Ret (Options h f fn sn wn true ul g)
  else if decide (name = str "-ul") then
    match number with Some n => Ret (Options h f fn sn wn mlfqs (u32 n) g) | None => Panic end
  else Panic.

(** [atoi] of a pointer that may be null. *)
Definition atoi_ptr (p : nat) : mem (option Z) :=
  if p =? 0 then mret None else s ← cstr p; mret (Some (atoi s)).

(** [equals] and [empty] are the addresses of the constants "=" and "";
    [save_ptr] is not initialised.  The loop is at element [i] of the array. *)
Fixpoint option_loop (mapped : Z → bool) (fuel : nat) (VM : bool) (equals empty save_ptr : nat) (w : Z → nat) (i : nat)
    (o : options nat) : mem (nat * options nat) :=
  match fuel with
  | 0 => divergeS
  | S fuel =>
      p ← get_argv mapped (Z.of_nat i) w;
      if p =? 0 then mret (i, o)
      else
        c ← load p;
        if negb (c =? chr "-")%Z then mret (i, o)
        else
          '(name, save_ptr) ← strtok_r p equals save_ptr;
          '(value, save_ptr) ← strtok_r 0 empty save_ptr;
          s ← cstr name;
          number ← atoi_ptr value;
          o ← liftS (obey VM s value number o);
          option_loop mapped fuel VM equals empty save_ptr w (S i) o
  end.

(** [now] is what [rtc_get_time] does. *)
Definition seed_from_clock {N} (now : outcome Z) (o : options N) : outcome (options N) :=
  t ← now;
  Ret (Options (how o) (format_filesys o) (filesys_bdev_name o) (scratch_bdev_name o) (swap_bdev_name o)
         (thread_mlfqs o) (user_page_limit o) (random_init (u32 t) (generator o))).

Definition parse_options (mapped : Z → bool) (fuel : nat) (VM : bool) (equals empty : nat) (now : outcome Z) (w : Z → nat)
    (o : options nat) : mem (nat * options nat) :=
  '(i, o) ← option_loop mapped fuel VM equals empty 0 w 0 o;
  o ← liftS (seed_from_clock now o);
  mret (i, o).

(** ** Options as strings *)

Fixpoint before_eq (s : list Z) : list Z :=
  match s with
  | [] => []
  | c :: s => if (c =? chr "=")%Z then [] else c :: before_eq s
  end.

(** The value of an option: what follows the first [=], if that is not empty. *)
Definition value_of (s : list Z) : option (list Z) :=
  match drop (S (length (before_eq s))) s with [] => None | v => Some v end.

(** [option_loop] on strings. *)
Fixpoint parse_strings (VM : bool) (args : list (list Z)) (o : options (option (list Z))) :
    outcome (list (list Z) * options (option (list Z))) :=
  match args with
  | [] => Ret ([], o)
  | s :: args' =>
      if decide (head s = Some (chr "-")) then
        o ← obey VM (before_eq s) (value_of s) (atoi <$> value_of s) o;
        parse_strings VM args' o
      else Ret (args, o)
  end.

Lemma before_eq_split s :
  ∃ r, s = before_eq s ++ r ∧ Forall (.∉ str "=") (before_eq s) ∧
    ((r = [] ∧ value_of s = None) ∨ ∃ v, r = chr "=" :: v ∧ value_of s = match v with [] => None | _ => Some v end).
Proof.
  unfold value_of. induction s as [|c s (r & Es & Hf & Hr)].
  { exists []. split_and!; [done|constructor|by left]. }
  cbn [before_eq]. destruct (Z.eqb_spec c (chr "=")) as [->|Hc].
  - exists (chr "=" :: s). split_and!; [done|constructor|]. right. exists s. split; [done|]. by destruct s.
  - exists r. split_and!; [by rewrite <- app_comm_cons, <- Es|constructor; [set_solver|done]|]. cbn [length]. by rewrite skipn_cons.
Qed.

(** ** Cutting one option *)

Lemma split_unique (d t t' r r' : list Z) :
  t ++ r = t' ++ r' → Forall (.∉ d) t → Forall (.∉ d) t' →
  (r = [] ∨ ∃ c x, r = c :: x ∧ c ∈ d) → (r' = [] ∨ ∃ c x, r' = c :: x ∧ c ∈ d) → t = t' ∧ r = r'.
Proof.
  revert t'. induction t as [|c t IH]; intros [|c' t'] E Ht Ht' Hr Hr'; cbn in E; [done|..].
  - subst r. apply Forall_cons in Ht' as [? _]. by destruct Hr as [|(? & ? & ? & ?)]; simplify_eq.
  - subst r'. apply Forall_cons in Ht as [? _]. by destruct Hr' as [|(? & ? & ? & ?)]; simplify_eq.
  - apply Forall_cons in Ht as [_ Ht], Ht' as [_ Ht']. injection E as -> E. by destruct (IH t' E) as [-> ->].
Qed.

Lemma strtok_r_token m p t r dl d :
  cstring m p (t ++ r) → bytes (t ++ r) → cstring m dl d → t ≠ [] → Forall (.∉ d) t →
  (r = [] ∨ ∃ c x, r = c :: x ∧ c ∈ d) →
  strtok_r 0 dl p m = Ret ((p, p + length t + 1 `min` length r), if decide (r = []) then m else <[p + length t := 0%Z]> m).
Proof.
  intros Hs Hb Hd Hne Ht Hr. pose proof (cstring_length _ _ _ Hs) as Hl. unfold strtok_r. cbn [Nat.eqb].
  erewrite st_bind_ret by (apply assert_nonnull_spec, Hd). erewrite st_bind_ret by (apply assert_nonnull_spec, Hs).
  destruct (skip_delimiters_spec m dl d (t ++ r) p (S (length m))) as (sp & x & Esp & Hsp & Hx); [done..|lia|].
  assert (sp = []) as ->.
  { destruct t as [|c t]; [done|]. destruct sp as [|c' sp]; [done|]. cbn in Esp. injection Esp as <- _.
    apply Forall_cons in Ht as [? _], Hsp as [? _]. done. }
  cbn in Esp. subst x. destruct Hx as [[E _]|(c & x & _ & _ & E)]; [by destruct t|].
  erewrite st_bind_ret by exact E. cbn [length] in *. rewrite Nat.add_0_r.
  destruct (skip_token_spec m dl d (t ++ r) p (S (length m))) as (t' & r' & Et & Ht' & Hr' & E'); [done..|lia|].
  destruct (split_unique d t t' r r') as [<- <-]; [done..|]. erewrite st_bind_ret by exact E'.
  apply cstring_app in Hs. destruct Hr as [->|(c' & x' & -> & _)].
  - ld (cstring_nil _ _ Hs). cbn. by rewrite Nat.add_0_r.
  - apply cstring_cons in Hs as (Hx & Hz & _). ld Hx. rewrite (proj2 (Z.eqb_neq _ _) Hz). rewrite length_app in Hl. cbn [length] in *.
    erewrite st_bind_ret by (apply store_spec; lia). unfold mret, st_ret. rewrite decide_False by done. do 3 f_equal. lia.
Qed.

Lemma cstr_spec m p s : cstring m p s → cstr p m = Ret (s, m).
Proof.
  intros Hs. unfold cstr. st_step (strlen_spec _ _ _ Hs). destruct Hs as (_ & _ & pre & post & -> & <-).
  unfold gets. by rewrite drop_app_length, take_app_length.
Qed.

(** The two calls of [strtok_r] on an option. *)
Lemma cut_option m p s equals empty save :
  cstring m p s → bytes s → head s = Some (chr "-") → cstring m equals (str "=") → cstring m empty [] →
  equals + 1 < p ∨ p + length s < equals → empty < p ∨ p + length s < empty →
  ∃ sv m1 value sv' m2, strtok_r p equals save m = Ret ((p, sv), m1) ∧ strtok_r 0 empty sv m1 = Ret ((value, sv'), m2) ∧
    cstring m2 p (before_eq s) ∧ length m2 = length m ∧ (∀ k, k < p ∨ p + length s ≤ k → m2 !! k = m !! k) ∧
    match value_of s with None => value = 0 | Some v => cstring m2 value v ∧ p ≤ value ∧ value + length v = p + length s end.
Proof.
  intros Hs Hb Hh He Hm Ho1 Ho2. pose proof (cstring_length _ _ _ Hs) as Hl. rewrite strtok_r_from by apply Hs.
  destruct (before_eq_split s) as (r & Es & Hf & Hr).
  assert (before_eq s ≠ []) as Hne by (destruct s as [|c s]; [done|]; injection Hh as ->; cbn; done).
  pose proof Hs as Hs'. pose proof Hb as Hb'. rewrite Es in Hs', Hb'. remember (before_eq s) as t eqn:Et.
  rewrite (strtok_r_token m p t r equals (str "=")); [|done..|]; cycle 1.
  { destruct Hr as [[-> _]|(v & -> & _)]; [by left|right; eexists _, _; split; [done|set_solver]]. }
  destruct Hr as [[-> ->]|(v & -> & ->)].
  - rewrite decide_True, app_nil_r in * by done. subst s. cbn [length Nat.min]. rewrite Nat.add_0_r.
    destruct (strtok_r_spec m (p + length t) [] empty []) as [[_ E]|(w & tok & sv & s' & m' & E & _)]; [|constructor|done| | |done].
    + apply cstring_app. by rewrite app_nil_r.
    + cbn. lia.
    + by exists (p + length t), m, 0, (p + length t + 0), m.
  - rewrite decide_False by done. rewrite Es in *. rewrite length_app in *. cbn [length Nat.min] in *. set (m1 := <[p + length t := 0%Z]> m).
    assert (cstring m1 empty []) as Hm1.
    { eapply cstring_ext; [done|]. intros k Hk. apply list_lookup_insert_ne. cbn in Hk. lia. }
    assert (cstring m1 (p + length t + 1) v) as Hv.
    { apply cstring_app, cstring_cons in Hs' as (_ & _ & Hv). replace (p + length t + 1) with (S (p + length t)) by lia.
      eapply cstring_ext; [exact Hv|]. intros k Hk. apply list_lookup_insert_ne. lia. }
    assert (cstring m1 p t) as Ht.
    { apply cstring_intro; [apply Hs| | |apply list_lookup_insert_eq; lia].
      - intros Hz. apply (proj1 (proj2 Hs')), elem_of_app. by left.
      - intros k Hk. unfold m1. rewrite list_lookup_insert_ne by lia. rewrite (cstring_byte _ _ _ _ Hs') by (rewrite length_app; lia).
        by apply lookup_app_l. }
    assert (bytes v) as Hbv by (apply Forall_app in Hb' as [_ Hb']; by apply Forall_cons in Hb' as [_ ?]).
    assert (∀ k, k < p ∨ p + (length t + S (length v)) ≤ k → m1 !! k = m !! k) as Hk.
    { intros k Hk. apply list_lookup_insert_ne. lia. }
    destruct v as [|c v].
    + destruct (strtok_r_spec m1 (p + length t + 1) [] empty []) as [[_ E]|(w & tok & sv & s' & m' & E & _)]; [done..|cbn in *; lia| |done].
      exists (p + length t + 1), m1. eexists _, _, m1. rewrite E. split_and!; [done|done|done|apply length_insert|done|done].
    + exists (p + length t + 1), m1. eexists _, _, m1. rewrite (strtok_r_token m1 (p + length t + 1) (c :: v) [] empty []); rewrite ?app_nil_r; [|done..|apply Forall_forall; set_solver|by left].
      split_and!; [done|done|done|apply length_insert|done|done|lia|cbn [length]; lia].
Qed.

(** ** The arguments in memory *)

(** The strings [args] are in memory at [argv], one after the other between
    [lo] and [hi]. *)
Fixpoint packed (m : list Z) (lo hi : nat) (argv : list nat) (args : list (list Z)) : Prop :=
  match argv, args with
  | [], [] => True
  | p :: argv, s :: args => lo ≤ p ∧ p + length s < hi ∧ cstring m p s ∧ bytes s ∧ packed m (p + length s + 1) hi argv args
  | _, _ => False
  end.

Lemma packed_ext m m' hi argv : ∀ lo args,
  packed m lo hi argv args → (∀ k, lo ≤ k → m' !! k = m !! k) → packed m' lo hi argv args.
Proof.
  induction argv as [|p argv IH]; intros lo [|s args] H Hk; [done..|]. destruct H as (? & ? & Hs & ? & H).
  split_and!; [done..| |done|].
  - eapply cstring_ext; [done|]. intros k ?. apply Hk. lia.
  - apply IH; [done|]. intros k ?. apply Hk. lia.
Qed.

(** A pointer below [lo] to a string that may be absent. *)
Definition name_at (m : list Z) (lo : nat) (q : nat) (v : option (list Z)) : Prop :=
  match v with None => q = 0 | Some v => cstring m q v ∧ q + length v < lo end.

Lemma name_at_ext m m' lo lo' q v :
  name_at m lo q v → lo ≤ lo' → (∀ k, k < lo → m' !! k = m !! k) → name_at m' lo' q v.
Proof.
  destruct v as [v|]; [|done]. intros [Hv Hq] Hlo Hk. split; [|lia]. eapply cstring_ext; [done|]. intros k ?. apply Hk. lia.
Qed.

(** The same options, with names as pointers and as strings. *)
Record same_options {N N'} (R : N → N' → Prop) (o : options N) (o' : options N') : Prop := SameOptions {
  so_how : how o = how o';
  so_format : format_filesys o = format_filesys o';
  so_filesys : R (filesys_bdev_name o) (filesys_bdev_name o');
  so_scratch : R (scratch_bdev_name o) (scratch_bdev_name o');
  so_swap : R (swap_bdev_name o) (swap_bdev_name o');
  so_mlfqs : thread_mlfqs o = thread_mlfqs o';
  so_limit : user_page_limit o = user_page_limit o';
  so_generator : generator o = generator o'
}.

Lemma same_options_weaken {N N'} (R R' : N → N' → Prop) o o' :
  same_options R o o' → (∀ q v, R q v → R' q v) → same_options R' o o'.
Proof. intros [] HR. split; auto. Qed.

(** Two runs that return related results, or both stop, or both do not return. *)
Definition same_outcome {A B} (R : A → B → Prop) (x : outcome A) (y : outcome B) : Prop :=
  match x, y with
  | Ret a, Ret b => R a b
  | Panic, Panic | Diverge, Diverge => True
  | _, _ => False
  end.

Lemma obey_same {N N'} (R : N → N' → Prop) VM name q v number o o' :
  same_options R o o' → R q v → same_outcome (same_options R) (obey VM name q number o) (obey VM name v number o').
Proof.
  destruct o, o'. intros [] Hq. cbn in *. subst. unfold obey. destruct number; repeat case_decide; done.
Qed.

Lemma seed_same {N N'} (R : N → N' → Prop) now o o' :
  same_options R o o' → same_outcome (same_options R) (seed_from_clock now o) (seed_from_clock now o').
Proof. intros []. unfold seed_from_clock. destruct now; cbn; [|done..]. split; cbn; congruence. Qed.

(** The array from element [i] on: [argv], and a null pointer. *)
Definition argv_at (w : Z → nat) (i : nat) (argv : list nat) : Prop :=
  ∀ j p, (argv ++ [0]) !! j = Some p → w (Z.of_nat (i + j)) = p.

Definition all_mapped (mapped : Z → bool) (n : nat) : Prop := ∀ i, (0 ≤ i < Z.of_nat n)%Z → mapped i = true.

Lemma word_no_small i : (0 ≤ i < 2 ^ 30)%Z → word_no i = i.
Proof. apply Z.mod_small. Qed.

Lemma get_argv_run mapped i w n m :
  all_mapped mapped n → i < n → (Z.of_nat n ≤ 2 ^ 30)%Z → get_argv mapped (Z.of_nat i) w m = Ret (w (Z.of_nat i), m).
Proof.
  intros Hm Hi Hn. unfold get_argv. rewrite word_no_small by lia. by erewrite st_bind_ret by (apply assertS_true, Hm; lia).
Qed.

Lemma set_argv_run mapped i p w n m :
  all_mapped mapped n → i < n → (Z.of_nat n ≤ 2 ^ 30)%Z → set_argv mapped (Z.of_nat i) p w m = Ret (<[Z.of_nat i := p]> w, m).
Proof.
  intros Hm Hi Hn. unfold set_argv. rewrite word_no_small by lia. by erewrite st_bind_ret by (apply assertS_true, Hm; lia).
Qed.

Lemma argv_at_cons w i p argv : argv_at w i (p :: argv) → w (Z.of_nat i) = p ∧ argv_at w (S i) argv.
Proof.
  intros H. split; [rewrite <- (Nat.add_0_r i); by apply H|]. intros j q Hj. replace (S i + j) with (i + S j) by lia. by apply H.
Qed.

Lemma option_loop_same mapped n VM equals empty hi w argv : ∀ fuel i lo args save m o o',
  all_mapped mapped n → (Z.of_nat n ≤ 2 ^ 30)%Z → i + length argv < n → length argv < fuel → argv_at w i argv →
  packed m lo hi argv args → same_options (name_at m lo) o o' →
  cstring m equals (str "=") → cstring m empty [] → (equals + 1 < lo ∨ hi ≤ equals) → (empty < lo ∨ hi ≤ empty) →
  same_outcome (λ '((i', o), m') '(args', o'), ∃ lo' argv', argv_at w i' argv' ∧ packed m' lo' hi argv' args' ∧
      same_options (name_at m' lo') o o')
    (option_loop mapped fuel VM equals empty save w i o m) (parse_strings VM args o').
Proof.
  induction argv as [|p argv IH]; intros [|fuel] i lo args save m o o' Hmap HN Hlen Hfuel Hw Hp Ho He Hm Ho1 Ho2;
    cbn [length] in Hlen, Hfuel; try lia; destruct args as [|s args]; try done; cbn [option_loop parse_strings];
    rewrite (st_bind_ret _ _ _ _ _ (get_argv_run mapped i w n m Hmap ltac:(lia) HN)).
  { assert (w (Z.of_nat i) = 0) as -> by (rewrite <- (Nat.add_0_r i); by apply Hw). by exists lo, []. }
  pose proof Hw as [-> Hw']%argv_at_cons. pose proof Hp as (Hlo & Hhi & Hs & Hb & Hrest).
  rewrite (proj2 (Nat.eqb_neq p 0)) by apply Hs.
  assert (∃ c, m !! p = Some c ∧ (c = chr "-" ↔ head s = Some (chr "-"))) as (c & Hc & Hcs).
  { destruct s as [|c s]; [exists 0%Z; split; [by apply cstring_nil|done]|].
    apply cstring_cons in Hs as (Hc & _). exists c. split; [done|]. cbn. split; [by intros ->|by intros [= ->]]. }
  ld Hc. case_decide as Hh; cycle 1. { rewrite (proj2 (Z.eqb_neq c _)) by tauto. by exists lo, (p :: argv). }
  rewrite (proj2 (Z.eqb_eq c _)) by tauto. cbn [negb].
  destruct (cut_option m p s equals empty save) as (sv & m1 & value & sv' & m2 & E1 & E2 & Hn & Hl & Hk & Hv); [done..|lia|lia|].
  st_step E1. st_step E2. st_step (cstr_spec _ _ _ Hn).
  erewrite (st_bind_ret (atoi_ptr value) _ _ (atoi <$> value_of s) m2); cycle 1.
  { unfold atoi_ptr. destruct (value_of s) as [v|]; [|by rewrite Hv].
    destruct Hv as [Hv _]. rewrite (proj2 (Nat.eqb_neq value 0)) by apply Hv. by st_step (cstr_spec _ _ _ Hv). }
  set (lo2 := p + length s + 1).
  assert (same_options (name_at m2 lo2) o o') as Ho'.
  { eapply same_options_weaken; [exact Ho|]. intros q v' Hq. eapply name_at_ext; [exact Hq|lia|]. intros k ?. apply Hk. lia. }
  assert (name_at m2 lo2 value (value_of s)) as Hvn.
  { destruct (value_of s); [|done]. destruct Hv as (? & ? & ?). split; [done|lia]. }
  pose proof (obey_same _ VM (before_eq s) value (value_of s) (atoi <$> value_of s) _ _ Ho' Hvn) as Hob.
  unfold liftS. destruct (obey VM _ value _ o) as [o1| |], (obey VM _ (value_of s) _ o') as [o1'| |]; try done.
  apply (IH fuel (S i) lo2); try done; try lia.
  - eapply packed_ext; [done|]. intros k ?. apply Hk. lia.
  - eapply cstring_ext; [exact He|]. intros k ?. apply Hk. cbn in *. lia.
  - eapply cstring_ext; [exact Hm|]. intros k ?. apply Hk. cbn in *. lia.
Qed.

(** ** Reading the arguments *)

(** What the loader leaves for the arguments [L]. *)
Definition flat (L : list (list Z)) : list Z := concat ((λ s, s ++ [0%Z]) <$> L).

Definition echo (L : list (list Z)) : list Z :=
  concat ((λ s, if decide (chr " " ∈ s) then str " '" ++ s ++ str "'" else str " " ++ s) <$> L).

(** The strings [L] are at [p], each with its null byte, one right after the other. *)
Fixpoint laid_out (m : list Z) (p : nat) (L : list (list Z)) : Prop :=
  match L with
  | [] => True
  | s :: L => cstring m p s ∧ bytes s ∧ laid_out m (p + length s + 1) L
  end.

Fixpoint places (p : nat) (L : list (list Z)) : list nat :=
  match L with [] => [] | s :: L => p :: places (p + length s + 1) L end.

Lemma flat_laid_out pre post L :
  pre ≠ [] → Forall (λ s, bytes s ∧ (0%Z ∉ s)) L → laid_out (pre ++ flat L ++ post) (length pre) L.
Proof.
  intros Hp HL. revert pre Hp. induction HL as [|s L [Hb Hz] HL IH]; intros pre Hp; [done|].
  change (flat (s :: L)) with ((s ++ [0%Z]) ++ flat L). split_and!; [split_and!; [by destruct pre|done|]|done|].
  - exists pre, (flat L ++ post). by rewrite <- !app_assoc.
  - specialize (IH (pre ++ s ++ [0%Z])). rewrite !length_app in IH. cbn [length] in IH. rewrite <- !app_assoc in *.
    rewrite Nat.add_assoc in IH. apply IH. by destruct pre.
Qed.

Lemma laid_out_packed m hi L : ∀ p, laid_out m p L → p + length (flat L) ≤ hi → packed m p hi (places p L) L.
Proof.
  induction L as [|s L IH]; intros p HL Hhi; [done|]. destruct HL as (Hs & Hb & HL).
  change (flat (s :: L)) with ((s ++ [0%Z]) ++ flat L) in Hhi. rewrite !length_app in Hhi. cbn [length] in Hhi.
  split_and!; [done|lia|done|done|]. apply IH; [done|lia].
Qed.

(** The words [ps] from element [i] on. *)
Fixpoint fill (i : nat) (ps : list nat) (w : Z → nat) : Z → nat :=
  match ps with [] => w | p :: ps => fill (S i) ps (<[Z.of_nat i := p]> w) end.

Lemma fill_outside ps : ∀ i w k, (k < Z.of_nat i ∨ Z.of_nat (i + length ps) ≤ k)%Z → fill i ps w k = w k.
Proof.
  induction ps as [|p ps IH]; intros i w k Hk; [done|]. cbn [fill length] in *. rewrite IH by lia. apply fn_lookup_insert_ne. lia.
Qed.

Lemma fill_inside ps : ∀ i w j p, ps !! j = Some p → fill i ps w (Z.of_nat (i + j)) = p.
Proof.
  induction ps as [|p ps IH]; intros i w [|j] q Hq; [done..| |]; cbn [fill].
  - injection Hq as ->. rewrite fill_outside by lia. rewrite Nat.add_0_r. apply fn_lookup_insert.
  - replace (i + S j) with (S i + j) by lia. by apply IH.
Qed.

Lemma places_length L : ∀ p, length (places p L) = length L.
Proof. induction L as [|s L IH]; intros p; [done|]. cbn. by rewrite IH. Qed.

Lemma fill_argv L p w : argv_at (<[Z.of_nat (length L) := 0]> (fill 0 (places p L) w)) 0 (places p L).
Proof.
  intros j q Hj. cbn [Nat.add]. pose proof (places_length L p) as Hlen.
  destruct (decide (j < length L)) as [Hl|Hl].
  - rewrite lookup_app_l in Hj by lia. rewrite fn_lookup_insert_ne by lia. by apply (fill_inside _ 0).
  - rewrite lookup_app_r, Hlen in Hj by lia. apply lookup_lt_Some in Hj as Hj'. cbn in Hj'. replace j with (length L) in * by lia.
    rewrite Nat.sub_diag in Hj. injection Hj as <-. apply fn_lookup_insert.
Qed.

(** Each argument takes a byte. *)
Lemma flat_length L : length L ≤ length (flat L).
Proof.
  induction L as [|s L IH]; [done|]. change (flat (s :: L)) with ((s ++ [0%Z]) ++ flat L). rewrite !length_app. cbn. lia.
Qed.

Section reading.
Context (mapped : Z → bool).

(** The loop finds the arguments that lie before [end_], whether the array has
    room for them or not. *)
Lemma read_args_spec N m end_ L : all_mapped mapped N → (Z.of_nat N ≤ 2 ^ 30)%Z → ∀ i p n w,
  laid_out m p L → p + length (flat L) ≤ end_ → i + length L ≤ N →
  read_args mapped (length L + n) i p end_ w m =
  read_args mapped n (i + length L) (p + length (flat L)) end_ (fill i (places p L) w) m.
Proof.
  intros Hm HN. induction L as [|s L IH]; intros i p n w HL Hend Hi.
  { cbn [length flat fmap list_fmap concat places app Nat.add]. by rewrite !Nat.add_0_r. }
  destruct HL as (Hs & Hb & HL). change (flat (s :: L)) with ((s ++ [0%Z]) ++ flat L) in *. rewrite !length_app in *. cbn [length] in *.
  cbn [Nat.add read_args places fill]. rewrite (proj2 (Nat.leb_gt _ _)) by lia.
  rewrite (st_bind_ret _ _ _ _ _ (set_argv_run mapped i p w N m Hm ltac:(lia) HN)).
  st_step (strnlen_spec m p s (Z.of_nat (end_ - p)) Hs ltac:(lia)).
  replace (i + S (length L)) with (S i + length L) by lia.
  replace (p + (length s + 1 + length (flat L))) with (p + length s + 1 + length (flat L)) by lia.
  apply IH; [done|lia|lia].
Qed.

Lemma echo_args_spec N m w L : all_mapped mapped N → (Z.of_nat N ≤ 2 ^ 30)%Z → ∀ i p,
  i + length L < N → laid_out m p L → argv_at w i (places p L) → echo_args mapped (length L) i w m = Ret (echo L, m).
Proof.
  intros Hm HN. induction L as [|s L IH]; intros i p Hi HL Hw; [done|]. destruct HL as (Hs & Hb & HL). cbn [length] in *.
  cbn [places] in Hw. apply argv_at_cons in Hw as [Hp Hw]. cbn [echo_args].
  rewrite (st_bind_ret _ _ _ _ _ (get_argv_run mapped i w N m Hm ltac:(lia) HN)), Hp.
  destruct (strchr_null m p (chr " ") s) as (r & E & Hr); [done|by vm_compute|]. st_step E. st_step (cstr_spec _ _ _ Hs).
  st_step (IH (S i) _ ltac:(lia) HL Hw).
  change (echo (s :: L)) with ((if decide (chr " " ∈ s) then str " '" ++ s ++ str "'" else str " " ++ s) ++ echo L).
  assert (chr " " ∈ s ++ [0%Z] ↔ chr " " ∈ s) as Hiff by (rewrite elem_of_app, elem_of_cons, elem_of_nil; cbn; naive_solver).
  rewrite Hr, (bool_decide_ext _ _ Hiff). destruct (decide (chr " " ∈ s)); [by rewrite bool_decide_true|by rewrite bool_decide_false].
Qed.

Lemma read_args_full m end_ n i p w : 0 < n → end_ ≤ p → read_args mapped n i p end_ w m = Panic.
Proof. intros Hn Hi. destruct n as [|n]; [lia|]. cbn [read_args]. by rewrite (proj2 (Nat.leb_le _ _)). Qed.

(** More arguments than the memory before [end_] holds. *)
Lemma read_args_panic m end_ L n : ∀ i p w,
  laid_out m p L → p + length (flat L) = end_ → 0 < n → read_args mapped (length L + n) i p end_ w m = Panic.
Proof.
  induction L as [|s L IH]; intros i p w HL Hend Hn; [cbn in *; apply read_args_full; lia|].
  destruct HL as (Hs & Hb & HL). change (flat (s :: L)) with ((s ++ [0%Z]) ++ flat L) in *. rewrite !length_app in *. cbn [length] in *.
  cbn [Nat.add read_args]. rewrite (proj2 (Nat.leb_gt _ _)) by lia. unfold set_argv, assertS.
  destruct (mapped (word_no (Z.of_nat i))); [|done]. erewrite st_bind_ret by (erewrite st_bind_ret by reflexivity; reflexivity).
  st_step (strnlen_spec m p s (Z.of_nat (end_ - p)) Hs ltac:(lia)). apply IH; [done|lia|done].
Qed.

Lemma read_command_line_spec m args L w :
  laid_out m args L → length (flat L) ≤ LOADER_ARGS_LEN → all_mapped mapped (S (length L)) →
  read_command_line mapped args (Z.of_nat (length L)) w m =
    Ret ((<[Z.of_nat (length L) := 0]> (fill 0 (places args L) w), str "Kernel command line:" ++ echo L ++ [10%Z]), m).
Proof.
  intros HL Hf Hm. pose proof (flat_length L) as Hlen. unfold LOADER_ARGS_LEN in *. unfold read_command_line.
  rewrite s32_id, Nat2Z.id by lia. erewrite st_bind_ret; cycle 1.
  { rewrite <- (Nat.add_0_r (length L)) at 1. rewrite (read_args_spec (S (length L))) by (done || unfold LOADER_ARGS_LEN; lia). reflexivity. }
  rewrite (st_bind_ret _ _ _ _ _ (set_argv_run mapped (length L) 0 _ (S (length L)) m Hm ltac:(lia) ltac:(lia))).
  by st_step (echo_args_spec (S (length L)) m _ L Hm ltac:(lia) 0 args ltac:(lia) HL (fill_argv L args w)).
Qed.
End reading.

(** ** [run_actions] *)

(** The table: the name of an action and the number of its words. *)
Definition actions : list (list Z * nat) :=
  [(str "run", 2); (str "ls", 1); (str "cat", 2); (str "rm", 2); (str "extract", 1); (str "append", 2)].

Section actions.

(** The functions of the table on the state of the kernel. *)
Context {S : Type} (run_action : list Z → list (list Z) → st S unit).

Fixpoint find_action (name : list Z) (l : list (list Z * nat)) : option nat :=
  match l with
  | [] => None
  | (n, argc) :: l => if decide (name = n) then Some argc else find_action name l
  end.

Fixpoint run_actions (fuel : nat) (argv : list (list Z)) : st S unit :=
  match argv with
  | [] => mret tt
  | name :: _ =>
      match fuel with
      | 0 => divergeS
      | Datatypes.S fuel =>
          argc ← deref (find_action name actions);
          assertS (argc <=? length argv);;
          run_action name argv;;
          run_actions fuel (drop argc argv)
      end
  end.

(** One action and its arguments. *)
Definition action_ok (a : list (list Z)) : bool :=
  match a with
  | [] => false
  | name :: _ => match find_action name actions with Some argc => length a =? argc | None => false end
  end.

(** The actions one after the other.  Each is passed all the words that are left. *)
Fixpoint run_all (l : list (list (list Z))) (rest : list (list Z)) : st S unit :=
  match l with
  | [] => mret tt
  | a :: l => run_action (hd [] a) (a ++ concat l ++ rest);; run_all l rest
  end.

(** An argument list that no action starts. *)
Definition stuck (rest : list (list Z)) : bool :=
  match rest with
  | [] => false
  | name :: _ => match find_action name actions with Some argc => length rest <? argc | None => true end
  end.

Lemma find_action_pos name argc : find_action name actions = Some argc → 0 < argc.
Proof. unfold actions. cbn [find_action]. repeat case_decide; intros [= <-]; lia. Qed.

(** Every argument list is a list of actions and a rest. *)
Lemma actions_split n : ∀ argv, length argv ≤ n →
  ∃ l rest, argv = concat l ++ rest ∧ Forall action_ok l ∧ (rest = [] ∨ stuck rest).
Proof.
  induction n as [|n IH]; intros argv Hn; [destruct argv; [by exists [], []; auto|cbn in Hn; lia]|].
  destruct (stuck argv) eqn:Est; [exists [], argv; split_and!; [done|constructor|right; by rewrite Est]|].
  destruct argv as [|name argv]; [by exists [], []; auto|]. unfold stuck in Est.
  destruct (find_action name actions) as [argc|] eqn:E; [|done]. apply Nat.ltb_ge in Est. pose proof (find_action_pos _ _ E) as Hpos.
  destruct (IH (drop argc (name :: argv))) as (l & rest & El & Hl & Hr); [rewrite length_drop; cbn in *; lia|].
  exists (take argc (name :: argv) :: l), rest. split_and!; [|constructor; [|done]|done].
  - cbn [concat]. by rewrite <- app_assoc, <- El, take_drop.
  - destruct argc as [|argc]; [lia|]. unfold action_ok. cbn [take]. rewrite E. apply Is_true_true, Nat.eqb_eq.
    cbn [length] in *. rewrite length_take. lia.
Qed.

Lemma run_actions_spec l rest s : ∀ fuel, Forall action_ok l → rest = [] ∨ stuck rest → length (concat l ++ rest) ≤ fuel →
  run_actions fuel (concat l ++ rest) s = (run_all l rest;; if decide (rest = []) then mret tt else panicS) s.
Proof.
  intros fuel Hl Hr. revert fuel s. induction Hl as [|a l Ha Hl IH]; intros fuel s Hf; cbn [concat app run_all].
  - unfold mbind, st_bind. cbn. destruct rest as [|name rest]; [by destruct fuel|]. destruct Hr as [|Hr]; [done|]. cbn in Hf.
    destruct fuel as [|fuel]; [lia|]. cbn [run_actions]. rewrite decide_False by done. unfold stuck in Hr.
    destruct (find_action name actions) as [argc|]; [|done]. cbn [deref]. unfold mbind, st_bind. cbn [mret st_ret assertS].
    apply Is_true_true, Nat.ltb_lt in Hr. by rewrite (proj2 (Nat.leb_gt _ _)).
  - destruct a as [|name a]; [done|]. cbn [app run_actions hd]. unfold action_ok in Ha.
    destruct (find_action name actions) as [argc|] eqn:E; [|done]. apply Is_true_true, Nat.eqb_eq in Ha.
    rewrite <- app_assoc. rewrite length_app in Hf. cbn [concat app length] in *. rewrite length_app in Hf.
    destruct fuel as [|fuel]; [lia|]. cbn [run_actions]. rewrite E. cbn [deref].
    erewrite st_bind_ret by reflexivity. erewrite st_bind_ret by (apply assertS_true, Nat.leb_le; cbn [length]; rewrite !length_app; lia).
    rewrite <- Ha, skipn_cons, drop_app_length. unfold mbind, st_bind.
    destruct (run_action name _ s) as [[u s1]| |]; [|done..]. rewrite IH by (rewrite length_app; lia). done.
Qed.

End actions.

(** ** [locate_block_device] *)

(** [for (block = block_first (); block != NULL; block = block_next (block))] *)
Fixpoint first_of_type (fuel : nat) (role : block_type) (b : option nat) : st bstate (option nat) :=
  match b with
  | None => mret None
  | Some i =>
      match fuel with
      | 0 => divergeS
      | S fuel =>
          x ← get_block i;
          if decide (b_type x = role) then mret b
          else b ← block_next i; first_of_type fuel role b
      end
  end.

Definition locate_block_device (fuel : nat) (role : block_type) (name : option (list Z)) : st bstate unit :=
  b ← match name with
      | Some name => b ← block_get_by_name name; i ← deref b; mret (Some i)
      | None => b ← block_first; first_of_type fuel role b
      end;
  match b with Some _ => block_set_role role b | None => mret tt end.

Definition locate_block_devices {N} (fuel : nat) (VM : bool) (name : N → option (list Z)) (o : options N) : st bstate unit :=
  locate_block_device fuel BLOCK_FILESYS (name (filesys_bdev_name o));;
  locate_block_device fuel BLOCK_SCRATCH (name (scratch_bdev_name o));;
  if VM : bool then locate_block_device fuel BLOCK_SWAP (name (swap_bdev_name o)) else mret tt.

(** The device for a role: the one with the given name, or the first of the type. *)
Definition chosen (l : list block) (role : block_type) (name : option (list Z)) (i : nat) : Prop :=
  let fits x := match name with Some n => b_name x = n | None => b_type x = role end in
  ∃ x, l !! i = Some x ∧ fits x ∧ ∀ j y, j < i → l !! j = Some y → ¬ fits y.

Definition with_role (s : bstate) (role : block_type) (b : nat) : bstate :=
  BState (all_blocks s) (λ r, if decide (r = role) then Some b else block_by_role s r) (disks s).

Lemma find_name_spec name l : ∀ i,
  match find_name name i l with
  | Some k => i ≤ k ∧ chosen l BLOCK_RAW (Some name) (k - i)
  | None => ∀ x, x ∈ l → b_name x ≠ name
  end.
Proof.
  induction l as [|b l IH]; intros i; cbn [find_name]; [by intros x ?%elem_of_nil|]. case_decide as Hb.
  - split; [done|]. rewrite Nat.sub_diag. exists b. split_and!; [done..|lia].
  - specialize (IH (S i)). destruct (find_name name (S i) l) as [k|].
    + destruct IH as (Hk & x & Hx & Hn & Hf). split; [lia|]. replace (k - i) with (S (k - S i)) by lia. exists x.
      split_and!; [done..|]. intros [|j] y Hj Hy; cbn in Hy; [congruence|]. apply (Hf j); [lia|done].
    + intros x [->|Hx]%elem_of_cons; [done|by apply IH].
Qed.

Lemma first_of_type_spec s role : ∀ fuel i, i ≤ length (all_blocks s) → length (all_blocks s) - i ≤ fuel →
  (∀ j y, j < i → all_blocks s !! j = Some y → b_type y ≠ role) →
  ∃ r, first_of_type fuel role (if decide (i < length (all_blocks s)) then Some i else None) s = Ret (r, s) ∧
    match r with Some k => chosen (all_blocks s) role None k | None => ∀ x, x ∈ all_blocks s → b_type x ≠ role end.
Proof.
  induction fuel as [|fuel IH]; intros i Hi Hf Hb; (case_decide as Hd; [|exists None; split; [done|]; intros x (j & Hj)%list_elem_of_lookup;
    apply lookup_lt_Some in Hj as ?; apply (Hb j); [lia|done]]); [lia|].
  destruct (lookup_lt_is_Some_2 _ _ Hd) as [x Hx]. cbn [first_of_type]. unfold get_block.
  rewrite (st_bind_ret _ _ _ x s) by (by rewrite Hx). destruct (decide (b_type x = role)) as [Ht|Ht].
  - exists (Some i). split; [done|]. by exists x.
  - erewrite st_bind_ret by reflexivity. apply IH; [lia|lia|]. intros j y Hj Hy.
    destruct (decide (j = i)) as [->|]; [congruence|]. apply (Hb j); [lia|done].
Qed.

(** ** What the options mean *)

(** An option as it may be written: its name, with nothing or only [=] behind it,
    or with [=] and a value. *)
Inductive written (name : list Z) : option (list Z) → list Z → Prop :=
  | written_bare : written name None name
  | written_empty : written name None (name ++ str "=")
  | written_value v : v ≠ [] → written name (Some v) (name ++ str "=" ++ v).

(** What an option asks for. *)
Inductive command : Type :=
  | Help
  | Power_off
  | Reboot
  | Format
  | Filesys (v : option (list Z))
  | Scratch (v : option (list Z))
  | Swap (v : option (list Z))
  | Seed (v : list Z)
  | Mlfqs
  | User_limit (v : list Z).

#[global] Instance command_eq_dec : EqDecision command.
Proof. solve_decision. Defined.

(** The options there are: those for numbers need a value, and the one for the
    swap device needs a kernel with virtual memory. *)
Inductive reads (VM : bool) (s : list Z) : command → Prop :=
  | reads_help v : written (str "-h") v s → reads VM s Help
  | reads_power_off v : written (str "-q") v s → reads VM s Power_off
  | reads_reboot v : written (str "-r") v s → reads VM s Reboot
  | reads_format v : written (str "-f") v s → reads VM s Format
  | reads_filesys v : written (str "-filesys") v s → reads VM s (Filesys v)
  | reads_scratch v : written (str "-scratch") v s → reads VM s (Scratch v)
  | reads_swap v : VM = true → written (str "-swap") v s → reads VM s (Swap v)
  | reads_seed v : written (str "-rs") (Some v) s → reads VM s (Seed v)
  | reads_mlfqs v : written (str "-mlfqs") v s → reads VM s Mlfqs
  | reads_user_limit v : written (str "-ul") (Some v) s → reads VM s (User_limit v).

(** The variables after some options: the last one of each kind counts. *)
Definition last_of {A} (f : command → option A) (default : A) (cs : list command) : A :=
  foldl (λ a x, match f x with Some a => a | None => a end) default cs.

Definition meaning (cs : list command) (o : options (option (list Z))) : options (option (list Z)) :=
  Options
    (last_of (λ x, match x with Power_off => Some SHUTDOWN_POWER_OFF | Reboot => Some SHUTDOWN_REBOOT | _ => None end) (how o) cs)
    (format_filesys o || existsb (λ x, match x with Format => true | _ => false end) cs)
    (last_of (λ x, match x with Filesys v => Some v | _ => None end) (filesys_bdev_name o) cs)
    (last_of (λ x, match x with Scratch v => Some v | _ => None end) (scratch_bdev_name o) cs)
    (last_of (λ x, match x with Swap v => Some v | _ => None end) (swap_bdev_name o) cs)
    (thread_mlfqs o || existsb (λ x, match x with Mlfqs => true | _ => false end) cs)
    (last_of (λ x, match x with User_limit v => Some (u32 (atoi v)) | _ => None end) (user_page_limit o) cs)
    (foldl (λ g x, match x with Seed v => random_init (u32 (atoi v)) g | _ => g end) (generator o) cs).

(** The same with the generator started anew at time [t]. *)
Definition clocked (t : Z) (o : options (option (list Z))) : options (option (list Z)) :=
  let '(Options h f fn sn wn mlfqs ul g) := o in Options h f fn sn wn mlfqs ul (random_init (u32 t) g).

(** What the kernel is to make of the arguments [L]: it takes options up to the
    first argument that does not start like one; help does not return, and what is not
    an option stops it. *)
Inductive obeyed (VM : bool) (now : outcome Z) (o : options (option (list Z))) (L : list (list Z)) :
    outcome (list (list Z) * options (option (list Z))) → Prop :=
  | obeyed_all opts cs rest :
      L = opts ++ rest → Forall2 (reads VM) opts cs → Help ∉ cs → (head rest ≫= head) ≠ Some (chr "-") →
      obeyed VM now o L (match now with Ret t => Ret (rest, clocked t (meaning cs o)) | Panic => Panic | Diverge => Diverge end)
  | obeyed_help opts cs s rest :
      L = opts ++ s :: rest → Forall2 (reads VM) opts cs → Help ∉ cs → reads VM s Help → obeyed VM now o L Diverge
  | obeyed_unknown opts cs s rest :
      L = opts ++ s :: rest → Forall2 (reads VM) opts cs → Help ∉ cs → head s = Some (chr "-") → (∀ c, ¬ reads VM s c) →
      obeyed VM now o L Panic.

Lemma written_inv name v s : written name v s → chr "=" ∉ name → before_eq s = name ∧ value_of s = v.
Proof.
  assert (∀ r, chr "=" ∉ name → before_eq (name ++ r) = name ++ before_eq r) as Hb.
  { intros r. induction name as [|c name IH]; [done|]. rewrite not_elem_of_cons. intros [Hc Hn]. cbn [app before_eq].
    rewrite (proj2 (Z.eqb_neq c _)) by done. by rewrite IH. }
  intros Hw Hn. unfold value_of. destruct Hw as [| |v Hv].
  - specialize (Hb [] Hn). cbn [before_eq] in Hb. rewrite app_nil_r in Hb. rewrite Hb. split; [done|]. by rewrite drop_ge by lia.
  - rewrite Hb by done. cbn [before_eq]. change (chr "=" =? chr "=")%Z with true. cbn iota. rewrite app_nil_r. split; [done|].
    by rewrite drop_ge by (rewrite length_app; cbn; lia).
  - rewrite Hb by done. change (before_eq (str "=" ++ v)) with (@nil Z). rewrite app_nil_r. split; [done|].
    rewrite drop_app_ge by lia. replace (S (length name) - length name) with 1 by lia. cbn. by destruct v.
Qed.

Lemma written_split s : written (before_eq s) (value_of s) s.
Proof.
  destruct (before_eq_split s) as (r & Es & _ & [[-> ->]|(v & -> & ->)]); rewrite Es at 2.
  - rewrite app_nil_r. constructor.
  - destruct v as [|c v]; [constructor|]. by apply (written_value _ (c :: v)).
Qed.

(** What [obey] does with an option and with anything else. *)
Lemma obey_reads VM s c o : reads VM s c →
  head s = Some (chr "-") ∧
  obey VM (before_eq s) (value_of s) (atoi <$> value_of s) o = if decide (c = Help) then Diverge else Ret (meaning [c] o).
Proof.
  destruct o as [h f fn sn wn ml ul g]. intros Hr.
  destruct Hr as [v Hw|v Hw|v Hw|v Hw|v Hw|v Hw|v -> Hw|v Hw|v Hw|v Hw];
    (split; [by destruct Hw|]; destruct (written_inv _ _ _ Hw) as [-> ->]; [by_decide|]);
    unfold meaning; cbn [existsb how format_filesys thread_mlfqs]; rewrite ?orb_false_r, ?orb_true_r;
    try (destruct VM; reflexivity); reflexivity.
Qed.

Lemma obey_not_option VM s o : (∀ c, ¬ reads VM s c) → obey VM (before_eq s) (value_of s) (atoi <$> value_of s) o = Panic.
Proof.
  intros Hno. pose proof (written_split s) as Hw. destruct o as [h f fn sn wn ml ul g]. unfold obey.
  repeat case_decide; destruct_and?; try done; try (destruct (value_of s) eqn:Ev; [|done]); exfalso; eapply Hno;
    match goal with H : before_eq _ = _ |- _ => rewrite H in Hw end; try rewrite Ev in Hw; eauto using reads.
Qed.

(** There is a command to read, or none. *)
Lemma reads_decide VM s : (∃ c, reads VM s c) ∨ ∀ c, ¬ reads VM s c.
Proof.
  pose (o := Options SHUTDOWN_NONE false None None None false 0%Z (Rc4 [] 0 0 false) : options (option (list Z))).
  destruct (obey VM (before_eq s) (value_of s) (atoi <$> value_of s) o) as [o1| |] eqn:E.
  2: { right. intros c Hc. destruct (obey_reads VM s c o Hc) as [_ E']. rewrite E in E'. by case_decide. }
  all: left; pose proof (written_split s) as Hw; unfold obey, o in E; repeat case_decide; destruct_and?; try done;
    try (destruct (value_of s) eqn:Ev; [|done]); try done; match goal with H : before_eq _ = _ |- _ => rewrite H in Hw end;
    eauto using reads.
Qed.

Lemma meaning_cons c cs o : meaning (c :: cs) o = meaning cs (meaning [c] o).
Proof. destruct o. unfold meaning, last_of. cbn. by rewrite !orb_false_r, !orb_assoc. Qed.

Lemma parse_commands VM opts cs L o :
  Forall2 (reads VM) opts cs → Help ∉ cs → parse_strings VM (opts ++ L) o = parse_strings VM L (meaning cs o).
Proof.
  intros Hr. revert o. induction Hr as [|s c opts cs Hc Hr IH]; intros o Hh.
  - destruct o. unfold meaning. cbn. by rewrite !orb_false_r.
  - apply not_elem_of_cons in Hh as [Hne Hh]. destruct (obey_reads VM s c o Hc) as [Hs E]. rewrite decide_False in E by done.
    cbn [app parse_strings]. rewrite decide_True, E by done. cbn [mbind outcome_bind]. by rewrite IH, (meaning_cons c cs).
Qed.

Lemma obeyed_total VM now L : ∀ o, ∃ r, obeyed VM now o L r.
Proof.
  assert (∃ opts cs rest, L = opts ++ rest ∧ Forall2 (reads VM) opts cs ∧ (Help ∉ cs) ∧
    ((head rest ≫= head) = Some (chr "-") → ∃ s rest', rest = s :: rest' ∧ (reads VM s Help ∨ ∀ c, ¬ reads VM s c)))
    as (opts & cs & rest & EL & Hr & Hh & Hrest).
  { induction L as [|s L (opts & cs & rest & -> & Hr & Hh & Hrest)].
    { exists [], [], []. split_and!; [done|constructor|apply not_elem_of_nil|done]. }
    destruct (reads_decide VM s) as [[c Hc]|Hno]; [destruct (decide (c = Help)) as [->|Hne]|].
    - exists [], [], (s :: opts ++ rest). split_and!; [done|constructor|apply not_elem_of_nil|eauto].
    - exists (s :: opts), (c :: cs), rest. split_and!; [done|by constructor|by apply not_elem_of_cons|done].
    - exists [], [], (s :: opts ++ rest). split_and!; [done|constructor|apply not_elem_of_nil|eauto]. }
  intros o. destruct (decide ((head rest ≫= head) = Some (chr "-"))) as [Hd|Hd]; [|eexists; by eapply obeyed_all].
  destruct (Hrest Hd) as (s & rest' & -> & [Hs|Hs]); eexists; [by eapply obeyed_help|by eapply obeyed_unknown].
Qed.

(** The loop on strings does what is asked for. *)
Lemma obeyed_parse VM now L o r : obeyed VM now o L r →
  r = ('(args, o) ← parse_strings VM L o; o ← seed_from_clock now o; Ret (args, o)).
Proof.
  intros [opts cs rest -> Hr Hh Hrest|opts cs s rest -> Hr Hh Hs|opts cs s rest -> Hr Hh Hs Hno]; rewrite (parse_commands _ _ _ _ _ Hr Hh).
  - assert (parse_strings VM rest (meaning cs o) = Ret (rest, meaning cs o)) as ->.
    { destruct rest as [|s rest]; [done|]. cbn [parse_strings]. by rewrite decide_False. }
    by destruct now.
  - cbn [parse_strings]. destruct (obey_reads VM s Help (meaning cs o) Hs) as [Hd E]. by rewrite decide_True, E by done.
  - cbn [parse_strings]. by rewrite decide_True, obey_not_option by done.
Qed.

(** ** The theorems *)

(** The variables before the options; [null] is the null pointer. *)
Definition boot {N} (null : N) : options N :=
  Options SHUTDOWN_NONE false null null null false (2 ^ 32 - 1)%Z (Rc4 (replicate 256 0%Z) 0 0 false).

(** The same arguments and options, as pointers and as strings: the array has
    those left from element [i] on, and they lie below [hi]. *)
Definition same_line (hi : nat) (w : Z → nat) : nat * options nat * list Z → list (list Z) * options (option (list Z)) → Prop :=
  λ '((i, o), m') '(args, o'), ∃ lo argv, argv_at w i argv ∧ packed m' lo hi argv args ∧ same_options (name_at m' lo) o o'.

(** C32: on the memory the loader leaves for a list of arguments that fits in
    its space and in the array, [read_command_line] returns the array of the
    arguments, printing them, and writes nothing outside the array.  On it
    [parse_options] does what the options mean as strings: it sets their
    variables, the last one of several of a kind, and returns the place of the
    first argument that is not an option, with all from there on, in order and
    unchanged; the kernel stops exactly at the first argument that starts with
    [-] and is not an option of the table, or is one for a number without one, and does not
    go on exactly at [-h].  The clock seeds the generator whatever [-rs] said,
    and a clock that cannot be read stops the kernel. *)
Theorem command_line_correct mapped fuel VM now equals empty pre L post w :
  pre ≠ [] → Forall (λ s, bytes s ∧ (0%Z ∉ s)) L → length (flat L) ≤ LOADER_ARGS_LEN → length L < ARGV_LEN →
  all_mapped mapped ARGV_LEN → length L < fuel →
  let m := pre ++ flat L ++ post in
  let hi := length pre + LOADER_ARGS_LEN in
  cstring m equals (str "=") → cstring m empty [] →
  (equals + 1 < length pre ∨ hi ≤ equals) → (empty < length pre ∨ hi ≤ empty) →
  ∃ w', read_command_line mapped (length pre) (Z.of_nat (length L)) w m =
      Ret ((w', str "Kernel command line:" ++ echo L ++ [10%Z]), m) ∧
    (∀ i, (i < 0 ∨ Z.of_nat ARGV_LEN ≤ i)%Z → w' i = w i) ∧
    (∃ r, obeyed VM now (boot None) L r) ∧
    ∀ r, obeyed VM now (boot None) L r →
      same_outcome (same_line hi w')
        (parse_options mapped fuel VM equals empty now w' (boot 0) m) r.
Proof.
  intros Hpre HL Hf Hlen Hmap Hfuel m hi He Hm Ho1 Ho2. pose proof (flat_laid_out pre post L Hpre HL) as Hlaid.
  assert (all_mapped mapped (S (length L))) as Hmap' by (intros i Hi; apply Hmap; lia).
  eexists. split; [by apply read_command_line_spec|].
  split; [intros i Hi; rewrite fn_lookup_insert_ne by lia; apply fill_outside; rewrite places_length; lia|].
  split; [apply obeyed_total|]. intros r ->%obeyed_parse. unfold parse_options.
  pose proof (option_loop_same mapped ARGV_LEN VM equals empty hi _ (places (length pre) L) fuel 0 (length pre) L 0 m (boot 0) (boot None)
    Hmap ltac:(done) ltac:(by rewrite places_length) ltac:(by rewrite places_length) (fill_argv L (length pre) w)
    (laid_out_packed m hi L _ Hlaid ltac:(unfold hi; lia)) ltac:(done) He Hm Ho1 Ho2) as Hp.
  unfold mbind at 1, st_bind at 1. unfold mbind at 2, outcome_bind at 1.
  destruct (option_loop _ _ _ _ _ _ _ _ _ m) as [[[i o] m']| |], (parse_strings VM L (boot None)) as [[args o']| |]; try done.
  destruct Hp as (lo & argv & Hat & Hpk & Ho). pose proof (seed_same _ now _ _ Ho) as Hs. unfold liftS, mbind, st_bind, outcome_bind.
  destruct (seed_from_clock now o), (seed_from_clock now o'); try done. by exists lo, argv.
Qed.

(** "-q -filesys=hdb1 run x", with the two string constants before it, and the
    same with an option for a number without one. *)
Definition ex_args : list (list Z) := [str "-q"; str "-filesys=hdb1"; str "run"; str "x"].
Definition ex_bad : list (list Z) := [str "-q"; str "-ul"; str "run"; str "x"].
Definition ex_mem (L : list (list Z)) : list Z := [7; 61; 0; 0]%Z ++ flat L ++ [].

Lemma ex_line L : 4 + length (flat L) ≤ 132 → Forall (λ s, bytes s ∧ (0%Z ∉ s)) L → length L < 5 →
  cstring (ex_mem L) 1 (str "=") ∧ cstring (ex_mem L) 3 [] ∧ length (flat L) ≤ LOADER_ARGS_LEN ∧ length L < ARGV_LEN.
Proof.
  intros Hf HL Hlen. change ARGV_LEN with 65. unfold LOADER_ARGS_LEN. split; [|split; [|lia]].
  - split; [done|]. split; [by_decide|]. by exists [7%Z], (0%Z :: flat L ++ []).
  - split; [done|]. split; [by_decide|]. by exists [7; 61; 0]%Z, (flat L ++ []).
Qed.

Lemma ex_args_obeyed : obeyed false (Ret 9%Z) (boot None) ex_args
  (Ret ([str "run"; str "x"], clocked 9 (meaning [Power_off; Filesys (Some (str "hdb1"))] (boot None)))).
Proof.
  apply (obeyed_all false (Ret 9%Z) (boot None) ex_args [str "-q"; str "-filesys=hdb1"] [Power_off; Filesys (Some (str "hdb1"))] [str "run"; str "x"]);
    [done|constructor; [|constructor; [|constructor]]|by_decide|done].
  - apply (reads_power_off _ _ None). constructor.
  - apply reads_filesys. by apply (written_value (str "-filesys") (str "hdb1")).
Qed.

Lemma ex_bad_obeyed : obeyed false (Ret 9%Z) (boot None) ex_bad Panic.
Proof.
  apply (obeyed_unknown false (Ret 9%Z) (boot None) ex_bad [str "-q"] [Power_off] (str "-ul") [str "run"; str "x"]);
    [done|constructor; [|constructor]|by_decide|done|].
  - apply (reads_power_off _ _ None). constructor.
  - intros c Hc. destruct (obey_reads false _ c (boot None) Hc) as [_ E].
    change (obey _ _ _ _ _) with (@Panic (options (option (list Z)))) in E. by case_decide.
Qed.

Lemma command_line_correct_witness :
  (∃ w', read_command_line (λ _, true) 4 (Z.of_nat (length ex_args)) (λ _, 0) (ex_mem ex_args) =
      Ret ((w', str "Kernel command line:" ++ echo ex_args ++ [10%Z]), ex_mem ex_args) ∧
    same_outcome (same_line (4 + LOADER_ARGS_LEN) w') (parse_options (λ _, true) 5 false 1 3 (Ret 9%Z) w' (boot 0) (ex_mem ex_args))
      (Ret ([str "run"; str "x"], clocked 9 (meaning [Power_off; Filesys (Some (str "hdb1"))] (boot None))))) ∧
  ∃ w', same_outcome (same_line (4 + LOADER_ARGS_LEN) w') (parse_options (λ _, true) 5 false 1 3 (Ret 9%Z) w' (boot 0) (ex_mem ex_bad)) Panic.
Proof.
  assert (∀ L, length L < 5 → Forall (λ s, bytes s ∧ (0%Z ∉ s)) L → 4 + length (flat L) ≤ 132 →
    ∃ w', read_command_line (λ _, true) 4 (Z.of_nat (length L)) (λ _, 0) (ex_mem L) =
      Ret ((w', str "Kernel command line:" ++ echo L ++ [10%Z]), ex_mem L) ∧
    ∀ r, obeyed false (Ret 9%Z) (boot None) L r → same_outcome (same_line (4 + LOADER_ARGS_LEN) w')
      (parse_options (λ _, true) 5 false 1 3 (Ret 9%Z) w' (boot 0) (ex_mem L)) r) as Hok.
  { intros L Hlen HL Hf. destruct (ex_line L Hf HL Hlen) as (H1 & H3 & Hfl & Ha).
    destruct (command_line_correct (λ _, true) 5 false (Ret 9%Z) 1 3 [7; 61; 0; 0]%Z L [] (λ _, 0)) as (w' & Hr & _ & _ & Ho);
      [done|done|done|done|done|done|exact H1|exact H3|left; cbn; lia|left; cbn; lia|]. by exists w'. }
  split.
  - destruct (Hok ex_args) as (w' & Hr & Ho); [cbn; lia|by_decide|vm_compute; lia|]. exists w'. split; [exact Hr|apply Ho, ex_args_obeyed].
  - destruct (Hok ex_bad) as (w' & _ & Ho); [cbn; lia|by_decide|vm_compute; lia|]. exists w'. apply Ho, ex_bad_obeyed.
Defined.

(** Arguments that fill the loader's space before the last one stop the kernel.  A
    command line of more arguments than the array has elements for passes, because an empty
    argument takes one byte: the pointers and the null pointer at their end
    are written past the array, over the variables that are there. *)
Theorem command_line_overflow mapped pre L post n w :
  pre ≠ [] → Forall (λ s, bytes s ∧ (0%Z ∉ s)) L → (Z.of_nat (length L + n) < 2 ^ 31)%Z →
  (length (flat L) = LOADER_ARGS_LEN → 0 < n →
   read_command_line mapped (length pre) (Z.of_nat (length L + n)) w (pre ++ flat L ++ post) = Panic) ∧
  (length (flat L) ≤ LOADER_ARGS_LEN → ARGV_LEN ≤ length L → all_mapped mapped (S (length L)) →
   ∃ w' line, read_command_line mapped (length pre) (Z.of_nat (length L)) w (pre ++ flat L ++ post) = Ret ((w', line), pre ++ flat L ++ post) ∧
     ∀ i, ARGV_LEN ≤ i ≤ length L → w' (Z.of_nat i) = default 0 (places (length pre) L !! i)).
Proof.
  intros Hpre HL Hn. pose proof (flat_laid_out pre post L Hpre HL) as Hlaid. split.
  - intros Hf Hn0. unfold read_command_line. rewrite s32_id, Nat2Z.id by lia. apply st_bind_panic, read_args_panic; [done|lia|done].
  - intros Hf Ha Hm. eexists _, _. split; [by apply read_command_line_spec|]. intros i Hi.
    destruct (decide (i = length L)) as [->|Hne].
    + rewrite fn_lookup_insert. by rewrite lookup_ge_None_2 by (rewrite places_length; lia).
    + rewrite fn_lookup_insert_ne by lia. destruct (lookup_lt_is_Some_2 (places (length pre) L) i) as [p Hp]; [rewrite places_length; lia|].
      rewrite Hp. by apply (fill_inside _ 0).
Qed.

(** 65 empty arguments. *)
Lemma command_line_overflow_witness :
  (∃ w' line m, read_command_line (λ _, true) 1 65 (λ _, 7) m = Ret ((w', line), m) ∧ w' 65%Z = 0) ∧
  read_command_line (λ _, true) 1 2 (λ _, 7) ([9%Z] ++ flat [replicate 127 65%Z] ++ []) = Panic.
Proof.
  split.
  - destruct (command_line_overflow (λ _, true) [9%Z] (replicate 65 []) [] 0 (λ _, 7)) as [_ Hok]; [done|by_decide|done|].
    destruct Hok as (w' & line & Hr & Hw); [vm_compute; lia|vm_compute; lia|done|]. exists w', line. eexists. split; [exact Hr|].
    apply (Hw 65). vm_compute. lia.
  - apply (command_line_overflow (λ _, true) [9%Z] [replicate 127 65%Z] [] 1); [done|by_decide|done|reflexivity|lia].
Defined.

(** [run_actions] runs the actions of the command line in order, each with
    its arguments, and returns when none is left; a word that is not the name of
    an action, or an action with too few arguments, stops the kernel after the
    actions before it. *)
Theorem actions_run_in_order {S} (run_action : list Z → list (list Z) → st S unit) argv s :
  ∃ l rest, argv = concat l ++ rest ∧ Forall action_ok l ∧ (rest = [] ∨ stuck rest) ∧
    run_actions run_action (length argv) argv s =
    (run_all run_action l rest;; if decide (rest = []) then mret tt else panicS) s.
Proof.
  destruct (actions_split (length argv) argv) as (l & rest & -> & Hl & Hr); [done|].
  exists l, rest. split_and!; [done..|]. by apply run_actions_spec.
Qed.

(** A role goes to the device with the name that was given, or without a name
    to the first device of the role's type; without a device of that name the
    kernel stops, without one of that type it goes on and nothing has changed. *)
Theorem locate_block_device_correct fuel role name s :
  length (all_blocks s) ≤ fuel → is_role role = true →
  (∃ b, chosen (all_blocks s) role name b ∧ locate_block_device fuel role name s = Ret (tt, with_role s role b)) ∨
  (∀ b, ¬ chosen (all_blocks s) role name b) ∧ locate_block_device fuel role name s = if decide (name = None) then Ret (tt, s) else Panic.
Proof.
  intros Hf Hr. unfold locate_block_device. destruct name as [name|].
  - pose proof (find_name_spec name (all_blocks s) 0) as Hn. unfold block_get_by_name. destruct (find_name name 0 (all_blocks s)) as [k|] eqn:E.
    + destruct Hn as [_ Hn]. rewrite Nat.sub_0_r in Hn. left. exists k. split; [exact Hn|].
      unfold mbind, st_bind, gets. rewrite E. cbn [deref mret st_ret]. unfold block_set_role, mbind, st_bind, assertS. by rewrite Hr.
    + right. split; [intros b (x & Hx & Hb & _); by eapply Hn, Hb; eapply list_elem_of_lookup_2|].
      rewrite decide_False by done. apply st_bind_panic. unfold mbind, st_bind, gets. by rewrite E.
  - destruct (first_of_type_spec s role fuel 0) as (r & E & Hc); [lia|lia|lia|].
    assert ((b ← block_first; first_of_type fuel role b) s = Ret (r, s)) as E'.
    { rewrite <- E. unfold block_first, gets, mbind, st_bind. destruct (all_blocks s); cbn; [done|]. by rewrite decide_True by lia. }
    st_step E'. destruct r as [b|]; [left; exists b; split; [done|]|right; split; [|by rewrite decide_True]].
    + unfold block_set_role, mbind, st_bind, assertS. by rewrite Hr.
    + intros b (x & Hx & Hb & _). by eapply Hc, Hb; eapply list_elem_of_lookup_2.
Qed.

Lemma locate_block_device_correct_witness :
  let s := BState [ex_disk; ex_part] (λ _, None) (λ _ _, []) in
  (∃ b, chosen (all_blocks s) BLOCK_FILESYS None b ∧ locate_block_device 2 BLOCK_FILESYS None s = Ret (tt, with_role s BLOCK_FILESYS b)) ∨
  (∀ b, ¬ chosen (all_blocks s) BLOCK_FILESYS None b) ∧ locate_block_device 2 BLOCK_FILESYS None s = Ret (tt, s).
Proof. intros s. apply (locate_block_device_correct 2 BLOCK_FILESYS None s); [done|done]. Defined.
