(* ===== verification/Vm.v ===== *)
(** * Virtual memory ([vm/page.c], [vm/frame.c], [vm/swap.c], and the parts of
    [userprog/exception.c] and [userprog/process.c] for it)

    In the build with virtual memory a page of a process is described by an entry
    of the supplemental page table, a hash table for all processes, and gets a
    frame when it is first used.  An entry is an object on the heap, known by its
    address; the hash table holds the members of the entries that make their key,
    which never change.  Page directories and memory are those of [Pagedir], the
    swap device is one of [Block], and files are what [file_read_at] and
    [file_write_at] do with them.  The three locks are held from the start of an
    operation on their table to its end; they are left out.  An operation in
    which [thread_exit] is called has no result ([None]); it leaves the lock of
    the frame table held, so that what follows such an operation is not
    described by this model. *)

From stdpp Require Import functions.
From stdpp Require Import base tactics list numbers option sets gmap fin_maps.
From Stdlib Require Import ZArith Lia.
From S2P Require Import Prelude Bitmap Vaddr Palloc PageAlloc Hash Pagedir PagedirSpec PagedirRefine Load LoadSpec Block Random UserMem.

Inductive cache_flag : Type := UNMAPPED | SWAPPED | FILESYSTEM.

#[global] Instance cache_flag_eq : EqDecision cache_flag.
Proof. solve_decision. Defined.

Record sp_entry : Type := SpEntry {
  fp : Z;
  idx : Z;
  location : cache_flag;
  read_bytes : Z;
  zero_bytes : Z;
  sp_ofs : Z;
  writable : bool;
  upage : Z;
  sp_tid : Z;
  sp_pagedir : Z;
  swap_sector : Z
}.

Definition set_idx (i : Z) (e : sp_entry) : sp_entry :=
  SpEntry (fp e) i (location e) (read_bytes e) (zero_bytes e) (sp_ofs e) (writable e) (upage e) (sp_tid e) (sp_pagedir e) (swap_sector e).
Definition set_location (l : cache_flag) (e : sp_entry) : sp_entry :=
  SpEntry (fp e) (idx e) l (read_bytes e) (zero_bytes e) (sp_ofs e) (writable e) (upage e) (sp_tid e) (sp_pagedir e) (swap_sector e).
Definition set_swap_sector (k : Z) (e : sp_entry) : sp_entry :=
  SpEntry (fp e) (idx e) (location e) (read_bytes e) (zero_bytes e) (sp_ofs e) (writable e) (upage e) (sp_tid e) (sp_pagedir e) k.

(** [spe->writable = true; spe->location = UNMAPPED;] *)
Definition zero_entry (e : sp_entry) : sp_entry :=
  SpEntry (fp e) (idx e) UNMAPPED (read_bytes e) (zero_bytes e) (sp_ofs e) true (upage e) (sp_tid e) (sp_pagedir e) (swap_sector e).

(** An entry as an element of the hash table. *)
Record sp_key : Type := SpKey {
  k_addr : Z;
  k_upage : Z;
  k_tid : Z
}.

#[global] Instance sp_key_eq : EqDecision sp_key.
Proof. solve_decision. Defined.

Definition page_hash (k : sp_key) : Z := hash_int (k_upage k).
Definition page_cmp (a b : sp_key) : bool := (k_upage a <? k_upage b) || (k_tid a <? k_tid b).

Definition SECTORS_IN_PAGE : nat := 8.

Record ft_entry : Type := FtEntry {
  p_addr : Z;
  user : Z
}.

Section vm.
Context {P : Type} `{!PageAllocator P} {F : Type}.
Context (init_page_dir init_ram_pages : Z).

(** The bytes that reading [size] bytes of a file at an offset delivers, and
    writing bytes at an offset. *)
Context (file_read_at : F → Z → Z → Z → list Z) (file_write_at : F → Z → list Z → Z → F).

Record vmstate : Type := VmState {
  vpg : pgstate P;
  entries : gmap Z sp_entry;
  sp_table : hash sp_key;
  spe_list : Z → list Z;
  ft : list ft_entry;
  used_map : bitmap;
  swap_map : bitmap;
  swap_block : nat;
  devs : bstate;
  prng : rc4;
  files : F
}.

(** ** Access to the parts *)

Definition on_mem {A} (m : st (pgstate P) A) : st vmstate A := λ s,
  match m (vpg s) with
  | Ret (a, g) => Ret (a, VmState g (entries s) (sp_table s) (spe_list s) (ft s) (used_map s) (swap_map s) (swap_block s) (devs s) (prng s) (files s))
  | Panic => Panic
  | Diverge => Diverge
  end.

Definition on_devs {A} (m : st bstate A) : st vmstate A := λ s,
  match m (devs s) with
  | Ret (a, d) => Ret (a, VmState (vpg s) (entries s) (sp_table s) (spe_list s) (ft s) (used_map s) (swap_map s) (swap_block s) d (prng s) (files s))
  | Panic => Panic
  | Diverge => Diverge
  end.

Definition set_entries (es : gmap Z sp_entry) (s : vmstate) : vmstate :=
  VmState (vpg s) es (sp_table s) (spe_list s) (ft s) (used_map s) (swap_map s) (swap_block s) (devs s) (prng s) (files s).
Definition set_table (t : hash sp_key) (s : vmstate) : vmstate :=
  VmState (vpg s) (entries s) t (spe_list s) (ft s) (used_map s) (swap_map s) (swap_block s) (devs s) (prng s) (files s).
Definition set_list (tid : Z) (l : list Z) (s : vmstate) : vmstate :=
  VmState (vpg s) (entries s) (sp_table s) (<[tid := l]> (spe_list s)) (ft s) (used_map s) (swap_map s) (swap_block s) (devs s) (prng s) (files s).
Definition set_ft (l : list ft_entry) (s : vmstate) : vmstate :=
  VmState (vpg s) (entries s) (sp_table s) (spe_list s) l (used_map s) (swap_map s) (swap_block s) (devs s) (prng s) (files s).
Definition set_used (b : bitmap) (s : vmstate) : vmstate :=
  VmState (vpg s) (entries s) (sp_table s) (spe_list s) (ft s) b (swap_map s) (swap_block s) (devs s) (prng s) (files s).
Definition set_swap_map (b : bitmap) (s : vmstate) : vmstate :=
  VmState (vpg s) (entries s) (sp_table s) (spe_list s) (ft s) (used_map s) b (swap_block s) (devs s) (prng s) (files s).
Definition set_prng (r : rc4) (s : vmstate) : vmstate :=
  VmState (vpg s) (entries s) (sp_table s) (spe_list s) (ft s) (used_map s) (swap_map s) (swap_block s) (devs s) r (files s).
Definition set_files (f : F) (s : vmstate) : vmstate :=
  VmState (vpg s) (entries s) (sp_table s) (spe_list s) (ft s) (used_map s) (swap_map s) (swap_block s) (devs s) (prng s) f.

(** [*spe]: a pointer that is null or dangling stops the kernel. *)
Definition get_spe (a : Z) : st vmstate sp_entry := o ← gets (λ s, entries s !! a); deref o.
Definition upd_spe (a : Z) (f : sp_entry → sp_entry) : st vmstate unit :=
  e ← get_spe a; modifyS (λ s, set_entries (<[a := f e]> (entries s)) s).

(** [table.ft[i]]; an index outside of the array stops the kernel. *)
Definition get_ft (i : Z) : st vmstate ft_entry :=
  assertS (0 <=? i);; o ← gets (λ s, ft s !! Z.to_nat i); deref o.
Definition upd_ft (i : Z) (f : ft_entry → ft_entry) : st vmstate unit :=
  x ← get_ft i; modifyS (λ s, set_ft (<[Z.to_nat i := f x]> (ft s)) s).

(** [len] bytes of memory from [a] on, and storing bytes. *)
Definition bytes_of (m : Z → Z) (a : Z) (len : nat) : list Z := (λ j, m (a + Z.of_nat j)) <$> seq 0 len.
Definition store_at (a : Z) (bs : list Z) : st vmstate unit :=
  on_mem (modifyS (λ g, with_pmem (λ x, if within a (Z.of_nat (length bs)) x then byte_at bs (Z.to_nat (x - a)) else pmem g x) g)).

(** ** [swap.c] and [frame_get] *)

Definition frame_get (a : Z) : st vmstate Z :=
  e ← get_spe a;
  n ← gets (λ s, bitmap_size (used_map s));
  assertS (idx e <? n);;
  b ← gets used_map;
  t ← liftS (bitmap_test b (idx e));
  assertS (negb t || negb (idx e =? BITMAP_ERROR));;
  mret (idx e).

(** The loop of [swap_write] from sector [cur] on, with [n] left. *)
Fixpoint swap_write_loop (n : nat) (cur : Z) (a kpage : Z) : st vmstate unit :=
  match n with
  | O => mret tt
  | S n =>
      e ← get_spe a;
      d ← gets swap_block;
      data ← gets (λ s, bytes_of (pmem (vpg s)) (kpage + cur * 512) 512);
      depth ← gets (λ s, S (length (all_blocks (devs s))));
      on_devs (block_write depth d (u32 (swap_sector e + cur)) data);;
      swap_write_loop n (cur + 1) a kpage
  end.

Definition swap_write (a : Z) : st vmstate unit :=
  i ← frame_get a;
  x ← get_ft i;
  swap_write_loop SECTORS_IN_PAGE 0 a (p_addr x).

(** [for (cur = 0; SECTORS_IN_PAGE; cur++)]: the condition is a constant. *)
Fixpoint swap_read_loop (fuel : nat) (cur : Z) (a kpage : Z) : st vmstate unit :=
  match fuel with
  | O => divergeS
  | S fuel =>
      e ← get_spe a;
      d ← gets swap_block;
      depth ← gets (λ s, S (length (all_blocks (devs s))));
      data ← on_devs (block_read depth d (u32 (swap_sector e + cur)));
      store_at (kpage + cur * 512) data;;
      swap_read_loop fuel (s32 (cur + 1)) a kpage
  end.

Definition swap_read (fuel : nat) (a : Z) : st vmstate unit :=
  i ← frame_get a;
  x ← get_ft i;
  swap_read_loop fuel 0 a (p_addr x).

Definition swap_delete (a : Z) : st vmstate unit :=
  e ← get_spe a;
  b ← gets swap_map;
  b ← liftS (bitmap_set_multiple b (swap_sector e) (Z.of_nat SECTORS_IN_PAGE) false);
  modifyS (set_swap_map b);;
  upd_spe a (set_swap_sector SIZE_MAX).

Definition swap_obtain (a : Z) : st vmstate unit :=
  b ← gets swap_map;
  '(k, b) ← liftS (bitmap_scan_and_flip b 0 (Z.of_nat SECTORS_IN_PAGE) false);
  modifyS (set_swap_map b);;
  upd_spe a (set_swap_sector k);;
  if k =? BITMAP_ERROR then panicS else swap_write a.

(** [bits] is the memory that [malloc] returns for the bits. *)
Definition swap_init (bits : list Z) : st vmstate unit :=
  r ← on_devs (block_get_role BLOCK_SWAP);
  d ← deref r;
  x ← on_devs (get_block d);
  b ← liftS (bitmap_create true (Some bits) (u32 (b_size x * 512)));
  b ← deref b;
  modifyS (λ s, VmState (vpg s) (entries s) (sp_table s) (spe_list s) (ft s) (used_map s) b d (devs s) (prng s) (files s)).

(** ** [frame.c] *)

(** The table has an entry for half of the pages above 1 MB; [bits] is the memory
    that [malloc] returns for the bits. *)
Definition frame_init (bits : list Z) : st vmstate unit :=
  free_start ← liftS (ptov (1024 * 1024));
  free_end ← liftS (ptov (u32 (init_ram_pages * PGSIZE)));
  let free_pages := (free_end - free_start) / PGSIZE in
  let user_pages := free_pages / 2 in
  modifyS (set_ft (replicate (Z.to_nat user_pages) (FtEntry 0 0)));;
  b ← liftS (bitmap_create true (Some bits) user_pages);
  b ← deref b;
  modifyS (set_used b).

(** Reading an argument of the page at the frame's entry: [table.ft[spe->idx].p_addr]. *)
Definition frame_addr (a : Z) : st vmstate Z := e ← get_spe a; x ← get_ft (idx e); mret (p_addr x).

Definition frame_evict : st vmstate Z :=
  '(r, g) ← gets (λ s, random_ulong (prng s));
  modifyS (set_prng g);;
  let random_evict := s32 r in
  fte ← get_ft random_evict;
  e ← get_spe (user fte);
  match location e with
  | UNMAPPED => upd_spe (user fte) (set_location SWAPPED);; swap_write (user fte)
  | SWAPPED => swap_write (user fte)
  | FILESYSTEM =>
      dirty ← on_mem (pagedir_is_dirty (sp_pagedir e) (upage e));
      if (dirty : bool) then
        data ← gets (λ s, bytes_of (pmem (vpg s)) (p_addr fte) (Z.to_nat (read_bytes e)));
        modifyS (λ s, set_files (file_write_at (files s) (fp e) data (sp_ofs e)) s)
      else mret tt
  end;;
  mret (u32 random_evict).

(** [if (kpage == NULL) return false;] *)
Definition unless_null (k : Z) : option (option Z) := if k =? 0 then Some None else Some (Some k).

(** The thread exits ([None]), or the result is [false] or the page to enter. *)
Definition frame_page (fuel : nat) (a : Z) : st vmstate (option (option Z)) :=
  e ← get_spe a;
  match location e with
  | UNMAPPED =>
      k ← on_mem (alloc (get_multiple (Z.lor PAL_USER PAL_ZERO) 1));
      mret (unless_null k)
  | SWAPPED =>
      k ← on_mem (alloc (get_multiple PAL_USER 1));
      swap_read fuel a;;
      swap_delete a;;
      mret (Some (Some k))
  | FILESYSTEM =>
      if negb (zero_bytes e =? PGSIZE) then
        k ← on_mem (alloc (get_multiple PAL_USER 1));
        if k =? 0 then mret (Some None)
        else
          bs ← gets (λ s, file_read_at (files s) (fp e) (read_bytes e) (sp_ofs e));
          store_at k bs;;
          if Z.of_nat (length bs) <? read_bytes e then mret None
          else
            on_mem (modifyS (λ g, with_pmem (λ x, if within (k + read_bytes e) (zero_bytes e) x then 0 else pmem g x) g));;
            mret (Some (Some k))
      else
        k ← on_mem (alloc (get_multiple PAL_ZERO 1));
        mret (unless_null k)
  end.

Definition frame_fetch (fuel : nat) (a : Z) : st vmstate (option bool) :=
  r ← frame_page fuel a;
  match r with
  | None => mret None
  | Some None => mret (Some false)
  | Some (Some k) =>
      e ← get_spe a;
      upd_ft (idx e) (λ x, FtEntry k (user x));;
      mret (Some true)
  end.

Definition frame_install_page (a : Z) : st vmstate bool :=
  e ← get_spe a;
  k ← on_mem (pagedir_get_page (sp_pagedir e) (upage e));
  if k =? 0 then
    p ← frame_addr a;
    on_mem (pagedir_set_page init_page_dir init_ram_pages (sp_pagedir e) (upage e) p (writable e))
  else mret false.

Definition frame_obtain (fuel : nat) (a : Z) : st vmstate (option bool) :=
  b ← gets used_map;
  '(i, b) ← liftS (bitmap_scan_and_flip b 0 1 false);
  modifyS (set_used b);;
  upd_spe a (set_idx i);;
  (if i =? BITMAP_ERROR then i ← frame_evict; upd_spe a (set_idx i) else mret tt);;
  fte ← frame_get a;
  r ← frame_fetch fuel a;
  match r with
  | None => mret None
  | Some fetched =>
      success ← (if (fetched : bool) then
                   ok ← frame_install_page a;
                   if (ok : bool) then mret true
                   else
                     i ← frame_get a;
                     x ← get_ft i;
                     on_mem (alloc (free_multiple (p_addr x) 1));;
                     mret false
                 else mret false);
      (if (success : bool) then upd_ft fte (λ x, FtEntry (p_addr x) a)
       else
         e ← get_spe a;
         b ← gets used_map;
         b ← liftS (bitmap_reset b (idx e));
         modifyS (set_used b);;
         upd_spe a (set_idx BITMAP_ERROR));;
      mret (Some success)
  end.

Definition frame_delete (a : Z) : st vmstate unit :=
  e ← get_spe a;
  if idx e =? BITMAP_ERROR then mret tt
  else
    b ← gets used_map;
    t ← liftS (bitmap_test b (idx e));
    assertS t;;
    on_mem (pagedir_clear_page init_page_dir (sp_pagedir e) (upage e));;
    i ← frame_get a;
    x ← get_ft i;
    on_mem (alloc (free_multiple (p_addr x) 1));;
    b ← gets used_map;
    b ← liftS (bitmap_reset b (idx e));
    modifyS (set_used b).

(** ** [page.c] *)

(** [mem] tells whether there is memory for the buckets; the result of
    [hash_init] is not tested. *)
Definition page_supp_init (mem : bool) : st vmstate unit := modifyS (set_table (default (Hash 0 4 []) (hash_init mem))).

(** [a] is the address [malloc] returns, 0 if there is no memory; [mem] tells
    whether the hash table gets memory when it grows. *)
Definition page_supp_alloc (mem : bool) (a tid pd up : Z) : st vmstate Z :=
  assertS (negb (a =? 0));;
  let spe := SpEntry 0 SIZE_MAX UNMAPPED 0 0 0 true up tid pd SIZE_MAX in
  modifyS (λ s, set_entries (<[a := spe]> (entries s)) s);;
  modifyS (λ s, set_list tid (spe_list s tid ++ [a]) s);;
  t ← gets sp_table;
  '(_, t) ← liftS (hash_insert page_hash page_cmp mem t (SpKey a up tid));
  modifyS (set_table t);;
  mret a.

(** [frame_delete] in the [default] case: no location is left for it. *)
Definition page_supp_delete (a : Z) : st vmstate unit :=
  e ← get_spe a;
  match location e with
  | UNMAPPED | FILESYSTEM => mret tt
  | SWAPPED => swap_delete a
  end;;
  modifyS (λ s, set_entries (delete a (entries s)) s).

(** The element is taken off the list by [list_pop_front]; removing it a second
    time leaves the list as it is. *)
Fixpoint page_supp_destroy (fuel : nat) (mem : bool) (tid : Z) : st vmstate unit :=
  l ← gets (λ s, spe_list s tid);
  match l with
  | [] => mret tt
  | a :: l =>
      match fuel with
      | O => divergeS
      | S fuel =>
          modifyS (set_list tid l);;
          e ← get_spe a;
          t ← gets sp_table;
          '(_, t) ← liftS (hash_delete page_hash page_cmp mem t (SpKey a (upage e) (sp_tid e)));
          modifyS (set_table t);;
          page_supp_delete a;;
          page_supp_destroy fuel mem tid
      end
  end.

Definition page_find (tid vaddr : Z) : st vmstate Z :=
  t ← gets sp_table;
  r ← liftS (hash_find page_hash page_cmp t (SpKey 0 vaddr tid));
  mret (match r with Some k => k_addr k | None => 0 end).

(** ** The page fault handler ([userprog/exception.c]) *)

(** The access is repeated, the process dies in [kill], or the thread has left
    in [thread_exit]. *)
Inductive fault_end : Type :=
  | Resumed
  | Killed (f : fate)
  | Left.

(** [a] and [mem] are for the entry that may be allocated. *)
Definition validate_on_stack (mem : bool) (a tid pd ptr : Z) : st vmstate bool :=
  k ← on_mem (pagedir_get_page pd ptr);
  if k =? 0 then
    if STACK_LIMIT <? s32 (PHYS_BASE - ptr) then mret false
    else spe ← page_supp_alloc mem a tid pd (pg_round_down ptr); upd_spe spe zero_entry;; mret true
  else mret true.

Definition kill_thread (cs : Z) : st vmstate fault_end := f ← liftS (kill cs); mret (Killed f).

Definition fetch_page (fuel : nat) (cs tid fault_addr : Z) : st vmstate fault_end :=
  spe ← page_find tid (pg_round_down fault_addr);
  r ← frame_obtain fuel spe;
  match r with
  | None => mret Left
  | Some true => mret Resumed
  | Some false => kill_thread cs
  end.

(** A fault of thread [tid], whose page directory is [pd], at [fault_addr], with
    stack pointer [esp] in code segment [cs]; [a1] and [a2] are what [malloc]
    returns. *)
Definition page_fault_vm (fuel : nat) (mem : bool) (a1 a2 cs esp tid pd fault_addr : Z) (write from_user : bool) :
    st vmstate fault_end :=
  if fault_addr <? PGSIZE then kill_thread cs
  else if from_user then
    if negb (is_user_vaddr fault_addr) then kill_thread cs
    else
      ok ← validate_on_stack mem a1 tid pd esp;
      if negb ok then kill_thread cs
      else
        spe ← page_find tid (pg_round_down fault_addr);
        if spe =? 0 then
          if STACK_LIMIT <? s32 (PHYS_BASE - fault_addr) then kill_thread cs
          else if (fault_addr <? esp) && negb write then kill_thread cs
          else
            spe ← page_supp_alloc mem a2 tid pd (pg_round_down fault_addr);
            upd_spe spe zero_entry;;
            fetch_page fuel cs tid fault_addr
        else fetch_page fuel cs tid fault_addr
  else fetch_page fuel cs tid fault_addr.

(** ** Loading ([userprog/process.c]) *)

(** [addr i] is what [malloc] returns for page [i]. *)
Fixpoint load_segment_vm_loop (fuel : nat) (mem : bool) (addr : Z → Z) (tid pd file ofs up rd zero : Z) (wr : bool) (page_no : Z) :
    st vmstate bool :=
  match fuel with
  | O => divergeS
  | S fuel =>
      if (0 <? rd) || (0 <? zero) then
        let page_read_bytes := if rd <? PGSIZE then rd else PGSIZE in
        let page_zero_bytes := PGSIZE - page_read_bytes in
        a ← page_supp_alloc mem (addr page_no) tid pd up;
        upd_spe a (λ e, SpEntry file (idx e) FILESYSTEM page_read_bytes page_zero_bytes (u32 (ofs + page_no * PGSIZE)) wr up
                          (sp_tid e) (sp_pagedir e) (swap_sector e));;
        load_segment_vm_loop fuel mem addr tid pd file ofs (u32 (up + PGSIZE)) (u32 (rd - page_read_bytes))
          (u32 (zero - page_zero_bytes)) wr (page_no + 1)
      else mret true
  end.

(** [file_seek] has no effect on the lazy reads and is left out. *)
Definition load_segment_vm (mem : bool) (addr : Z → Z) (tid pd file ofs up rd zero : Z) (wr : bool) : st vmstate bool :=
  assertS (u32 (rd + zero) mod PGSIZE =? 0);;
  assertS (pg_ofs up =? 0);;
  assertS (Z.rem ofs PGSIZE =? 0);;
  load_segment_vm_loop (S (Z.to_nat ((rd + zero) / PGSIZE))) mem addr tid pd file ofs up rd zero wr 0.

Definition setup_stack_vm (fuel : nat) (mem : bool) (a tid pd : Z) : st vmstate (option bool) :=
  spe ← page_supp_alloc mem a tid pd (PHYS_BASE - PGSIZE);
  upd_spe spe zero_entry;;
  r ← frame_obtain fuel spe;
  match r with
  | None => mret None
  | Some true => mret (Some true)
  | Some false => page_supp_delete spe;; mret (Some false)
  end.
End vm.
