(* ===== verification/VmSpec.v ===== *)
(** * What virtual memory guarantees

    The proofs about [Vm]: the supplemental page table is a map from threads and
    pages to entries; the frame table starts out with every frame free; a page
    that gets a frame has the contents its entry describes; and a segment that
    is loaded lazily gets one entry per page. *)

From stdpp Require Import functions.
From stdpp Require Import base tactics list numbers option sets gmap fin_maps.
From Stdlib Require Import ZArith Lia.
From S2P Require Import Prelude Bitmap Vaddr Palloc PageAlloc Hash Pagedir PagedirSpec PagedirRefine Load LoadSpec Block Random UserMem Vm.

(** ** The supplemental page table *)

(** The comparison is no order, since it compares pages or threads, but two
    entries are equal in it exactly if both are. *)
Lemma same_key a b : same page_cmp a b = true ↔ k_upage a = k_upage b ∧ k_tid a = k_tid b.
Proof. unfold same, page_cmp. rewrite andb_true_iff, !negb_true_iff, !orb_false_iff, !Z.ltb_ge. lia. Qed.

#[export] Instance page_key : HashKey page_hash page_cmp.
Proof.
  split.
  - intros e. apply fnv_range. assert (∀ x, 0 ≤ u8 x < 2 ^ 32) as Hu by (intros x; pose proof (u8_range x); lia).
    by repeat constructor; apply Hu.
  - intros a. unfold page_cmp. by rewrite !Z.ltb_irrefl.
  - intros a b c. rewrite !same_key. intros [-> ->]. done.
  - intros a b [E _]%same_key. unfold page_hash. by rewrite E.
Qed.

Lemma find_key es k :
  match find_elem page_cmp es k with
  | Some x => x ∈ es ∧ k_upage x = k_upage k ∧ k_tid x = k_tid k
  | None => ∀ x, x ∈ es → ¬ (k_upage x = k_upage k ∧ k_tid x = k_tid k)
  end.
Proof.
  pose proof (find_elem_spec page_hash page_cmp es k) as Hf. destruct (find_elem page_cmp es k) as [x|]; [by rewrite same_key in Hf|].
  intros x Hx E. apply same_key in E. by rewrite (Hf x Hx) in E.
Qed.

Section spec.
Context {P : Type} `{!PageAllocator P} {F : Type}.
Context (init_page_dir init_ram_pages : Z).
Context (file_read_at : F → Z → Z → Z → list Z) (file_write_at : F → Z → list Z → Z → F).
Implicit Types s : vmstate (P := P) (F := F).

(** The entry that the table has for a page of a thread. *)
Definition find_in (es : list sp_key) (tid up : Z) : option Z := k_addr <$> find_elem page_cmp es (SpKey 0 up tid).
Definition entry_for (s : vmstate (P := P) (F := F)) (tid up : Z) : option Z := find_in (elements (sp_table s)) tid up.

(** The table, the lists of the threads and the entries on the heap agree. *)
Record table_ok (s : vmstate (P := P) (F := F)) : Prop := TableOk {
  to_wf : Hash.wf page_hash page_cmp (sp_table s);
  to_small : Z.of_nat (length (elements (sp_table s))) + 1 < 2 ^ 32;
  to_null : entries s !! 0 = None;
  to_key k : k ∈ elements (sp_table s) → k_addr k ∈ spe_list s (k_tid k) ∧
    ∃ e, entries s !! k_addr k = Some e ∧ upage e = k_upage k ∧ sp_tid e = k_tid k;
  to_list tid a : a ∈ spe_list s tid → ∃ e, entries s !! a = Some e ∧ sp_tid e = tid;
  to_nodup tid : NoDup (spe_list s tid)
}.

Lemma page_supp_init_ok s : entries s = ∅ → (∀ t, spe_list s t = []) →
  ∃ s', page_supp_init true s = Ret (tt, s') ∧ table_ok s' ∧ ∀ t v, entry_for s' t v = None.
Proof.
  intros He Hl. eexists. split; [reflexivity|]. split; [|done].
  split; cbn [set_table sp_table entries spe_list default]; [exact (proj1 (hash_init_wf page_hash page_cmp _ eq_refl))|done|by rewrite He|..].
  - intros k Hk. by apply not_elem_of_nil in Hk.
  - intros t b. rewrite Hl. intros Hb. by apply not_elem_of_nil in Hb.
  - intros t. rewrite Hl. apply NoDup_nil_2.
Qed.

Lemma find_in_spec es tid up : distinct page_cmp es →
  ∀ k, k ∈ es → k_tid k = tid → k_upage k = up → find_in es tid up = Some (k_addr k).
Proof.
  intros [_ Hd] k Hk <- <-. unfold find_in. pose proof (find_key es (SpKey 0 (k_upage k) (k_tid k))) as Hf.
  destruct (find_elem page_cmp es _) as [x|]; [|by destruct (Hf k Hk)].
  destruct Hf as (Hx & E1 & E2). cbn. do 2 f_equal. apply Hd; [done..|]. by apply same_key.
Qed.

Lemma find_in_none es tid up : (∀ k, k ∈ es → k_tid k = tid → k_upage k = up → False) → find_in es tid up = None.
Proof.
  intros Hn. unfold find_in. pose proof (find_key es (SpKey 0 up tid)) as Hf.
  destruct (find_elem page_cmp es _) as [x|]; [|done]. destruct Hf as (Hx & E1 & E2). exfalso. by apply (Hn x).
Qed.

Lemma find_in_perm es es' tid up : es ≡ₚ es' → distinct page_cmp es → find_in es tid up = find_in es' tid up.
Proof.
  intros E Hd. pose proof (distinct_perm page_cmp _ _ E Hd) as Hd'.
  pose proof (find_key es' (SpKey 0 up tid)) as Hf. unfold find_in at 2.
  destruct (find_elem page_cmp es' _) as [x|].
  - destruct Hf as (Hx & E1 & E2). apply find_in_spec; [done|by rewrite E|done..].
  - apply find_in_none. intros k Hk E1 E2. rewrite E in Hk. by destruct (Hf k Hk).
Qed.

Lemma page_find_ok s tid up : table_ok s →
  page_find tid up s = Ret (default 0 (entry_for s tid up), s).
Proof.
  intros [Hw Hs _ _ _ _]. unfold page_find. erewrite st_bind_ret by reflexivity.
  rewrite (liftS_bind_ret _ _ _ _ (hash_find_ok page_hash page_cmp _ _ Hw Hs)). unfold entry_for, find_in.
  by destruct (find_elem page_cmp _ _).
Qed.

(** Only the table, the lists and the entries differ. *)
Definition only_table s s' : Prop :=
  vpg s' = vpg s ∧ ft s' = ft s ∧ used_map s' = used_map s ∧ swap_map s' = swap_map s ∧ swap_block s' = swap_block s ∧
  devs s' = devs s ∧ prng s' = prng s ∧ files s' = files s.

Lemma only_table_trans s1 s2 s3 : only_table s1 s2 → only_table s2 s3 → only_table s1 s3.
Proof. unfold only_table. intros (-> & -> & -> & -> & -> & -> & -> & ->). done. Qed.

Definition fresh_entry (tid pd up : Z) : sp_entry := SpEntry 0 SIZE_MAX UNMAPPED 0 0 0 true up tid pd SIZE_MAX.

Lemma page_supp_alloc_ok s mem a tid pd up :
  table_ok s → a ≠ 0 → entries s !! a = None → Z.of_nat (length (elements (sp_table s))) + 2 < 2 ^ 32 →
  ∃ s', page_supp_alloc mem a tid pd up s = Ret (a, s') ∧ table_ok s' ∧ only_table s s' ∧
    entries s' = <[a := fresh_entry tid pd up]> (entries s) ∧
    (length (elements (sp_table s')) ≤ S (length (elements (sp_table s))))%nat ∧
    (∀ t, spe_list s' t = if decide (t = tid) then spe_list s tid ++ [a] else spe_list s t) ∧
    ∀ t v, entry_for s' t v = if decide (t = tid ∧ v = up ∧ entry_for s tid up = None) then Some a else entry_for s t v.
Proof.
  intros Ht Ha Hfree Hlen. pose proof Ht as [Hw Hs Hn Hk Hl Hnd]. unfold page_supp_alloc.
  erewrite st_bind_ret by (apply assertS_true, negb_true_iff, Z.eqb_neq, Ha). do 3 (erewrite st_bind_ret by reflexivity). cbn [sp_table set_list set_entries].
  destruct (hash_insert_ok page_hash page_cmp mem (sp_table s) (SpKey a up tid) Hw Hs) as (h & Hh & Hwh & Heh).
  rewrite (liftS_bind_ret _ _ _ _ Hh). erewrite st_bind_ret by reflexivity. eexists. split; [reflexivity|].
  pose proof (find_key (elements (sp_table s)) (SpKey a up tid)) as Hf. cbn [k_upage k_tid] in Hf.
  assert (∀ t b, b ∈ spe_list s t → b ≠ a) as Hla by (intros t b Hb ->; destruct (Hl _ _ Hb) as (e & He & _); congruence).
  assert (∀ t, spe_list (set_table h (set_list tid (spe_list s tid ++ [a]) (set_entries (<[a := fresh_entry tid pd up]> (entries s)) s))) t
    = if decide (t = tid) then spe_list s tid ++ [a] else spe_list s t) as Hlist.
  { intros t. cbn. case_decide as E; [subst; by rewrite fn_lookup_insert|by rewrite fn_lookup_insert_ne]. }
  assert (∀ b e, entries s !! b = Some e → <[a := fresh_entry tid pd up]> (entries s) !! b = Some e) as Hold.
  { intros b e Hb. rewrite lookup_insert_ne; [done|]. congruence. }
  assert (∀ k, k ∈ elements h → k ∈ elements (sp_table s) ∨ k = SpKey a up tid) as Hsub.
  { intros k. rewrite Heh. destruct (find_elem _ _ _); [by left|]. rewrite elem_of_cons. tauto. }
  assert (length (elements h) ≤ S (length (elements (sp_table s))))%nat as Hlh.
  { rewrite Heh. destruct (find_elem _ _ _); cbn; lia. }
  split_and!; [|done|done|done|exact Hlist|].
  - split; cbn [sp_table set_table entries set_list set_entries]; [done|lia|by rewrite lookup_insert_ne|..].
    + intros k [Hk'| ->]%Hsub; rewrite Hlist.
      * destruct (Hk k Hk') as (Hin & e & He & E1 & E2). split; [|by eauto].
        case_decide as E; [|done]. apply elem_of_app. left. by rewrite <-E.
      * cbn [k_tid k_addr k_upage]. rewrite decide_True by done. split; [apply elem_of_app; right; by left|].
        exists (fresh_entry tid pd up). by rewrite lookup_insert_eq.
    + intros t b. rewrite Hlist. assert (b ∈ spe_list s t → ∃ e, <[a := fresh_entry tid pd up]> (entries s) !! b = Some e ∧ sp_tid e = t) as Hb'.
      { intros Hb. destruct (Hl _ _ Hb) as (e & He & ?). eauto. }
      case_decide as E; [subst t; intros [Hb| ->%list_elem_of_singleton]%elem_of_app|]; [by apply Hb'| |by apply Hb'].
      exists (fresh_entry tid pd up). by rewrite lookup_insert_eq.
    + intros t. rewrite Hlist. case_decide; [|done]. apply NoDup_app. split_and!; [done| |apply NoDup_singleton].
      intros b Hb ->%list_elem_of_singleton. by destruct (Hla _ _ Hb).
  - intros t v. unfold entry_for at 1. cbn [sp_table set_table]. rewrite (find_in_perm _ _ t v Heh) by apply Hwh.
    pose proof (distinct_perm page_cmp _ _ Heh (wf_distinct _ _ _ Hwh)) as Hd.
    destruct (find_elem page_cmp (elements (sp_table s)) (SpKey a up tid)) as [x|].
    + destruct Hf as (Hx & Ex1 & Ex2). rewrite decide_False; [done|]. intros (_ & _ & E). unfold entry_for in E.
      by rewrite (find_in_spec _ tid up Hd x) in E.
    + case_decide as Hc.
      * destruct Hc as (-> & -> & _). by rewrite (find_in_spec _ tid up Hd (SpKey a up tid)) by (done || by left).
      * assert (¬ (t = tid ∧ v = up)) as Hne.
        { intros [-> ->]. apply Hc. split_and!; [done..|]. apply find_in_none. intros k Hk' E1 E2. by destruct (Hf k Hk'). }
        unfold entry_for, find_in. cbn [find_elem]. unfold same, page_cmp. cbn [k_upage k_tid].
        destruct (Z.ltb_spec up v), (Z.ltb_spec v up), (Z.ltb_spec tid t), (Z.ltb_spec t tid); cbn; done || lia.
Qed.

(** ** A process that is gone *)

(** The elements that are left when the one with a key is taken out. *)
Lemma delete_key s mem up tid :
  table_ok s →
  ∃ r h, hash_delete page_hash page_cmp mem (sp_table s) (SpKey 0 up tid) = Ret (r, h) ∧ Hash.wf page_hash page_cmp h ∧
    ∀ k, k ∈ elements h ↔ k ∈ elements (sp_table s) ∧ ¬ (k_upage k = up ∧ k_tid k = tid).
Proof.
  intros [Hw Hs _ _ _ _]. destruct (hash_delete_ok page_hash page_cmp mem _ (SpKey 0 up tid) Hw Hs) as (h & Hr & Hwh & He).
  eexists _, h. split; [exact Hr|]. split; [done|]. intros k. rewrite He. pose proof (find_key (elements (sp_table s)) (SpKey 0 up tid)) as Hf.
  cbn [k_upage k_tid] in Hf. destruct (find_elem _ _ _) as [x|]; [|naive_solver].
  destruct Hf as (Hx & E1 & E2). rewrite list_elem_of_filter. split; intros [H1 H2].
  - split; [done|]. intros [E3 E4]. apply H1, (wf_distinct _ _ _ Hw); [done..|]. apply same_key. split; congruence.
  - split; [|done]. intros ->. by apply H2.
Qed.

(** The key that a search or a deletion uses is its page and thread. *)
Lemma find_elem_key es k : find_elem page_cmp es k = find_elem page_cmp es (SpKey 0 (k_upage k) (k_tid k)).
Proof. induction es as [|x es IH]; [done|]. cbn [find_elem]. by rewrite IH. Qed.

Lemma hash_delete_key mem (h : hash sp_key) k :
  hash_delete page_hash page_cmp mem h k = hash_delete page_hash page_cmp mem h (SpKey 0 (k_upage k) (k_tid k)).
Proof.
  unfold hash_delete, find_bucket. change (bucket_idx page_hash h k) with (bucket_idx page_hash h (SpKey 0 (k_upage k) (k_tid k))).
  destruct (buckets h !! _); [|done]. cbn [mbind outcome_bind]. by rewrite find_elem_key.
Qed.

Lemma entry_for_none s tid up : (∀ k, k ∈ elements (sp_table s) → k_tid k ≠ tid) → entry_for s tid up = None.
Proof. intros Hn. apply find_in_none. intros k Hk E _. by destruct (Hn k Hk). Qed.

(** The tables have the same elements for a thread. *)
Lemma entry_for_same s s' t v : table_ok s → table_ok s' →
  (∀ k, k_tid k = t → k ∈ elements (sp_table s') ↔ k ∈ elements (sp_table s)) → entry_for s' t v = entry_for s t v.
Proof.
  intros Ht Ht' Hk. unfold entry_for. pose proof (find_key (elements (sp_table s)) (SpKey 0 v t)) as Hf. unfold find_in at 2.
  destruct (find_elem _ (elements (sp_table s)) _) as [x|].
  - destruct Hf as (Hx & E1 & E2). apply find_in_spec; [apply Ht'|by apply Hk|done..].
  - apply find_in_none. intros k Hin E1 E2. apply (Hf k); [|done]. by apply Hk.
Qed.

(** One iteration: the first entry of the thread is gone from the list, the table
    and the heap. *)
Lemma destroy_step s mem tid a l fuel :
  table_ok s → spe_list s tid = a :: l → (∀ e, entries s !! a = Some e → location e ≠ SWAPPED) →
  ∃ s', page_supp_destroy (S fuel) mem tid s = page_supp_destroy fuel mem tid s' ∧ table_ok s' ∧ only_table s s' ∧
    entries s' = delete a (entries s) ∧ (∀ t, spe_list s' t = if decide (t = tid) then l else spe_list s t) ∧
    ∀ k, k_tid k ≠ tid → k ∈ elements (sp_table s') ↔ k ∈ elements (sp_table s).
Proof.
  intros Ht Hl Hsw. pose proof Ht as [Hw Hs Hn Hk Hli Hnd]. pose proof (Hnd tid) as Hndl. rewrite Hl, NoDup_cons in Hndl.
  destruct (Hli tid a) as (e & He & Etid); [rewrite Hl; by left|]. cbn [page_supp_destroy].
  rewrite (st_bind_ret _ _ _ (a :: l) s) by (unfold gets; by rewrite Hl). erewrite st_bind_ret by reflexivity.
  rewrite (st_bind_ret (get_spe a) _ _ e (set_list tid l s)) by (unfold get_spe, mbind, st_bind, gets; cbn; by rewrite He).
  erewrite st_bind_ret by reflexivity. rewrite hash_delete_key, Etid. cbn [k_upage k_tid sp_table set_list].
  destruct (delete_key s mem (upage e) tid Ht) as (r & h & Hr & Hwh & Hh). rewrite (liftS_bind_ret _ _ _ _ Hr).
  erewrite st_bind_ret by reflexivity.
  set (s1 := set_table h (set_list tid l s)). set (s2 := set_entries (delete a (entries s)) s1).
  rewrite (st_bind_ret (page_supp_delete a) _ s1 tt s2); cycle 1.
  { unfold page_supp_delete. rewrite (st_bind_ret (get_spe a) _ s1 e s1) by (unfold get_spe, mbind, st_bind, gets; cbn; by rewrite He).
    specialize (Hsw e He). by destruct (location e). }
  exists s2. split; [done|].
  assert (∀ t, spe_list s2 t = if decide (t = tid) then l else spe_list s t) as Hlist.
  { intros t. cbn. case_decide as E; [subst; by rewrite fn_lookup_insert|by rewrite fn_lookup_insert_ne]. }
  split_and!; [|done|done|done|].
  - split; cbn [sp_table entries s2 s1 set_entries set_table]; [done| |by rewrite lookup_delete_None; right|..].
    + assert (length (elements h) ≤ length (elements (sp_table s)))%nat; [|lia].
      apply NoDup_incl_length; [|intros k Hk'%list_elem_of_In; apply list_elem_of_In; by apply Hh].
      apply NoDup_ListNoDup, (wf_distinct _ _ _ Hwh).
    + intros k [Hk' Hne]%Hh. destruct (Hk k Hk') as (Hin & e' & He' & E1 & E2). rewrite Hlist.
      assert (k_addr k ≠ a) as Hka by (intros E; rewrite E in He'; simplify_eq; apply Hne; split; congruence). split.
      * case_decide as E; [|done]. rewrite E, Hl, elem_of_cons in Hin. by destruct Hin.
      * exists e'. by rewrite lookup_delete_ne.
    + intros t b. rewrite Hlist. intros Hb. assert (b ∈ spe_list s t ∧ b ≠ a) as [Hb' Hba].
      { case_decide as E; [subst t; rewrite Hl; split; [by right|intros ->; by apply Hndl]|]. split; [done|]. intros ->.
        destruct (Hli t a Hb) as (e' & He' & E'). congruence. }
      destruct (Hli t b Hb') as (e' & He' & E'). exists e'. by rewrite lookup_delete_ne.
    + intros t. rewrite Hlist. case_decide; [apply Hndl|done].
  - intros k Hkt. cbn. rewrite Hh. split; [by intros []|]. intros Hk'. split; [done|]. naive_solver.
Qed.

Lemma page_supp_destroy_ok mem tid fuel : ∀ s, table_ok s → (length (spe_list s tid) ≤ fuel)%nat →
  (∀ a e, a ∈ spe_list s tid → entries s !! a = Some e → location e ≠ SWAPPED) →
  ∃ s', page_supp_destroy fuel mem tid s = Ret (tt, s') ∧ table_ok s' ∧ only_table s s' ∧ spe_list s' tid = [] ∧
    (∀ a, entries s' !! a = if decide (a ∈ spe_list s tid) then None else entries s !! a) ∧
    (∀ t, t ≠ tid → spe_list s' t = spe_list s t) ∧
    ∀ t v, entry_for s' t v = if decide (t = tid) then None else entry_for s t v.
Proof.
  induction fuel as [|fuel IH]; intros s Ht Hlen Hsw; (destruct (spe_list s tid) as [|a l] eqn:Hl; [|cbn in Hlen; try lia]).
  1, 2: exists s; cbn [page_supp_destroy]; rewrite (st_bind_ret _ _ _ [] s) by (unfold gets; by rewrite Hl);
    (split_and!; [done..|intros a'; by rewrite decide_False by set_solver|done|]); intros t v; (case_decide as E; [|done]); subst t;
    apply entry_for_none; intros k Hk E; pose proof (to_key _ Ht k Hk) as [Hin _]; rewrite E, Hl in Hin; by apply elem_of_nil in Hin.
  destruct (destroy_step s mem tid a l fuel Ht Hl) as (s1 & Hr & Ht1 & Ho1 & He1 & Hl1 & Hk1).
  { intros e He. apply (Hsw a e); [by left|done]. }
  pose proof (to_nodup _ Ht tid) as Hnd. rewrite Hl, NoDup_cons in Hnd.
  destruct (IH s1 Ht1) as (s' & Hr' & Ht' & Ho' & Hl' & He' & Hlt & Hf).
  { rewrite Hl1, decide_True by done. cbn in Hlen. lia. }
  { intros b e. rewrite Hl1, decide_True, He1 by done. intros Hb [_ He]%lookup_delete_Some. apply (Hsw b e); [by right|done]. }
  exists s'. rewrite Hr. split; [done|]. split; [done|]. rewrite Hl1, decide_True in He' by done. split_and!; [|done| | |].
  - by eapply only_table_trans.
  - intros b. rewrite He', He1. destruct (decide (b ∈ l)) as [Hb|Hb]; [by rewrite decide_True by (by right)|].
    destruct (decide (b = a)) as [->|Hne]; [rewrite lookup_delete_eq, decide_True; [done|by left]|].
    rewrite lookup_delete_ne, decide_False by (try done; set_solver). done.
  - intros t Hne. rewrite Hlt, Hl1 by done. by rewrite decide_False.
  - intros t v. rewrite Hf. case_decide as E; [done|]. apply entry_for_same; [done..|]. intros k <-. by apply Hk1.
Qed.

(** ** A page gets a frame *)

Definition with_vpg (g : pgstate P) s : vmstate (P := P) (F := F) :=
  VmState g (entries s) (sp_table s) (spe_list s) (ft s) (used_map s) (swap_map s) (swap_block s) (devs s) (prng s) (files s).

Lemma on_mem_run {A} (m : st (pgstate P) A) s a g : m (vpg s) = Ret (a, g) → on_mem m s = Ret (a, with_vpg g s).
Proof. intros E. unfold on_mem. by rewrite E. Qed.

Lemma get_spe_run s a e : entries s !! a = Some e → get_spe a s = Ret (e, s).
Proof. intros E. unfold get_spe, mbind, st_bind, gets. by rewrite E. Qed.

Lemma upd_spe_run s a e f : entries s !! a = Some e → upd_spe a f s = Ret (tt, set_entries (<[a := f e]> (entries s)) s).
Proof. intros E. unfold upd_spe. by rewrite (st_bind_ret _ _ _ _ _ (get_spe_run s a e E)). Qed.

Lemma get_ft_run s i x : 0 ≤ i → ft s !! Z.to_nat i = Some x → get_ft i s = Ret (x, s).
Proof. intros Hi E. unfold get_ft, mbind, st_bind, assertS, gets. rewrite (proj2 (Z.leb_le 0 i) Hi). by rewrite E. Qed.

Lemma upd_ft_run s i x f : 0 ≤ i → ft s !! Z.to_nat i = Some x → upd_ft i f s = Ret (tt, set_ft (<[Z.to_nat i := f x]> (ft s)) s).
Proof. intros Hi E. unfold upd_ft. by rewrite (st_bind_ret _ _ _ _ _ (get_ft_run s i x Hi E)). Qed.

Context (contents : F → Z → list Z) (pd : Z) (O : list (Z * Z)).
Hypothesis Hfile : ∀ fs f, file_contract (contents fs f) (file_read_at fs f).
Hypothesis Hram : ∀ p A b, holds (P := P) p A → b ∈ A → (b.1 - PHYS_BASE) / 4096 < init_ram_pages.
Hypothesis Hinit : pd ≠ init_page_dir.

(** An entry that describes a page of the directory [pd], not in swap. *)
Record entry_ok (e : sp_entry) : Prop := EntryOk {
  eo_user : user_addr (upage e);
  eo_page : upage e mod 4096 = 0;
  eo_dir : sp_pagedir e = pd;
  eo_location : location e ≠ SWAPPED;
  eo_file : location e = FILESYSTEM → 0 ≤ read_bytes e ∧ 0 ≤ zero_bytes e ∧ read_bytes e + zero_bytes e = 4096 ∧ 0 ≤ sp_ofs e
}.

(** The contents of the page. *)
Definition page_byte (fs : F) (e : sp_entry) (j : Z) : Z :=
  match location e with
  | FILESYSTEM => if j <? read_bytes e then file_byte (contents fs (fp e)) (sp_ofs e + j) else 0
  | _ => 0
  end.

(** Which page of the allocator an entry asks for. *)
Definition page_flags (e : sp_entry) : Z :=
  match location e with
  | UNMAPPED => Z.lor PAL_USER PAL_ZERO
  | SWAPPED => PAL_USER
  | FILESYSTEM => if zero_bytes e =? PGSIZE then PAL_ZERO else PAL_USER
  end.

Definition granted s (e : sp_entry) (k : Z) : Prop := ∃ p, get_multiple (page_flags e) 1 (pgs (vpg s)) = Ret (k, p).

(** A page of zeros from the allocator. *)
Lemma zero_page_ok s flags E :
  pd_rel (vpg s) pd (E, O) → flag flags PAL_ASSERT = false → flag flags PAL_ZERO = true →
  ∃ k g, on_mem (alloc (get_multiple flags 1)) s = Ret (k, with_vpg g s) ∧ (∃ p, get_multiple flags 1 (pgs (vpg s)) = Ret (k, p)) ∧
    ((k = 0 ∧ pd_rel g pd (E, O) ∧ intact E O (pmem (vpg s)) (pmem g)) ∨
     (k ≠ 0 ∧ pd_rel g pd (E, (k, 1) :: O) ∧ intact E O (pmem (vpg s)) (pmem g) ∧ ∀ j, 0 ≤ j < 4096 → pmem g (k + j) = 0)).
Proof.
  intros HR Hf Hz. pose proof HR as [[T HT] _]. cbn in HT.
  destruct (take_page _ _ _ _ _ flags HT Hf) as (k & g & Hk & Hp & E1 & E2 & Hcase). exists k, g.
  split; [by apply on_mem_run|]. split; [done|]. destruct Hcase as [(-> & HT1 & Hm)|(Hk0 & HT1 & Ho & Hzero)]; [left|right]; split_and!; try done.
  - by eapply pd_rel_same.
  - intros b x _ _. by rewrite Hm.
  - by eapply pd_rel_same.
  - by eapply only_page_intact.
  - intros j Hj. apply Hzero; [done|]. apply within_spec. lia.
Qed.

Definition fetch_result s (E : Z → option Z) (e : sp_entry) (r : option (option Z)) (g : pgstate P) : Prop :=
  match r with
  | None => ∃ k, pd_rel g pd (E, (k, 1) :: O) ∧ intact E O (pmem (vpg s)) (pmem g) ∧
              Z.of_nat (length (file_read_at (files s) (fp e) (read_bytes e) (sp_ofs e))) < read_bytes e
  | Some None => granted s e 0 ∧ pd_rel g pd (E, O) ∧ intact E O (pmem (vpg s)) (pmem g)
  | Some (Some k) => k ≠ 0 ∧ granted s e k ∧ pd_rel g pd (E, (k, 1) :: O) ∧ intact E O (pmem (vpg s)) (pmem g) ∧
              ∀ j, 0 ≤ j < 4096 → pmem g (k + j) = page_byte (files s) e j
  end.

Lemma zero_fetch_ok s flags E e :
  pd_rel (vpg s) pd (E, O) → flag flags PAL_ASSERT = false → flag flags PAL_ZERO = true → page_flags e = flags →
  (∀ j, 0 ≤ j < 4096 → page_byte (files s) e j = 0) →
  ∃ r g, (k ← on_mem (alloc (get_multiple flags 1)); mret (unless_null k)) s = Ret (r, with_vpg g s) ∧ fetch_result s E e r g.
Proof.
  intros HR Hf Hz Ef Hb. destruct (zero_page_ok s flags E HR Hf Hz) as (k & g & Hk & Hp & Hcase). rewrite <-Ef in Hp. rewrite (st_bind_ret _ _ _ _ _ Hk).
  eexists _, g. split; [reflexivity|]. destruct Hcase as [(-> & ?)|(Hk0 & ? & ? & Hby)]; [done|].
  unfold unless_null. rewrite (proj2 (Z.eqb_neq _ _) Hk0). split_and!; [done..|]. intros j Hj. rewrite Hb by done. by apply Hby.
Qed.

Lemma frame_page_ok fuel s a e E :
  entries s !! a = Some e → entry_ok e → pd_rel (vpg s) pd (E, O) →
  ∃ r g, frame_page file_read_at fuel a s = Ret (r, with_vpg g s) ∧ fetch_result s E e r g.
Proof.
  intros He [Hu Ha Hd Hl Hf] HR. unfold frame_page. rewrite (st_bind_ret _ _ _ _ _ (get_spe_run s a e He)).
  unfold page_byte. destruct (location e) eqn:El; [|done|].
  { apply zero_fetch_ok; [done..|unfold page_flags; by rewrite El|]. intros j _. unfold page_byte. by rewrite El. }
  destruct (Hf eq_refl) as (Hr & Hz & Hsum & Hofs). change PGSIZE with 4096. destruct (Z.eqb_spec (zero_bytes e) 4096) as [E4|E4]; cbn [negb].
  { apply zero_fetch_ok; [done..|unfold page_flags; rewrite El, E4; done|]. intros j Hj. unfold page_byte. rewrite El, (proj2 (Z.ltb_ge _ _)) by lia. done. }
  pose proof HR as [[T HT] _]. cbn in HT. destruct (take_page _ _ _ _ _ PAL_USER HT) as (k & g & Hk & Hp & E1 & E2 & Hcase); [done|].
  assert (granted s e k) as Hgr by (unfold granted, page_flags; rewrite El; change PGSIZE with 4096; by rewrite (proj2 (Z.eqb_neq _ _) E4)).
  rewrite (st_bind_ret _ _ _ _ _ (on_mem_run _ s k g Hk)).
  destruct Hcase as [(-> & HT1 & Hm)|(Hk0 & HT1 & Ho & _)].
  { eexists _, g. split; [reflexivity|]. split; [done|]. split; [by eapply pd_rel_same|]. intros b x _ _. by rewrite Hm. }
  rewrite (proj2 (Z.eqb_neq _ _) Hk0). erewrite st_bind_ret by reflexivity. cbn [files with_vpg].
  set (bs := file_read_at (files s) (fp e) (read_bytes e) (sp_ofs e)).
  destruct (read_prefix (contents (files s) (fp e)) (file_read_at (files s) (fp e)) (Hfile _ _) (read_bytes e) (sp_ofs e) bs eq_refl)
    as (Hlen & _ & Hby); [done..|].
  unfold store_at. set (m1 := λ x, if within k (Z.of_nat (length bs)) x then byte_at bs (Z.to_nat (x - k)) else pmem g x).
  rewrite (st_bind_ret _ _ _ tt (with_vpg (with_pmem m1 g) s)) by reflexivity.
  assert (only_page k (pmem g) m1) as Ho1 by (intros x Hx%within_false; unfold m1; rewrite (proj2 (within_false _ _ _)); [done|lia]).
  assert (∀ m', only_page k (pmem g) m' → pd_rel (with_pmem m' g) pd (E, (k, 1) :: O) ∧ intact E O (pmem (vpg s)) m') as Hpage.
  { intros m' Hm'. split; [by eapply pd_rel_same; [exact HR|by apply write_page|..]|].
    eapply only_page_intact; [exact HT1|]. by eapply only_page_trans. }
  destruct (Z.ltb_spec (Z.of_nat (length bs)) (read_bytes e)) as [Hshort|Hfull].
  { eexists _, _. split; [reflexivity|]. destruct (Hpage m1 Ho1) as [? ?]. exists k. by rewrite pmem_with_pmem. }
  assert (read_bytes e = Z.of_nat (length bs)) as El2 by lia.
  set (g1 := with_pmem m1 g). assert (pmem g1 = m1) as Em1 by apply pmem_with_pmem.
  set (m2 := λ x, if within (k + read_bytes e) (zero_bytes e) x then 0 else pmem g1 x).
  assert (∀ x, m2 x = filled k bs (pmem g) x) as Em2.
  { intros x. unfold m2, filled. rewrite Em1, El2. by replace (zero_bytes e) with (4096 - Z.of_nat (length bs)) by lia. }
  rewrite (st_bind_ret _ _ _ tt (with_vpg (with_pmem m2 g1) s)) by reflexivity. eexists _, _. split; [reflexivity|].
  assert (only_page k (pmem g) m2) as Ho2 by (intros x Hx; rewrite Em2; apply filled_page; [lia|done]).
  split; [done|]. split; [done|]. rewrite pmem_with_pmem. split; [|split; [by apply Hpage|]].
  - assert (only_page k (pmem g1) m2) as Ho3 by (rewrite Em1; intros x Hx; rewrite Ho2 by done; symmetry; by apply Ho1).
    eapply pd_rel_same; [exact HR|by apply write_page; [apply write_page|]|done|done].
  - intros j Hj. rewrite Em2, filled_byte by done. unfold page_byte. rewrite El, El2. destruct (Z.ltb_spec j (Z.of_nat (length bs))); [apply Hby; lia|done].
Qed.

(** The frame table: one entry for each bit. *)
Definition frames_ok s : Prop := Bitmap.wf (used_map s) ∧ Z.of_nat (length (ft s)) = bit_cnt (used_map s).

Definition free_frame s (i : Z) : Prop := 0 ≤ i < bit_cnt (used_map s) ∧ bit (used_map s) i = false.

(** The table starts with half of the pages above 1 MB, all free. *)
Lemma frame_init_ok s bits : 256 ≤ init_ram_pages < 2 ^ 18 → Bitmap.wf (Bitmap ((init_ram_pages - 256) / 2) bits) →
  ∃ s', frame_init init_ram_pages bits s = Ret (tt, s') ∧ frames_ok s' ∧ bit_cnt (used_map s') = (init_ram_pages - 256) / 2 ∧
    ∀ i, 0 ≤ i < (init_ram_pages - 256) / 2 → free_frame s' i.
Proof.
  intros Hr Hw. unfold frame_init. change PGSIZE with 4096. rewrite (u32_id (init_ram_pages * 4096)) by lia.
  destruct (ptov_vtop (1024 * 1024)) as (a & Ha & _ & Ea); [lia|]. destruct (ptov_vtop (init_ram_pages * 4096)) as (b & Hb & _ & Eb); [lia|].
  rewrite (liftS_bind_ret _ _ _ _ Ha), (liftS_bind_ret _ _ _ _ Hb). erewrite st_bind_ret by reflexivity.
  assert ((b - a) / 4096 = init_ram_pages - 256) as -> by zlia.
  destruct (bitmap_set_all_ok _ bits false Hw) as (m & Hm & Hwm & Ec & Hbits).
  rewrite (liftS_bind_ret _ _ _ (Some m)) by (cbn; by rewrite Hm). eexists. split; [reflexivity|].
  split; [split; [done|]; cbn; rewrite length_replicate, Ec; zlia|]. split; [done|].
  intros i Hi. split; cbn; [by rewrite Ec|by apply Hbits].
Qed.

Lemma frame_get_run s a e : frames_ok s → entries s !! a = Some e → 0 ≤ idx e < bit_cnt (used_map s) → frame_get a s = Ret (idx e, s).
Proof.
  intros [Hw _] He Hi. unfold frame_get. rewrite (st_bind_ret _ _ _ _ _ (get_spe_run s a e He)). erewrite st_bind_ret by reflexivity.
  erewrite st_bind_ret by (apply assertS_true, Z.ltb_lt, Hi). erewrite st_bind_ret by reflexivity.
  rewrite (liftS_bind_ret _ _ _ _ (bitmap_test_ok _ _ Hw Hi)). erewrite st_bind_ret; [reflexivity|]. apply assertS_true.
  rewrite (proj2 (Z.eqb_neq _ _)), orb_true_r; [done|]. destruct (wf_cnt _ Hw). unfold BITMAP_ERROR, SIZE_MAX. lia.
Qed.

Lemma frame_slot s i : frames_ok s → 0 ≤ i < bit_cnt (used_map s) → ∃ x, ft s !! Z.to_nat i = Some x.
Proof. intros [_ Hl] Hi. apply lookup_lt_is_Some_2. lia. Qed.

(** Taking the first free frame for an entry. *)
Lemma take_frame s a e i0 : frames_ok s → entries s !! a = Some e → free_frame s i0 →
  ∃ i b, free_frame s i ∧ bitmap_scan_and_flip (used_map s) 0 1 false = Ret (i, b) ∧ Bitmap.wf b ∧ bit_cnt b = bit_cnt (used_map s) ∧
    (i =? BITMAP_ERROR) = false ∧ ∀ j, 0 ≤ j → bit b j = (j =? i) || bit (used_map s) j.
Proof.
  intros [Hw _] He [Hi0 Hb0]. destruct (bitmap_scan_and_flip_ok (used_map s) 0 1 false Hw) as (i & b & Hr & Hs & Hwb & Hc & Hbit);
    [destruct (wf_cnt _ Hw); lia|lia|]. exists i, b. destruct Hs as [(H1 & H2 & H3 & _)|[_ Hn]]; cycle 1.
  { destruct (Hn i0); [lia..|]. intros j Hj. by replace j with i0 by lia. }
  assert ((i =? BITMAP_ERROR) = false) as Hne by (apply Z.eqb_neq; destruct (wf_cnt _ Hw); unfold BITMAP_ERROR, SIZE_MAX; lia).
  split; [split; [lia|apply H3; lia]|]. split_and!; try done. intros j Hj. rewrite Hbit, Hne by done. unfold in_range. cbn [negb andb].
  destruct (Z.eqb_spec j i) as [->|Hji]; [rewrite (proj2 (Z.leb_le i i)), (proj2 (Z.ltb_lt i (i + 1))) by lia; done|].
  destruct (Z.leb_spec i j), (Z.ltb_spec j (i + 1)); try lia; done.
Qed.

(** Everything but memory, frames and entries is the same. *)
Definition only_frames s s' : Prop :=
  sp_table s' = sp_table s ∧ spe_list s' = spe_list s ∧ swap_map s' = swap_map s ∧ swap_block s' = swap_block s ∧
  devs s' = devs s ∧ prng s' = prng s ∧ files s' = files s ∧ bit_cnt (used_map s') = bit_cnt (used_map s).

(** A page that is mapped already, or that there is no page table for. *)
Definition unmappable (g : pgstate P) (E : Z → option Z) (v : Z) : Prop :=
  present (E v) = true ∨ E v = None ∧ out_of_pages PAL_ZERO g.

Lemma frame_install_ok s a e E k x :
  entries s !! a = Some e → entry_ok e → 0 ≤ idx e → ft s !! Z.to_nat (idx e) = Some x → p_addr x = k →
  pd_rel (vpg s) pd (E, (k, 1) :: O) →
  ∃ b g, frame_install_page init_page_dir init_ram_pages a s = Ret (b, with_vpg g s) ∧
    intact E ((k, 1) :: O) (pmem (vpg s)) (pmem g) ∧
    ((b = false ∧ pd_rel g pd (E, (k, 1) :: O) ∧ unmappable (vpg s) E (page_no (upage e))) ∨
     (b = true ∧ present (E (page_no (upage e))) = false ∧
      pd_rel g pd (<[page_no (upage e) := Some (user_word k (writable e))]> (with_table E (page_no (upage e))), O))).
Proof.
  intros He [Hu Ha Hd _ _] Hi Hx Hk HR. pose proof HR as [[T HT] _]. cbn in HT.
  destruct (install_page_ok init_page_dir init_ram_pages (vpg s) pd E O k (upage e) (writable e) HR Hu Ha) as (b & g & Hg & Hi1 & Hcase).
  { apply (Hram _ _ (k, 1) (r_holds _ _ _ _ _ HT)). apply elem_of_app. right. by left. }
  { done. }
  exists b, g. split; [|done]. unfold frame_install_page. rewrite (st_bind_ret _ _ _ _ _ (get_spe_run s a e He)), Hd.
  unfold install_page in Hg. apply st_bind_inv in Hg as (q & g1 & Hq & Hg).
  rewrite (st_bind_ret _ _ _ _ _ (on_mem_run _ s q g1 Hq)). destruct (q =? 0).
  - unfold frame_addr. erewrite st_bind_ret; [|rewrite (st_bind_ret _ _ _ _ _ (get_spe_run (with_vpg g1 s) a e He));
      rewrite (st_bind_ret _ _ _ _ _ (get_ft_run (with_vpg g1 s) (idx e) x Hi Hx)); reflexivity].
    rewrite Hk. by rewrite (on_mem_run _ (with_vpg g1 s) b g Hg).
  - injection Hg as <- <-. done.
Qed.

(** The end of an attempt that fails. *)
Lemma release_frame s a e :
  frames_ok s → entries s !! a = Some e → 0 ≤ idx e < bit_cnt (used_map s) →
  ∃ b, (e ← get_spe a; b ← gets used_map; b ← liftS (bitmap_reset b (idx e)); modifyS (set_used b);;
        upd_spe a (set_idx BITMAP_ERROR)) s = Ret (tt, set_entries (<[a := set_idx BITMAP_ERROR e]> (entries s)) (set_used b s)) ∧
    Bitmap.wf b ∧ bit_cnt b = bit_cnt (used_map s) ∧ ∀ j, 0 ≤ j → bit b j = if j =? idx e then false else bit (used_map s) j.
Proof.
  intros [Hw _] He Hi. destruct (bitmap_reset_ok _ _ Hw Hi) as (b & Hb & Hwb & Hc & Hbit). exists b. split; [|done].
  rewrite (st_bind_ret _ _ _ _ _ (get_spe_run s a e He)). erewrite st_bind_ret by reflexivity.
  rewrite (liftS_bind_ret _ _ _ _ Hb). erewrite st_bind_ret by reflexivity. exact (upd_spe_run (set_used b s) a e _ He).
Qed.

(** What [frame_obtain] may do. *)
Definition obtained s (a : Z) (e : sp_entry) (E : Z → option Z) (r : option bool) s' : Prop :=
  let v := page_no (upage e) in
  intact E O (pmem (vpg s)) (pmem (vpg s')) ∧
  match r with
  | Some true => ∃ i k E', free_frame s i ∧ (∀ j, 0 ≤ j → bit (used_map s') j = (j =? i) || bit (used_map s) j) ∧
      ft s' = <[Z.to_nat i := FtEntry k a]> (ft s) ∧ entries s' = <[a := set_idx i e]> (entries s) ∧
      pd_rel (vpg s') pd (E', O) ∧ maps_more v (v + 1) E E' ∧ present (E v) = false ∧
      user_bytes (pmem (vpg s')) E' (upage e) 4096 (writable e) (page_byte (files s) e)
  | Some false =>
      (granted s e 0 ∨ ∃ k g, granted s e k ∧ pd_rel g pd (E, (k, 1) :: O) ∧ unmappable g E v) ∧
      (∀ j, 0 ≤ j → bit (used_map s') j = bit (used_map s) j) ∧ pd_rel (vpg s') pd (E, O) ∧
      entries s' = <[a := set_idx BITMAP_ERROR e]> (entries s)
  | None => ∃ i k, free_frame s i ∧ (∀ j, 0 ≤ j → bit (used_map s') j = (j =? i) || bit (used_map s) j) ∧
      entries s' = <[a := set_idx i e]> (entries s) ∧ pd_rel (vpg s') pd (E, (k, 1) :: O) ∧
      Z.of_nat (length (file_read_at (files s) (fp e) (read_bytes e) (sp_ofs e))) < read_bytes e
  end.

Lemma entry_ok_idx i e : entry_ok e → entry_ok (set_idx i e).
Proof. by intros []. Qed.

(** Mapping the page in the frame of an entry, or giving it back. *)
Lemma map_frame_ok s a e E k u (byte : Z → Z) :
  frames_ok s → entries s !! a = Some e → entry_ok e → 0 ≤ idx e < bit_cnt (used_map s) → ft s !! Z.to_nat (idx e) = Some (FtEntry k u) →
  pd_rel (vpg s) pd (E, (k, 1) :: O) → (∀ j, 0 ≤ j < 4096 → pmem (vpg s) (k + j) = byte j) →
  let v := page_no (upage e) in
  ∃ ok g, (ok ← frame_install_page init_page_dir init_ram_pages a;
           if (ok : bool) then mret true
           else i ← frame_get a; x ← get_ft i; on_mem (alloc (free_multiple (p_addr x) 1));; mret false) s = Ret (ok, with_vpg g s) ∧
    intact E O (pmem (vpg s)) (pmem g) ∧
    ((ok = false ∧ pd_rel g pd (E, O) ∧ unmappable (vpg s) E v) ∨
     (ok = true ∧ present (E v) = false ∧ ∃ E', pd_rel g pd (E', O) ∧ maps_more v (v + 1) E E' ∧
      user_bytes (pmem g) E' (upage e) 4096 (writable e) byte)).
Proof.
  intros Hok He Heo Hi Hx HR Hb v. pose proof HR as [[T HT] _]. cbn in HT.
  destruct (frame_install_ok s a e E k _ He Heo (proj1 Hi) Hx eq_refl HR) as (ok & g & Hg & Hint & Hcase).
  rewrite (st_bind_ret _ _ _ _ _ Hg).
  assert (intact E O (pmem (vpg s)) (pmem g)) as Hint' by (intros c y Hc; apply Hint; destruct Hc; [left; by right|by right]).
  destruct Hcase as [(-> & HR1 & Hun)|(-> & Hn & HR1)].
  - rewrite (st_bind_ret _ _ _ _ _ (frame_get_run (with_vpg g s) a e Hok He Hi)).
    rewrite (st_bind_ret _ _ _ _ _ (get_ft_run (with_vpg g s) (idx e) _ (proj1 Hi) Hx)). cbn [p_addr].
    pose proof HR1 as [[T1 HT1] _]. cbn in HT1. destruct (give_page _ _ _ _ _ _ HT1) as (g2 & Hr & E1 & E2 & HT2 & Ho).
    rewrite (st_bind_ret _ _ _ _ _ (on_mem_run _ (with_vpg g s) tt g2 Hr)). exists false, g2. split; [done|]. split.
    + eapply intact_trans; [exact Hint'|apply (maps_more_refl v v)|]. by eapply only_page_intact.
    + left. split; [done|]. split; [by eapply pd_rel_same|done].
  - exists true, g. split; [done|]. split; [done|]. right. split; [done|]. split; [done|]. eexists. split; [exact HR1|].
    split; [by apply maps_more_insert|]. eapply mapped_page; [|apply Heo|reflexivity|exact Hint|exact Hb].
    eapply holds_block; [exact (r_holds _ _ _ _ _ HT)|]. apply elem_of_app. right. by left.
Qed.

Lemma frame_obtain_ok fuel s a e E i0 :
  frames_ok s → entries s !! a = Some e → entry_ok e → pd_rel (vpg s) pd (E, O) → free_frame s i0 →
  ∃ r s', frame_obtain init_page_dir init_ram_pages file_read_at file_write_at fuel a s = Ret (r, s') ∧ frames_ok s' ∧ only_frames s s' ∧
    obtained s a e E r s'.
Proof.
  intros Hok He Heo HR Hfree. unfold frame_obtain. erewrite st_bind_ret by reflexivity.
  destruct (take_frame s a e i0 Hok He Hfree) as (i & b & Hi & Hscan & Hwb & Hcb & Hne & Hbit).
  rewrite (liftS_bind_ret _ _ _ _ Hscan). erewrite st_bind_ret by reflexivity.
  rewrite (st_bind_ret _ _ _ _ _ (upd_spe_run (set_used b s) a e _ He)). rewrite Hne. erewrite st_bind_ret by reflexivity.
  set (e1 := set_idx i e). set (s1 := set_entries _ _). pose proof Hi as [Hi1 Hi2]. pose proof Hok as [Hw Hl].
  assert (entries s1 !! a = Some e1) as He1 by apply lookup_insert_eq.
  assert (frames_ok s1) as Hok1 by (split; cbn; [done|lia]).
  rewrite (st_bind_ret _ _ _ _ _ (frame_get_run s1 a e1 Hok1 He1 ltac:(cbn; lia))). cbn [idx e1 set_idx].
  destruct (frame_page_ok fuel s1 a e1 E He1 (entry_ok_idx i e Heo) HR) as (r & g & Hpage & Hres).
  destruct (frame_slot s1 i Hok1) as [x Hx]; [cbn; lia|].
  unfold frame_fetch. destruct r as [[k|]|].
  - destruct Hres as (Hk0 & Hgr & HR' & Hint & Hby). set (s2 := set_ft (<[Z.to_nat i := FtEntry k (user x)]> (ft s1)) (with_vpg g s1)).
    rewrite (st_bind_ret _ _ _ (Some true) s2); cycle 1.
    { rewrite (st_bind_ret _ _ _ _ _ Hpage). cbn iota. rewrite (st_bind_ret _ _ _ _ _ (get_spe_run (with_vpg g s1) a e1 He1)).
      rewrite (st_bind_ret _ _ _ _ _ (upd_ft_run (with_vpg g s1) i x _ (proj1 Hi1) Hx)). done. }
    assert (frames_ok s2) as Hok2 by (split; cbn; [done|rewrite length_insert; cbn; lia]).
    assert (ft s2 !! Z.to_nat i = Some (FtEntry k (user x))) as Hx2.
    { apply list_lookup_insert_eq. by eapply lookup_lt_Some. }
    destruct (map_frame_ok s2 a e1 E k (user x) (page_byte (files s) e) Hok2 He1 (entry_ok_idx i e Heo)) as (ok & g2 & Hm & Hint2 & Hcase);
      [cbn; lia|done|done|exact Hby|]. cbn iota. rewrite (st_bind_ret _ _ _ _ _ Hm).
    assert (intact E O (pmem (vpg s)) (pmem g2)) as Hint3 by (eapply intact_trans; [exact Hint|apply (maps_more_refl 0 0)|exact Hint2]).
    destruct Hcase as [(-> & HR2 & Hun)|(-> & Hn & E' & HR2 & Hmm & Hub)].
    + destruct (release_frame (with_vpg g2 s2) a e1 Hok2 He1) as (b' & Hr & Hwb' & Hc' & Hbit'); [cbn; lia|].
      rewrite (st_bind_ret _ _ _ _ _ Hr). eexists _, _. split; [reflexivity|].
      split; [split; cbn in *; [done|rewrite length_insert; lia]|]. split; [split_and!; cbn in *; congruence|]. split; [done|].
      split; [right; by exists k, g|]. split_and!; [|done|].
      * intros j Hj. cbn. rewrite Hbit', Hbit by done. cbn. destruct (Z.eqb_spec j i) as [->|]; [by rewrite Hi2|done].
      * cbn. by rewrite insert_insert_eq.
    + rewrite (st_bind_ret _ _ _ _ _ (upd_ft_run (with_vpg g2 s2) i _ _ (proj1 Hi1) Hx2)). eexists _, _. split; [reflexivity|].
      split; [split; cbn in *; [done|rewrite !length_insert; lia]|]. split; [by split_and!|]. split; [done|].
      exists i, k, E'. split_and!; try done. cbn. by rewrite list_insert_insert_eq.
  - erewrite st_bind_ret; [|rewrite (st_bind_ret _ _ _ _ _ Hpage); reflexivity]. cbn iota. erewrite st_bind_ret by reflexivity. cbn iota.
    destruct (release_frame (with_vpg g s1) a e1 Hok1 He1) as (b' & Hr & Hwb' & Hc' & Hbit'); [cbn; lia|].
    rewrite (st_bind_ret _ _ _ _ _ Hr). eexists _, _. split; [reflexivity|]. destruct Hres as (Hgr & HR' & Hint).
    split; [split; cbn in *; [done|lia]|]. split; [split_and!; cbn in *; congruence|]. split; [done|]. split; [by left|]. split_and!; [|done|].
    + intros j Hj. cbn. rewrite Hbit', Hbit by done. cbn. destruct (Z.eqb_spec j i) as [->|]; [by rewrite Hi2|done].
    + cbn. by rewrite insert_insert_eq.
  - destruct Hres as (k & HR' & Hint & Hshort).
    erewrite st_bind_ret; [|rewrite (st_bind_ret _ _ _ _ _ Hpage); reflexivity]. eexists _, _. split; [reflexivity|].
    split; [done|]. split; [by split_and!|]. split; [done|]. exists i, k. by split_and!.
Qed.

(** ** Lazy segments *)

(** An entry whose key members stay may be changed. *)
Lemma table_ok_upd s a e e' : table_ok s → entries s !! a = Some e → upage e' = upage e → sp_tid e' = sp_tid e →
  table_ok (set_entries (<[a := e']> (entries s)) s).
Proof.
  intros [Hw Hs Hn Hk Hl Hnd] He Eu Et.
  assert (∀ b x, entries s !! b = Some x → ∃ x', <[a := e']> (entries s) !! b = Some x' ∧ upage x' = upage x ∧ sp_tid x' = sp_tid x) as Hupd.
  { intros b x Hb. destruct (decide (b = a)) as [->|]; [exists e'; rewrite lookup_insert_eq; split; [done|]; simplify_eq; done|].
    exists x. by rewrite lookup_insert_ne. }
  split; cbn; [done|done| | | |done].
  - rewrite lookup_insert_ne; [done|]. congruence.
  - intros k Hin. destruct (Hk k Hin) as (? & x & Hx & E1 & E2). split; [done|]. destruct (Hupd _ _ Hx) as (x' & ? & ? & ?). exists x'. split_and!; congruence.
  - intros tid b Hb. destruct (Hl tid b Hb) as (x & Hx & E1). destruct (Hupd _ _ Hx) as (x' & ? & ? & ?). exists x'. split_and!; congruence.
Qed.

(** The entry for the page of a segment at [off], of whose bytes from there on
    [rd] are in the file. *)
Definition lazy_entry (tid file ofs up rd : Z) (wr : bool) : sp_entry :=
  let r := if rd <? PGSIZE then rd else PGSIZE in
  SpEntry file SIZE_MAX FILESYSTEM r (PGSIZE - r) ofs wr up tid pd SIZE_MAX.

Definition fresh_from (addr : Z → Z) s (k n : Z) : Prop :=
  (∀ i, k ≤ i < n → addr i ≠ 0 ∧ entries s !! addr i = None) ∧ (∀ i j, k ≤ i < n → k ≤ j < n → addr i = addr j → i = j).

Lemma lazy_page_ok s mem a tid file ofs up rd wr :
  table_ok s → a ≠ 0 → entries s !! a = None → Z.of_nat (length (elements (sp_table s))) + 2 < 2 ^ 32 → entry_for s tid up = None →
  ∃ s', (a ← page_supp_alloc mem a tid pd up;
         upd_spe a (λ e, let r := if rd <? PGSIZE then rd else PGSIZE in
                         SpEntry file (idx e) FILESYSTEM r (PGSIZE - r) ofs wr up (sp_tid e) (sp_pagedir e) (swap_sector e))) s = Ret (tt, s') ∧
    table_ok s' ∧ only_table s s' ∧ entries s' = <[a := lazy_entry tid file ofs up rd wr]> (entries s) ∧
    (length (elements (sp_table s')) ≤ S (length (elements (sp_table s))))%nat ∧
    ∀ t v, entry_for s' t v = if decide (t = tid ∧ v = up) then Some a else entry_for s t v.
Proof.
  intros Ht Ha Hfr Hlen Hno. destruct (page_supp_alloc_ok s mem a tid pd up Ht Ha Hfr Hlen) as (s1 & Hr & Ht1 & Ho & He & Hl1 & _ & Hf).
  rewrite (st_bind_ret _ _ _ _ _ Hr). assert (entries s1 !! a = Some (fresh_entry tid pd up)) as Hea by (rewrite He; apply lookup_insert_eq).
  rewrite (upd_spe_run _ _ _ _ Hea). eexists. split; [reflexivity|]. split; [by eapply table_ok_upd|]. split; [done|]. split_and!.
  - cbn. rewrite He, insert_insert_eq. done.
  - done.
  - intros t v. transitivity (entry_for s1 t v); [done|]. rewrite Hf, Hno. repeat case_decide; naive_solver.
Qed.

Lemma load_segment_vm_loop_ok mem addr tid file ofs wr n : ∀ fuel s up rd zero k,
  (n < fuel)%nat → table_ok s → 0 ≤ up → up + (rd + zero) < 2 ^ 32 → 0 ≤ rd → 0 ≤ zero → rd + zero = 4096 * Z.of_nat n → 0 ≤ k →
  Z.of_nat (length (elements (sp_table s)) + n) + 1 < 2 ^ 32 → 0 ≤ ofs → ofs + 4096 * (k + Z.of_nat n) < 2 ^ 32 →
  fresh_from addr s k (k + Z.of_nat n) → (∀ j, 0 ≤ j < Z.of_nat n → entry_for s tid (up + 4096 * j) = None) →
  ∃ s', load_segment_vm_loop fuel mem addr tid pd file ofs up rd zero wr k s = Ret (true, s') ∧ table_ok s' ∧ only_table s s' ∧
    (∀ j, 0 ≤ j < Z.of_nat n → entry_for s' tid (up + 4096 * j) = Some (addr (k + j)) ∧
      entries s' !! addr (k + j) = Some (lazy_entry tid file (ofs + 4096 * (k + j)) (up + 4096 * j) (Z.max 0 (rd - 4096 * j)) wr)) ∧
    (∀ t v, ¬ (t = tid ∧ up ≤ v < up + 4096 * Z.of_nat n) → entry_for s' t v = entry_for s t v) ∧
    (∀ b, (∀ j, k ≤ j < k + Z.of_nat n → b ≠ addr j) → entries s' !! b = entries s !! b).
Proof.
  induction n as [|n IH]; intros [|fuel] s up rd zero k Hfuel Ht Hu Hend Hrd Hz Hsum Hk Hlen Ho Hoe [Hfr Hinj] Hno; [lia| |lia|].
  { assert (rd = 0 ∧ zero = 0) as [-> ->] by lia. exists s. cbn [load_segment_vm_loop]. split; [done|]. split_and!; try done. lia. }
  cbn [load_segment_vm_loop]. change PGSIZE with 4096. set (r := if rd <? 4096 then rd else 4096).
  assert (0 ≤ r ≤ 4096 ∧ 4096 - r ≤ zero ∧ r ≤ rd ∧ (r = rd ∨ r = 4096)) as (Hr & Hrz & Hrr & Hrc).
  { unfold r. destruct (Z.ltb_spec rd 4096); lia. }
  assert ((0 <? rd) || (0 <? zero) = true) as -> by (apply orb_true_iff; rewrite !Z.ltb_lt; lia).
  destruct (Hfr k) as [Ha Hea]; [lia|].
  destruct (lazy_page_ok s mem (addr k) tid file (ofs + 4096 * k) up rd wr) as (s1 & Hs1 & Ht1 & Ho1 & He1 & Hl1 & Hf1); [done|done|done|lia| |].
  { specialize (Hno 0 ltac:(lia)). by rewrite Z.mul_0_r, Z.add_0_r in Hno. }
  rewrite (st_bind_ret2 (page_supp_alloc mem (addr k) tid pd up) _ _ s tt s1).
  2: { rewrite u32_id by lia. rewrite (Z.mul_comm k 4096). exact Hs1. }
  rewrite !u32_id by lia.
  destruct (IH fuel s1 (up + 4096) (rd - r) (zero - (4096 - r)) (k + 1)) as (s' & Hs' & Ht' & Ho' & Hj' & Hf' & Hb');
    [lia|done|lia|lia|lia|lia|lia|lia|lia|lia|lia| | |].
  { split; [|intros i j Hi Hj; apply Hinj; lia]. intros i Hi. destruct (Hfr i) as [? ?]; [lia|]. split; [done|].
    rewrite He1, lookup_insert_ne; [done|]. intros E. apply Hinj in E; lia. }
  { intros j Hj. rewrite Hf1, decide_False by lia. replace (up + 4096 + 4096 * j) with (up + 4096 * (j + 1)) by lia. apply Hno. lia. }
  exists s'. split; [exact Hs'|]. split; [done|]. split; [by eapply only_table_trans|]. split_and!.
  - intros j Hj. destruct (decide (j = 0)) as [->|Hj0].
    + rewrite Z.mul_0_r, !Z.add_0_r, Z.sub_0_r, Z.max_r by lia. rewrite Hf' by lia. rewrite Hf1, decide_True by done. split; [done|].
      rewrite Hb'; [by rewrite He1, lookup_insert_eq|]. intros i Hi E. apply Hinj in E; lia.
    + destruct (Hj' (j - 1)) as [H1 H2]; [lia|]. replace (up + 4096 + 4096 * (j - 1)) with (up + 4096 * j) in * by lia.
      replace (k + 1 + (j - 1)) with (k + j) in * by lia. split; [done|]. rewrite H2. do 2 f_equal. lia.
  - intros t v Hn. rewrite Hf' by lia. rewrite Hf1, decide_False by lia. done.
  - intros b Hb. rewrite Hb' by (intros j Hj; apply Hb; lia). rewrite He1, lookup_insert_ne; [done|]. intros E. symmetry in E. revert E. apply Hb. lia.
Qed.
End spec.
