(* ===== verification/VmFaults.v ===== *)
(** * Page faults, and where virtual memory fails

    What the page fault handler of [Vm] does with a page that has an entry and
    with one that has none, what lazy loading enters, and three ways in which virtual memory stops the
    kernel: a page that is read back from swap, the frames of a process that is
    gone, and a stack page that could not be set up. *)

From stdpp Require Import functions.
From stdpp Require Import base tactics list numbers option sets gmap fin_maps.
From Stdlib Require Import ZArith Lia.
From S2P Require Import Prelude Bitmap Vaddr Palloc PageAlloc Hash Pagedir PagedirSpec PagedirRefine Load LoadSpec Block Random UserMem Vm VmSpec.

Section table.
Context {P : Type} `{!PageAllocator P} {F : Type}.
Implicit Types s : vmstate (P := P) (F := F).

(** C22: the supplemental page table is a map from threads and pages to entries:
    [page_find] looks a page up; [page_supp_alloc] adds the page, unless it is
    there already; and [page_supp_destroy] returns and takes out exactly the
    pages of the thread and frees their entries, although the function that
    compares entries is not an order. *)
Theorem supplemental_table_is_map s mem a tid pd up fuel :
  table_ok s → a ≠ 0 → entries s !! a = None → Z.of_nat (length (elements (sp_table s))) + 2 < 2 ^ 32 →
  page_find tid up s = Ret (default 0 (entry_for s tid up), s) ∧
  (∃ s', page_supp_alloc mem a tid pd up s = Ret (a, s') ∧ table_ok s' ∧ only_table s s' ∧
    ∀ t v, entry_for s' t v = if decide (t = tid ∧ v = up ∧ entry_for s tid up = None) then Some a else entry_for s t v) ∧
  ((∀ b e, b ∈ spe_list s tid → entries s !! b = Some e → location e ≠ SWAPPED) → (length (spe_list s tid) ≤ fuel)%nat →
   ∃ s', page_supp_destroy fuel mem tid s = Ret (tt, s') ∧ table_ok s' ∧ only_table s s' ∧
     (∀ b, entries s' !! b = if decide (b ∈ spe_list s tid) then None else entries s !! b) ∧
     ∀ t v, entry_for s' t v = if decide (t = tid) then None else entry_for s t v).
Proof.
  intros Ht Ha Hfr Hlen. split; [by apply page_find_ok|]. split.
  - destruct (page_supp_alloc_ok s mem a tid pd up Ht Ha Hfr Hlen) as (s' & Hr & Ht' & Ho & _ & _ & _ & Hf). by exists s'.
  - intros Hsw Hl. destruct (page_supp_destroy_ok mem tid fuel s Ht Hl Hsw) as (s' & Hr & Ht' & Ho & _ & He & _ & Hf). by exists s'.
Qed.

(** ** Frames of processes that are gone *)

Lemma get_ft_out s i : ¬ 0 ≤ i < Z.of_nat (length (ft s)) → get_ft i s = Panic.
Proof.
  intros Hi. unfold get_ft, mbind, st_bind, assertS, gets. destruct (Z.leb_spec 0 i) as [H|]; [|done].
  rewrite lookup_ge_None_2; [done|lia].
Qed.

Lemma get_spe_gone s a : entries s !! a = None → get_spe a s = Panic.
Proof. intros E. unfold get_spe, mbind, st_bind, gets. by rewrite E. Qed.

Context (file_write_at : F → Z → list Z → Z → F).

(** When a process exits, its frames stay marked as used in the frame table,
    with pointers to entries that have been freed: no frame is ever given back,
    and once none is free, evicting such a frame, or one outside of the table,
    which the random number allows, stops the kernel. *)
Theorem exited_frames_stay s mem tid fuel :
  table_ok s → (length (spe_list s tid) ≤ fuel)%nat →
  (∀ b e, b ∈ spe_list s tid → entries s !! b = Some e → location e ≠ SWAPPED) →
  ∃ s', page_supp_destroy fuel mem tid s = Ret (tt, s') ∧ used_map s' = used_map s ∧ ft s' = ft s ∧ vpg s' = vpg s ∧
    let i := s32 (random_ulong (prng s')).1 in
    (∀ x, ft s !! Z.to_nat i = Some x → user x ∈ spe_list s tid → frame_evict file_write_at s' = Panic) ∧
    (¬ 0 ≤ i < Z.of_nat (length (ft s)) → frame_evict file_write_at s' = Panic).
Proof.
  intros Ht Hl Hsw. destruct (page_supp_destroy_ok mem tid fuel s Ht Hl Hsw) as (s' & Hr & _ & (Hg & Hf & Hu & _) & _ & He & _).
  exists s'. split_and!; [done..|]. intros i. unfold frame_evict. erewrite st_bind_ret by reflexivity.
  destruct (random_ulong (prng s')) as [r g]. cbn [fst] in i. erewrite st_bind_ret by reflexivity. fold i.
  assert (¬ 0 ≤ i < Z.of_nat (length (ft s)) → get_ft i (set_prng g s') = Panic) as Hout by (intros Hi; apply get_ft_out; cbn; by rewrite Hf).
  split; [|by intros Hi; apply st_bind_panic, Hout]. intros x Hx Hin.
  destruct (decide (0 ≤ i)) as [Hi|Hi]; [|apply st_bind_panic, Hout; lia].
  rewrite (st_bind_ret _ _ _ _ _ (get_ft_run (set_prng g s') i x Hi ltac:(cbn; by rewrite Hf))). apply st_bind_panic, get_spe_gone.
  cbn. by rewrite He, decide_True.
Qed.
End table.

(** ** Page faults *)

Section faults.
Context {P : Type} `{!PageAllocator P} {F : Type}.
Context (init_page_dir init_ram_pages : Z).
Context (file_read_at : F → Z → Z → Z → list Z) (file_write_at : F → Z → list Z → Z → F).
Context (contents : F → Z → list Z).
Implicit Types s : vmstate (P := P) (F := F).

Abbreviation fault := (page_fault_vm init_page_dir init_ram_pages file_read_at file_write_at).

(** The stack pointer is in a page that is mapped. *)
Definition esp_mapped (E : Z → option Z) (esp : Z) : Prop := user_addr esp ∧ present (E (page_no esp)) = true.

Lemma validate_mapped s pd O E mem a tid esp :
  pd_rel (vpg s) pd (E, O) → esp_mapped E esp → validate_on_stack mem a tid pd esp s = Ret (true, s).
Proof.
  intros [[T HT] _] [Hu Hp]. cbn in HT. unfold validate_on_stack.
  rewrite (st_bind_ret _ _ _ _ _ (on_mem_run _ s _ _ (get_page_run _ _ _ _ _ _ HT Hu))).
  unfold present, flag_in in Hp. destruct (E (page_no esp)) as [w|] eqn:HE; [|done]. rewrite Hp.
  destruct (user_addr_page esp Hu) as (Hv & _).
  pose proof (frame_block _ _ _ _ _ _ _ HT Hv HE Hp) as (_ & _ & Hb & _). cbn in Hb.
  rewrite (proj2 (Z.eqb_neq _ _)); [by destruct s|]. unfold PHYS_BASE in Hb. zlia.
Qed.

(** What the handler makes of the result of [frame_obtain]. *)
Definition fault_result (cs : Z) (r : option bool) s : outcome (fault_end * vmstate (P := P) (F := F)) :=
  match r with
  | Some true => Ret (Resumed, s)
  | Some false => kill_thread cs s
  | None => Ret (Left, s)
  end.

Lemma fetch_page_run fuel cs tid fault_addr s a r s' :
  table_ok s → entry_for s tid (pg_round_down fault_addr) = Some a →
  frame_obtain init_page_dir init_ram_pages file_read_at file_write_at fuel a s = Ret (r, s') →
  fetch_page init_page_dir init_ram_pages file_read_at file_write_at fuel cs tid fault_addr s = fault_result cs r s'.
Proof.
  intros Ht Ha Hr. unfold fetch_page. rewrite (st_bind_ret _ _ _ _ _ (page_find_ok s tid _ Ht)), Ha. cbn [default].
  rewrite (st_bind_ret _ _ _ _ _ Hr). by destruct r as [[]|].
Qed.

(** C17: a fault at a user address above the first page, in a page that the
    process has an entry for and that is not in swap, of the process with a
    stack pointer in a mapped page, or of the kernel on its behalf, while the
    frame table has a free frame, so that nothing is evicted.  The handler
    returns, and the access is repeated with the page mapped, writable exactly if
    the entry says so and with the contents the entry describes, bytes of its
    file followed by zeros; nothing else has changed.  It fails only if the page
    allocator has no page for the frame or for the page table it needs, or the
    page is mapped already, and then the frame is free again and nothing is
    mapped; with a file that is too short nothing is mapped either, but frame
    and page are not given back. *)
Theorem demand_paging_correct fuel mem a1 a2 cs esp tid pd fault_addr write from_user s a e E O i0 :
  (∀ fs f, file_contract (contents fs f) (file_read_at fs f)) →
  (∀ p A b, holds (P := P) p A → b ∈ A → (b.1 - PHYS_BASE) / 4096 < init_ram_pages) → pd ≠ init_page_dir →
  table_ok s → frames_ok s → entry_for s tid (pg_round_down fault_addr) = Some a → entries s !! a = Some e → entry_ok pd e →
  pd_rel (vpg s) pd (E, O) → free_frame s i0 → PGSIZE ≤ fault_addr < PHYS_BASE → (from_user = true → esp_mapped E esp) →
  ∃ r s', fault fuel mem a1 a2 cs esp tid pd fault_addr write from_user s = fault_result cs r s' ∧
    frames_ok s' ∧ only_frames s s' ∧ obtained file_read_at contents pd O s a e E r s'.
Proof.
  intros Hfile Hram Hinit Ht Hok Ha He Heo HR Hfree Hfa Hesp.
  destruct (frame_obtain_ok init_page_dir init_ram_pages file_read_at file_write_at contents pd O Hfile Hram Hinit fuel s a e E i0 Hok He Heo HR Hfree)
    as (r & s' & Hr & Hok' & Hof & Hob).
  exists r, s'. split; [|done]. pose proof (fetch_page_run fuel cs tid fault_addr s a r s' Ht Ha Hr) as Hfetch.
  unfold page_fault_vm. rewrite (proj2 (Z.ltb_ge _ _)) by lia. destruct from_user; [|done].
  assert (is_user_vaddr fault_addr = true) as -> by (apply Z.ltb_lt; lia). cbn [negb].
  rewrite (st_bind_ret _ _ _ _ _ (validate_mapped s pd O E mem a1 tid esp HR (Hesp eq_refl))). cbn [negb].
  rewrite (st_bind_ret _ _ _ _ _ (page_find_ok s tid _ Ht)), Ha. change (default 0 (Some a)) with a.
  rewrite (proj2 (Z.eqb_neq a 0)); [done|]. intros ->. pose proof (to_null _ Ht). congruence.
Qed.

(** The signed comparison of the distance from the top of user memory. *)
Lemma stack_distance fault_addr : PGSIZE ≤ fault_addr < PHYS_BASE →
  (STACK_LIMIT <? s32 (PHYS_BASE - fault_addr)) = (2 ^ 30 <? fault_addr) && (fault_addr <? PHYS_BASE - STACK_LIMIT).
Proof.
  unfold s32, STACK_LIMIT. change PHYS_BASE with 0xc0000000. change PGSIZE with 4096. intros Hfa.
  destruct (Z.ltb_spec (2 ^ 30) fault_addr).
  - rewrite Z.mod_small by lia. destruct (Z.ltb_spec fault_addr (0xc0000000 - 0x800000)); [apply Z.ltb_lt|apply Z.ltb_ge]; lia.
  - rewrite <-(Zdiv.Zmod_unique (0xc0000000 - fault_addr + 2 ^ 31) (2 ^ 32) 1 (0xc0000000 - fault_addr - 2 ^ 31)) by lia. apply Z.ltb_ge. lia.
Qed.

Lemma upd_spe_id s a e f : entries s !! a = Some e → f e = e → upd_spe a f s = Ret (tt, s).
Proof. intros He Hf. rewrite (upd_spe_run s a e f He), Hf, insert_id by done. by destruct s. Qed.

(** A store of the process to a page it has no entry for is taken for growth
    of the stack, and gets a page of zeros, both in the 8 MB below [PHYS_BASE] and
    below 1 GB, where the distance from [PHYS_BASE] is negative as a signed
    number; between them the process is killed. *)
Theorem stack_growth fuel mem a1 a2 cs esp tid pd fault_addr s E O i0 :
  (∀ fs f, file_contract (contents fs f) (file_read_at fs f)) →
  (∀ p A b, holds (P := P) p A → b ∈ A → (b.1 - PHYS_BASE) / 4096 < init_ram_pages) → pd ≠ init_page_dir →
  table_ok s → frames_ok s → entry_for s tid (pg_round_down fault_addr) = None → a2 ≠ 0 → entries s !! a2 = None →
  Z.of_nat (length (elements (sp_table s))) + 2 < 2 ^ 32 → pd_rel (vpg s) pd (E, O) → free_frame s i0 →
  PGSIZE ≤ fault_addr < PHYS_BASE → esp_mapped E esp →
  (2 ^ 30 < fault_addr < PHYS_BASE - STACK_LIMIT → fault fuel mem a1 a2 cs esp tid pd fault_addr true true s = kill_thread cs s) ∧
  (fault_addr ≤ 2 ^ 30 ∨ PHYS_BASE - STACK_LIMIT ≤ fault_addr →
   ∃ r s', fault fuel mem a1 a2 cs esp tid pd fault_addr true true s = fault_result cs r s' ∧ r ≠ None ∧
     (r = Some false → pd_rel (vpg s') pd (E, O)) ∧
     (r = Some true → ∃ E', pd_rel (vpg s') pd (E', O) ∧
        user_bytes (pmem (vpg s')) E' (pg_round_down fault_addr) 4096 true (λ _, 0))).
Proof.
  intros Hfile Hram Hinit Ht Hok Hno Ha Hfr Hlen HR Hfree Hfa Hesp. unfold page_fault_vm. rewrite (proj2 (Z.ltb_ge _ _)) by lia.
  assert (is_user_vaddr fault_addr = true) as -> by (apply Z.ltb_lt; lia). cbn [negb].
  rewrite (st_bind_ret _ _ _ _ _ (validate_mapped s pd O E mem a1 tid esp HR Hesp)). cbn [negb].
  rewrite (st_bind_ret _ _ _ _ _ (page_find_ok s tid _ Ht)), Hno. change (default 0 None =? 0) with true. cbn iota.
  assert ((STACK_LIMIT <? s32 (PHYS_BASE - fault_addr)) = (2 ^ 30 <? fault_addr) && (fault_addr <? PHYS_BASE - STACK_LIMIT)) as ->.
  { by apply stack_distance. }
  split; [intros Hmid; by rewrite (proj2 (Z.ltb_lt _ _)), (proj2 (Z.ltb_lt _ _)) by lia|]. intros Hgrow.
  replace ((2 ^ 30 <? fault_addr) && (fault_addr <? PHYS_BASE - STACK_LIMIT)) with false by (symmetry; apply andb_false_iff; rewrite !Z.ltb_ge; lia).
  rewrite andb_false_r.
  destruct (page_supp_alloc_ok s mem a2 tid pd (pg_round_down fault_addr) Ht Ha Hfr Hlen) as (s1 & Hs1 & Ht1 & Ho1 & He1 & _ & _ & Hf1).
  rewrite (st_bind_ret _ _ _ _ _ Hs1). pose proof Ho1 as (Eg & Ef & Eu & _ & _ & _ & _ & Efs).
  assert (entries s1 !! a2 = Some (fresh_entry tid pd (pg_round_down fault_addr))) as Hea by (rewrite He1; apply lookup_insert_eq).
  rewrite (st_bind_ret _ _ _ _ _ (upd_spe_id s1 a2 _ zero_entry Hea eq_refl)).
  assert (pg_round_down fault_addr = fault_addr / 4096 * 4096) as Erd by (change PGSIZE with 4096 in Hfa; apply pg_round_down_div; unfold addr, PHYS_BASE in *; lia).
  destruct (frame_obtain_ok init_page_dir init_ram_pages file_read_at file_write_at contents pd O Hfile Hram Hinit fuel s1 a2
    (fresh_entry tid pd (pg_round_down fault_addr)) E i0) as (r & s' & Hr & _ & _ & Hi & Hob); [by unfold frames_ok; rewrite Ef, Eu|exact Hea| |by rewrite Eg|by unfold free_frame; rewrite Eu|].
  { split; cbn; [unfold user_addr; change PGSIZE with 4096 in Hfa; rewrite Erd; zlia|rewrite Erd; zlia|done..]. }
  exists r, s'. split; [eapply fetch_page_run; [done| |exact Hr]; rewrite Hf1, decide_True by done; done|].
  split; [destruct r; [done|]; destruct Hob as (? & ? & _ & _ & _ & _ & Hs); cbn in Hs; lia|].
  split; [intros ->; apply Hob|]. intros ->. destruct Hob as (i & k & E' & _ & _ & _ & _ & HR' & _ & _ & Hub). by exists E'.
Qed.

End faults.

(** ** Lazy loading *)

Section lazy.
Context {P : Type} {F : Type}.
Context (contents : F → Z → list Z).
Implicit Types s : vmstate (P := P) (F := F).

(** Loading a segment lazily only enters its pages in the table, and the
    entries describe exactly the pages that loading it at once would map: [rd]
    bytes of the file from [ofs] on and zeros behind them. *)
Theorem lazy_segment_correct mem addr tid pd file ofs up rd zero wr s n fs :
  table_ok s → 0 ≤ up → up mod 4096 = 0 → up + (rd + zero) ≤ PHYS_BASE → 0 ≤ rd → 0 ≤ zero → rd + zero = 4096 * Z.of_nat n →
  0 ≤ ofs → ofs + (rd + zero) < 2 ^ 32 → ofs mod 4096 = 0 → Z.of_nat (length (elements (sp_table s)) + n) + 1 < 2 ^ 32 →
  fresh_from addr s 0 (Z.of_nat n) → (∀ j, 0 ≤ j < Z.of_nat n → entry_for s tid (up + 4096 * j) = None) →
  ∃ s', load_segment_vm mem addr tid pd file ofs up rd zero wr s = Ret (true, s') ∧ table_ok s' ∧ only_table s s' ∧
    ∀ j, 0 ≤ j < Z.of_nat n → ∃ a e, entry_for s' tid (up + 4096 * j) = Some a ∧ entries s' !! a = Some e ∧ entry_ok pd e ∧
      writable e = wr ∧ ∀ i, 0 ≤ i < 4096 → page_byte contents fs e i = segment_byte (contents fs file) rd ofs (4096 * j + i).
Proof.
  intros Ht Hu Ha Hend Hrd Hz Hsum Hof Hoe Hoa Hlen Hfr Hno. unfold load_segment_vm, pg_ofs, PHYS_BASE in *.
  change PGSIZE with 4096. rewrite u32_id by lia. change PGMASK with (Z.ones 12).
  rewrite Z.land_ones, Z.rem_mod_nonneg by lia. change (2 ^ 12) with 4096.
  assert ((rd + zero) mod 4096 = 0) as -> by zlia. rewrite Ha, Hoa. cbn [Z.eqb]. do 3 (erewrite st_bind_ret by reflexivity).
  assert ((rd + zero) / 4096 = Z.of_nat n) as -> by zlia. rewrite Nat2Z.id.
  destruct (load_segment_vm_loop_ok pd mem addr tid file ofs wr n (S n) s up rd zero 0) as (s' & Hr & Ht' & Ho & Hj & _);
    [lia|done|lia|lia|lia|lia|lia|lia|lia|lia|lia|done|done|].
  exists s'. split_and!; [done..|]. intros j Hj'. destruct (Hj j Hj') as [H1 H2]. rewrite Z.add_0_l in *. eexists _, _. split_and!; [done|done| |done|].
  - split; cbn; [unfold user_addr, PHYS_BASE; lia|zlia|done|done|]. intros _. change PGSIZE with 4096.
    destruct (Z.ltb_spec (0 `max` (rd - 4096 * j)) 4096); lia.
  - intros i Hi. unfold page_byte, lazy_entry, segment_byte. cbn. change PGSIZE with 4096.
    destruct (Z.ltb_spec (0 `max` (rd - 4096 * j)) 4096), (Z.ltb_spec (4096 * j + i) rd);
      [rewrite (proj2 (Z.ltb_lt _ _)) by lia|rewrite (proj2 (Z.ltb_ge _ _)) by lia|rewrite (proj2 (Z.ltb_lt _ _)) by lia|lia]; try done; f_equal; lia.
Qed.
End lazy.

(** ** Ways to stop the kernel *)

Section stops.
Context {P : Type} `{!PageAllocator P} {F : Type}.
Context (init_page_dir init_ram_pages : Z).
Context (file_read_at : F → Z → Z → Z → list Z) (file_write_at : F → Z → list Z → Z → F).
Implicit Types s : vmstate (P := P) (F := F).

Lemma block_read_past fuel (s : bstate) b x k : all_blocks s !! b = Some x → b_size x ≤ k → block_read (S fuel) b k s = Panic.
Proof.
  intros Hb Hk. cbn [block_read]. rewrite (st_bind_ret _ _ _ x s) by (unfold get_block; by rewrite Hb).
  apply st_bind_panic. unfold check_sector. by rewrite (proj2 (Z.leb_le _ _) Hk).
Qed.

(** The loop reads on until it is past the end of the device. *)
Lemma swap_read_loop_panics a kpage n : ∀ fuel s e x cur,
  entries s !! a = Some e → devs_ok (all_blocks (devs s)) → all_blocks (devs s) !! swap_block s = Some x → b_size x < 2 ^ 31 →
  0 ≤ swap_sector e < 2 ^ 32 → 0 ≤ cur ≤ b_size x → cur < 2 ^ 31 → b_size x ≤ swap_sector e + cur + Z.of_nat n → swap_sector e + cur < 2 ^ 32 →
  (n < fuel)%nat → swap_read_loop fuel cur a kpage s = Panic.
Proof.
  induction n as [|n IH]; intros [|fuel] s e x cur He Hd Hx Hsz Hse Hc Hc31 Hn H32 Hf; try lia;
    cbn [swap_read_loop]; rewrite (st_bind_ret _ _ _ _ _ (get_spe_run s a e He)); do 2 (erewrite st_bind_ret by reflexivity); rewrite u32_id by lia.
  - apply st_bind_panic. unfold on_devs. by erewrite block_read_past by (done || lia).
  - destruct (decide (b_size x ≤ swap_sector e + cur)) as [Hpast|Hin].
    { apply st_bind_panic. unfold on_devs. by erewrite block_read_past by (done || lia). }
    assert (swap_block s < S (length (all_blocks (devs s))))%nat as Hlt by (apply lookup_lt_Some in Hx; lia).
    destruct (block_read_ok _ (devs s) (swap_block s) x (swap_sector e + cur) Hd Hx ltac:(lia) Hlt) as (d & k & d' & _ & Hr & Hsame & _).
    erewrite st_bind_ret by (unfold on_devs; by rewrite Hr). erewrite st_bind_ret by reflexivity.
    destruct (same_dev _ _ (swap_block s) x (eq_sym Hsame) Hx) as (x' & Hx' & [= _ _ Es _]).
    rewrite s32_id by lia. eapply (IH fuel _ e x'); cbn; try done; try lia. by eapply devs_ok_same; [symmetry|].
Qed.

(** No page is ever read back from swap: the loop of [swap_read] has a
    constant for a condition, so that it goes on after the eight sectors of the
    page, over the memory behind the frame, until a read past the end of the
    device stops the kernel. *)
Theorem swap_read_stops_kernel fuel s a e x y :
  frames_ok s → entries s !! a = Some e → 0 ≤ idx e < bit_cnt (used_map s) → ft s !! Z.to_nat (idx e) = Some y →
  devs_ok (all_blocks (devs s)) → all_blocks (devs s) !! swap_block s = Some x → b_size x < 2 ^ 31 → 0 ≤ swap_sector e < 2 ^ 32 →
  (Z.to_nat (b_size x) < fuel)%nat → swap_read fuel a s = Panic.
Proof.
  intros Hok He Hi Hy Hd Hx Hsz Hse Hf. unfold swap_read.
  rewrite (st_bind_ret _ _ _ _ _ (frame_get_run s a e Hok He Hi)), (st_bind_ret _ _ _ _ _ (get_ft_run s (idx e) y (proj1 Hi) Hy)).
  pose proof (proj1 (Hd _ _ Hx)). eapply (swap_read_loop_panics a (p_addr y) (Z.to_nat (b_size x))); try done; lia.
Qed.

Lemma page_supp_delete_frame a s s' : page_supp_delete a s = Ret (tt, s') →
  spe_list s' = spe_list s ∧ ∀ b, entries s !! b = None → entries s' !! b = None.
Proof.
  unfold page_supp_delete. intros Hr. apply st_bind_inv in Hr as (e & s1 & He & Hr).
  destruct (entries s !! a) as [e'|] eqn:Ha; [|by rewrite get_spe_gone in He].
  rewrite (get_spe_run s a e' Ha) in He. injection He as <- <-.
  apply st_bind_inv in Hr as ([] & s1 & Hs1 & Hr). injection Hr as <-.
  assert (spe_list s1 = spe_list s ∧ ∀ b, entries s !! b = None → entries s1 !! b = None) as [H1 H2].
  { destruct (location e'); try by injection Hs1 as <-. unfold swap_delete in Hs1.
    rewrite (st_bind_ret _ _ _ _ _ (get_spe_run s a e' Ha)) in Hs1. erewrite st_bind_ret in Hs1 by reflexivity.
    apply st_bind_inv in Hs1 as (b & s2 & Hs2 & Hs1). unfold liftS in Hs2. destruct (bitmap_set_multiple _ _ _ _); [|done..]. injection Hs2 as <- <-.
    erewrite st_bind_ret in Hs1 by reflexivity. rewrite (upd_spe_run _ a e') in Hs1 by done. injection Hs1 as <-. split; [done|].
    intros c Hc. cbn. rewrite lookup_insert_ne by congruence. done. }
  split; [done|]. intros b Hb. cbn. rewrite lookup_delete_None. auto.
Qed.

(** An entry on the list of a thread that has been freed. *)
Lemma destroy_dangling mem tid a fuel : ∀ s s', a ∈ spe_list s tid → entries s !! a = None →
  page_supp_destroy fuel mem tid s ≠ Ret (tt, s').
Proof.
  induction fuel as [|fuel IH]; intros s s' Hin Hgone Hr; cbn [page_supp_destroy] in Hr;
    apply st_bind_inv in Hr as (l & s1 & Hl & Hr); injection Hl as <- <-; (destruct (spe_list s tid) as [|b l] eqn:El; [by apply elem_of_nil in Hin|]);
    [done|].
  apply st_bind_inv in Hr as ([] & s1 & Hs1 & Hr). injection Hs1 as <-.
  apply st_bind_inv in Hr as (e & s1 & Hs1 & Hr). destruct (entries s !! b) as [e'|] eqn:Hb; [|by rewrite get_spe_gone in Hs1].
  rewrite (get_spe_run (set_list tid l s) b e' Hb) in Hs1. injection Hs1 as <- <-.
  assert (a ∈ l) as Hal by (apply elem_of_cons in Hin as [->|]; [congruence|done]).
  apply st_bind_inv in Hr as (t & s1 & Hs1 & Hr). injection Hs1 as <- <-.
  apply st_bind_inv in Hr as ([r t] & s1 & Hs1 & Hr). unfold liftS in Hs1.
  destruct (hash_delete _ _ _ _ _) as [[r' t']| |]; [|done..]. injection Hs1 as <- <- <-.
  apply st_bind_inv in Hr as ([] & s1 & Hs1 & Hr). injection Hs1 as <-.
  apply st_bind_inv in Hr as ([] & s1 & Hs1 & Hr). apply page_supp_delete_frame in Hs1 as [Hl He]. revert Hr. apply IH.
  - rewrite Hl. cbn. by rewrite fn_lookup_insert.
  - by apply He.
Qed.

(** A stack page that gets no frame: its entry is freed, but it stays on the list
    of the thread and in the table, so that the exit of the thread, which follows
    a load that fails, uses memory that is free. *)
Theorem failed_stack_dangles (contents : F → Z → list Z) fuel mem a tid pd s E O i0 s' fuel' s'' :
  (∀ fs f, file_contract (contents fs f) (file_read_at fs f)) →
  (∀ p A b, holds (P := P) p A → b ∈ A → (b.1 - PHYS_BASE) / 4096 < init_ram_pages) → pd ≠ init_page_dir →
  table_ok s → frames_ok s → a ≠ 0 → entries s !! a = None → Z.of_nat (length (elements (sp_table s))) + 2 < 2 ^ 32 →
  pd_rel (vpg s) pd (E, O) → free_frame s i0 →
  setup_stack_vm init_page_dir init_ram_pages file_read_at file_write_at fuel mem a tid pd s = Ret (Some false, s') →
  page_supp_destroy fuel' mem tid s' ≠ Ret (tt, s'').
Proof.
  intros Hfile Hram Hinit Ht Hok Ha Hfr Hlen HR Hfree Hr. unfold setup_stack_vm in Hr.
  destruct (page_supp_alloc_ok s mem a tid pd (PHYS_BASE - PGSIZE) Ht Ha Hfr Hlen) as (s1 & Hs1 & _ & (Eg & Ef & Eu & _) & He1 & _ & Hl1 & _).
  assert (entries s1 !! a = Some (fresh_entry tid pd (PHYS_BASE - PGSIZE))) as Hea by (rewrite He1; apply lookup_insert_eq).
  rewrite (st_bind_ret _ _ _ _ _ Hs1), (st_bind_ret _ _ _ _ _ (upd_spe_id s1 a _ zero_entry Hea eq_refl)) in Hr.
  destruct (frame_obtain_ok init_page_dir init_ram_pages file_read_at file_write_at contents pd O Hfile Hram Hinit fuel s1 a
    (fresh_entry tid pd (PHYS_BASE - PGSIZE)) E i0) as (r & s2 & Hs2 & _ & Ho & _ & Hob);
    [by unfold frames_ok; rewrite Ef, Eu|exact Hea|by split|by rewrite Eg|by unfold free_frame; rewrite Eu|].
  rewrite (st_bind_ret _ _ _ _ _ Hs2) in Hr. destruct r as [[]|]; try done. destruct Hob as (_ & _ & _ & He2).
  apply st_bind_inv in Hr as ([] & s3 & Hs3 & [= <-]). unfold page_supp_delete in Hs3.
  assert (entries s2 !! a = Some (set_idx BITMAP_ERROR (fresh_entry tid pd (PHYS_BASE - PGSIZE)))) as Hea2 by (rewrite He2; apply lookup_insert_eq).
  rewrite (st_bind_ret _ _ _ _ _ (get_spe_run s2 a _ Hea2)) in Hs3. injection Hs3 as <-.
  apply (destroy_dangling mem tid a); [|apply lookup_delete_eq].
  destruct Ho as (_ & El & _). cbn [set_entries spe_list]. rewrite El, Hl1, decide_True by done. apply elem_of_app. right. by left.
Qed.
End stops.

(** ** An example *)

(** No entries yet, four frames, and a disk of 1000 sectors for swap. *)
Definition ex_vm (g : pgstate Palloc.pstate) : vmstate (P := Palloc.pstate) (F := unit) :=
  VmState g ∅ (Hash 0 4 (replicate 4 [])) (λ _, []) (replicate 4 (FtEntry 0 0)) (Bitmap 4 [0]) (Bitmap 4 [0]) 0
    (ex_devs 0 [ex_disk]) (Rc4 [] 0 0 false) tt.

Lemma ex_vm_ok g : table_ok (ex_vm g) ∧ frames_ok (ex_vm g) ∧ free_frame (ex_vm g) 0.
Proof.
  destruct (page_supp_init_ok (ex_vm g) eq_refl (λ _, eq_refl)) as (s & [= <-] & Ht & _).
  split; [exact Ht|]. split; [|done]. split; [|done]. split; [done|reflexivity|]. by repeat constructor.
Qed.

(** A new page directory. *)
Lemma ex_dir : ∃ pd g, pd ≠ 0xc0100000 ∧ pd_rel (P := Palloc.pstate) g pd (no_entries, [(0xc0100000, 1)]).
Proof.
  destruct (create_ok 0xc0100000 (pg ex_lstate) _ ex_create_pre) as (pd & g & Hr & _ & _ & _ & Hcase).
  assert (match pagedir_create 0xc0100000 (pg ex_lstate) with Ret (r, _) => r | _ => 0 end = 0xc0101000) as Hpd by (vm_compute; reflexivity).
  rewrite Hr in Hpd. subst pd. destruct Hcase as [[? _]|(_ & HR & _)]; [done|]. by exists 0xc0101000, g.
Qed.

Lemma supplemental_table_is_map_witness :
  ∃ s : vmstate (P := Palloc.pstate) (F := unit), page_find 1 0x8048000 s = Ret (default 0 (entry_for s 1 0x8048000), s) ∧
  (∃ s', page_supp_alloc true 64 1 0xc0101000 0x8048000 s = Ret (64, s') ∧ table_ok s' ∧ only_table s s' ∧
    ∀ t v, entry_for s' t v = if decide (t = 1 ∧ v = 0x8048000 ∧ entry_for s 1 0x8048000 = None) then Some 64 else entry_for s t v) ∧
  ((∀ b e, b ∈ spe_list s 1 → entries s !! b = Some e → location e ≠ SWAPPED) → (length (spe_list s 1) ≤ 5)%nat →
   ∃ s', page_supp_destroy 5 true 1 s = Ret (tt, s') ∧ table_ok s' ∧ only_table s s' ∧
     (∀ b, entries s' !! b = if decide (b ∈ spe_list s 1) then None else entries s !! b) ∧
     ∀ t v, entry_for s' t v = if decide (t = 1) then None else entry_for s t v).
Proof.
  exists (ex_vm (pg ex_lstate)). destruct (ex_vm_ok (pg ex_lstate)) as (Ht & _ & _).
  apply (supplemental_table_is_map (ex_vm (pg ex_lstate)) true 64 1 0xc0101000 0x8048000 5); [done|done|done|cbn; lia].
Defined.

Lemma demand_paging_correct_witness : ∃ (pd : Z) (s : vmstate (P := Palloc.pstate) (F := unit)) e, entries s !! 64 = Some e ∧ entry_ok pd e ∧
  ∃ r s', page_fault_vm 0xc0100000 (2 ^ 18) (λ _ _, ex_read) (λ fs _ _ _, fs) 0 true 0 0 SEL_KCSEG 0 1 pd 0x8048123 true false s = fault_result SEL_KCSEG r s' ∧
    frames_ok s' ∧ only_frames s s' ∧ obtained (λ _ _, ex_read) (λ _ _, ex_exec) pd [(0xc0100000, 1)] s 64 e no_entries r s'.
Proof.
  destruct ex_dir as (pd & g & Hpd & HR). destruct (ex_vm_ok g) as (Ht & Hf & Hfree).
  destruct (page_supp_alloc_ok (ex_vm g) true 64 1 pd 0x8048000 Ht) as (s & _ & Hts & (Eg & Ef & Eu & _) & Hes & _ & _ & Hfs); [done|done|cbn; lia|].
  assert (entries s !! 64 = Some (fresh_entry 1 pd 0x8048000)) as He by (rewrite Hes; apply lookup_insert_eq).
  exists pd, s, (fresh_entry 1 pd 0x8048000). split; [done|]. assert (entry_ok pd (fresh_entry 1 pd 0x8048000)) as Heo by done.
  split; [done|].
  apply (demand_paging_correct 0xc0100000 (2 ^ 18) (λ _ _, ex_read) (λ fs _ _ _, fs) (λ _ _, ex_exec) 0 true 0 0 SEL_KCSEG 0 1 pd 0x8048123 true false s 64 _ no_entries [(0xc0100000, 1)] 0);
    [intros _ _; exact ex_file|exact ex_ram|done|done|by unfold frames_ok; rewrite Ef, Eu|by rewrite Hfs|done|done|by rewrite Eg|by unfold free_frame; rewrite Eu|done|done].
Defined.

Lemma lazy_segment_correct_witness :
  ∃ s s' : vmstate (P := Palloc.pstate) (F := unit),
    load_segment_vm true (λ i, 64 + i) 1 0xc0101000 7 0 0x8048000 84 4012 true s = Ret (true, s') ∧ table_ok s' ∧ only_table s s' ∧
    ∀ j, 0 ≤ j < Z.of_nat 1 → ∃ a e, entry_for s' 1 (0x8048000 + 4096 * j) = Some a ∧ entries s' !! a = Some e ∧ entry_ok 0xc0101000 e ∧
      writable e = true ∧ ∀ i, 0 ≤ i < 4096 → page_byte (λ _ _, ex_exec) tt e i = segment_byte ex_exec 84 0 (4096 * j + i).
Proof.
  exists (ex_vm (pg ex_lstate)). destruct (ex_vm_ok (pg ex_lstate)) as (Ht & _ & _).
  apply (lazy_segment_correct (λ _ _, ex_exec) true (λ i, 64 + i) 1 0xc0101000 7 0 0x8048000 84 4012 true (ex_vm (pg ex_lstate)) 1 tt);
    [done|done|reflexivity|done|done|done|done|done|done|done|done| |intros j _; done].
  split; [intros i Hi; split; [lia|done]|intros i j _ _ E; lia].
Defined.
